(* ===== verification/_CoqProject ===== *)
-Q . S2P
Prelude.v
IntervalList.v
VarInt.v
HostPC.v
BPF.v
Seccomp.v
SeccompSys.v
A64Common.v
IR.v
BlockBuilder.v
Branch.v
ArmSpec.v
IRLogic.v
LoadStore.v
DataProcessing.v
DataProcessingSpec.v
LoadStoreSpec.v
LogicalBitfieldSpec.v
BitfieldSpec.v
SystemSpec.v
DecodeTable.v
DecodeTableSpec.v
A64Rows.v
Frontend.v
FrontendSpec.v
InstSpec.v
FusionSpec.v
MemRevSpec.v
PPC64.v
PPC64Spec.v
PPC64Encode.v
VMA.v
VMALinks.v
VMASpec.v
VMAOps.v
VMACorrect.v
VMAMemo.v
Decoder.v
DecoderSlots.v
DecoderDiscover.v
DecoderLayout.v
DecoderSpec.v
GenerateIR.v
UnitExec.v
BlockLogic.v
ExitSpec.v
BranchSpec.v
BranchEmit.v
BlockEmit.v
BlockSpec.v
UnitEmit.v
BlockEnds.v
UnitSpec.v
UnitDecode.v
DeadFlags.v
DeadFlagsSpec.v
DeadFlagsFlow.v
DeadFlagsSim.v
DeadFlagsReach.v
UnitCorrect.v
UnitWitness.v
NZCVScan.v
NZCVScanSpec.v
NZCVPeekSpec.v
NZCVTable.v
NZCVMachine.v
Granules.v
LookupMap.v
LookupLinks.v
LookupMapSpec.v
LookupInvalidate.v
LookupRegister.v
BlockLinker.v
LinkSites.v
LookupHistory.v
LookupQuery.v
LookupThread.v
LookupThreadSpec.v
LookupSystem.v
LookupWitness.v
