(* ===== verification/Prelude.v ===== *)
(** * Verification of the POWERarm core

    POWERarm runs AArch64 Linux programs on POWER8/9 hosts.  Guest code is
    decoded, translated to an intermediate representation (IR), lowered to host
    instructions and executed; the surrounding process emulates the Linux
    system interface.  This library models the parts below in Gallina, written
    after the C++ sources, and proves what makes each of them correct.

    ** Parts, files and sources

    - A64 frontend (src/FEXCore/Source/Interface/Core/A64Frontend).
      [A64Common]: field helpers, DecodeBitMasks and MapCondition of
      TranslateCommon.h.  [IR]: the IR operations the integer translators emit,
      with an executable meaning ([step]) on the values computed so far and the
      guest state, and the emission monad [M] over the [Builder] (operations,
      constant pool, guest register cache) with the register accessors of
      IRBuilder.cpp and .h.  Guest memory is part of the state; an operation that
      faults stops the run with a reason and the last instruction marker.
      [DataProcessing], [LoadStore] and [Branch]: one definition per translator
      of TranslateDataProcessing.cpp, of the integer loads and stores of
      TranslateLoadStore.cpp and of the branches and plain system instructions
      of TranslateBranchSystem.cpp.  [Frontend]: handler table rows, dispatch,
      the RBIT/CLZ and the load/REV, REV/store fusions, and the signal paths.
      [BlockBuilder] and [GenerateIR]: the blocks of a unit, their exits and
      the register cache over their edges (IRBuilder.cpp), and the loop of
      ContextImpl::GenerateIR (Core.cpp) over the blocks of the decoder.
      [UnitExec]: how the blocks of a unit run; a block that continues a region
      has the values of its predecessor, and unspecified ones if it was not
      entered from there, as host registers would.
    - [ArmSpec]: the Arm pseudocode of the same instructions, the reference the
      translators are proved against; [A64Rows] says which row of the encoding
      tables a word belongs to.
    - [IRLogic]: weakest preconditions for emission ([wp], and [wpf] for an
      emission that may stop the run) and the invariant [inv] of the builder, so
      that translator proofs do not mention the caches.
    - [DataProcessingSpec], [LogicalBitfieldSpec], [BitfieldSpec],
      [LoadStoreSpec], [SystemSpec], [FrontendSpec]: each translator accepts
      exactly the allocated encodings and its IR computes the pseudocode's
      result, or the pseudocode's fault.  [InstSpec] puts them together as one
      statement about any word of the table; [FusionSpec] and [MemRevSpec] prove
      the two fusions.
    - Compile units: [BlockLogic] is what emission keeps of a unit under
      construction, [ExitSpec] and [BranchSpec] where exits and branches leave
      it, [BranchEmit] and [BlockEmit] that emission keeps the targets of every
      jump, [BlockSpec] the run of one block against the Arm machine,
      [UnitEmit] the emission of all blocks, [BlockEnds] that an operation that
      leaves a block ends it, [UnitSpec] the run of a unit through its blocks,
      [UnitDecode] that units of the decoder have the shape this needs,
      [UnitCorrect] the theorems and [UnitWitness] their examples.
    - The pass over the IR of a unit (Interface/IR/Passes/
      RedundantFlagCalculationElimination.cpp): [DeadFlags] is the elimination
      of dead flags and values over the worklist of blocks, the permissions to
      overwrite flags that it gives to lowerings, the reach that decides whether
      the unit reads a flag of its entry, and how the result runs, with
      arbitrary values in removed nodes.  [DeadFlagsSpec] proves each rewriting
      against the masks of read and written flags, [DeadFlagsFlow] the invariant
      of the worklist and that both phases return, [DeadFlagsSim] that the
      result follows the emitted unit, [DeadFlagsReach] the verdict about the
      entry.
    - Instruction table: [DecodeTable] is DecodeTable.cpp with the generator
      FEXCore/Scripts/a64_decode_table_generator.py (the text of a64.inc is a
      parameter); [DecodeTableSpec] proves the bucketed, frequency-ordered
      lookup equal to the first match in priority order.
    - Guest block decoder (Decoder.cpp and .h): [Decoder] is region discovery
      over generation-stamped slots, the layout of blocks, the code pages and
      the predecessor census; memory, the lookup of a word and the query for
      executable memory are parameters.  [DecoderSlots] has the slots as flags
      of addresses and the contract [ExecutableQuery]; [DecoderDiscover] and
      [DecoderLayout] have the three phases, [DecoderSpec] the unit of a compile
      and the contract discharged by [VMA].
    - Host code: [PPC64] has the load-immediate sequences and encodings of
      CodeEmitter/PPC64LE/Emitter.h, the immediate predicates and the AND-mask
      classification of Interface/IR/PPC64Immediates.h and its lowering in
      JIT/PPC64LE/ALUOps.cpp, over the Power ISA's definition of the
      instructions they use.  [PPC64Spec] proves the sequences exact,
      [PPC64Encode] carries that to the instruction words.
    - Dead condition flags (JIT/PPC64LE/NZCVExitCensus.cpp, A64Frontend/
      NZCVPeek.cpp): [NZCVScan] is the table of word classes, the bounded scan
      of guest code and the policy that marks the exits of a unit.
      [NZCVScanSpec] states what a verdict relies on of the guest and of the
      table as classes ([Machine], [NZCVTable]) and proves it sound against
      them; [NZCVPeekSpec] has the policy's use of the decoder's footprint;
      [NZCVTable] checks the table against [ArmSpec] for every word of the
      integer, load/store and branch rows, and [NZCVMachine] is a guest over these words, an
      instance of both classes.
    - Lookup caches (Interface/Core/LookupCache.h and .cpp, SMCCodeGranules.h):
      [Granules] is the lock-free bitmap of code, [LookupMap] the map that the
      threads of a code buffer share, with its page index, retained blocks and
      pool of inbound links, [LookupThread] the two levels of a thread.
      [LookupLinks] has the pool as chains, [LookupMapSpec] the map's
      invariant [map_ok], [LookupInvalidate] the three invalidations,
      [LookupRegister] (Core.cpp, SMCSoftInvalidate.h) how blocks are published
      and relinked, [LookupQuery] the queries of the store fast path,
      [LookupThreadSpec] the invariant of the two levels, [LookupSystem] the
      histories of the map and a thread.
    - Block linking (JIT/PPC64LE/JIT.cpp, ArchHelpers/PPC64Emitter.h):
      [BlockLinker] is the linker and its two delinkers on the words of host
      code, [LinkSites] what a patched exit branches to, [LookupHistory] the
      histories of the map and the host code.  [LookupWitness] has the examples
      of these theorems.
    - Host PC to guest RIP: [HostPC] is the block index of CPUBackend.cpp, the
      RIP table written by JIT.cpp and the walk of Core.cpp; [VarInt] the
      variable-length integers it is encoded with (variable_length_integer.h).
    - [IntervalList]: FEXCore/Utils/IntervalList.h.
    - Seccomp (Source/Tools/LinuxEmulation/LinuxSyscalls/Seccomp): [BPF] is the
      validator and interpreter of BPFInterpreter.cpp, [Seccomp] the evaluation
      of a filter chain with the per-thread verdict cache, [SeccompSys] the
      emulator's operations over all threads and processes.
    - Guest memory (SyscallsVMATracking.cpp and .h in LinuxSyscalls): [VMA] is
      the map of areas, the intrusive list of each mapped resource (pointers are
      base addresses) and the memo of pages already marked, with a failed
      assertion or a dangling pointer as [None].  [VMALinks] has the list
      operations, [VMASpec] the areas as attributes of single addresses and the
      invariant of the lists, [VMAOps] the range operations, [VMACorrect] the
      theorems, [VMAMemo] the memo.

    This file holds machine integers as [Z] with their wrap-around, bit-level
    extensionality, little-endian bytes and the automation the others share.

    ** What the theorems show

    - Translation: the IR of a unit of integer, load, store, branch and plain
      system instructions is never stuck, and after any number of its blocks the
      registers, flags, memory and PC are those of the Arm machine on the
      program, loops and inner branches included; fused pairs count as the two
      instructions they stand for ([UnitCorrect]).  It stops with SIGILL at an
      undefined word, and at a faulting access with the state and the marker of
      the instruction that faults; the unit of an entry that cannot be decoded
      raises its signal.  The hypothesis on BL is needed: an example shows a BL
      into the middle of a unit that reads a stale register.  Each instruction
      class has its own theorem or lemma for every encoding.
    - Optimisation: the dead-flag pass returns on every unit, and its result goes
      through the same blocks with the same registers and memory to the same
      exit or signal, with the same flags wherever they can be read; a unit
      found to read no flag of its entry runs the same from any flags.  The one
      exception has an example: a load whose value is not kept is removed, and
      its fault is lost.
    - Decoding: the table returns the matching entry of highest priority.
    - Compile units: within 2^29 compiles of a decoder every compile returns,
      its blocks are disjoint runs of executable words, its pages and its
      predecessor counts are exact; over the memory tracker it reads only what
      the mapping history made executable, now or since the cached range was last
      reset: a change of protection need not reset it.  The entry has to keep
      away from the top of the address space ([entry_ok]), where the check for
      executable memory wraps.  Examples show a stamp taken for a later
      compile's after 2^29 compiles, and a decoder with an older range.
    - Host code: constants and masks are exact for all 64-bit values, as
      encoded words; the cost predicates agree with what is emitted.
    - Dead flags: when the scan says that the flags are dead at an address, two
      runs from there that differ in the flags stay equal in all else, as long
      as the words read stay as they are; a marked exit's words are in the
      footprint of its unit, so a write to one is noticed; the check of units
      that do read the flags never raises a false alarm.
    - Lookup: over every history of publishing, relinking, linking and
      invalidating no operation gets stuck, an exit is never left patched to
      code of an invalidated block, and a thread never looks one up.  The
      invalidations erase exactly the blocks of their pages or extents; the
      bitmap never misses code.  Two theorems show departures: a store below
      the entry of a unit passes the fast path, and a lookup of address 0 can
      give the code of an invalidated block.
    - Host PC: a fault inside a block is attributed to the right guest PC.
    - Seccomp: accepted programs are memory-safe and terminate, the cache
      changes no verdict but that of RIP 0 with number 2^64 - 1, and over every
      history of installations, thread creations, teardowns and execs without
      that key a syscall meets exactly the filters of its thread.  Two theorems
      show strict mode failing open when the instruction budget is used up, and
      the empty way of the cache that answers the excluded key.
    - Guest memory: over every history of mmap, munmap and mprotect the tracker
      never fails and looks up for each address what the history gave it; each
      operation's effect is exact, shmdt included.  An example shows where a
      protection change records a wrong offset or list order.  A hit of the memo
      is for a page recorded with the same sample of the generation, between two
      wraps of the stamp; a lemma shows how a stamp stored after a wrap can match
      again.

    ** Fuel

    Loops that are not structural take fuel: the BPF interpreter the length of
    the program (jumps only go forward), the index walk the number of minimum
    blocks of the buffer, the loops over memory areas the number of areas plus
    one, the decoder's loops the instruction cap, the leader limit and the number
    of slots.  The flag scan has one unit more than its own bounds on paths and
    visited words, the phases of the dead-flag pass five rounds per block and
    queued block, since a round takes a block off the worklist or lowers or
    raises a flag of one, the walk along inbound links the size of their pool plus
    one, the registration of a range its number of pages, and filling L2 two
    rounds, since it has room after it was cleared.  The theorems show the fuel
    is enough.

    ** Assumptions of the histories

    The granule bitmap gets memory for the nodes of published code
    ([set_without_leaf] of [Granules] is what happens otherwise); link records
    and the words they patch are laid out apart, as the emitter lays them out;
    the hash of guest bytes is a parameter; reading guest memory and querying
    the host are parameters.  Threads interleave at the level of whole
    operations, in any order.  Most operations hold a lock in the sources that
    serialises them.  Without one are the lookups of a thread in its own L1, the
    reads of the granule bitmap, the samples and hits of the memo of
    MarkGuestExecutableRange, for which [VMAMemo] has the sample as a step apart
    from the record, and SeccompEmulator::ExecuteFilter, which reads the filters
    of its thread: what one of these does that overlaps a change by another
    thread, such as TSYNC, is not covered.

    For loads and stores: memory is a function from addresses to bytes with a
    set of readable and of writable addresses; an access that touches a byte out
    of reach has no effect and is reported at its first byte, so what hardware
    leaves behind of one that crosses into an unmapped page is not described.
    Stack-pointer alignment checks and address tags are off, as the sources assume.  The state is that of one thread: the
    fences around acquire and release accesses are operations of the IR without
    an effect on it, and what they order is stated only as their presence.  The
    host's prefetch instruction is a parameter.

    ** Not modelled

    The translators of SVC, HLT, CLREX, MRS and MSR, of exclusive, atomic, vector
    and floating-point instructions and of the loads and stores of vector
    registers; in the translation loop of Core.cpp, the validation of guest bytes
    before an instruction (SMCChecks=full), the gate of a redirected memory
    routine at the entry, and the fusions of whole loops (vector scans, lane
    tests, exclusive loops).  In the theorem on units the Arm machine runs the
    program as it was read when the unit was decoded; programs that change their
    code are the subject of the lookup caches.  Of the passes over the
    IR, the fusion of compares, the folding of branches (which the marker before
    each jump keeps from matching) and register allocation; the rest of the JIT,
    code buffers and the code cache on disk, the patching of code while another
    thread runs it, signals, file and process emulation, thunks and tools. *)
From Stdlib Require Export ZArith Lia Btauto.
From stdpp Require Export base list numbers option sorting.

#[export] Set Default Proof Using "Type".
Open Scope Z_scope.

(** ** Machine integers

    A [w]-bit unsigned C++ integer is a [Z] in [0, 2^w).  [wrap w] is the
    conversion to such a type, [sgn w] reads the same bits as a two's-complement
    value. *)

Definition wrap (w z : Z) : Z := z mod 2 ^ w.
Definition u8 (z : Z) : Z := wrap 8 z.
Definition u16 (z : Z) : Z := wrap 16 z.
Definition u32 (z : Z) : Z := wrap 32 z.
Definition u64 (z : Z) : Z := wrap 64 z.

(** The two's-complement value of the low [w] bits of [z]. *)
Definition sgn (w z : Z) : Z :=
  let v := z mod 2 ^ w in if v <? 2 ^ (w - 1) then v else v - 2 ^ w.

Definition b2z (b : bool) : Z := if b then 1 else 0.

(** [in_width w z]: [z] is a value of the [w]-bit unsigned type. *)
Definition in_width (w z : Z) : Prop := 0 <= z < 2 ^ w.

(** ** Bit-level extensionality *)

Lemma testbit_wrap w z i :
  0 <= w -> Z.testbit (wrap w z) i = (i <? w) && Z.testbit z i.
Proof.
  intros Hw. unfold wrap. destruct (Z.ltb_spec i w).
  - destruct (decide (i < 0)); [rewrite !Z.testbit_neg_r by lia; reflexivity|].
    rewrite Z.mod_pow2_bits_low by lia. reflexivity.
  - rewrite Z.mod_pow2_bits_high by lia. reflexivity.
Qed.

Lemma testbit_above w z i : in_width w z -> w <= i -> Z.testbit z i = false.
Proof.
  intros Hz Hi. destruct (decide (0 <= w)) as [Hw|Hw].
  - rewrite <- (Z.mod_small z (2 ^ w)) by exact Hz.
    apply Z.mod_pow2_bits_high. lia.
  - unfold in_width in Hz. rewrite Z.pow_neg_r in Hz by lia. lia.
Qed.

Lemma wrap_range w z : 0 <= w -> in_width w (wrap w z).
Proof. intros Hw. apply Z.mod_pos_bound. apply Z.pow_pos_nonneg; lia. Qed.

Lemma wrap_small w z : in_width w z -> wrap w z = z.
Proof. intros Hz. apply Z.mod_small. exact Hz. Qed.

Lemma u64_small z : 0 <= z < 2 ^ 64 -> u64 z = z.
Proof. apply wrap_small. Qed.

Lemma wrap_wrap w z : 0 <= w -> wrap w (wrap w z) = wrap w z.
Proof. intros Hw. apply wrap_small, wrap_range, Hw. Qed.

Lemma in_width_bits w z :
  0 <= w -> 0 <= z -> (forall i, w <= i -> Z.testbit z i = false) -> in_width w z.
Proof.
  intros Hw Hz Hb. replace z with (wrap w z).
  - apply wrap_range, Hw.
  - apply Z.bits_inj'. intros i Hi. rewrite testbit_wrap by lia.
    destruct (Z.ltb_spec i w); [reflexivity|]. rewrite Hb by lia. reflexivity.
Qed.

(** ** Little-endian byte strings

    Memory contents are lists of bytes (a byte is a [Z] in [0, 256)). *)

Fixpoint to_le (n : nat) (z : Z) : list Z :=
  match n with
  | O => []
  | S n => z mod 256 :: to_le n (z / 256)
  end.

Fixpoint from_le (l : list Z) : Z :=
  match l with
  | [] => 0
  | b :: l => b + 256 * from_le l
  end.

Lemma length_to_le n z : length (to_le n z) = n.
Proof. revert z. induction n as [|n IH]; intros z; simpl; [done|]. by rewrite IH. Qed.

Lemma from_to_le n z : from_le (to_le n z) = wrap (8 * Z.of_nat n) z.
Proof.
  revert z. induction n as [|n IH]; intros z; simpl.
  - unfold wrap. by rewrite Z.mod_1_r.
  - rewrite IH. unfold wrap. replace (8 * Z.of_nat (S n)) with (8 + 8 * Z.of_nat n) by lia.
    rewrite Z.pow_add_r by lia. change (2 ^ 8) with 256.
    rewrite (Z.mul_comm 256 (_ mod _)), Z.rem_mul_r by (try apply Z.pow_nonzero; lia). lia.
Qed.

(** Reading back [n] bytes stored at the front of a buffer. *)
Lemma read_le n z rest :
  from_le (take n (to_le n z ++ rest)) = wrap (8 * Z.of_nat n) z /\
  (length (to_le n z ++ rest) <? n)%nat = false.
Proof.
  rewrite take_app_length' by (by rewrite length_to_le). rewrite from_to_le. split; [done|].
  apply Nat.ltb_ge. rewrite length_app, length_to_le. lia.
Qed.

(** ** Two's complement *)

Lemma sgn_range w z : 0 < w -> - 2 ^ (w - 1) <= sgn w z < 2 ^ (w - 1).
Proof.
  intros Hw. unfold sgn. assert (Hp : 2 ^ w = 2 * 2 ^ (w - 1)).
  { rewrite <- Z.pow_succ_r by lia. f_equal. lia. }
  pose proof (Z.mod_pos_bound z (2 ^ w)) as Hb.
  assert (0 < 2 ^ (w - 1)) by (apply Z.pow_pos_nonneg; lia).
  destruct (Z.ltb_spec (z mod 2 ^ w) (2 ^ (w - 1))); lia.
Qed.

Lemma sgn_wrap w z : 0 <= w -> sgn w (wrap w z) = sgn w z.
Proof. intros Hw. unfold sgn. fold (wrap w (wrap w z)). by rewrite wrap_wrap. Qed.

Lemma wrap_sgn w z : 0 <= w -> wrap w (sgn w z) = wrap w z.
Proof.
  intros Hw. unfold wrap, sgn. assert (2 ^ w <> 0) by (apply Z.pow_nonzero; lia).
  destruct (_ <? _); [by rewrite Z.mod_mod|].
  rewrite <- (Z.mod_add (_ - _) 1) by done. rewrite Z.mul_1_l, Z.sub_add. by rewrite Z.mod_mod.
Qed.

(** A value in the signed range is recovered from its low bits. *)
Lemma sgn_id w z : 0 < w -> - 2 ^ (w - 1) <= z < 2 ^ (w - 1) -> sgn w z = z.
Proof.
  intros Hw Hz. unfold sgn.
  assert (Hp : 2 ^ w = 2 * 2 ^ (w - 1)) by (rewrite <- Z.pow_succ_r by lia; f_equal; lia).
  destruct (decide (0 <= z)).
  - rewrite Z.mod_small by lia. destruct (Z.ltb_spec z (2 ^ (w - 1))); lia.
  - rewrite <- (Z.mod_add z 1), Z.mul_1_l, Z.mod_small by lia.
    destruct (Z.ltb_spec (z + 2 ^ w) (2 ^ (w - 1))); lia.
Qed.

(** ** Disjoint bit fields *)

Lemma lor_field_add n a b :
  0 <= n -> in_width n a -> Z.lor a (Z.shiftl b n) = a + b * 2 ^ n.
Proof.
  intros Hn Ha. rewrite <- Z.shiftl_mul_pow2 by lia.
  assert (Hd : Z.land a (Z.shiftl b n) = 0).
  { apply Z.bits_inj'. intros i Hi. rewrite Z.land_spec, Z.bits_0, Z.shiftl_spec by lia.
    destruct (decide (i < n)).
    - rewrite (Z.testbit_neg_r b) by lia. apply andb_false_r.
    - rewrite (testbit_above n a) by (done || lia). done. }
  rewrite Z.add_nocarry_lxor by done. symmetry. by apply Z.lxor_lor.
Qed.

Lemma shiftr_field n a b : 0 <= n -> in_width n a -> Z.shiftr (a + b * 2 ^ n) n = b.
Proof.
  intros Hn Ha. rewrite Z.shiftr_div_pow2 by lia. unfold in_width in Ha.
  rewrite Z.div_add by lia. rewrite Z.div_small by lia. lia.
Qed.

Lemma wrap_field n a b : 0 <= n -> in_width n a -> wrap n (a + b * 2 ^ n) = a.
Proof.
  intros Hn Ha. unfold wrap, in_width in *. rewrite Z.mod_add by lia. by apply Z.mod_small.
Qed.

Lemma land_wrap z n : 0 <= n -> Z.land z (Z.ones n) = wrap n z.
Proof. apply Z.land_ones. Qed.

(** ** Values given bit by bit *)

Fixpoint of_bits (n : nat) (f : Z -> bool) : Z :=
  match n with
  | O => 0
  | S n => of_bits n f + (if f (Z.of_nat n) then 2 ^ Z.of_nat n else 0)
  end.

Lemma of_bits_range n f : in_width (Z.of_nat n) (of_bits n f).
Proof.
  induction n as [|n IH]; simpl; [unfold in_width; simpl; lia|]. unfold in_width in *.
  rewrite Nat2Z.inj_succ, Z.pow_succ_r by lia. destruct (f _); lia.
Qed.

Lemma testbit_of_bits n f i : Z.testbit (of_bits n f) i = (0 <=? i) && (i <? Z.of_nat n) && f i.
Proof.
  destruct (decide (i < 0)); [rewrite Z.testbit_neg_r by lia; destruct (Z.leb_spec 0 i); [lia|done]|].
  replace (0 <=? i) with true by lia. simpl.
  revert i n0. induction n as [|n IH]; intros i Hi; cbn [of_bits].
  - rewrite Z.bits_0. destruct (Z.ltb_spec i (Z.of_nat 0)); [lia|done].
  - pose proof (of_bits_range n f) as Hr.
    assert (Hadd : of_bits n f + (if f (Z.of_nat n) then 2 ^ Z.of_nat n else 0)
                   = Z.lor (of_bits n f) (Z.shiftl (b2z (f (Z.of_nat n))) (Z.of_nat n))).
    { rewrite lor_field_add by (done || lia). destruct (f (Z.of_nat n)); simpl; lia. }
    rewrite Hadd, Z.lor_spec, Z.shiftl_spec, IH by lia.
    destruct (Z.ltb_spec i (Z.of_nat n)), (Z.ltb_spec i (Z.of_nat (S n))); try lia; simpl.
    + rewrite (Z.testbit_neg_r _ (i - _)) by lia. by rewrite orb_false_r.
    + replace i with (Z.of_nat n) by lia. rewrite Z.sub_diag. by destruct (f (Z.of_nat n)).
    + assert (Hne : i - Z.of_nat n <> 0) by lia. destruct (f (Z.of_nat n)); simpl; [|apply Z.bits_0].
      change 1 with (2 ^ 0). apply Z.pow2_bits_false. lia.
Qed.

(** Two values of the same width are equal when their bits below it are. *)
Lemma bits_ext w a b :
  0 <= w -> in_width w a -> in_width w b ->
  (forall i, 0 <= i < w -> Z.testbit a i = Z.testbit b i) -> a = b.
Proof.
  intros Hw Ha Hb H. apply Z.bits_inj'. intros i Hi. destruct (decide (i < w)); [apply H; lia|].
  by rewrite (testbit_above w a), (testbit_above w b) by (done || lia).
Qed.

Lemma pow2_pred_ones n : 2 ^ n - 1 = Z.ones n.
Proof. rewrite Z.ones_equiv. lia. Qed.

(** ** Ranges of the bit operations *)

Lemma in_width_mono w v z : in_width v z -> v <= w -> 0 <= v -> in_width w z.
Proof. intros [H1 H2] Hle H0. pose proof (Z.pow_le_mono_r 2 v w). split; lia. Qed.

Lemma in_width_bitop (f : Z -> Z -> Z) w a b :
  (forall i, 0 <= i -> Z.testbit a i = false -> Z.testbit b i = false -> Z.testbit (f a b) i = false) ->
  0 <= f a b -> 0 <= w -> in_width w a -> in_width w b -> in_width w (f a b).
Proof.
  intros Hf H0 Hw Ha Hb. apply in_width_bits; [done|done|]. intros i Hi.
  apply Hf; [lia|by apply (testbit_above w)..].
Qed.

Lemma in_width_land w a b : 0 <= w -> in_width w a -> 0 <= b -> in_width w (Z.land a b).
Proof.
  intros Hw Ha Hb. apply in_width_bits; [done|apply Z.land_nonneg; destruct Ha; lia|].
  intros i Hi. by rewrite Z.land_spec, (testbit_above w a).
Qed.

Lemma in_width_lor w a b : 0 <= w -> in_width w a -> in_width w b -> in_width w (Z.lor a b).
Proof.
  intros Hw Ha Hb. apply (in_width_bitop Z.lor); try done.
  - intros i _ H1 H2. by rewrite Z.lor_spec, H1, H2.
  - destruct Ha, Hb. apply Z.lor_nonneg. lia.
Qed.

Lemma in_width_lxor w a b : 0 <= w -> in_width w a -> in_width w b -> in_width w (Z.lxor a b).
Proof.
  intros Hw Ha Hb. apply (in_width_bitop Z.lxor); try done.
  - intros i _ H1 H2. by rewrite Z.lxor_spec, H1, H2.
  - destruct Ha, Hb. apply Z.lxor_nonneg. lia.
Qed.

Lemma in_width_shiftr w a k : 0 <= w -> in_width w a -> 0 <= k -> in_width w (Z.shiftr a k).
Proof.
  intros Hw [H0 H1] Hk. rewrite Z.shiftr_div_pow2 by done.
  assert (0 < 2 ^ k) by (apply Z.pow_pos_nonneg; lia).
  split; [apply Z.div_pos; lia|]. apply Z.le_lt_trans with a; [|done]. apply Z.div_le_upper_bound; nia.
Qed.

Lemma in_width_ldiff w a m : 0 <= w -> in_width w a -> in_width w (Z.ldiff a m).
Proof.
  intros Hw Ha. apply in_width_bits; [done|apply Z.ldiff_nonneg; left; destruct Ha; lia|].
  intros i Hi. by rewrite Z.ldiff_spec, (testbit_above w a).
Qed.

(** ** Automation

    [width] closes range goals on [wrap]; the [bits] rewrite base computes
    [Z.testbit] through the operators, its side conditions solved by [lia]. *)

Create HintDb width discriminated.
#[export] Hint Resolve wrap_range : width.
#[export] Hint Extern 1 (0 <= _) => lia : width.
#[export] Hint Extern 1 (0 < _) => lia : width.
#[export] Hint Extern 2 (in_width _ _) => (unfold in_width; lia) : width.
Ltac width := solve [auto with width].

Create Rewrite HintDb bits.
#[export] Hint Rewrite Z.land_spec Z.lor_spec Z.lxor_spec Z.ldiff_spec Z.bits_0 : bits.
#[export] Hint Rewrite Z.shiftl_spec Z.shiftr_spec Z.lnot_spec testbit_wrap
  Z.testbit_ones_nonneg using lia : bits.

(** Case analysis on the first [if] of the goal, naming its equation. *)
Ltac case_if H :=
  match goal with
  | |- context [if ?b then _ else _] =>
      let H' := fresh H in lazymatch type of b with bool => destruct b eqn:H' end
  end.

(** The same in a hypothesis. *)
Ltac case_if_in Hyp H :=
  match type of Hyp with
  | context [if ?b then _ else _] =>
      let H' := fresh H in lazymatch type of b with bool => destruct b eqn:H' end
  end.

(** Decision of [in_width], for concrete data. *)
Definition in_widthb (w z : Z) : bool := (0 <=? z) && (z <? 2 ^ w).

Lemma in_widthb_spec w z : in_widthb w z = true -> in_width w z.
Proof. unfold in_widthb, in_width. lia. Qed.

Lemma Forall_in_widthb w l : forallb (in_widthb w) l = true -> Forall (in_width w) l.
Proof.
  intros H. apply Forall_forall. intros x Hx. apply in_widthb_spec.
  rewrite forallb_forall in H. apply H. by apply list_elem_of_In.
Qed.

(** Membership in a list that is written out. *)
Ltac member := repeat first [apply list_elem_of_here|apply list_elem_of_further].
