(* ===== verification/IntervalList.v ===== *)
(** The sorted interval list of FEXCore/include/FEXCore/Utils/IntervalList.h
    (the ranges that have volatile metadata, the force-TSO ranges): its
    vector of half-open intervals, the six operations on it, the
    representation invariant, and the refinement of every operation to the
    finite set of covered offsets. *)
From S2P Require Import Prelude.

Module IntervalList.

(** ** The data *)

Record Interval := mkInterval { Offset : Z; End : Z }.

#[export] Instance Interval_eq_dec : EqDecision Interval.
Proof. solve_decision. Defined.

Record QueryResult := mkQuery { Enclosed : bool; Size : Z; QInterval : option Interval }.

(** ** Standard-library searches

    [std::lower_bound]/[std::upper_bound] return the partition point of a
    range partitioned by the predicate: the position of the first element on
    which it is false.  [partitioned] is the precondition of the search. *)

Fixpoint partition_point (p : Interval -> bool) (l : list Interval) : nat :=
  match l with
  | [] => 0%nat
  | i :: l' => if p i then S (partition_point p l') else 0%nat
  end.

Fixpoint partitioned (p : Interval -> bool) (l : list Interval) : bool :=
  match l with
  | [] => true
  | i :: l' => if p i then partitioned p l' else forallb (fun j => negb (p j)) l'
  end.

(** The comparator of [std::equal_range]: [LHS.End <= RHS.Offset]. *)
Definition before (a b : Interval) : bool := End a <=? Offset b.

(** [std::equal_range(begin, end, Entry, before)] as a pair of positions. *)
Definition equal_range (l : list Interval) (e : Interval) : nat * nat :=
  (partition_point (fun i => before i e) l,
   partition_point (fun i => negb (before e i)) l).

(** [vector::erase(begin + a, begin + b)]. *)
Definition erase (a b : nat) (l : list Interval) : list Interval := take a l ++ drop b l.

(** [vector::insert(begin + a, x)]. *)
Definition insert_at (a : nat) (x : Interval) (l : list Interval) : list Interval :=
  take a l ++ x :: drop a l.

Definition dflt : Interval := mkInterval 0 0.
Definition at_ (l : list Interval) (n : nat) : Interval := default dflt (l !! n).

(** ** The operations *)

Definition Insert (l : list Interval) (e : Interval) : list Interval :=
  if Offset e =? End e then l else
  let '(first, endp) := equal_range l e in
  if (first =? endp)%nat then insert_at first e l else
  let last := (endp - 1)%nat in
  let off := Z.min (Offset e) (Offset (at_ l first)) in
  let en := Z.max (End (at_ l last)) (End e) in
  let l1 := erase (S first) (S last) l in
  <[first := mkInterval off en]> l1.

(** [Insert(const IntervalList& Other)]. *)
Definition InsertAll (l other : list Interval) : list Interval := foldl Insert l other.

Definition Remove (l : list Interval) (e : Interval) : list Interval :=
  if Offset e =? End e then l else
  let '(first, endp) := equal_range l e in
  if (first =? endp)%nat then l else
  let f := at_ l first in
  if (Offset f <? Offset e) && (End f >? End e) then
    let l1 := insert_at first f l in
    let l2 := <[first := mkInterval (Offset f) (Offset e)]> l1 in
    <[S first := mkInterval (End e) (End f)]> l2
  else
  let last := (endp - 1)%nat in
  let straddles := Offset f <? Offset e in
  let l1 := if straddles then <[first := mkInterval (Offset f) (Offset e)]> l else l in
  if straddles && (first =? last)%nat then l1 else
  let first1 := if straddles then S first else first in
  let la := at_ l1 last in
  let l2 := if End la >? End e then <[last := mkInterval (End e) (End la)]> l1 else l1 in
  if (End la >? End e) && (last =? first1)%nat then l2 else
  let last1 := if End la >? End e then (last - 1)%nat else last in
  erase first1 (S last1) l2.

Definition Query (l : list Interval) (off : Z) : QueryResult :=
  match l !! partition_point (fun i => negb (off <? End i)) l with
  | None => mkQuery false 0 None
  | Some i =>
      if Offset i >? off then mkQuery false (Offset i - off) (Some i)
      else mkQuery true (End i - off) (Some i)
  end.

Definition Intersect (l : list Interval) (e : Interval) : bool :=
  match l !! partition_point (fun i => negb (Offset e <? End i)) l with
  | None => false
  | Some i => Offset i <? End e
  end.

Definition Contains (l : list Interval) (e : Interval) : bool :=
  match l !! partition_point (fun i => negb (Offset e <? End i)) l with
  | None => false
  | Some i => (Offset i <=? Offset e) && (End i >=? End e)
  end.

(** ** Abstraction: the covered offsets *)

Definition inside (x : Z) (i : Interval) : Prop := Offset i <= x < End i.
Definition covers (l : list Interval) (x : Z) : Prop := Exists (inside x) l.

(** The representation invariant: non-empty intervals, in increasing order,
    pairwise disjoint (touching intervals are kept apart). *)
Definition wf (l : list Interval) : Prop :=
  Forall (fun i => Offset i < End i) l /\ StronglySorted (fun i j => End i <= Offset j) l.

(** ** The three-way split of the list around an entry *)

Record split (l : list Interval) (e : Interval) (L M R : list Interval) : Prop := {
  split_app : l = L ++ M ++ R;
  split_L : Forall (fun i => End i <= Offset e) L;
  split_M : Forall (fun i => Offset e < End i /\ Offset i < End e) M;
  split_R : Forall (fun i => End e <= Offset i) R;
}.

Lemma partition_point_app p L R :
  Forall (fun i => p i = true) L -> Forall (fun i => p i = false) R ->
  partition_point p (L ++ R) = length L.
Proof.
  intros HL HR. induction HL as [|i L Hi HL IH]; simpl.
  - destruct HR as [|i R Hi HR]; simpl; [done|]. by rewrite Hi.
  - by rewrite Hi, IH.
Qed.

Lemma wf_cons i l :
  wf (i :: l) <-> Offset i < End i /\ Forall (fun j => End i <= Offset j) l /\ wf l.
Proof. unfold wf. rewrite StronglySorted_cons, Forall_cons. tauto. Qed.

Lemma wf_app l1 l2 :
  wf (l1 ++ l2) <->
  wf l1 /\ wf l2 /\ Forall (fun i => Forall (fun j => End i <= Offset j) l2) l1.
Proof.
  induction l1 as [|i l1 IH]; simpl.
  - split; [intros ?; split_and!; auto; by split; constructor | tauto].
  - rewrite !wf_cons, IH, Forall_app, Forall_cons. tauto.
Qed.

Lemma wf_singleton i : Offset i < End i -> wf [i].
Proof. intros H. split; repeat constructor; exact H. Qed.

(** The offsets of a well-formed list bound the ends that precede them. *)
Lemma wf_split l e : wf l -> Offset e < End e -> exists L M R, split l e L M R.
Proof.
  intros Hwf He. induction l as [|i l IH].
  - exists [], [], []. by split.
  - apply wf_cons in Hwf as (Hi & Hil & Hwf).
    destruct (IH Hwf) as (L & M & R & [-> HL HM HR]).
    destruct (decide (End i <= Offset e)) as [H1|H1].
    { exists (i :: L), M, R. split; auto. }
    assert (HL0 : L = []).
    { destruct L as [|j L]; [done|]. apply Forall_cons in HL as [Hj _].
      apply Forall_cons in Hil as [Hij _]. apply wf_cons in Hwf. lia. }
    subst L. destruct (decide (Offset i < End e)) as [H2|H2].
    { exists [], (i :: M), R. split; auto. constructor; [lia|done]. }
    assert (HM0 : M = []).
    { destruct M as [|j M]; [done|]. apply Forall_cons in HM as [Hj _].
      apply Forall_cons in Hil as [Hij _]. lia. }
    subst M. exists [], [], (i :: R). split; auto. constructor; [lia|done].
Qed.

(** Closes a [Forall] goal from the same list's [Forall] by arithmetic. *)
Ltac solve_Forall :=
  match goal with
  | H : Forall _ ?l |- Forall _ ?l => apply (Forall_impl _ _ _ H); intros; unfold before; lia
  end.

Lemma equal_range_split l e L M R :
  Offset e < End e -> split l e L M R ->
  wf l -> equal_range l e = (length L, (length L + length M)%nat).
Proof.
  intros He [-> HL HM HR] Hwf. unfold equal_range. f_equal.
  - apply partition_point_app; [|apply Forall_app; split]; try solve_Forall.
    apply wf_app in Hwf as (_ & Hwf & _). apply wf_app in Hwf as (_ & [Hwf _] & _).
    clear -He HR Hwf. induction HR as [|i R Hi HR IH]; [done|].
    apply Forall_cons in Hwf as [? ?]. constructor; [unfold before; lia|auto].
  - rewrite (assoc_L (++)). rewrite <- length_app.
    apply partition_point_app; [apply Forall_app; split|]; try solve_Forall.
    apply wf_app in Hwf as ([Hwf _] & _ & _).
    clear -He HL Hwf. induction HL as [|i L Hi HL IH]; [done|].
    apply Forall_cons in Hwf as [? ?]. constructor; [unfold before; lia|auto].
Qed.

(** ** Closed forms of the mutations on a split list *)

Definition hull (e f la : Interval) : Interval :=
  mkInterval (Z.min (Offset e) (Offset f)) (Z.max (End la) (End e)).

Definition left_part (e f : Interval) : list Interval :=
  if Offset f <? Offset e then [mkInterval (Offset f) (Offset e)] else [].
Definition right_part (e la : Interval) : list Interval :=
  if End la >? End e then [mkInterval (End e) (End la)] else [].

Lemma at_app_r l1 l2 n : at_ (l1 ++ l2) (length l1 + n) = at_ l2 n.
Proof. unfold at_. rewrite lookup_app_r by lia. do 2 f_equal. lia. Qed.

Lemma erase_app l1 l2 l3 :
  erase (length l1) (length l1 + length l2) (l1 ++ l2 ++ l3) = l1 ++ l3.
Proof.
  unfold erase. rewrite take_app_length, (assoc_L (++)), drop_app_length'; [done|].
  by rewrite length_app.
Qed.

Lemma at_first L f T R : at_ (L ++ (f :: T) ++ R) (length L) = f.
Proof. by rewrite <- (Nat.add_0_r (length L)), at_app_r. Qed.

Lemma at_last L f T R :
  at_ (L ++ (f :: T) ++ R) (length L + length (f :: T) - 1) = List.last (f :: T) dflt.
Proof.
  replace (length L + length (f :: T) - 1)%nat with (length L + length T)%nat by (simpl; lia).
  rewrite at_app_r. destruct T as [|la T _] using rev_ind; [done|].
  rewrite (app_comm_cons T), List.last_last. unfold at_.
  rewrite length_app, <- app_assoc. simpl length.
  replace (length T + 1)%nat with (length (f :: T) + 0)%nat by (simpl; lia).
  by rewrite lookup_app_r, Nat.add_sub_swap, Nat.sub_diag by lia.
Qed.

Lemma erase_rest L f T R :
  erase (S (length L)) (length L + length (f :: T)) (L ++ (f :: T) ++ R) = L ++ f :: R.
Proof.
  replace (S (length L)) with (length (L ++ [f])) by (rewrite length_app; simpl; lia).
  replace (length L + length (f :: T))%nat with (length (L ++ [f]) + length T)%nat
    by (rewrite length_app; simpl; lia).
  replace (L ++ (f :: T) ++ R) with ((L ++ [f]) ++ T ++ R) by by rewrite <- app_assoc.
  by rewrite erase_app, <- app_assoc.
Qed.

Lemma insert_mid (L R : list Interval) (x y : Interval) n :
  n = length L -> <[n := y]> (L ++ x :: R) = L ++ y :: R.
Proof. intros ->. by rewrite insert_app_r_alt, Nat.sub_diag by lia. Qed.

Lemma erase_mid (L M R l : list Interval) a b :
  l = L ++ M ++ R -> a = length L -> b = (length L + length M)%nat -> erase a b l = L ++ R.
Proof. intros -> -> ->. apply erase_app. Qed.

Lemma Insert_split l e L M R :
  wf l -> Offset e < End e -> split l e L M R ->
  Insert l e = L ++ (match M with [] => e | f :: _ => hull e f (List.last M dflt) end) :: R.
Proof.
  intros Hwf He Hs. unfold Insert. rewrite (proj2 (Z.eqb_neq _ _)) by lia.
  rewrite (equal_range_split l e L M R He Hs Hwf). destruct Hs as [-> _ _ _].
  destruct M as [|f T].
  - simpl. rewrite Nat.add_0_r, Nat.eqb_refl. unfold insert_at.
    by rewrite take_app_length, drop_app_length.
  - rewrite (proj2 (Nat.eqb_neq _ _)) by (simpl; lia). rewrite at_last, at_first.
    replace (S (length L + length (f :: T) - 1)) with (length L + length (f :: T))%nat
      by (simpl; lia).
    by rewrite erase_rest, insert_mid.
Qed.

Lemma Remove_split_one l e L f R :
  wf l -> Offset e < End e -> split l e L [f] R ->
  Remove l e = L ++ left_part e f ++ right_part e f ++ R.
Proof.
  intros Hwf He Hs. unfold Remove. rewrite (proj2 (Z.eqb_neq _ _)) by lia.
  rewrite (equal_range_split l e L [f] R He Hs Hwf). destruct Hs as [-> _ _ _].
  rewrite (proj2 (Nat.eqb_neq _ _)) by (simpl; lia). rewrite at_first.
  replace (length L + length [f] - 1)%nat with (length L) by (simpl; lia).
  unfold left_part, right_part.
  assert (Hat : at_ (L ++ f :: R) (length L) = f) by exact (at_first L f [] R).
  destruct (Offset f <? Offset e) eqn:Hs; destruct (End f >? End e) eqn:Hg; simpl;
    rewrite ?Nat.eqb_refl, ?Hat, ?Hg; simpl.
  - unfold insert_at. rewrite take_app_length, drop_app_length. simpl.
    rewrite insert_mid by done.
    replace (L ++ mkInterval (Offset f) (Offset e) :: f :: R)
      with ((L ++ [mkInterval (Offset f) (Offset e)]) ++ f :: R) by by rewrite <- app_assoc.
    rewrite insert_mid by (rewrite length_app; simpl; lia). by rewrite <- app_assoc.
  - by rewrite insert_mid.
  - by rewrite insert_mid.
  - eapply (erase_mid _ [f]); [done..|simpl; lia].
Qed.

(** A block of two or more overlapping intervals: its first interval ends
    inside the entry, its last begins inside it. *)
Lemma Remove_split_many l e L f T la R :
  wf l -> Offset e < End e -> split l e L (f :: T ++ [la]) R ->
  Remove l e = L ++ left_part e f ++ right_part e la ++ R.
Proof.
  intros Hwf He Hs. unfold Remove. rewrite (proj2 (Z.eqb_neq _ _)) by lia.
  rewrite (equal_range_split l e L (f :: T ++ [la]) R He Hs Hwf). destruct Hs as [-> _ HM _].
  assert (Hf : End f <= End e).
  { apply wf_app in Hwf as (_ & Hwf & _). apply wf_app in Hwf as (Hwf & _ & _).
    apply wf_cons in Hwf as (_ & Hf & _). apply Forall_app in Hf as [_ Hf].
    rewrite Forall_singleton in Hf. apply Forall_cons in HM as [_ HM].
    apply Forall_app in HM as [_ HM]. rewrite Forall_singleton in HM. simpl in *. lia. }
  rewrite (proj2 (Nat.eqb_neq _ _)) by (simpl; lia). rewrite at_first.
  set (last := (length L + length (f :: T ++ [la]) - 1)%nat).
  assert (Hlast : last = (length L + S (length T))%nat)
    by (unfold last; simpl; rewrite length_app; simpl; lia).
  rewrite (proj2 (Nat.eqb_neq _ last)), Bool.andb_false_r by lia.
  replace (End f >? End e) with false by lia. rewrite Bool.andb_false_r.
  set (f' := if Offset f <? Offset e then mkInterval (Offset f) (Offset e) else f).
  set (l1 := if Offset f <? Offset e then _ else _).
  assert (Hl1 : l1 = L ++ f' :: T ++ la :: R).
  { unfold l1, f'. simpl. rewrite <- app_assoc. simpl.
    destruct (Offset f <? Offset e); [by rewrite insert_mid|done]. }
  assert (Hla : at_ l1 last = la).
  { rewrite Hl1, Hlast, at_app_r. unfold at_. simpl. by rewrite lookup_app_r, Nat.sub_diag by lia. }
  rewrite Hla, Hl1. replace (L ++ f' :: T ++ la :: R) with ((L ++ f' :: T) ++ la :: R)
    by by rewrite <- app_assoc.
  rewrite insert_mid by (rewrite length_app; simpl; lia).
  assert (Hfin : forall x D, erase (if Offset f <? Offset e then S (length L) else length L)
     (length L + S (length T) + length D) ((L ++ f' :: T) ++ D ++ x) = L ++ left_part e f ++ x).
  { intros x D. unfold left_part, f'. destruct (Offset f <? Offset e) eqn:Hoff.
    - rewrite (erase_mid (L ++ [mkInterval (Offset f) (Offset e)]) (T ++ D) x).
      + by rewrite <- app_assoc.
      + by rewrite <- !app_assoc.
      + rewrite length_app; simpl; lia.
      + rewrite !length_app; simpl; lia.
    - rewrite (erase_mid L (f :: T ++ D) x); [done| |done|].
      + simpl. by rewrite <- !app_assoc.
      + simpl. rewrite length_app. lia. }
  unfold right_part. destruct (End la >? End e); simpl.
  - rewrite <- (Hfin (mkInterval (End e) (End la) :: R) []). simpl app.
    replace (length L + S (length T) + length (@nil Interval))%nat with (S (last - 1)) by (simpl; lia).
    destruct (Nat.eqb_spec last (if Offset f <? Offset e then S (length L) else length L)) as [Heq|];
      [|done].
    replace (S (last - 1)) with last by lia. rewrite <- Heq. unfold erase. by rewrite take_drop.
  - rewrite <- (Hfin R [la]). replace (length L + S (length T) + length [la])%nat with (S last) by (simpl; lia).
    done.
Qed.

Lemma Remove_split l e L f T R :
  wf l -> Offset e < End e -> split l e L (f :: T) R ->
  Remove l e = L ++ left_part e f ++ right_part e (List.last (f :: T) dflt) ++ R.
Proof.
  destruct T as [|la T _] using rev_ind; [apply Remove_split_one|].
  rewrite (app_comm_cons T), List.last_last. apply Remove_split_many.
Qed.

Lemma Remove_split_nil l e L R :
  wf l -> Offset e < End e -> split l e L [] R -> Remove l e = l.
Proof.
  intros Hwf He Hs. unfold Remove. rewrite (proj2 (Z.eqb_neq _ _)) by lia.
  rewrite (equal_range_split l e L [] R He Hs Hwf).
  by rewrite (proj2 (Nat.eqb_eq _ _)) by (simpl; lia).
Qed.

(** ** Facts about the overlapping block of a well-formed list *)

Lemma wf_block_bounds f T :
  wf (f :: T) ->
  Offset f < End (List.last (f :: T) dflt) /\
  Forall (fun i => Offset f <= Offset i /\ End i <= End (List.last (f :: T) dflt)) (f :: T).
Proof.
  revert f. induction T as [|g T IH]; intros f Hwf; apply wf_cons in Hwf as (Hf & Hall & Hwf).
  - simpl. split; [lia|]. constructor; [lia|done].
  - destruct (IH g Hwf) as [Hlt Hb]. apply Forall_cons in Hall as [Hfg _].
    change (List.last (f :: g :: T) dflt) with (List.last (g :: T) dflt).
    apply wf_cons in Hwf as (Hg & _).
    split; [lia|]. constructor; [lia|].
    apply (Forall_impl _ _ _ Hb). intros. lia.
Qed.

Lemma covers_app l1 l2 x : covers (l1 ++ l2) x <-> covers l1 x \/ covers l2 x.
Proof. apply Exists_app. Qed.
Lemma covers_cons i l x : covers (i :: l) x <-> inside x i \/ covers l x.
Proof. apply Exists_cons. Qed.
Lemma covers_nil x : covers [] x <-> False.
Proof. apply Exists_nil. Qed.

Lemma covers_bounds l x (lo hi : Z) :
  Forall (fun i => lo <= Offset i /\ End i <= hi) l -> covers l x -> lo <= x < hi.
Proof.
  intros Hall Hc. unfold covers in Hc. rewrite Exists_exists in Hc.
  destruct Hc as (i & Hi & Hx). rewrite Forall_forall in Hall.
  specialize (Hall i Hi). unfold inside in Hx. lia.
Qed.

Lemma split_wf_parts l e L M R :
  wf l -> split l e L M R ->
  wf L /\ wf M /\ wf R /\
  Forall (fun i => Forall (fun j => End i <= Offset j) (M ++ R)) L /\
  Forall (fun i => Forall (fun j => End i <= Offset j) R) M.
Proof.
  intros Hwf [-> _ _ _]. apply wf_app in Hwf as (HL & HMR & H1).
  apply wf_app in HMR as (HM & HR & H2). auto.
Qed.

(** Rebuilding a list from its left and right parts and a new middle block
    that stays within the gap keeps the invariant. *)
Lemma wf_rebuild L N R lo hi :
  wf L -> wf N -> wf R ->
  Forall (fun i => End i <= lo) L -> Forall (fun i => hi <= Offset i) R ->
  Forall (fun i => lo <= Offset i /\ End i <= hi) N -> lo <= hi ->
  wf (L ++ N ++ R).
Proof.
  intros HL HN HR HLlo HRhi HNb Hlh. rewrite !wf_app. split_and!; auto.
  - apply (Forall_impl _ _ _ HNb). intros i Hi. apply (Forall_impl _ _ _ HRhi). intros. lia.
  - apply (Forall_impl _ _ _ HLlo). intros i Hi. apply Forall_app. split.
    + apply (Forall_impl _ _ _ HNb). intros. lia.
    + apply (Forall_impl _ _ _ HRhi). intros. lia.
Qed.

(** Everything left of the block, and the entry's own start, lies below the
    hull of block and entry; everything right of it above. *)
Lemma split_hull l e L f T R (la := List.last (f :: T) dflt) :
  wf l -> split l e L (f :: T) R ->
  Forall (fun i => End i <= Z.min (Offset e) (Offset f)) L /\
  Forall (fun i => Z.max (End la) (End e) <= Offset i) R.
Proof.
  intros Hwf Hs. destruct (split_wf_parts _ _ _ _ _ Hwf Hs) as (HL & HM & HR & H1 & H2).
  destruct Hs as [-> HLe _ HRe]. split; rewrite Forall_forall in *.
  - intros i Hi. specialize (H1 i Hi). apply Forall_app in H1 as [H1 _].
    apply Forall_cons in H1 as [H1 _]. specialize (HLe i Hi). simpl in *. lia.
  - intros i Hi. specialize (HRe i Hi).
    assert (Hla : la ∈ f :: T).
    { unfold la. destruct T as [|z T _] using rev_ind; [by left|].
      rewrite (app_comm_cons T), List.last_last. right. apply elem_of_app. right. by left. }
    specialize (H2 la Hla). rewrite Forall_forall in H2. specialize (H2 i Hi). simpl in *. lia.
Qed.

Lemma covers_ends f T x :
  inside x f \/ inside x (List.last (f :: T) dflt) -> covers (f :: T) x.
Proof.
  intros [H|H]; [by left|]. apply Exists_exists. eexists. split; [|exact H].
  destruct T as [|z T _] using rev_ind; [by left|].
  rewrite (app_comm_cons T), List.last_last. right. apply elem_of_app. right. by left.
Qed.

Lemma last_in_block f T (P : Interval -> Prop) :
  Forall P (f :: T) -> P (List.last (f :: T) dflt).
Proof.
  destruct T as [|z T _] using rev_ind; rewrite ?(app_comm_cons T), ?List.last_last.
  - by intros []%Forall_cons.
  - intros [_ H]%Forall_app. by rewrite Forall_singleton in H.
Qed.

(** ** The refinement theorems *)

Lemma insert_covers l e :
  wf l -> Offset e <= End e ->
  wf (Insert l e) /\ forall x, covers (Insert l e) x <-> covers l x \/ inside x e.
Proof.
  intros Hwf Hle. destruct (decide (Offset e = End e)) as [Heq|Hne].
  { unfold Insert. rewrite (proj2 (Z.eqb_eq _ _) Heq). split; [done|].
    intros x. unfold inside. split; [tauto|]. intros [H|H]; [done|lia]. }
  assert (He : Offset e < End e) by lia.
  destruct (wf_split l e Hwf He) as (L & M & R & Hs).
  destruct (split_wf_parts _ _ _ _ _ Hwf Hs) as (HL & HM & HR & _).
  rewrite (Insert_split _ _ _ _ _ Hwf He Hs). destruct M as [|f T].
  - destruct Hs as [-> HLe _ HRe]. split.
    + apply (wf_rebuild L [e] R (Offset e) (End e)); auto; [by apply wf_singleton|].
      apply Forall_singleton. lia.
    + intros x. simpl. rewrite !covers_app, covers_cons. tauto.
  - destruct (split_hull _ _ _ _ _ _ Hwf Hs) as [HLh HRh].
    destruct (wf_block_bounds _ _ HM) as [Hlt Hb]. destruct Hs as [-> _ HMo _].
    pose proof (last_in_block _ _ _ HMo) as Hla. apply Forall_cons in HMo as [Hf _].
    cbv beta in Hla. set (la := List.last (f :: T) dflt) in *. unfold hull. split.
    + eapply (wf_rebuild L [_] R (Z.min (Offset e) (Offset f)) (Z.max (End la) (End e)) HL); [| |exact HLh|exact HRh| |lia]; auto.
      * apply wf_singleton. simpl. lia.
      * apply Forall_singleton. simpl. lia.
    + intros x. rewrite !covers_app, covers_cons.
      pose proof (covers_ends f T x) as Hends. fold la in Hends.
      pose proof (covers_bounds _ x _ _ Hb) as Hbd.
      assert (H1 : inside x (mkInterval (Offset e `min` Offset f) (End la `max` End e)) ->
                   covers (f :: T) x \/ inside x e).
      { unfold inside in *; simpl. intros Hx.
        destruct (decide (x < Offset e)); [left; apply Hends; left; lia|].
        destruct (decide (End e <= x)); [left; apply Hends; right; lia|right; lia]. }
      assert (H2 : covers (f :: T) x \/ inside x e ->
                   inside x (mkInterval (Offset e `min` Offset f) (End la `max` End e))).
      { unfold inside in *; simpl. intros [Hx|Hx]; [specialize (Hbd Hx)|]; lia. }
      tauto.
Qed.

(** Which intervals [Insert] merges: those that overlap the entry become one
    interval around it, the others stay as they are. *)
Lemma insert_members l e :
  wf l -> Offset e < End e ->
  exists m, Offset m <= Offset e /\ End e <= End m /\
    forall j, j ∈ Insert l e <-> j = m \/ j ∈ l /\ (End j <= Offset e \/ End e <= Offset j).
Proof.
  intros Hwf He. destruct (wf_split l e Hwf He) as (L & M & R & Hs). rewrite (Insert_split _ _ _ _ _ Hwf He Hs).
  exists (match M with [] => e | f :: _ => hull e f (List.last M dflt) end). destruct Hs as [-> HL HM HR].
  split; [destruct M; cbn; lia|]. split; [destruct M; cbn; lia|]. intros j. rewrite !elem_of_app, elem_of_cons.
  rewrite !Forall_forall in *. specialize (HL j). specialize (HM j). specialize (HR j). split.
  - intros [H|[->|H]]; auto.
  - intros [->|[[H|[H|H]] Hj]]; auto. specialize (HM H). lia.
Qed.

(** C39. [IntervalList::Insert] keeps the list sorted, disjoint and free of
    empty intervals, and the offsets covered afterwards are exactly those
    covered before together with the inserted interval. It merges exactly the
    intervals that overlap the inserted one, into one interval; every other
    one, also one that only touches it, stays as it was, and an empty
    interval leaves the list alone. *)
Theorem insert_refines l e :
  wf l -> Offset e <= End e ->
  wf (Insert l e) /\ (forall x, covers (Insert l e) x <-> covers l x \/ inside x e) /\
  (Offset e = End e -> Insert l e = l) /\
  (Offset e < End e -> exists m, Offset m <= Offset e /\ End e <= End m /\
    forall j, j ∈ Insert l e <-> j = m \/ j ∈ l /\ (End j <= Offset e \/ End e <= Offset j)).
Proof.
  intros Hwf Hle. destruct (insert_covers l e Hwf Hle) as [H1 H2]. split_and!; [done..| |by apply insert_members].
  intros Heq. unfold Insert. by rewrite (proj2 (Z.eqb_eq _ _) Heq).
Qed.

(** C40. [IntervalList::Remove] keeps the representation invariant and removes
    exactly the given interval from the covered offsets, whether it misses
    every stored interval, splits one in two, or trims and erases a run. *)
Theorem remove_refines l e :
  wf l -> Offset e <= End e ->
  wf (Remove l e) /\ forall x, covers (Remove l e) x <-> covers l x /\ ~ inside x e.
Proof.
  intros Hwf Hle. destruct (decide (Offset e = End e)) as [Heq|Hne].
  { unfold Remove. rewrite (proj2 (Z.eqb_eq _ _) Heq). split; [done|].
    intros x. unfold inside. split; [intros; split; [done|lia]|tauto]. }
  assert (He : Offset e < End e) by lia.
  destruct (wf_split l e Hwf He) as (L & M & R & Hs).
  destruct (split_wf_parts _ _ _ _ _ Hwf Hs) as (HL & HM & HR & _).
  assert (Hout : forall x, covers L x \/ covers R x -> ~ inside x e).
  { destruct Hs as [_ HLe _ HRe]. intros x [Hx|Hx] Hin; apply Exists_exists in Hx as (i & Hi & Hx);
      unfold inside in *; rewrite Forall_forall in HLe, HRe;
      [specialize (HLe i Hi)|specialize (HRe i Hi)]; lia. }
  destruct M as [|f T].
  - rewrite (Remove_split_nil _ _ _ _ Hwf He Hs). split; [done|].
    destruct Hs as [-> _ _ _]. intros x. simpl. rewrite covers_app. specialize (Hout x). tauto.
  - rewrite (Remove_split _ _ _ _ _ _ Hwf He Hs).
    destruct (split_hull _ _ _ _ _ _ Hwf Hs) as [HLh HRh].
    destruct (wf_block_bounds _ _ HM) as [Hlt Hb]. destruct Hs as [-> _ HMo _].
    pose proof (last_in_block _ _ _ HMo) as Hla. apply Forall_cons in HMo as [Hf _].
    cbv beta in Hla. set (la := List.last (f :: T) dflt) in *. unfold left_part, right_part. split.
    + rewrite (app_assoc _ _ R).
      apply (wf_rebuild L _ R (Z.min (Offset e) (Offset f)) (Z.max (End la) (End e)) HL); [| |exact HLh|exact HRh| |lia]; auto;
        destruct (Z.ltb_spec (Offset f) (Offset e)); destruct (Z.gtb_spec (End la) (End e));
        simpl; rewrite ?wf_cons, ?Forall_cons, ?Forall_nil; simpl; split_and?; try lia; auto;
        split; constructor.
    + intros x. rewrite !covers_app. specialize (Hout x).
      pose proof (covers_ends f T x) as Hends. fold la in Hends.
      pose proof (covers_bounds _ x _ _ Hb) as Hbd.
      assert (Hl : covers (left_part e f) x <-> Offset f <= x < Offset e).
      { unfold left_part. destruct (Z.ltb_spec (Offset f) (Offset e));
          rewrite ?covers_cons, covers_nil; unfold inside; simpl; lia. }
      assert (Hr : covers (right_part e la) x <-> End e <= x < End la).
      { unfold right_part. destruct (Z.gtb_spec (End la) (End e));
          rewrite ?covers_cons, covers_nil; unfold inside; simpl; lia. }
      assert (Hm : covers (left_part e f) x \/ covers (right_part e la) x <->
                   covers (f :: T) x /\ ~ inside x e).
      { rewrite Hl, Hr. unfold inside in *. split.
        - intros [Hx|Hx]; (split; [apply Hends|]); lia.
        - intros [Hx%Hbd Hn]. lia. }
      unfold left_part, right_part in Hm. tauto.
Qed.

(** ** The searches *)

(** The stored ends increase, so "ends after [off]" is a partition of a
    well-formed list: the precondition of every [std::upper_bound] here. *)
Lemma end_partition l off :
  wf l ->
  exists L R, l = L ++ R /\ Forall (fun i => End i <= off) L /\ Forall (fun i => off < End i) R.
Proof.
  induction l as [|i l IH]; intros Hwf; [by exists [], []|].
  apply wf_cons in Hwf as (Hi & Hall & Hwf).
  destruct (decide (End i <= off)) as [H|H].
  - destruct (IH Hwf) as (L & R & -> & HL & HR). exists (i :: L), R. auto.
  - exists [], (i :: l). split_and!; [done..|]. constructor; [lia|].
    destruct Hwf as [Hne _]. rewrite !Forall_forall in *. intros j Hj.
    specialize (Hall j Hj). specialize (Hne j Hj). simpl in *. lia.
Qed.

Lemma partitioned_app p L R :
  Forall (fun i => p i = true) L -> Forall (fun i => p i = false) R ->
  partitioned p (L ++ R) = true.
Proof.
  intros HL HR. induction HL as [|i L Hi HL IH]; simpl; [|by rewrite Hi].
  destruct HR as [|i R Hi HR]; simpl; [done|]. rewrite Hi. apply Is_true_true, forallb_True.
  apply (Forall_impl _ _ _ HR). intros j Hj. by rewrite Hj.
Qed.

(** The precondition of the searches in [Query], [Intersect] and [Contains]. *)
Lemma upper_bound_partitioned l off :
  wf l -> partitioned (fun i => negb (off <? End i)) l = true.
Proof.
  intros Hwf. destruct (end_partition l off Hwf) as (L & R & -> & HL & HR).
  apply partitioned_app; [apply (Forall_impl _ _ _ HL)|apply (Forall_impl _ _ _ HR)]; intros; lia.
Qed.

(** The element [std::upper_bound] finds. *)
Lemma upper_bound_spec l off :
  wf l ->
  exists L R, l = L ++ R /\ l !! partition_point (fun i => negb (off <? End i)) l = head R /\
    Forall (fun i => End i <= off) L /\ Forall (fun i => off < End i) R.
Proof.
  intros Hwf. destruct (end_partition l off Hwf) as (L & R & -> & HL & HR).
  exists L, R. split_and!; [done| |done..].
  rewrite partition_point_app.
  - rewrite lookup_app_r, Nat.sub_diag by lia. by destruct R.
  - apply (Forall_impl _ _ _ HL). intros. lia.
  - apply (Forall_impl _ _ _ HR). intros. lia.
Qed.

Lemma not_covers_below l off x :
  Forall (fun i => End i <= off) l -> off <= x -> ~ covers l x.
Proof.
  intros Hl Hx Hc. apply Exists_exists in Hc as (i & Hi & Hin).
  rewrite Forall_forall in Hl. specialize (Hl i Hi). unfold inside in Hin. simpl in *. lia.
Qed.

Lemma not_covers_above l off x :
  Forall (fun i => off <= Offset i) l -> x < off -> ~ covers l x.
Proof.
  intros Hl Hx Hc. apply Exists_exists in Hc as (i & Hi & Hin).
  rewrite Forall_forall in Hl. specialize (Hl i Hi). unfold inside in Hin. simpl in *. lia.
Qed.

(** [IntervalList::Query] answers whether the offset is covered, and its
    [Size] bytes from the offset on are all covered or all uncovered alike;
    with no interval reported, nothing at or above the offset is covered. *)
Theorem query_correct l off (q := Query l off) :
  wf l ->
  (Enclosed q = true <-> covers l off) /\
  (forall x, off <= x < off + Size q -> (covers l x <-> Enclosed q = true)) /\
  match QInterval q with
  | None => forall x, off <= x -> ~ covers l x
  | Some i => i ∈ l /\ 0 < Size q /\ off + Size q = (if Enclosed q then End i else Offset i)
  end.
Proof.
  intros Hwf. destruct (upper_bound_spec l off Hwf) as (L & R & Heq & Hlk & HL & HR).
  unfold q, Query. rewrite Hlk. clear q Hlk. subst l.
  destruct R as [|i R]; simpl.
  - split_and!; [|intros; lia|]; setoid_rewrite covers_app; setoid_rewrite covers_nil.
    + split; [done|]. intros [H|[]]. destruct (not_covers_below L off off HL); [lia|done].
    + intros x Hx [H|[]]. by destruct (not_covers_below L off x HL).
  - apply wf_app in Hwf as (_ & Hwf & _). apply wf_cons in Hwf as (Hi & Hall & _).
    apply Forall_cons in HR as [Hoff HR].
    assert (Hin : i ∈ L ++ i :: R) by (apply elem_of_app; right; by left).
    assert (Hc : forall x, off <= x < End i -> covers (L ++ i :: R) x <-> Offset i <= x).
    { intros x Hx. rewrite covers_app, covers_cons. unfold inside. split.
      - intros [H|[H|H]]; [|lia|].
        + destruct (not_covers_below L off x HL); [lia|done].
        + destruct (not_covers_above R (End i) x Hall); [lia|done].
      - intros H. right. left. lia. }
    destruct (Z.gtb_spec (Offset i) off); simpl; split_and!; auto; try lia.
    + rewrite Hc by lia. split; [done|lia].
    + intros x Hx. rewrite Hc by lia. split; [lia|done].
    + rewrite Hc by lia. split; [lia|done].
    + intros x Hx. rewrite Hc by lia. split; [done|lia].
Qed.

(** [IntervalList::Intersect] is true exactly when some offset of the
    (non-empty) entry is covered. *)
Theorem intersect_correct l e :
  wf l -> Offset e < End e ->
  (Intersect l e = true <-> exists x, inside x e /\ covers l x).
Proof.
  intros Hwf He. destruct (upper_bound_spec l (Offset e) Hwf) as (L & R & Heq & Hlk & HL & HR).
  unfold Intersect. rewrite Hlk. subst l. apply wf_app in Hwf as (_ & Hwf & _).
  destruct R as [|i R]; simpl.
  - split; [done|]. intros (x & Hx & Hc). rewrite app_nil_r in Hc. unfold inside in Hx.
    destruct (not_covers_below L (Offset e) x HL); [lia|done].
  - apply wf_cons in Hwf as (Hi & Hall & _). apply Forall_cons in HR as [Hoff HR].
    rewrite Z.ltb_lt. split.
    + intros H. exists (Z.max (Offset e) (Offset i)). unfold inside. split; [lia|].
      apply covers_app. right. left. unfold inside. lia.
    + intros (x & Hx & Hc). unfold inside in Hx. rewrite covers_app, covers_cons in Hc.
      destruct Hc as [H|[H|H]].
      * destruct (not_covers_below L (Offset e) x HL); [lia|done].
      * unfold inside in H. lia.
      * destruct (decide (Offset i < End e)); [done|].
        destruct (not_covers_above R (End i) x Hall); [lia|done].
Qed.

(** [IntervalList::Contains] is true exactly when one stored interval
    encloses the (non-empty) entry; in that case every offset of the entry is
    covered.  Touching stored intervals are never merged for the answer. *)
Theorem contains_correct l e :
  wf l -> Offset e < End e ->
  (Contains l e = true <-> exists i, i ∈ l /\ Offset i <= Offset e /\ End e <= End i) /\
  (Contains l e = true -> forall x, inside x e -> covers l x).
Proof.
  intros Hwf He.
  assert (Hiff : Contains l e = true <-> exists i, i ∈ l /\ Offset i <= Offset e /\ End e <= End i).
  { destruct (upper_bound_spec l (Offset e) Hwf) as (L & R & Heq & Hlk & HL & HR).
    unfold Contains. rewrite Hlk. subst l. apply wf_app in Hwf as (_ & Hwf & _).
    assert (HLout : forall i, i ∈ L -> End e <= End i -> False).
    { intros i Hi Hle. rewrite Forall_forall in HL. specialize (HL i Hi). simpl in *. lia. }
    destruct R as [|i R]; simpl.
    - split; [done|]. intros (i & Hi & _ & Hle). rewrite app_nil_r in Hi. by destruct (HLout i).
    - apply wf_cons in Hwf as (Hi & Hall & _). split.
      + intros H. exists i. split; [apply elem_of_app; right; by left|lia].
      + intros (j & Hj & H1 & H2). apply elem_of_app in Hj as [Hj|Hj]; [by destruct (HLout j)|].
        apply elem_of_cons in Hj as [->|Hj]; [lia|].
        rewrite Forall_forall in Hall. specialize (Hall j Hj). apply Forall_cons in HR as [HR _].
        simpl in *. lia. }
  split; [done|]. intros (i & Hi & H1 & H2)%Hiff x Hx. apply Exists_exists.
  exists i. split; [done|]. unfold inside in *. lia.
Qed.

(** Inserting a whole list adds exactly its covered offsets. *)
Lemma insert_all_refines l other :
  wf l -> Forall (fun i => Offset i <= End i) other ->
  wf (InsertAll l other) /\ forall x, covers (InsertAll l other) x <-> covers l x \/ covers other x.
Proof.
  unfold InsertAll. revert l. induction other as [|e other IH]; intros l Hwf Ho; simpl.
  - split; [done|]. intros x. rewrite covers_nil. tauto.
  - apply Forall_cons in Ho as [He Ho].
    assert (H : wf (Insert l e) /\ forall x, covers (Insert l e) x <-> covers l x \/ inside x e).
    { by apply insert_covers. }
    destruct H as [Hwf' Hc]. destruct (IH _ Hwf' Ho) as [H1 H2]. split; [done|].
    intros x. rewrite H2, Hc, covers_cons. tauto.
Qed.

(** ** A concrete list *)

Definition ex_list : list Interval := [mkInterval 0 5; mkInterval 8 12; mkInterval 20 30].

Lemma ex_list_wf : wf ex_list.
Proof. unfold ex_list. rewrite !wf_cons, !Forall_cons, !Forall_nil; simpl. split_and!; try lia; try done; split; constructor. Qed.

Lemma insert_refines_witness :
  Insert ex_list (mkInterval 4 9) = [mkInterval 0 12; mkInterval 20 30] /\
  Insert ex_list (mkInterval 5 8) = [mkInterval 0 5; mkInterval 5 8; mkInterval 8 12; mkInterval 20 30] /\
  wf (Insert ex_list (mkInterval 4 9)).
Proof.
  split; [reflexivity|]. split; [reflexivity|]. apply (insert_refines ex_list (mkInterval 4 9) ex_list_wf). simpl; lia.
Defined.

Lemma remove_refines_witness :
  Remove ex_list (mkInterval 9 22) = [mkInterval 0 5; mkInterval 8 9; mkInterval 22 30] /\
  wf (Remove ex_list (mkInterval 9 22)).
Proof.
  split; [reflexivity|]. apply (remove_refines ex_list (mkInterval 9 22) ex_list_wf). simpl; lia.
Defined.

End IntervalList.
