(* ===== verification/VarInt.v ===== *)
(** The variable-length integers of FEXCore/Source/Utils/variable_length_integer.h
    ([vl64], [vl64pair]) and their one client: the per-block table that maps a
    host PC back to the guest PC.  The table is written by the JIT
    (JIT/PPC64LE/JIT.cpp, end of CompileCode) and walked by
    [WalkBlockRIPTable] (Core.cpp), which is what a signal handler uses to
    report the guest PC.

    Bit-fields are laid out least significant first, as the ppc64le and
    AArch64 ABIs do.  A decoder reads from a byte list and fails ([None])
    where the C++ code would read past the bytes it was given. *)
From S2P Require Import Prelude.

Module vl64.

Definition vl8_min : Z := Z.shiftr (- 2 ^ 63) (64 - 7).
Definition vl8_max : Z := Z.shiftr (2 ^ 63 - 1) (64 - 7).
Definition vl16_min : Z := Z.shiftr (- 2 ^ 63) (64 - 14).
Definition vl16_max : Z := Z.shiftr (2 ^ 63 - 1) (64 - 14).
Definition vl32_min : Z := - 2 ^ 31.
Definition vl32_max : Z := 2 ^ 31 - 1.
Definition vl8_type_header : Z := 0.
Definition vl16_type_header : Z := 2.
Definition vl32_type_header : Z := 192.
Definition vl64_type_header : Z := 224.

Definition EncodedSize (Data : Z) : Z :=
  if (Data >=? vl8_min) && (Data <=? vl8_max) then 1
  else if (Data >=? vl16_min) && (Data <=? vl16_max) then 2
  else if (Data >=? vl32_min) && (Data <=? vl32_max) then 5
  else 9.

(** The bytes [Encode] stores at [dst]; their number is its result. *)
Definition Encode (Data : Z) : list Z :=
  if (Data >=? vl8_min) && (Data <=? vl8_max) then
    [Z.lor (wrap 7 Data) (Z.shiftl vl8_type_header 7)]
  else if (Data >=? vl16_min) && (Data <=? vl16_max) then
    let top := Z.land (Z.shiftr Data 8) 255 in
    [Z.lor (wrap 6 top) (Z.shiftl vl16_type_header 6); Z.land Data 255]
  else if (Data >=? vl32_min) && (Data <=? vl32_max) then
    vl32_type_header :: to_le 4 Data
  else vl64_type_header :: to_le 8 Data.

(** [vl16_enc::Integer]: [Value] is an [int16_t]; the shifts are done on [int]. *)
Definition vl16_Integer (top low : Z) : Z :=
  let Value := sgn 16 (Z.lor (Z.shiftl (sgn 6 top) 8) low) in
  Z.shiftr (sgn 32 (Z.shiftl Value 2)) 2.

Definition Decode (data : list Z) : option (Z * Z) :=
  match data with
  | [] => None
  | b0 :: rest =>
      if Z.shiftr b0 7 =? vl8_type_header then Some (sgn 7 b0, 1)
      else if Z.shiftr b0 6 =? vl16_type_header then
        match rest with
        | b1 :: _ => Some (vl16_Integer (wrap 6 b0) b1, 2)
        | [] => None
        end
      else if b0 =? vl32_type_header then
        if (length rest <? 4)%nat then None else Some (sgn 32 (from_le (take 4 rest)), 5)
      else
        if (length rest <? 8)%nat then None else Some (sgn 64 (from_le (take 8 rest)), 9)
  end.

Lemma decode_vl16 Data :
  -8192 <= Data < 8192 ->
  vl16_Integer (wrap 6 (Z.land (Z.shiftr Data 8) 255)) (Z.land Data 255) = Data.
Proof.
  intros Hd. change 255 with (Z.ones 8). rewrite !land_wrap by lia.
  rewrite Z.shiftr_div_pow2 by lia. change (2 ^ 8) with 256.
  assert (Hq : sgn 6 (wrap 6 (wrap 8 (Data / 256))) = Data / 256).
  { rewrite sgn_wrap by lia. unfold sgn at 1. unfold wrap.
    replace ((Data / 256) mod 2 ^ 8 mod 2 ^ 6) with ((Data / 256) mod 2 ^ 6).
    - fold (sgn 6 (Data / 256)). apply sgn_id; [lia|]. change (2 ^ (6 - 1)) with 32.
      Z.div_mod_to_equations. lia.
    - change (2 ^ 8) with 256. change (2 ^ 6) with 64. Z.div_mod_to_equations. lia. }
  unfold vl16_Integer. rewrite Hq, Z.lor_comm, lor_field_add by width.
  replace (wrap 8 Data + Data / 256 * 2 ^ 8) with Data
    by (unfold wrap; change (2 ^ 8) with 256; Z.div_mod_to_equations; lia).
  rewrite (sgn_id 16) by lia. rewrite sgn_id.
  - rewrite Z.shiftr_shiftl_l by lia. by rewrite Z.shiftl_0_r.
  - lia.
  - rewrite Z.shiftl_mul_pow2 by lia. lia.
Qed.

Lemma decode_vl32 rest :
  Decode (192 :: rest) =
  if (length rest <? 4)%nat then None else Some (sgn 32 (from_le (take 4 rest)), 5).
Proof. reflexivity. Qed.

Lemma decode_vl64 rest :
  Decode (224 :: rest) =
  if (length rest <? 8)%nat then None else Some (sgn 64 (from_le (take 8 rest)), 9).
Proof. reflexivity. Qed.

Lemma decode_encode Data rest :
  - 2 ^ 63 <= Data < 2 ^ 63 ->
  Decode (Encode Data ++ rest) = Some (Data, Z.of_nat (length (Encode Data))).
Proof.
  intros Hd. unfold Encode, vl8_type_header, vl16_type_header, vl32_type_header, vl64_type_header.
  change vl8_min with (-64). change vl8_max with 63.
  change vl16_min with (-8192). change vl16_max with 8191.
  unfold vl32_min, vl32_max.
  case_if H8; [|case_if H16; [|case_if H32]].
  - rewrite lor_field_add, Z.mul_0_l, Z.add_0_r by width. simpl.
    rewrite Z.shiftr_div_pow2, Z.div_small by (lia || apply (wrap_range 7); lia). simpl.
    do 2 f_equal. rewrite sgn_wrap by lia. apply sgn_id; lia.
  - rewrite lor_field_add by width. simpl app. unfold Decode, vl8_type_header, vl16_type_header.
    set (t := wrap 6 _).
    assert (Ht : in_width 6 t) by (unfold t; width). unfold in_width in Ht.
    replace (Z.shiftr (t + 2 * 2 ^ 6) 7 =? 0) with false
      by (symmetry; apply Z.eqb_neq; rewrite Z.shiftr_div_pow2 by lia; Z.div_mod_to_equations; lia).
    rewrite shiftr_field, wrap_field by width. rewrite Z.eqb_refl.
    unfold t. rewrite decode_vl16 by lia. done.
  - rewrite <- app_comm_cons, decode_vl32. destruct (read_le 4 Data rest) as [-> ->]. do 2 f_equal.
    rewrite sgn_wrap by lia. apply sgn_id; lia.
  - rewrite <- app_comm_cons, decode_vl64. destruct (read_le 8 Data rest) as [-> ->]. do 2 f_equal.
    rewrite sgn_wrap by lia. apply sgn_id; lia.
Qed.

Lemma encode_length Data : Z.of_nat (length (Encode Data)) = EncodedSize Data.
Proof. unfold Encode, EncodedSize. by repeat case_match. Qed.

(** [vl64] round trip: decoding the bytes [Encode] stored for any
    [int64_t], whatever follows them in memory, returns the integer and the
    number of bytes stored, which is [EncodedSize]. *)
Theorem vl64_roundtrip Data rest :
  - 2 ^ 63 <= Data < 2 ^ 63 ->
  Decode (Encode Data ++ rest) = Some (Data, EncodedSize Data) /\
  Z.of_nat (length (Encode Data)) = EncodedSize Data.
Proof. intros Hd. split; [|apply encode_length]. rewrite <- encode_length. by apply decode_encode. Qed.

End vl64.

Module vl64pair.

Definition vl8_type_header : Z := 0.
Definition vl8_arm_min : Z := 1.
Definition vl8_arm_max : Z := 16.
Definition vl8_arm_align_bits : Z := 2.
Definition vl8_arm_shift_mask : Z := Z.shiftl 1 vl8_arm_align_bits - 1.
Definition vl8_pc_min : Z := 1.
Definition vl8_pc_max : Z := 8.

(** Both arguments are [uint64_t]. *)
Definition can_encode_vl8 (data_arm data_rip : Z) : bool :=
  if (data_rip <? vl8_pc_min) || (data_rip >? vl8_pc_max) then false
  else if negb (Z.land data_arm vl8_arm_shift_mask =? 0) then false
  else
    let ShiftedHostPC := sgn 64 (Z.shiftr data_arm vl8_arm_align_bits) in
    if (ShiftedHostPC <? vl8_arm_min) || (ShiftedHostPC >? vl8_arm_max) then false else true.

Definition vl16_type_header : Z := 2.
Definition vl16_arm_min : Z := -128.
Definition vl16_arm_max : Z := 127.
Definition vl16_arm_align_bits : Z := 2.
Definition vl16_arm_shift_mask : Z := Z.shiftl 1 vl16_arm_align_bits - 1.
Definition vl16_pc_min : Z := -32.
Definition vl16_pc_max : Z := 31.

(** Both arguments are [int64_t]: the callers convert. *)
Definition can_encode_vl16 (data_arm data_rip : Z) : bool :=
  if (data_rip <? vl16_pc_min) || (data_rip >? vl16_pc_max) then false
  else if negb (Z.land data_arm vl16_arm_shift_mask =? 0) then false
  else
    let ShiftedHostPC := Z.shiftr data_arm vl16_arm_align_bits in
    if (ShiftedHostPC <? vl16_arm_min) || (ShiftedHostPC >? vl16_arm_max) then false else true.

Definition vl32_type_header : Z := 192.
Definition vl32_min : Z := - 2 ^ 31.
Definition vl32_max : Z := 2 ^ 31 - 1.

Definition can_encode_vl32 (data_arm data_rip : Z) : bool :=
  if (data_rip <? vl32_min) || (data_rip >? vl32_max) then false
  else if (data_arm <? vl32_min) || (data_arm >? vl32_max) then false
  else true.

Definition vl64_type_header : Z := 224.

Definition EncodedSize (data_arm data_rip : Z) : Z :=
  if can_encode_vl8 data_arm data_rip then 1
  else if can_encode_vl16 (sgn 64 data_arm) (sgn 64 data_rip) then 2
  else if can_encode_vl32 (sgn 64 data_arm) (sgn 64 data_rip) then 9
  else 17.

Definition Encode (data_arm data_rip : Z) : list Z :=
  if can_encode_vl8 data_arm data_rip then
    [Z.lor (Z.lor (wrap 4 (u8 (Z.shiftr (u64 (data_arm - 1)) vl8_arm_align_bits)))
                  (Z.shiftl (wrap 3 (u8 (data_rip - 1))) 4))
           (Z.shiftl vl8_type_header 7)]
  else if can_encode_vl16 (sgn 64 data_arm) (sgn 64 data_rip) then
    [Z.lor (wrap 6 (sgn 64 data_rip)) (Z.shiftl vl16_type_header 6);
     u8 (Z.shiftr (sgn 64 data_arm) vl8_arm_align_bits)]
  else if can_encode_vl32 (sgn 64 data_arm) (sgn 64 data_rip) then
    vl32_type_header :: to_le 4 data_arm ++ to_le 4 data_rip
  else vl64_type_header :: to_le 8 data_arm ++ to_le 8 data_rip.

Record Decoded := mkDecoded { IntegerARMPC : Z; IntegerX86RIP : Z; Size : Z }.

Definition Decode_vl8 (b0 : Z) : Decoded :=
  let data_arm := wrap 4 b0 in
  let data_rip := wrap 3 (Z.shiftr b0 4) in
  mkDecoded (u64 (Z.shiftl (data_arm + 1) vl8_arm_align_bits)) (u64 (data_rip + 1)) 1.

Definition Decode_vl16 (b0 b1 : Z) : Decoded :=
  let arm_pc := Z.shiftl (sgn 8 b1) vl8_arm_align_bits in
  let x86_rip := sgn 6 b0 in
  mkDecoded (u64 arm_pc) (u64 x86_rip) 2.

Definition Decode_vl32 (rest : list Z) : Decoded :=
  let arm_pc := sgn 32 (from_le (take 4 rest)) in
  let x86_rip := sgn 32 (from_le (take 4 (drop 4 rest))) in
  mkDecoded (u64 arm_pc) (u64 x86_rip) 9.

Definition Decode_vl64 (rest : list Z) : Decoded :=
  mkDecoded (from_le (take 8 rest)) (from_le (take 8 (drop 8 rest))) 17.

Definition Decode (data : list Z) : option Decoded :=
  match data with
  | [] => None
  | b0 :: rest =>
      if Z.shiftr b0 7 =? vl8_type_header then Some (Decode_vl8 b0)
      else if Z.shiftr b0 6 =? vl16_type_header then
        match rest with
        | b1 :: _ => Some (Decode_vl16 b0 b1)
        | [] => None
        end
      else if b0 =? vl32_type_header then
        if (length rest <? 8)%nat then None else Some (Decode_vl32 rest)
      else if (length rest <? 16)%nat then None else Some (Decode_vl64 rest)
  end.

(** ** What the encodability tests establish *)

Lemma can_vl8_inv arm rip :
  in_width 64 arm -> can_encode_vl8 arm rip = true ->
  exists k, arm = 4 * k /\ 1 <= k <= 16 /\ 1 <= rip <= 8.
Proof.
  intros Ha. unfold can_encode_vl8, vl8_pc_min, vl8_pc_max, vl8_arm_min, vl8_arm_max.
  change vl8_arm_shift_mask with (Z.ones 2). rewrite land_wrap by lia. unfold vl8_arm_align_bits.
  rewrite Z.shiftr_div_pow2 by lia. unfold in_width in Ha.
  rewrite sgn_id by (try lia; change (2 ^ 2) with 4; Z.div_mod_to_equations; lia).
  case_if H1; [done|]. case_if H2; [done|]. case_if H3; [done|]. intros _.
  exists (arm / 4). unfold wrap in H2. change (2 ^ 2) with 4 in *.
  Z.div_mod_to_equations. lia.
Qed.

Lemma can_vl16_inv arm rip :
  can_encode_vl16 arm rip = true -> exists k, arm = 4 * k /\ -128 <= k < 128 /\ -32 <= rip < 32.
Proof.
  unfold can_encode_vl16, vl16_pc_min, vl16_pc_max, vl16_arm_min, vl16_arm_max.
  change vl16_arm_shift_mask with (Z.ones 2). rewrite land_wrap by lia. unfold vl16_arm_align_bits.
  rewrite Z.shiftr_div_pow2 by lia.
  case_if H1; [done|]. case_if H2; [done|]. case_if H3; [done|]. intros _.
  exists (arm / 4). unfold wrap in H2. change (2 ^ 2) with 4 in *.
  Z.div_mod_to_equations. lia.
Qed.

Lemma can_vl32_inv arm rip :
  can_encode_vl32 arm rip = true -> - 2 ^ 31 <= arm < 2 ^ 31 /\ - 2 ^ 31 <= rip < 2 ^ 31.
Proof.
  unfold can_encode_vl32, vl32_min, vl32_max.
  case_if H1; [done|]. case_if H2; [done|]. intros _. lia.
Qed.

Lemma decode_long_vl32 rest :
  Decode (192 :: rest) = if (length rest <? 8)%nat then None else Some (Decode_vl32 rest).
Proof. reflexivity. Qed.
Lemma decode_long_vl64 rest :
  Decode (224 :: rest) = if (length rest <? 16)%nat then None else Some (Decode_vl64 rest).
Proof. reflexivity. Qed.

(** Two [n]-byte fields stored one after the other read back. *)
Lemma read_two n a b rest :
  from_le (take n ((to_le n a ++ to_le n b) ++ rest)) = wrap (8 * Z.of_nat n) a /\
  from_le (take n (drop n ((to_le n a ++ to_le n b) ++ rest))) = wrap (8 * Z.of_nat n) b /\
  (length ((to_le n a ++ to_le n b) ++ rest) <? n + n)%nat = false.
Proof.
  rewrite <- app_assoc. split_and!.
  - apply read_le.
  - rewrite drop_app_length' by (by rewrite length_to_le). apply read_le.
  - apply Nat.ltb_ge. rewrite !length_app, !length_to_le. lia.
Qed.

(** An unsigned 64-bit value whose signed reading fits in [w] bits is
    recovered from its low [w] bits. *)
Lemma u64_sgn_narrow w z :
  in_width 64 z -> 0 < w <= 64 -> - 2 ^ (w - 1) <= sgn 64 z < 2 ^ (w - 1) ->
  u64 (sgn w (wrap w z)) = z.
Proof.
  intros Hz Hw Hs. rewrite sgn_wrap by lia.
  assert (Heq : sgn w z = sgn 64 z).
  { rewrite <- (sgn_id w (sgn 64 z)) by lia. rewrite <- (sgn_wrap w z), <- (sgn_wrap w (sgn 64 z)) by lia.
    f_equal. unfold wrap. rewrite <- (wrap_small 64 z) at 1 by done. rewrite <- wrap_sgn by lia.
    unfold wrap. apply Z.mod_mod_divide.
    exists (2 ^ (64 - w)). rewrite <- Z.pow_add_r by lia. f_equal. lia. }
  rewrite Heq. unfold u64. rewrite wrap_sgn by lia. by apply wrap_small.
Qed.

Lemma roundtrip_vl8 k rip rest :
  1 <= k <= 16 -> 1 <= rip <= 8 ->
  Decode (Z.lor (Z.lor (wrap 4 (u8 (Z.shiftr (u64 (4 * k - 1)) 2)))
                  (Z.shiftl (wrap 3 (u8 (rip - 1))) 4)) (Z.shiftl 0 7) :: rest)
  = Some (mkDecoded (4 * k) rip 1).
Proof.
  intros Hk Hr. unfold u64, u8.
  rewrite (wrap_small 64), (Z.shiftr_div_pow2 _ 2) by width. change (2 ^ 2) with 4.
  replace ((4 * k - 1) / 4) with (k - 1) by (Z.div_mod_to_equations; lia).
  rewrite (wrap_small 8 (k - 1)), (wrap_small 4), (wrap_small 8), (wrap_small 3) by width.
  rewrite Z.shiftl_0_l, Z.lor_0_r, lor_field_add by width.
  unfold Decode. rewrite Z.shiftr_div_pow2, Z.div_small by (change (2 ^ 4) with 16; lia).
  simpl. unfold Decode_vl8, u64, vl8_arm_align_bits. do 2 f_equal.
  - rewrite wrap_field by width. rewrite Z.shiftl_mul_pow2 by lia. rewrite wrap_small by width. lia.
  - rewrite shiftr_field by width. rewrite (wrap_small 3), (wrap_small 64) by width. lia.
Qed.

Lemma roundtrip_vl16 arm rip k rest :
  in_width 64 arm -> in_width 64 rip ->
  sgn 64 arm = 4 * k -> -128 <= k < 128 -> -32 <= sgn 64 rip < 32 ->
  Decode (Z.lor (wrap 6 (sgn 64 rip)) (Z.shiftl 2 6) :: u8 (Z.shiftr (sgn 64 arm) 2) :: rest)
  = Some (mkDecoded arm rip 2).
Proof.
  intros Ha Hr Hk Hkb Hrb. rewrite lor_field_add by width.
  set (t := wrap 6 (sgn 64 rip)). assert (Ht : in_width 6 t) by (unfold t; width).
  unfold Decode, vl8_type_header, vl16_type_header.
  replace (Z.shiftr (t + 2 * 2 ^ 6) 7 =? 0) with false.
  2:{ symmetry. apply Z.eqb_neq. rewrite Z.shiftr_div_pow2 by lia. unfold in_width in Ht.
      Z.div_mod_to_equations. lia. }
  rewrite shiftr_field by width. simpl. unfold Decode_vl16, vl8_arm_align_bits. do 2 f_equal.
  - rewrite Hk, Z.shiftr_div_pow2, Z.shiftl_mul_pow2 by lia. change (2 ^ 2) with 4.
    replace (4 * k / 4) with k by (Z.div_mod_to_equations; lia).
    unfold u8. rewrite sgn_wrap, sgn_id by lia. replace (k * 4) with (sgn 64 arm) by lia.
    unfold u64. rewrite wrap_sgn by lia. by apply wrap_small.
  - rewrite <- (sgn_wrap 6 (t + 2 * 2 ^ 6)), wrap_field by width. unfold t.
    rewrite sgn_wrap, (sgn_id 6) by lia. unfold u64. rewrite wrap_sgn by lia. by apply wrap_small.
Qed.

Lemma pair_decode_encode arm rip rest :
  in_width 64 arm -> in_width 64 rip ->
  Decode (Encode arm rip ++ rest) = Some (mkDecoded arm rip (EncodedSize arm rip)).
Proof.
  intros Ha Hr. unfold Encode, EncodedSize.
  case_if H8; [|case_if H16; [|case_if H32]]; rewrite <- ?app_comm_cons.
  - apply can_vl8_inv in H8 as (k & -> & Hk & Hrip); [|done]. simpl app.
    by apply roundtrip_vl8.
  - apply can_vl16_inv in H16 as (k & Hk & Hkb & Hrb). simpl app. by apply (roundtrip_vl16 arm rip k).
  - apply can_vl32_inv in H32 as [Hab Hrb]. rewrite decode_long_vl32.
    destruct (read_two 4 arm rip rest) as (Hx & Hy & Hl). change (4 + 4)%nat with 8%nat in Hl.
    rewrite Hl. unfold Decode_vl32. rewrite Hx, Hy. do 2 f_equal; apply u64_sgn_narrow; done || lia.
  - rewrite decode_long_vl64.
    destruct (read_two 8 arm rip rest) as (Hx & Hy & Hl). change (8 + 8)%nat with 16%nat in Hl.
    rewrite Hl. unfold Decode_vl64. rewrite Hx, Hy. do 2 f_equal; by apply wrap_small.
Qed.

Lemma pair_encode_length arm rip : Z.of_nat (length (Encode arm rip)) = EncodedSize arm rip.
Proof. unfold Encode, EncodedSize. by repeat case_match. Qed.

(** [vl64pair] round trip: any pair of [uint64_t] deltas decodes back from
    the bytes stored for it, whichever of the four formats was chosen, and the
    reported size is the number of bytes stored. *)
Theorem vl64pair_roundtrip arm rip rest :
  in_width 64 arm -> in_width 64 rip ->
  Decode (Encode arm rip ++ rest) = Some (mkDecoded arm rip (EncodedSize arm rip)) /\
  Z.of_nat (length (Encode arm rip)) = EncodedSize arm rip.
Proof. intros. split; [by apply pair_decode_encode|apply pair_encode_length]. Qed.

End vl64pair.
