(* ===== verification/HostPC.v ===== *)
(** From a host PC inside translated code back to the guest PC.

    [CodeBuffer] is the per-buffer block index of CPUBackend.{h,cpp}
    ([AppendBlock], [FindBlockHeader], [RebuildBlockIndexByWalk]);
    [RIPTable] is the table of [vl64pair] deltas a block carries, written at
    the end of [CompileCode] (JIT/PPC64LE/JIT.cpp) and walked by
    [WalkBlockRIPTable] (Core.cpp); [RestoreRIPFromHostPC] composes the two.
    The memory behind [Ptr] is read through [HeaderAt]/[TailAt]: the
    [JITCodeHeader] and [JITCodeTail] found at a byte offset of the buffer. *)
From S2P Require Import Prelude VarInt.

Record JITCodeHeader := mkHeader { OffsetToBlockTail : Z }.

(** [RIPEntries] is the memory at the tail plus [OffsetToRIPEntries]. *)
Record JITCodeTail := mkTail {
  Size : Z; RIP : Z; GuestSize : Z; NumberOfRIPEntries : nat; RIPEntries : list Z }.

Module CodeBuffer.

Definition MinimumBlockSize : Z := 16.
Definition sizeof_Header : Z := 4.
Definition sizeof_Tail : Z := 48.

(** [BlockOffsets] holds the [BlockCount] published entries. *)
Record t := mk {
  Ptr : Z;
  UsableSize : Z;
  BlockOffsets : list Z;
  BlockCapacity : Z;
  HeaderAt : Z -> JITCodeHeader;
  TailAt : Z -> JITCodeTail }.

Definition BlockCount (b : t) : nat := length (BlockOffsets b).

(** The capacity the constructor gives the index. *)
Definition capacity_for (usable : Z) : Z := u32 (usable / MinimumBlockSize + 1).

Definition set_offsets (b : t) (l : list Z) : t :=
  mk (Ptr b) (UsableSize b) l (BlockCapacity b) (HeaderAt b) (TailAt b).

(** [ERROR_AND_DIE] ends the process. *)
Inductive outcome := Died | Ok (b : t).

Definition AppendBlock (b : t) (BlockOffset : Z) : outcome :=
  let Count := BlockCount b in
  if negb (Count =? 0)%nat && (BlockOffset <=? nth (Count - 1) (BlockOffsets b) 0) then Died
  else if Z.of_nat Count >=? BlockCapacity b then Died
  else Ok (set_offsets b (BlockOffsets b ++ [BlockOffset])).

(** The search loop of [FindBlockHeader]; [fuel] bounds its iterations. *)
Fixpoint search (fuel : nat) (offs : list Z) (Target : Z) (Lo Hi : nat) : option nat :=
  match fuel with
  | O => None
  | S fuel =>
      if (Lo <? Hi)%nat then
        let Mid := (Lo + (Hi - Lo) / 2)%nat in
        if nth Mid offs 0 <=? Target then search fuel offs Target (S Mid) Hi
        else search fuel offs Target Lo Mid
      else Some Lo
  end.

(** The block offset and its header, or [None] for [nullptr]. *)
Definition FindBlockHeader (b : t) (HostPC : Z) : option Z :=
  if HostPC <? Ptr b then None else
  let ByteOffset := HostPC - Ptr b in
  if ByteOffset >=? UsableSize b then None else
  let Count := BlockCount b in
  if (Count =? 0)%nat then None else
  let Target := u32 ByteOffset in
  match search (S Count) (BlockOffsets b) Target 0 Count with
  | None => None
  | Some O => None
  | Some (S Lo) =>
      let BlockOffset := nth Lo (BlockOffsets b) 0 in
      let Tail := TailAt b (BlockOffset + OffsetToBlockTail (HeaderAt b BlockOffset)) in
      if u32 (Target - BlockOffset) >=? Size Tail then None else Some BlockOffset
  end.

(** One pass of the walk's loop per unit of fuel; [Log]ged stops just end it. *)
Fixpoint walk (fuel : nat) (b : t) (End Offset : Z) : outcome :=
  match fuel with
  | O => Ok b
  | S fuel =>
      if negb (Offset <? End) then Ok b else
      let Remaining := End - Offset in
      if (Remaining <? MinimumBlockSize) || (Offset >? 2 ^ 32 - 1) then Ok b else
      let Tofs := OffsetToBlockTail (HeaderAt b Offset) in
      if (Tofs <? sizeof_Header) || (Offset + Tofs >? u64 (UsableSize b - sizeof_Tail)) then Ok b else
      let Sz := Size (TailAt b (Offset + Tofs)) in
      if (Sz <? MinimumBlockSize) || negb (Sz mod 16 =? 0) || (Sz >? Remaining) then Ok b else
      match AppendBlock b (u32 Offset) with
      | Died => Died
      | Ok b' => walk fuel b' End (Offset + Sz)
      end
  end.

Definition walk_fuel (Bytes : Z) : nat := S (Z.to_nat (Bytes / MinimumBlockSize)).

Definition RebuildBlockIndexByWalk (b : t) (Bytes StartOffset : Z) : outcome :=
  let b := if StartOffset =? 0 then set_offsets b [] else b in
  if Bytes =? 0 then Ok b else
  if (StartOffset >? UsableSize b) || (Bytes >? UsableSize b - StartOffset) then Ok b else
  walk (walk_fuel Bytes) b (StartOffset + Bytes) StartOffset.

(** ** Invariant

    Offsets ascend and the indexed blocks do not overlap: each block ends at
    or before the next one starts, and lies inside the buffer. *)

Definition SizeOf (b : t) (off : Z) : Z :=
  Size (TailAt b (off + OffsetToBlockTail (HeaderAt b off))).

Fixpoint chain (b : t) (lo : Z) (l : list Z) : Prop :=
  match l with
  | [] => True
  | off :: l => lo <= off /\ MinimumBlockSize <= SizeOf b off /\
                off + SizeOf b off <= UsableSize b /\ chain b (off + SizeOf b off) l
  end.

Record wf (b : t) : Prop := {
  wf_ptr : 0 <= Ptr b;
  wf_usable : 0 <= UsableSize b <= 2 ^ 32;
  wf_capacity : BlockCapacity b = capacity_for (UsableSize b);
  wf_chain : chain b 0 (BlockOffsets b);
}.

(** Where the last indexed block ends. *)
Fixpoint chain_end (b : t) (lo : Z) (l : list Z) : Z :=
  match l with [] => lo | off :: l => chain_end b (off + SizeOf b off) l end.

(** ** The chain *)

(** The chain looks at the memory only, not at the index. *)
Lemma chain_set b idx lo l : chain (set_offsets b idx) lo l <-> chain b lo l.
Proof. revert lo. induction l as [|x l IH]; intros lo; simpl; [tauto|]. by rewrite IH. Qed.

Lemma chain_end_set b idx lo l : chain_end (set_offsets b idx) lo l = chain_end b lo l.
Proof. revert lo. induction l as [|x l IH]; intros lo; simpl; [done|]. by rewrite IH. Qed.

Lemma chain_app b lo l1 l2 :
  chain b lo (l1 ++ l2) <-> chain b lo l1 /\ chain b (chain_end b lo l1) l2.
Proof. revert lo. induction l1 as [|x l1 IH]; intros lo; simpl; [tauto|]. rewrite IH. tauto. Qed.

Lemma chain_end_app b lo l1 l2 : chain_end b lo (l1 ++ l2) = chain_end b (chain_end b lo l1) l2.
Proof. revert lo. induction l1 as [|x l1 IH]; intros lo; simpl; [done|]. apply IH. Qed.

Lemma chain_end_ge b lo l : chain b lo l -> lo + 16 * Z.of_nat (length l) <= chain_end b lo l.
Proof.
  revert lo. induction l as [|x l IH]; intros lo; simpl; [lia|].
  unfold MinimumBlockSize. intros (? & ? & _ & H%IH). lia.
Qed.

Lemma chain_end_le b lo l : chain b lo l -> lo <= UsableSize b -> chain_end b lo l <= UsableSize b.
Proof. revert lo. induction l as [|x l IH]; intros lo; simpl; [lia|]. intros (? & ? & ? & H). auto. Qed.

(** Blocks at two positions of the chain do not overlap. *)
Lemma chain_nth b lo l i j :
  chain b lo l -> (i < j < length l)%nat ->
  nth i l 0 + SizeOf b (nth i l 0) <= nth j l 0.
Proof.
  revert lo i j. induction l as [|x l IH]; intros lo i j; simpl; [lia|].
  intros (_ & Hsz & _ & Hc) Hij. destruct j as [|j]; [lia|]. destruct i as [|i]; [|apply (IH _ i j Hc); lia].
  clear IH. revert Hc. generalize (x + SizeOf b x). intros z Hc.
  assert (Hj : (j < length l)%nat) by lia. clear Hij Hsz. revert j z Hc Hj.
  induction l as [|y l IHl]; intros j z; simpl; [lia|]. intros (Hz & Hy & _ & Hc) Hj.
  destruct j as [|j]; [done|]. unfold MinimumBlockSize in Hy.
  specialize (IHl j _ Hc ltac:(lia)). lia.
Qed.

Lemma chain_nth_block b lo l i :
  chain b lo l -> (i < length l)%nat ->
  lo <= nth i l 0 /\ 16 <= SizeOf b (nth i l 0) /\ nth i l 0 + SizeOf b (nth i l 0) <= UsableSize b.
Proof.
  revert lo i. induction l as [|x l IH]; intros lo i; simpl; [lia|].
  unfold MinimumBlockSize. intros (? & ? & ? & Hc) Hi. destruct i as [|i]; [lia|].
  specialize (IH _ i Hc ltac:(lia)). lia.
Qed.

(** ** The binary search *)

Lemma search_spec offs T fuel Lo Hi :
  (forall i j, (i < j < length offs)%nat -> nth i offs 0 < nth j offs 0) ->
  (Lo <= Hi <= length offs)%nat -> (Hi - Lo < fuel)%nat ->
  (forall i, (i < Lo)%nat -> nth i offs 0 <= T) ->
  (forall i, (Hi <= i < length offs)%nat -> T < nth i offs 0) ->
  exists k, search fuel offs T Lo Hi = Some k /\ (k <= length offs)%nat /\
    (forall i, (i < k)%nat -> nth i offs 0 <= T) /\
    (forall i, (k <= i < length offs)%nat -> T < nth i offs 0).
Proof.
  intros Hmono. revert Lo Hi. induction fuel as [|fuel IH]; intros Lo Hi Hb Hf Hlo Hhi; [lia|].
  cbn [search]. destruct (Nat.ltb_spec Lo Hi) as [Hlt|Hge].
  - set (Mid := (Lo + (Hi - Lo) / 2)%nat).
    assert (HMid : (Lo <= Mid < Hi)%nat).
    { unfold Mid. pose proof (Nat.div_lt (Hi - Lo) 2). lia. }
    destruct (Z.leb_spec (nth Mid offs 0) T) as [Hle|Hgt].
    + apply IH; [lia|lia| |done]. intros i Hi'.
      destruct (decide (i = Mid)) as [->|]; [done|]. pose proof (Hmono i Mid). lia.
    + apply IH; [lia|lia|done|]. intros i Hi'.
      destruct (decide (i = Mid)) as [->|]; [done|]. pose proof (Hmono Mid i). lia.
  - exists Lo. split_and!; [done|lia|done|]. intros i Hi'. apply Hhi. lia.
Qed.

Lemma find_block_spec b HostPC off :
  wf b ->
  (FindBlockHeader b HostPC = Some off <->
   off ∈ BlockOffsets b /\ Ptr b + off <= HostPC < Ptr b + off + SizeOf b off).
Proof.
  intros [Hp Hu Hc Hch]. set (offs := BlockOffsets b) in *.
  assert (Hblk : off ∈ offs -> exists i, (i < length offs)%nat /\ nth i offs 0 = off).
  { intros Hin. apply list_elem_of_In, In_nth with (d := 0) in Hin as (i & Hi & Hn). eauto. }
  unfold FindBlockHeader. fold offs.
  case_if H1.
  { split; [done|]. intros [(i & Hi & <-)%Hblk Hr].
    pose proof (chain_nth_block _ _ _ i Hch Hi). lia. }
  case_if H2.
  { split; [done|]. intros [(i & Hi & <-)%Hblk Hr].
    pose proof (chain_nth_block _ _ _ i Hch Hi). lia. }
  unfold BlockCount. fold offs. case_if H3.
  { split; [done|]. intros [(i & Hi & _)%Hblk _]. apply Nat.eqb_eq in H3. lia. }
  set (T := u32 (HostPC - Ptr b)).
  assert (HT : T = HostPC - Ptr b) by (apply wrap_small; width).
  destruct (search_spec offs T (S (length offs)) 0 (length offs)) as (k & -> & Hk & Hle & Hgt);
    [|lia|lia|lia|lia|].
  { intros i j Hij. pose proof (chain_nth _ _ _ i j Hch Hij).
    pose proof (chain_nth_block _ _ _ i Hch ltac:(lia)). lia. }
  destruct k as [|k].
  { split; [done|]. intros [(i & Hi & <-)%Hblk Hr]. specialize (Hgt i). lia. }
  pose proof (chain_nth_block _ _ _ k Hch ltac:(lia)) as Hb. specialize (Hle k ltac:(lia)) as Hlek.
  unfold u32. rewrite (wrap_small 32 (T - _)) by width. fold (SizeOf b (nth k offs 0)).
  case_if H4; split; try done.
  - intros [(i & Hi & <-)%Hblk Hr]. exfalso.
    destruct (decide (i = k)) as [->|Hne]; [lia|].
    destruct (decide (i < k)%nat).
    + pose proof (chain_nth _ _ _ i k Hch ltac:(lia)). lia.
    + specialize (Hgt i ltac:(lia)). lia.
  - intros [= <-]. split; [|lia]. apply list_elem_of_In, nth_In. lia.
  - intros [(i & Hi & <-)%Hblk Hr]. destruct (decide (i = k)) as [->|Hne]; [done|]. exfalso.
    destruct (decide (i < k)%nat).
    + pose proof (chain_nth _ _ _ i k Hch ltac:(lia)). lia.
    + specialize (Hgt i ltac:(lia)). lia.
Qed.

(** the block index answers exactly: [FindBlockHeader] finds the block at
    an offset iff that offset is indexed and the host PC lies inside the
    block; a PC in a gap, in the free tail or outside the buffer finds none. *)
Theorem find_block_header_correct b HostPC off :
  wf b ->
  (FindBlockHeader b HostPC = Some off <->
   off ∈ BlockOffsets b /\ Ptr b + off <= HostPC < Ptr b + off + SizeOf b off).
Proof. apply find_block_spec. Qed.

(** ** Appending *)

Lemma append_block_ok b off :
  wf b -> chain_end b 0 (BlockOffsets b) <= off -> MinimumBlockSize <= SizeOf b off ->
  off + SizeOf b off <= UsableSize b ->
  let b' := set_offsets b (BlockOffsets b ++ [off]) in AppendBlock b off = Ok b' /\ wf b'.
Proof.
  intros [Hp Hu Hc Hch] Hend Hsz Hfit b'. unfold AppendBlock, BlockCount.
  pose proof (chain_end_ge _ _ _ Hch) as Hge. unfold MinimumBlockSize in Hsz.
  assert (Hcap : BlockCapacity b = UsableSize b / 16 + 1).
  { rewrite Hc. unfold capacity_for, MinimumBlockSize, u32. apply wrap_small.
    unfold in_width. Z.div_mod_to_equations. lia. }
  rewrite Hcap. split.
  - replace (negb _ && _) with false.
    + replace (_ >=? _) with false; [done|]. symmetry. rewrite Z.geb_leb, Z.leb_gt.
      Z.div_mod_to_equations. lia.
    + symmetry. destruct (BlockOffsets b) as [|x l _] eqn:Hl using rev_ind; [done|].
      rewrite length_app in *. simpl length in *.
      replace (length l + 1 - 1)%nat with (length l) by lia. rewrite nth_middle.
      apply andb_false_intro2. apply Z.leb_gt. rewrite chain_end_app in Hend. simpl in Hend.
      apply chain_app in Hch as [_ (? & ? & _)]. unfold MinimumBlockSize in *. lia.
  - split; [done..|]. simpl. apply chain_set, chain_app. split; [done|].
    simpl. unfold MinimumBlockSize. done.
Qed.

(** The plausible blocks found from [off] on: each one's tail is inside the
    buffer, its size is a multiple of 16 that fits before [End]. *)
Fixpoint blocks_from (b : t) (End off : Z) (l : list Z) : Prop :=
  match l with
  | [] => off = End
  | x :: l => x = off /\ off <= 2 ^ 32 - 1 /\
      sizeof_Header <= OffsetToBlockTail (HeaderAt b off) /\
      off + OffsetToBlockTail (HeaderAt b off) <= UsableSize b - sizeof_Tail /\
      MinimumBlockSize <= SizeOf b off /\ SizeOf b off mod 16 = 0 /\
      off + SizeOf b off <= End /\ blocks_from b End (off + SizeOf b off) l
  end.

Lemma blocks_from_set b idx End off l :
  blocks_from (set_offsets b idx) End off l <-> blocks_from b End off l.
Proof. revert off. induction l as [|x l IH]; intros off; simpl; [tauto|]. by rewrite IH. Qed.

(** One accepted iteration of the walk. *)
Lemma walk_step fuel b End off :
  wf b -> chain_end b 0 (BlockOffsets b) <= off -> 0 <= off -> End <= UsableSize b ->
  walk (S fuel) b End off = Ok b \/
  (off <= 2 ^ 32 - 1 /\ 16 <= SizeOf b off /\ off + SizeOf b off <= End /\
   let b' := set_offsets b (BlockOffsets b ++ [off]) in
   wf b' /\ chain_end b' 0 (BlockOffsets b') <= off + SizeOf b off /\
   walk (S fuel) b End off = walk fuel b' End (off + SizeOf b off)).
Proof.
  intros Hwf Hend Hoff HEnd. cbn [walk].
  case_if H1; [by left|]. case_if H2; [by left|]. case_if H3; [by left|].
  fold (SizeOf b off). case_if H4; [by left|]. right. unfold MinimumBlockSize in *.
  destruct (append_block_ok b off Hwf) as [Happ Hwf']; [done|unfold MinimumBlockSize; lia|lia|].
  split_and!; try lia; [done| |].
  - simpl. rewrite chain_end_set, chain_end_app. simpl. lia.
  - unfold u32. rewrite wrap_small by width. by rewrite Happ.
Qed.

Lemma walk_invariant fuel b End off :
  wf b -> chain_end b 0 (BlockOffsets b) <= off -> 0 <= off -> End <= UsableSize b ->
  exists b' l, walk fuel b End off = Ok b' /\ wf b' /\ b' = set_offsets b (BlockOffsets b ++ l).
Proof.
  revert b off. induction fuel as [|fuel IH]; intros b off Hwf Hend Hoff HEnd.
  { exists b, []. split_and!; [done..|]. rewrite app_nil_r. by destruct b. }
  destruct (walk_step fuel b End off Hwf Hend Hoff HEnd) as [->|(? & ? & ? & Hwf' & Hend' & ->)].
  { exists b, []. split_and!; [done..|]. rewrite app_nil_r. by destruct b. }
  edestruct (IH _ _ Hwf' Hend') as (b'' & l & -> & Hwf'' & ->); [lia|done|].
  eexists _, (off :: l). split_and!; [done..|]. unfold set_offsets. simpl.
  by rewrite <- app_assoc.
Qed.

Lemma walk_complete fuel b End off l :
  wf b -> chain_end b 0 (BlockOffsets b) <= off -> 0 <= off -> End <= UsableSize b ->
  (length l < fuel)%nat -> blocks_from b End off l ->
  walk fuel b End off = Ok (set_offsets b (BlockOffsets b ++ l)).
Proof.
  revert b off l. induction fuel as [|fuel IH]; intros b off l Hwf Hend Hoff HEnd Hf Hl; [lia|].
  destruct l as [|x l]; simpl in Hl.
  - subst. cbn [walk]. rewrite Z.ltb_irrefl. simpl. rewrite app_nil_r. by destruct b.
  - destruct Hl as (-> & H1 & H2 & H3 & H4 & H5 & H6 & Hl). unfold MinimumBlockSize in *.
    destruct (walk_step fuel b End off Hwf Hend Hoff HEnd) as [Hstop|(_ & _ & _ & Hwf' & Hend' & ->)].
    + exfalso. revert Hstop. cbn [walk]. unfold MinimumBlockSize. fold (SizeOf b off).
      rewrite u64_small by (destruct (wf_usable _ Hwf); unfold sizeof_Header, sizeof_Tail in *; lia).
      do 4 (case_if C; [lia|clear C]).
      destruct (append_block_ok b off Hwf) as [Happ Hwf']; [done|unfold MinimumBlockSize; lia|lia|].
      unfold u32. rewrite wrap_small by width. rewrite Happ.
      destruct (walk_invariant fuel _ End (off + SizeOf b off) Hwf') as (b'' & l' & -> & _ & ->);
        [|lia|done|].
      { simpl. rewrite chain_end_set, chain_end_app. simpl. lia. }
      intros [= Heq]. apply (f_equal (fun b => length (BlockOffsets b))) in Heq. simpl in Heq.
      rewrite !length_app in Heq. simpl in Heq. lia.
    + rewrite (IH _ _ l Hwf' Hend'); [|lia|done|simpl in Hf; lia|by apply blocks_from_set].
      unfold set_offsets. simpl. by rewrite <- app_assoc.
Qed.

Lemma blocks_from_length b End off l :
  blocks_from b End off l -> off + 16 * Z.of_nat (length l) <= End.
Proof.
  revert off. induction l as [|x l IH]; intros off; simpl; [lia|]. unfold MinimumBlockSize.
  intros (_ & _ & _ & _ & ? & _ & _ & H%IH). lia.
Qed.

(** The state from which a walk may run: fresh, or appending above every
    block already indexed. *)
Definition walk_ready (b : t) (StartOffset : Z) : Prop :=
  0 <= StartOffset /\ (StartOffset = 0 \/ chain_end b 0 (BlockOffsets b) <= StartOffset).

Lemma walk_start b StartOffset :
  wf b -> walk_ready b StartOffset ->
  let b0 := if StartOffset =? 0 then set_offsets b [] else b in
  wf b0 /\ chain_end b0 0 (BlockOffsets b0) <= StartOffset.
Proof.
  intros [Hp Hu Hc Hch] [Hs [->|Hend]]; simpl.
  - split; [by split|lia].
  - destruct (Z.eqb_spec StartOffset 0) as [->|]; [split; [by split|simpl; lia]|by split].
Qed.

(** C38. rebuilding the index from a cached image never trips the two
    [ERROR_AND_DIE] checks of [AppendBlock], whatever bytes the image holds
    (the index capacity suffices), and leaves a well-formed index that still
    has every block indexed before; an image that is a contiguous run of
    plausible blocks is indexed completely. *)
Theorem rebuild_index_safe b Bytes StartOffset :
  wf b -> walk_ready b StartOffset -> 0 <= Bytes ->
  let b0 := if StartOffset =? 0 then set_offsets b [] else b in
  (exists b' l, RebuildBlockIndexByWalk b Bytes StartOffset = Ok b' /\ wf b' /\
     BlockOffsets b' = BlockOffsets b0 ++ l) /\
  (forall l, 0 < Bytes -> StartOffset + Bytes <= UsableSize b ->
     blocks_from b (StartOffset + Bytes) StartOffset l ->
     RebuildBlockIndexByWalk b Bytes StartOffset = Ok (set_offsets b (BlockOffsets b0 ++ l))).
Proof.
  intros Hwf Hr HB b0. destruct (walk_start b StartOffset Hwf Hr) as [Hwf0 Hend0].
  fold b0 in Hwf0, Hend0. destruct Hr as [Hs _].
  assert (Hus : UsableSize b0 = UsableSize b) by (unfold b0; by case_match).
  unfold RebuildBlockIndexByWalk. fold b0. split.
  - case_if H1; [exists b0, []; by rewrite app_nil_r|].
    case_if H2; [exists b0, []; by rewrite app_nil_r|].
    destruct (walk_invariant (walk_fuel Bytes) b0 (StartOffset + Bytes) StartOffset)
      as (b' & l & -> & Hwf' & ->); [done..|lia|]. exists (set_offsets b0 (BlockOffsets b0 ++ l)), l.
    by split_and!.
  - intros l HB' Hfit Hl. case_if H1; [lia|]. case_if H2; [lia|].
    rewrite (walk_complete _ _ _ _ l); [|done|done|lia|lia| |].
    + unfold b0. by case_match.
    + apply blocks_from_length in Hl. unfold walk_fuel, MinimumBlockSize.
      Z.div_mod_to_equations. lia.
    + unfold b0. case_match; [by apply blocks_from_set|done].
Qed.

End CodeBuffer.

Module RIPTable.

(** [DebugDataGuestOpcode]: the guest PC of a marker relative to the block's
    entry PC, and the host code offset it was emitted at. *)
Record GuestOpcode := mkOp { GuestEntryOffset : Z; HostEntryOffset : Z }.

(** The encoding loop; [PrevPCOffset]/[PrevRIPOffset] are its two accumulators. *)
Fixpoint encode_entries (PrevPCOffset PrevRIPOffset : Z) (ops : list GuestOpcode) : list Z :=
  match ops with
  | [] => []
  | o :: ops =>
      let RIPOffset := sgn 32 (u32 (GuestEntryOffset o)) in
      let HostDelta := u64 (HostEntryOffset o - PrevPCOffset) in
      let GuestDelta := u64 (RIPOffset - PrevRIPOffset) in
      vl64pair.Encode HostDelta GuestDelta ++ encode_entries (HostEntryOffset o) RIPOffset ops
  end.

(** [MaxEntriesSize], the room the encoder reserves. *)
Definition MaxEntriesSize (ops : list GuestOpcode) : Z := Z.of_nat (length ops) * 17.

(** The loop of [WalkBlockRIPTable]. *)
Fixpoint walk_entries (n : nat) (HostPC StartingHostPC StartingGuestRIP : Z) (RIPEntry : list Z)
  : option Z :=
  match n with
  | O => Some StartingGuestRIP
  | S n =>
      match vl64pair.Decode RIPEntry with
      | None => None
      | Some Offset =>
          let RIPEntry := drop (Z.to_nat (vl64pair.Size Offset)) RIPEntry in
          if HostPC >=? u64 (StartingHostPC + vl64pair.IntegerARMPC Offset) then
            walk_entries n HostPC (u64 (StartingHostPC + vl64pair.IntegerARMPC Offset))
              (u64 (StartingGuestRIP + vl64pair.IntegerX86RIP Offset)) RIPEntry
          else Some StartingGuestRIP
      end
  end.

Definition WalkBlockRIPTable (BlockBegin : Z) (Tail : JITCodeTail) (HostPC : Z) : option Z :=
  walk_entries (NumberOfRIPEntries Tail) HostPC BlockBegin (RIP Tail) (RIPEntries Tail).

(** ** Specification: the last marker at or before the host PC *)

Definition marker_at (ops : list GuestOpcode) (d : Z) : option GuestOpcode :=
  last (filter (fun o => HostEntryOffset o <= d) ops).

Definition rip_of (rip : Z) (m : option GuestOpcode) : Z :=
  match m with
  | None => rip
  | Some o => u64 (rip + sgn 32 (GuestEntryOffset o))
  end.

(** The markers are recorded in emission order. *)
Definition ascending (lo : Z) (ops : list GuestOpcode) : Prop :=
  Forall (fun o => lo <= HostEntryOffset o) ops /\
  StronglySorted (fun a b => HostEntryOffset a <= HostEntryOffset b) ops.

Lemma marker_none ops d :
  Forall (fun o => d < HostEntryOffset o) ops -> marker_at ops d = None.
Proof.
  intros H. unfold marker_at. induction H as [|o ops Ho H IH]; [done|].
  rewrite filter_cons_False by lia. done.
Qed.

Lemma marker_cons o ops d :
  HostEntryOffset o <= d ->
  marker_at (o :: ops) d = Some (default o (marker_at ops d)).
Proof.
  intros H. unfold marker_at. rewrite filter_cons_True by done.
  rewrite last_cons. by destruct (last _).
Qed.

Lemma u64_add_l a b : u64 (u64 a + b) = u64 (a + b).
Proof. unfold u64, wrap. apply Zplus_mod_idemp_l. Qed.
Lemma u64_add_r a b : u64 (a + u64 b) = u64 (a + b).
Proof. unfold u64, wrap. apply Zplus_mod_idemp_r. Qed.

Lemma walk_encoded ops : forall pc rip begin rip0 HostPC rest,
  0 <= pc -> ascending pc ops -> 0 <= begin ->
  Forall (fun o => begin + HostEntryOffset o < 2 ^ 64) ops -> begin + pc <= HostPC ->
  walk_entries (length ops) HostPC (begin + pc) (u64 (rip0 + rip)) (encode_entries pc rip ops ++ rest)
  = Some (match marker_at ops (HostPC - begin) with
          | None => u64 (rip0 + rip)
          | Some o => u64 (rip0 + sgn 32 (GuestEntryOffset o))
          end).
Proof.
  induction ops as [|o ops IH]; intros pc rip begin rip0 HostPC rest Hpc [Hall Hs] Hb Hmax Hin; [done|].
  apply Forall_cons in Hall as [Ho Hall]. apply Forall_cons in Hmax as [Hmo Hmax].
  apply StronglySorted_cons in Hs as [Hs1 Hs2]. cbn [length walk_entries encode_entries].
  rewrite <- app_assoc.
  rewrite (vl64pair.pair_decode_encode _ _ _) by (apply wrap_range; lia).
  cbn [vl64pair.Size vl64pair.IntegerARMPC vl64pair.IntegerX86RIP].
  rewrite <- vl64pair.pair_encode_length, Nat2Z.id, drop_app_length.
  rewrite !u64_add_r, u64_add_l.
  replace (begin + pc + (HostEntryOffset o - pc)) with (begin + HostEntryOffset o) by lia.
  replace (u64 (begin + HostEntryOffset o)) with (begin + HostEntryOffset o)
    by (symmetry; apply wrap_small; width).
  set (r' := sgn 32 (u32 (GuestEntryOffset o))).
  replace (rip0 + rip + (r' - rip)) with (rip0 + r') by lia.
  destruct (HostPC >=? begin + HostEntryOffset o) eqn:Hge.
  - rewrite marker_cons by lia.
    rewrite IH; [|lia|by split|lia|done|lia].
    destruct (marker_at ops _); simpl; [done|]. unfold r', u32. by rewrite sgn_wrap by lia.
  - rewrite marker_none; [done|]. constructor; [lia|].
    apply (Forall_impl _ _ _ Hs1). intros. lia.
Qed.

Lemma encode_size pc rip ops :
  Z.of_nat (length (encode_entries pc rip ops)) <= MaxEntriesSize ops.
Proof.
  unfold MaxEntriesSize. revert pc rip. induction ops as [|o ops IH]; intros pc rip; simpl; [lia|].
  rewrite length_app, Nat2Z.inj_add, vl64pair.pair_encode_length.
  specialize (IH (HostEntryOffset o) (sgn 32 (u32 (GuestEntryOffset o)))).
  unfold vl64pair.EncodedSize. repeat case_match; lia.
Qed.

(** the encoder of the per-block guest-PC table never writes past the
    [MaxEntriesSize] bytes of scratch it reserved, for any marker list. *)
Theorem rip_table_fits ops :
  Z.of_nat (length (encode_entries 0 0 ops)) <= MaxEntriesSize ops.
Proof. apply encode_size. Qed.

End RIPTable.

(** [CPUBackend]: the thread's current buffer, then the pinned older ones. *)
Definition CPUBackend_FindBlockHeader (current : option CodeBuffer.t) (pinned : list CodeBuffer.t)
  (HostPC : Z) : option (CodeBuffer.t * Z) :=
  let try (b : CodeBuffer.t) := (b,.) <$> CodeBuffer.FindBlockHeader b HostPC in
  match current ≫= try with
  | Some r => Some r
  | None => foldr (fun b rest => match try b with Some r => Some r | None => rest end) None pinned
  end.

(** [ContextImpl::RestoreRIPFromHostPC]; [pc] is [Frame->State.pc]. *)
Definition RestoreRIPFromHostPC (current : option CodeBuffer.t) (pinned : list CodeBuffer.t)
  (pc HostPC : Z) : option Z :=
  match CPUBackend_FindBlockHeader current pinned HostPC with
  | Some (b, off) =>
      let Tail := CodeBuffer.TailAt b (off + OffsetToBlockTail (CodeBuffer.HeaderAt b off)) in
      if (NumberOfRIPEntries Tail =? 0)%nat then Some pc
      else RIPTable.WalkBlockRIPTable (CodeBuffer.Ptr b + off) Tail HostPC
  | None => Some pc
  end.

(** A tail whose table was written for the markers [ops]. *)
Definition tail_for (Tail : JITCodeTail) (ops : list RIPTable.GuestOpcode) : Prop :=
  NumberOfRIPEntries Tail = length ops /\
  exists rest, RIPEntries Tail = RIPTable.encode_entries 0 0 ops ++ rest.

Import RIPTable.

(** C37. guest-PC reconstruction is exact.  For a host PC inside an indexed
    block whose table was encoded from the block's markers, the restored PC
    is the block's entry PC plus the (32-bit signed) offset of the last
    marker at or before the host PC. *)
Theorem restore_rip_exact b pinned pc off Tail ops HostPC :
  CodeBuffer.wf b -> off ∈ CodeBuffer.BlockOffsets b ->
  Tail = CodeBuffer.TailAt b (off + OffsetToBlockTail (CodeBuffer.HeaderAt b off)) ->
  tail_for Tail ops -> ops <> [] -> in_width 64 (RIP Tail) ->
  ascending 0 ops -> Forall (fun o => CodeBuffer.Ptr b + off + HostEntryOffset o < 2 ^ 64) ops ->
  CodeBuffer.Ptr b + off <= HostPC < CodeBuffer.Ptr b + off + Size Tail ->
  RestoreRIPFromHostPC (Some b) pinned pc HostPC =
  Some (rip_of (RIP Tail) (marker_at ops (HostPC - (CodeBuffer.Ptr b + off)))).
Proof.
  intros Hwf Hin HT [Hn (rest & Hent)] Hne Hrip Hasc Hmax Hpc.
  unfold RestoreRIPFromHostPC, CPUBackend_FindBlockHeader. simpl.
  assert (Hf : CodeBuffer.FindBlockHeader b HostPC = Some off).
  { apply CodeBuffer.find_block_spec; [done|]. unfold CodeBuffer.SizeOf. rewrite <- HT. split; [done|lia]. }
  rewrite Hf. simpl. rewrite <- HT, Hn.
  destruct ops as [|o ops]; [done|]. change (length (o :: ops) =? 0)%nat with false. cbn iota.
  unfold WalkBlockRIPTable. rewrite Hn, Hent.
  assert (Hoff : 0 <= off /\ 0 <= CodeBuffer.Ptr b).
  { destruct Hwf as [Hp _ _ Hch]. split; [|done].
    apply list_elem_of_In, In_nth with (d := 0) in Hin as (i & Hi & <-).
    by apply (CodeBuffer.chain_nth_block b 0 _ i). }
  rewrite <- (Z.add_0_r (_ + off)), <- (wrap_small 64 (RIP Tail)) at 1 by done.
  fold (u64 (RIP Tail)). rewrite <- (Z.add_0_r (RIP Tail)) at 1.
  rewrite walk_encoded; [|lia|done|lia|done|lia].
  f_equal. unfold rip_of. destruct (marker_at _ _); [done|].
  rewrite Z.add_0_r. by apply wrap_small.
Qed.

(** ** A concrete buffer: two blocks of 64 and 32 bytes *)

Definition ex_ops : list GuestOpcode := [mkOp 0 4; mkOp 4 16; mkOp (2 ^ 32 - 8) 28].
Definition ex_tail : JITCodeTail := mkTail 64 4096 12 3 (encode_entries 0 0 ex_ops).
Definition ex_buf : CodeBuffer.t :=
  CodeBuffer.mk 65536 4096 [0; 64] (CodeBuffer.capacity_for 4096) (fun _ => mkHeader 1024)
    (fun o => if o =? 1024 then ex_tail else mkTail 32 8192 4 0 []).

Lemma ex_buf_wf : CodeBuffer.wf ex_buf.
Proof.
  split; [simpl; lia..|reflexivity|]. cbv -[Z.le]. split_and!; lia || done.
Qed.

Lemma rebuild_index_safe_witness :
  CodeBuffer.RebuildBlockIndexByWalk ex_buf 96 0 = CodeBuffer.Ok ex_buf /\
  exists b' l, CodeBuffer.RebuildBlockIndexByWalk ex_buf 96 0 = CodeBuffer.Ok b' /\
    CodeBuffer.wf b' /\ CodeBuffer.BlockOffsets b' = [] ++ l.
Proof.
  split; [reflexivity|].
  apply (CodeBuffer.rebuild_index_safe ex_buf 96 0 ex_buf_wf); [split; [lia|by left]|lia].
Defined.

Lemma restore_rip_exact_witness :
  RestoreRIPFromHostPC (Some ex_buf) [] 0 (65536 + 20) = Some 4100 /\
  RestoreRIPFromHostPC (Some ex_buf) [] 0 (65536 + 40)
  = Some (rip_of (RIP ex_tail) (marker_at ex_ops (65536 + 40 - (CodeBuffer.Ptr ex_buf + 0)))).
Proof.
  split; [reflexivity|].
  apply (restore_rip_exact ex_buf [] 0 0 ex_tail ex_ops (65536 + 40)).
  - exact ex_buf_wf.
  - by left.
  - reflexivity.
  - split; [reflexivity|]. exists []. by rewrite app_nil_r.
  - done.
  - cbv -[Z.le Z.lt]. split; lia || done.
  - split; [repeat constructor; simpl; lia|]. repeat constructor; simpl; lia.
  - repeat constructor; simpl; lia.
  - simpl. lia.
Defined.
