(* ===== verification/BPF.v ===== *)
(** The classic-BPF interpreter for guest seccomp filters
    (Source/Tools/LinuxEmulation/LinuxSyscalls/Seccomp/BPFInterpreter.cpp):
    [ValidateProgram], [Execute], and the theorems that make the validator the
    contract of the interpreter: an accepted program runs without any
    out-of-range access, ends in a RET or a division by zero within its
    length, and never takes one of the "unreachable" exits.

    The [BPF_*] encodings are those of <linux/bpf_common.h> and
    <linux/filter.h>, the layout of [seccomp_data] that of <linux/seccomp.h>. *)
From S2P Require Import Prelude.

Module BPF.

(** ** Encoding *)

Definition BPF_CLASS (code : Z) : Z := Z.land code 7.
Definition BPF_SIZE (code : Z) : Z := Z.land code 24.
Definition BPF_MODE (code : Z) : Z := Z.land code 224.
Definition BPF_OP (code : Z) : Z := Z.land code 240.
Definition BPF_SRC (code : Z) : Z := Z.land code 8.
Definition BPF_RVAL (code : Z) : Z := Z.land code 24.
Definition BPF_MISCOP (code : Z) : Z := Z.land code 248.

(** Instruction classes. *)
Inductive class := LD | LDX | ST | STX | ALU | JMP | RET | MISC.
Definition classify (code : Z) : class :=
  match BPF_CLASS code with
  | 0 => LD | 1 => LDX | 2 => ST | 3 => STX | 4 => ALU | 5 => JMP | 6 => RET | _ => MISC
  end.

Definition BPF_W : Z := 0.
Definition BPF_IMM : Z := 0.
Definition BPF_ABS : Z := 32.
Definition BPF_MEM : Z := 96.
Definition BPF_LEN : Z := 128.
Definition BPF_ADD : Z := 0.
Definition BPF_SUB : Z := 16.
Definition BPF_MUL : Z := 32.
Definition BPF_DIV : Z := 48.
Definition BPF_OR : Z := 64.
Definition BPF_AND : Z := 80.
Definition BPF_LSH : Z := 96.
Definition BPF_RSH : Z := 112.
Definition BPF_NEG : Z := 128.
Definition BPF_MOD : Z := 144.
Definition BPF_XOR : Z := 160.
Definition BPF_JA : Z := 0.
Definition BPF_JEQ : Z := 16.
Definition BPF_JGT : Z := 32.
Definition BPF_JGE : Z := 48.
Definition BPF_JSET : Z := 64.
Definition BPF_K : Z := 0.
Definition BPF_X : Z := 8.
Definition BPF_A : Z := 16.
Definition BPF_TAX : Z := 0.
Definition BPF_TXA : Z := 128.
Definition BPF_MEMWORDS : Z := 16.
Definition SECCOMP_DATA_SIZE : Z := 64.
Definition EINVAL : Z := 22.

Record sock_filter := mkInst { code : Z; jt : Z; jf : Z; k : Z }.

(** The fields at their C types. *)
Definition inst_ok (i : sock_filter) : Prop :=
  in_width 16 (code i) /\ in_width 8 (jt i) /\ in_width 8 (jf i) /\ in_width 32 (k i).

(** ** [ValidateProgram] *)

(** The per-instruction checks; [true] means the instruction is accepted. *)
Definition valid_inst (NumInsts i : Z) (inst : sock_filter) : bool :=
  let Code := code inst in
  match classify Code with
  | LD | LDX =>
      if negb (BPF_SIZE Code =? BPF_W) then false
      else if BPF_MODE Code =? BPF_IMM then true
      else if BPF_MODE Code =? BPF_ABS then
        negb (negb (Z.land (k inst) 3 =? 0) || (k inst >=? SECCOMP_DATA_SIZE))
      else if BPF_MODE Code =? BPF_MEM then negb (k inst >=? BPF_MEMWORDS)
      else if BPF_MODE Code =? BPF_LEN then true
      else false
  | ST | STX =>
      if negb (BPF_SIZE Code =? BPF_W) then false else negb (k inst >=? BPF_MEMWORDS)
  | ALU =>
      let op := BPF_OP Code in
      if (op =? BPF_ADD) || (op =? BPF_SUB) || (op =? BPF_MUL) || (op =? BPF_DIV) || (op =? BPF_OR)
         || (op =? BPF_AND) || (op =? BPF_LSH) || (op =? BPF_RSH) || (op =? BPF_MOD) || (op =? BPF_XOR)
      then true
      else if op =? BPF_NEG then BPF_SRC Code =? BPF_K
      else false
  | JMP =>
      let op := BPF_OP Code in
      if op =? BPF_JA then
        if negb (BPF_SRC Code =? BPF_K) then false
        else let Target := u64 (i + k inst + 1) in negb (Target >=? NumInsts)
      else if (op =? BPF_JEQ) || (op =? BPF_JGT) || (op =? BPF_JGE) || (op =? BPF_JSET) then
        let TargetTrue := u64 (i + jt inst + 1) in
        let TargetFalse := u64 (i + jf inst + 1) in
        negb ((TargetTrue >=? NumInsts) || (TargetFalse >=? NumInsts))
      else false
  | RET =>
      let v := BPF_RVAL Code in (v =? BPF_K) || (v =? BPF_X) || (v =? BPF_A)
  | MISC => let op := BPF_MISCOP Code in (op =? BPF_TAX) || (op =? BPF_TXA)
  end.

Fixpoint valid_from (NumInsts i : Z) (prog : list sock_filter) : bool :=
  match prog with
  | [] => true
  | inst :: rest => if valid_inst NumInsts i inst then valid_from NumInsts (i + 1) rest else false
  end.

(** The result as an [int64] error number: 0 or [-EINVAL].  The callers
    reject an empty program first, so [filter[NumInsts - 1]] exists. *)
Definition ValidateProgram (prog : list sock_filter) : Z :=
  let NumInsts := Z.of_nat (length prog) in
  if negb (valid_from NumInsts 0 prog) then - EINVAL
  else match classify (code (List.last prog (mkInst 0 0 0 0))) with
       | RET => 0
       | _ => - EINVAL
       end.

(** ** [Execute] *)

(** [Data] is the byte image of [seccomp_data], [Scratch] the 16 words. *)
Record WorkingBuffer := mkBuf { Data : list Z; Scratch : list Z }.

Record State := mkState { A : Z; X : Z }.

(** How a run ended.  [Unreachable] is a [default: return 0] arm, [FellOff]
    the [return 0] after the loop, [Fault] an access outside [Data] or
    [Scratch] (undefined behaviour in the C++ code). *)
Inductive exit := Returned (v : Z) | DivByZero | Unreachable | FellOff | Fault.

(** The 32-bit value [Execute] returns for an exit. *)
Definition exit_value (e : exit) : option Z :=
  match e with
  | Returned v => Some v
  | DivByZero | Unreachable | FellOff => Some 0
  | Fault => None
  end.

Inductive step_result := Next (S : State) (b : WorkingBuffer) (IP : Z) | Stop (e : exit).

(** [memcpy(&Value, DataBytes + k, 4)]. *)
Definition load_abs (d : list Z) (off : Z) : option Z :=
  if off + 4 <=? Z.of_nat (length d) then Some (from_le (take 4 (drop (Z.to_nat off) d))) else None.

Definition alu (op a src : Z) : option Z :=
  if op =? BPF_ADD then Some (u32 (a + src))
  else if op =? BPF_SUB then Some (u32 (a - src))
  else if op =? BPF_MUL then Some (u32 (a * src))
  else if op =? BPF_DIV then Some (a / src)
  else if op =? BPF_MOD then Some (a mod src)
  else if op =? BPF_OR then Some (Z.lor a src)
  else if op =? BPF_AND then Some (Z.land a src)
  else if op =? BPF_XOR then Some (Z.lxor a src)
  else if op =? BPF_LSH then Some (u32 (Z.shiftl a (Z.land src 31)))
  else if op =? BPF_RSH then Some (Z.shiftr a (Z.land src 31))
  else if op =? BPF_NEG then Some (u32 (- a))
  else None.

(** One iteration of the loop body; [IP] in the result is before the loop's
    own increment. *)
Definition step (inst : sock_filter) (S : State) (b : WorkingBuffer) (IP : Z) : step_result :=
  let Code := code inst in
  let kk := k inst in
  match classify Code with
  | (LD | LDX) as c =>
      let load (Value : Z) :=
        Next (match c with LD => mkState Value (X S) | _ => mkState (A S) Value end) b IP in
      if BPF_MODE Code =? BPF_IMM then load kk
      else if BPF_MODE Code =? BPF_ABS then
        match load_abs (Data b) kk with Some v => load v | None => Stop Fault end
      else if BPF_MODE Code =? BPF_MEM then
        match Scratch b !! Z.to_nat kk with Some v => load v | None => Stop Fault end
      else if BPF_MODE Code =? BPF_LEN then load SECCOMP_DATA_SIZE
      else Stop Unreachable
  | ST =>
      if kk <? Z.of_nat (length (Scratch b)) then
        Next S (mkBuf (Data b) (<[Z.to_nat kk := A S]> (Scratch b))) IP
      else Stop Fault
  | STX =>
      if kk <? Z.of_nat (length (Scratch b)) then
        Next S (mkBuf (Data b) (<[Z.to_nat kk := X S]> (Scratch b))) IP
      else Stop Fault
  | ALU =>
      let Src := if BPF_SRC Code =? BPF_X then X S else kk in
      if ((BPF_OP Code =? BPF_DIV) || (BPF_OP Code =? BPF_MOD)) && (Src =? 0) then Stop DivByZero
      else match alu (BPF_OP Code) (A S) Src with
           | Some a => Next (mkState a (X S)) b IP
           | None => Stop Unreachable
           end
  | JMP =>
      let Src := if BPF_SRC Code =? BPF_X then X S else kk in
      let br (c : bool) := Next S b (u32 (IP + (if c then jt inst else jf inst))) in
      let op := BPF_OP Code in
      if op =? BPF_JA then Next S b (u32 (IP + kk))
      else if op =? BPF_JEQ then br (A S =? Src)
      else if op =? BPF_JGT then br (A S >? Src)
      else if op =? BPF_JGE then br (A S >=? Src)
      else if op =? BPF_JSET then br (negb (Z.land (A S) Src =? 0))
      else Stop Unreachable
  | RET =>
      let v := BPF_RVAL Code in
      if v =? BPF_K then Stop (Returned kk)
      else if v =? BPF_X then Stop (Returned (X S))
      else if v =? BPF_A then Stop (Returned (A S))
      else Stop Unreachable
  | MISC =>
      let op := BPF_MISCOP Code in
      if op =? BPF_TAX then Next (mkState (A S) (A S)) b IP
      else if op =? BPF_TXA then Next (mkState (X S) (X S)) b IP
      else Stop Unreachable
  end.

(** The [for] loop; [None] only when the fuel runs out. *)
Fixpoint run (fuel : nat) (prog : list sock_filter) (S : State) (b : WorkingBuffer) (IP : Z)
  : option exit :=
  match fuel with
  | O => None
  | Datatypes.S fuel =>
      if IP <? Z.of_nat (length prog) then
        match prog !! Z.to_nat IP with
        | None => Some FellOff
        | Some inst =>
            match step inst S b IP with
            | Stop e => Some e
            | Next S' b' IP' => run fuel prog S' b' (u32 (IP' + 1))
            end
        end
      else Some FellOff
  end.

(** At most one iteration per instruction, and the final loop test. *)
Definition Execute (prog : list sock_filter) (b : WorkingBuffer) : option exit :=
  run (Datatypes.S (length prog)) prog (mkState 0 0) b 0.

(** ** Invariants of a run *)

Definition buf_ok (b : WorkingBuffer) : Prop :=
  Z.of_nat (length (Data b)) = SECCOMP_DATA_SIZE /\ Forall (in_width 8) (Data b) /\
  Z.of_nat (length (Scratch b)) = BPF_MEMWORDS /\ Forall (in_width 32) (Scratch b).

Definition state_ok (S : State) : Prop := in_width 32 (A S) /\ in_width 32 (X S).

Lemma from_le_range l : Forall (in_width 8) l -> in_width (8 * Z.of_nat (length l)) (from_le l).
Proof.
  induction 1 as [|x l Hx Hl IH]; [unfold in_width; simpl; lia|].
  cbn [length from_le]. unfold in_width in *.
  replace (8 * Z.of_nat (Datatypes.S (length l))) with (8 + 8 * Z.of_nat (length l)) by lia.
  rewrite Z.pow_add_r by lia. nia.
Qed.

Lemma load_abs_ok d off :
  Z.of_nat (length d) = SECCOMP_DATA_SIZE -> Forall (in_width 8) d ->
  0 <= off -> Z.land off 3 = 0 -> off < SECCOMP_DATA_SIZE ->
  exists v, load_abs d off = Some v /\ in_width 32 v.
Proof.
  unfold SECCOMP_DATA_SIZE. intros Hl Hd H0 Hal Hlt. change 3 with (Z.ones 2) in Hal.
  rewrite land_wrap in Hal by lia. unfold wrap in Hal.
  assert (off + 4 <= 64) by (Z.div_mod_to_equations; lia).
  unfold load_abs. rewrite (proj2 (Z.leb_le _ _)) by lia. eexists. split; [done|].
  assert (Hlen : length (take 4 (drop (Z.to_nat off) d)) = 4%nat)
    by (rewrite length_take, length_drop; lia).
  pose proof (from_le_range (take 4 (drop (Z.to_nat off) d))) as Hr. rewrite Hlen in Hr.
  apply Hr. by apply Forall_take, Forall_drop.
Qed.

Lemma bitop_range (f : Z -> Z -> Z) (g : bool -> bool -> bool) w a b :
  (forall i, Z.testbit (f a b) i = g (Z.testbit a i) (Z.testbit b i)) -> g false false = false ->
  0 <= f a b -> 0 <= w -> in_width w a -> in_width w b -> in_width w (f a b).
Proof.
  intros Hf Hg H0 Hw Ha Hb. apply in_width_bits; [done|done|].
  intros i Hi. by rewrite Hf, (testbit_above w a), (testbit_above w b).
Qed.

Lemma alu_range op a src v :
  in_width 32 a -> in_width 32 src -> ((op =? BPF_DIV) || (op =? BPF_MOD)) && (src =? 0) = false ->
  alu op a src = Some v -> in_width 32 v.
Proof.
  intros Ha Hs Hz. unfold alu. destruct Ha as [Ha1 Ha2], Hs as [Hs1 Hs2].
  assert (Ha : in_width 32 a) by (split; done). assert (Hs : in_width 32 src) by (split; done).
  repeat (case_if H; [intros [= <-]|clear H]); try (apply wrap_range; lia); try done.
  - assert (src <> 0) by lia. split; [apply Z.div_pos; lia|].
    apply Z.le_lt_trans with a; [apply Z.div_le_upper_bound; nia|done].
  - assert (src <> 0) by lia. pose proof (Z.mod_pos_bound a src). split; lia.
  - apply (bitop_range _ orb); try done; [apply Z.lor_spec|apply Z.lor_nonneg; lia].
  - apply (bitop_range _ andb); try done; [apply Z.land_spec|apply Z.land_nonneg; lia].
  - apply (bitop_range _ xorb); try done; [apply Z.lxor_spec|apply Z.lxor_nonneg; lia].
  - rewrite Z.shiftr_div_pow2 by (apply Z.land_nonneg; lia).
    assert (0 < 2 ^ Z.land src 31) by (apply Z.pow_pos_nonneg; [lia|apply Z.land_nonneg; lia]).
    split; [apply Z.div_pos; lia|]. apply Z.le_lt_trans with a; [apply Z.div_le_upper_bound; nia|done].
Qed.

(** What an accepted instruction does at its position. *)
Definition good_step (NumInsts IP : Z) (r : step_result) : Prop :=
  match r with
  | Stop (Returned v) => in_width 32 v
  | Stop DivByZero => True
  | Stop _ => False
  | Next S' b' IP' => state_ok S' /\ buf_ok b' /\ IP <= IP' < 2 ^ 32 - 1 /\ IP' < NumInsts
  end.

(** A jump also lands inside the program; every other instruction that goes
    on leaves [IP] alone. *)
Definition advances (NumInsts IP : Z) (inst : sock_filter) (r : step_result) : Prop :=
  match r with
  | Stop _ => True
  | Next _ _ IP' => classify (code inst) <> RET /\ (IP' = IP \/ IP' + 1 < NumInsts)
  end.

Lemma store_ok (b : WorkingBuffer) n v :
  buf_ok b -> in_width 32 v -> buf_ok (mkBuf (Data b) (<[n := v]> (Scratch b))).
Proof.
  intros (H1 & H2 & H3 & H4) Hv. split_and!; [done..| |]; simpl.
  - by rewrite length_insert.
  - by apply Forall_insert.
Qed.

Lemma jump_target N IP d :
  0 <= IP < N -> N < 2 ^ 31 -> in_width 32 d -> u64 (IP + d + 1) < N ->
  u32 (IP + d) = IP + d /\ IP <= IP + d < 2 ^ 32 - 1 /\ IP + d < N /\ IP + d + 1 < N.
Proof.
  intros HIP HN Hd Ht. unfold in_width in Hd. unfold u64 in Ht. rewrite wrap_small in Ht by width.
  split_and!; try lia. apply wrap_small. width.
Qed.

Lemma in_width_le w v z : in_width v z -> v <= w -> in_width w z.
Proof.
  intros [H1 H2] Hle. destruct (decide (0 <= v)).
  - pose proof (Z.pow_le_mono_r 2 v w). split; lia.
  - rewrite Z.pow_neg_r in H2 by lia. lia.
Qed.

Lemma go_on N IP inst S b :
  0 <= IP < N -> N < 2 ^ 31 -> classify (code inst) <> RET -> state_ok S -> buf_ok b ->
  good_step N IP (Next S b IP) /\ advances N IP inst (Next S b IP).
Proof. intros. split; simpl; split_and?; try lia; done. Qed.

Lemma take_jump N IP inst S b d :
  0 <= IP < N -> N < 2 ^ 31 -> classify (code inst) <> RET -> state_ok S -> buf_ok b ->
  in_width 32 d -> u64 (IP + d + 1) < N ->
  good_step N IP (Next S b (u32 (IP + d))) /\ advances N IP inst (Next S b (u32 (IP + d))).
Proof.
  intros HIP HN Hc HS Hb Hd Ht. destruct (jump_target N IP d HIP HN Hd Ht) as (-> & ? & ? & ?).
  split; simpl; split_and?; try lia; done.
Qed.

Lemma step_load N IP inst S b (to_A : bool) :
  classify (code inst) = (if to_A then LD else LDX) ->
  0 <= IP < N -> N < 2 ^ 31 -> inst_ok inst -> valid_inst N IP inst = true ->
  state_ok S -> buf_ok b ->
  good_step N IP (step inst S b IP) /\ advances N IP inst (step inst S b IP).
Proof.
  intros Hc HIP HN (_ & _ & _ & Hk) Hv HS Hb.
  assert (Hnr : classify (code inst) <> RET) by (rewrite Hc; by destruct to_A).
  assert (Hld : forall v, in_width 32 v ->
    state_ok (match classify (code inst) with LD => mkState v (X S) | _ => mkState (A S) v end)).
  { intros v Hv'. destruct HS. rewrite Hc. by destruct to_A. }
  assert (Hb' := Hb). destruct Hb' as (Hd & Hdr & Hs & Hsr).
  unfold valid_inst in Hv. unfold step. rewrite Hc in Hv, Hld. rewrite Hc.
  destruct to_A.
  all: destruct (negb (BPF_SIZE _ =? _)); [done|].
  all: destruct (BPF_MODE _ =? BPF_IMM); [by apply go_on; auto|].
  all: destruct (BPF_MODE _ =? BPF_ABS);
    [destruct (load_abs_ok (Data b) (k inst)) as (v & -> & Hr);
       [done|done|apply Hk|lia|lia|by apply go_on; auto]|].
  all: destruct (BPF_MODE _ =? BPF_MEM);
    [destruct (lookup_lt_is_Some_2 (Scratch b) (Z.to_nat (k inst))) as [v Hlk];
       [destruct Hk; unfold BPF_MEMWORDS in *; lia|];
     rewrite Hlk; rewrite Forall_lookup in Hsr; specialize (Hsr _ _ Hlk);
     by apply go_on; auto|].
  all: destruct (BPF_MODE _ =? BPF_LEN); [|done].
  all: apply go_on; auto; apply Hld; unfold SECCOMP_DATA_SIZE; width.
Qed.

Lemma step_accepted N IP inst S b :
  0 <= IP < N -> N < 2 ^ 31 -> inst_ok inst -> valid_inst N IP inst = true ->
  state_ok S -> buf_ok b ->
  good_step N IP (step inst S b IP) /\ advances N IP inst (step inst S b IP).
Proof.
  intros HIP HN Hok Hv HS Hb. assert (Hi := Hok). destruct Hi as (_ & Hjt & Hjf & Hk).
  assert (HS' := HS). destruct HS' as [HA HX].
  assert (Hb' := Hb). destruct Hb' as (_ & _ & Hs & _).
  destruct (classify (code inst)) eqn:Hc;
    [by apply (step_load _ _ _ _ _ true)|by apply (step_load _ _ _ _ _ false)|..];
    unfold valid_inst in Hv; unfold step; rewrite Hc in Hv |- *; unfold BPF_MEMWORDS in *.
  - destruct (negb _); [done|]. destruct Hk. rewrite (proj2 (Z.ltb_lt _ _)) by lia.
    apply go_on; auto; [by rewrite Hc|by apply store_ok].
  - destruct (negb _); [done|]. destruct Hk. rewrite (proj2 (Z.ltb_lt _ _)) by lia.
    apply go_on; auto; [by rewrite Hc|by apply store_ok].
  - set (src := if BPF_SRC (code inst) =? BPF_X then X S else k inst).
    assert (Hsrc : in_width 32 src) by (unfold src; by case_if Hx).
    case_if Hz; [by split|]. destruct (alu _ _ _) as [v|] eqn:Ha.
    + apply go_on; auto; [by rewrite Hc|]. split; [|done]. by apply (alu_range _ _ _ _ HA Hsrc Hz).
    + exfalso. revert Ha. unfold alu. repeat (case_if H; [done|]).
      intros _. done.
  - assert (Hnr : classify (code inst) <> RET) by by rewrite Hc.
    destruct (BPF_OP _ =? BPF_JA).
    { destruct (negb _); [done|]. apply take_jump; auto. lia. }
    apply (in_width_le 32) in Hjt, Hjf; [|lia..].
    case_if_in Hv Hop; [|done].
    repeat (case_if H; [case_if H'; apply take_jump; auto; lia|]). done.
  - repeat (case_if H; [by split|]). done.
  - assert (Hnr : classify (code inst) <> RET) by by rewrite Hc.
    repeat (case_if H; [by apply go_on|]). done.
Qed.

Lemma valid_from_lookup N i prog n inst :
  valid_from N i prog = true -> prog !! n = Some inst -> valid_inst N (i + Z.of_nat n) inst = true.
Proof.
  revert i n. induction prog as [|x prog IH]; intros i n; simpl; [done|].
  case_if Hx; [|done]. intros Hv. destruct n as [|n]; simpl.
  - intros [= <-]. by rewrite Z.add_0_r.
  - intros Hl. rewrite <- (IH _ _ Hv Hl). f_equal. lia.
Qed.

Lemma validate_inv prog :
  ValidateProgram prog = 0 ->
  (forall n inst, prog !! n = Some inst ->
     valid_inst (Z.of_nat (length prog)) (Z.of_nat n) inst = true) /\
  classify (code (List.last prog (mkInst 0 0 0 0))) = RET.
Proof.
  unfold ValidateProgram. case_if Hv; [done|]. apply negb_false_iff in Hv. intros Hr. split.
  - intros n inst Hl. exact (valid_from_lookup _ 0 _ _ _ Hv Hl).
  - by destruct (classify _).
Qed.

Lemma last_lookup (prog : list sock_filter) n inst d :
  prog !! n = Some inst -> length prog = Datatypes.S n -> List.last prog d = inst.
Proof.
  revert n. induction prog as [|x prog IH]; intros n Hl Hlen; [done|].
  destruct n as [|n]; simpl in *.
  - destruct prog; [by injection Hl|done].
  - destruct prog; [done|]. apply (IH n); [done|]. simpl in *. lia.
Qed.

Lemma run_accepted prog fuel S b IP :
  Z.of_nat (length prog) < 2 ^ 31 -> Forall inst_ok prog -> ValidateProgram prog = 0 ->
  state_ok S -> buf_ok b -> 0 <= IP < Z.of_nat (length prog) ->
  Z.of_nat (length prog) - IP < Z.of_nat fuel ->
  exists e, run fuel prog S b IP = Some e /\
    (e = DivByZero \/ exists v, e = Returned v /\ in_width 32 v).
Proof.
  intros HN Hok Hval. destruct (validate_inv prog Hval) as [Hinst Hlast].
  revert S b IP. induction fuel as [|fuel IH]; intros S b IP HS Hb HIP Hf; [lia|].
  cbn [run]. rewrite (proj2 (Z.ltb_lt _ _)) by lia.
  destruct (lookup_lt_is_Some_2 prog (Z.to_nat IP)) as [inst Hl]; [lia|]. rewrite Hl.
  pose proof (Hinst _ _ Hl) as Hv. rewrite Z2Nat.id in Hv by lia.
  rewrite Forall_lookup in Hok. specialize (Hok _ _ Hl).
  destruct (step_accepted _ IP inst S b HIP HN Hok Hv HS Hb) as [Hg Ha].
  destruct (step inst S b IP) as [S' b' IP'|e]; simpl in Hg, Ha.
  - destruct Hg as (HS' & Hb' & Hle & Hlt). destruct Ha as [Hnr Hnext].
    assert (IP' + 1 < Z.of_nat (length prog)).
    { destruct Hnext as [->|]; [|lia]. destruct (decide (IP + 1 = Z.of_nat (length prog))) as [Heq|]; [|lia].
      exfalso. apply Hnr. rewrite <- Hlast. do 2 f_equal. symmetry. apply (last_lookup _ (Z.to_nat IP)); [done|lia]. }
    unfold u32. rewrite wrap_small by width. apply IH; auto; lia.
  - exists e. split; [done|]. destruct e; try done; [right; eauto|by left].
Qed.

(** C31. the validator is sound for the interpreter.  A non-empty program of
    at most [BPF_MAXINSNS] instructions that [ValidateProgram] accepts runs to
    completion within its length, whatever the syscall data and scratch
    contents: it ends in a [RET] with a 32-bit value or in a division by zero
    (which returns 0), never out of range, never in an unreachable arm and
    never past its end. *)
Theorem validated_program_safe prog b :
  prog <> [] -> Z.of_nat (length prog) <= 4096 -> Forall inst_ok prog ->
  ValidateProgram prog = 0 -> buf_ok b ->
  exists e, Execute prog b = Some e /\
    (e = DivByZero \/ exists v, e = Returned v /\ in_width 32 v).
Proof.
  intros Hne Hlen Hok Hv Hb.
  assert (0 < length prog)%nat by (destruct prog; [done|simpl; lia]).
  apply run_accepted; auto; try lia. split; unfold in_width; simpl; lia.
Qed.

(** ** The verdict depends only on the words the program loads *)

(** [inst] loads a word of the syscall data. *)
Definition loads_data (inst : sock_filter) : bool :=
  match classify (code inst) with
  | LD | LDX => BPF_MODE (code inst) =? BPF_ABS
  | _ => false
  end.

Definition agree_on_loads (prog : list sock_filter) (d1 d2 : list Z) : Prop :=
  Forall (fun inst => loads_data inst = true -> load_abs d1 (k inst) = load_abs d2 (k inst)) prog.

(** The same result on two buffers that differ in their data only. *)
Definition same_step (d1 d2 : list Z) (r1 r2 : step_result) : Prop :=
  match r1, r2 with
  | Stop e1, Stop e2 => e1 = e2
  | Next S1 b1 IP1, Next S2 b2 IP2 =>
      S1 = S2 /\ IP1 = IP2 /\ exists sc, b1 = mkBuf d1 sc /\ b2 = mkBuf d2 sc
  | _, _ => False
  end.

Lemma step_agree inst S d1 d2 sc IP :
  (loads_data inst = true -> load_abs d1 (k inst) = load_abs d2 (k inst)) ->
  same_step d1 d2 (step inst S (mkBuf d1 sc) IP) (step inst S (mkBuf d2 sc) IP).
Proof.
  unfold loads_data, step, same_step. intros Hl. cbn [Data Scratch].
  destruct (classify (code inst));
    try (destruct (BPF_MODE (code inst) =? BPF_ABS) eqn:Habs; [rewrite <- Hl by done|]);
    repeat match goal with
      | |- context [if ?b then _ else _] => destruct b
      | |- context [match ?o with Some _ => _ | None => _ end] => destruct o
      end; eauto 10.
Qed.

Lemma run_agree prog d1 d2 fuel S sc IP :
  agree_on_loads prog d1 d2 ->
  run fuel prog S (mkBuf d1 sc) IP = run fuel prog S (mkBuf d2 sc) IP.
Proof.
  intros Hag. revert S sc IP. induction fuel as [|fuel IH]; intros S sc IP; [done|]. cbn [run].
  case_if H; [|done]. destruct (prog !! Z.to_nat IP) as [inst|] eqn:Hl; [|done].
  unfold agree_on_loads in Hag. rewrite Forall_lookup in Hag.
  pose proof (step_agree inst S d1 d2 sc IP (Hag _ _ Hl)) as Hs. unfold same_step in Hs.
  destruct (step inst S (mkBuf d1 sc) IP), (step inst S (mkBuf d2 sc) IP); try done.
  - destruct Hs as (-> & -> & sc' & -> & ->). apply IH.
  - by rewrite Hs.
Qed.

Lemma execute_agree prog d1 d2 sc :
  agree_on_loads prog d1 d2 -> Execute prog (mkBuf d1 sc) = Execute prog (mkBuf d2 sc).
Proof. apply run_agree. Qed.

(** ** A concrete filter: kill syscall 29, allow the rest *)

Definition ex_prog : list sock_filter :=
  [ mkInst 32 0 0 0; mkInst 21 0 1 29; mkInst 6 0 0 0; mkInst 6 0 0 2147418112 ].
Definition ex_buf (nr : Z) : WorkingBuffer :=
  mkBuf (to_le 4 nr ++ repeat 0 60) (repeat 0 16).

Lemma validated_program_safe_witness :
  ValidateProgram ex_prog = 0 /\ Execute ex_prog (ex_buf 29) = Some (Returned 0) /\
  exists e, Execute ex_prog (ex_buf 30) = Some e /\
    (e = DivByZero \/ exists v, e = Returned v /\ in_width 32 v).
Proof.
  split; [reflexivity|]. split; [reflexivity|].
  apply (validated_program_safe ex_prog (ex_buf 30)).
  - done.
  - simpl; lia.
  - repeat (constructor; [repeat split; simpl; lia|]). constructor.
  - reflexivity.
  - split_and!; [reflexivity|by apply Forall_in_widthb|reflexivity|by apply Forall_in_widthb].
Defined.

End BPF.
