(* ===== verification/Seccomp.v ===== *)
(** Guest seccomp emulation
    (Source/Tools/LinuxEmulation/LinuxSyscalls/Seccomp/SeccompEmulator.cpp):
    evaluating a thread's filter chain on every syscall ([ExecuteFilter]),
    including the load analysis done at installation and the per-thread
    verdict cache that replays an ALLOW without running the interpreter.

    The guest PC of the syscall, [RestoreRIPFromHostPC], is an argument of
    [ExecuteFilter].  Installing, sharing and freeing filters is in
    SeccompSys. *)
From S2P Require Import Prelude BPF.
From stdpp Require Import gmap.
Open Scope Z_scope.

Module Seccomp.
Import BPF.

Definition SECCOMP_MODE_DISABLED : Z := 0.
Definition SECCOMP_MODE_FILTER : Z := 2.
Definition SECCOMP_RET_ACTION_FULL : Z := 0xffff0000.
Definition SECCOMP_RET_DATA : Z := 0xffff.
Definition SECCOMP_RET_KILL_PROCESS : Z := 0x80000000.
Definition SECCOMP_RET_KILL_THREAD : Z := 0.
Definition SECCOMP_RET_TRAP : Z := 0x00030000.
Definition SECCOMP_RET_ERRNO : Z := 0x00050000.
Definition SECCOMP_RET_USER_NOTIF : Z := 0x7fc00000.
Definition SECCOMP_RET_TRACE : Z := 0x7ff00000.
Definition SECCOMP_RET_LOG : Z := 0x7ffc0000.
Definition SECCOMP_RET_ALLOW : Z := 0x7fff0000.
Definition AUDIT_ARCH_AARCH64 : Z := 0xc00000b7.
Definition BPF_MAXINSNS : Z := 4096.
Definition BPF_MULTIFILTERPENALTY : Z := 4.
Definition BPF_MAX_INSNS_PER_PATH : Z := 32768.
Definition EFAULT : Z := 14.
Definition EACCES : Z := 13.
Definition ENOMEM : Z := 12.
Definition ESRCH : Z := 3.
Definition ENOSYS : Z := 38.

(** ** State *)

(** The reference count, the one field that changes after installation, is in
    SeccompSys. *)
Record SeccompFilterInfo := mkFilter {
  Program : list sock_filter; FilterInstructions : Z; ShouldLog : bool; ReadsIP : bool; ReadsArgs : bool }.

Inductive CacheMode := CMNone | CMNrOnly | CMNrRIP.
#[export] Instance CacheMode_eq_dec : EqDecision CacheMode.
Proof. solve_decision. Defined.

Definition MAX_CACHED_NR : Z := 512.
Definition RIP_WAYS : Z := 64.

(** [AllowedNrs]: eight 64-bit words; [RIPAllowed]: pairs (RIP, NrPlusOne). *)
Record SeccompVerdictCache := mkCache {
  Generation : Z; Mode : CacheMode; NeedsRIP : bool;
  AllowedNrs : list Z; RIPAllowed : list (Z * Z) }.

Definition empty_bits : list Z := repeat 0 8.
Definition empty_ways : list (Z * Z) := repeat (0, 0) 64.
Definition fresh_cache : SeccompVerdictCache := mkCache 0 CMNone false empty_bits empty_ways.

(** ** [AnalyzeFilterLoads] *)

(** The loop over the program, with its [ReadsIP]/[ReadsArgs] locals. *)
Fixpoint analyze (ip args : bool) (prog : list sock_filter) : bool * bool :=
  match prog with
  | [] => (ip, args)
  | inst :: rest =>
      match classify (code inst) with
      | LD | LDX =>
          let m := BPF_MODE (code inst) in
          if (m =? BPF_IMM) || (m =? BPF_MEM) || (m =? BPF_LEN) then analyze ip args rest
          else if negb (m =? BPF_ABS) then (true, true)
          else if k inst >=? 16 then analyze ip true rest
          else if k inst >=? 8 then analyze true args rest
          else analyze ip args rest
      | _ => analyze ip args rest
      end
  end.

Definition AnalyzeFilterLoads (prog : list sock_filter) : bool * bool := analyze false false prog.

(** ** Evaluating the chain *)

(** The bytes of [seccomp_data]. *)
Definition seccomp_data (Nr ip : Z) (args : list Z) : list Z :=
  to_le 4 Nr ++ to_le 4 AUDIT_ARCH_AARCH64 ++ to_le 8 ip ++ concat (map (to_le 8) args).

Definition filter_value (f : SeccompFilterInfo) (d : list Z) : Z :=
  match Execute (Program f) (mkBuf d (repeat 0 16)) with
  | Some e => default 0 (exit_value e)
  | None => 0
  end.

Definition action16 (r : Z) : Z := sgn 16 (Z.shiftr (Z.land r SECCOMP_RET_ACTION_FULL) 16).

(** The chain loop's state: no result yet, or the current result and flag. *)
Definition chain_step (d : list Z) (acc : option (Z * bool)) (f : SeccompFilterInfo)
  : option (Z * bool) :=
  let CurrentResult := filter_value f d in
  match acc with
  | None => Some (CurrentResult, ShouldLog f)
  | Some (SeccompResult, log) =>
      if action16 CurrentResult <? action16 SeccompResult then Some (CurrentResult, ShouldLog f)
      else Some (SeccompResult, log)
  end.

(** Latest added first. *)
Definition run_chain (fs : list SeccompFilterInfo) (d : list Z) : Z * bool :=
  default (0, false) (foldl (chain_step d) None (rev fs)).

(** What the guest observes of one evaluation. *)
Inductive effect := NoEffect | KillProcess (signal : Z) | KillThread | TrapSIGSYS (errno call_addr : Z).

Record FilterResult := mkResult {
  EarlyReturn : bool; Result : Z; Effect : effect; Logged : bool }.

Definition allow_result : FilterResult := mkResult false 0 NoEffect false.

Definition finish (CurrentKillSignal SeccompResult : Z) (log : bool) (rip : Z) : FilterResult :=
  let ActionMasked := Z.land SeccompResult SECCOMP_RET_ACTION_FULL in
  let DataMasked := Z.land SeccompResult SECCOMP_RET_DATA in
  let logged := (log && negb (ActionMasked =? SECCOMP_RET_ALLOW)) || (ActionMasked =? SECCOMP_RET_LOG) in
  if ActionMasked =? SECCOMP_RET_KILL_THREAD then mkResult false 0 KillThread logged
  else if ActionMasked =? SECCOMP_RET_TRAP then mkResult false 0 (TrapSIGSYS DataMasked rip) logged
  else if ActionMasked =? SECCOMP_RET_ERRNO then
    mkResult true (u64 (- Z.min DataMasked 4095)) NoEffect logged
  else if ActionMasked =? SECCOMP_RET_TRACE then mkResult true (u64 (- ENOSYS)) NoEffect logged
  else if (ActionMasked =? SECCOMP_RET_USER_NOTIF) || (ActionMasked =? SECCOMP_RET_LOG)
          || (ActionMasked =? SECCOMP_RET_ALLOW) then mkResult false 0 NoEffect logged
  else mkResult false 0 (KillProcess CurrentKillSignal) logged.

Definition way (rip Nr : Z) : nat :=
  Z.to_nat (Z.land (Z.lxor (Z.lxor rip (Z.shiftr rip 7)) Nr) (RIP_WAYS - 1)).

(** [ExecuteFilterSlow]: [rip] is the true guest PC, [HaveRIP] whether the
    caller computed it already. *)
Definition ExecuteFilterSlow (kill : Z) (fs : list SeccompFilterInfo) (c : SeccompVerdictCache)
  (Nr : Z) (args : list Z) (rip : Z) (HaveRIP : bool) : FilterResult * SeccompVerdictCache :=
  let RIP := if HaveRIP || NeedsRIP c then rip else 0 in
  let '(SeccompResult, log) := run_chain fs (seccomp_data Nr RIP args) in
  let c' :=
    if Z.land SeccompResult SECCOMP_RET_ACTION_FULL =? SECCOMP_RET_ALLOW then
      match Mode c with
      | CMNrOnly =>
          if Nr <? MAX_CACHED_NR then
            let w := Z.to_nat (Nr / 64) in
            mkCache (Generation c) (Mode c) (NeedsRIP c)
              (<[w := Z.lor (nth w (AllowedNrs c) 0) (Z.shiftl 1 (Nr mod 64))]> (AllowedNrs c))
              (RIPAllowed c)
          else c
      | CMNrRIP =>
          mkCache (Generation c) (Mode c) (NeedsRIP c) (AllowedNrs c)
            (<[way RIP Nr := (RIP, u64 (Nr + 1))]> (RIPAllowed c))
      | CMNone => c
      end
    else c in
  (finish kill SeccompResult log rip, c').

(** Rebuilding a stale cache for the thread's filters. *)
Definition rebuild_cache (fs : list SeccompFilterInfo) (gen : Z) : SeccompVerdictCache :=
  let AnyArgs := existsb ReadsArgs fs in
  let AnyIP := existsb ReadsIP fs in
  mkCache gen (if AnyArgs then CMNone else if AnyIP then CMNrRIP else CMNrOnly) AnyIP
    empty_bits empty_ways.

Definition ExecuteFilter (kill gen : Z) (fs : list SeccompFilterInfo) (c : SeccompVerdictCache)
  (Nr : Z) (args : list Z) (rip : Z) : FilterResult * SeccompVerdictCache :=
  match fs with
  | [] => (allow_result, c)
  | _ =>
      let c := if Generation c =? gen then c else rebuild_cache fs gen in
      match Mode c with
      | CMNrOnly =>
          if (Nr <? MAX_CACHED_NR) && Z.testbit (nth (Z.to_nat (Nr / 64)) (AllowedNrs c) 0) (Nr mod 64)
          then (allow_result, c)
          else ExecuteFilterSlow kill fs c Nr args rip false
      | CMNrRIP =>
          let '(ERIP, ENr) := nth (way rip Nr) (RIPAllowed c) (0, 0) in
          if (ERIP =? rip) && (ENr =? u64 (Nr + 1)) then (allow_result, c)
          else ExecuteFilterSlow kill fs c Nr args rip true
      | CMNone => ExecuteFilterSlow kill fs c Nr args rip false
      end
  end.

(** ** The reference: evaluate the chain on the true data, no cache *)

Definition reference (kill : Z) (fs : list SeccompFilterInfo) (Nr : Z) (args : list Z) (rip : Z) : FilterResult :=
  match fs with
  | [] => allow_result
  | _ => let '(r, log) := run_chain fs (seccomp_data Nr rip args) in finish kill r log rip
  end.

(** A filter as [SetModeFilter] stores it. *)
Definition filter_ok (f : SeccompFilterInfo) : Prop :=
  ValidateProgram (Program f) = 0 /\ Forall inst_ok (Program f) /\
  (ReadsIP f, ReadsArgs f) = AnalyzeFilterLoads (Program f).

(** ** Soundness of the load analysis *)

Lemma analyze_mono ip args prog :
  (ip = true -> (analyze ip args prog).1 = true) /\ (args = true -> (analyze ip args prog).2 = true).
Proof.
  revert ip args. induction prog as [|x prog IH]; intros ip args; simpl; [done|].
  repeat case_match; auto; simpl; try (destruct (IH ip args); tauto);
    try (destruct (IH true args); tauto); destruct (IH ip true); tauto.
Qed.

Lemma analyze_spec ip args prog :
  Forall (fun inst => loads_data inst = true ->
    (16 <= k inst -> (analyze ip args prog).2 = true) /\
    (8 <= k inst < 16 -> (analyze ip args prog).1 = true)) prog.
Proof.
  revert ip args. induction prog as [|x prog IH]; intros ip args; constructor.
  - unfold loads_data. simpl. intros Hl.
    assert (Habs : BPF_MODE (code x) = BPF_ABS)
      by (destruct (classify (code x)); try done; by apply Z.eqb_eq).
    rewrite Habs. simpl.
    destruct (classify (code x)); try done;
      (split; intros Hk; repeat case_if H; try lia; apply analyze_mono; done).
  - apply Forall_forall. intros inst Hin Hl. simpl.
    assert (Hany : forall ip args, (16 <= k inst -> (analyze ip args prog).2 = true) /\
                                   (8 <= k inst < 16 -> (analyze ip args prog).1 = true)).
    { intros ip' args'. specialize (IH ip' args'). rewrite Forall_forall in IH. by apply IH. }
    repeat case_match; auto.
Qed.

(** Reading below the common prefix of two buffers. *)
Lemma load_abs_prefix p r1 r2 off :
  0 <= off -> off + 4 <= Z.of_nat (length p) -> load_abs (p ++ r1) off = load_abs (p ++ r2) off.
Proof.
  intros H0 Hle. unfold load_abs. rewrite !length_app.
  rewrite !(proj2 (Z.leb_le _ _)) by lia.
  rewrite !drop_app_le by lia. rewrite !take_app_le by (rewrite length_drop; lia). done.
Qed.

Lemma aligned_abs prog inst :
  ValidateProgram prog = 0 -> inst ∈ prog -> loads_data inst = true -> Z.land (k inst) 3 = 0.
Proof.
  intros Hv Hin Hl. destruct (validate_inv prog Hv) as [Hall _].
  apply list_elem_of_lookup in Hin as [n Hn]. specialize (Hall _ _ Hn).
  unfold valid_inst in Hall. unfold loads_data in Hl.
  assert (Habs : BPF_MODE (code inst) = BPF_ABS)
    by (destruct (classify (code inst)); try done; by apply Z.eqb_eq).
  rewrite Habs in Hall. simpl in Hall.
  destruct (classify (code inst)); try done; (case_if_in Hall Hs; [done|lia]).
Qed.

(** Reading above prefixes of equal length. *)
Lemma load_abs_suffix p1 p2 r off :
  length p1 = length p2 -> Z.of_nat (length p1) <= off ->
  load_abs (p1 ++ r) off = load_abs (p2 ++ r) off.
Proof.
  intros Hl Hle. unfold load_abs. rewrite !length_app, Hl. case_if H; [|done].
  by rewrite !drop_app_ge, Hl by lia.
Qed.

(** A filter gives the same value on data that agree on what it reads. *)
Lemma filter_value_agree f Nr ip1 ip2 a1 a2 :
  filter_ok f -> (ReadsArgs f = true -> a1 = a2) -> (ReadsIP f = true -> ip1 = ip2) ->
  filter_value f (seccomp_data Nr ip1 a1) = filter_value f (seccomp_data Nr ip2 a2).
Proof.
  intros (Hv & Hok & Hflags) Ha Hip. unfold filter_value.
  rewrite (execute_agree _ (seccomp_data Nr ip1 a1) (seccomp_data Nr ip2 a2)); [done|].
  unfold agree_on_loads. apply Forall_forall. intros inst Hin Hl.
  pose proof (analyze_spec false false (Program f)) as Hsp. rewrite Forall_forall in Hsp.
  specialize (Hsp inst Hin Hl). unfold AnalyzeFilterLoads in Hflags. rewrite <- Hflags in Hsp.
  simpl in Hsp. destruct Hsp as [H16 H8].
  pose proof (aligned_abs _ _ Hv Hin Hl) as Hal. change 3 with (Z.ones 2) in Hal.
  rewrite land_wrap in Hal by lia. unfold wrap in Hal. change (2 ^ 2) with 4 in Hal.
  rewrite Forall_forall in Hok. destruct (Hok inst Hin) as (_ & _ & _ & Hk & _).
  unfold seccomp_data. rewrite !(app_assoc (to_le 4 Nr)).
  destruct (decide (16 <= k inst)); [|destruct (decide (8 <= k inst))].
  - rewrite Ha by (by apply H16). rewrite !(app_assoc (_ ++ _) (to_le 8 _)).
    apply load_abs_suffix; rewrite !length_app, !length_to_le; lia.
  - rewrite Hip by (apply H8; lia). rewrite !(app_assoc (_ ++ _) (to_le 8 _)).
    apply load_abs_prefix; [done|]. rewrite !length_app, !length_to_le. Z.div_mod_to_equations. lia.
  - apply load_abs_prefix; [done|]. rewrite !length_app, !length_to_le. Z.div_mod_to_equations. lia.
Qed.

Lemma run_chain_agree fs d1 d2 :
  Forall (fun f => filter_value f d1 = filter_value f d2) fs -> run_chain fs d1 = run_chain fs d2.
Proof.
  intros H. unfold run_chain. f_equal. apply Forall_rev in H. revert H. generalize (@None (Z * bool)).
  generalize (rev fs). intros l. induction l as [|f l IH]; intros acc Hl; simpl; [done|].
  apply Forall_cons in Hl as [Hf Hl]. rewrite (IH _ Hl). f_equal. unfold chain_step. by rewrite Hf.
Qed.

(** The chain is a function of what its filters read. *)
Lemma chain_agree fs Nr ip1 ip2 a1 a2 :
  Forall filter_ok fs -> (existsb ReadsArgs fs = true -> a1 = a2) ->
  (existsb ReadsIP fs = true -> ip1 = ip2) ->
  run_chain fs (seccomp_data Nr ip1 a1) = run_chain fs (seccomp_data Nr ip2 a2).
Proof.
  intros Hok Ha Hip. apply run_chain_agree, Forall_forall. intros f Hf.
  rewrite Forall_forall in Hok. rewrite !existsb_exists in Ha, Hip.
  apply list_elem_of_In in Hf as Hf'.
  apply filter_value_agree; [by apply Hok| |]; intros Hr; [apply Ha|apply Hip]; eauto.
Qed.

Lemma finish_allow kill r log rip :
  Z.land r SECCOMP_RET_ACTION_FULL = SECCOMP_RET_ALLOW -> finish kill r log rip = allow_result.
Proof. intros H. unfold finish. rewrite H. simpl. by rewrite andb_false_r. Qed.

(** ** The cache invariant *)

Definition in_syscall (Nr rip : Z) (args : list Z) : Prop :=
  in_width 64 Nr /\ in_width 64 rip /\ length args = 6%nat.

Record cache_ok (fs : list SeccompFilterInfo) (c : SeccompVerdictCache) : Prop := {
  co_mode : Mode c = Mode (rebuild_cache fs 0);
  co_needs : NeedsRIP c = existsb ReadsIP fs;
  co_bits : length (AllowedNrs c) = 8%nat;
  co_ways : length (RIPAllowed c) = 64%nat;
  co_nr : Mode c = CMNrOnly -> forall kill Nr rip args, 0 <= Nr < 512 ->
    Z.testbit (nth (Z.to_nat (Nr / 64)) (AllowedNrs c) 0) (Nr mod 64) = true ->
    reference kill fs Nr args rip = allow_result;
  co_rip : Mode c = CMNrRIP -> forall n r np, RIPAllowed c !! n = Some (r, np) ->
    (r, np) = (0, 0) \/ forall kill Nr args, in_width 64 Nr -> u64 (Nr + 1) = np ->
    reference kill fs Nr args r = allow_result;
}.

Lemma rebuild_ok fs gen : cache_ok fs (rebuild_cache fs gen).
Proof.
  split; try done.
  - intros _ kill Nr rip args HNr. cbn [AllowedNrs rebuild_cache].
    assert (nth (Z.to_nat (Nr / 64)) empty_bits 0 = 0) as ->.
    { unfold empty_bits. destruct (nth_in_or_default (Z.to_nat (Nr / 64)) (repeat 0 8) 0) as [H|H]; [|done].
      by apply repeat_spec in H. }
    by rewrite Z.bits_0.
  - intros _ n r np Hl. left. unfold rebuild_cache, empty_ways in Hl. simpl in Hl.
    apply list_elem_of_lookup_2, list_elem_of_In, (repeat_spec 64 (0, 0)) in Hl. done.
Qed.

Lemma u64_succ_inj a b : in_width 64 a -> in_width 64 b -> u64 (a + 1) = u64 (b + 1) -> a = b.
Proof.
  unfold in_width, u64, wrap. intros Ha Hb Heq.
  rewrite <- (Z.mod_small a (2 ^ 64)), <- (Z.mod_small b (2 ^ 64)) by lia.
  replace a with (a + 1 - 1) by lia. replace b with (b + 1 - 1) by lia.
  rewrite (Zminus_mod (a + 1)), (Zminus_mod (b + 1)), Heq. done.
Qed.

(** The verdict the slow path caches is the reference verdict for every
    syscall that will hit the entry. *)
Lemma slow_allow fs c Nr args rip have r log :
  fs <> [] -> Forall filter_ok fs -> cache_ok fs c ->
  run_chain fs (seccomp_data Nr (if have || NeedsRIP c then rip else 0) args) = (r, log) ->
  (forall kill, reference kill fs Nr args rip = finish kill r log rip) /\
  (Z.land r SECCOMP_RET_ACTION_FULL = SECCOMP_RET_ALLOW ->
   (Mode c = CMNrOnly -> forall kill rip' args', reference kill fs Nr args' rip' = allow_result) /\
   (Mode c = CMNrRIP -> forall kill args', reference kill fs Nr args' rip = allow_result)).
Proof.
  intros Hne Hok [Hmode Hneeds _ _ _ _] Hrun. rewrite Hneeds in Hrun. rewrite Hmode. simpl.
  assert (Href : forall kill ip' args', reference kill fs Nr args' ip' =
            let '(r, log) := run_chain fs (seccomp_data Nr ip' args') in finish kill r log ip')
    by (intros; by destruct fs).
  split; [|intros Hallow; split].
  - intros kill. rewrite Href. erewrite chain_agree; [by rewrite Hrun|done|done|].
    intros Hip. by rewrite Hip, orb_true_r.
  - destruct (existsb ReadsArgs fs) eqn:Ha; [done|]. destruct (existsb ReadsIP fs) eqn:Hip; [done|].
    intros _ kill rip' args'. rewrite Href. erewrite chain_agree; [rewrite Hrun|done|by rewrite Ha|by rewrite Hip].
    by apply finish_allow.
  - destruct (existsb ReadsArgs fs) eqn:Ha; [done|]. destruct (existsb ReadsIP fs) eqn:Hip; [|done].
    intros _ kill args'. rewrite orb_true_r in Hrun. rewrite Href.
    erewrite chain_agree; [rewrite Hrun|done|by rewrite Ha|done]. by apply finish_allow.
Qed.

Lemma testbit_set_other a i j : 0 <= i -> i <> j -> Z.testbit (Z.lor a (Z.shiftl 1 i)) j = Z.testbit a j.
Proof.
  intros Hi Hne. rewrite Z.lor_spec. destruct (decide (j < 0)); [rewrite !Z.testbit_neg_r by lia; done|].
  rewrite Z.shiftl_spec by lia.
  assert (Z.testbit 1 (j - i) = false) as ->; [|apply orb_false_r].
  destruct (decide (j < i)); [by rewrite Z.testbit_neg_r by lia|].
  change 1 with (2 ^ 0). apply Z.pow2_bits_false. lia.
Qed.

(** Marking an allowed number keeps the bitmap sound. *)
Lemma mark_nr_ok fs c Nr :
  cache_ok fs c -> 0 <= Nr < 512 -> Mode c = CMNrOnly ->
  (forall kill rip' args', reference kill fs Nr args' rip' = allow_result) ->
  cache_ok fs (mkCache (Generation c) (Mode c) (NeedsRIP c)
    (<[Z.to_nat (Nr / 64) := Z.lor (nth (Z.to_nat (Nr / 64)) (AllowedNrs c) 0) (Z.shiftl 1 (Nr mod 64))]>
       (AllowedNrs c)) (RIPAllowed c)).
Proof.
  intros [H1 H2 H3 H4 H5 H6] HNr Hm Hall. split; cbn; try done; [by rewrite length_insert|].
  intros _ kill Nr' rip args HNr' Hbit.
  destruct (decide (Nr' = Nr)) as [->|Hne]; [apply Hall|].
  apply H5; [done|done|]. rewrite <- Hbit. symmetry.
  pose proof (Z.mod_pos_bound Nr 64). pose proof (Z.mod_pos_bound Nr' 64).
  assert (0 <= Nr / 64 < 8) by (Z.div_mod_to_equations; lia).
  assert (0 <= Nr' / 64 < 8) by (Z.div_mod_to_equations; lia).
  destruct (decide (Nr' / 64 = Nr / 64)) as [Heq|Hneq].
  - rewrite Heq. rewrite (nth_lookup (<[_:=_]> _)), list_lookup_insert_eq by lia. cbn [default].
    apply testbit_set_other; [lia|]. Z.div_mod_to_equations. lia.
  - rewrite (nth_lookup (<[_:=_]> _)), list_lookup_insert_ne by lia. by rewrite <- nth_lookup.
Qed.

(** Recording an allowed (RIP, number) pair keeps the ways sound. *)
Lemma mark_rip_ok fs c Nr rip w :
  cache_ok fs c -> in_width 64 Nr ->
  (forall kill args', reference kill fs Nr args' rip = allow_result) ->
  cache_ok fs (mkCache (Generation c) (Mode c) (NeedsRIP c) (AllowedNrs c)
    (<[w := (rip, u64 (Nr + 1))]> (RIPAllowed c))).
Proof.
  intros [H1 H2 H3 H4 H5 H6] HNr Hall. split; cbn; try done; [by rewrite length_insert|].
  intros Hm n r np Hl. apply list_lookup_insert_Some in Hl as [(-> & [= <- <-] & _)|[_ Hl]].
  - right. intros kill Nr' args HNr' Heq. apply u64_succ_inj in Heq as ->; auto.
  - by apply (H6 Hm n).
Qed.

Lemma slow_ok kill fs c Nr args rip have :
  fs <> [] -> Forall filter_ok fs -> cache_ok fs c -> in_syscall Nr rip args ->
  let '(res, c') := ExecuteFilterSlow kill fs c Nr args rip have in
  res = reference kill fs Nr args rip /\ cache_ok fs c' /\ Generation c' = Generation c.
Proof.
  intros Hne Hok Hc (HNr & Hrip & Hargs). unfold ExecuteFilterSlow.
  destruct (run_chain fs _) as [r log] eqn:Hrun.
  destruct (slow_allow fs c Nr args rip have r log Hne Hok Hc Hrun) as [Href Hallow].
  split; [by rewrite Href|]. case_if Hact; [|done].
  apply Z.eqb_eq in Hact. destruct (Hallow Hact) as [HN HR].
  destruct (Mode c) eqn:Hm; rewrite <- ?Hm; [done| |].
  - case_if Hlt; [|done]. split; [|done].
    apply mark_nr_ok; [done| |done|by apply HN]. unfold in_width, MAX_CACHED_NR in *. lia.
  - split; [|done]. assert ((if have || NeedsRIP c then rip else 0) = rip) as ->.
    { pose proof (co_mode _ _ Hc) as Hmode. rewrite Hm, (co_needs _ _ Hc) in *. cbn in Hmode.
      destruct (existsb ReadsArgs fs); [done|]. destruct (existsb ReadsIP fs); [|done].
      by rewrite orb_true_r. }
    apply mark_rip_ok; [done|done|by apply HR].
Qed.

(** The one key whose probe an empty way answers. *)
Definition empty_way_key (rip Nr : Z) : Prop := rip = 0 /\ Nr = 2 ^ 64 - 1.

Lemma execute_ok kill gen fs c Nr args rip :
  Forall filter_ok fs -> (fs <> [] -> Generation c = gen -> cache_ok fs c) ->
  in_syscall Nr rip args -> ~ empty_way_key rip Nr ->
  let '(res, c') := ExecuteFilter kill gen fs c Nr args rip in
  res = reference kill fs Nr args rip /\
  (fs <> [] -> Generation c' = gen /\ cache_ok fs c') /\ (fs = [] -> c' = c).
Proof.
  intros Hok Hc Hsys Hkey. unfold ExecuteFilter.
  destruct fs as [|f fs']; [done|]. assert (Hne : f :: fs' <> []) by done.
  revert Hok Hc Hne. generalize (f :: fs'). intros fs Hok Hc Hne.
  assert (Hc' : exists c0, c0 = (if Generation c =? gen then c else rebuild_cache fs gen) /\
                Generation c0 = gen /\ cache_ok fs c0).
  { eexists. split; [done|]. case_if Hg; [apply Z.eqb_eq in Hg; auto|]. split; [done|apply rebuild_ok]. }
  destruct Hc' as (c0 & <- & Hg & Hc0). clear Hc.
  assert (Hslow : forall have, let '(res, c') := ExecuteFilterSlow kill fs c0 Nr args rip have in
    res = reference kill fs Nr args rip /\ (fs <> [] -> Generation c' = gen /\ cache_ok fs c') /\
    (fs = [] -> c' = c)).
  { intros have. pose proof (slow_ok kill fs c0 Nr args rip have Hne Hok Hc0 Hsys) as Hs.
    destruct (ExecuteFilterSlow _ _ _ _ _ _ _) as [res c']. destruct Hs as (-> & Hc' & ->). done. }
  destruct (Mode c0) eqn:Hm; [apply Hslow| |].
  - case_if Hhit; [|apply Hslow]. apply andb_true_iff in Hhit as [Hlt Hbit].
    destruct Hsys as ([HN ?] & _). split; [|done]. symmetry. apply (co_nr _ _ Hc0 Hm); [|done].
    unfold MAX_CACHED_NR in Hlt. lia.
  - destruct (nth _ _ _) as [ERIP ENr] eqn:Hent. case_if Hhit; [|apply Hslow].
    apply andb_true_iff in Hhit as [->%Z.eqb_eq ->%Z.eqb_eq]. split; [|done]. symmetry.
    assert (Hl : exists n, RIPAllowed c0 !! n = Some (rip, u64 (Nr + 1))).
    { exists (way rip Nr). destruct (nth_lookup_or_length (RIPAllowed c0) (way rip Nr) (0, 0)) as [->|Hge]; [by rewrite Hent|].
      exfalso. revert Hge. rewrite (co_ways _ _ Hc0).
      unfold way, RIP_WAYS. change (64 - 1) with (Z.ones 6). rewrite land_wrap by lia.
      pose proof (wrap_range 6 (Z.lxor (Z.lxor rip (Z.shiftr rip 7)) Nr)). unfold in_width in *. lia. }
    destruct Hl as [n Hl]. destruct Hsys as (HN & Hr & _).
    destruct (co_rip _ _ Hc0 Hm n _ _ Hl) as [[= -> Hz]|Hh]; [|by apply Hh].
    exfalso. apply Hkey. split; [done|]. apply (u64_succ_inj Nr (2 ^ 64 - 1)); [done|unfold in_width; lia|].
    by rewrite Hz.
Qed.

(** ** Precedence of the chain *)

Lemma chain_fold d l r log :
  exists r' log', foldl (chain_step d) (Some (r, log)) l = Some (r', log') /\
  action16 r' <= action16 r /\ Forall (fun f => action16 r' <= action16 (filter_value f d)) l /\
  ((r', log') = (r, log) \/
   exists l1 f l2, l = l1 ++ f :: l2 /\ (r', log') = (filter_value f d, ShouldLog f) /\
     action16 r' < action16 r /\ Forall (fun g => action16 r' < action16 (filter_value g d)) l1).
Proof.
  revert r log. induction l as [|f l IH]; intros r log; [exists r, log; split_and!; [done|lia|constructor|by left]|].
  cbn [foldl]. unfold chain_step at 2. destruct (Z.ltb_spec (action16 (filter_value f d)) (action16 r)) as [Hlt|Hge].
  - destruct (IH (filter_value f d) (ShouldLog f)) as (r' & log' & Hf & Hle & Hall & Hcase).
    exists r', log'. split; [done|]. split; [lia|]. split; [by constructor|]. right.
    destruct Hcase as [[= -> ->]|(l1 & g & l2 & -> & Hv & Hlt' & Hb)].
    + by exists [], f, l.
    + exists (f :: l1), g, l2. split; [done|]. split; [done|]. split; [lia|]. by constructor.
  - destruct (IH r log) as (r' & log' & Hf & Hle & Hall & Hcase).
    exists r', log'. split; [done|]. split; [lia|]. split; [constructor; [lia|done]|].
    destruct Hcase as [Heq|(l1 & g & l2 & -> & Hv & Hlt' & Hb)]; [by left|right].
    exists (f :: l1), g, l2. split; [done|]. split; [done|]. split; [lia|]. constructor; [lia|done].
Qed.

(** C33. The verdict cache is invisible, for every key but one.  Whatever the
    thread's cache holds, as long as it is sound for the current filter set when
    its generation is current, evaluating a syscall gives exactly the verdict of
    running every filter on the true [seccomp_data], and leaves a cache that is
    again sound and current.  The key excluded is RIP 0 with number 2^64 - 1: an
    empty way answers it without running a filter ([empty_way_allows]).  The
    evaluation is one atomic operation. *)
Theorem verdict_cache_transparent kill gen fs c Nr args rip :
  Forall filter_ok fs -> (fs <> [] -> Generation c = gen -> cache_ok fs c) ->
  in_syscall Nr rip args -> ~ empty_way_key rip Nr ->
  (ExecuteFilter kill gen fs c Nr args rip).1 = reference kill fs Nr args rip /\
  (fs <> [] -> Generation (ExecuteFilter kill gen fs c Nr args rip).2 = gen /\
               cache_ok fs (ExecuteFilter kill gen fs c Nr args rip).2).
Proof.
  intros Hok Hc Hs Hk. pose proof (execute_ok kill gen fs c Nr args rip Hok Hc Hs Hk) as H.
  destruct (ExecuteFilter _ _ _ _ _ _ _) as [res c']. destruct H as (? & ? & _). done.
Qed.

(** The excluded key: with a set of filters that read the instruction pointer
    and no argument, whatever they return, the first syscall with RIP 0 and
    number 2^64 - 1 after a change of the set is allowed. *)
Theorem empty_way_allows kill gen fs c args :
  existsb ReadsArgs fs = false -> existsb ReadsIP fs = true -> Generation c <> gen ->
  (ExecuteFilter kill gen fs c (2 ^ 64 - 1) args 0).1 = allow_result.
Proof.
  intros HA HI HG. destruct fs as [|f fs]; [done|]. unfold ExecuteFilter. rewrite (proj2 (Z.eqb_neq _ _) HG).
  unfold rebuild_cache. rewrite HA, HI. cbn [Mode RIPAllowed]. unfold empty_ways. rewrite nth_repeat. done.
Qed.

(** The chain's verdict is that of a filter with the least action (KILL_PROCESS
    below KILL_THREAD below TRAP ... below ALLOW, as signed 16-bit values), and
    among those of the filter installed last. *)
Theorem chain_precedence fs d :
  fs <> [] ->
  exists older f newer, fs = older ++ f :: newer /\
    run_chain fs d = (filter_value f d, ShouldLog f) /\
    Forall (fun g => action16 (filter_value f d) <= action16 (filter_value g d)) older /\
    Forall (fun g => action16 (filter_value f d) < action16 (filter_value g d)) newer.
Proof.
  intros Hne. destruct (rev fs) as [|g l] eqn:Hrev; [by rewrite <- (rev_involutive fs), Hrev in Hne|].
  unfold run_chain. rewrite Hrev. cbn [foldl]. change (chain_step d None g) with (Some (filter_value g d, ShouldLog g)).
  destruct (chain_fold d l (filter_value g d) (ShouldLog g)) as (r & log & -> & Hle & Hall & Hcase).
  assert (Hfs : fs = rev l ++ [g]) by (rewrite <- (rev_involutive fs), Hrev; done).
  destruct Hcase as [[= -> ->]|(l1 & f & l2 & -> & [= -> ->] & Hlt & Hb)].
  - exists (rev l), g, []. split_and!; [done|done|by apply Forall_rev|constructor].
  - apply Forall_app in Hall as [_ Hall]. apply Forall_cons in Hall as [_ Hall].
    exists (rev l2), f, (rev l1 ++ [g]). split_and!.
    + rewrite Hfs, rev_app_distr. cbn [rev]. by rewrite <- !app_assoc.
    + done.
    + by apply Forall_rev.
    + apply Forall_app. split; [by apply Forall_rev|by constructor].
Qed.

(** A filter that kills one syscall when it is made from below an address, and
    allows everything else: it reads the number and the instruction pointer. *)
Definition sample_filter : SeccompFilterInfo :=
  mkFilter [mkInst 0x20 0 0 8; mkInst 0x35 0 1 0x400000; mkInst 0x06 0 0 SECCOMP_RET_ALLOW;
            mkInst 0x06 0 0 SECCOMP_RET_KILL_THREAD] 4 false true false.

Lemma sample_filter_ok : filter_ok sample_filter.
Proof.
  split; [by vm_compute|]. split; [|by vm_compute].
  repeat (apply Forall_cons; split; [unfold inst_ok, in_width, SECCOMP_RET_ALLOW, SECCOMP_RET_KILL_THREAD; simpl; lia|]).
  by apply Forall_nil.
Qed.

Lemma verdict_cache_transparent_witness :
  (ExecuteFilter 31 7 [sample_filter] fresh_cache 63 [0;0;0;0;0;0] 0x401000).1 = allow_result /\
  (ExecuteFilter 31 7 [sample_filter] fresh_cache 63 [0;0;0;0;0;0] 0x1000).1 =
    mkResult false 0 KillThread false.
Proof.
  assert (Hok : Forall filter_ok [sample_filter]) by (constructor; [apply sample_filter_ok|constructor]).
  split; (etransitivity; [apply (verdict_cache_transparent 31 7 [sample_filter] fresh_cache);
    [exact Hok|intros _ [=]|unfold in_syscall, in_width; simpl; lia|unfold empty_way_key; lia]
    |by vm_compute]).
Defined.

End Seccomp.
