(* ===== verification/SeccompSys.v ===== *)
(** The filter registry of the seccomp emulation
    (Source/Tools/LinuxEmulation/LinuxSyscalls/Seccomp/SeccompEmulator.cpp):
    installing filters ([SetModeFilter], [SetModeStrict], thread
    synchronisation), sharing them with child threads, reference-counted
    freeing, and carrying them across execve ([SerializeFilters],
    [DeserializeFilters]).

    A [SeccompFilterInfo*] is a key of [Store]; an operation that would follow
    a pointer to an erased entry has no result ([None]).  Error numbers are
    returned as negative integers.  Reference counts are unbounded: a count
    wraps only after 2^64 pointer copies. *)
From S2P Require Import Prelude BPF Seccomp.
From stdpp Require Import gmap.
Open Scope Z_scope.

Module SeccompSys.
Import BPF Seccomp.

(** ** State *)

Definition SECCOMP_MODE_STRICT : Z := 1.
Definition SIGKILL : Z := 9.
Definition SIGSYS : Z := 31.
Definition FLAG_TSYNC : Z := 1.
Definition FLAG_LOG : Z := 2.
Definition FLAG_SPEC_ALLOW : Z := 4.
Definition FLAG_NEW_LISTENER : Z := 8.
Definition FLAG_TSYNC_ESRCH : Z := 16.

(** An entry of the emulator's filter list. *)
Record entry := mkEntry { Info : SeccompFilterInfo; RefCount : Z }.

(** [Listed]: the thread is in the thread manager's list. *)
Record Thread := mkThread {
  TID : Z; Listed : bool; SeccompMode : Z; Filters : list nat; SeccompCache : SeccompVerdictCache }.

Record Sys := mkSys {
  Store : gmap nat entry; NextFilter : nat; Threads : list Thread;
  FilterGeneration : Z; TotalFilterInstructions : Z; CurrentKillSignal : Z }.

Definition set_threads (s : Sys) (st : gmap nat entry) (ts : list Thread) : Sys :=
  mkSys st (NextFilter s) ts (FilterGeneration s) (TotalFilterInstructions s) (CurrentKillSignal s).

Definition new_thread (tid : Z) : Thread :=
  mkThread tid false SECCOMP_MODE_DISABLED [] fresh_cache.

(** The process at start: one thread. *)
Definition init (tid : Z) : Sys :=
  mkSys ∅ 0 [mkThread tid true SECCOMP_MODE_DISABLED [] fresh_cache] 1 0 SIGSYS.

(** The filters a thread points to; [None] if one of them is gone. *)
Definition deref (st : gmap nat entry) (ids : list nat) : option (list SeccompFilterInfo) :=
  mapM (fun i => Info <$> st !! i) ids.

(** ** Reference counts *)

(** [RefCount++] through each pointer. *)
Fixpoint incref (st : gmap nat entry) (ids : list nat) : option (gmap nat entry) :=
  match ids with
  | [] => Some st
  | i :: ids =>
      match st !! i with
      | None => None
      | Some e => incref (<[i := mkEntry (Info e) (RefCount e + 1)]> st) ids
      end
  end.

(** [fetch_sub(1)] through each pointer; the flag is [HasFiltersToDelete]. *)
Fixpoint decref (st : gmap nat entry) (del : bool) (ids : list nat) : option (gmap nat entry * bool) :=
  match ids with
  | [] => Some (st, del)
  | i :: ids =>
      match st !! i with
      | None => None
      | Some e => decref (<[i := mkEntry (Info e) (RefCount e - 1)]> st) (del || (RefCount e =? 1)) ids
      end
  end.

(** The garbage collection of [FreeSeccompFilters]. *)
Definition collect (st : gmap nat entry) : gmap nat entry :=
  filter (fun p => RefCount p.2 <> 0) st.

(** ** Thread lifetime *)

(** [InheritSeccompFilters] into a thread object just created. *)
Definition InheritSeccompFilters (s : Sys) (p : nat) (tid : Z) : option Sys :=
  match Threads s !! p with
  | None => None
  | Some Parent =>
      match incref (Store s) (Filters Parent) with
      | None => None
      | Some st =>
          let Child := mkThread tid false (SeccompMode Parent) (Filters Parent) fresh_cache in
          Some (set_threads s st (Threads s ++ [Child]))
      end
  end.

Definition FreeSeccompFilters (s : Sys) (t : nat) : option Sys :=
  match Threads s !! t with
  | None => None
  | Some T =>
      match decref (Store s) false (Filters T) with
      | None => None
      | Some (st, HasFiltersToDelete) =>
          let T' := mkThread (TID T) (Listed T) (SeccompMode T) [] (SeccompCache T) in
          Some (set_threads s (if HasFiltersToDelete then collect st else st) (<[t := T']> (Threads s)))
      end
  end.

(** The thread manager adds the thread to its list, or removes it. *)
Definition SetListed (s : Sys) (t : nat) (l : bool) : option Sys :=
  match Threads s !! t with
  | None => None
  | Some T =>
      Some (set_threads s (Store s)
        (<[t := mkThread (TID T) l (SeccompMode T) (Filters T) (SeccompCache T)]> (Threads s)))
  end.

(** ** Thread synchronisation *)

(** The loop of [CanDoTSync] from thread number [i] on. *)
Fixpoint can_tsync (p : nat) (Parent : Thread) (i : nat) (ts : list Thread) : Z :=
  match ts with
  | [] => 0
  | T :: ts =>
      if negb (Listed T) || Nat.eqb i p || (SeccompMode T =? SECCOMP_MODE_DISABLED)
      then can_tsync p Parent (S i) ts
      else if negb (SeccompMode T =? SeccompMode Parent) then TID T
      else if bool_decide (Filters T = Filters Parent) then can_tsync p Parent (S i) ts
      else TID T
  end.

Definition CanDoTSync (s : Sys) (p : nat) (Parent : Thread) : Z := can_tsync p Parent 0 (Threads s).

Fixpoint tsync (p : nat) (Parent : Thread) (i : nat) (ts : list Thread) (st : gmap nat entry)
  : option (list Thread * gmap nat entry) :=
  match ts with
  | [] => Some ([], st)
  | T :: ts =>
      if negb (Listed T) || Nat.eqb i p then
        match tsync p Parent (S i) ts st with
        | None => None
        | Some (ts', st') => Some (T :: ts', st')
        end
      else
        match incref st (Filters Parent) with
        | None => None
        | Some st1 =>
            match tsync p Parent (S i) ts st1 with
            | None => None
            | Some (ts', st') =>
                Some (mkThread (TID T) (Listed T) (SeccompMode Parent) (Filters Parent) (SeccompCache T)
                        :: ts', st')
            end
        end
  end.

Definition TSyncFilters (s : Sys) (p : nat) : option Sys :=
  match Threads s !! p with
  | None => None
  | Some Parent =>
      match tsync p Parent 0 (Threads s) (Store s) with
      | None => None
      | Some (ts, st) => Some (set_threads s st ts)
      end
  end.

(** ** Installing filters *)

Definition has_flag (flags f : Z) : bool := negb (Z.land flags f =? 0).

(** A filter object for a validated program. *)
Definition new_filter (prog : list sock_filter) (log : bool) : SeccompFilterInfo :=
  let '(ip, args) := AnalyzeFilterLoads prog in mkFilter prog (Z.of_nat (length prog)) log ip args.

(** [Filters.emplace_back], [TotalFilterInstructions += len],
    [Thread->Filters.emplace_back]. *)
Definition append_filter (s : Sys) (t : nat) (T : Thread) (f : SeccompFilterInfo) (mode : Z) : Sys :=
  mkSys (<[NextFilter s := mkEntry f 1]> (Store s)) (S (NextFilter s))
    (<[t := mkThread (TID T) (Listed T) mode (Filters T ++ [NextFilter s]) (SeccompCache T)]> (Threads s))
    (FilterGeneration s) (u64 (TotalFilterInstructions s + FilterInstructions f)) (CurrentKillSignal s).

Definition bump_generation (s : Sys) : Sys :=
  mkSys (Store s) (NextFilter s) (Threads s) (u64 (FilterGeneration s + 1))
    (TotalFilterInstructions s) (CurrentKillSignal s).

(** The result is the system call's value and the new state; [nnp] is
    [prctl(PR_GET_NO_NEW_PRIVS)]. *)
Definition SetModeFilter (s : Sys) (t : nat) (flags : Z) (prog : option (list sock_filter)) (nnp : bool)
  : option (Z * Sys) :=
  match Threads s !! t with
  | None => None
  | Some T =>
      let SUPPORTED_FLAGS := Z.lor (Z.lor FLAG_TSYNC FLAG_LOG) (Z.lor FLAG_SPEC_ALLOW FLAG_TSYNC_ESRCH) in
      if negb (Z.ldiff flags SUPPORTED_FLAGS =? 0) then Some (- EINVAL, s)
      else if has_flag flags FLAG_TSYNC && has_flag flags FLAG_NEW_LISTENER
              && negb (has_flag flags FLAG_TSYNC_ESRCH) then Some (- EINVAL, s)
      else match prog with
      | None => Some (- EFAULT, s)
      | Some prog =>
          let len := Z.of_nat (length prog) in
          if negb nnp then Some (- EACCES, s)
          else if (len >? BPF_MAXINSNS) || (len =? 0) then Some (- EINVAL, s)
          else if u64 (TotalFilterInstructions s + len + Z.of_nat (length (Filters T)) * BPF_MULTIFILTERPENALTY)
                  >? BPF_MAX_INSNS_PER_PATH then Some (- ENOMEM, s)
          else
            let TSyncThread := if has_flag flags FLAG_TSYNC then CanDoTSync s t T else 0 in
            if negb (TSyncThread =? 0) then
              Some (if has_flag flags FLAG_TSYNC_ESRCH then - ESRCH else TSyncThread, s)
            else
              let Result := ValidateProgram prog in
              if Result =? 0 then
                let s1 := append_filter s t T (new_filter prog (has_flag flags FLAG_LOG)) SECCOMP_MODE_FILTER in
                match (if has_flag flags FLAG_TSYNC then TSyncFilters s1 t else Some s1) with
                | None => None
                | Some s2 => Some (Result, bump_generation s2)
                end
              else Some (Result, s)
      end
  end.

(** The filter of strict mode: read, write, exit, exit_group and rt_sigreturn
    are allowed, everything else kills the process. *)
Definition ALLOW_SYSCALL (nr : Z) : list sock_filter :=
  [mkInst 0x15 0 1 nr; mkInst 0x06 0 0 SECCOMP_RET_ALLOW].

Definition strict_filter_arm64 : list sock_filter :=
  mkInst 0x20 0 0 0 :: concat (map ALLOW_SYSCALL [63; 64; 93; 94; 139]) ++
  [mkInst 0x06 0 0 SECCOMP_RET_KILL_PROCESS].

Definition set_mode (s : Sys) (t : nat) (mode : Z) : Sys :=
  match Threads s !! t with
  | None => s
  | Some T => set_threads s (Store s)
      (<[t := mkThread (TID T) (Listed T) mode (Filters T) (SeccompCache T)]> (Threads s))
  end.

Definition set_kill (s : Sys) (sig : Z) : Sys :=
  mkSys (Store s) (NextFilter s) (Threads s) (FilterGeneration s) (TotalFilterInstructions s) sig.

(** [arg_null]: the user pointer is null.  The result of [SetModeFilter] is
    not looked at. *)
Definition SetModeStrict (s : Sys) (t : nat) (flags : Z) (arg_null nnp : bool) : option (Z * Sys) :=
  match Threads s !! t with
  | None => None
  | Some T =>
      if negb nnp then Some (- EACCES, s)
      else if negb (flags =? 0) then Some (- EINVAL, s)
      else if negb arg_null then Some (- EINVAL, s)
      else if SeccompMode T =? SECCOMP_MODE_FILTER then Some (- EINVAL, s)
      else match SetModeFilter (set_kill s SIGKILL) t 0 (Some strict_filter_arm64) nnp with
           | None => None
           | Some (_, s') => Some (0, set_mode s' t SECCOMP_MODE_STRICT)
           end
  end.

(** ** Evaluating a syscall *)

Definition SysExecuteFilter (s : Sys) (t : nat) (Nr : Z) (args : list Z) (rip : Z)
  : option (FilterResult * Sys) :=
  match Threads s !! t with
  | None => None
  | Some T =>
      match deref (Store s) (Filters T) with
      | None => None
      | Some fs =>
          let '(r, c) := ExecuteFilter (CurrentKillSignal s) (FilterGeneration s) fs (SeccompCache T)
                           Nr args rip in
          Some (r, set_threads s (Store s)
            (<[t := mkThread (TID T) (Listed T) (SeccompMode T) (Filters T) c]> (Threads s)))
      end
  end.

(** ** Across execve *)

(** The C layouts: [sock_filter] is 8 bytes, both headers 16 with padding. *)
Definition bytes_of_inst (i : sock_filter) : list Z :=
  to_le 2 (code i) ++ to_le 1 (jt i) ++ to_le 1 (jf i) ++ to_le 4 (k i).

Definition bytes_of_filter (f : SeccompFilterInfo) : list Z :=
  to_le 8 (Z.of_nat (length (Program f)) * 8) ++ to_le 4 (FilterInstructions f) ++
  to_le 1 (b2z (ShouldLog f)) ++ [0; 0; 0] ++ concat (map bytes_of_inst (Program f)).

(** The file written for a thread in a seccomp mode (outer [None]: a pointer
    to an erased filter; inner [None]: seccomp is disabled). *)
Definition SerializeFilters (s : Sys) (T : Thread) : option (option (list Z)) :=
  if SeccompMode T =? SECCOMP_MODE_DISABLED then Some None
  else match deref (Store s) (Filters T) with
       | None => None
       | Some fs => Some (Some (to_le 8 (Z.of_nat (length fs)) ++ to_le 4 (SeccompMode T) ++ [0; 0; 0; 0] ++
                                concat (map bytes_of_filter fs)))
       end.

Definition inst_of_bytes (b : list Z) : sock_filter :=
  mkInst (from_le (take 2 b)) (from_le (take 1 (drop 2 b))) (from_le (take 1 (drop 3 b)))
         (from_le (take 4 (drop 4 b))).

Fixpoint insts_of_bytes (n : nat) (b : list Z) : list sock_filter :=
  match n with
  | O => []
  | S n => inst_of_bytes b :: insts_of_bytes n (drop 8 b)
  end.

(** [read(FD, buf, n)]: the bytes and the rest of the file. *)
Definition read_file (n : nat) (file : list Z) : option (list Z * list Z) :=
  if (length file <? n)%nat then None else Some (take n file, drop n file).

(** One iteration of the loop: the filter read, if it is accepted. *)
Definition read_filter (file : list Z) : option (SeccompFilterInfo * list Z) :=
  match read_file 16 file with
  | None => None
  | Some (h, file1) =>
      let ProgramSize := from_le (take 8 h) in
      let Insts := from_le (take 4 (drop 8 h)) in
      let Log := negb (nth 12 h 0 =? 0) in
      if (Insts =? 0) || (Insts >? BPF_MAXINSNS) || negb (ProgramSize =? Insts * 8) then None
      else match read_file (Z.to_nat ProgramSize) file1 with
           | None => None
           | Some (b, file2) =>
               let Program := insts_of_bytes (Z.to_nat Insts) b in
               if ValidateProgram Program =? 0 then Some (new_filter Program Log, file2) else None
           end
  end.

(** The loop; [true] when all [n] filters were read.  Every iteration
    consumes at least the header, so the length of the file is enough fuel:
    with none left the file is empty and the read fails. *)
Fixpoint deserialize_loop (fuel : nat) (n : Z) (s : Sys) (t : nat) (file : list Z) : bool * Sys :=
  if n <=? 0 then (true, s)
  else match fuel with
  | O => (false, s)
  | S fuel =>
      match read_filter file, Threads s !! t with
      | Some (f, file'), Some T =>
          deserialize_loop fuel (n - 1) (append_filter s t T f (SeccompMode T)) t file'
      | _, _ => (false, s)
      end
  end.

Definition DeserializeFilters (s : Sys) (t : nat) (file : list Z) : Sys :=
  match read_file 16 file with
  | None => s
  | Some (h, rest) =>
      let NumberOfFilters := from_le (take 8 h) in
      let Mode := from_le (take 4 (drop 8 h)) in
      let '(ok, s') := deserialize_loop (length rest) NumberOfFilters s t rest in
      if ok then bump_generation (set_mode s' t Mode) else s'
  end.

(** ** References held by the threads *)

Definition cnt (i : nat) (T : Thread) : nat := count_occ Nat.eq_dec (Filters T) i.
Definition refs (ts : list Thread) (i : nat) : nat := sum_list_with (cnt i) ts.

Lemma refs_insert ts t T T' i :
  ts !! t = Some T -> (refs (<[t := T']> ts) i + cnt i T = refs ts i + cnt i T')%nat.
Proof.
  revert t. induction ts as [|U ts IH]; intros [|t] Hl; simplify_eq/=; [lia|].
  specialize (IH t Hl). unfold refs in *. lia.
Qed.

Lemma refs_app ts us i : (refs (ts ++ us) i = refs ts i + refs us i)%nat.
Proof. unfold refs. by rewrite sum_list_with_app. Qed.

Lemma refs_thread ts t T i : ts !! t = Some T -> (cnt i T <= refs ts i)%nat.
Proof. intros Hl. pose proof (refs_insert ts t T (mkThread 0 false 0 [] fresh_cache) i Hl). unfold cnt in *. simpl in *. lia. Qed.

Lemma cnt_elem i ids : i ∈ ids <-> (0 < count_occ Nat.eq_dec ids i)%nat.
Proof. rewrite list_elem_of_In, (count_occ_In Nat.eq_dec). lia. Qed.

(** Every pointer [n] claims is to an entry, and every count is at least the
    number of pointers claimed. *)
Record covers (st : gmap nat entry) (n : nat -> nat) : Prop := {
  cov_live : forall i, (0 < n i)%nat -> is_Some (st !! i);
  cov_count : forall i e, st !! i = Some e -> Z.of_nat (n i) <= RefCount e }.

(** Same filters at the same addresses. *)
Definition same_infos (st st' : gmap nat entry) : Prop :=
  forall i, Info <$> st' !! i = Info <$> st !! i.

Lemma same_infos_set st i e rc : st !! i = Some e -> same_infos st (<[i := mkEntry (Info e) rc]> st).
Proof.
  intros Hi j. destruct (decide (j = i)) as [->|]; [by rewrite lookup_insert_eq, Hi|by rewrite lookup_insert_ne].
Qed.

Lemma same_infos_trans a b c : same_infos a b -> same_infos b c -> same_infos a c.
Proof. intros H1 H2 i. by rewrite H2, H1. Qed.

Lemma covers_set st n i e rc m :
  covers st n -> st !! i = Some e -> Z.of_nat (m i) <= rc -> (forall j, j <> i -> m j = n j) ->
  covers (<[i := mkEntry (Info e) rc]> st) m.
Proof.
  intros [Hl Hc] Hi Hrc Hm. split; intros j; destruct (decide (j = i)) as [->|Hne].
  - by rewrite lookup_insert_eq.
  - rewrite lookup_insert_ne, Hm by done. apply Hl.
  - rewrite lookup_insert_eq. by intros e' [= <-].
  - rewrite lookup_insert_ne, Hm by done. apply Hc.
Qed.

Lemma covers_ext st n m : (forall i, n i = m i) -> covers st n -> covers st m.
Proof. intros He [Hl Hc]. split; intros i; rewrite <- He; [apply Hl|apply Hc]. Qed.

Lemma live_set (st : gmap nat entry) i e rc ids :
  Forall (fun i => is_Some (st !! i)) ids -> st !! i = Some e ->
  Forall (fun j => is_Some (<[i := mkEntry (Info e) rc]> st !! j)) ids.
Proof.
  intros H Hi. eapply Forall_impl; [exact H|]. intros j Hj. cbv beta.
  destruct (decide (j = i)) as [->|]; [by rewrite lookup_insert_eq|by rewrite lookup_insert_ne].
Qed.

Lemma incref_spec ids st n :
  covers st n -> Forall (fun i => is_Some (st !! i)) ids ->
  exists st', incref st ids = Some st' /\ same_infos st st' /\
    covers st' (fun i => n i + count_occ Nat.eq_dec ids i)%nat.
Proof.
  revert st n. induction ids as [|j ids IH]; intros st n Hc Hall.
  - exists st. split_and!; [done|done|]. eapply covers_ext; [|done]. simpl. lia.
  - apply Forall_cons in Hall as [[e He] Hall]. simpl. rewrite He.
    pose proof (cov_count _ _ Hc j e He) as Hcnt.
    destruct (IH (<[j := mkEntry (Info e) (RefCount e + 1)]> st)
                 (fun i => n i + if Nat.eq_dec j i then 1 else 0)%nat) as (st' & Hst & Hinf & Hcov).
    + eapply covers_set; [done|done| |]; [destruct (Nat.eq_dec j j); lia|].
      intros i Hne. destruct (Nat.eq_dec j i); [congruence|lia].
    + by apply live_set.
    + exists st'. split; [done|]. split; [eapply same_infos_trans; [by apply same_infos_set|done]|].
      eapply covers_ext; [|exact Hcov]. intros i. simpl. destruct (Nat.eq_dec j i); lia.
Qed.

Lemma decref_spec ids st n del :
  covers st (fun i => n i + count_occ Nat.eq_dec ids i)%nat ->
  exists st' del', decref st del ids = Some (st', del') /\ same_infos st st' /\ covers st' n.
Proof.
  revert st del. induction ids as [|j ids IH]; intros st del Hc.
  - exists st, del. split_and!; [done|done|]. eapply covers_ext; [|exact Hc]. simpl. lia.
  - assert (is_Some (st !! j)) as [e He].
    { apply (cov_live _ _ Hc). simpl. destruct (Nat.eq_dec j j); [lia|done]. }
    pose proof (cov_count _ _ Hc j e He) as Hcnt. simpl in Hcnt. destruct (Nat.eq_dec j j) as [_|]; [|done].
    simpl. rewrite He.
    destruct (IH (<[j := mkEntry (Info e) (RefCount e - 1)]> st) (del || (RefCount e =? 1)))
      as (st' & del' & Hst & Hinf & Hcov).
    + eapply covers_set; [done|done|lia|]. intros i Hne. simpl. destruct (Nat.eq_dec j i); [congruence|lia].
    + exists st', del'. split_and!; [done| |done]. eapply same_infos_trans; [by apply same_infos_set|done].
Qed.

Lemma collect_covers st n : covers st n -> covers (collect st) n.
Proof.
  intros [Hl Hc]. split; intros i.
  - intros Hi. destruct (Hl i Hi) as [e He]. exists e. apply map_lookup_filter_Some. split; [done|]. simpl.
    specialize (Hc i e He). lia.
  - intros e He. apply map_lookup_filter_Some in He as [He _]. by apply Hc.
Qed.

(** Dereferencing sees the same filters through equal infos. *)
Lemma deref_same st st' ids : same_infos st st' -> deref st' ids = deref st ids.
Proof.
  intros H. unfold deref. induction ids as [|i ids IH]; [done|]. simpl. by rewrite H, IH.
Qed.

Lemma deref_total (st : gmap nat entry) ids : Forall (fun i => is_Some (st !! i)) ids -> is_Some (deref st ids).
Proof.
  intros H. apply mapM_is_Some. eapply Forall_impl; [exact H|]. intros i [e He]. simpl. rewrite He. by eexists.
Qed.

Lemma deref_collect st n ids :
  covers st n -> Forall (fun i => (0 < n i)%nat) ids -> deref (collect st) ids = deref st ids.
Proof.
  intros [Hl Hc] Hall. unfold deref. induction Hall as [|i ids Hi _ IH]; [done|]. simpl. rewrite IH.
  destruct (Hl i Hi) as [e He].
  assert (collect st !! i = Some e) as ->; [|by rewrite He].
  apply map_lookup_filter_Some. split; [done|]. specialize (Hc i e He). simpl. lia.
Qed.

(** A filter as installation stores it. *)
Definition installed (f : SeccompFilterInfo) : Prop :=
  f = new_filter (Program f) (ShouldLog f) /\ ValidateProgram (Program f) = 0 /\
  Forall inst_ok (Program f) /\ 1 <= Z.of_nat (length (Program f)) <= BPF_MAXINSNS.

Lemma new_filter_fields prog log :
  Program (new_filter prog log) = prog /\ ShouldLog (new_filter prog log) = log /\
  FilterInstructions (new_filter prog log) = Z.of_nat (length prog) /\
  (ReadsIP (new_filter prog log), ReadsArgs (new_filter prog log)) = AnalyzeFilterLoads prog.
Proof. unfold new_filter. by destruct (AnalyzeFilterLoads prog). Qed.

Lemma installed_ok f : installed f -> filter_ok f.
Proof.
  intros (Hf & Hv & Hi & _). destruct (new_filter_fields (Program f) (ShouldLog f)) as (_ & _ & _ & Hr).
  rewrite <- Hf in Hr. by split_and!.
Qed.

Lemma new_filter_installed prog log :
  ValidateProgram prog = 0 -> Forall inst_ok prog -> 1 <= Z.of_nat (length prog) <= BPF_MAXINSNS ->
  installed (new_filter prog log).
Proof.
  intros Hv Hi Hl. destruct (new_filter_fields prog log) as (Hp & Hg & _ & _). unfold installed.
  by rewrite Hp, Hg.
Qed.

(** ** The invariant *)

(** A thread's cache is not from the future, and is sound if it is current. *)
Definition thread_inv (st : gmap nat entry) (gen : Z) (T : Thread) : Prop :=
  Generation (SeccompCache T) <= gen /\
  forall fs, deref st (Filters T) = Some fs -> fs <> [] -> Generation (SeccompCache T) = gen ->
  cache_ok fs (SeccompCache T).

Record Inv (s : Sys) : Prop := {
  inv_refs : covers (Store s) (refs (Threads s));
  inv_ok : forall i e, Store s !! i = Some e -> installed (Info e);
  inv_next : forall i, is_Some (Store s !! i) -> (i < NextFilter s)%nat;
  inv_gen : 1 <= FilterGeneration s;
  inv_threads : Forall (thread_inv (Store s) (FilterGeneration s)) (Threads s) }.

Lemma thread_live s t T :
  Inv s -> Threads s !! t = Some T -> Forall (fun i => is_Some (Store s !! i)) (Filters T).
Proof.
  intros HI HT. apply Forall_forall. intros i Hi. apply (cov_live _ _ (inv_refs _ HI)).
  pose proof (refs_thread _ _ _ i HT) as Hr. apply cnt_elem in Hi. unfold cnt in Hr. lia.
Qed.

Lemma thread_inv_same st st' gen T : same_infos st st' -> thread_inv st gen T -> thread_inv st' gen T.
Proof. intros Hs [H1 H2]. split; [done|]. intros fs. rewrite (deref_same _ _ _ Hs). apply H2. Qed.

Lemma threads_same st st' gen ts :
  same_infos st st' -> Forall (thread_inv st gen) ts -> Forall (thread_inv st' gen) ts.
Proof. intros Hs Hall. eapply Forall_impl; [exact Hall|]. intros T. by apply thread_inv_same. Qed.

(** Infos carried by equal infos are well-formed too. *)
Lemma ok_same s st : (forall i e, Store s !! i = Some e -> installed (Info e)) -> same_infos (Store s) st ->
  forall i e, st !! i = Some e -> installed (Info e).
Proof.
  intros Hok Hs i e Hi. specialize (Hs i). rewrite Hi in Hs. destruct (Store s !! i) as [e'|] eqn:He; [|done].
  simplify_eq/=. rewrite Hs. by apply (Hok i).
Qed.

Lemma next_same s st : (forall i, is_Some (Store s !! i) -> (i < NextFilter s)%nat) -> same_infos (Store s) st ->
  forall i, is_Some (st !! i) -> (i < NextFilter s)%nat.
Proof.
  intros Hn Hs i [e Hi]. specialize (Hs i). rewrite Hi in Hs. apply Hn. destruct (Store s !! i); [done|].
  by destruct e.
Qed.

(** Changing threads and counts only. *)
Lemma inv_set s st ts :
  Inv s -> same_infos (Store s) st -> covers st (refs ts) ->
  Forall (thread_inv (Store s) (FilterGeneration s)) ts -> Inv (set_threads s st ts).
Proof.
  intros HI Hs Hc Ht. split; cbn.
  - done.
  - eapply ok_same; [apply (inv_ok _ HI)|done].
  - eapply next_same; [apply (inv_next _ HI)|done].
  - apply (inv_gen _ HI).
  - by eapply threads_same.
Qed.

Lemma inherit_inv s p tid P :
  Inv s -> Threads s !! p = Some P -> exists s', InheritSeccompFilters s p tid = Some s' /\ Inv s'.
Proof.
  intros HI HP. unfold InheritSeccompFilters. rewrite HP.
  destruct (incref_spec (Filters P) (Store s) _ (inv_refs _ HI) (thread_live _ _ _ HI HP)) as (st & -> & Hs & Hc).
  eexists. split; [done|]. apply inv_set; [done|done| |].
  - eapply covers_ext; [|exact Hc]. intros i. rewrite refs_app. unfold refs, cnt. simpl. lia.
  - apply Forall_app. split; [apply (inv_threads _ HI)|]. constructor; [|done].
    pose proof (inv_gen _ HI). split; simpl; [lia|]. intros fs _ _ Hg. lia.
Qed.

Lemma free_inv s t T :
  Inv s -> Threads s !! t = Some T -> exists s', FreeSeccompFilters s t = Some s' /\ Inv s'.
Proof.
  intros HI HT. unfold FreeSeccompFilters. rewrite HT.
  set (T' := mkThread (TID T) (Listed T) (SeccompMode T) [] (SeccompCache T)).
  pose proof (fun i => refs_insert (Threads s) t T T' i HT) as Hr.
  destruct (decref_spec (Filters T) (Store s) (refs (<[t := T']> (Threads s))) false) as (st & del & -> & Hs & Hc).
  { eapply covers_ext; [|exact (inv_refs _ HI)]. intros i. specialize (Hr i). unfold cnt in Hr. simpl in Hr. lia. }
  eexists. split; [done|].
  assert (Ht : Forall (thread_inv (Store s) (FilterGeneration s)) (<[t := T']> (Threads s))).
  { apply Forall_insert; [apply (inv_threads _ HI)|]. destruct (Forall_lookup_1 _ _ _ _ (inv_threads _ HI) HT).
    split; [done|]. intros fs [= <-]. done. }
  pose proof (inv_set s st _ HI Hs Hc Ht) as HI'. destruct del; [|done]. split; cbn.
  - by apply collect_covers.
  - intros i e Hi. apply map_lookup_filter_Some in Hi as [Hi _]. by apply (inv_ok _ HI' i).
  - intros i [e Hi]. apply map_lookup_filter_Some in Hi as [Hi _]. apply (inv_next _ HI' i). by eexists.
  - apply (inv_gen _ HI).
  - apply Forall_lookup. intros u U HU. destruct (Forall_lookup_1 _ _ _ _ (inv_threads _ HI') HU) as [H1 H2].
    split; [done|]. intros fs. erewrite deref_collect; [apply H2|exact Hc|].
    apply Forall_forall. intros i Hi. pose proof (refs_thread _ _ _ i HU). apply cnt_elem in Hi. unfold cnt in *. lia.
Qed.

Lemma listed_inv s t T b :
  Inv s -> Threads s !! t = Some T -> exists s', SetListed s t b = Some s' /\ Inv s'.
Proof.
  intros HI HT. unfold SetListed. rewrite HT. eexists. split; [done|]. apply inv_set; [done|done| |].
  - eapply covers_ext; [|apply (inv_refs _ HI)]. intros i.
    pose proof (refs_insert _ _ _ (mkThread (TID T) b (SeccompMode T) (Filters T) (SeccompCache T)) i HT) as Hr.
    unfold cnt in Hr. simpl in Hr. lia.
  - apply Forall_insert; [apply (inv_threads _ HI)|]. apply (Forall_lookup_1 _ _ _ _ (inv_threads _ HI) HT).
Qed.

(** What holds between changing a thread's filters and the generation bump:
    no cache is from the future. *)
Record Base (s : Sys) : Prop := {
  base_refs : covers (Store s) (refs (Threads s));
  base_ok : forall i e, Store s !! i = Some e -> installed (Info e);
  base_next : forall i, is_Some (Store s !! i) -> (i < NextFilter s)%nat;
  base_gen : 1 <= FilterGeneration s;
  base_threads : Forall (fun T => Generation (SeccompCache T) <= FilterGeneration s) (Threads s) }.

Lemma base_of_inv s : Inv s -> Base s.
Proof.
  intros [H1 H2 H3 H4 H5]. split; try done. eapply Forall_impl; [exact H5|]. by intros T [? _].
Qed.

Lemma bump_inv s : Base s -> FilterGeneration s < 2 ^ 64 - 1 -> Inv (bump_generation s).
Proof.
  intros [H1 H2 H3 H4 H5] Hg. unfold bump_generation, u64. rewrite wrap_small by width.
  split; cbn; try done; [lia|]. eapply Forall_impl; [exact H5|]. intros T HT. simpl in HT.
  split; [lia|]. intros. lia.
Qed.

Lemma append_base s t T f mode :
  Base s -> Threads s !! t = Some T -> installed f -> Base (append_filter s t T f mode).
Proof.
  intros HB HT Hf. pose proof (base_next _ HB) as Hn.
  assert (Hfresh : Store s !! NextFilter s = None).
  { destruct (Store s !! NextFilter s) eqn:E; [|done]. specialize (Hn (NextFilter s)). rewrite E in Hn.
    specialize (Hn ltac:(by eexists)). lia. }
  assert (Hno : refs (Threads s) (NextFilter s) = 0%nat).
  { destruct (refs (Threads s) (NextFilter s)) eqn:E; [done|].
    destruct (cov_live _ _ (base_refs _ HB) (NextFilter s)) as [e He]; [lia|]. congruence. }
  pose proof (fun i => refs_insert (Threads s) t T
    (mkThread (TID T) (Listed T) mode (Filters T ++ [NextFilter s]) (SeccompCache T)) i HT) as Hr.
  assert (Hcnt : forall i, cnt i (mkThread (TID T) (Listed T) mode (Filters T ++ [NextFilter s]) (SeccompCache T))
                 = (cnt i T + if Nat.eq_dec (NextFilter s) i then 1 else 0)%nat).
  { intros i. unfold cnt. cbn [Filters]. rewrite count_occ_app. simpl. destruct (Nat.eq_dec _ _); lia. }
  split; cbn.
  - split; intros i; specialize (Hr i); rewrite Hcnt in Hr; destruct (decide (NextFilter s = i)) as [<-|Hne];
      rewrite ?lookup_insert_eq; rewrite ?(lookup_insert_ne _ (NextFilter s) i) by done.
    + by eexists.
    + destruct (Nat.eq_dec (NextFilter s) i); [done|]. intros ?. apply (cov_live _ _ (base_refs _ HB)). lia.
    + intros e [= <-]. simpl. destruct (Nat.eq_dec _ _); lia.
    + intros e He. destruct (Nat.eq_dec (NextFilter s) i); [done|].
      pose proof (cov_count _ _ (base_refs _ HB) i e He). lia.
  - intros i e. destruct (decide (NextFilter s = i)) as [<-|Hne].
    + rewrite lookup_insert_eq. by intros [= <-].
    + rewrite lookup_insert_ne by done. apply (base_ok _ HB).
  - intros i. destruct (decide (NextFilter s = i)) as [<-|Hne]; [lia|].
    rewrite lookup_insert_ne by done. intros Hi. specialize (Hn i Hi). lia.
  - apply (base_gen _ HB).
  - apply Forall_insert; [apply (base_threads _ HB)|]. apply (Forall_lookup_1 _ _ _ _ (base_threads _ HB) HT).
Qed.

(** Synchronising: the counts grow by what the threads gain at least (the
    references a thread gives up are not returned). *)
Lemma tsync_spec p P i ts st n :
  covers st (fun j => n j + refs ts j)%nat -> Forall (fun j => is_Some (st !! j)) (Filters P) ->
  exists ts' st', tsync p P i ts st = Some (ts', st') /\ same_infos st st' /\
    covers st' (fun j => n j + refs ts' j)%nat /\
    Forall2 (fun T T' => SeccompCache T' = SeccompCache T /\ TID T' = TID T) ts ts'.
Proof.
  revert i st n. induction ts as [|T ts IH]; intros i st n Hc Hl.
  - by exists [], st.
  - simpl. destruct (negb (Listed T) || (i =? p)%nat).
    + destruct (IH (S i) st (fun j => n j + cnt j T)%nat) as (ts' & st' & -> & Hs & Hc' & Hf); [|done|].
      { eapply covers_ext; [|exact Hc]. intros j. unfold refs. simpl. lia. }
      exists (T :: ts'), st'. split_and!; [done|done| |by constructor].
      eapply covers_ext; [|exact Hc']. intros j. unfold refs. simpl. lia.
    + destruct (incref_spec (Filters P) st _ Hc Hl) as (st1 & -> & Hs1 & Hc1).
      destruct (IH (S i) st1 (fun j => n j + count_occ Nat.eq_dec (Filters P) j)%nat)
        as (ts' & st' & -> & Hs & Hc' & Hf).
      { destruct Hc1 as [Hc1 Hc2]. split; intros j; [intros Hj; apply Hc1|intros e He; specialize (Hc2 j e He)];
          unfold refs in *; simpl in *; lia. }
      { eapply Forall_impl; [exact Hl|]. intros j Hj. simpl in Hj |- *. specialize (Hs1 j).
        destruct (st !! j), (st1 !! j); try done. }
      eexists _, st'. split; [done|]. split; [by eapply same_infos_trans|]. split; [|by constructor].
      eapply covers_ext; [|exact Hc']. intros j. unfold refs, cnt. simpl. lia.
Qed.

Lemma tsync_base s p P :
  Base s -> Threads s !! p = Some P -> Forall (fun j => is_Some (Store s !! j)) (Filters P) ->
  exists s', TSyncFilters s p = Some s' /\ Base s' /\ FilterGeneration s' = FilterGeneration s.
Proof.
  intros HB HP Hl. unfold TSyncFilters. rewrite HP.
  destruct (tsync_spec p P 0 (Threads s) (Store s) (fun _ => 0%nat) (base_refs _ HB) Hl)
    as (ts & st & -> & Hs & Hc & Hf). eexists. split; [done|]. split; [|done]. split; cbn.
  - done.
  - eapply ok_same; [apply (base_ok _ HB)|done].
  - eapply next_same; [apply (base_next _ HB)|done].
  - apply (base_gen _ HB).
  - pose proof (base_threads _ HB) as Ht. clear -Hf Ht. induction Hf as [|T T' ts ts' [Hc _] _ IH]; [done|].
    apply Forall_cons in Ht as [H1 H2]. constructor; [by rewrite Hc|auto].
Qed.

Lemma tsync_length s s' p : TSyncFilters s p = Some s' -> length (Threads s') = length (Threads s).
Proof.
  unfold TSyncFilters. destruct (Threads s !! p) as [P|]; [|done].
  assert (Hl : forall ts i st ts' st', tsync p P i ts st = Some (ts', st') -> length ts' = length ts).
  { induction ts as [|T ts IH]; intros i st ts' st'; simpl; [by intros [= <- <-]|].
    case_if H; [|destruct (incref st (Filters P)) as [st1|]; [|done]];
      (destruct (tsync p P (S i) ts _) as [[us ut]|] eqn:E; [|done]); intros [= <- <-]; simpl; f_equal; eauto. }
  destruct (tsync p P 0 _ _) as [[ts st]|] eqn:E; [|done]. intros [= <-]. by eapply Hl.
Qed.

(** An outcome of [SetModeFilter]: an error and the same state, or 0 and one
    generation more. *)
Definition set_outcome (s : Sys) (t : nat) (o : option (Z * Sys)) : Prop :=
  exists r s', o = Some (r, s') /\ Inv s' /\ is_Some (Threads s' !! t) /\
    (s' = s \/ r = 0 /\ FilterGeneration s' = FilterGeneration s + 1).

Lemma set_outcome_err s t T r : Inv s -> Threads s !! t = Some T -> set_outcome s t (Some (r, s)).
Proof. intros HI HT. exists r, s. rewrite HT. split_and!; eauto. Qed.

Lemma set_filter_inv s t T flags prog nnp :
  Inv s -> FilterGeneration s < 2 ^ 64 - 1 -> Threads s !! t = Some T ->
  (forall p, prog = Some p -> Forall inst_ok p) ->
  set_outcome s t (SetModeFilter s t flags prog nnp).
Proof.
  intros HI Hg HT Hp. unfold SetModeFilter. rewrite HT. cbv zeta.
  pose proof (fun r => set_outcome_err s t T r HI HT) as Herr.
  do 2 (case_if H; [apply Herr|]). destruct prog as [prog|]; [|apply Herr].
  do 4 (case_if H; [apply Herr|]). case_if Hv; [|apply Herr]. apply Z.eqb_eq in Hv.
  set (s1 := append_filter s t T _ _).
  assert (HB1 : Base s1) by (apply append_base; [by apply base_of_inv|done|apply new_filter_installed; [done|by apply Hp|unfold BPF_MAXINSNS in *; lia]]).
  assert (HT1 : Threads s1 !! t = Some (mkThread (TID T) (Listed T) SECCOMP_MODE_FILTER
                  (Filters T ++ [NextFilter s]) (SeccompCache T)))
    by (unfold s1; cbn; by rewrite list_lookup_insert_eq by (by eapply lookup_lt_Some)).
  assert (Hsync : exists s2, (if has_flag flags FLAG_TSYNC then TSyncFilters s1 t else Some s1) = Some s2 /\
                 Base s2 /\ FilterGeneration s2 = FilterGeneration s /\ is_Some (Threads s2 !! t)).
  { case_if Htf; [|by exists s1; rewrite HT1].
    destruct (tsync_base s1 t _ HB1 HT1) as (s2 & Hs2 & HB2 & Hg2).
    { apply Forall_forall. intros j Hj. apply (cov_live _ _ (base_refs _ HB1)).
      pose proof (refs_thread _ _ _ j HT1) as Hr. apply cnt_elem in Hj. unfold cnt in Hr. cbn [Filters] in *. lia. }
    exists s2. split_and!; [done|done|done|]. apply lookup_lt_is_Some_2. apply (tsync_length s1 s2 t) in Hs2.
    rewrite Hs2. by eapply lookup_lt_Some. }
  destruct Hsync as (s2 & -> & HB2 & Hg2 & Ht2). eexists _, _. split; [done|].
  split; [apply bump_inv; [done|lia]|]. split; [done|]. right. split; [done|].
  unfold bump_generation, u64; cbn [FilterGeneration]. rewrite Hg2. apply wrap_small.
  pose proof (inv_gen _ HI). width.
Qed.

Lemma set_kill_inv s sig : Inv s -> Inv (set_kill s sig).
Proof. intros [H1 H2 H3 H4 H5]. by split. Qed.

(** Replacing a thread by one with the same filters and cache. *)
Lemma replace_inv s t T T' :
  Inv s -> Threads s !! t = Some T -> Filters T' = Filters T -> 
  thread_inv (Store s) (FilterGeneration s) T' -> Inv (set_threads s (Store s) (<[t := T']> (Threads s))).
Proof.
  intros HI HT Hf Ht. apply inv_set; [done|done| |].
  - eapply covers_ext; [|apply (inv_refs _ HI)]. intros i.
    pose proof (refs_insert _ _ _ T' i HT) as Hr. unfold cnt in Hr. rewrite Hf in Hr. lia.
  - apply Forall_insert; [apply (inv_threads _ HI)|done].
Qed.

Lemma set_mode_inv s t mode : Inv s -> Inv (set_mode s t mode).
Proof.
  intros HI. unfold set_mode. destruct (Threads s !! t) as [T|] eqn:HT; [|done].
  eapply replace_inv; [done|done|done|]. apply (Forall_lookup_1 _ _ _ _ (inv_threads _ HI) HT).
Qed.

Lemma strict_insts_ok : Forall inst_ok strict_filter_arm64.
Proof. repeat (apply Forall_cons; split; [vm_compute; intuition congruence|]). by apply Forall_nil. Qed.

Lemma strict_inv s t T flags arg nnp :
  Inv s -> FilterGeneration s < 2 ^ 64 - 1 -> Threads s !! t = Some T ->
  exists r s', SetModeStrict s t flags arg nnp = Some (r, s') /\ Inv s' /\
    FilterGeneration s' <= FilterGeneration s + 1.
Proof.
  intros HI Hg HT. unfold SetModeStrict. rewrite HT.
  do 4 (case_if H; [eexists _, s; split; [done|]; split; [done|lia]|]).
  destruct (set_filter_inv (set_kill s SIGKILL) t T 0 (Some strict_filter_arm64) nnp)
    as (r & s' & -> & HI' & _ & Hs').
  - by apply set_kill_inv.
  - done.
  - done.
  - intros p [= <-]. apply strict_insts_ok.
  - eexists _, _. split; [done|]. split; [by apply set_mode_inv|].
    assert (FilterGeneration (set_mode s' t SECCOMP_MODE_STRICT) = FilterGeneration s') as ->
      by (unfold set_mode; by destruct (Threads s' !! t)).
    destruct Hs' as [->|[_ ->]]; cbn; lia.
Qed.

(** A thread's filters are well-formed. *)
Lemma deref_ok s ids fs : Inv s -> deref (Store s) ids = Some fs -> Forall filter_ok fs.
Proof.
  intros HI Hd. unfold deref in Hd. apply mapM_Some in Hd. induction Hd as [|i f ids fs Hi _ IH]; [done|].
  constructor; [|done]. destruct (Store s !! i) as [e|] eqn:He; simplify_eq/=.
  by apply installed_ok, (inv_ok _ HI i).
Qed.

Lemma syscall_inv s t T Nr args rip :
  Inv s -> Threads s !! t = Some T -> in_syscall Nr rip args -> ~ empty_way_key rip Nr ->
  exists fs s', deref (Store s) (Filters T) = Some fs /\
    SysExecuteFilter s t Nr args rip = Some (reference (CurrentKillSignal s) fs Nr args rip, s') /\
    Inv s' /\ FilterGeneration s' = FilterGeneration s.
Proof.
  intros HI HT Hsys Hkey. unfold SysExecuteFilter. rewrite HT.
  destruct (deref_total (Store s) (Filters T) (thread_live _ _ _ HI HT)) as [fs Hfs]. rewrite Hfs.
  destruct (Forall_lookup_1 _ _ _ _ (inv_threads _ HI) HT) as [Hge Hc].
  pose proof (execute_ok (CurrentKillSignal s) (FilterGeneration s) fs (SeccompCache T) Nr args rip
    (deref_ok _ _ _ HI Hfs) (Hc fs Hfs) Hsys Hkey) as Hex.
  destruct (ExecuteFilter _ _ _ _ _ _ _) as [r c]. destruct Hex as (-> & Hcur & Hsame).
  eexists fs, _. split; [done|]. split; [done|]. split; [|done].
  eapply replace_inv; [done|done|done|]. split; cbn [Filters SeccompCache].
  - destruct fs as [|f fs]; [by rewrite Hsame|]. destruct Hcur as [-> _]; [done|lia].
  - rewrite Hfs. intros fs' [= <-] Hne _. by apply Hcur.
Qed.

(** ** Operations in sequence *)

Inductive op :=
  | OpInherit (p : nat) (tid : Z)
  | OpFree (t : nat)
  | OpListed (t : nat) (l : bool)
  | OpFilter (t : nat) (flags : Z) (prog : option (list sock_filter)) (nnp : bool)
  | OpStrict (t : nat) (flags : Z) (arg_null nnp : bool)
  | OpSyscall (t : nat) (Nr : Z) (args : list Z) (rip : Z).

Definition op_thread (o : op) : nat :=
  match o with
  | OpInherit t _ | OpFree t | OpListed t _ | OpFilter t _ _ _ | OpStrict t _ _ _ | OpSyscall t _ _ _ => t
  end.

(** The thread exists and the arguments are values of their C types. *)
Definition op_ok (s : Sys) (o : op) : Prop :=
  (op_thread o < length (Threads s))%nat /\
  match o with
  | OpFilter _ _ (Some p) _ => Forall inst_ok p
  | OpSyscall _ Nr args rip => in_syscall Nr rip args /\ ~ empty_way_key rip Nr
  | _ => True
  end.

Definition apply_op (s : Sys) (o : op) : option Sys :=
  match o with
  | OpInherit p tid => InheritSeccompFilters s p tid
  | OpFree t => FreeSeccompFilters s t
  | OpListed t l => SetListed s t l
  | OpFilter t flags prog nnp => snd <$> SetModeFilter s t flags prog nnp
  | OpStrict t flags a nnp => snd <$> SetModeStrict s t flags a nnp
  | OpSyscall t Nr args rip => snd <$> SysExecuteFilter s t Nr args rip
  end.

Lemma op_inv s o :
  Inv s -> FilterGeneration s < 2 ^ 64 - 1 -> op_ok s o ->
  exists s', apply_op s o = Some s' /\ Inv s' /\ FilterGeneration s' <= FilterGeneration s + 1.
Proof.
  intros HI Hg [Ht Ho]. apply lookup_lt_is_Some_2 in Ht as [T HT].
  destruct o as [p tid|t|t l|t flags prog nnp|t flags a nnp|t Nr args rip]; cbn in *.
  - destruct (inherit_inv s p tid T HI HT) as (s' & Hs & HI'). exists s'. split_and!; [done|done|].
    unfold InheritSeccompFilters in Hs. repeat case_match; simplify_eq/=. lia.
  - destruct (free_inv s t T HI HT) as (s' & Hs & HI'). exists s'. split_and!; [done|done|].
    unfold FreeSeccompFilters in Hs. repeat case_match; simplify_eq/=; lia.
  - destruct (listed_inv s t T l HI HT) as (s' & Hs & HI'). exists s'. split_and!; [done|done|].
    unfold SetListed in Hs. repeat case_match; simplify_eq/=. lia.
  - destruct (set_filter_inv s t T flags prog nnp HI Hg HT) as (r & s' & -> & HI' & _ & Hs').
    { intros p' ->. done. }
    exists s'. split_and!; [done|done|]. destruct Hs' as [->|[_ ->]]; lia.
  - destruct (strict_inv s t T flags a nnp HI Hg HT) as (r & s' & -> & HI' & Hle). by exists s'.
  - destruct (syscall_inv s t T Nr args rip HI HT) as (fs & s' & _ & -> & HI' & Hge); [tauto..|].
    exists s'. split_and!; [done|done|lia].
Qed.

(** States the emulator can be in after [n] operations from process start. *)
Inductive reached (s0 : Sys) : nat -> Sys -> Prop :=
  | reached_start : reached s0 0 s0
  | reached_op n s o s' : reached s0 n s -> op_ok s o -> apply_op s o = Some s' -> reached s0 (S n) s'.

Lemma reached_inv s0 n s :
  Inv s0 -> reached s0 n s -> FilterGeneration s0 + Z.of_nat n < 2 ^ 64 - 1 ->
  Inv s /\ FilterGeneration s <= FilterGeneration s0 + Z.of_nat n.
Proof.
  intros H0 Hr. induction Hr as [|n s o s' Hr IH Ho Ha]; intros Hb; [split; [done|lia]|].
  destruct IH as [HI Hle]; [lia|]. destruct (op_inv s o HI ltac:(lia) Ho) as (s1 & Ha1 & HI1 & Hle1).
  simplify_eq. split; [done|]. lia.
Qed.

(** ** Serialization round trip *)

Lemma inst_roundtrip i rest : inst_ok i -> inst_of_bytes (bytes_of_inst i ++ rest) = i.
Proof.
  intros (Hc & Ht & Hf & Hk). unfold inst_of_bytes, bytes_of_inst. rewrite <- !app_assoc.
  destruct i as [c t f kk]. cbn [code jt jf k] in *.
  f_equal; rewrite ?drop_app_length' by (by rewrite length_to_le).
  - rewrite take_app_length' by (by rewrite length_to_le). rewrite from_to_le. by apply wrap_small.
  - rewrite take_app_length' by (by rewrite length_to_le). rewrite from_to_le. by apply wrap_small.
  - change 3%nat with (2 + 1)%nat. rewrite <- drop_drop.
    rewrite !drop_app_length' by (by rewrite length_to_le).
    rewrite take_app_length' by (by rewrite length_to_le). rewrite from_to_le. by apply wrap_small.
  - change 4%nat with (2 + (1 + 1))%nat at 2. rewrite <- !drop_drop.
    rewrite !drop_app_length' by (by rewrite length_to_le).
    rewrite take_app_length' by (by rewrite length_to_le). rewrite from_to_le. by apply wrap_small.
Qed.

Lemma length_bytes_of_inst i : length (bytes_of_inst i) = 8%nat.
Proof. unfold bytes_of_inst. by rewrite !length_app, !length_to_le. Qed.

Lemma insts_roundtrip prog rest :
  Forall inst_ok prog -> insts_of_bytes (length prog) (concat (map bytes_of_inst prog) ++ rest) = prog.
Proof.
  induction 1 as [|i prog Hi _ IH]; [done|]. cbn [length insts_of_bytes map concat]. rewrite <- app_assoc.
  rewrite inst_roundtrip by done. by rewrite drop_app_length' by (by rewrite length_bytes_of_inst); rewrite IH.
Qed.

Lemma length_prog_bytes prog : length (concat (map bytes_of_inst prog)) = (length prog * 8)%nat.
Proof.
  induction prog as [|i prog IH]; [done|]. cbn [map concat length]. rewrite length_app, length_bytes_of_inst, IH. lia.
Qed.

Lemma read_file_app a b n : length a = n -> read_file n (a ++ b) = Some (a, b).
Proof.
  intros <-. unfold read_file. rewrite (proj2 (Nat.ltb_ge _ _)) by (rewrite length_app; lia).
  by rewrite take_app_length, drop_app_length.
Qed.

Lemma read_filter_roundtrip f rest : installed f -> read_filter (bytes_of_filter f ++ rest) = Some (f, rest).
Proof.
  intros (Hf & Hv & Hi & Hl). unfold BPF_MAXINSNS in Hl.
  destruct (new_filter_fields (Program f) (ShouldLog f)) as (_ & _ & Hfi & _). rewrite <- Hf in Hfi.
  unfold read_filter, bytes_of_filter. rewrite Hfi.
  set (len := Z.of_nat (length (Program f))) in *. set (body := concat _).
  set (hdr := to_le 8 (len * 8) ++ to_le 4 len ++ to_le 1 (b2z (ShouldLog f)) ++ [0; 0; 0]).
  replace ((_ ++ _) ++ rest) with (hdr ++ body ++ rest)
    by (unfold hdr; by rewrite <- !app_assoc).
  rewrite read_file_app by (unfold hdr; by rewrite !length_app, !length_to_le). cbv beta iota zeta.
  assert (from_le (take 8 hdr) = len * 8) as ->.
  { unfold hdr. rewrite take_app_length' by (by rewrite length_to_le). rewrite from_to_le. apply wrap_small. width. }
  assert (from_le (take 4 (drop 8 hdr)) = len) as ->.
  { unfold hdr. rewrite drop_app_length', take_app_length' by (by rewrite length_to_le).
    rewrite from_to_le. apply wrap_small. width. }
  assert (negb (nth 12 hdr 0 =? 0) = ShouldLog f) as ->.
  { unfold hdr. rewrite app_nth2, length_to_le by (rewrite length_to_le; lia).
    rewrite app_nth2, length_to_le by (rewrite length_to_le; lia). by destruct (ShouldLog f). }
  unfold BPF_MAXINSNS.
  rewrite (proj2 (Z.eqb_neq len 0)), (proj2 (Z.eqb_eq (len * 8) _)) by lia.
  replace (len >? 4096) with false by (symmetry; rewrite Z.gtb_ltb; apply Z.ltb_ge; lia). cbn [orb negb].
  rewrite read_file_app by (unfold body; rewrite length_prog_bytes; lia).
  replace (insts_of_bytes (Z.to_nat len) body) with (Program f).
  - by rewrite Hv, <- Hf.
  - unfold len. rewrite Nat2Z.id. rewrite <- (app_nil_r body). symmetry. by apply insts_roundtrip.
Qed.

Lemma deref_append (st : gmap nat entry) ids gs n e :
  deref st ids = Some gs -> st !! n = None -> deref (<[n := e]> st) (ids ++ [n]) = Some (gs ++ [Info e]).
Proof.
  intros Hd Hn. unfold deref in *. apply mapM_Some in Hd. apply mapM_Some, Forall2_app.
  - eapply Forall2_impl; [exact Hd|]. intros i f Hi. simpl in Hi |- *.
    rewrite lookup_insert_ne; [done|]. intros ->. by rewrite Hn in Hi.
  - constructor; [|constructor]. by rewrite lookup_insert_eq.
Qed.

Lemma store_fresh s : Base s -> Store s !! NextFilter s = None.
Proof.
  intros HB. destruct (Store s !! NextFilter s) eqn:E; [|done].
  pose proof (base_next _ HB (NextFilter s) ltac:(by rewrite E)). lia.
Qed.

(** Reading back the filters of a thread appends them in order. *)
Lemma deserialize_filters fs fuel s t T gs :
  Base s -> Threads s !! t = Some T -> deref (Store s) (Filters T) = Some gs -> Forall installed fs ->
  (length fs <= fuel)%nat ->
  exists s' T', deserialize_loop fuel (Z.of_nat (length fs)) s t (concat (map bytes_of_filter fs)) = (true, s') /\
    Base s' /\ Threads s' !! t = Some T' /\ deref (Store s') (Filters T') = Some (gs ++ fs) /\
    FilterGeneration s' = FilterGeneration s.
Proof.
  revert fuel s T gs. induction fs as [|f fs IH]; intros fuel s T gs HB HT Hd Hi Hfuel.
  - exists s, T. rewrite app_nil_r. by destruct fuel.
  - apply Forall_cons in Hi as [Hf Hi]. destruct fuel as [|fuel]; [simpl in Hfuel; lia|].
    cbn [deserialize_loop length map concat]. rewrite (proj2 (Z.leb_gt _ _)) by lia.
    rewrite read_filter_roundtrip, HT by done.
    replace (Z.of_nat (S (length fs)) - 1) with (Z.of_nat (length fs)) by lia.
    destruct (IH fuel (append_filter s t T f (SeccompMode T))
                (mkThread (TID T) (Listed T) (SeccompMode T) (Filters T ++ [NextFilter s]) (SeccompCache T))
                (gs ++ [f])) as (s' & T' & -> & HB' & HT' & Hd' & Hg').
    + by apply append_base.
    + cbn. by rewrite list_lookup_insert_eq by (by eapply lookup_lt_Some).
    + cbn [Store append_filter Filters]. apply (deref_append _ _ _ _ (mkEntry f 1)); [done|by apply store_fresh].
    + done.
    + simpl in Hfuel. lia.
    + exists s', T'. rewrite <- app_assoc in Hd'. by split_and!.
Qed.

Lemma init_inv tid : Inv (init tid).
Proof.
  split; cbn.
  - split; intros i; cbn; [unfold refs, cnt; simpl; lia|by rewrite lookup_empty].
  - intros i e. by rewrite lookup_empty.
  - intros i. rewrite lookup_empty. by intros [].
  - lia.
  - constructor; [|done]. split; cbn; [lia|]. intros; lia.
Qed.

Lemma bytes_insts n b :
  Forall (in_width 8) b -> (length b = n * 8)%nat -> Forall inst_ok (insts_of_bytes n b).
Proof.
  revert b. induction n as [|n IH]; intros b Hb Hl; [constructor|]. cbn [insts_of_bytes]. constructor.
  - assert (Hw : forall i m, (i + m <= 8)%nat -> in_width (8 * Z.of_nat m) (from_le (take m (drop i b)))).
    { intros i m Him. pose proof (from_le_range (take m (drop i b)) ltac:(by apply Forall_take, Forall_drop)) as Hr.
      rewrite length_take, length_drop in Hr. replace (m `min` (length b - i))%nat with m in Hr by lia. done. }
    unfold inst_ok, inst_of_bytes. cbn [code jt jf k].
    split_and!; [apply (Hw 0%nat 2%nat)|apply (Hw 2%nat 1%nat)|apply (Hw 3%nat 1%nat)|apply (Hw 4%nat 4%nat)]; lia.
  - apply IH; [by apply Forall_drop|rewrite length_drop; lia].
Qed.

Lemma length_insts n b : length (insts_of_bytes n b) = n.
Proof. revert b. induction n as [|n IH]; intros b; simpl; [done|]. by rewrite IH. Qed.

Lemma read_file_bytes n file a b :
  Forall (in_width 8) file -> read_file n file = Some (a, b) ->
  length a = n /\ Forall (in_width 8) a /\ Forall (in_width 8) b.
Proof.
  unfold read_file. intros Hf. case_if H; [done|]. intros [= <- <-]. apply Nat.ltb_ge in H.
  rewrite length_take. split_and!; [lia|by apply Forall_take|by apply Forall_drop].
Qed.

(** Whatever the file holds, a filter read from it is one the validator
    accepts. *)
Lemma read_filter_installed file f rest :
  Forall (in_width 8) file -> read_filter file = Some (f, rest) -> installed f /\ Forall (in_width 8) rest.
Proof.
  intros Hb. unfold read_filter. destruct (read_file 16 file) as [[h file1]|] eqn:H1; [|done].
  apply read_file_bytes in H1 as (Hlh & Hh & Hb1); [|done]. cbv zeta. case_if H2; [done|].
  destruct (read_file _ file1) as [[b file2]|] eqn:H3; [|done].
  apply read_file_bytes in H3 as (Hl & Hbb & Hb2); [|done]. case_if H4; [|done]. intros [= <- <-].
  apply Z.eqb_eq in H4. split; [|done].
  assert (0 <= from_le (take 4 (drop 8 h))).
  { apply (from_le_range (take 4 (drop 8 h))). by apply Forall_take, Forall_drop. }
  apply new_filter_installed; [done| |].
  - apply bytes_insts; [done|]. lia.
  - rewrite length_insts. unfold BPF_MAXINSNS in *. lia.
Qed.

(** No cache has been filled yet. *)
Definition fresh_threads (s : Sys) : Prop :=
  Forall (fun T => Generation (SeccompCache T) = 0) (Threads s).

Lemma deserialize_base fuel n s t file :
  Base s -> fresh_threads s -> Forall (in_width 8) file ->
  Base (deserialize_loop fuel n s t file).2 /\ fresh_threads (deserialize_loop fuel n s t file).2 /\
  FilterGeneration (deserialize_loop fuel n s t file).2 = FilterGeneration s.
Proof.
  revert n s file. induction fuel as [|fuel IH]; intros n s file HB Hf Hb; cbn [deserialize_loop];
    (case_if Hn; [done|]); [done|].
  destruct (read_filter file) as [[f file']|] eqn:Hr; [|done]. apply read_filter_installed in Hr as [Hi Hb']; [|done].
  destruct (Threads s !! t) as [T|] eqn:HT; [|done].
  destruct (IH (n - 1) (append_filter s t T f (SeccompMode T)) file') as (H1 & H2 & H3); [| |done|done].
  - by apply append_base.
  - unfold fresh_threads in *. cbn. apply Forall_insert; [done|]. cbn.
    by apply (Forall_lookup_1 (fun T => Generation (SeccompCache T) = 0) _ _ _ Hf HT).
Qed.

(** The process after execve: the initial state, the filters handed over read
    into it. *)
Definition start (tid : Z) (file : option (list Z)) : Sys :=
  match file with
  | None => init tid
  | Some file => DeserializeFilters (init tid) 0 file
  end.

Lemma base_fresh_inv s : Base s -> fresh_threads s -> Inv s.
Proof.
  intros [H1 H2 H3 H4 H5] Hf. split; try done. eapply Forall_impl; [exact Hf|].
  intros T HT. simpl in HT. split; [lia|]. intros. lia.
Qed.

Lemma start_inv tid file :
  (forall f, file = Some f -> Forall (in_width 8) f) ->
  Inv (start tid file) /\ FilterGeneration (start tid file) <= 2.
Proof.
  intros Hb. destruct file as [file|]; [|split; [apply init_inv|done]]. specialize (Hb file eq_refl).
  unfold start, DeserializeFilters. destruct (read_file 16 file) as [[h rest]|] eqn:Hr;
    [|split; [apply init_inv|done]]. apply read_file_bytes in Hr as (_ & _ & Hrest); [|done].
  destruct (deserialize_base (length rest) (from_le (take 8 h)) (init tid) 0 rest) as (HB & Hf & Hg);
    [apply base_of_inv, init_inv|by constructor|done|].
  destruct (deserialize_loop _ _ _ _ _) as [ok s]. cbn in HB, Hf, Hg. pose proof (base_fresh_inv _ HB Hf) as HI.
  destruct ok; [|split; [done|lia]].
  pose proof (set_mode_inv s 0 (from_le (take 4 (drop 8 h))) HI) as HI'.
  assert (Hg' : FilterGeneration (set_mode s 0 (from_le (take 4 (drop 8 h)))) = 1)
    by (unfold set_mode; by destruct (Threads s !! 0%nat)).
  split; [apply bump_inv; [by apply base_of_inv|lia]|]. cbn [bump_generation FilterGeneration]. by rewrite Hg'.
Qed.

(** After synchronising, every listed thread other than the caller has the
    caller's filters and mode, and the caller is as it was. *)
Lemma tsync_all p P i ts st ts' st' :
  tsync p P i ts st = Some (ts', st') ->
  forall u U, ts' !! u = Some U ->
    ((i + u)%nat = p -> ts !! u = Some U) /\
    ((i + u)%nat <> p -> Listed U = true -> Filters U = Filters P /\ SeccompMode U = SeccompMode P).
Proof.
  revert i st ts' st'. induction ts as [|T ts IH]; intros i st ts' st'; simpl; [by intros [= <- <-]|].
  case_if H; [|destruct (incref st (Filters P)) as [st1|]; [|done]];
    (destruct (tsync p P (S i) ts _) as [[us ut]|] eqn:E; [|done]);
    intros [= <- <-] [|u] U; simpl; rewrite ?Nat.add_0_r, ?Nat.add_succ_r.
  1, 3: intros [= <-]; split; [intros Hp|intros Hp Hl]; try done.
  - rewrite Hl in H. apply Nat.eqb_neq in Hp. by rewrite Hp in H.
  - subst. by rewrite Nat.eqb_refl, orb_true_r in H.
  - intros HU. apply (IH _ _ _ _ E u U HU).
  - intros HU. apply (IH _ _ _ _ E u U HU).
Qed.

(** C32. For every process, started with any file of handed-over filters and
    after any sequence of installations, thread creations, teardowns and
    syscalls, evaluating a syscall on any thread finds every filter the thread
    points to still alive and returns the verdict of running all of them on
    the true syscall data: no use after free, no stale cached verdict.  Neither
    the syscalls of the sequence nor the last one have RIP 0 with number
    2^64 - 1, which an empty way of the cache answers
    ([Seccomp.Seccomp.empty_way_allows]).  Each operation is atomic: the ones
    that change the filters hold FilterMutex, but ExecuteFilter takes no lock, so
    a syscall that overlaps another thread's TSYNC is not covered. *)
Theorem seccomp_sound tid file n s t T Nr args rip :
  (forall f, file = Some f -> Forall (in_width 8) f) -> reached (start tid file) n s ->
  Z.of_nat n < 2 ^ 64 - 4 -> Threads s !! t = Some T -> in_syscall Nr rip args -> ~ empty_way_key rip Nr ->
  exists fs s', deref (Store s) (Filters T) = Some fs /\
    SysExecuteFilter s t Nr args rip = Some (reference (CurrentKillSignal s) fs Nr args rip, s').
Proof.
  intros Hb Hr Hn HT Hsys Hkey. destruct (start_inv tid file Hb) as [H0 Hg0].
  destruct (reached_inv _ _ _ H0 Hr) as [HI _]; [lia|].
  destruct (syscall_inv s t T Nr args rip HI HT Hsys Hkey) as (fs & s' & ? & ? & _). by exists fs, s'.
Qed.

(** C34. execve keeps a thread's filters: the file written for a thread in a
    seccomp mode, read by the new process, gives its first thread the same
    filters in the same order and the same mode, in a state satisfying the
    registry's invariant. *)
Theorem filters_survive_execve s t T file tid :
  Inv s -> Threads s !! t = Some T -> in_width 32 (SeccompMode T) ->
  Z.of_nat (length (Filters T)) < 2 ^ 64 -> SerializeFilters s T = Some (Some file) ->
  exists T', Threads (DeserializeFilters (init tid) 0 file) !! 0%nat = Some T' /\
    SeccompMode T' = SeccompMode T /\
    deref (Store (DeserializeFilters (init tid) 0 file)) (Filters T') = deref (Store s) (Filters T) /\
    Inv (DeserializeFilters (init tid) 0 file).
Proof.
  intros HI HT Hm Hlen. unfold SerializeFilters. case_if Hd; [done|].
  destruct (deref (Store s) (Filters T)) as [fs|] eqn:Hfs; [|done].
  intros Hfile. apply (inj Some), (inj Some) in Hfile as <-.
  assert (Hlf : length fs = length (Filters T)) by (unfold deref in Hfs; symmetry; by apply length_mapM in Hfs).
  assert (Hinst : Forall installed fs).
  { unfold deref in Hfs. apply mapM_Some in Hfs. clear -HI Hfs. induction Hfs as [|i f ids fs Hi _ IH]; [done|].
    constructor; [|done]. destruct (Store s !! i) as [e|] eqn:He; simplify_eq/=. by apply (inv_ok _ HI i). }
  unfold DeserializeFilters. rewrite !(app_assoc (to_le 4 _)), !(app_assoc (to_le 8 _)).
  rewrite read_file_app by (rewrite !length_app, !length_to_le; done). cbv zeta.
  rewrite <- (app_assoc (to_le 8 _)).
  rewrite take_app_length', drop_app_length', take_app_length' by (by rewrite length_to_le).
  rewrite !from_to_le, !wrap_small by (done || (unfold in_width; lia)).
  destruct (deserialize_filters fs (length (concat (map bytes_of_filter fs))) (init tid) 0
    (mkThread tid true SECCOMP_MODE_DISABLED [] fresh_cache) []) as (s1 & T1 & -> & HB & HT1 & Hd1 & Hg1);
    [apply base_of_inv, init_inv|done|done|done| |].
  { clear. induction fs as [|f fs IH]; [done|]. cbn [map concat length].
    assert (8 <= length (bytes_of_filter f))%nat
      by (unfold bytes_of_filter; rewrite !length_app, !length_to_le; lia).
    rewrite length_app. lia. }
  unfold set_mode. rewrite HT1. eexists. split; [cbn; by rewrite list_lookup_insert_eq by (by eapply lookup_lt_Some)|].
  split; [done|]. split; [done|]. apply bump_inv; [|cbn; rewrite Hg1; cbn; lia].
  destruct HB as [B1 B2 B3 B4 B5]. split; cbn; try done.
  - eapply covers_ext; [|exact B1]. intros i. pose proof (refs_insert _ _ _
      (mkThread (TID T1) (Listed T1) (SeccompMode T) (Filters T1) (SeccompCache T1)) i HT1) as Hr.
    unfold cnt in Hr. cbn in Hr. lia.
  - apply Forall_insert; [done|]. by apply (Forall_lookup_1 _ _ _ _ B5 HT1).
Qed.

(** C35. Installing a filter is all or nothing.  A nonzero result leaves the
    registry exactly as it was, a null program included; result 0 means the
    program was accepted by the validator and is now the calling thread's newest
    filter, in filter mode, and with TSYNC every listed thread has the caller's
    filters and mode. *)
Theorem set_mode_filter_atomic s t T flags prog nnp r s' :
  Threads s !! t = Some T -> SetModeFilter s t flags prog nnp = Some (r, s') ->
  (r <> 0 -> s' = s) /\
  (r = 0 -> (exists p, prog = Some p /\ ValidateProgram p = 0) /\ nnp = true /\
    (exists T', Threads s' !! t = Some T' /\ Filters T' = Filters T ++ [NextFilter s] /\
       SeccompMode T' = SECCOMP_MODE_FILTER) /\
    (has_flag flags FLAG_TSYNC = true -> forall u U, Threads s' !! u = Some U -> Listed U = true ->
       Filters U = Filters T ++ [NextFilter s] /\ SeccompMode U = SECCOMP_MODE_FILTER)).
Proof.
  intros HT. unfold SetModeFilter. rewrite HT. cbv zeta.
  do 2 (case_if H; [by intros [= <- <-]|]). destruct prog as [prog|]; [|by intros [= <- <-]]. case_if Hn; [by intros [= <- <-]|].
  do 2 (case_if H; [by intros [= <- <-]|]).
  case_if Hts; [intros [= <- <-]; split; [done|]; case_if He; [done|intros Hz; by rewrite Hz in Hts]|].
  case_if Hv; [|intros [= <- <-]; split; [done|intros Hz; by rewrite Hz in Hv]].
  apply Z.eqb_eq in Hv. set (s1 := append_filter s t T _ _).
  set (T1 := mkThread (TID T) (Listed T) SECCOMP_MODE_FILTER (Filters T ++ [NextFilter s]) (SeccompCache T)).
  assert (HT1 : Threads s1 !! t = Some T1)
    by (unfold s1; cbn; by rewrite list_lookup_insert_eq by (by eapply lookup_lt_Some)).
  apply negb_false_iff in Hn.
  destruct (has_flag flags FLAG_TSYNC) eqn:Hf.
  - destruct (TSyncFilters s1 t) as [s2|] eqn:Hs2; [|done]. intros [= <- <-]. split; [done|]. intros _.
    pose proof (tsync_length _ _ _ Hs2) as Hlen. unfold TSyncFilters in Hs2. rewrite HT1 in Hs2.
    destruct (tsync t T1 0 _ _) as [[ts st]|] eqn:Hts2; [|done]. injection Hs2 as <-.
    pose proof (tsync_all _ _ _ _ _ _ _ Hts2) as Hall. cbn [Threads bump_generation set_threads] in *.
    split_and!; [by exists prog|done| |].
    + destruct (lookup_lt_is_Some_2 ts t) as [U HU]; [rewrite Hlen; by eapply lookup_lt_Some|].
      destruct (Hall t U HU) as [Hsame _]. rewrite HT1 in Hsame. specialize (Hsame eq_refl) as [= <-]. by exists T1.
    + intros _ u U HU Hl. destruct (Hall u U HU) as [Hsame Hoth]. destruct (decide (u = t)) as [->|Hne].
      * rewrite HT1 in Hsame. by specialize (Hsame eq_refl) as [= <-].
      * by apply Hoth.
  - intros [= <- <-]. split; [done|]. intros _. split_and!; [by exists prog|done| |done]. by exists T1.
Qed.

(** C36. Strict mode is reported even when its filter could not be installed:
    once the process's instruction budget is used up, [SetModeStrict] on a
    thread without filters returns 0 and sets the mode, but the thread still
    has no filter and every syscall is allowed. *)
Theorem strict_mode_fails_open s t T :
  Threads s !! t = Some T -> SeccompMode T = SECCOMP_MODE_DISABLED -> Filters T = [] ->
  BPF_MAX_INSNS_PER_PATH - 12 < TotalFilterInstructions s <= BPF_MAX_INSNS_PER_PATH ->
  exists s' T', SetModeStrict s t 0 true true = Some (0, s') /\ Threads s' !! t = Some T' /\
    SeccompMode T' = SECCOMP_MODE_STRICT /\ Filters T' = [] /\
    forall Nr args rip, exists s'', SysExecuteFilter s' t Nr args rip = Some (allow_result, s'').
Proof.
  unfold BPF_MAX_INSNS_PER_PATH. intros HT Hm Hf Hb. unfold SetModeStrict. rewrite HT, Hm. cbn [negb Z.eqb].
  assert (SetModeFilter (set_kill s SIGKILL) t 0 (Some strict_filter_arm64) true
          = Some (- ENOMEM, set_kill s SIGKILL)) as ->.
  { unfold SetModeFilter. cbn [set_kill Threads TotalFilterInstructions]. rewrite HT, Hf.
    cbn -[u64 Z.gtb]. replace (u64 _) with (TotalFilterInstructions s + 12) by
      (symmetry; unfold u64, BPF_MULTIFILTERPENALTY; cbn -[wrap Z.add]; rewrite Z.add_0_r; apply wrap_small;
       unfold in_width; lia).
    unfold BPF_MAX_INSNS_PER_PATH. by rewrite (proj2 (Z.gtb_lt (_ + 12) _)) by lia. }
  eexists _, (mkThread (TID T) (Listed T) SECCOMP_MODE_STRICT [] (SeccompCache T)).
  split; [done|]. unfold set_mode. cbn [set_kill Threads]. rewrite HT. cbn [Threads set_threads].
  rewrite Hf, list_lookup_insert_eq by (by eapply lookup_lt_Some). split_and!; [done..|].
  intros Nr args rip. unfold SysExecuteFilter. cbn [Threads set_threads].
  rewrite list_lookup_insert_eq by (by eapply lookup_lt_Some). cbn. by eexists.
Qed.

(** A process that installs a filter, starts a thread, makes a syscall and
    then frees its first thread. *)
Definition after (s : Sys) (o : op) : Sys := default s (apply_op s o).
Definition sample1 : Sys := after (start 100 None) (OpFilter 0 0 (Some (Program sample_filter)) true).
Definition sample2 : Sys := after sample1 (OpInherit 0 101).
Definition sample3 : Sys := after sample2 (OpSyscall 0 63 [0;0;0;0;0;0] 0x401000).
Definition sample4 : Sys := after sample3 (OpFree 0).

Lemma sample_reached : reached (start 100 None) 4 sample4.
Proof.
  assert (Hi : Forall inst_ok (Program sample_filter)) by apply sample_filter_ok.
  apply (reached_op _ 3 sample3 (OpFree 0)); [|split; [vm_compute; lia|done]|vm_compute; reflexivity].
  apply (reached_op _ 2 sample2 (OpSyscall 0 63 [0;0;0;0;0;0] 0x401000)); [| |vm_compute; reflexivity].
  2: { split; [vm_compute; lia|]. unfold in_syscall, in_width, empty_way_key. cbn. lia. }
  apply (reached_op _ 1 sample1 (OpInherit 0 101)); [|split; [vm_compute; lia|done]|vm_compute; reflexivity].
  apply (reached_op _ 0 (start 100 None) (OpFilter 0 0 (Some (Program sample_filter)) true));
    [apply reached_start|split; [vm_compute; lia|done]|vm_compute; reflexivity].
Qed.

(** The child still has the filter, which kills below the address. *)
Lemma seccomp_sound_witness :
  exists fs s', deref (Store sample4) [0%nat] = Some fs /\
    SysExecuteFilter sample4 1 63 [0;0;0;0;0;0] 0x1000 = Some (reference 31 fs 63 [0;0;0;0;0;0] 0x1000, s').
Proof.
  apply (seccomp_sound 100 None 4 sample4 1 (mkThread 101 false 2 [0%nat] fresh_cache)).
  - done.
  - apply sample_reached.
  - lia.
  - vm_compute. reflexivity.
  - unfold in_syscall, in_width. cbn. lia.
  - unfold empty_way_key. lia.
Defined.

Lemma sample1_inv : Inv sample1.
Proof.
  destruct (op_inv (init 100) (OpFilter 0 0 (Some (Program sample_filter)) true)) as (s & Hs & HI & _).
  - apply init_inv.
  - vm_compute. reflexivity.
  - split; [cbn; lia|apply sample_filter_ok].
  - unfold sample1, after. cbn [start]. by rewrite Hs.
Qed.

Definition sample_thread : Thread := mkThread 100 true 2 [0%nat] fresh_cache.
Definition sample_file : list Z := default [] (default None (SerializeFilters sample1 sample_thread)).

Definition exhausted : Sys := mkSys ∅ 0 [mkThread 100 true 0 [] fresh_cache] 9 32768 SIGSYS.

Lemma filters_survive_execve_witness :
  exists T', Threads (DeserializeFilters (init 200) 0 sample_file) !! 0%nat = Some T' /\
    SeccompMode T' = 2 /\ Inv (DeserializeFilters (init 200) 0 sample_file).
Proof.
  destruct (filters_survive_execve sample1 0 sample_thread sample_file 200) as (T' & H1 & H2 & _ & H4).
  - apply sample1_inv.
  - vm_compute. reflexivity.
  - unfold in_width. cbn. lia.
  - cbn. lia.
  - vm_compute. reflexivity.
  - exists T'. split; [exact H1|split; [exact H2|exact H4]].
Defined.

Lemma set_mode_filter_atomic_witness :
  (exists T', Threads sample1 !! 0%nat = Some T' /\ Filters T' = [0%nat]) /\
  snd <$> SetModeFilter (init 100) 0 0 (Some [mkInst 0x20 0 0 1]) true = Some (init 100).
Proof.
  split.
  - destruct (set_mode_filter_atomic (init 100) 0 (mkThread 100 true 0 [] fresh_cache) 0
      (Some (Program sample_filter)) true 0 sample1) as [_ H]; [done|vm_compute; reflexivity|].
    destruct (H eq_refl) as (_ & _ & (T' & HT & Hf & _) & _). exists T'. split; [exact HT|exact Hf].
  - vm_compute. reflexivity.
Defined.

Lemma strict_mode_fails_open_witness :
  exists s' T', SetModeStrict exhausted 0 0 true true = Some (0, s') /\ Threads s' !! 0%nat = Some T' /\
    SeccompMode T' = 1 /\ Filters T' = [].
Proof.
  destruct (strict_mode_fails_open exhausted 0 (mkThread 100 true 0 [] fresh_cache)) as (s' & T' & H1 & H2 & H3 & H4 & _);
    [done|done|done|cbn; unfold BPF_MAX_INSNS_PER_PATH; lia|]. exists s', T'. split; [exact H1|]. split; [exact H2|].
  split; [exact H3|exact H4].
Defined.

End SeccompSys.
