(* ===== verification/A64Common.v ===== *)
(** Field extraction and immediate decoding of the A64 translators
    (FEXCore/Source/Interface/Core/A64Frontend/TranslateCommon.h), next to the
    Arm pseudocode they implement: [SignExtend], [DecodeBitMasks] and the
    condition mapping. *)
From S2P Require Import Prelude.

(** ** [Bits], [Bit], [SignExtend] *)

Definition Bits (Word Hi Lo : Z) : Z :=
  Z.land (Z.shiftr Word Lo) (Z.shiftl 1 (Hi - Lo + 1) - 1).

Definition Bit (Word Index : Z) : bool := negb (Z.land (Z.shiftr Word Index) 1 =? 0).

(** The shift left is on [uint64_t], the shift right on [int64_t]; the result
    is a signed value. *)
Definition SignExtend (Value Width : Z) : Z :=
  let Shift := 64 - Width in Z.shiftr (sgn 64 (Z.shiftl Value Shift)) Shift.

(** ** [DecodeBitMasks] *)

(** The lambda [Ones]. *)
Definition OnesN (N : Z) : Z := if N >=? 64 then 2 ^ 64 - 1 else Z.shiftl 1 N - 1.

Definition RotateRight (ESize Value Amount : Z) : Z :=
  let Mask := OnesN ESize in
  let Value := Z.land Value Mask in
  let Amount := Amount mod ESize in
  if Amount =? 0 then Value
  else Z.land (Z.lor (Z.shiftr Value Amount) (u64 (Z.shiftl Value (ESize - Amount)))) Mask.

(** The loop [for (i = 0; i < DataSize; i += ESize)]; [n] counts its
    iterations. *)
Fixpoint replicate_loop (n : nat) (DataSize ESize Element i Result : Z) : Z :=
  match n with
  | O => Result
  | S n =>
      if i <? DataSize then
        replicate_loop n DataSize ESize Element (i + ESize) (Z.lor Result (u64 (Z.shiftl Element i)))
      else Result
  end.

Definition Replicate (DataSize ESize Element : Z) : Z :=
  Z.land (replicate_loop (S (Z.to_nat (DataSize / ESize))) DataSize ESize Element 0 0) (OnesN DataSize).

(** The result is the pair of masks; the callers that pass a null pointer
    ignore one of them. *)
Definition DecodeBitMasks (ImmN : bool) (ImmS ImmR : Z) (Immediate : bool) (DataSize : Z)
  : option (Z * Z) :=
  let Combined := Z.lor (Z.shiftl (b2z ImmN) 6) (Z.land (Z.lnot ImmS) 0x3F) in
  if Combined =? 0 then None
  else
    let Len := Z.log2 Combined in
    if Len <? 1 then None
    else
      let Levels := Z.shiftl 1 Len - 1 in
      if Immediate && (Z.land ImmS Levels =? Levels) then None
      else
        let S := Z.land ImmS Levels in
        let R := Z.land ImmR Levels in
        let Diff := Z.land (S - R) 0x3F in
        let ESize := Z.shiftl 1 Len in
        let D := Z.land Diff Levels in
        Some (Replicate DataSize ESize (RotateRight ESize (OnesN (S + 1)) R),
              Replicate DataSize ESize (OnesN (D + 1))).

(** ** [MapCondition] *)

Inductive CondClass :=
  | EQ | NEQ | UGE | ULT | MI | PL | VS | VC | UGT | ULE | SGE | SLT | SGT | SLE | AL.
#[export] Instance CondClass_eq_dec : EqDecision CondClass.
Proof. solve_decision. Defined.

Definition MapCondition (Cond : Z) : CondClass :=
  match Cond with
  | 0 => EQ | 1 => NEQ | 2 => UGE | 3 => ULT | 4 => MI | 5 => PL | 6 => VS | 7 => VC
  | 8 => UGT | 9 => ULE | 10 => SGE | 11 => SLT | 12 => SGT | 13 => SLE | _ => AL
  end.

(** ** Meaning of the field accessors *)

Lemma Bits_wrap Word Hi Lo : 0 <= Lo <= Hi -> Bits Word Hi Lo = wrap (Hi - Lo + 1) (Z.shiftr Word Lo).
Proof. intros H. unfold Bits. rewrite Z.shiftl_1_l, pow2_pred_ones. apply land_wrap. lia. Qed.

Lemma Bits_range Word Hi Lo : 0 <= Lo <= Hi -> 0 <= Bits Word Hi Lo < 2 ^ (Hi - Lo + 1).
Proof. intros H. rewrite Bits_wrap by done. apply wrap_range. lia. Qed.

Lemma testbit_Bits Word Hi Lo i :
  0 <= Lo <= Hi -> 0 <= i -> Z.testbit (Bits Word Hi Lo) i = (i <=? Hi - Lo) && Z.testbit Word (i + Lo).
Proof.
  intros H Hi'. rewrite Bits_wrap, testbit_wrap, Z.shiftr_spec by lia.
  f_equal. destruct (Z.ltb_spec i (Hi - Lo + 1)), (Z.leb_spec i (Hi - Lo)); lia.
Qed.

Lemma Bit_testbit Word Index : 0 <= Index -> Bit Word Index = Z.testbit Word Index.
Proof.
  intros H. unfold Bit. change 1 with (Z.ones 1). rewrite land_wrap by lia.
  replace Index with (0 + Index) at 2 by lia. rewrite <- Z.shiftr_spec by lia.
  unfold wrap. change (2 ^ 1) with 2. pose proof (Z.bit0_mod (Z.shiftr Word Index)) as Hb.
  rewrite <- Hb. by destruct (Z.testbit (Z.shiftr Word Index) 0).
Qed.

(** [SignExtend] reads the low [Width] bits as two's complement. *)
Lemma SignExtend_sgn Value Width : 0 < Width <= 64 -> SignExtend Value Width = sgn Width Value.
Proof.
  intros HW. unfold SignExtend. rewrite Z.shiftr_div_pow2, Z.shiftl_mul_pow2 by lia.
  unfold sgn. assert (Hm : (Value * 2 ^ (64 - Width)) mod 2 ^ 64 = (Value mod 2 ^ Width) * 2 ^ (64 - Width)).
  { replace (2 ^ 64) with (2 ^ Width * 2 ^ (64 - Width)) by (rewrite <- Z.pow_add_r by lia; f_equal; lia).
    apply Z.mul_mod_distr_r; apply Z.pow_nonzero; lia. }
  rewrite Hm. assert (0 < 2 ^ (64 - Width)) by (apply Z.pow_pos_nonneg; lia).
  assert (Hh : 2 ^ (64 - 1) = 2 ^ (Width - 1) * 2 ^ (64 - Width)) by (rewrite <- Z.pow_add_r by lia; f_equal; lia).
  assert (Hf : 2 ^ 64 = 2 ^ Width * 2 ^ (64 - Width)) by (rewrite <- Z.pow_add_r by lia; f_equal; lia).
  rewrite Hh, Hf. set (p := 2 ^ (64 - Width)) in *. set (v := Value mod 2 ^ Width).
  destruct (Z.ltb_spec (v * p) (2 ^ (Width - 1) * p)) as [H1|H1], (Z.ltb_spec v (2 ^ (Width - 1))) as [H2|H2]; try nia.
  - apply Z.div_mul. lia.
  - rewrite <- Z.mul_sub_distr_r. apply Z.div_mul. lia.
Qed.

(** ** The Arm pseudocode *)

(** [DecodeBitMasks]: bit [i] of the two masks, or [None] for UNDEFINED. *)
Definition ArmDecodeBitMasks (immN : bool) (imms immr : Z) (immediate : bool) (M : Z)
  : option ((Z -> bool) * (Z -> bool)) :=
  let len := Z.log2 (Z.lor (if immN then 64 else 0) (63 - imms)) in
  if ((negb immN) && (imms =? 63)) || (len <? 1) then None
  else
    let esize := 2 ^ len in
    let S := imms mod esize in
    let R := immr mod esize in
    if immediate && (S =? esize - 1) then None
    else
      let d := (S - R) mod esize in
      Some (fun i => ((i mod esize + R) mod esize <=? S), fun i => i mod esize <=? d).

(** Bits of the helpers. *)
Lemma testbit_OnesN N i : 0 <= N <= 64 -> 0 <= i -> Z.testbit (OnesN N) i = (i <? N).
Proof.
  intros HN Hi. unfold OnesN. destruct (Z.geb_spec N 64).
  - replace N with 64 by lia. rewrite pow2_pred_ones. apply Z.testbit_ones_nonneg; lia.
  - rewrite Z.shiftl_1_l, pow2_pred_ones. apply Z.testbit_ones_nonneg; lia.
Qed.

Lemma testbit_RotateRight E v a i :
  0 < E <= 64 -> in_width E v -> 0 <= a < E -> 0 <= i < E ->
  Z.testbit (RotateRight E v a) i = Z.testbit v ((i + a) mod E).
Proof.
  intros HE Hv Ha Hi. unfold RotateRight. rewrite (Z.mod_small a) by lia.
  assert (Hland : Z.land v (OnesN E) = v).
  { apply Z.bits_inj'. intros j Hj. rewrite Z.land_spec, testbit_OnesN by lia.
    destruct (Z.ltb_spec j E); [apply andb_true_r|]. by rewrite (testbit_above E v) by (done || lia). }
  rewrite Hland. destruct (Z.eqb_spec a 0) as [->|Hne]; [by rewrite Z.add_0_r, Z.mod_small|].
  rewrite Z.land_spec, testbit_OnesN, Z.lor_spec, Z.shiftr_spec by lia.
  unfold u64. rewrite testbit_wrap, Z.shiftl_spec by lia.
  replace (i <? E) with true by lia. replace (i <? 64) with true by lia. rewrite andb_true_r. simpl.
  destruct (decide (i + a < E)).
  - rewrite (Z.mod_small (i + a)) by lia. rewrite (Z.testbit_neg_r v (i - _)) by lia. apply orb_false_r.
  - rewrite (testbit_above E v (i + a)) by (done || lia). simpl. f_equal.
    rewrite <- (Z.mod_small (i - (E - a)) E) by lia. replace (i + a) with (i - (E - a) + 1 * E) by lia.
    by rewrite Z.mod_add by lia.
Qed.

Lemma replicate_loop_spec E x m n k r :
  0 < E -> in_width E x -> 0 <= k <= m -> (Z.to_nat (m - k) < n)%nat ->
  (forall j, 0 <= j -> Z.testbit r j = (j <? k * E) && (j <? 64) && Z.testbit x (j mod E)) ->
  forall j, 0 <= j ->
  Z.testbit (replicate_loop n (m * E) E x (k * E) r) j = (j <? m * E) && (j <? 64) && Z.testbit x (j mod E).
Proof.
  intros HE Hx. revert k r. induction n as [|n IH]; intros k r Hk Hn Hr j Hj; [lia|].
  cbn [replicate_loop]. destruct (Z.ltb_spec (k * E) (m * E)) as [Hlt|Hge].
  - replace (k * E + E) with ((k + 1) * E) by lia. apply IH; [nia|nia| |done].
    clear j Hj. intros j Hj. unfold u64. rewrite Z.lor_spec, Hr, testbit_wrap, Z.shiftl_spec by lia.
    destruct (Z.ltb_spec j 64) as [H64|H64]; [|by rewrite !andb_false_r]. rewrite !andb_true_r. simpl.
    destruct (Z.ltb_spec j (k * E)), (Z.ltb_spec j ((k + 1) * E)); try lia; simpl.
    + rewrite (Z.testbit_neg_r x (j - _)) by lia. apply orb_false_r.
    + f_equal. rewrite <- (Z.mod_small (j - k * E) E) by lia. rewrite <- (Z.mod_add (j - k * E) k) by lia.
      f_equal. lia.
    + rewrite (testbit_above E x) by (done || lia). done.
  - assert (k = m) as -> by nia. rewrite Hr by done. done.
Qed.

Lemma testbit_Replicate E x m i :
  0 < E -> in_width E x -> 0 <= m -> 0 < m * E <= 64 -> 0 <= i < m * E ->
  Z.testbit (Replicate (m * E) E x) i = Z.testbit x (i mod E).
Proof.
  intros HE Hx Hm HD Hi. unfold Replicate. rewrite Z.land_spec, testbit_OnesN by lia.
  rewrite Z.div_mul by lia. rewrite (replicate_loop_spec E x m _ 0 0); try lia; try done.
  - replace (i <? m * E) with true by lia. replace (i <? 64) with true by lia. by rewrite andb_true_r.
  - intros j Hj. rewrite Z.bits_0. by destruct (Z.ltb_spec j (0 * E)); [lia|].
Qed.

(** The two UNDEFINED tests and the length agree: over the 64 values of
    [imms]. *)
Definition lengths_agree (immN : bool) (imms : Z) : bool :=
  let Combined := Z.lor (Z.shiftl (b2z immN) 6) (Z.land (Z.lnot imms) 0x3F) in
  let len := Z.log2 (Z.lor (if immN then 64 else 0) (63 - imms)) in
  (Combined =? Z.lor (if immN then 64 else 0) (63 - imms)) &&
  eqb (Combined =? 0) (negb immN && (imms =? 63)) && (len <=? 6) && (immN || (len <=? 5)).

Lemma lengths_checked immN imms : in_width 6 imms -> lengths_agree immN imms = true.
Proof.
  intros H. assert (Hall : forallb (fun n => lengths_agree immN (Z.of_nat n)) (seq 0 64) = true)
    by (destruct immN; vm_compute; reflexivity).
  rewrite forallb_forall in Hall. specialize (Hall (Z.to_nat imms)).
  unfold in_width in H. rewrite Z2Nat.id in Hall by lia. apply Hall, in_seq. lia.
Qed.

Lemma land_pow2_pred x len : 0 <= len -> Z.land x (Z.shiftl 1 len - 1) = x mod 2 ^ len.
Proof. intros H. rewrite Z.shiftl_1_l, pow2_pred_ones. by apply Z.land_ones. Qed.

Lemma OnesN_width N E : 0 <= N <= E -> E <= 64 -> in_width E (OnesN N).
Proof.
  intros HN HE. unfold OnesN, in_width. destruct (Z.geb_spec N 64).
  - replace E with 64 by lia. lia.
  - rewrite Z.shiftl_1_l. pose proof (Z.pow_le_mono_r 2 N E). pose proof (Z.pow_pos_nonneg 2 N). lia.
Qed.

Lemma RotateRight_width E v a : 0 < E <= 64 -> in_width E v -> 0 <= a -> in_width E (RotateRight E v a).
Proof.
  intros HE [Hv0 Hv] Ha. unfold RotateRight. pose proof (Z.mod_pos_bound a E).
  assert (Hb : forall y, 0 <= y -> in_width E (Z.land y (OnesN E))).
  { intros y Hy. apply in_width_bits; [lia|apply Z.land_nonneg; by left|]. intros i Hi.
    rewrite Z.land_spec, testbit_OnesN by lia. destruct (Z.ltb_spec i E); [lia|apply andb_false_r]. }
  assert (Hl : 0 <= Z.land v (OnesN E)) by (apply Z.land_nonneg; by left).
  destruct (_ =? 0); apply Hb; [done|]. apply Z.lor_nonneg. split; [by apply Z.shiftr_nonneg|].
  apply wrap_range. lia.
Qed.

(** For the sizes an encoding gives, [DecodeBitMasks] is the Arm pseudocode. *)
Lemma DecodeBitMasks_arm ImmN ImmS ImmR Immediate M :
  in_width 6 ImmS -> in_width 6 ImmR -> M = 64 \/ (M = 32 /\ ImmN = false) ->
  match DecodeBitMasks ImmN ImmS ImmR Immediate M, ArmDecodeBitMasks ImmN ImmS ImmR Immediate M with
  | None, None => True
  | Some (w, t), Some (fw, ft) => forall i, 0 <= i < M -> Z.testbit w i = fw i /\ Z.testbit t i = ft i
  | _, _ => False
  end.
Proof.
  intros HS HR HM. pose proof (lengths_checked ImmN ImmS HS) as Hl. unfold lengths_agree in Hl.
  rewrite !andb_true_iff in Hl. destruct Hl as [[[Hc Hz] H6] H5].
  apply Z.eqb_eq in Hc. apply eqb_prop in Hz. apply Z.leb_le in H6.
  unfold DecodeBitMasks, ArmDecodeBitMasks. rewrite Hz. rewrite Hc in *.
  set (len := Z.log2 _) in *. destruct (negb ImmN && (ImmS =? 63)); [done|]. cbn [orb].
  destruct (Z.ltb_spec len 1); [done|]. rewrite !land_pow2_pred by lia.
  rewrite Z.shiftl_1_l. set (E := 2 ^ len).
  assert (HE : 0 < E <= 64) by (unfold E; split; [apply Z.pow_pos_nonneg; lia|change 64 with (2 ^ 6); apply Z.pow_le_mono_r; lia]).
  pose proof (Z.mod_pos_bound ImmS E). pose proof (Z.mod_pos_bound ImmR E).
  destruct (Immediate && _); [done|].
  assert (HD : Z.land (ImmS mod E - ImmR mod E) 63 mod E = (ImmS mod E - ImmR mod E) mod E).
  { change 63 with (Z.ones 6). rewrite Z.land_ones by lia. apply Z.mod_mod_divide.
    exists (2 ^ (6 - len)). unfold E. rewrite <- Z.pow_add_r by lia. f_equal. lia. }
  rewrite HD. set (d := (_ - _) mod E). assert (0 <= d < E) by (apply Z.mod_pos_bound; lia).
  assert (Hm : exists m, M = m * E /\ 0 <= m /\ 0 < m * E <= 64).
  { destruct HM as [->|[-> ->]].
    - exists (2 ^ (6 - len)). unfold E. rewrite <- Z.pow_add_r by lia. replace (6 - len + len) with 6 by lia.
      pose proof (Z.pow_nonneg 2 (6 - len)). lia.
    - simpl in H5. exists (2 ^ (5 - len)). unfold E. rewrite <- Z.pow_add_r by lia. replace (5 - len + len) with 5 by lia.
      pose proof (Z.pow_nonneg 2 (5 - len)). lia. }
  destruct Hm as (m & -> & Hm0 & Hm64). intros i Hi. pose proof (Z.mod_pos_bound i E).
  rewrite !testbit_Replicate; try lia; try (apply OnesN_width; lia);
    try (apply RotateRight_width; [lia|apply OnesN_width; lia|lia]).
  rewrite testbit_RotateRight by (try apply OnesN_width; lia). rewrite !testbit_OnesN; try lia;
    apply Z.mod_pos_bound; lia.
Qed.
