(* ===== verification/IR.v ===== *)
(** The IR the A64 frontend emits, its meaning, and the emission helpers of
    the builder (FEXCore/Source/Interface/Core/A64Frontend/IRBuilder.cpp and
    .h, FEXCore/Source/Interface/IR/IREmitter.h): the constant pool and guest
    register access with its value cache.

    A translator appends operations to the current block; an SSA reference is
    the position of the operation that produced it.  [exec] is the meaning of
    a block: it folds the operations over the guest state and the values
    computed so far.  A 32-bit operation reads the low halves of its operands
    and defines only the low half of its result; the upper half is given by an
    arbitrary function [junk], so nothing proved here depends on it. *)
From S2P Require Import Prelude A64Common.

(** ** Operations *)

Inductive OpSize := i32Bit | i64Bit.
#[export] Instance OpSize_eq_dec : EqDecision OpSize.
Proof. solve_decision. Defined.

Definition bits (sz : OpSize) : Z := match sz with i32Bit => 32 | i64Bit => 64 end.

Notation Ref := nat (only parsing).

Inductive BinOp := Add | Sub | And | Or | Xor | Lshl | Lshr | Ashr | Ror | Mul | MulH | UMulH | Adc | Sbb.
Inductive UnOp := Not | Neg | Rbit | Rev | CountLeadingZeroes | FindTrailingZeroes.
Inductive FlagOp := AddWithFlags | SubWithFlags | AndWithFlags | AdcWithFlags | SbbWithFlags.

(** The guest signal a [Break] raises. *)
Record BreakDefinition := mkBreak { ErrorRegister : Z; Signal : Z; TrapNumber : Z; si_code : Z }.

Inductive MemOffsetType := SXTX | UXTW | SXTW.
Inductive FenceType := FenceAcquire | FenceStore | FenceLoadStore.

(** What the host's prediction of returns is told about an exit. *)
Inductive BranchHint := HintNone | HintCall | HintReturn.

(** The condition of a [CondJump]: on the flags ([FromNZCV]), a comparison, or a
    bit of [Value] (TSTZ and TSTNZ). *)
Inductive JumpCond :=
  | JNZCV (Cond : CondClass)
  | JCompare (Cond : CondClass) (Size : OpSize) (Cmp1 Cmp2 : Ref)
  | JTest (NonZero : bool) (Value BitNumber : Ref).

(** [OStoreContextPC] is the store to [CPUState::pc]; [OGuestOpcode] is a
    marker, of the guest instruction the operations after it belong to.  The
    size of a memory access is its number of bytes; a missing offset is
    [Invalid()].  The targets of an [OCondJump] are set apart from it, in the
    builder. *)
Inductive op :=
  | OConstant (c : Z)
  | OEntrypointOffset (Offset : Z)
  | OLoadRegister (Slot : nat)
  | OStoreRegister (Slot : nat) (Value : Ref)
  | OLoadContext (Index : nat)
  | OStoreContext (Index : nat) (Value : Ref)
  | OBin (o : BinOp) (Size : OpSize) (Src1 Src2 : Ref)
  | OUn (o : UnOp) (Size : OpSize) (Src : Ref)
  | OFlags (o : FlagOp) (Size : OpSize) (Src1 Src2 : Ref)
  | OAddNZCV (Size : OpSize) (Src1 Src2 : Ref)
  | OSubNZCV (Size : OpSize) (Src1 Src2 : Ref)
  | OCondAddNZCV (Size : OpSize) (Src1 Src2 : Ref) (Cond : CondClass) (FalseNZCV : Z)
  | OCondSubNZCV (Size : OpSize) (Src1 Src2 : Ref) (Cond : CondClass) (FalseNZCV : Z)
  | OBfe (Size : OpSize) (Width lsb : Z) (Src : Ref)
  | OSbfe (Size : OpSize) (Width lsb : Z) (Src : Ref)
  | OBfi (Size : OpSize) (Width lsb : Z) (Dest Src : Ref)
  | OBfxil (Size : OpSize) (Width lsb : Z) (Dest Src : Ref)
  | OExtr (Size : OpSize) (Upper Lower : Ref) (LSB : Z)
  | OSelect (ResultSize CompareSize : OpSize) (Cond : CondClass) (Cmp1 Cmp2 TrueVal FalseVal : Ref)
  | ONZCVSelect (ResultSize : OpSize) (Cond : CondClass) (TrueVal FalseVal : Ref)
  | OMulAdd (Size : OpSize) (Src1 Src2 Addend : Ref)
  | OSMull (Src1 Src2 : Ref)
  | OAllocateGPR
  | OUDiv (Size : OpSize) (Lower Divisor Quotient Remainder : Ref)
  | ODiv (Size : OpSize) (Lower Divisor Quotient Remainder : Ref)
  | OGuestOpcode (Offset : Z)
  | OStoreContextPC (Value : Ref)
  | OBreak (Reason : BreakDefinition)
  | OInlineConstant (c : Z)
  | OLoadMem (Size : nat) (Addr : Ref) (Offset : option Ref) (OffsetType : MemOffsetType) (OffsetScale : Z)
  | OStoreMem (Size : nat) (Value Addr : Ref) (Offset : option Ref) (OffsetType : MemOffsetType) (OffsetScale : Z)
  | OLoadMemRev (Size : nat) (Addr : Ref)
  | OStoreMemRev (Size : nat) (Addr Value : Ref)
  | OPrefetch (ForStore Stream : bool) (CacheLevel : Z) (Addr : Ref) (Offset : option Ref) (OffsetType : MemOffsetType) (OffsetScale : Z)
  | OFence (Fence : FenceType)
  | OCacheLineZero (Addr : Ref)
  | OICacheInvalidate (Addr : Ref)
  | OInlineEntrypointOffset (Offset : Z)
  | OJump (TargetBlock : nat)
  | OCondJump (Cond : JumpCond)
  | OExitFunction (NewPC : Ref) (Hint : BranchHint) (CallReturnAddress : option Ref).

(** [GetOpSize]: the [DestSize] of the operation.  It is only compared with 64
    bits, so a narrower load counts as a 32-bit operation. *)
Definition op_size (o : op) : OpSize :=
  match o with
  | OLoadMem n _ _ _ _ | OLoadMemRev n _ => if (n =? 8)%nat then i64Bit else i32Bit
  | OBin _ sz _ _ | OUn _ sz _ | OFlags _ sz _ _ | OAddNZCV sz _ _ | OSubNZCV sz _ _
  | OCondAddNZCV sz _ _ _ _ | OCondSubNZCV sz _ _ _ _ | OBfe sz _ _ _ | OSbfe sz _ _ _
  | OBfi sz _ _ _ _ | OBfxil sz _ _ _ _ | OExtr sz _ _ _ | OSelect sz _ _ _ _ _ _
  | ONZCVSelect sz _ _ _ | OMulAdd sz _ _ _ | OUDiv sz _ _ _ _ | ODiv sz _ _ _ _ => sz
  | _ => i64Bit
  end.

(** ** Guest state *)

Record NZCV := mkNZCV { FN : bool; FZ : bool; FC : bool; FV : bool }.

(** The bytes of guest memory and where the host lets them be read and
    written. *)
Record Memory := mkMemory { Byte : Z -> Z; Readable : Z -> bool; Writable : Z -> bool }.

(** Why the execution of a block stops: a signal that was raised, an access that
    faults, a jump to a block of the unit, the conditional jump at a position
    that is taken or not, or an exit from the unit to a guest address. *)
Inductive StopReason :=
  | SBreak (r : BreakDefinition) | SFault (Write : bool) (Address : Z)
  | SJump (Block : nat) | SCond (Jump : Ref) (Taken : bool) | SExit (NewPC : Z) (Hint : BranchHint).

(** The guest is stopped by a signal or a fault. *)
Definition trapped (g : option StopReason) : bool := match g with Some (SBreak _) | Some (SFault _ _) => true | _ => false end.

(** [Regs]: X0-X30 and, at index 31, SP; [PCSlot]: [CPUState::pc], which is
    only current when the block is left; [Marker]: the guest PC of the last
    marker, which a fault is attributed to. *)
Record Guest := mkGuest { Regs : list Z; Flags : NZCV; PCSlot : Z; Mem : Memory; Marker : Z; Stop : option StopReason }.

Definition reg (g : Guest) (n : nat) : Z := nth n (Regs g) 0.
Definition set_reg (g : Guest) (n : nat) (v : Z) : Guest := mkGuest (<[n := v]> (Regs g)) (Flags g) (PCSlot g) (Mem g) (Marker g) (Stop g).
Definition set_flags (g : Guest) (f : NZCV) : Guest := mkGuest (Regs g) f (PCSlot g) (Mem g) (Marker g) (Stop g).
Definition set_pcslot (g : Guest) (pc : Z) : Guest := mkGuest (Regs g) (Flags g) pc (Mem g) (Marker g) (Stop g).
Definition set_mem (g : Guest) (m : Memory) : Guest := mkGuest (Regs g) (Flags g) (PCSlot g) m (Marker g) (Stop g).
Definition set_marker (g : Guest) (pc : Z) : Guest := mkGuest (Regs g) (Flags g) (PCSlot g) (Mem g) pc (Stop g).
Definition set_stop (g : Guest) (r : StopReason) : Guest := mkGuest (Regs g) (Flags g) (PCSlot g) (Mem g) (Marker g) (Some r).
Definition set_trap (g : Guest) (r : BreakDefinition) : Guest := set_stop g (SBreak r).

(** A guest that runs. *)
Definition guest_ok (g : Guest) : Prop := length (Regs g) = 32%nat /\ Forall (in_width 64) (Regs g) /\ Stop g = None.

(** Memory accesses: [n] bytes from [a], little-endian, where addresses wrap.
    An access with a byte that is out of reach has no effect. *)
Definition addresses (n : nat) (a : Z) : list Z := map (fun i => u64 (a + Z.of_nat i)) (seq 0 n).
Definition read_bytes (n : nat) (a : Z) (m : Memory) : list Z := map (fun x => u8 (Byte m x)) (addresses n a).
Definition write_byte (f : Z -> Z) (p : Z * Z) : Z -> Z := fun x => if x =? p.1 then p.2 else f x.
Definition write_bytes (l : list Z) (a : Z) (m : Memory) : Memory :=
  mkMemory (foldl write_byte (Byte m) (zip (addresses (length l) a) l)) (Readable m) (Writable m).
Definition readable (n : nat) (a : Z) (m : Memory) : bool := forallb (Readable m) (addresses n a).
Definition writable (n : nat) (a : Z) (m : Memory) : bool := forallb (Writable m) (addresses n a).

(** [StaticGPRGuestReg]: the guest registers held in host registers. *)
Definition StaticGPRGuestReg : list nat := [0; 1; 2; 3; 4; 5; 6; 7; 8; 19; 20; 21; 22; 23; 29; 30; 31]%nat.

(** ** Meaning of the operations *)

Definition bin (o : BinOp) (N a b : Z) (C : bool) : Z :=
  match o with
  | Add => wrap N (a + b)
  | Sub => wrap N (a - b)
  | And => Z.land a b
  | Or => Z.lor a b
  | Xor => Z.lxor a b
  | Lshl => wrap N (Z.shiftl a (b mod N))
  | Lshr => Z.shiftr a (b mod N)
  | Ashr => wrap N (Z.shiftr (sgn N a) (b mod N))
  | Ror => wrap N (Z.lor (Z.shiftr a (b mod N)) (Z.shiftl a (N - b mod N)))
  | Mul => wrap N (a * b)
  | MulH => wrap N (sgn N a * sgn N b / 2 ^ N)
  | UMulH => a * b / 2 ^ N
  | Adc => wrap N (a + b + b2z C)
  | Sbb => wrap N (a - b - (1 - b2z C))
  end.

Definition clz (N a : Z) : Z := if a =? 0 then N else N - 1 - Z.log2 a.

(** The number of clear bits below the lowest set one, [N] for zero. *)
Fixpoint ctz_from (n : nat) (i a : Z) : Z :=
  match n with
  | O => i
  | S n => if Z.testbit a i then i else ctz_from n (i + 1) a
  end.
Definition ctz (N a : Z) : Z := ctz_from (Z.to_nat N) 0 a.

Definition un (o : UnOp) (N a : Z) : Z :=
  match o with
  | Not => wrap N (Z.lnot a)
  | Neg => wrap N (- a)
  | Rbit => of_bits (Z.to_nat N) (fun i => Z.testbit a (N - 1 - i))
  | Rev => of_bits (Z.to_nat N) (fun i => Z.testbit a ((N / 8 - 1 - i / 8) * 8 + i mod 8))
  | CountLeadingZeroes => clz N a
  | FindTrailingZeroes => ctz N a
  end.

Definition nz_flags (N r : Z) (C V : bool) : NZCV := mkNZCV (Z.testbit r (N - 1)) (r =? 0) C V.

Definition add_flags (N a b c : Z) : NZCV :=
  let r := wrap N (a + b + c) in
  nz_flags N r (2 ^ N <=? a + b + c) (negb (sgn N r =? sgn N a + sgn N b + c)).

(** Arm polarity: [c] is 1 when there is no borrow in, C is set when there is
    none out. *)
Definition sub_flags (N a b c : Z) : NZCV :=
  let r := wrap N (a - b - (1 - c)) in
  nz_flags N r (b + (1 - c) <=? a) (negb (sgn N r =? sgn N a - sgn N b - (1 - c))).

Definition flag_op (o : FlagOp) (N a b : Z) (C : bool) : Z * NZCV :=
  match o with
  | AddWithFlags => (wrap N (a + b), add_flags N a b 0)
  | SubWithFlags => (wrap N (a - b), sub_flags N a b 1)
  | AndWithFlags => (Z.land a b, nz_flags N (Z.land a b) false false)
  | AdcWithFlags => (wrap N (a + b + b2z C), add_flags N a b (b2z C))
  | SbbWithFlags => (wrap N (a - b - (1 - b2z C)), sub_flags N a b (b2z C))
  end.

Definition nzcv_cond (c : CondClass) (f : NZCV) : bool :=
  match c with
  | EQ => FZ f | NEQ => negb (FZ f) | UGE => FC f | ULT => negb (FC f)
  | MI => FN f | PL => negb (FN f) | VS => FV f | VC => negb (FV f)
  | UGT => FC f && negb (FZ f) | ULE => negb (FC f && negb (FZ f))
  | SGE => eqb (FN f) (FV f) | SLT => negb (eqb (FN f) (FV f))
  | SGT => eqb (FN f) (FV f) && negb (FZ f) | SLE => negb (eqb (FN f) (FV f) && negb (FZ f))
  | AL => true
  end.

Definition nzcv_of (v : Z) : NZCV := mkNZCV (Z.testbit v 3) (Z.testbit v 2) (Z.testbit v 1) (Z.testbit v 0).

(** The integer comparisons of [Select]; the others are not used here. *)
Definition compare (c : CondClass) (N a b : Z) : option bool :=
  match c with
  | EQ => Some (a =? b) | NEQ => Some (negb (a =? b))
  | UGE => Some (b <=? a) | ULT => Some (a <? b) | UGT => Some (b <? a) | ULE => Some (a <=? b)
  | SGE => Some (sgn N b <=? sgn N a) | SLT => Some (sgn N a <? sgn N b)
  | SGT => Some (sgn N b <? sgn N a) | SLE => Some (sgn N a <=? sgn N b)
  | _ => None
  end.

Definition field_mask (Width : Z) : Z := Z.ones Width.

(** ** Executing a block *)

Record Machine := mkMachine { Env : list Z; G : Guest }.

Section Exec.
(** The unspecified bits: the upper half of a 32-bit result, the value of an
    allocated register before it is written, a division POWER leaves
    undefined. *)
Variable junk : nat -> Z.
(** The guest address of the unit's entry point. *)
Variable entry : Z.

(** A [sz]-sized value in a host register. *)
Definition res (sz : OpSize) (j v : Z) : Z :=
  match sz with i64Bit => v | i32Bit => v + 2 ^ 32 * u32 j end.

Definition rd (e : list Z) (sz : OpSize) (r : Ref) : Z := wrap (bits sz) (nth r e 0).

Definition push (m : Machine) (v : Z) : Machine := mkMachine (Env m ++ [v]) (G m).
Definition push_g (m : Machine) (v : Z) (g : Guest) : Machine := mkMachine (Env m ++ [v]) g.

(** The address of a memory operation. *)
Definition mem_offset (t : MemOffsetType) (v : Z) : Z :=
  match t with SXTX => v | UXTW => u32 v | SXTW => sgn 32 (u32 v) end.
Definition mem_address (e : list Z) (a : Ref) (off : option Ref) (t : MemOffsetType) (k : Z) : Z :=
  u64 (nth a e 0 + match off with Some o => mem_offset t (nth o e 0) * k | None => 0 end).

(** Whether a conditional jump is taken. *)
Definition jump_taken (c : JumpCond) (e : list Z) (f : NZCV) (j : Z) : bool :=
  match c with
  | JNZCV c => nzcv_cond c f
  | JCompare c sz a b => match compare c (bits sz) (rd e sz a) (rd e sz b) with Some x => x | None => Z.odd j end
  | JTest nz v b => let t := Z.testbit (nth v e 0) (nth b e 0) in if nz then t else negb t
  end.

(** A division into two allocated registers. *)
Definition push_div (m : Machine) (q r : Ref) (vq vr : Z) : Machine :=
  mkMachine (<[r := vr]> (<[q := vq]> (Env m)) ++ [0]) (G m).

Definition step (m : Machine) (o : op) : Machine :=
  let e := Env m in
  let g := G m in
  let j := junk (length e) in
  let C := FC (Flags g) in
  match o with
  | OConstant c => push m (u64 c)
  | OEntrypointOffset off => push m (u64 (entry + off))
  | OLoadRegister s => push m (reg g (nth s StaticGPRGuestReg 0%nat))
  | OStoreRegister s v => push_g m 0 (set_reg g (nth s StaticGPRGuestReg 0%nat) (nth v e 0))
  | OLoadContext i => push m (reg g i)
  | OStoreContext i v => push_g m 0 (set_reg g i (nth v e 0))
  | OBin o sz a b => push m (res sz j (bin o (bits sz) (rd e sz a) (rd e sz b) C))
  | OUn o sz a => push m (res sz j (un o (bits sz) (rd e sz a)))
  | OFlags o sz a b =>
      let '(v, f) := flag_op o (bits sz) (rd e sz a) (rd e sz b) C in push_g m (res sz j v) (set_flags g f)
  | OAddNZCV sz a b => push_g m 0 (set_flags g (add_flags (bits sz) (rd e sz a) (rd e sz b) 0))
  | OSubNZCV sz a b => push_g m 0 (set_flags g (sub_flags (bits sz) (rd e sz a) (rd e sz b) 1))
  | OCondAddNZCV sz a b c k =>
      push_g m 0 (set_flags g (if nzcv_cond c (Flags g) then add_flags (bits sz) (rd e sz a) (rd e sz b) 0
                               else nzcv_of k))
  | OCondSubNZCV sz a b c k =>
      push_g m 0 (set_flags g (if nzcv_cond c (Flags g) then sub_flags (bits sz) (rd e sz a) (rd e sz b) 1
                               else nzcv_of k))
  | OBfe sz w lsb a => push m (res sz j (wrap w (Z.shiftr (rd e sz a) lsb)))
  | OSbfe sz w lsb a => push m (res sz j (wrap (bits sz) (sgn w (Z.shiftr (rd e sz a) lsb))))
  | OBfi sz w lsb d a =>
      push m (res sz j (Z.lor (Z.ldiff (rd e sz d) (Z.shiftl (field_mask w) lsb))
                              (Z.shiftl (Z.land (rd e sz a) (field_mask w)) lsb)))
  | OBfxil sz w lsb d a =>
      push m (res sz j (Z.lor (Z.ldiff (rd e sz d) (field_mask w))
                              (Z.land (Z.shiftr (rd e sz a) lsb) (field_mask w))))
  | OExtr sz u l lsb =>
      push m (res sz j (wrap (bits sz) (Z.shiftr (rd e sz u * 2 ^ bits sz + rd e sz l) lsb)))
  | OSelect sz cs c a b t f =>
      push m (match compare c (bits cs) (rd e cs a) (rd e cs b) with
              | Some x => res sz j (if x then rd e sz t else rd e sz f)
              | None => u64 j
              end)
  | ONZCVSelect sz c t f => push m (res sz j (if nzcv_cond c (Flags g) then rd e sz t else rd e sz f))
  | OMulAdd sz a b c => push m (res sz j (wrap (bits sz) (rd e sz a * rd e sz b + rd e sz c)))
  | OSMull a b => push m (u64 (sgn 32 (rd e i32Bit a) * sgn 32 (rd e i32Bit b)))
  | OAllocateGPR => push m (u64 j)
  | OUDiv sz a b q r =>
      let n := rd e sz a in let d := rd e sz b in
      if d =? 0 then push_div m q r (u64 j) (u64 j)
      else push_div m q r (res sz j (n / d)) (res sz j (n mod d))
  | ODiv sz a b q r =>
      let N := bits sz in
      let n := sgn N (rd e sz a) in let d := sgn N (rd e sz b) in
      if (d =? 0) || ((n =? - 2 ^ (N - 1)) && (d =? -1)) then push_div m q r (u64 j) (u64 j)
      else push_div m q r (res sz j (wrap N (Z.quot n d))) (res sz j (wrap N (Z.rem n d)))
  | OGuestOpcode off => push_g m 0 (set_marker g (u64 (entry + off)))
  | OStoreContextPC v => push_g m 0 (set_pcslot g (nth v e 0))
  | OBreak r => push_g m 0 (set_trap g r)
  | OInlineConstant c => push m (u64 c)
  | OLoadMem n a off t k =>
      let A := mem_address e a off t k in
      if readable n A (Mem g) then push m (from_le (read_bytes n A (Mem g))) else push_g m 0 (set_stop g (SFault false A))
  | OStoreMem n v a off t k =>
      let A := mem_address e a off t k in
      if writable n A (Mem g) then push_g m 0 (set_mem g (write_bytes (to_le n (nth v e 0)) A (Mem g)))
      else push_g m 0 (set_stop g (SFault true A))
  | OLoadMemRev n a =>
      let A := mem_address e a None SXTX 1 in
      if readable n A (Mem g) then push m (from_le (rev (read_bytes n A (Mem g)))) else push_g m 0 (set_stop g (SFault false A))
  | OStoreMemRev n a v =>
      let A := mem_address e a None SXTX 1 in
      if writable n A (Mem g) then push_g m 0 (set_mem g (write_bytes (rev (to_le n (nth v e 0))) A (Mem g)))
      else push_g m 0 (set_stop g (SFault true A))
  | OPrefetch _ _ _ _ _ _ _ | OFence _ | OICacheInvalidate _ => push m 0
  | OCacheLineZero a =>
      let A := Z.ldiff (nth a e 0) 63 in
      if writable 64 A (Mem g) then push_g m 0 (set_mem g (write_bytes (repeat 0 64) A (Mem g)))
      else push_g m 0 (set_stop g (SFault true A))
  | OInlineEntrypointOffset off => push m (u64 (entry + off))
  | OJump k => push_g m 0 (set_stop g (SJump k))
  | OCondJump c => push_g m 0 (set_stop g (SCond (length e) (jump_taken c e (Flags g) j)))
  | OExitFunction r h _ => push_g m 0 (set_stop g (SExit (nth r e 0) h))
  end.

(** Nothing is executed after a stop. *)
Definition run_op (m : Machine) (o : op) : Machine := match Stop (G m) with Some _ => m | None => step m o end.
Definition exec (m : Machine) (ops : list op) : Machine := foldl run_op m ops.

End Exec.

(** ** The builder *)

(** A guest address that has a block of its own in the unit. *)
Record JumpTargetInfo := mkTarget {
  BlockEntry : nat; HaveEmitted : bool; TEntryPoint : bool; SolePred : bool; PredBlock : option nat }.

(** The blocks of the unit.  [Segments]: the blocks in the order in which the
    write cursor was set to them, with the number of operations emitted before;
    [TrueBlock], [FalseBlock]: the targets of a conditional jump;
    [RegionPred]: the block whose values a block may use. *)
Record UnitState := mkUnit {
  JumpTargets : list (Z * JumpTargetInfo); Segments : list (nat * nat);
  TrueBlock : list (Ref * nat); FalseBlock : list (Ref * nat);
  RegionPred : list (nat * nat); NextBlock : nat; ISBExitTargets : list Z }.

Definition empty_unit : UnitState := mkUnit [] [] [] [] [] 1 [].

(** [Constants]: the pool, at most 32 entries, the oldest replaced first.
    Blocks are named by numbers; [BlockSetPC]: the instruction already left the
    block.  [Ops] are the operations of all blocks in the order of emission. *)
Record Builder := mkBuilder {
  Ops : list op; CurrentPC : Z; Entry : Z;
  GPRCache : list (option (Ref * Z)); CacheBlock : nat; CurrentBlock : nat;
  Constants : list (Z * Ref); NrConstants : nat; BlockSetPC : bool; Unit : UnitState }.

Definition M (A : Type) : Type := Builder -> A * Builder.
Definition ret {A} (a : A) : M A := fun b => (a, b).
Definition bind {A B} (m : M A) (f : A -> M B) : M B := fun b => let '(a, b') := m b in f a b'.

Declare Scope ir_scope.
Notation "x <- m ;; k" := (bind m (fun x => k)) (at level 60, m at level 59, right associativity) : ir_scope.
Notation "m ;;; k" := (bind m (fun _ => k)) (at level 60, right associativity) : ir_scope.
Open Scope ir_scope.

Definition set_ops (b : Builder) (l : list op) : Builder :=
  mkBuilder l (CurrentPC b) (Entry b) (GPRCache b) (CacheBlock b) (CurrentBlock b) (Constants b) (NrConstants b) (BlockSetPC b) (Unit b).
Definition set_cache (b : Builder) (c : list (option (Ref * Z))) (blk : nat) : Builder :=
  mkBuilder (Ops b) (CurrentPC b) (Entry b) c blk (CurrentBlock b) (Constants b) (NrConstants b) (BlockSetPC b) (Unit b).
Definition set_pool (b : Builder) (l : list (Z * Ref)) (n : nat) : Builder :=
  mkBuilder (Ops b) (CurrentPC b) (Entry b) (GPRCache b) (CacheBlock b) (CurrentBlock b) l n (BlockSetPC b) (Unit b).

Definition emit (o : op) : M Ref := fun b => (length (Ops b), set_ops b (Ops b ++ [o])).

Fixpoint find_constant (c : Z) (l : list (Z * Ref)) : option Ref :=
  match l with
  | [] => None
  | (c', r) :: l => if c' =? c then Some r else find_constant c l
  end.

(** [IREmitter::Constant]. *)
Definition Constant (Value : Z) : M Ref := fun b =>
  let c := u64 Value in
  match find_constant c (Constants b) with
  | Some r => (r, b)
  | None =>
      let '(r, b) := emit (OConstant c) b in
      let i := (NrConstants b mod 32)%nat in
      let pool := if (length (Constants b) <? 32)%nat then Constants b ++ [(c, r)] else <[i := (c, r)]> (Constants b) in
      (r, set_pool b pool (S (NrConstants b)))
  end.

Definition GPR_CACHE_WINDOW : Z := 8 * 4.
Definition empty_cache : list (option (Ref * Z)) := repeat None 31.

Definition SyncGPRCache : M unit := fun b =>
  (tt, if Nat.eqb (CacheBlock b) (CurrentBlock b) then b else set_cache b empty_cache (CurrentBlock b)).

(** [GuestRegToSlot], derived from the static register list; [None] is -1. *)
Fixpoint find_slot (n i : nat) (l : list nat) : option nat :=
  match l with
  | [] => None
  | r :: l => match find_slot n (S i) l with
              | Some s => Some s
              | None => if Nat.eqb r n then Some i else None
              end
  end.
Definition GuestRegToSlot (n : nat) : option nat := find_slot n 0 StaticGPRGuestReg.

Definition LoadGPRSlot (Index : nat) : M Ref := fun b =>
  match GuestRegToSlot Index with
  | Some Slot => emit (OLoadRegister Slot) b
  | None =>
      let '(_, b) := SyncGPRCache b in
      let load b := let '(v, b) := emit (OLoadContext Index) b in
                    (v, set_cache b (<[Index := Some (v, CurrentPC b)]> (GPRCache b)) (CacheBlock b)) in
      match nth Index (GPRCache b) None with
      | Some (v, pc) =>
          if (CurrentPC b >=? pc) && (CurrentPC b - pc <=? GPR_CACHE_WINDOW)
          then (v, set_cache b (<[Index := Some (v, CurrentPC b)]> (GPRCache b)) (CacheBlock b))
          else load b
      | None => load b
      end
  end.

Definition StoreGPRSlot (Index : nat) (Value : Ref) : M unit := fun b =>
  match GuestRegToSlot Index with
  | Some Slot => let '(_, b) := emit (OStoreRegister Slot Value) b in (tt, b)
  | None =>
      let '(_, b) := emit (OStoreContext Index Value) b in
      let '(_, b) := SyncGPRCache b in
      let wide := match Ops b !! Value with Some o => bool_decide (op_size o = i64Bit) | None => false end in
      (tt, set_cache b (<[Index := if wide then Some (Value, CurrentPC b) else None]> (GPRCache b)) (CacheBlock b))
  end.

(** Register 31 is XZR for [LoadX]/[StoreX], SP for [LoadXSP]/[StoreXSP]. *)
Definition LoadX (Reg : Z) : M Ref := if Reg =? 31 then Constant 0 else LoadGPRSlot (Z.to_nat Reg).
Definition LoadXSP (Reg : Z) : M Ref := LoadGPRSlot (Z.to_nat Reg).
Definition StoreX (Reg : Z) (Value : Ref) : M unit :=
  if Reg =? 31 then ret tt else StoreGPRSlot (Z.to_nat Reg) Value.
Definition StoreXSP (Reg : Z) (Value : Ref) : M unit := StoreGPRSlot (Z.to_nat Reg) Value.
Definition ZeroExtend32 (Value : Ref) : M Ref := emit (OBfe i64Bit 32 0 Value).
Definition StoreW (Reg : Z) (Value : Ref) : M unit :=
  if Reg =? 31 then ret tt else (v <- ZeroExtend32 Value ;; StoreGPRSlot (Z.to_nat Reg) v).
Definition StoreWSP (Reg : Z) (Value : Ref) : M unit :=
  v <- ZeroExtend32 Value ;; StoreGPRSlot (Z.to_nat Reg) v.
Definition StoreReg (Reg : Z) (Is64 : bool) (Value : Ref) : M unit :=
  if Is64 then StoreX Reg Value else StoreW Reg Value.
Definition StoreRegSP (Reg : Z) (Is64 : bool) (Value : Ref) : M unit :=
  if Is64 then StoreXSP Reg Value else StoreWSP Reg Value.
Definition SizeFor (Is64 : bool) : OpSize := if Is64 then i64Bit else i32Bit.

Definition PCValue (Target : Z) : M Ref := fun b => emit (OEntrypointOffset (Target - Entry b)) b.

Definition ShiftReg (Value : Ref) (ShiftType Amount : Z) (Is64 : bool) : M Ref :=
  if Amount =? 0 then ret Value
  else
    let Size := SizeFor Is64 in
    c <- Constant Amount ;;
    match ShiftType with
    | 0 => emit (OBin Lshl Size Value c)
    | 1 => emit (OBin Lshr Size Value c)
    | 2 => emit (OBin Ashr Size Value c)
    | _ => emit (OBin Ror Size Value c)
    end.

Definition ExtendReg (Value : Ref) (Option Shift : Z) : M Ref :=
  Extended <- match Option with
              | 0 => emit (OBfe i64Bit 8 0 Value)
              | 1 => emit (OBfe i64Bit 16 0 Value)
              | 2 => emit (OBfe i64Bit 32 0 Value)
              | 3 => ret Value
              | 4 => emit (OSbfe i64Bit 8 0 Value)
              | 5 => emit (OSbfe i64Bit 16 0 Value)
              | 6 => emit (OSbfe i64Bit 32 0 Value)
              | _ => ret Value
              end ;;
  if Shift =? 0 then ret Extended
  else c <- Constant Shift ;; emit (OBin Lshl i64Bit Extended c).
