(* ===== verification/BlockBuilder.v ===== *)
(** The blocks of a unit under construction: the write cursor, the exits of an
    instruction and the guest signals (IRBuilder.cpp, and the cursor of
    IREmitter.cpp).

    A guest block has a block of the unit; the exit of a conditional branch that
    leaves the unit gets one of its own.  Blocks are numbered in the order in
    which they are created. *)
From S2P Require Import Prelude A64Common IR.

(** ** The unit's state *)

Definition set_unit (b : Builder) (u : UnitState) : Builder :=
  mkBuilder (Ops b) (CurrentPC b) (Entry b) (GPRCache b) (CacheBlock b) (CurrentBlock b) (Constants b) (NrConstants b) (BlockSetPC b) u.

(** [JumpTargetsMap]: a vector searched from its front. *)
Fixpoint find_target (PC : Z) (l : list (Z * JumpTargetInfo)) : option JumpTargetInfo :=
  match l with
  | [] => None
  | (a, t) :: l => if a =? PC then Some t else find_target PC l
  end.

Fixpoint update_target (PC : Z) (f : JumpTargetInfo -> JumpTargetInfo) (l : list (Z * JumpTargetInfo)) : list (Z * JumpTargetInfo) :=
  match l with
  | [] => []
  | (a, t) :: l => if a =? PC then (a, f t) :: l else (a, t) :: update_target PC f l
  end.

Definition set_pred (k : nat) (t : JumpTargetInfo) : JumpTargetInfo :=
  mkTarget (BlockEntry t) (HaveEmitted t) (TEntryPoint t) (SolePred t) (Some k).
Definition set_emitted (t : JumpTargetInfo) : JumpTargetInfo :=
  mkTarget (BlockEntry t) true (TEntryPoint t) (SolePred t) (PredBlock t).

Definition with_targets (u : UnitState) (l : list (Z * JumpTargetInfo)) : UnitState :=
  mkUnit l (Segments u) (TrueBlock u) (FalseBlock u) (RegionPred u) (NextBlock u) (ISBExitTargets u).

(** [It->second.PredBlock = K]. *)
Definition SetPredBlock (PC : Z) (K : nat) : M unit := fun b =>
  (tt, set_unit b (with_targets (Unit b) (update_target PC (set_pred K) (JumpTargets (Unit b))))).

(** ** The write cursor *)

(** Constants are pooled only within a block. *)
Definition SetCurrentCodeBlock (K : nat) : M unit := fun b =>
  let u := Unit b in
  (tt, mkBuilder (Ops b) (CurrentPC b) (Entry b) (GPRCache b) (CacheBlock b) K [] 0 (BlockSetPC b)
         (mkUnit (JumpTargets u) (Segments u ++ [(K, length (Ops b))]) (TrueBlock u) (FalseBlock u) (RegionPred u) (NextBlock u) (ISBExitTargets u))).

(** [CreateNewCodeBlockAfter]: the place in the list of blocks has no meaning
    here. *)
Definition CreateNewCodeBlock : M nat := fun b =>
  let u := Unit b in
  (NextBlock u, set_unit b (mkUnit (JumpTargets u) (Segments u) (TrueBlock u) (FalseBlock u) (RegionPred u) (S (NextBlock u)) (ISBExitTargets u))).

Definition SetTrueJumpTarget (Jump : Ref) (K : nat) : M unit := fun b =>
  let u := Unit b in
  (tt, set_unit b (mkUnit (JumpTargets u) (Segments u) ((Jump, K) :: TrueBlock u) (FalseBlock u) (RegionPred u) (NextBlock u) (ISBExitTargets u))).
Definition SetFalseJumpTarget (Jump : Ref) (K : nat) : M unit := fun b =>
  let u := Unit b in
  (tt, set_unit b (mkUnit (JumpTargets u) (Segments u) (TrueBlock u) ((Jump, K) :: FalseBlock u) (RegionPred u) (NextBlock u) (ISBExitTargets u))).

(** ** Leaving a block *)

Definition set_left (b : Builder) (x : bool) : Builder :=
  mkBuilder (Ops b) (CurrentPC b) (Entry b) (GPRCache b) (CacheBlock b) (CurrentBlock b) (Constants b) (NrConstants b) x (Unit b).
Definition SetBlockSetPC (x : bool) : M unit := fun b => (tt, set_left b x).

Definition InlineEntrypointOffset (Target : Z) : M Ref := fun b => emit (OInlineEntrypointOffset (Target - Entry b)) b.
Definition ExitFunction (NewPC : Ref) (Hint : BranchHint) : M Ref := emit (OExitFunction NewPC Hint None).
Definition ExitCall (NewPC ReturnAddress : Ref) : M Ref := emit (OExitFunction NewPC HintCall (Some ReturnAddress)).

Definition ExitToPC (Target : Z) : M unit := fun b =>
  (match find_target Target (JumpTargets (Unit b)) with
   | Some t => SetPredBlock Target (CurrentBlock b) ;;; emit (OJump (BlockEntry t)) ;;; SetBlockSetPC true
   | None => pc <- InlineEntrypointOffset Target ;; ExitFunction pc HintNone ;;; SetBlockSetPC true
   end) b.

(** One side of a conditional exit; [Set_] sets its target. *)
Definition cond_side (Set_ : nat -> M unit) (CondBlock : nat) (Target : Z) : M unit := fun b =>
  (match find_target Target (JumpTargets (Unit b)) with
   | Some t => SetPredBlock Target CondBlock ;;; Set_ (BlockEntry t)
   | None => K <- CreateNewCodeBlock ;; Set_ K ;;; SetCurrentCodeBlock K ;;; ExitToPC Target
   end) b.

Definition INSTRUCTION_SIZE : Z := 4.
Definition NextPC (b : Builder) : Z := u64 (CurrentPC b + INSTRUCTION_SIZE).

Definition EmitConditionalExit (Jump : Ref) (Target : Z) : M unit := fun b =>
  let CondBlock := CurrentBlock b in
  (cond_side (SetTrueJumpTarget Jump) CondBlock Target ;;;
   cond_side (SetFalseJumpTarget Jump) CondBlock (NextPC b) ;;;
   SetBlockSetPC true) b.

Definition FinishOp (Next : Z) (LastOp : bool) : M bool := fun b =>
  if BlockSetPC b then (true, set_left b false)
  else if LastOp then (ExitToPC Next ;;; ret true) b
  else (false, b).

(** ** Guest signals *)

Definition RaiseGuestSignal (PC : Z) (Reason : BreakDefinition) : M unit :=
  v <- PCValue PC ;;
  emit (OStoreContextPC v) ;;;
  emit (OBreak Reason) ;;;
  SetBlockSetPC true.

Definition SIGILL : Z := 4.
Definition SIGTRAP : Z := 5.
Definition SIGSEGV : Z := 11.
Definition SIGBUS : Z := 7.
