(* ===== verification/Branch.v ===== *)
(** The branches and the system instructions without state of their own
    (TranslateBranchSystem.cpp). *)
From S2P Require Import Prelude A64Common IR BlockBuilder.

(** ** Branches *)

(** The 64-bit sum of the PC and a displacement of [Width] bits, in words. *)
Definition branch_target (CurrentPC Imm Width : Z) : Z := u64 (CurrentPC + SignExtend Imm Width * 4).

Definition B_uncond (Word : Z) : M bool := fun b =>
  (ExitToPC (branch_target (CurrentPC b) (Bits Word 25 0) 26) ;;; ret true) b.

Definition BL (Word : Z) : M bool := fun b =>
  let Target := branch_target (CurrentPC b) (Bits Word 25 0) 26 in
  (ra <- PCValue (NextPC b) ;;
   StoreX 30 ra ;;;
   match find_target Target (JumpTargets (Unit b)) with
   | Some _ => ExitToPC Target ;;; ret true
   | None =>
       pc <- InlineEntrypointOffset Target ;;
       r <- InlineEntrypointOffset (NextPC b) ;;
       ExitCall pc r ;;; SetBlockSetPC true ;;; ret true
   end) b.

Definition B_cond (Word : Z) : M bool := fun b =>
  let Target := branch_target (CurrentPC b) (Bits Word 23 5) 19 in
  let Cond := Bits Word 3 0 in
  (if Cond >=? 14 then ExitToPC Target ;;; ret true
   else
     Jump <- emit (OCondJump (JNZCV (MapCondition Cond))) ;;
     EmitConditionalExit Jump Target ;;; ret true) b.

Definition CompareBranch (Word : Z) (IsNonZero : bool) : M bool := fun b =>
  let Is64 := Bit Word 31 in
  let Target := branch_target (CurrentPC b) (Bits Word 23 5) 19 in
  (Value <- LoadX (Bits Word 4 0) ;;
   zero <- Constant 0 ;;
   Jump <- emit (OCondJump (JCompare (if IsNonZero then NEQ else EQ) (SizeFor Is64) Value zero)) ;;
   EmitConditionalExit Jump Target ;;; ret true) b.
Definition CBZ (Word : Z) : M bool := CompareBranch Word false.
Definition CBNZ (Word : Z) : M bool := CompareBranch Word true.

Definition TestBranch (Word : Z) (IsNonZero : bool) : M bool := fun b =>
  let BitNumber := Z.lor (Z.shiftl (Bits Word 31 31) 5) (Bits Word 23 19) in
  let Target := branch_target (CurrentPC b) (Bits Word 18 5) 14 in
  (Value <- LoadX (Bits Word 4 0) ;;
   n <- emit (OInlineConstant BitNumber) ;;
   Jump <- emit (OCondJump (JTest IsNonZero Value n)) ;;
   EmitConditionalExit Jump Target ;;; ret true) b.
Definition TBZ (Word : Z) : M bool := TestBranch Word false.
Definition TBNZ (Word : Z) : M bool := TestBranch Word true.

Definition BranchRegister (Word : Z) (Hint : BranchHint) : M bool := fun b =>
  (Target <- LoadX (Bits Word 9 5) ;;
   (match Hint with
    | HintCall =>
        ra <- PCValue (NextPC b) ;;
        StoreX 30 ra ;;;
        r <- InlineEntrypointOffset (NextPC b) ;;
        ExitCall Target r
    | _ => ExitFunction Target Hint
    end) ;;;
   SetBlockSetPC true ;;; ret true) b.
Definition BR (Word : Z) : M bool := BranchRegister Word HintNone.
Definition BLR (Word : Z) : M bool := BranchRegister Word HintCall.
Definition RET (Word : Z) : M bool := BranchRegister Word HintReturn.

(** ** Exceptions and system *)

Definition BRK (Word : Z) : M bool := fun b => (RaiseGuestSignal (CurrentPC b) (mkBreak 0 SIGTRAP 0 1) ;;; ret true) b.

Definition HINT (Word : Z) : M bool := ret true.

Definition Barrier (Word : Z) : M bool :=
  let CRm := Bits Word 9 8 in
  emit (OFence (if CRm =? 1 then FenceAcquire else if CRm =? 2 then FenceStore else FenceLoadStore)) ;;; ret true.

Definition UnallocatedEncoding (Word : Z) : M bool := ret false.

Definition DC_ZVA (Word : Z) : M bool := a <- LoadX (Bits Word 4 0) ;; emit (OCacheLineZero a) ;;; ret true.

Definition CacheMaintenanceNop (Word : Z) : M bool := ret true.

Section Config.
(** [CTX->Config.SMCChecks == CONFIG_SMC_ICACHE]. *)
Context (SMCICache : bool).

Definition IC_IVAU (Word : Z) : M bool :=
  if negb SMCICache then CacheMaintenanceNop Word
  else a <- LoadX (Bits Word 4 0) ;; emit (OICacheInvalidate a) ;;; ret true.

Definition note_isb (PC : Z) : M unit := fun b =>
  let u := Unit b in
  (tt, set_unit b (mkUnit (JumpTargets u) (Segments u) (TrueBlock u) (FalseBlock u) (RegionPred u) (NextBlock u) (ISBExitTargets u ++ [PC]))).

Definition ISB (Word : Z) : M bool := fun b =>
  (if negb SMCICache then HINT Word
   else
     pc <- InlineEntrypointOffset (NextPC b) ;;
     ExitFunction pc HintNone ;;;
     note_isb (NextPC b) ;;;
     SetBlockSetPC true ;;; ret true) b.
End Config.
