(* ===== verification/ArmSpec.v ===== *)
(** The Arm A-profile pseudocode of the A64 instructions that are translated:
    integer data processing, branches and system instructions, loads and stores,
    as functions of the instruction word, the PC and the guest registers, flags
    and memory.  [None] is UNDEFINED.  This is the specification the translators
    are proved against. *)
From S2P Require Import Prelude A64Common IR.
From stdpp Require Import strings.
Open Scope Z_scope.

(** ** Registers *)

Definition rX (g : Guest) (n : Z) : Z := if n =? 31 then 0 else reg g (Z.to_nat n).
Definition rXSP (g : Guest) (n : Z) : Z := reg g (Z.to_nat n).
Definition wX (g : Guest) (n v : Z) : Guest := if n =? 31 then g else set_reg g (Z.to_nat n) v.
Definition wXSP (g : Guest) (n v : Z) : Guest := set_reg g (Z.to_nat n) v.

(** [X[n, N]] and, for register 31, [SP[N]]. *)
Definition X (N : Z) (g : Guest) (n : Z) : Z := wrap N (rX g n).
Definition XorSP (N : Z) (g : Guest) (n : Z) : Z := wrap N (rXSP g n).

Definition datasize (Word : Z) : Z := if Bit Word 31 then 64 else 32.

(** The destination: register 31 is SP unless flags are set. *)
Definition write_dest (setflags : bool) (g : Guest) (d v : Z) : Guest :=
  if setflags then wX g d v else wXSP g d v.

(** ** Shared functions *)

Definition AddWithCarry (N x y c : Z) : Z * NZCV :=
  let usum := x + y + c in
  let ssum := sgn N x + sgn N y + c in
  let result := wrap N usum in
  (result, mkNZCV (Z.testbit result (N - 1)) (result =? 0) (negb (result =? usum)) (negb (sgn N result =? ssum))).

Definition NOT (N x : Z) : Z := 2 ^ N - 1 - x.

Definition shift_reg (N : Z) (x type amount : Z) : Z :=
  match type with
  | 0 => wrap N (x * 2 ^ amount)
  | 1 => x / 2 ^ amount
  | 2 => wrap N (sgn N x / 2 ^ amount)
  | _ => of_bits (Z.to_nat N) (fun i => Z.testbit x ((i + amount) mod N))
  end.

(** [ExtendReg]: the low [len] bits, shifted, extended from their new top. *)
Definition extend_reg (N x type shift : Z) : Z :=
  let unsigned := type <? 4 in
  let len := match type mod 4 with 0 => 8 | 1 => 16 | 2 => 32 | _ => 64 end in
  let len := Z.min len (N - shift) in
  let v := wrap len x * 2 ^ shift in
  if unsigned then wrap N v else wrap N (sgn (len + shift) v).

Definition ConditionHolds (cond : Z) (f : NZCV) : bool :=
  let r := match cond / 2 with
           | 0 => FZ f
           | 1 => FC f
           | 2 => FN f
           | 3 => FV f
           | 4 => FC f && negb (FZ f)
           | 5 => eqb (FN f) (FV f)
           | 6 => eqb (FN f) (FV f) && negb (FZ f)
           | _ => true
           end in
  if Z.odd cond && negb (cond =? 15) then negb r else r.

Definition logical_flags (N r : Z) : NZCV := mkNZCV (Z.testbit r (N - 1)) (r =? 0) false false.

Definition Rd (w : Z) : Z := Bits w 4 0.
Definition Rn (w : Z) : Z := Bits w 9 5.
Definition Rm (w : Z) : Z := Bits w 20 16.
Definition Ra (w : Z) : Z := Bits w 14 10.

(** ** PC-relative addressing *)

Definition arm_ADR (pc w : Z) (g : Guest) : option Guest :=
  let imm := sgn 21 (Bits w 23 5 * 4 + Bits w 30 29) in Some (wX g (Rd w) (u64 (pc + imm))).

Definition arm_ADRP (pc w : Z) (g : Guest) : option Guest :=
  let imm := sgn 33 ((Bits w 23 5 * 4 + Bits w 30 29) * 4096) in
  Some (wX g (Rd w) (u64 (pc - pc mod 4096 + imm))).

(** ** Add and subtract *)

Definition add_sub (N : Z) (sub_op setflags : bool) (a b : Z) (g : Guest) (dest : Guest -> Z -> Guest) : Guest :=
  let '(r, f) := if sub_op then AddWithCarry N a (NOT N b) 1 else AddWithCarry N a b 0 in
  let g := if setflags then set_flags g f else g in
  dest g r.

Definition arm_add_sub_imm (sub_op setflags : bool) (pc w : Z) (g : Guest) : option Guest :=
  let N := datasize w in
  let sh := Bits w 23 22 in
  if (sh =? 0) || (sh =? 1) then
    let imm := if sh =? 0 then Bits w 21 10 else Bits w 21 10 * 4096 in
    Some (add_sub N sub_op setflags (XorSP N g (Rn w)) imm g (fun g r => write_dest setflags g (Rd w) r))
  else None.

Definition arm_add_sub_shifted (pc w : Z) (g : Guest) : option Guest :=
  let N := datasize w in
  let amount := Bits w 15 10 in
  if (Bits w 23 22 =? 3) || (negb (Bit w 31) && Bit w 15) then None
  else
    let b := shift_reg N (X N g (Rm w)) (Bits w 23 22) amount in
    Some (add_sub N (Bit w 30) (Bit w 29) (X N g (Rn w)) b g (fun g r => wX g (Rd w) r)).

Definition arm_add_sub_extended (pc w : Z) (g : Guest) : option Guest :=
  let N := datasize w in
  let shift := Bits w 12 10 in
  if (4 <? shift) || negb (Bits w 23 22 =? 0) then None
  else
    let b := extend_reg N (X N g (Rm w)) (Bits w 15 13) shift in
    Some (add_sub N (Bit w 30) (Bit w 29) (XorSP N g (Rn w)) b g
            (fun g r => write_dest (Bit w 29) g (Rd w) r)).

Definition arm_add_sub_carry (sub_op setflags : bool) (pc w : Z) (g : Guest) : option Guest :=
  let N := datasize w in
  let b := X N g (Rm w) in
  let '(r, f) := AddWithCarry N (X N g (Rn w)) (if sub_op then NOT N b else b) (b2z (FC (Flags g))) in
  let g := if setflags then set_flags g f else g in
  Some (wX g (Rd w) r).

(** ** Logical *)

Definition logical (N opc a b : Z) (g : Guest) (dest : bool -> Guest -> Z -> Guest) : Guest :=
  let r := match opc with 1 => Z.lor a b | 2 => Z.lxor a b | _ => Z.land a b end in
  if opc =? 3 then dest true (set_flags g (logical_flags N r)) r else dest false g r.

Definition arm_logical_imm (pc w : Z) (g : Guest) : option Guest :=
  let N := datasize w in
  if negb (Bit w 31) && Bit w 22 then None
  else match ArmDecodeBitMasks (Bit w 22) (Bits w 15 10) (Bits w 21 16) true N with
       | None => None
       | Some (wmask, _) =>
           let imm := of_bits (Z.to_nat N) wmask in
           Some (logical N (Bits w 30 29) (X N g (Rn w)) imm g (fun setf g r => write_dest setf g (Rd w) r))
       end.

Definition arm_logical_shifted (pc w : Z) (g : Guest) : option Guest :=
  let N := datasize w in
  if negb (Bit w 31) && Bit w 15 then None
  else
    let b := shift_reg N (X N g (Rm w)) (Bits w 23 22) (Bits w 15 10) in
    let b := if Bit w 21 then NOT N b else b in
    Some (logical N (Bits w 30 29) (X N g (Rn w)) b g (fun _ g r => wX g (Rd w) r)).

(** ** Move wide *)

Definition arm_move_wide (pc w : Z) (g : Guest) : option Guest :=
  let N := datasize w in
  let opc := Bits w 30 29 in
  let pos := Bits w 22 21 * 16 in
  if (opc =? 1) || (negb (Bit w 31) && Bit w 22) then None
  else
    let old := if opc =? 3 then X N g (Rd w) else 0 in
    let r := of_bits (Z.to_nat N)
      (fun i => if (pos <=? i) && (i <? pos + 16) then Z.testbit (Bits w 20 5) (i - pos) else Z.testbit old i) in
    Some (wX g (Rd w) (if opc =? 0 then NOT N r else r)).

(** ** Bitfield and extract *)

Definition ROR_bit (N x r : Z) (i : Z) : bool := Z.testbit x ((i + r) mod N).

Definition arm_bitfield (pc w : Z) (g : Guest) : option Guest :=
  let sf := Bit w 31 in
  let N := datasize w in
  let opc := Bits w 30 29 in
  let immr := Bits w 21 16 in
  let imms := Bits w 15 10 in
  if (opc =? 3) || (sf && negb (Bit w 22)) || (negb sf && (Bit w 22 || Bit w 21 || Bit w 15)) then None
  else match ArmDecodeBitMasks (Bit w 22) imms immr false N with
       | None => None
       | Some (wmask, tmask) =>
           let src := X N g (Rn w) in
           let dst := if opc =? 1 then X N g (Rd w) else 0 in
           let bot i := if wmask i then ROR_bit N src immr i else Z.testbit dst i in
           let top i := if opc =? 0 then Z.testbit src imms else Z.testbit dst i in
           Some (wX g (Rd w) (of_bits (Z.to_nat N) (fun i => if tmask i then bot i else top i)))
       end.

Definition arm_EXTR (pc w : Z) (g : Guest) : option Guest :=
  let sf := Bit w 31 in
  let N := datasize w in
  let lsb := Bits w 15 10 in
  if negb (eqb sf (Bit w 22)) || (negb sf && Bit w 15) then None
  else
    let concat := X N g (Rn w) * 2 ^ N + X N g (Rm w) in
    Some (wX g (Rd w) (of_bits (Z.to_nat N) (fun i => Z.testbit concat (i + lsb)))).

(** ** Division and variable shifts *)

Definition arm_div (signed : bool) (pc w : Z) (g : Guest) : option Guest :=
  let N := datasize w in
  let a := X N g (Rn w) in
  let b := X N g (Rm w) in
  let r := if b =? 0 then 0
           else if signed then wrap N (Z.quot (sgn N a) (sgn N b)) else a / b in
  Some (wX g (Rd w) r).

Definition arm_shift_variable (type : Z) (pc w : Z) (g : Guest) : option Guest :=
  let N := datasize w in
  Some (wX g (Rd w) (shift_reg N (X N g (Rn w)) type (X N g (Rm w) mod N))).

(** ** One source *)

Definition arm_unary (f : Z -> Z -> Z) (pc w : Z) (g : Guest) : option Guest :=
  let N := datasize w in Some (wX g (Rd w) (f N (X N g (Rn w)))).

Definition bit_reverse (N x : Z) : Z := of_bits (Z.to_nat N) (fun i => Z.testbit x (N - 1 - i)).

(** Bytes reversed within each container of [c] bits. *)
Definition reverse_bytes (c N x : Z) : Z :=
  of_bits (Z.to_nat N) (fun i => Z.testbit x (i / c * c + (c / 8 - 1 - (i mod c) / 8) * 8 + i mod 8)).

Fixpoint leading_zeros (n : nat) (x : Z) : Z :=
  match n with
  | O => 0
  | S n => if Z.testbit x (Z.of_nat n) then 0 else 1 + leading_zeros n x
  end.

Definition count_leading_zeros (N x : Z) : Z := leading_zeros (Z.to_nat N) x.

(** [CountLeadingSignBits]: of [x<N-1:1> EOR x<N-2:0>], which has [N - 1]
    bits. *)
Definition count_leading_signs (N x : Z) : Z :=
  leading_zeros (Z.to_nat (N - 1)) (Z.lxor (x / 2) (wrap (N - 1) x)).

Definition arm_REV (pc w : Z) (g : Guest) : option Guest :=
  if eqb (Bit w 31) (Bit w 10) then arm_unary (fun N => reverse_bytes N N) pc w g else None.

Definition arm_REV32 (pc w : Z) (g : Guest) : option Guest :=
  Some (wX g (Rd w) (reverse_bytes 32 64 (X 64 g (Rn w)))).

(** ** Conditional *)

Definition arm_cond_compare (pc w : Z) (g : Guest) : option Guest :=
  let N := datasize w in
  if Bit w 10 || Bit w 4 then None
  else
    let a := X N g (Rn w) in
    let b := if Bit w 11 then Bits w 20 16 else X N g (Rm w) in
    let f := if ConditionHolds (Bits w 15 12) (Flags g)
             then (if Bit w 30 then AddWithCarry N a (NOT N b) 1 else AddWithCarry N a b 0).2
             else nzcv_of (Bits w 3 0) in
    Some (set_flags g f).

Definition arm_cond_select (pc w : Z) (g : Guest) : option Guest :=
  let N := datasize w in
  if Bit w 29 || Bit w 11 then None
  else
    let r := if ConditionHolds (Bits w 15 12) (Flags g) then X N g (Rn w)
             else
               let m := X N g (Rm w) in
               let m := if Bit w 30 then NOT N m else m in
               if Bit w 10 then wrap N (m + 1) else m in
    Some (wX g (Rd w) r).

(** ** Multiply *)

Definition arm_mul_add (sub_op : bool) (pc w : Z) (g : Guest) : option Guest :=
  let N := datasize w in
  let p := X N g (Rn w) * X N g (Rm w) in
  let a := X N g (Ra w) in
  Some (wX g (Rd w) (wrap N (if sub_op then a - p else a + p))).

Definition arm_mul_long (signed sub_op : bool) (pc w : Z) (g : Guest) : option Guest :=
  let int x := if signed then sgn 32 x else x in
  let p := int (X 32 g (Rn w)) * int (X 32 g (Rm w)) in
  let a := X 64 g (Ra w) in
  Some (wX g (Rd w) (u64 (if sub_op then a - p else a + p))).

Definition arm_mul_high (signed : bool) (pc w : Z) (g : Guest) : option Guest :=
  let int x := if signed then sgn 64 x else x in
  let p := int (X 64 g (Rn w)) * int (X 64 g (Rm w)) in
  Some (wX g (Rd w) (u64 (p / 2 ^ 64))).

(** ** Branches and system instructions

    Arm pseudocode of branches and of the system instructions a program at EL0
    may use. *)

(** [SignExtend(imm:'00', 64)] for an immediate of [n] bits. *)
Definition branch_offset (n imm : Z) : Z := sgn (n + 2) (imm * 4).

Lemma sgn_times4 n v : 0 < n -> sgn n v * 4 = sgn (n + 2) (v * 4).
Proof.
  intros Hn. unfold sgn. replace (n + 2 - 1) with (n - 1 + 2) by lia. rewrite !Z.pow_add_r by lia. change (2 ^ 2) with 4.
  rewrite Z.mul_mod_distr_r by (try apply Z.pow_nonzero; lia). destruct (Z.ltb_spec (v mod 2 ^ n) (2 ^ (n - 1))), (Z.ltb_spec (v mod 2 ^ n * 4) (2 ^ (n - 1) * 4)); lia.
Qed.

(** The next PC and the guest; the names are those of a64.inc. *)
Definition arm_branch (name : string) (pc w : Z) (g : Guest) : option (Z * Guest) :=
  let next := u64 (pc + 4) in
  let imm26 := u64 (pc + branch_offset 26 (Bits w 25 0)) in
  let imm19 := u64 (pc + branch_offset 19 (Bits w 23 5)) in
  let imm14 := u64 (pc + branch_offset 14 (Bits w 18 5)) in
  let zero := X (datasize w) g (Rd w) =? 0 in
  let bit := Z.testbit (X 64 g (Rd w)) (b2z (Bit w 31) * 32 + Bits w 23 19) in
  if String.eqb name "B_uncond" then Some (imm26, g)
  else if String.eqb name "BL" then Some (imm26, wX g 30 next)
  else if String.eqb name "CBZ" then Some (if zero then imm19 else next, g)
  else if String.eqb name "CBNZ" then Some (if zero then next else imm19, g)
  else if String.eqb name "TBZ" then Some (if bit then next else imm14, g)
  else if String.eqb name "TBNZ" then Some (if bit then imm14 else next, g)
  else if String.eqb name "B_cond" then Some (if ConditionHolds (Bits w 3 0) (Flags g) then imm19 else next, g)
  else if String.eqb name "BR" then Some (X 64 g (Rn w), g)
  else if String.eqb name "BLR" then Some (X 64 g (Rn w), wX g 30 next)
  else if String.eqb name "RET" then Some (X 64 g (Rn w), g)
  else if String.eqb name "ISB" then Some (next, g)
  else None.

(** Hints, barriers and cache maintenance: no effect on one thread's registers
    and memory. *)
Definition arm_nop (_ _ : Z) (g : Guest) : option Guest := Some g.

Definition arm_undefined (_ _ : Z) (_ : Guest) : option Guest := None.

(** [SoftwareBreakpoint], which Linux delivers as SIGTRAP with TRAP_BRKPT. *)
Definition arm_BRK (pc _ : Z) (g : Guest) : option Guest := Some (set_trap (set_pcslot g pc) (mkBreak 0 5 0 1)).

(** DC ZVA, for the block of 64 bytes that DCZID_EL0 reports. *)
Definition arm_DC_ZVA (_ w : Z) (g : Guest) : option Guest :=
  let a := X 64 g (Rd w) in let base := a - a mod 64 in
  Some (if writable 64 base (Mem g) then set_mem g (write_bytes (repeat 0 64) base (Mem g)) else set_stop g (SFault true base)).

Definition branch_names : list string := ["B_uncond"; "BL"; "CBZ"; "CBNZ"; "TBZ"; "TBNZ"; "B_cond"; "BR"; "BLR"; "RET"; "ISB"]%string.
Definition is_branch (n : string) : bool := existsb (String.eqb n) branch_names.

Lemma arm_branch_names n pc w g : is_branch n = match arm_branch n pc w g with Some _ => true | None => false end.
Proof.
  unfold is_branch, arm_branch, branch_names. cbn [existsb].
  repeat match goal with |- context [String.eqb n ?x] => destruct (String.eqb n x); [reflexivity|] end. reflexivity.
Qed.

(** ** Loads and stores

    The Arm A-profile pseudocode of the loads and stores of general-purpose
    registers, over the registers and memory of the guest.  [None] is UNDEFINED;
    an access out of reach stops the guest with its registers as they were.

    Where the architecture leaves a choice, as for a writeback to the transfer
    register, the semantics takes the one TranslateLoadStore.cpp documents.
    Checking the alignment of SP (SCTLR_EL1.SA0) and tags in the top byte of an
    address (TCR_EL1.TBI0) are off. *)

Definition MemRead (n : nat) (a : Z) (g : Guest) (k : Z -> Guest) : Guest :=
  if readable n a (Mem g) then k (from_le (read_bytes n a (Mem g))) else set_stop g (SFault false a).
Definition MemWrite (n : nat) (a v : Z) (g : Guest) (k : Guest -> Guest) : Guest :=
  if writable n a (Mem g) then k (set_mem g (write_bytes (to_le n v) a (Mem g))) else set_stop g (SFault true a).

Inductive memop := STORE | LOAD (signed : bool) (regsize : Z) | PREFETCH.

(** The fields size and opc. *)
Definition load_store_op (size opc : Z) : option memop :=
  if opc <? 2 then Some (if opc =? 0 then STORE else LOAD false (if size =? 3 then 64 else 32))
  else if size =? 3 then if opc =? 2 then Some PREFETCH else None
  else if (size =? 2) && (opc =? 3) then None
  else Some (LOAD true (if opc =? 3 then 32 else 64)).

Definition extend_data (signed : bool) (n : nat) (regsize v : Z) : Z := if signed then wrap regsize (sgn (8 * Z.of_nat n) v) else v.

(** One access of the register [t]; [wb] is the writeback, which a load's value
    wins over. *)
Definition arm_access (op : memop) (size t a : Z) (g : Guest) (wb : Guest -> Guest) : Guest :=
  let n := Z.to_nat (2 ^ size) in
  match op with
  | STORE => MemWrite n a (rX g t) g wb
  | LOAD signed regsize => MemRead n a g (fun v => wX (wb g) t (extend_data signed n regsize v))
  | PREFETCH => g
  end.

Definition Rt (w : Z) : Z := Bits w 4 0.
Definition Rt2 (w : Z) : Z := Bits w 14 10.
Definition size (w : Z) : Z := Bits w 31 30.
Definition opc (w : Z) : Z := Bits w 23 22.

(** ** Literal *)

Definition literal_address (pc w : Z) : Z := u64 (pc + sgn 19 (Bits w 23 5) * 4).

Definition arm_LDR_lit (pc w : Z) (g : Guest) : option Guest :=
  Some (MemRead (if Bit w 30 then 8 else 4) (literal_address pc w) g (fun v => wX g (Rt w) v)).
Definition arm_LDRSW_lit (pc w : Z) (g : Guest) : option Guest :=
  Some (MemRead 4 (literal_address pc w) g (fun v => wX g (Rt w) (wrap 64 (sgn 32 v)))).

(** A prefetch has no effect. *)
Definition arm_PRFM (pc w : Z) (g : Guest) : option Guest := Some g.

(** ** Immediate offset *)

(** Unscaled, post-indexed, unprivileged and pre-indexed, by bits 11:10. *)
Definition arm_imm9 (pc w : Z) (g : Guest) : option Guest :=
  match load_store_op (size w) (opc w) with
  | None => None
  | Some op =>
      let mode := Bits w 11 10 in
      let base := rXSP g (Rn w) in
      let indexed := u64 (base + sgn 9 (Bits w 20 12)) in
      let wb g := if (mode =? 1) || (mode =? 3) then wXSP g (Rn w) indexed else g in
      match op with
      | PREFETCH => if mode =? 0 then Some g else None
      | _ => Some (arm_access op (size w) (Rt w) (if mode =? 1 then base else indexed) g wb)
      end
  end.

(** The release and acquire forms; their order is no part of this. *)
Definition arm_rcpc_imm9 (pc w : Z) (g : Guest) : option Guest :=
  if (size w =? 3) && (2 <=? opc w) then None else arm_imm9 pc w g.

Definition arm_uimm12 (pc w : Z) (g : Guest) : option Guest :=
  match load_store_op (size w) (opc w) with
  | None => None
  | Some op => Some (arm_access op (size w) (Rt w) (u64 (rXSP g (Rn w) + Bits w 21 10 * 2 ^ size w)) g (fun g => g))
  end.

(** ** Register offset *)

Definition arm_register_offset (pc w : Z) (g : Guest) : option Guest :=
  match load_store_op (size w) (opc w) with
  | None => None
  | Some op =>
      if negb (Bit w 14) then None
      else
        let offset := extend_reg 64 (rX g (Rm w)) (Bits w 15 13) (if Bit w 12 then size w else 0) in
        Some (arm_access op (size w) (Rt w) (u64 (rXSP g (Rn w) + offset)) g (fun g => g))
  end.

(** ** Pairs *)

(** Post-indexed, offset and pre-indexed, by bits 24:23; 00 is another
    instruction. *)
Definition arm_pair (pc w : Z) (g : Guest) : option Guest :=
  let opc := Bits w 31 30 in
  let load := Bit w 22 in
  if (opc =? 3) || ((opc =? 1) && negb load) || (Bits w 24 23 =? 0) then None
  else
    let signed := opc =? 1 in
    let n := if opc =? 2 then 8%nat else 4%nat in
    let base := rXSP g (Rn w) in
    let indexed := u64 (base + sgn 7 (Bits w 21 15) * Z.of_nat n) in
    let a := if Bits w 24 23 =? 1 then base else indexed in
    let wb g := if Bit w 23 then wXSP g (Rn w) indexed else g in
    let a2 := u64 (a + Z.of_nat n) in
    Some (if load then
            MemRead n a g (fun v1 => MemRead n a2 g (fun v2 =>
              wX (wX (wb g) (Rt w) (extend_data signed n 64 v1)) (Rt2 w) (extend_data signed n 64 v2)))
          else
            MemWrite n a (rX g (Rt w)) g (fun g' => MemWrite n a2 (rX g (Rt2 w)) g' wb)).

(** Without allocation: the offset form; bits 30 and 24:23 are clear in its
    words. *)
Definition arm_nontemporal_pair (pc w : Z) (g : Guest) : option Guest := arm_pair pc (Z.lor w (2 ^ 24)) g.
