(* ===== verification/IRLogic.v ===== *)
(** A program logic for IR emission.  [wp m e g Q]: emitting [m] after
    operations whose execution leaves the values [e] and the guest state [g]
    gives operations whose execution satisfies [Q].  The builder's caches (the
    constant pool and the guest register cache) are sound throughout: that is
    part of the invariant [inv], so the rules for [Constant], [LoadX] and
    [StoreX] do not mention them. *)
From S2P Require Import Prelude A64Common IR ArmSpec.

(** ** Ranges of the results *)

Lemma bits_pos sz : 0 < bits sz.
Proof. by destruct sz. Qed.
Lemma bits_le sz : bits sz <= 64.
Proof. by destruct sz. Qed.
#[export] Hint Resolve bits_pos bits_le : core.

Lemma bin_range o N a b C : 0 < N -> in_width N a -> in_width N b -> in_width N (bin o N a b C).
Proof.
  intros HN Ha Hb. pose proof (Z.mod_pos_bound b N).
  destruct o; cbn [bin]; try (apply wrap_range; lia).
  - apply in_width_land; [lia|done|destruct Hb; lia].
  - apply in_width_lor; by try lia.
  - apply in_width_lxor; by try lia.
  - apply in_width_shiftr; by try lia.
  - destruct Ha, Hb. assert (0 < 2 ^ N) by (apply Z.pow_pos_nonneg; lia).
    split; [apply Z.div_pos; nia|]. apply Z.div_lt_upper_bound; nia.
Qed.

Lemma clz_range N a : 0 < N <= 64 -> in_width N a -> 0 <= clz N a <= N.
Proof.
  intros HN [H0 H1]. unfold clz. destruct (Z.eqb_spec a 0); [lia|].
  pose proof (Z.log2_nonneg a). assert (Z.log2 a < N) by (apply Z.log2_lt_pow2; lia). lia.
Qed.

Lemma ctz_from_range n i a : i <= ctz_from n i a <= i + Z.of_nat n.
Proof. revert i. induction n as [|n IH]; intros i; simpl; [lia|]. destruct (Z.testbit a i); [lia|]. specialize (IH (i + 1)). lia. Qed.

Lemma small_width sz v : 0 <= v <= bits sz -> in_width (bits sz) v.
Proof. unfold in_width. destruct sz; simpl; lia. Qed.

Lemma un_range o sz a : in_width (bits sz) a -> in_width (bits sz) (un o (bits sz) a).
Proof.
  intros Ha. pose proof (bits_pos sz). destruct o; cbn [un]; try (apply wrap_range; lia).
  - replace (bits sz) with (Z.of_nat (Z.to_nat (bits sz))) at 1 by lia. apply of_bits_range.
  - replace (bits sz) with (Z.of_nat (Z.to_nat (bits sz))) at 1 by lia. apply of_bits_range.
  - apply small_width, clz_range; [|done]. pose proof (bits_le sz). lia.
  - apply small_width. unfold ctz. pose proof (ctz_from_range (Z.to_nat (bits sz)) 0 a). lia.
Qed.

Lemma flag_op_range o N a b C : 0 < N -> in_width N a -> in_width N b -> in_width N (flag_op o N a b C).1.
Proof.
  intros HN Ha Hb. destruct o; simpl; try (apply wrap_range; lia).
  apply in_width_land; [lia|done|destruct Hb; lia].
Qed.

(** ** Values of references *)

(** The low bits of reference [r] are [v]. *)
Definition hasw (e : list Z) (sz : OpSize) (r : Ref) (v : Z) : Prop :=
  exists x, e !! r = Some x /\ wrap (bits sz) x = v.

(** [e'] has the values of [e]. *)
Definition sub (e e' : list Z) : Prop := e `prefix_of` e'.

Lemma hasw_mono e e' sz r v : sub e e' -> hasw e sz r v -> hasw e' sz r v.
Proof. intros [k ->] (x & Hx & Hv). exists x. split; [|done]. by apply lookup_app_l_Some. Qed.

Lemma hasw_rd e sz r v : hasw e sz r v -> rd e sz r = v.
Proof. intros (x & Hx & Hv). unfold rd. rewrite (nth_lookup e), Hx. done. Qed.

Lemma hasw_range e sz r v : hasw e sz r v -> in_width (bits sz) v.
Proof. intros (x & Hx & <-). apply wrap_range. pose proof (bits_pos sz). lia. Qed.

Lemma hasw_low e sz r v : hasw e i64Bit r v -> hasw e sz r (wrap (bits sz) v).
Proof.
  intros (x & Hx & <-). exists x. split; [done|]. destruct sz; cbn [bits]; [|by rewrite wrap_wrap].
  unfold wrap. symmetry. apply Z.mod_mod_divide. exists (2 ^ 32). done.
Qed.

Lemma wrap_res sz j v : in_width (bits sz) v -> wrap (bits sz) (res sz j v) = v.
Proof.
  intros Hv. destruct sz; cbn [res bits] in *; [|by apply wrap_small].
  rewrite Z.mul_comm. apply wrap_field; [lia|done].
Qed.

Lemma res_range sz j v : in_width (bits sz) v -> in_width 64 (res sz j v).
Proof.
  intros [H0 H1]. destruct sz; cbn [res bits] in *; [|done]. pose proof (wrap_range 32 j) as Hj.
  unfold u32, in_width in *. lia.
Qed.

(** ** Emission only appends

    What a translator that stays in its block leaves alone: the operations
    before, the current block and the state of the unit.  Its registers are read
    and written through the cache of the current block, or the cache is not
    touched. *)

(** The cache has an entry per register, and values only for registers without a
    slot. *)
Definition cache_wf (c : list (option (Ref * Z))) : Prop :=
  length c = 31%nat /\ forall i v, c !! i = Some (Some v) -> GuestRegToSlot i = None.

Lemma cache_wf_empty : cache_wf empty_cache.
Proof. split; [done|]. intros i v Hi. by apply list_elem_of_lookup_2, list_elem_of_In, (repeat_spec 31 None) in Hi. Qed.

Lemma cache_wf_insert c i x : cache_wf c -> GuestRegToSlot i = None -> cache_wf (<[i := x]> c).
Proof.
  intros [Hl Hd] Hi. split; [by rewrite length_insert|]. intros j v Hj. destruct (decide (i = j)) as [<-|Hne]; [done|].
  rewrite list_lookup_insert_ne in Hj by done. by eapply Hd.
Qed.

Record frame (b b' : Builder) : Prop := {
  frame_ops : Ops b `prefix_of` Ops b';
  frame_block : CurrentBlock b' = CurrentBlock b;
  frame_unit : Unit b' = Unit b;
  frame_entry : Entry b' = Entry b;
  frame_wf : cache_wf (GPRCache b) -> cache_wf (GPRCache b');
  frame_cache : CacheBlock b' = CurrentBlock b \/ (CacheBlock b' = CacheBlock b /\ GPRCache b' = GPRCache b) }.

#[export] Instance frame_preorder : PreOrder frame.
Proof.
  split; [intros b; split; try done; auto|]. intros a b c [A1 A2 A3 A4 A5 A6] [B1 B2 B3 B4 B5 B6].
  split; [by etrans|congruence|congruence|congruence|auto|]. destruct B6 as [B6|[B6 B7]]; [left; congruence|].
  destruct A6 as [A6|[A6 A7]]; [left|right; split]; congruence.
Qed.

Class Grows {A} (m : M A) : Prop := grows : forall b, frame b (m b).2.

#[export] Instance grows_ret {A} (a : A) : Grows (ret a).
Proof. by intros b. Qed.

#[export] Instance grows_bind {A B} (m : M A) (k : A -> M B) : Grows m -> (forall a, Grows (k a)) -> Grows (bind m k).
Proof.
  intros Hm Hk b. unfold bind. specialize (Hm b). destruct (m b) as [a b1]. cbn [snd] in Hm. etrans; [exact Hm|apply Hk].
Qed.

Lemma frame_emit b o : frame b (set_ops b (Ops b ++ [o])).
Proof. split; auto. by exists [o]. Qed.

#[export] Instance grows_emit o : Grows (emit o).
Proof. intros b. apply frame_emit. Qed.

#[export] Instance grows_Constant c : Grows (Constant c).
Proof. intros b. unfold Constant. destruct (find_constant _ _); [done|]. etrans; [apply (frame_emit b (OConstant (u64 c)))|]. split; try done. by right. Qed.

Lemma sync_spec b : let b' := (SyncGPRCache b).2 in frame b b' /\ Ops b' = Ops b /\ CacheBlock b' = CurrentBlock b.
Proof. unfold SyncGPRCache. cbn [snd]. destruct (Nat.eqb_spec (CacheBlock b) (CurrentBlock b)); [done|]. split; [|done]. split; try done; [intros _; apply cache_wf_empty|by left]. Qed.

(** After the cache has been made that of the current block. *)
Lemma frame_synced b b' i x n :
  frame b b' -> CacheBlock b' = CurrentBlock b -> n = CacheBlock b' -> GuestRegToSlot i = None -> frame b (set_cache b' (<[i := x]> (GPRCache b')) n).
Proof. intros [H1 H2 H3 H4 H5 H6] Hc -> Hi. split; auto. intros Hwf. apply cache_wf_insert; auto. Qed.

#[export] Instance grows_LoadGPRSlot n : Grows (LoadGPRSlot n).
Proof.
  intros b. unfold LoadGPRSlot. destruct (GuestRegToSlot n) eqn:Hn; [apply frame_emit|]. destruct (sync_spec b) as (Hf & _ & Hc).
  destruct (SyncGPRCache b) as [[] b1]. cbn [snd] in *.
  assert (Hload : frame b (let '(v, b) := emit (OLoadContext n) b1 in (v, set_cache b (<[n := Some (v, CurrentPC b)]> (GPRCache b)) (CacheBlock b))).2).
  { apply (frame_synced b (set_ops b1 _)); [|done..]. etrans; [exact Hf|apply (frame_emit b1)]. }
  destruct (nth n (GPRCache b1) None) as [[v pc]|]; [destruct (_ && _); [by apply frame_synced|exact Hload]|exact Hload].
Qed.

#[export] Instance grows_StoreGPRSlot n r : Grows (StoreGPRSlot n r).
Proof.
  intros b. unfold StoreGPRSlot. destruct (GuestRegToSlot n) eqn:Hn; [apply frame_emit|]. cbn [emit].
  pose proof (frame_emit b (OStoreContext n r)) as H0. set (b1 := set_ops b _) in *. destruct (sync_spec b1) as (Hf & _ & Hc).
  destruct (SyncGPRCache b1) as [[] b2]. cbn [snd] in *. apply frame_synced; [by etrans|done..].
Qed.

#[export] Instance grows_LoadX n : Grows (LoadX n).
Proof. unfold LoadX. destruct (n =? 31); apply _. Qed.
#[export] Instance grows_LoadXSP n : Grows (LoadXSP n).
Proof. apply _. Qed.
#[export] Instance grows_StoreX n r : Grows (StoreX n r).
Proof. unfold StoreX. destruct (n =? 31); apply _. Qed.
#[export] Instance grows_StoreXSP n r : Grows (StoreXSP n r).
Proof. apply _. Qed.
#[export] Instance grows_StoreReg n b r : Grows (StoreReg n b r).
Proof. unfold StoreReg, StoreW, ZeroExtend32. destruct b; [apply _|]. destruct (n =? 31); apply _. Qed.
#[export] Instance grows_StoreRegSP n b r : Grows (StoreRegSP n b r).
Proof. unfold StoreRegSP, StoreWSP, ZeroExtend32. destruct b; apply _. Qed.
#[export] Instance grows_PCValue t : Grows (PCValue t).
Proof. intros b. apply frame_emit. Qed.

#[export] Hint Extern 5 (Grows (if ?c then _ else _)) => destruct c : typeclass_instances.
#[export] Hint Extern 5 (Grows (match ?c with _ => _ end)) => destruct c : typeclass_instances.

(** ** The invariant *)

Section Logic.
Context (junk : nat -> Z) (entry pc : Z) (s0 : Machine).

(** The operations emitted after those whose values [s0] has. *)
Definition code (b : Builder) : list op := drop (length (Env s0)) (Ops b).

Record inv (b : Builder) (e : list Z) (g : Guest) : Prop := {
  inv_exec : exec junk entry s0 (code b) = mkMachine e g;
  inv_len : length e = length (Ops b);
  inv_env : Forall (in_width 64) e;
  inv_guest : guest_ok g;
  inv_pool : Forall (fun p => e !! p.2 = Some p.1) (Constants b);
  inv_cache_len : length (GPRCache b) = 31%nat;
  inv_cache : CacheBlock b = CurrentBlock b ->
    forall i v p, GPRCache b !! i = Some (Some (v, p)) -> e !! v = Some (reg g i);
  inv_pc : CurrentPC b = pc;
  inv_entry : Entry b = entry;
  inv_dyn : forall i v p, GPRCache b !! i = Some (Some (v, p)) -> GuestRegToSlot i = None;
  inv_open : BlockSetPC b = false }.

Definition wp {A} (m : M A) (e : list Z) (g : Guest) (Q : A -> list Z -> Guest -> Prop) : Prop :=
  forall b, inv b e g -> exists e' g', inv (m b).2 e' g' /\ Q (m b).1 e' g'.

Lemma wp_ret {A} (a : A) e g (Q : A -> list Z -> Guest -> Prop) : Q a e g -> wp (ret a) e g Q.
Proof. intros HQ b Hb. by exists e, g. Qed.

Lemma wp_bind {A B} (m : M A) (f : A -> M B) e g Q :
  wp m e g (fun a e' g' => wp (f a) e' g' Q) -> wp (bind m f) e g Q.
Proof.
  intros Hm b Hb. destruct (Hm b Hb) as (e1 & g1 & H1 & HQ). unfold bind.
  destruct (m b) as [a b1]. by apply HQ.
Qed.

Lemma run_op_length m o : (length (Env m) <= length (Env (run_op junk entry m o)))%nat.
Proof.
  unfold run_op. destruct (Stop (G m)); [done|]. destruct o; cbn [step]; cbv zeta; unfold push, push_g, push_div; repeat case_match; cbn [Env];
    rewrite ?length_app, ?length_insert; cbn [length]; lia.
Qed.

Lemma exec_length m l : (length (Env m) <= length (Env (exec junk entry m l)))%nat.
Proof.
  revert m. induction l as [|o l IH]; intros m; [done|]. unfold exec in *. cbn [foldl]. etrans; [apply (run_op_length m o)|apply IH].
Qed.

Lemma inv_base b e g : inv b e g -> (length (Env s0) <= length (Ops b))%nat.
Proof. intros H. rewrite <- (inv_len _ _ _ H). pose proof (exec_length s0 (code b)) as Hl. by rewrite (inv_exec _ _ _ H) in Hl. Qed.

Lemma code_app b e g l : inv b e g -> code (set_ops b (Ops b ++ l)) = code b ++ l.
Proof. intros H. unfold code. cbn [Ops set_ops]. apply drop_app_le. by eapply inv_base. Qed.

Lemma run_op_live e g o : guest_ok g -> run_op junk entry (mkMachine e g) o = step junk entry (mkMachine e g) o.
Proof. intros (_ & _ & Hs). unfold run_op. cbn [G]. by rewrite Hs. Qed.

(** Appending an operation that pushes [x] and makes the guest state [g']. *)
Lemma inv_push b e g o x g' :
  inv b e g -> step junk entry (mkMachine e g) o = mkMachine (e ++ [x]) g' -> in_width 64 x -> guest_ok g' ->
  (CacheBlock b = CurrentBlock b ->
   forall i v p, GPRCache b !! i = Some (Some (v, p)) -> reg g' i = reg g i) ->
  inv (set_ops b (Ops b ++ [o])) (e ++ [x]) g'.
Proof.
  intros Hb Hs Hx Hg Hc. pose proof (code_app b e g [o] Hb) as Hcode. destruct Hb as [H1 H2 H3 H4 H5 H6 H7 H8 H9 H10 H11].
  split; cbn [Ops Constants GPRCache CacheBlock CurrentBlock CurrentPC Entry BlockSetPC set_ops]; try done.
  - rewrite Hcode. unfold exec in *. rewrite foldl_app. cbn [foldl]. by rewrite H1, run_op_live, Hs.
  - rewrite !length_app. simpl. lia.
  - apply Forall_app. split; [done|]. by constructor.
  - eapply Forall_impl; [exact H5|]. intros [c r] Hr. simpl in *. by apply lookup_app_l_Some.
  - intros Hb i v p Hi. rewrite (Hc Hb i v p Hi). apply lookup_app_l_Some. by eapply H7.
Qed.

Lemma inv_ref b e g : inv b e g -> length (Ops b) = length e.
Proof. intros H. symmetry. apply (inv_len _ _ _ H). Qed.

(** An operation that computes a value. *)
Lemma wp_value o e g x (Q : Ref -> list Z -> Guest -> Prop) :
  step junk entry (mkMachine e g) o = mkMachine (e ++ [x]) g -> in_width 64 x ->
  (forall r e', sub e e' -> e' !! r = Some x -> Q r e' g) -> wp (emit o) e g Q.
Proof.
  intros Hs Hx HQ b Hb. exists (e ++ [x]), g. unfold emit. cbn [fst snd]. split.
  - eapply inv_push; [done|done|done|apply (inv_guest _ _ _ Hb)|done].
  - apply HQ; [by exists [x]|]. rewrite (inv_ref _ _ _ Hb). by apply list_lookup_middle.
Qed.

(** An operation that only changes the flags, or also computes a value. *)
Lemma wp_flag_value o e g x f (Q : Ref -> list Z -> Guest -> Prop) :
  step junk entry (mkMachine e g) o = mkMachine (e ++ [x]) (set_flags g f) -> in_width 64 x ->
  (forall r e', sub e e' -> e' !! r = Some x -> Q r e' (set_flags g f)) -> wp (emit o) e g Q.
Proof.
  intros Hs Hx HQ b Hb. exists (e ++ [x]), (set_flags g f). unfold emit. cbn [fst snd]. split.
  - eapply inv_push; [done|done|done|apply (inv_guest _ _ _ Hb)|done].
  - apply HQ; [by exists [x]|]. rewrite (inv_ref _ _ _ Hb). by apply list_lookup_middle.
Qed.

(** The same, with the result read at its size. *)
Lemma wp_sized o e g sz j v (Q : Ref -> list Z -> Guest -> Prop) :
  step junk entry (mkMachine e g) o = mkMachine (e ++ [res sz j v]) g -> in_width (bits sz) v ->
  (forall r e', sub e e' -> hasw e' sz r v -> Q r e' g) -> wp (emit o) e g Q.
Proof.
  intros Hs Hv HQ. eapply wp_value; [exact Hs|by apply res_range|]. intros r e' Hsub Hr. apply HQ; [done|].
  exists (res sz j v). split; [done|]. by apply wrap_res.
Qed.

Lemma wp_sized_flag o e g f sz j v (Q : Ref -> list Z -> Guest -> Prop) :
  step junk entry (mkMachine e g) o = mkMachine (e ++ [res sz j v]) (set_flags g f) -> in_width (bits sz) v ->
  (forall r e', sub e e' -> hasw e' sz r v -> Q r e' (set_flags g f)) -> wp (emit o) e g Q.
Proof.
  intros Hs Hv HQ. eapply wp_flag_value; [exact Hs|by apply res_range|]. intros r e' Hsub Hr. apply HQ; [done|].
  exists (res sz j v). split; [done|]. by apply wrap_res.
Qed.

Lemma zero_width : in_width 64 0.
Proof. unfold in_width. lia. Qed.

(** *** Rules, one per operation *)

Lemma wp_bin o sz a b va vb e g (Q : Ref -> list Z -> Guest -> Prop) :
  hasw e sz a va -> hasw e sz b vb ->
  (forall r e', sub e e' -> hasw e' sz r (bin o (bits sz) va vb (FC (Flags g))) -> Q r e' g) ->
  wp (emit (OBin o sz a b)) e g Q.
Proof.
  intros Ha Hb. eapply wp_sized.
  - cbn [step push Env G]. by rewrite (hasw_rd _ _ _ _ Ha), (hasw_rd _ _ _ _ Hb).
  - apply bin_range; [done|by eapply hasw_range..].
Qed.

Lemma wp_un o sz a va e g (Q : Ref -> list Z -> Guest -> Prop) :
  hasw e sz a va -> (forall r e', sub e e' -> hasw e' sz r (un o (bits sz) va) -> Q r e' g) ->
  wp (emit (OUn o sz a)) e g Q.
Proof.
  intros Ha. eapply wp_sized.
  - cbn [step push Env G]. by rewrite (hasw_rd _ _ _ _ Ha).
  - by eapply un_range, hasw_range.
Qed.

Lemma wp_flags o sz a b va vb e g (Q : Ref -> list Z -> Guest -> Prop) :
  hasw e sz a va -> hasw e sz b vb ->
  (forall r e', sub e e' -> hasw e' sz r (flag_op o (bits sz) va vb (FC (Flags g))).1 ->
     Q r e' (set_flags g (flag_op o (bits sz) va vb (FC (Flags g))).2)) ->
  wp (emit (OFlags o sz a b)) e g Q.
Proof.
  intros Ha Hb. eapply wp_sized_flag.
  - cbn [step push Env G]. rewrite (hasw_rd _ _ _ _ Ha), (hasw_rd _ _ _ _ Hb).
    destruct (flag_op _ _ _ _ _) as [v f]. done.
  - apply flag_op_range; [done|by eapply hasw_range..].
Qed.

Lemma wp_nzcv (o : OpSize -> Ref -> Ref -> op) f sz a b va vb e g (Q : Ref -> list Z -> Guest -> Prop) :
  (o = OAddNZCV /\ f = add_flags (bits sz) va vb 0) \/ (o = OSubNZCV /\ f = sub_flags (bits sz) va vb 1) ->
  hasw e sz a va -> hasw e sz b vb ->
  (forall r e', sub e e' -> Q r e' (set_flags g f)) -> wp (emit (o sz a b)) e g Q.
Proof.
  intros Ho Ha Hb HQ. apply (wp_flag_value _ e g 0 f); [|apply zero_width|intros; by apply HQ].
  destruct Ho as [[-> ->]|[-> ->]]; cbn [step push_g Env G];
    by rewrite (hasw_rd _ _ _ _ Ha), (hasw_rd _ _ _ _ Hb).
Qed.

Lemma wp_addnzcv sz a b va vb e g (Q : Ref -> list Z -> Guest -> Prop) :
  hasw e sz a va -> hasw e sz b vb ->
  (forall r e', sub e e' -> Q r e' (set_flags g (add_flags (bits sz) va vb 0))) -> wp (emit (OAddNZCV sz a b)) e g Q.
Proof. intros. eapply (wp_nzcv OAddNZCV); eauto. Qed.

Lemma wp_subnzcv sz a b va vb e g (Q : Ref -> list Z -> Guest -> Prop) :
  hasw e sz a va -> hasw e sz b vb ->
  (forall r e', sub e e' -> Q r e' (set_flags g (sub_flags (bits sz) va vb 1))) -> wp (emit (OSubNZCV sz a b)) e g Q.
Proof. intros. eapply (wp_nzcv OSubNZCV); eauto. Qed.

Lemma wp_condnzcv (is_sub : bool) sz a b va vb c k e g (Q : Ref -> list Z -> Guest -> Prop) :
  hasw e sz a va -> hasw e sz b vb ->
  (forall r e', sub e e' ->
     Q r e' (set_flags g (if nzcv_cond c (Flags g)
                          then if is_sub then sub_flags (bits sz) va vb 1 else add_flags (bits sz) va vb 0
                          else nzcv_of k))) ->
  wp (emit (if is_sub then OCondSubNZCV sz a b c k else OCondAddNZCV sz a b c k)) e g Q.
Proof.
  intros Ha Hb HQ. eapply (wp_flag_value _ e g 0); [|apply zero_width|intros; by apply HQ].
  destruct is_sub; cbn [step push_g Env G]; by rewrite (hasw_rd _ _ _ _ Ha), (hasw_rd _ _ _ _ Hb).
Qed.

Lemma wp_bfe sz w lsb a va e g (Q : Ref -> list Z -> Guest -> Prop) :
  hasw e sz a va -> 0 <= w <= bits sz -> 
  (forall r e', sub e e' -> hasw e' sz r (wrap w (Z.shiftr va lsb)) -> Q r e' g) ->
  wp (emit (OBfe sz w lsb a)) e g Q.
Proof.
  intros Ha Hw. eapply wp_sized.
  - cbn [step push Env G]. by rewrite (hasw_rd _ _ _ _ Ha).
  - eapply in_width_mono; [apply wrap_range; lia|lia|lia].
Qed.

Lemma wp_sbfe sz w lsb a va e g (Q : Ref -> list Z -> Guest -> Prop) :
  hasw e sz a va ->
  (forall r e', sub e e' -> hasw e' sz r (wrap (bits sz) (sgn w (Z.shiftr va lsb))) -> Q r e' g) ->
  wp (emit (OSbfe sz w lsb a)) e g Q.
Proof.
  intros Ha. eapply wp_sized.
  - cbn [step push Env G]. by rewrite (hasw_rd _ _ _ _ Ha).
  - apply wrap_range. pose proof (bits_pos sz). lia.
Qed.

Lemma wp_bfi sz w lsb d a vd va e g (Q : Ref -> list Z -> Guest -> Prop) :
  hasw e sz d vd -> hasw e sz a va -> 0 <= w -> 0 <= lsb -> w + lsb <= bits sz ->
  (forall r e', sub e e' -> hasw e' sz r (Z.lor (Z.ldiff vd (Z.shiftl (field_mask w) lsb))
     (Z.shiftl (Z.land va (field_mask w)) lsb)) -> Q r e' g) ->
  wp (emit (OBfi sz w lsb d a)) e g Q.
Proof.
  intros Hd Ha Hw Hl Hwl. pose proof (bits_pos sz). eapply wp_sized.
  - cbn [step push Env G]. by rewrite (hasw_rd _ _ _ _ Ha), (hasw_rd _ _ _ _ Hd).
  - apply in_width_lor; [lia|by apply in_width_ldiff; [lia|eapply hasw_range]|].
    unfold field_mask. rewrite land_wrap, Z.shiftl_mul_pow2 by lia.
    destruct (wrap_range w va) as [H0 H1]; [lia|]. assert (0 < 2 ^ lsb) by (apply Z.pow_pos_nonneg; lia).
    apply in_width_mono with (w + lsb); [|lia|lia]. split; [nia|]. rewrite Z.pow_add_r by lia. nia.
Qed.

Lemma wp_bfxil sz w lsb d a vd va e g (Q : Ref -> list Z -> Guest -> Prop) :
  hasw e sz d vd -> hasw e sz a va -> 0 <= w <= bits sz -> 
  (forall r e', sub e e' -> hasw e' sz r (Z.lor (Z.ldiff vd (field_mask w))
     (Z.land (Z.shiftr va lsb) (field_mask w))) -> Q r e' g) ->
  wp (emit (OBfxil sz w lsb d a)) e g Q.
Proof.
  intros Hd Ha Hw. pose proof (bits_pos sz). eapply wp_sized.
  - cbn [step push Env G]. by rewrite (hasw_rd _ _ _ _ Ha), (hasw_rd _ _ _ _ Hd).
  - apply in_width_lor; [lia|by apply in_width_ldiff; [lia|eapply hasw_range]|].
    unfold field_mask. rewrite land_wrap by lia. eapply in_width_mono; [apply wrap_range|..]; lia.
Qed.

Lemma wp_extr sz u l lsb vu vl e g (Q : Ref -> list Z -> Guest -> Prop) :
  hasw e sz u vu -> hasw e sz l vl ->
  (forall r e', sub e e' -> hasw e' sz r (wrap (bits sz) (Z.shiftr (vu * 2 ^ bits sz + vl) lsb)) -> Q r e' g) ->
  wp (emit (OExtr sz u l lsb)) e g Q.
Proof.
  intros Hu Hl. pose proof (bits_pos sz). eapply wp_sized.
  - cbn [step push Env G]. by rewrite (hasw_rd _ _ _ _ Hu), (hasw_rd _ _ _ _ Hl).
  - apply wrap_range. lia.
Qed.

Lemma wp_select sz cs c a b t f va vb vt vf x e g (Q : Ref -> list Z -> Guest -> Prop) :
  hasw e cs a va -> hasw e cs b vb -> hasw e sz t vt -> hasw e sz f vf -> compare c (bits cs) va vb = Some x ->
  (forall r e', sub e e' -> hasw e' sz r (if x then vt else vf) -> Q r e' g) ->
  wp (emit (OSelect sz cs c a b t f)) e g Q.
Proof.
  intros Ha Hb Ht Hf Hc. eapply wp_sized.
  - cbn [step push Env G]. rewrite (hasw_rd _ _ _ _ Ha), (hasw_rd _ _ _ _ Hb), Hc.
    by rewrite (hasw_rd _ _ _ _ Ht), (hasw_rd _ _ _ _ Hf).
  - destruct x; by eapply hasw_range.
Qed.

Lemma wp_nzcvselect sz c t f vt vf e g (Q : Ref -> list Z -> Guest -> Prop) :
  hasw e sz t vt -> hasw e sz f vf ->
  (forall r e', sub e e' -> hasw e' sz r (if nzcv_cond c (Flags g) then vt else vf) -> Q r e' g) ->
  wp (emit (ONZCVSelect sz c t f)) e g Q.
Proof.
  intros Ht Hf. eapply wp_sized.
  - cbn [step push Env G]. by rewrite (hasw_rd _ _ _ _ Ht), (hasw_rd _ _ _ _ Hf).
  - destruct (nzcv_cond _ _); by eapply hasw_range.
Qed.

Lemma wp_muladd sz a b c va vb vc e g (Q : Ref -> list Z -> Guest -> Prop) :
  hasw e sz a va -> hasw e sz b vb -> hasw e sz c vc ->
  (forall r e', sub e e' -> hasw e' sz r (wrap (bits sz) (va * vb + vc)) -> Q r e' g) ->
  wp (emit (OMulAdd sz a b c)) e g Q.
Proof.
  intros Ha Hb Hc. pose proof (bits_pos sz). eapply wp_sized.
  - cbn [step push Env G]. by rewrite (hasw_rd _ _ _ _ Ha), (hasw_rd _ _ _ _ Hb), (hasw_rd _ _ _ _ Hc).
  - apply wrap_range. lia.
Qed.

Lemma wp_smull a b va vb e g (Q : Ref -> list Z -> Guest -> Prop) :
  hasw e i32Bit a va -> hasw e i32Bit b vb ->
  (forall r e', sub e e' -> hasw e' i64Bit r (u64 (sgn 32 va * sgn 32 vb)) -> Q r e' g) ->
  wp (emit (OSMull a b)) e g Q.
Proof.
  intros Ha Hb. apply (wp_sized (OSMull a b) e g i64Bit 0).
  - cbn [step push Env G res]. by rewrite (hasw_rd _ _ _ _ Ha), (hasw_rd _ _ _ _ Hb).
  - apply wrap_range. simpl. lia.
Qed.

(** *** The constant pool *)

Lemma find_constant_in c l r : find_constant c l = Some r -> (c, r) ∈ l.
Proof.
  induction l as [|[c' r'] l IH]; simpl; [done|]. destruct (Z.eqb_spec c' c) as [->|].
  - intros [= ->]. by apply list_elem_of_here.
  - intros H. apply list_elem_of_further. auto.
Qed.

Lemma hasw_const e r c : e !! r = Some c -> in_width 64 c -> hasw e i64Bit r c.
Proof. intros Hr Hc. exists c. split; [done|]. by apply wrap_small. Qed.

Lemma wp_constant c e g (Q : Ref -> list Z -> Guest -> Prop) :
  (forall r e', sub e e' -> hasw e' i64Bit r (u64 c) -> Q r e' g) -> wp (Constant c) e g Q.
Proof.
  intros HQ b Hb. unfold Constant. assert (Hw : in_width 64 (u64 c)) by (apply wrap_range; lia).
  destruct (find_constant (u64 c) (Constants b)) as [r|] eqn:Hf.
  - exists e, g. split; [done|]. apply HQ; [done|]. apply hasw_const; [|done].
    apply find_constant_in in Hf. pose proof (inv_pool _ _ _ Hb) as Hp. rewrite Forall_forall in Hp.
    by apply (Hp (u64 c, r)).
  - unfold emit. cbn [Constants set_ops NrConstants fst snd].
    assert (Hi : inv (set_ops b (Ops b ++ [OConstant (u64 c)])) (e ++ [u64 c]) g).
    { eapply inv_push; [done| |done|apply (inv_guest _ _ _ Hb)|done].
      cbn [step push Env G]. unfold u64. by rewrite wrap_wrap by lia. }
    assert (Hr : (e ++ [u64 c]) !! length (Ops b) = Some (u64 c))
      by (rewrite (inv_ref _ _ _ Hb); by apply list_lookup_middle).
    exists (e ++ [u64 c]), g. split; [|apply HQ; [by exists [u64 c]|by apply hasw_const]].
    destruct Hi as [I1 I2 I3 I4 I5 I6 I7 I8 I9 I10 I11]. split; try done. cbn [Constants set_pool].
    destruct (_ <? _)%nat; [apply Forall_app; split; [done|by constructor]|by apply Forall_insert].
Qed.

Lemma wp_pcvalue Target e g (Q : Ref -> list Z -> Guest -> Prop) :
  (forall r e', sub e e' -> hasw e' i64Bit r (u64 Target) -> Q r e' g) -> wp (PCValue Target) e g Q.
Proof.
  intros HQ b Hb. unfold PCValue. rewrite (inv_entry _ _ _ Hb).
  eapply (wp_sized _ e g i64Bit 0 (u64 Target)); [|apply wrap_range; simpl; lia|exact HQ|exact Hb].
  cbn [step push Env G res]. by replace (entry + (Target - entry)) with Target by lia.
Qed.

(** *** Guest registers *)

Lemma slot_some n s : GuestRegToSlot n = Some s -> nth s StaticGPRGuestReg 0%nat = n.
Proof.
  intros H. do 32 (destruct n as [|n]; [vm_compute in H; first [discriminate H|injection H as <-; reflexivity]|]).
  vm_compute in H. discriminate H.
Qed.

(** Only registers below 31 have no static slot, so the cache index is in
    range; SP is always static. *)
Lemma slot_none n : (n < 32)%nat -> GuestRegToSlot n = None -> (n < 31)%nat.
Proof. intros Hn H. destruct (decide (n = 31%nat)) as [->|]; [done|lia]. Qed.

Lemma sync_inv b e g :
  inv b e g -> inv (SyncGPRCache b).2 e g /\ CacheBlock (SyncGPRCache b).2 = CurrentBlock (SyncGPRCache b).2 /\
  Ops (SyncGPRCache b).2 = Ops b.
Proof.
  intros Hb. unfold SyncGPRCache. cbn [snd]. destruct (Nat.eqb_spec (CacheBlock b) (CurrentBlock b)); [done|].
  split; [|done]. destruct Hb as [I1 I2 I3 I4 I5 I6 I7 I8 I9 I10 I11].
  assert (Hno : forall i v p, empty_cache !! i <> Some (Some (v, p))).
  { intros i v p Hi. apply list_elem_of_lookup_2, list_elem_of_In, (repeat_spec 31 None) in Hi. done. }
  split; try done; [intros _|]; intros i v p Hi; by apply Hno in Hi.
Qed.

Lemma reg_width g n : guest_ok g -> in_width 64 (reg g n).
Proof.
  intros (Hl & Hw & _). unfold reg. destruct (nth_in_or_default n (Regs g) 0) as [H| ->]; [|unfold in_width; lia].
  rewrite Forall_forall in Hw. apply Hw. by apply list_elem_of_In.
Qed.

(** Recording in the cache a reference that holds the register's value. *)
Lemma cache_inv b e g i x :
  inv b e g -> (i < 31)%nat -> GuestRegToSlot i = None ->
  (forall v p, x = Some (v, p) -> e !! v = Some (reg g i)) ->
  inv (set_cache b (<[i := x]> (GPRCache b)) (CacheBlock b)) e g.
Proof.
  intros [I1 I2 I3 I4 I5 I6 I7 I8 I9 I10 I11] Hi Hs Hx. split; try done; cbn [GPRCache set_cache CacheBlock CurrentBlock].
  - by rewrite length_insert.
  - intros Hblk j v p Hj. destruct (decide (j = i)) as [->|Hne].
    + rewrite list_lookup_insert_eq in Hj by lia. injection Hj as Hj. by eapply Hx.
    + rewrite list_lookup_insert_ne in Hj by done. by eapply I7.
  - intros j v p Hj. destruct (decide (j = i)) as [->|Hne]; [done|].
    rewrite list_lookup_insert_ne in Hj by done. by eapply I10.
Qed.

Lemma wp_load_slot n e g (Q : Ref -> list Z -> Guest -> Prop) :
  (n < 32)%nat -> (forall r e', sub e e' -> hasw e' i64Bit r (reg g n) -> Q r e' g) -> wp (LoadGPRSlot n) e g Q.
Proof.
  intros Hn HQ b Hb. pose proof (reg_width g n (inv_guest _ _ _ Hb)) as Hw. unfold LoadGPRSlot.
  destruct (GuestRegToSlot n) as [s|] eqn:Hs.
  - eapply (wp_sized _ e g i64Bit 0 (reg g n)); [|exact Hw|exact HQ|exact Hb].
    cbn [step push Env G res]. by rewrite (slot_some n s Hs).
  - pose proof (slot_none n Hn Hs) as Hn31. destruct (sync_inv b e g Hb) as (Hb1 & Hblk & _).
    destruct (SyncGPRCache b) as [[] b1]. cbn [snd] in *.
    assert (Hload : exists e' g', inv (let '(v, b) := emit (OLoadContext n) b1 in
        (v, set_cache b (<[n := Some (v, CurrentPC b)]> (GPRCache b)) (CacheBlock b))).2 e' g' /\
        Q (let '(v, b) := emit (OLoadContext n) b1 in
        (v, set_cache b (<[n := Some (v, CurrentPC b)]> (GPRCache b)) (CacheBlock b))).1 e' g').
    { assert (Hr : (e ++ [reg g n]) !! length (Ops b1) = Some (reg g n))
        by (rewrite (inv_ref _ _ _ Hb1); by apply list_lookup_middle).
      exists (e ++ [reg g n]), g. unfold emit. cbn [fst snd]. split.
      - apply cache_inv; [|done|done|by intros v p [= <- <-]].
        eapply inv_push; [done|done|done|apply (inv_guest _ _ _ Hb)|done].
      - apply HQ; [by exists [reg g n]|by apply hasw_const]. }
    destruct (nth n (GPRCache b1) None) as [[v p]|] eqn:Hc; [|exact Hload].
    destruct (_ && _); [|exact Hload].
    assert (He : e !! v = Some (reg g n)).
    { eapply (inv_cache _ _ _ Hb1 Hblk n v p). rewrite nth_lookup in Hc.
      destruct (GPRCache b1 !! n) as [y|]; [by rewrite <- Hc|done]. }
    exists e, g. cbn [fst snd]. split; [|apply HQ; [done|by apply hasw_const]].
    apply cache_inv; [done|done|done|]. by intros v' p' [= <- <-].
Qed.

Lemma set_reg_ok g n v : guest_ok g -> in_width 64 v -> guest_ok (set_reg g n v).
Proof. intros (Hl & Hw & Hs) Hv. split_and!; cbn; [by rewrite length_insert|by apply Forall_insert|done]. Qed.

Lemma reg_set_other g n v i : i <> n -> reg (set_reg g n v) i = reg g i.
Proof.
  intros Hne. unfold reg, set_reg. cbn [Regs]. rewrite !nth_lookup. by rewrite list_lookup_insert_ne.
Qed.

Lemma reg_set g n v : guest_ok g -> (n < 32)%nat -> reg (set_reg g n v) n = v.
Proof.
  intros [Hl _] Hn. unfold reg, set_reg. cbn [Regs]. rewrite nth_lookup, list_lookup_insert_eq by lia. done.
Qed.

Lemma wp_store_slot n r v e g (Q : unit -> list Z -> Guest -> Prop) :
  (n < 32)%nat -> hasw e i64Bit r v -> (forall e', sub e e' -> Q tt e' (set_reg g n v)) ->
  wp (StoreGPRSlot n r) e g Q.
Proof.
  intros Hn Hr HQ b Hb. pose proof (hasw_range _ _ _ _ Hr) as Hv. destruct Hr as (x & Hx & Hxv).
  assert (Hxw : x = v).
  { rewrite <- Hxv. symmetry. apply wrap_small. pose proof (inv_env _ _ _ Hb) as He. by eapply Forall_lookup_1 in He. }
  subst x. assert (Hnth : nth r e 0 = v) by (by rewrite (nth_lookup e), Hx).
  pose proof (inv_guest _ _ _ Hb) as Hg. pose proof (set_reg_ok g n v Hg Hv) as Hg'.
  exists (e ++ [0]), (set_reg g n v). unfold StoreGPRSlot.
  destruct (GuestRegToSlot n) as [s|] eqn:Hs; unfold emit; cbn [fst snd].
  - split; [|apply HQ; by exists [0]]. eapply inv_push; [done| |apply zero_width|done|].
    + cbn [step push_g Env G]. by rewrite (slot_some n s Hs), Hnth.
    + intros Hblk i w p Hi. apply reg_set_other. intros ->. apply (inv_dyn _ _ _ Hb) in Hi. congruence.
  - pose proof (slot_none n Hn Hs) as Hn31.
    (* the stale entry of register n is replaced before it is used again *)
    set (b0 := set_cache b (<[n := None]> (GPRCache b)) (CacheBlock b)).
    assert (Hb0 : inv b0 e g) by (by apply cache_inv).
    assert (Hb1 : inv (set_ops b0 (Ops b0 ++ [OStoreContext n r])) (e ++ [0]) (set_reg g n v)).
    { eapply inv_push; [done| |apply zero_width|done|].
      - cbn [step push_g Env G]. by rewrite Hnth.
      - intros Hblk i w p Hi. apply reg_set_other. intros ->. cbn [b0 set_cache GPRCache] in Hi.
        rewrite list_lookup_insert_eq in Hi by (rewrite (inv_cache_len _ _ _ Hb); lia). done. }
    split; [|apply HQ; by exists [0]].
    destruct (sync_inv _ _ _ Hb1) as (Hb2 & _ & _).
    set (b2 := (SyncGPRCache (set_ops b0 (Ops b0 ++ [OStoreContext n r]))).2) in Hb2.
    set (y := if match Ops b2 !! r with Some o => bool_decide (op_size o = i64Bit) | None => false end
              then Some (r, CurrentPC b2) else None).
    match goal with |- inv ?X _ _ => replace X with (set_cache b2 (<[n := y]> (GPRCache b2)) (CacheBlock b2)) end.
    + apply cache_inv; [done|done|done|]. intros w p Hy. unfold y in Hy.
      destruct (Ops b2 !! r) as [o|]; [|done]. destruct (bool_decide _); [|done]. injection Hy as <- <-.
      rewrite reg_set by done. by apply lookup_app_l_Some.
    + unfold y, b2, b0, SyncGPRCache. cbn. destruct (Nat.eqb _ _); cbn; [|done].
      unfold set_cache. cbn. by rewrite list_insert_insert_eq.
Qed.


Lemma wp_loadX n e g (Q : Ref -> list Z -> Guest -> Prop) :
  0 <= n < 32 -> (forall r e', sub e e' -> hasw e' i64Bit r (rX g n) -> Q r e' g) -> wp (LoadX n) e g Q.
Proof.
  intros Hn HQ. unfold LoadX, rX in *. destruct (n =? 31); [by apply wp_constant|].
  apply wp_load_slot; [lia|done].
Qed.

Lemma wp_loadXSP n e g (Q : Ref -> list Z -> Guest -> Prop) :
  0 <= n < 32 -> (forall r e', sub e e' -> hasw e' i64Bit r (rXSP g n) -> Q r e' g) -> wp (LoadXSP n) e g Q.
Proof. intros Hn HQ. apply wp_load_slot; [lia|done]. Qed.

Lemma wp_storeX n r v e g (Q : unit -> list Z -> Guest -> Prop) :
  0 <= n < 32 -> hasw e i64Bit r v -> (forall e', sub e e' -> Q tt e' (wX g n v)) -> wp (StoreX n r) e g Q.
Proof.
  intros Hn Hr HQ. unfold StoreX, wX in *. destruct (n =? 31); [apply wp_ret; by apply HQ|].
  eapply wp_store_slot; [lia|done|done].
Qed.

Lemma zext_value v : in_width 32 v -> wrap 32 (Z.shiftr v 0) = v.
Proof. intros Hv. rewrite Z.shiftr_0_r. by apply wrap_small. Qed.

Lemma wp_zext r v e g (Q : Ref -> list Z -> Guest -> Prop) :
  hasw e i32Bit r v -> (forall r' e', sub e e' -> hasw e' i64Bit r' v -> Q r' e' g) -> wp (ZeroExtend32 r) e g Q.
Proof.
  intros (x & Hx & Hv) HQ. pose proof (wrap_range 32 x ltac:(lia)) as Hw. cbn [bits] in Hv. rewrite Hv in Hw.
  unfold ZeroExtend32. apply (wp_bfe i64Bit 32 0 r (wrap 64 x)); [by exists x|simpl; lia|].
  intros r' e' Hs Hr'. apply HQ; [done|]. replace v with (wrap 32 (Z.shiftr (wrap 64 x) 0)); [done|].
  rewrite Z.shiftr_0_r, <- Hv. unfold wrap. apply Z.mod_mod_divide. by exists (2 ^ 32).
Qed.

(** Both widths at once: the value of the operand at the width of the
    instruction is what the register becomes. *)
Lemma wp_storeReg n Is64 r v e g (Q : unit -> list Z -> Guest -> Prop) :
  0 <= n < 32 -> hasw e (SizeFor Is64) r v -> (forall e', sub e e' -> Q tt e' (wX g n v)) ->
  wp (StoreReg n Is64 r) e g Q.
Proof.
  intros Hn Hr HQ. unfold StoreReg. destruct Is64; [by eapply wp_storeX|].
  unfold StoreW, wX in *. destruct (n =? 31); [apply wp_ret; by apply HQ|].
  apply wp_bind. eapply wp_zext; [exact Hr|]. intros r' e' Hs Hr'. eapply wp_store_slot; [lia|exact Hr'|].
  intros e'' Hs'. apply HQ. by etrans.
Qed.

Lemma wp_storeRegSP n Is64 r v e g (Q : unit -> list Z -> Guest -> Prop) :
  0 <= n < 32 -> hasw e (SizeFor Is64) r v -> (forall e', sub e e' -> Q tt e' (wXSP g n v)) ->
  wp (StoreRegSP n Is64 r) e g Q.
Proof.
  intros Hn Hr HQ. unfold StoreRegSP. destruct Is64; [eapply wp_store_slot; [lia|exact Hr|done]|].
  unfold StoreWSP. apply wp_bind. eapply wp_zext; [exact Hr|]. intros r' e' Hs Hr'.
  eapply wp_store_slot; [lia|exact Hr'|]. intros e'' Hs'. apply HQ. by etrans.
Qed.

(** *** Division into allocated registers *)

Lemma inv_extend b e g ops d :
  inv b e g -> exec junk entry (mkMachine e g) ops = mkMachine (e ++ d) g -> length d = length ops ->
  Forall (in_width 64) d -> inv (set_ops b (Ops b ++ ops)) (e ++ d) g.
Proof.
  intros Hb Hs Hl Hd. pose proof (code_app b e g ops Hb) as Hcode. destruct Hb as [H1 H2 H3 H4 H5 H6 H7 H8 H9 H10 H11].
  split; cbn [Ops Constants GPRCache CacheBlock CurrentBlock CurrentPC Entry BlockSetPC set_ops]; try done.
  - rewrite Hcode. unfold exec in *. by rewrite foldl_app, H1.
  - rewrite !length_app. lia.
  - by apply Forall_app.
  - eapply Forall_impl; [exact H5|]. intros [c r] Hr. simpl in *. by apply lookup_app_l_Some.
  - intros Hb i v p Hi. apply lookup_app_l_Some. by eapply H7.
Qed.

Lemma insert_end (e : list Z) a b x y :
  <[S (length e) := y]> (<[length e := x]> (e ++ [a; b])) = e ++ [x; y].
Proof.
  rewrite insert_app_r_alt, Nat.sub_diag by lia. simpl. rewrite insert_app_r_alt by lia.
  by replace (S (length e) - length e)%nat with 1%nat by lia.
Qed.

Lemma wp_alloc_div {A} (mk : Ref -> Ref -> op) (k : Ref -> M A) sz vq vr jq jr e g Q :
  (forall j1 j2, step junk entry (mkMachine (e ++ [j1; j2]) g) (mk (length e) (S (length e))) =
     push_div (mkMachine (e ++ [j1; j2]) g) (length e) (S (length e)) (res sz jq vq) (res sz jr vr)) ->
  in_width (bits sz) vq -> in_width (bits sz) vr ->
  (forall q e', sub e e' -> hasw e' sz q vq -> wp (k q) e' g Q) ->
  wp (q <- emit OAllocateGPR ;; r <- emit OAllocateGPR ;; emit (mk q r) ;;; k q) e g Q.
Proof.
  intros Hs Hq Hr HQ b Hb. unfold bind, emit. cbn [Ops set_ops].
  rewrite length_app, (inv_ref _ _ _ Hb), Nat.add_1_r.
  set (b' := set_ops (set_ops (set_ops b _) _) _).
  set (d := [res sz jq vq; res sz jr vr; 0]).
  assert (Hi : inv b' (e ++ d) g).
  { replace b' with (set_ops b (Ops b ++ [OAllocateGPR; OAllocateGPR; mk (length e) (S (length e))]))
      by (unfold b', set_ops; cbn; by rewrite <- !app_assoc).
    apply inv_extend; [done| |done|repeat (apply Forall_cons; split);
      [by apply res_range|by apply res_range|apply zero_width|constructor]].
    pose proof (inv_guest _ _ _ Hb) as Hok. unfold exec. cbn [foldl]. rewrite run_op_live by done. unfold step at 1, push. cbn [Env G].
    rewrite run_op_live by done. unfold step at 1, push. cbn [Env G]. rewrite run_op_live by done.
    rewrite <- app_assoc. cbn [app]. rewrite Hs. unfold push_div. cbn [Env G].
    by rewrite insert_end, <- app_assoc. }
  apply (HQ (length e) (e ++ d)); [by exists d| |exact Hi].
  exists (res sz jq vq). split; [by apply list_lookup_middle|by apply wrap_res].
Qed.

Lemma hasw_app e d sz r v : hasw e sz r v -> hasw (e ++ d) sz r v.
Proof. apply hasw_mono. by exists d. Qed.

Lemma wp_udiv {A} (k : Ref -> M A) sz a b va vb e g Q :
  hasw e sz a va -> hasw e sz b vb -> vb <> 0 ->
  (forall q e', sub e e' -> hasw e' sz q (va / vb) -> wp (k q) e' g Q) ->
  wp (q <- emit OAllocateGPR ;; r <- emit OAllocateGPR ;; emit (OUDiv sz a b q r) ;;; k q) e g Q.
Proof.
  intros Ha Hb Hnz HQ. destruct (hasw_range _ _ _ _ Ha) as [Ha0 Ha1], (hasw_range _ _ _ _ Hb) as [Hb0 Hb1].
  eapply (wp_alloc_div (OUDiv sz a b) k sz (va / vb) (va mod vb)).
  - intros j1 j2. cbn [step Env G]. rewrite (hasw_rd _ _ _ _ (hasw_app _ _ _ _ _ Ha)), (hasw_rd _ _ _ _ (hasw_app _ _ _ _ _ Hb)).
    rewrite (proj2 (Z.eqb_neq vb 0)) by done. rewrite length_app. cbn [length]. reflexivity.
  - split; [apply Z.div_pos; lia|]. apply Z.le_lt_trans with va; [|done]. apply Z.div_le_upper_bound; nia.
  - pose proof (Z.mod_pos_bound va vb). split; lia.
  - exact HQ.
Qed.

Lemma wp_sdiv {A} (k : Ref -> M A) sz a b va vb e g Q (N := bits sz) :
  hasw e sz a va -> hasw e sz b vb -> sgn N vb <> 0 -> ~ (sgn N va = - 2 ^ (N - 1) /\ sgn N vb = -1) ->
  (forall q e', sub e e' -> hasw e' sz q (wrap N (Z.quot (sgn N va) (sgn N vb))) -> wp (k q) e' g Q) ->
  wp (q <- emit OAllocateGPR ;; r <- emit OAllocateGPR ;; emit (ODiv sz a b q r) ;;; k q) e g Q.
Proof.
  intros Ha Hb Hnz Hov HQ. pose proof (bits_pos sz) as HN.
  eapply (wp_alloc_div (ODiv sz a b) k sz _ (wrap N (Z.rem (sgn N va) (sgn N vb)))).
  - intros j1 j2. cbn [step Env G]. rewrite (hasw_rd _ _ _ _ (hasw_app _ _ _ _ _ Ha)), (hasw_rd _ _ _ _ (hasw_app _ _ _ _ _ Hb)).
    fold N. rewrite (proj2 (Z.eqb_neq _ 0)) by done. cbn [orb].
    destruct (Z.eqb_spec (sgn N va) (- 2 ^ (N - 1))), (Z.eqb_spec (sgn N vb) (-1)); try tauto;
      cbn [andb]; rewrite length_app; cbn [length]; reflexivity.
  - apply wrap_range. fold N in HN. lia.
  - apply wrap_range. fold N in HN. lia.
  - exact HQ.
Qed.

(** ** Blocks that stop

    [wpf m e g Q F]: either the operations [m] emits run to their end, with [Q],
    or their execution stops in a state with [F], and whatever is emitted after
    them does not matter. *)

Definition stopped (b : Builder) (g : Guest) : Prop := G (exec junk entry s0 (code b)) = g /\ trapped (Stop g) = true.

Lemma trapped_stop r : trapped r = true -> r <> None.
Proof. by destruct r. Qed.

Definition wpf {A} (m : M A) (e : list Z) (g : Guest) (Q : A -> list Z -> Guest -> Prop) (F : Guest -> Prop) : Prop :=
  forall b, inv b e g -> (exists e' g', inv (m b).2 e' g' /\ Q (m b).1 e' g') \/ (exists g', stopped (m b).2 g' /\ F g').

Lemma run_stopped m l : Stop (G m) <> None -> foldl (run_op junk entry) m l = m.
Proof. intros Hs. induction l as [|o l IH]; [done|]. cbn [foldl]. unfold run_op at 2. by destruct (Stop (G m)). Qed.

Lemma stopped_grows b b' g : stopped b g -> Ops b `prefix_of` Ops b' -> stopped b' g.
Proof.
  intros [Hg Hs] [l Hl]. split; [|done]. unfold code, exec in *. rewrite Hl, drop_app, foldl_app, run_stopped; [done|rewrite Hg; by apply trapped_stop].
Qed.

Lemma wpf_wp {A} (m : M A) e g Q F : wp m e g Q -> wpf m e g Q F.
Proof. intros H b Hb. left. by apply H. Qed.

Lemma wpf_ret {A} (a : A) e g (Q : A -> list Z -> Guest -> Prop) F : Q a e g -> wpf (ret a) e g Q F.
Proof. intros HQ. by apply wpf_wp, wp_ret. Qed.

Lemma wpf_bind {A B} (m : M A) (f : A -> M B) e g Q F :
  wp m e g (fun a e' g' => wpf (f a) e' g' Q F) -> wpf (bind m f) e g Q F.
Proof.
  intros Hm b Hb. destruct (Hm b Hb) as (e1 & g1 & H1 & HQ). unfold bind. destruct (m b) as [a b1]. by apply HQ.
Qed.

Lemma wpf_bind_stop {A B} (m : M A) (f : A -> M B) e g Q F :
  (forall a, Grows (f a)) ->
  wpf m e g (fun a e' g' => wpf (f a) e' g' Q F) F -> wpf (bind m f) e g Q F.
Proof.
  intros Hgr Hm b Hb. unfold bind. destruct (Hm b Hb) as [(e1 & g1 & H1 & HQ)|(g1 & H1 & HF)].
  - destruct (m b) as [a b1]. by apply HQ.
  - right. exists g1. split; [|done]. destruct (m b) as [a b1]. eapply stopped_grows; [exact H1|apply frame_ops, Hgr].
Qed.

Lemma wpf_mono {A} (m : M A) e g (Q Q' : A -> list Z -> Guest -> Prop) (F F' : Guest -> Prop) :
  (forall a e' g', Q a e' g' -> Q' a e' g') -> (forall g', F g' -> F' g') -> wpf m e g Q F -> wpf m e g Q' F'.
Proof.
  intros HQ HF Hm b Hb. destruct (Hm b Hb) as [(e1 & g1 & H1 & H2)|(g1 & H1 & H2)]; [left|right]; eauto 6.
Qed.

(** An operation that stops. *)
Lemma wpf_stop o e g r (Q : Ref -> list Z -> Guest -> Prop) (F : Guest -> Prop) :
  G (step junk entry (mkMachine e g) o) = set_stop g r -> trapped (Some r) = true -> F (set_stop g r) -> wpf (emit o) e g Q F.
Proof.
  intros Hs Hr HF b Hb. right. exists (set_stop g r). split; [|done]. unfold emit, stopped. cbn [snd]. split; [|done].
  pose proof (inv_exec _ _ _ Hb) as He. rewrite (code_app b e g [o] Hb). unfold exec in *. rewrite foldl_app. cbn [foldl].
  rewrite He, run_op_live by apply (inv_guest _ _ _ Hb). done.
Qed.

(** *** Memory *)

Definition offw (e : list Z) (off : option Ref) (vo : option Z) : Prop :=
  match off, vo with Some r, Some v => hasw e i64Bit r v | None, None => True | _, _ => False end.

Definition ea (va : Z) (vo : option Z) (t : MemOffsetType) (k : Z) : Z :=
  u64 (va + match vo with Some v => mem_offset t v * k | None => 0 end).

Lemma hasw_nth e r v : Forall (in_width 64) e -> hasw e i64Bit r v -> nth r e 0 = v.
Proof.
  intros He (x & Hx & <-). rewrite (nth_lookup e), Hx. symmetry. apply wrap_small. by eapply Forall_lookup_1 in He.
Qed.

Lemma mem_address_ea e a off t k va vo :
  Forall (in_width 64) e -> hasw e i64Bit a va -> offw e off vo -> mem_address e a off t k = ea va vo t k.
Proof.
  intros He Ha Ho. unfold mem_address, ea. rewrite (hasw_nth e a va) by done.
  destruct off as [r|], vo as [v|]; try done. by rewrite (hasw_nth e r v).
Qed.

Lemma from_le_width l : Forall (in_width 8) l -> in_width (8 * Z.of_nat (length l)) (from_le l).
Proof.
  induction 1 as [|b l [Hb0 Hb1] Hl [IH0 IH1]]; cbn [from_le length]; [unfold in_width; cbn; lia|].
  unfold in_width. replace (8 * Z.of_nat (S (length l))) with (8 + 8 * Z.of_nat (length l)) by lia.
  rewrite Z.pow_add_r by lia. change (2 ^ 8) with 256 in *. lia.
Qed.

Lemma read_bytes_range n a m : length (read_bytes n a m) = n /\ Forall (in_width 8) (read_bytes n a m).
Proof.
  unfold read_bytes, addresses. split; [by rewrite !length_map, length_seq|]. apply Forall_forall.
  intros x (y & -> & _)%list_elem_of_fmap. apply wrap_range. lia.
Qed.

Lemma loaded_range n a m : (n <= 8)%nat -> in_width 64 (from_le (read_bytes n a m)) /\ in_width 64 (from_le (rev (read_bytes n a m))).
Proof.
  intros Hn. destruct (read_bytes_range n a m) as [Hl Hr].
  assert (Hmono : forall l, length l = n -> Forall (in_width 8) l -> in_width 64 (from_le l)).
  { intros l <- Hl8. apply from_le_width in Hl8 as [H0 H1]. split; [done|]. eapply Z.lt_le_trans; [exact H1|]. apply Z.pow_le_mono_r; lia. }
  split; apply Hmono; [done|done|by rewrite length_rev|]. apply Forall_forall. intros x Hx. rewrite Forall_forall in Hr. apply Hr.
  by apply list_elem_of_In, in_rev, list_elem_of_In.
Qed.

(** A load, or an access that faults before anything is written. *)
Lemma wpf_load o n A v e g (Q : Ref -> list Z -> Guest -> Prop) (F : Guest -> Prop) :
  (Forall (in_width 64) e -> step junk entry (mkMachine e g) o =
     if readable n A (Mem g) then push (mkMachine e g) v else push_g (mkMachine e g) 0 (set_stop g (SFault false A))) ->
  in_width 64 v ->
  (if readable n A (Mem g) then forall r e', sub e e' -> hasw e' i64Bit r v -> Q r e' g else F (set_stop g (SFault false A))) ->
  wpf (emit o) e g Q F.
Proof.
  intros Hs Hv HQ b Hb. specialize (Hs (inv_env _ _ _ Hb)). destruct (readable n A (Mem g)).
  - apply (wpf_wp (emit o) e g Q F); [|done]. eapply wp_value; [exact Hs|done|]. intros r e' Hsub Hr. apply HQ; [done|].
    by apply hasw_const.
  - by apply (wpf_stop o e g (SFault false A) Q F); [rewrite Hs|..].
Qed.

Lemma wpf_loadmem n a off t k va vo e g (Q : Ref -> list Z -> Guest -> Prop) (F : Guest -> Prop) :
  hasw e i64Bit a va -> offw e off vo -> (n <= 8)%nat ->
  (let A := ea va vo t k in let v := from_le (read_bytes n A (Mem g)) in
   if readable n A (Mem g) then forall r e', sub e e' -> hasw e' i64Bit r v -> Q r e' g else F (set_stop g (SFault false A))) ->
  wpf (emit (OLoadMem n a off t k)) e g Q F.
Proof.
  intros Ha Ho Hn. apply wpf_load; [|by apply loaded_range]. intros He. cbn [step Env G]. by rewrite (mem_address_ea e a off t k va vo).
Qed.

Lemma wpf_loadmemrev n a va e g (Q : Ref -> list Z -> Guest -> Prop) (F : Guest -> Prop) :
  hasw e i64Bit a va -> (n <= 8)%nat ->
  (let A := ea va None SXTX 1 in let v := from_le (rev (read_bytes n A (Mem g))) in
   if readable n A (Mem g) then forall r e', sub e e' -> hasw e' i64Bit r v -> Q r e' g else F (set_stop g (SFault false A))) ->
  wpf (emit (OLoadMemRev n a)) e g Q F.
Proof.
  intros Ha Hn. apply wpf_load; [|by apply loaded_range]. intros He. cbn [step Env G]. by rewrite (mem_address_ea e a None SXTX 1 va None).
Qed.

Lemma wpf_store o n A l e g (Q : Ref -> list Z -> Guest -> Prop) (F : Guest -> Prop) :
  (Forall (in_width 64) e -> step junk entry (mkMachine e g) o =
     push_g (mkMachine e g) 0 (if writable n A (Mem g) then set_mem g (write_bytes l A (Mem g)) else set_stop g (SFault true A))) ->
  (if writable n A (Mem g) then forall r e', sub e e' -> Q r e' (set_mem g (write_bytes l A (Mem g))) else F (set_stop g (SFault true A))) ->
  wpf (emit o) e g Q F.
Proof.
  intros Hs HQ b Hb. specialize (Hs (inv_env _ _ _ Hb)). destruct (writable n A (Mem g)).
  - left. exists (e ++ [0]), (set_mem g (write_bytes l A (Mem g))). unfold emit. cbn [fst snd]. split; [|apply HQ; by exists [0]].
    eapply inv_push; [done|exact Hs|apply zero_width|apply (inv_guest _ _ _ Hb)|done].
  - by apply (wpf_stop o e g (SFault true A) Q F); [rewrite Hs|..].
Qed.

Lemma wpf_storemem n r a off t k v va vo e g (Q : Ref -> list Z -> Guest -> Prop) (F : Guest -> Prop) :
  hasw e i64Bit r v -> hasw e i64Bit a va -> offw e off vo ->
  (let A := ea va vo t k in
   if writable n A (Mem g) then forall r e', sub e e' -> Q r e' (set_mem g (write_bytes (to_le n v) A (Mem g))) else F (set_stop g (SFault true A))) ->
  wpf (emit (OStoreMem n r a off t k)) e g Q F.
Proof.
  intros Hr Ha Ho. apply wpf_store. intros He. cbn [step Env G]. rewrite (mem_address_ea e a off t k va vo), (hasw_nth e r v) by done.
  by destruct (writable _ _ _).
Qed.

Lemma wpf_storememrev n r a v va e g (Q : Ref -> list Z -> Guest -> Prop) (F : Guest -> Prop) :
  hasw e i64Bit r v -> hasw e i64Bit a va ->
  (let A := ea va None SXTX 1 in
   if writable n A (Mem g) then forall r e', sub e e' -> Q r e' (set_mem g (write_bytes (rev (to_le n v)) A (Mem g))) else F (set_stop g (SFault true A))) ->
  wpf (emit (OStoreMemRev n a r)) e g Q F.
Proof.
  intros Hr Ha. apply wpf_store. intros He. cbn [step Env G]. rewrite (mem_address_ea e a None SXTX 1 va None), (hasw_nth e r v) by done.
  by destruct (writable _ _ _).
Qed.

Lemma wp_inline c e g (Q : Ref -> list Z -> Guest -> Prop) :
  (forall r e', sub e e' -> hasw e' i64Bit r (u64 c) -> Q r e' g) -> wp (emit (OInlineConstant c)) e g Q.
Proof.
  intros HQ. eapply wp_value; [done|apply wrap_range; lia|]. intros r e' Hs Hr. apply HQ; [done|]. apply hasw_const; [done|apply wrap_range; lia].
Qed.

(** An operation without an effect of its own. *)
Lemma wp_nop o e g (Q : Ref -> list Z -> Guest -> Prop) :
  step junk entry (mkMachine e g) o = mkMachine (e ++ [0]) g -> (forall r e', sub e e' -> Q r e' g) -> wp (emit o) e g Q.
Proof. intros Hs HQ. eapply wp_value; [exact Hs|apply zero_width|]. intros r e' Hsub _. by apply HQ. Qed.

End Logic.
