(* ===== verification/LoadStore.v ===== *)
(** The translators of general-purpose loads and stores
    (FEXCore/Source/Interface/Core/A64Frontend/TranslateLoadStore.cpp), the
    single-copy atomic ones that are loads and stores between fences
    (TranslateExclusive.cpp), and the byte-reversal fusion's decoding.  A missing
    [Ref] is [None], for a null pointer and for [Invalid()]. *)
From S2P Require Import Prelude A64Common IR.
Open Scope Z_scope.
Open Scope ir_scope.

Inductive MemOp := Store | Load | Prefetch | Unallocated.
#[export] Instance MemOp_eq_dec : EqDecision MemOp.
Proof. solve_decision. Defined.

Record OpcDecode := mkOpc { Op : MemOp; SignExt : bool; Is64Dest : bool }.

Definition DecodeSizeOpc (Size Opc : Z) : OpcDecode :=
  if Z.land Opc 2 =? 0 then mkOpc (if negb (Z.land Opc 1 =? 0) then Load else Store) false (Size =? 3)
  else if Size =? 3 then mkOpc (if negb (Z.land Opc 1 =? 0) then Unallocated else Prefetch) false true
  else if (Size =? 2) && negb (Z.land Opc 1 =? 0) then mkOpc Unallocated false false
  else mkOpc Load true (Z.land Opc 1 =? 0).

Definition ExtendOffsetType (Option : Z) : MemOffsetType :=
  match Option with 2 => UXTW | 6 => SXTW | _ => SXTX end.

(** [1U << Size]. *)
Definition bytes_of (Size : Z) : nat := Z.to_nat (Z.shiftl 1 Size).

(** [Offset ? _InlineConstant(Offset) : nullptr]. *)
Definition inline_offset (Offset : Z) : M (option Ref) :=
  if Offset =? 0 then ret None else r <- emit (OInlineConstant Offset) ;; ret (Some r).

(** The sign extension of a loaded value narrower than 64 bits. *)
Definition extend_loaded (Sign : bool) (Size : nat) (Value : Ref) : M Ref :=
  if Sign && negb (Size =? 8)%nat then emit (OSbfe i64Bit (8 * Z.of_nat Size) 0 Value) else ret Value.

Definition LoadStoreSingle (IsLoad : bool) (Size : nat) (Sign Is64 : bool) (Rt : Z) (Address : Ref)
    (Offset : option Ref) (OffsetType : MemOffsetType) (OffsetScale : Z) : M unit :=
  if negb IsLoad then
    v <- LoadX Rt ;;
    emit (OStoreMem Size v Address Offset OffsetType OffsetScale) ;;;
    ret tt
  else
    v <- emit (OLoadMem Size Address Offset OffsetType OffsetScale) ;;
    v <- extend_loaded Sign Size v ;;
    StoreReg Rt Is64 v.

(** ** Literal *)

(** [PCValue(CurrentPC + SignExtend(imm19) * 4)]. *)
Definition literal (Word : Z) : M Ref := fun b => PCValue (u64 (CurrentPC b + SignExtend (Bits Word 23 5) 19 * 4)) b.

Definition LDR_lit_gen (Word : Z) : M bool :=
  let Is64 := Bit Word 30 in
  Address <- literal Word ;;
  LoadStoreSingle true (if Is64 then 8%nat else 4%nat) false Is64 (Bits Word 4 0) Address None SXTX 1 ;;;
  ret true.

Definition LDRSW_lit (Word : Z) : M bool :=
  Address <- literal Word ;;
  LoadStoreSingle true 4 true true (Bits Word 4 0) Address None SXTX 1 ;;;
  ret true.

Section Config.
(** [CTX->Config.GuestPrefetch()]. *)
Context (GuestPrefetch : bool).

(** ** Prefetch *)

Definition PrefetchHint (Rt : Z) (Address : Ref) (Offset : option Ref) (OffsetType : MemOffsetType) (OffsetScale : Z) : M unit :=
  if negb GuestPrefetch then ret tt
  else
    let Type_ := Bits Rt 4 3 in
    let Level := Bits Rt 2 1 in
    if (Type_ =? 1) || (Type_ =? 3) || (Level =? 3) then ret tt
    else emit (OPrefetch (Type_ =? 2) (Bit Rt 0) (Level + 1) Address Offset OffsetType OffsetScale) ;;; ret tt.

Definition PRFM_lit (Word : Z) : M bool :=
  Address <- literal Word ;;
  PrefetchHint (Bits Word 4 0) Address None SXTX 1 ;;;
  ret true.

Definition PRFM_imm (Word : Z) : M bool :=
  let Offset := if Bit Word 24 then Bits Word 21 10 * 8 else SignExtend (Bits Word 20 12) 9 in
  Base <- LoadXSP (Bits Word 9 5) ;;
  Off <- inline_offset Offset ;;
  PrefetchHint (Bits Word 4 0) Base Off SXTX 1 ;;;
  ret true.

(** ** Immediate offsets *)

Definition LoadStoreImm9 (Word : Z) : M bool :=
  let Size := Bits Word 31 30 in
  let Decode := DecodeSizeOpc Size (Bits Word 23 22) in
  let Mode := Bits Word 11 10 in
  let Offset := SignExtend (Bits Word 20 12) 9 in
  let Rn := Bits Word 9 5 in
  let Rt := Bits Word 4 0 in
  if bool_decide (Op Decode = Unallocated) then ret false
  else if bool_decide (Op Decode = Prefetch) then
    if negb (Mode =? 0) then ret false
    else
      Base <- LoadXSP Rn ;;
      Off <- inline_offset Offset ;;
      PrefetchHint Rt Base Off SXTX 1 ;;;
      ret true
  else
    let WriteBack := (Mode =? 1) || (Mode =? 3) in
    let PostIndex := Mode =? 1 in
    let MemSize := bytes_of Size in
    Base <- LoadXSP Rn ;;
    Offsetted <- (if negb (Offset =? 0) && WriteBack then c <- Constant Offset ;; emit (OBin Add i64Bit Base c) else ret Base) ;;
    let Address := if PostIndex then Base else Offsetted in
    if bool_decide (Op Decode = Store) then
      if negb WriteBack then
        Off <- inline_offset Offset ;;
        LoadStoreSingle false MemSize false false Rt Base Off SXTX 1 ;;;
        ret true
      else
        v <- LoadX Rt ;;
        emit (OStoreMem MemSize v Address None SXTX 1) ;;;
        StoreXSP Rn Offsetted ;;;
        ret true
    else if WriteBack then
      v <- emit (OLoadMem MemSize Address None SXTX 1) ;;
      v <- extend_loaded (SignExt Decode) MemSize v ;;
      StoreXSP Rn Offsetted ;;;
      StoreReg Rt (Is64Dest Decode) v ;;;
      ret true
    else
      Off <- inline_offset Offset ;;
      LoadStoreSingle true MemSize (SignExt Decode) (Is64Dest Decode) Rt Base Off SXTX 1 ;;;
      ret true.

Definition STLURx_LDAPURx (Word : Z) : M bool :=
  if (Bits Word 31 30 =? 3) && Bit Word 23 then ret false
  else LoadStoreImm9 (Z.land Word (u32 (Z.lnot (Z.shiftl 1 24)))).

Definition STRx_LDRx_imm_2 (Word : Z) : M bool :=
  let Size := Bits Word 31 30 in
  let Decode := DecodeSizeOpc Size (Bits Word 23 22) in
  let Offset := Z.shiftl (Bits Word 21 10) Size in
  if bool_decide (Op Decode = Unallocated) then ret false
  else if bool_decide (Op Decode = Prefetch) then
    Base <- LoadXSP (Bits Word 9 5) ;;
    Off <- inline_offset Offset ;;
    PrefetchHint (Bits Word 4 0) Base Off SXTX 1 ;;;
    ret true
  else
    Base <- LoadXSP (Bits Word 9 5) ;;
    Off <- inline_offset Offset ;;
    LoadStoreSingle (bool_decide (Op Decode = Load)) (bytes_of Size) (SignExt Decode) (Is64Dest Decode) (Bits Word 4 0) Base Off SXTX 1 ;;;
    ret true.

(** ** Register offset *)

Definition LoadStoreRegOffset (Word : Z) : M bool :=
  let Size := Bits Word 31 30 in
  let Decode := DecodeSizeOpc Size (Bits Word 23 22) in
  let Option := Bits Word 15 13 in
  let Scaled := Bit Word 12 in
  let Scale := if Scaled then Z.shiftl 1 Size else 1 in
  let Rm := Bits Word 20 16 in
  if (Z.land Option 2 =? 0) || bool_decide (Op Decode = Unallocated) then ret false
  else if bool_decide (Op Decode = Prefetch) then
    Base <- LoadXSP (Bits Word 9 5) ;;
    (if Rm =? 31 then PrefetchHint (Bits Word 4 0) Base None SXTX 1
     else
       Off <- LoadX Rm ;;
       PrefetchHint (Bits Word 4 0) Base (Some Off) (ExtendOffsetType Option) Scale) ;;;
    ret true
  else
    Base <- LoadXSP (Bits Word 9 5) ;;
    let MemSize := bytes_of Size in
    let IsLoad := bool_decide (Op Decode = Load) in
    if Rm =? 31 then
      LoadStoreSingle IsLoad MemSize (SignExt Decode) (Is64Dest Decode) (Bits Word 4 0) Base None SXTX 1 ;;;
      ret true
    else
      Off <- LoadX Rm ;;
      LoadStoreSingle IsLoad MemSize (SignExt Decode) (Is64Dest Decode) (Bits Word 4 0) Base (Some Off) (ExtendOffsetType Option) Scale ;;;
      ret true.
End Config.

(** ** Pairs *)

Definition STP_LDP_gen (Word : Z) : M bool :=
  let Opc := Bits Word 31 30 in
  let PreOrOffset := Bit Word 24 in
  let WriteBack := Bit Word 23 in
  let IsLoad := Bit Word 22 in
  let Rt2 := Bits Word 14 10 in
  let Rn := Bits Word 9 5 in
  let Rt := Bits Word 4 0 in
  if (Opc =? 3) || ((Opc =? 1) && negb IsLoad) || (negb PreOrOffset && negb WriteBack) then ret false
  else
    let Is64 := Opc =? 2 in
    let Sign := Opc =? 1 in
    let MemSize := if Is64 then 8%nat else 4%nat in
    let ElementSize := if Is64 then 8 else 4 in
    let Offset := SignExtend (Bits Word 21 15) 7 * ElementSize in
    let PostIndex := negb PreOrOffset in
    Base <- LoadXSP Rn ;;
    Offsetted <- (if WriteBack then c <- Constant Offset ;; emit (OBin Add i64Bit Base c) else ret Base) ;;
    let PreIndex := WriteBack && negb PostIndex in
    let Address := if PreIndex then Offsetted else Base in
    let Disp1 := if WriteBack || (Offset =? 0) then 0 else Offset in
    let Disp2 := Disp1 + ElementSize in
    Offset1 <- inline_offset Disp1 ;;
    Offset2 <- emit (OInlineConstant Disp2) ;;
    if negb IsLoad then
      Value1 <- LoadX Rt ;;
      Value2 <- LoadX Rt2 ;;
      emit (OStoreMem MemSize Value1 Address Offset1 SXTX 1) ;;;
      emit (OStoreMem MemSize Value2 Address (Some Offset2) SXTX 1) ;;;
      (if WriteBack then StoreXSP Rn Offsetted else ret tt) ;;;
      ret true
    else
      Value1 <- emit (OLoadMem MemSize Address Offset1 SXTX 1) ;;
      Value2 <- emit (OLoadMem MemSize Address (Some Offset2) SXTX 1) ;;
      Value1 <- (if Sign then emit (OSbfe i64Bit 32 0 Value1) else ret Value1) ;;
      Value2 <- (if Sign then emit (OSbfe i64Bit 32 0 Value2) else ret Value2) ;;
      (if WriteBack then StoreXSP Rn Offsetted else ret tt) ;;;
      let Is64Dest := Is64 || Sign in
      StoreReg Rt Is64Dest Value1 ;;;
      StoreReg Rt2 Is64Dest Value2 ;;;
      ret true.

Definition STNP_LDNP_gen (Word : Z) : M bool := STP_LDP_gen (Z.lor Word (Z.shiftl 1 24)).

(** ** Acquire and release (TranslateExclusive.cpp) *)

Definition LoadStoreAtomicWidth (Word : Z) : M bool :=
  let Size := Bits Word 31 30 in
  let IsLoad := Bit Word 22 in
  Address <- LoadXSP (Bits Word 9 5) ;;
  emit (OFence FenceLoadStore) ;;;
  LoadStoreSingle IsLoad (bytes_of Size) false (Size =? 3) (Bits Word 4 0) Address None SXTX 1 ;;;
  (if IsLoad then emit (OFence FenceAcquire) ;;; ret tt else ret tt) ;;;
  ret true.

Definition LDAPR (Word : Z) : M bool :=
  let Size := Bits Word 31 30 in
  Address <- LoadXSP (Bits Word 9 5) ;;
  LoadStoreSingle true (bytes_of Size) false (Size =? 3) (Bits Word 4 0) Address None SXTX 1 ;;;
  emit (OFence FenceAcquire) ;;;
  ret true.
