(* ===== verification/DataProcessing.v ===== *)
(** The integer data-processing translators
    (FEXCore/Source/Interface/Core/A64Frontend/TranslateDataProcessing.cpp).
    Each is a member function of [IRBuilder] that appends IR to the current
    block and returns whether it accepts the word.  The order in which C++
    evaluates the arguments of one call is unspecified; here it is left to
    right. *)
From S2P Require Import Prelude A64Common IR.

(** ** PC-relative addressing *)

Definition ADR (Word : Z) : M bool := fun b =>
  (let Imm := SignExtend (Z.lor (Z.shiftl (Bits Word 23 5) 2) (Bits Word 30 29)) 21 in
   v <- PCValue (u64 (CurrentPC b + Imm)) ;;
   StoreX (Bits Word 4 0) v ;;;
   ret true) b.

Definition ADRP (Word : Z) : M bool := fun b =>
  (let Imm := SignExtend (Z.lor (Z.shiftl (Bits Word 23 5) 2) (Bits Word 30 29)) 21 * 4096 in
   v <- PCValue (u64 (Z.ldiff (CurrentPC b) 0xFFF + Imm)) ;;
   StoreX (Bits Word 4 0) v ;;;
   ret true) b.

(** ** Add/sub (immediate) *)

Definition AddSubImmediate (Word : Z) (IsSub SetFlags : bool) : M bool :=
  let Is64 := Bit Word 31 in
  let Shift := Bits Word 23 22 in
  if Shift >? 1 then ret false
  else
    let Imm := Z.shiftl (Bits Word 21 10) (Shift * 12) in
    let Rn := Bits Word 9 5 in
    let Rd := Bits Word 4 0 in
    let Size := SizeFor Is64 in
    Src <- LoadXSP Rn ;;
    ImmRef <- Constant Imm ;;
    if negb SetFlags then
      v <- emit (OBin (if IsSub then Sub else Add) Size Src ImmRef) ;;
      StoreRegSP Rd Is64 v ;;;
      ret true
    else if Rd =? 31 then
      emit (if IsSub then OSubNZCV Size Src ImmRef else OAddNZCV Size Src ImmRef) ;;;
      ret true
    else
      v <- emit (OFlags (if IsSub then SubWithFlags else AddWithFlags) Size Src ImmRef) ;;
      StoreReg Rd Is64 v ;;;
      ret true.

Definition ADD_imm (Word : Z) : M bool := AddSubImmediate Word false false.
Definition ADDS_imm (Word : Z) : M bool := AddSubImmediate Word false true.
Definition SUB_imm (Word : Z) : M bool := AddSubImmediate Word true false.
Definition SUBS_imm (Word : Z) : M bool := AddSubImmediate Word true true.

(** ** Logical (immediate) *)

Definition LogicalImmediate (Word : Z) : M bool :=
  let Is64 := Bit Word 31 in
  let Opc := Bits Word 30 29 in
  let N := Bit Word 22 in
  if negb Is64 && N then ret false
  else match DecodeBitMasks N (Bits Word 15 10) (Bits Word 21 16) true (if Is64 then 64 else 32) with
  | None => ret false
  | Some (Imm, _) =>
      let Rn := Bits Word 9 5 in
      let Rd := Bits Word 4 0 in
      let Size := SizeFor Is64 in
      Src <- LoadX Rn ;;
      ImmRef <- Constant Imm ;;
      match Opc with
      | 0 => v <- emit (OBin And Size Src ImmRef) ;; StoreRegSP Rd Is64 v
      | 1 => v <- emit (OBin Or Size Src ImmRef) ;; StoreRegSP Rd Is64 v
      | 2 => v <- emit (OBin Xor Size Src ImmRef) ;; StoreRegSP Rd Is64 v
      | _ => v <- emit (OFlags AndWithFlags Size Src ImmRef) ;; StoreReg Rd Is64 v
      end ;;;
      ret true
  end.

Definition AND_imm (Word : Z) : M bool := LogicalImmediate Word.
Definition ORR_imm (Word : Z) : M bool := LogicalImmediate Word.
Definition EOR_imm (Word : Z) : M bool := LogicalImmediate Word.
Definition ANDS_imm (Word : Z) : M bool := LogicalImmediate Word.

(** ** Move wide *)

Definition MoveWide (Word : Z) : M bool :=
  let Is64 := Bit Word 31 in
  let Opc := Bits Word 30 29 in
  let Hw := Bits Word 22 21 in
  if negb Is64 && (Hw >? 1) then ret false
  else
    let Shift := Hw * 16 in
    let Imm := u64 (Z.shiftl (Bits Word 20 5) Shift) in
    let Rd := Bits Word 4 0 in
    match Opc with
    | 0 =>
        let Value := u64 (Z.lnot Imm) in
        let Value := if negb Is64 then Z.land Value 0xFFFFFFFF else Value in
        v <- Constant Value ;; StoreX Rd v ;;; ret true
    | 2 => v <- Constant Imm ;; StoreX Rd v ;;; ret true
    | 3 =>
        let Size := SizeFor Is64 in
        old <- LoadX Rd ;;
        mask <- Constant (u64 (Z.lnot (u64 (Z.shiftl 0xFFFF Shift)))) ;;
        Cleared <- emit (OBin And Size old mask) ;;
        imm <- Constant Imm ;;
        v <- emit (OBin Or Size Cleared imm) ;;
        StoreReg Rd Is64 v ;;;
        ret true
    | _ => ret false
    end.

Definition MOVN (Word : Z) : M bool := MoveWide Word.
Definition MOVZ (Word : Z) : M bool := MoveWide Word.
Definition MOVK (Word : Z) : M bool := MoveWide Word.

(** ** Bitfield and extract *)

Definition Bitfield (Word : Z) : M bool :=
  let Is64 := Bit Word 31 in
  let Opc := Bits Word 30 29 in
  let N := Bit Word 22 in
  let R := Bits Word 21 16 in
  let S := Bits Word 15 10 in
  let Rn := Bits Word 9 5 in
  let Rd := Bits Word 4 0 in
  let DataSize := if Is64 then 64 else 32 in
  if (Opc =? 3) || negb (eqb N Is64) || (negb Is64 && ((R >=? 32) || (S >=? 32))) then ret false
  else
    Src <- LoadX Rn ;;
    Result <- match Opc with
              | 0 =>
                  if S >=? R then emit (OSbfe i64Bit (S - R + 1) R Src)
                  else
                    f <- emit (OSbfe i64Bit (S + 1) 0 Src) ;;
                    c <- Constant (DataSize - R) ;;
                    emit (OBin Lshl i64Bit f c)
              | 1 =>
                  d <- LoadX Rd ;;
                  if S >=? R then emit (OBfxil i64Bit (S - R + 1) R d Src)
                  else emit (OBfi i64Bit (S + 1) (DataSize - R) d Src)
              | _ =>
                  if S >=? R then emit (OBfe i64Bit (S - R + 1) R Src)
                  else
                    f <- emit (OBfe i64Bit (S + 1) 0 Src) ;;
                    c <- Constant (DataSize - R) ;;
                    emit (OBin Lshl i64Bit f c)
              end ;;
    StoreReg Rd Is64 Result ;;;
    ret true.

Definition SBFM (Word : Z) : M bool := Bitfield Word.
Definition BFM (Word : Z) : M bool := Bitfield Word.
Definition UBFM (Word : Z) : M bool := Bitfield Word.

Definition EXTR (Word : Z) : M bool :=
  let Is64 := Bit Word 31 in
  let N := Bit Word 22 in
  let Rm := Bits Word 20 16 in
  let Lsb := Bits Word 15 10 in
  let Rn := Bits Word 9 5 in
  let Rd := Bits Word 4 0 in
  if negb (eqb N Is64) || (negb Is64 && (Lsb >=? 32)) then ret false
  else
    n <- LoadX Rn ;;
    m <- LoadX Rm ;;
    v <- emit (OExtr (SizeFor Is64) n m Lsb) ;;
    StoreReg Rd Is64 v ;;;
    ret true.

(** ** Divide and variable shifts *)

Definition UDIV (Word : Z) : M bool :=
  let Is64 := Bit Word 31 in
  let Size := SizeFor Is64 in
  Dividend <- LoadX (Bits Word 9 5) ;;
  Divisor <- LoadX (Bits Word 20 16) ;;
  Zero <- Constant 0 ;;
  One <- Constant 1 ;;
  SafeDivisor <- emit (OSelect Size Size EQ Divisor Zero One Divisor) ;;
  Quotient <- emit OAllocateGPR ;;
  Remainder <- emit OAllocateGPR ;;
  emit (OUDiv Size Dividend SafeDivisor Quotient Remainder) ;;;
  v <- emit (OSelect Size Size EQ Divisor Zero Zero Quotient) ;;
  StoreReg (Bits Word 4 0) Is64 v ;;;
  ret true.

Definition SDIV (Word : Z) : M bool :=
  let Is64 := Bit Word 31 in
  let Size := SizeFor Is64 in
  Dividend <- LoadX (Bits Word 9 5) ;;
  Divisor <- LoadX (Bits Word 20 16) ;;
  Zero <- Constant 0 ;;
  One <- Constant 1 ;;
  MinusOne <- Constant (-1) ;;
  DivisorPlusOne <- emit (OBin Add Size Divisor One) ;;
  SafeDivisor <- emit (OSelect Size Size ULE DivisorPlusOne One One Divisor) ;;
  Quotient <- emit OAllocateGPR ;;
  Remainder <- emit OAllocateGPR ;;
  emit (ODiv Size Dividend SafeDivisor Quotient Remainder) ;;;
  Negated <- emit (OUn Neg Size Dividend) ;;
  NonZero <- emit (OSelect Size Size EQ Divisor MinusOne Negated Quotient) ;;
  v <- emit (OSelect Size Size EQ Divisor Zero Zero NonZero) ;;
  StoreReg (Bits Word 4 0) Is64 v ;;;
  ret true.

Definition ShiftVariable (Word : Z) (Op : BinOp) : M bool :=
  let Is64 := Bit Word 31 in
  let Size := SizeFor Is64 in
  Src <- LoadX (Bits Word 9 5) ;;
  Amount <- LoadX (Bits Word 20 16) ;;
  Result <- emit (OBin (match Op with Lshl => Lshl | Lshr => Lshr | Ashr => Ashr | _ => Ror end) Size Src Amount) ;;
  StoreReg (Bits Word 4 0) Is64 Result ;;;
  ret true.

Definition LSLV (Word : Z) : M bool := ShiftVariable Word Lshl.
Definition LSRV (Word : Z) : M bool := ShiftVariable Word Lshr.
Definition ASRV (Word : Z) : M bool := ShiftVariable Word Ashr.
Definition RORV (Word : Z) : M bool := ShiftVariable Word Ror.

(** ** One source *)

Definition unary (o : UnOp) (Word : Z) : M bool :=
  let Is64 := Bit Word 31 in
  n <- LoadX (Bits Word 9 5) ;;
  v <- emit (OUn o (SizeFor Is64) n) ;;
  StoreReg (Bits Word 4 0) Is64 v ;;;
  ret true.

Definition RBIT_int (Word : Z) : M bool := unary Rbit Word.
Definition CLZ_int (Word : Z) : M bool := unary CountLeadingZeroes Word.
Definition REV (Word : Z) : M bool :=
  if negb (eqb (Bit Word 31) (Bit Word 10)) then ret false else unary Rev Word.

Definition REV16_int (Word : Z) : M bool :=
  let Is64 := Bit Word 31 in
  let Size := SizeFor Is64 in
  Src <- LoadX (Bits Word 9 5) ;;
  Mask <- Constant (if Is64 then 0x00FF00FF00FF00FF else 0x00FF00FF) ;;
  Masked <- emit (OBin And Size Src Mask) ;;
  Eight <- Constant 8 ;;
  Low <- emit (OBin Lshl Size Masked Eight) ;;
  Shifted <- emit (OBin Lshr Size Src Eight) ;;
  High <- emit (OBin And Size Shifted Mask) ;;
  v <- emit (OBin Or Size Low High) ;;
  StoreReg (Bits Word 4 0) Is64 v ;;;
  ret true.

Definition REV32_int (Word : Z) : M bool :=
  n <- LoadX (Bits Word 9 5) ;;
  Swapped <- emit (OUn Rev i64Bit n) ;;
  c <- Constant 32 ;;
  v <- emit (OBin Ror i64Bit Swapped c) ;;
  StoreX (Bits Word 4 0) v ;;;
  ret true.

Definition CLS_int (Word : Z) : M bool :=
  let Is64 := Bit Word 31 in
  let Size := SizeFor Is64 in
  Src <- LoadX (Bits Word 9 5) ;;
  One <- Constant 1 ;;
  Half <- emit (OBin Ashr Size Src One) ;;
  Xored <- emit (OBin Xor Size Src Half) ;;
  Count <- emit (OUn CountLeadingZeroes Size Xored) ;;
  v <- emit (OBin Sub Size Count One) ;;
  StoreReg (Bits Word 4 0) Is64 v ;;;
  ret true.

(** ** Shifted and extended register, with carry *)

Definition LogicalShifted (Word : Z) : M bool :=
  let Is64 := Bit Word 31 in
  let Opc := Bits Word 30 29 in
  let ShiftType := Bits Word 23 22 in
  let Invert := Bit Word 21 in
  let Amount := Bits Word 15 10 in
  let Rn := Bits Word 9 5 in
  let Rd := Bits Word 4 0 in
  if negb Is64 && (Amount >=? 32) then ret false
  else
    let Size := SizeFor Is64 in
    m <- LoadX (Bits Word 20 16) ;;
    Operand <- ShiftReg m ShiftType Amount Is64 ;;
    Operand <- (if Invert then emit (OUn Not i64Bit Operand) else ret Operand) ;;
    Src <- LoadX Rn ;;
    v <- match Opc with
         | 0 => emit (OBin And Size Src Operand)
         | 1 => emit (OBin Or Size Src Operand)
         | 2 => emit (OBin Xor Size Src Operand)
         | _ => emit (OFlags AndWithFlags Size Src Operand)
         end ;;
    StoreReg Rd Is64 v ;;;
    ret true.

(** The common tail of the two register forms: [dest] stores the result of
    the form that sets no flags. *)
Definition add_sub_tail (IsSub SetFlags Is64 : bool) (Rd : Z) (Src Operand : Ref) (dest : Z -> bool -> Ref -> M unit)
  : M bool :=
  let Size := SizeFor Is64 in
  if negb SetFlags then
    v <- emit (OBin (if IsSub then Sub else Add) Size Src Operand) ;;
    dest Rd Is64 v ;;;
    ret true
  else if Rd =? 31 then
    emit (if IsSub then OSubNZCV Size Src Operand else OAddNZCV Size Src Operand) ;;;
    ret true
  else
    v <- emit (OFlags (if IsSub then SubWithFlags else AddWithFlags) Size Src Operand) ;;
    StoreReg Rd Is64 v ;;;
    ret true.

Definition AddSubShifted (Word : Z) : M bool :=
  let Is64 := Bit Word 31 in
  let ShiftType := Bits Word 23 22 in
  let Amount := Bits Word 15 10 in
  if (ShiftType =? 3) || (negb Is64 && (Amount >=? 32)) then ret false
  else
    m <- LoadX (Bits Word 20 16) ;;
    Operand <- ShiftReg m ShiftType Amount Is64 ;;
    Src <- LoadX (Bits Word 9 5) ;;
    add_sub_tail (Bit Word 30) (Bit Word 29) Is64 (Bits Word 4 0) Src Operand StoreReg.

Definition AddSubExtended (Word : Z) : M bool :=
  let Is64 := Bit Word 31 in
  let Option := Bits Word 15 13 in
  let Shift := Bits Word 12 10 in
  if (Shift >? 4) || negb (Bits Word 23 22 =? 0) then ret false
  else
    m <- LoadX (Bits Word 20 16) ;;
    Operand <- ExtendReg m Option Shift ;;
    Src <- LoadXSP (Bits Word 9 5) ;;
    add_sub_tail (Bit Word 30) (Bit Word 29) Is64 (Bits Word 4 0) Src Operand StoreRegSP.

Definition AddSubCarry (Word : Z) (IsSub SetFlags : bool) : M bool :=
  let Is64 := Bit Word 31 in
  let Size := SizeFor Is64 in
  Src1 <- LoadX (Bits Word 9 5) ;;
  Src2 <- LoadX (Bits Word 20 16) ;;
  Result <- (if SetFlags then emit (OFlags (if IsSub then SbbWithFlags else AdcWithFlags) Size Src1 Src2)
             else emit (OBin (if IsSub then Sbb else Adc) Size Src1 Src2)) ;;
  StoreReg (Bits Word 4 0) Is64 Result ;;;
  ret true.

Definition ADC (Word : Z) : M bool := AddSubCarry Word false false.
Definition ADCS (Word : Z) : M bool := AddSubCarry Word false true.
Definition SBC (Word : Z) : M bool := AddSubCarry Word true false.
Definition SBCS (Word : Z) : M bool := AddSubCarry Word true true.

(** ** Conditional compare and select *)

Definition CondCompare (Word : Z) : M bool :=
  let Is64 := Bit Word 31 in
  let IsSub := Bit Word 30 in
  let IsImm := Bit Word 11 in
  let Cond := Bits Word 15 12 in
  let FalseNZCV := Bits Word 3 0 in
  let Size := SizeFor Is64 in
  if Bit Word 10 || Bit Word 4 then ret false
  else
    Src1 <- LoadX (Bits Word 9 5) ;;
    Src2 <- (if IsImm then Constant (Bits Word 20 16) else LoadX (Bits Word 20 16)) ;;
    if Cond >=? 14 then
      emit (if IsSub then OSubNZCV Size Src1 Src2 else OAddNZCV Size Src1 Src2) ;;;
      ret true
    else
      let CC := MapCondition Cond in
      emit (if IsSub then OCondSubNZCV Size Src1 Src2 CC FalseNZCV
            else OCondAddNZCV Size Src1 Src2 CC FalseNZCV) ;;;
      ret true.

Definition CondSelect (Word : Z) : M bool :=
  let Is64 := Bit Word 31 in
  let Op := Bit Word 30 in
  let Cond := Bits Word 15 12 in
  let Op2 := Bits Word 11 10 in
  let Rd := Bits Word 4 0 in
  let Size := SizeFor Is64 in
  if Bit Word 29 || (Op2 >? 1) then ret false
  else
    TrueVal <- LoadX (Bits Word 9 5) ;;
    FalseVal <- LoadX (Bits Word 20 16) ;;
    if Cond >=? 14 then StoreReg Rd Is64 TrueVal ;;; ret true
    else
      FalseVal <- (if negb Op && (Op2 =? 1) then c <- Constant 1 ;; emit (OBin Add Size FalseVal c)
                   else if Op && (Op2 =? 0) then emit (OUn Not Size FalseVal)
                   else if Op && (Op2 =? 1) then emit (OUn Neg Size FalseVal)
                   else ret FalseVal) ;;
      v <- emit (ONZCVSelect Size (MapCondition Cond) TrueVal FalseVal) ;;
      StoreReg Rd Is64 v ;;;
      ret true.

(** ** Multiply *)

Definition MADD (Word : Z) : M bool :=
  let Is64 := Bit Word 31 in
  let Size := SizeFor Is64 in
  Src1 <- LoadX (Bits Word 9 5) ;;
  Src2 <- LoadX (Bits Word 20 16) ;;
  let Ra := Bits Word 14 10 in
  if Ra =? 31 then
    v <- emit (OBin Mul Size Src1 Src2) ;;
    StoreReg (Bits Word 4 0) Is64 v ;;;
    ret true
  else
    a <- LoadX Ra ;;
    v <- emit (OMulAdd Size Src1 Src2 a) ;;
    StoreReg (Bits Word 4 0) Is64 v ;;;
    ret true.

Definition MSUB (Word : Z) : M bool :=
  let Is64 := Bit Word 31 in
  let Size := SizeFor Is64 in
  n <- LoadX (Bits Word 9 5) ;;
  m <- LoadX (Bits Word 20 16) ;;
  Product <- emit (OBin Mul Size n m) ;;
  a <- LoadX (Bits Word 14 10) ;;
  v <- emit (OBin Sub Size a Product) ;;
  StoreReg (Bits Word 4 0) Is64 v ;;;
  ret true.

Definition MultiplyAddSubLong (Word : Z) (IsSigned IsSub : bool) : M bool :=
  Src1 <- LoadX (Bits Word 9 5) ;;
  Src2 <- LoadX (Bits Word 20 16) ;;
  Product <- (if IsSigned then emit (OSMull Src1 Src2)
              else
                a <- emit (OBfe i64Bit 32 0 Src1) ;;
                b <- emit (OBfe i64Bit 32 0 Src2) ;;
                emit (OBin Mul i64Bit a b)) ;;
  let Ra := Bits Word 14 10 in
  if (Ra =? 31) && negb IsSub then StoreX (Bits Word 4 0) Product ;;; ret true
  else
    Addend <- LoadX Ra ;;
    v <- emit (OBin (if IsSub then Sub else Add) i64Bit Addend Product) ;;
    StoreX (Bits Word 4 0) v ;;;
    ret true.

Definition SMADDL (Word : Z) : M bool := MultiplyAddSubLong Word true false.
Definition SMSUBL (Word : Z) : M bool := MultiplyAddSubLong Word true true.
Definition UMADDL (Word : Z) : M bool := MultiplyAddSubLong Word false false.
Definition UMSUBL (Word : Z) : M bool := MultiplyAddSubLong Word false true.

Definition multiply_high (o : BinOp) (Word : Z) : M bool :=
  n <- LoadX (Bits Word 9 5) ;;
  m <- LoadX (Bits Word 20 16) ;;
  v <- emit (OBin o i64Bit n m) ;;
  StoreX (Bits Word 4 0) v ;;;
  ret true.

Definition SMULH (Word : Z) : M bool := multiply_high MulH Word.
Definition UMULH (Word : Z) : M bool := multiply_high UMulH Word.
