(* ===== verification/DataProcessingSpec.v ===== *)
(** Correctness of the integer data-processing translators: for every
    instruction word, a translator accepts exactly the encodings the Arm
    pseudocode defines, emits nothing for the others, and the IR it emits
    leaves the guest registers and flags as the pseudocode does. *)
From S2P Require Import Prelude A64Common IR ArmSpec IRLogic DataProcessing.

(** [T] implements [S]: the outcome of emitting [T Word] at any point of a
    block, then executing the block. *)
Definition outcome (S : option Guest) (e : list Z) (g : Guest) (ok : bool) (e' : list Z) (g' : Guest) : Prop :=
  match S with
  | Some g1 => ok = true /\ g' = g1
  | None => ok = false /\ g' = g /\ e' = e
  end.

Definition implements (T : Z -> M bool) (S : Z -> Z -> Guest -> option Guest) : Prop :=
  forall junk entry pc s0 Word e g, in_width 64 pc -> in_width 32 Word ->
    wp junk entry pc s0 (T Word) e g (outcome (S pc Word g) e g).

(** What that says of the operations emitted. *)
Lemma implements_exec T S junk entry pc s0 Word b e g :
  implements T S -> in_width 64 pc -> in_width 32 Word -> inv junk entry pc s0 b e g ->
  let '(ok, b') := T Word b in
  match S pc Word g with
  | Some g1 => ok = true /\ G (exec junk entry s0 (code s0 b')) = g1
  | None => ok = false /\ length (Ops b') = length (Ops b) /\ G (exec junk entry s0 (code s0 b')) = g
  end.
Proof.
  intros HT Hpc Hw Hb. destruct (HT junk entry pc s0 Word e g Hpc Hw b Hb) as (e' & g' & Hi & HQ).
  destruct (T Word b) as [ok b']. cbn [fst snd] in *. rewrite (inv_exec _ _ _ _ _ _ _ Hi).
  unfold outcome in HQ. destruct (S pc Word g); [done|]. destruct HQ as (-> & -> & ->).
  split_and!; [done| |done]. by rewrite <- (inv_len _ _ _ _ _ _ _ Hi), (inv_len _ _ _ _ _ _ _ Hb).
Qed.

(** ** Stepping through a translator *)

(** Carry the known values over to the extended environment. *)
Ltac lift :=
  repeat match goal with
  | S : sub ?e ?e', H : hasw ?e _ _ _ |- _ => apply (hasw_mono _ _ _ _ _ S) in H
  end;
  repeat match goal with S : sub _ _ |- _ => clear S end.

Ltac fld := match goal with |- 0 <= Bits ?w ?h ?l < 32 => exact (Bits_range w h l ltac:(lia)) end.
Ltac val := first [eassumption | apply hasw_low; eassumption].

(** One emission; the values of the operands are found in the context. *)
Ltac wp_step :=
  lazymatch goal with
  | |- wp _ _ _ _ (bind _ _) _ _ _ => apply wp_bind
  | |- wp _ _ _ _ (ret _) _ _ _ => apply wp_ret
  | |- wp _ _ _ _ (LoadX _) _ _ _ => apply wp_loadX; [fld|intros ?r ?e' ?S ?Hv; lift]
  | |- wp _ _ _ _ (LoadXSP _) _ _ _ => apply wp_loadXSP; [fld|intros ?r ?e' ?S ?Hv; lift]
  | |- wp _ _ _ _ (Constant _) _ _ _ => apply wp_constant; intros ?r ?e' ?S ?Hv; lift
  | |- wp _ _ _ _ (PCValue _) _ _ _ => apply wp_pcvalue; intros ?r ?e' ?S ?Hv; lift
  | |- wp _ _ _ _ (StoreReg _ _ _) _ _ _ => eapply wp_storeReg; [fld|val|intros ? ?; lift]
  | |- wp _ _ _ _ (StoreRegSP _ _ _) _ _ _ => eapply wp_storeRegSP; [fld|val|intros ? ?; lift]
  | |- wp _ _ _ _ (StoreX _ _) _ _ _ => eapply wp_storeX; [fld|val|intros ? ?; lift]
  | |- wp _ _ _ _ (emit (OBin _ _ _ _)) _ _ _ => eapply wp_bin; [val|val|intros ?r ?e' ?S ?Hv; lift]
  | |- wp _ _ _ _ (emit (OUn _ _ _)) _ _ _ => eapply wp_un; [val|intros ?r ?e' ?S ?Hv; lift]
  | |- wp _ _ _ _ (emit (OFlags _ _ _ _)) _ _ _ => eapply wp_flags; [val|val|intros ?r ?e' ?S ?Hv; lift]
  | |- wp _ _ _ _ (emit (OAddNZCV _ _ _)) _ _ _ => eapply wp_addnzcv; [val|val|intros ? ? ?; lift]
  | |- wp _ _ _ _ (emit (OSubNZCV _ _ _)) _ _ _ => eapply wp_subnzcv; [val|val|intros ? ? ?; lift]
  | |- wp _ _ _ _ (emit (OBfe _ _ _ _)) _ _ _ => eapply wp_bfe; [val|cbn [bits]; lia|intros ?r ?e' ?S ?Hv; lift]
  | |- wp _ _ _ _ (emit (OSbfe _ _ _ _)) _ _ _ => eapply wp_sbfe; [val|intros ?r ?e' ?S ?Hv; lift]
  | |- wp _ _ _ _ (emit (OExtr _ _ _ _)) _ _ _ => eapply wp_extr; [val|val|intros ?r ?e' ?S ?Hv; lift]
  | |- wp _ _ _ _ (emit (ONZCVSelect _ _ _ _)) _ _ _ => eapply wp_nzcvselect; [val|val|intros ?r ?e' ?S ?Hv; lift]
  | |- wp _ _ _ _ (emit (OMulAdd _ _ _ _)) _ _ _ => eapply wp_muladd; [val|val|val|intros ?r ?e' ?S ?Hv; lift]
  | |- wp _ _ _ _ (emit (OSMull _ _)) _ _ _ => eapply wp_smull; [val|val|intros ?r ?e' ?S ?Hv; lift]
  end.

Ltac start T := intros junk entry pc s0 Word e g Hpc Hw; unfold T.

Lemma size_datasize Word : bits (SizeFor (Bit Word 31)) = datasize Word.
Proof. unfold datasize. by destruct (Bit Word 31). Qed.

Lemma datasize_cases Word : datasize Word = 64 \/ datasize Word = 32.
Proof. unfold datasize. destruct (Bit Word 31); auto. Qed.

Lemma datasize_pos Word : 0 < datasize Word.
Proof. destruct (datasize_cases Word); lia. Qed.
#[export] Hint Resolve datasize_pos : core.

(** ** Arithmetic *)

Lemma NOT_lnot N x : NOT N x = 2 ^ N + Z.lnot x.
Proof. unfold NOT, Z.lnot. lia. Qed.

Lemma sgn_NOT N x : 0 < N -> in_width N x -> sgn N (NOT N x) = - sgn N x - 1.
Proof.
  intros HN [H0 H1]. unfold sgn, NOT.
  assert (Hp : 2 ^ N = 2 * 2 ^ (N - 1)) by (rewrite <- Z.pow_succ_r by lia; f_equal; lia).
  rewrite !Z.mod_small by lia. destruct (Z.ltb_spec (2 ^ N - 1 - x) (2 ^ (N - 1))), (Z.ltb_spec x (2 ^ (N - 1))); lia.
Qed.

Lemma add_flags_awc N a b c :
  0 < N -> in_width N a -> in_width N b -> 0 <= c <= 1 ->
  AddWithCarry N a b c = (wrap N (a + b + c), add_flags N a b c).
Proof.
  intros HN [Ha0 Ha1] [Hb0 Hb1] Hc. unfold AddWithCarry, add_flags, nz_flags. do 2 f_equal.
  unfold wrap. destruct (Z.leb_spec (2 ^ N) (a + b + c)) as [H|H].
  - rewrite <- (Z.mod_add (a + b + c) (-1)) by lia. rewrite Z.mod_small by lia.
    apply negb_true_iff, Z.eqb_neq. lia.
  - rewrite Z.mod_small by lia. by rewrite Z.eqb_refl.
Qed.

Lemma sub_wrap N a b c : 0 <= N -> wrap N (a + NOT N b + c) = wrap N (a - b - (1 - c)).
Proof.
  intros HN. unfold wrap, NOT. replace (a + (2 ^ N - 1 - b) + c) with (a - b - (1 - c) + 1 * 2 ^ N) by lia.
  apply Z.mod_add. apply Z.pow_nonzero; lia.
Qed.

Lemma sub_flags_awc N a b c :
  0 < N -> in_width N a -> in_width N b -> 0 <= c <= 1 ->
  AddWithCarry N a (NOT N b) c = (wrap N (a - b - (1 - c)), sub_flags N a b c).
Proof.
  intros HN Ha Hb Hc. pose proof (sgn_NOT N b HN Hb) as Hs. unfold AddWithCarry, sub_flags, nz_flags.
  rewrite sub_wrap by lia. rewrite Hs. do 2 f_equal; [|do 2 f_equal; lia].
  destruct Ha as [Ha0 Ha1], Hb as [Hb0 Hb1]. unfold wrap, NOT.
  destruct (Z.leb_spec (b + (1 - c)) a) as [H|H].
  - rewrite Z.mod_small by lia. apply negb_true_iff, Z.eqb_neq. lia.
  - rewrite <- (Z.mod_add (a - b - (1 - c)) 1) by lia. rewrite Z.mod_small by lia.
    apply negb_false_iff, Z.eqb_eq. lia.
Qed.

(** Add or subtract with flags, from the IR's operation to the pseudocode. *)
Lemma add_sub_awc N (s : bool) a b :
  0 < N -> in_width N a -> in_width N b ->
  (if s then AddWithCarry N a (NOT N b) 1 else AddWithCarry N a b 0) =
  (wrap N (if s then a - b else a + b), if s then sub_flags N a b 1 else add_flags N a b 0).
Proof.
  intros HN Ha Hb. destruct s.
  - rewrite sub_flags_awc by (done || lia). by replace (a - b - (1 - 1)) with (a - b) by lia.
  - rewrite add_flags_awc by (done || lia). by rewrite Z.add_0_r.
Qed.

Lemma wrap_in N x : 0 < N -> in_width N (wrap N x).
Proof. intros. apply wrap_range. lia. Qed.

(** ** Add/sub (immediate) *)

Lemma imm12_value Word sh :
  sh = 0 \/ sh = 1 ->
  Z.shiftl (Bits Word 21 10) (sh * 12) = (if sh =? 0 then Bits Word 21 10 else Bits Word 21 10 * 4096) /\
  in_width 32 (if sh =? 0 then Bits Word 21 10 else Bits Word 21 10 * 4096).
Proof.
  intros Hsh. pose proof (Bits_range Word 21 10 ltac:(lia)) as Hr. change (2 ^ (21 - 10 + 1)) with 4096 in Hr.
  unfold in_width. destruct Hsh as [->| ->]; cbn [Z.eqb Z.mul Pos.mul].
  - rewrite Z.shiftl_0_r. split; [done|lia].
  - rewrite Z.shiftl_mul_pow2 by lia. split; lia.
Qed.

(** The constant read at the width of the instruction. *)
Lemma const_low N c : N = 32 \/ N = 64 -> in_width 32 c -> wrap N (u64 c) = c.
Proof.
  intros HN Hc. assert (H64 : in_width 64 c) by (unfold in_width in *; lia).
  unfold u64. rewrite (wrap_small 64) by done. apply wrap_small. unfold in_width in *. destruct HN as [->| ->]; lia.
Qed.

(** The destination of the forms that set no flags. *)
Definition dest_rel (dest : Z -> bool -> Ref -> M unit) (write : Guest -> Z -> Z -> Guest) : Prop :=
  (dest = StoreReg /\ write = wX) \/ (dest = StoreRegSP /\ write = wXSP).

Lemma add_sub_tail_ok junk entry pc s0 s f Is64 Word Src Operand a b dest write e g
  (rd := Bits Word 4 0) (N := bits (SizeFor Is64)) :
  dest_rel dest write -> hasw e (SizeFor Is64) Src a -> hasw e (SizeFor Is64) Operand b ->
  wp junk entry pc s0 (add_sub_tail s f Is64 rd Src Operand dest) e g
    (fun ok _ g' => ok = true /\ g' = add_sub N s f a b g (fun g r => if f then wX g rd r else write g rd r)).
Proof.
  subst rd N. intros Hd Ha Hb. unfold add_sub_tail, add_sub.
  rewrite add_sub_awc; [|apply bits_pos|by eapply hasw_range|by eapply hasw_range]. destruct f; cbn [negb].
  - unfold wX. destruct (Z.eqb_spec (Bits Word 4 0) 31).
    + destruct s; repeat wp_step; done.
    + wp_step. wp_step. wp_step. wp_step. unfold wX. rewrite (proj2 (Z.eqb_neq _ 31)) by done.
      wp_step. by destruct s.
  - wp_step. wp_step. wp_step. destruct Hd as [[-> ->]|[-> ->]]; wp_step; wp_step; by destruct s.
Qed.

Lemma wp_mono junk entry pc s0 {A} (m : M A) e g (P Q : A -> list Z -> Guest -> Prop) :
  wp junk entry pc s0 m e g P -> (forall a e' g', P a e' g' -> Q a e' g') -> wp junk entry pc s0 m e g Q.
Proof. intros Hm H b Hb. destruct (Hm b Hb) as (e' & g' & Hi & HP). eauto. Qed.

(** ADD, ADDS, SUB and SUBS (immediate), with CMP and CMN: the encodings
    with a reserved shift are rejected and for the others the IR computes the
    pseudocode's result and flags into the right register or SP. *)
Lemma add_sub_immediate_impl s f :
  implements (fun w => AddSubImmediate w s f) (arm_add_sub_imm s f).
Proof.
  start AddSubImmediate. unfold arm_add_sub_imm. pose proof (Bits_range Word 23 22 ltac:(lia)) as Hsh.
  change (2 ^ (23 - 22 + 1)) with 4 in Hsh.
  destruct (Z.gtb_spec (Bits Word 23 22) 1) as [Hgt|Hle].
  { rewrite (proj2 (Z.eqb_neq _ 0)), (proj2 (Z.eqb_neq _ 1)) by lia. by apply wp_ret. }
  assert (H01 : Bits Word 23 22 = 0 \/ Bits Word 23 22 = 1) by lia.
  destruct (imm12_value Word _ H01) as [-> Himm].
  replace ((Bits Word 23 22 =? 0) || (Bits Word 23 22 =? 1)) with true by lia.
  set (imm := if _ =? 0 then _ else _) in *. do 4 wp_step. rewrite <- size_datasize.
  assert (Hc : wrap (bits (SizeFor (Bit Word 31))) (u64 imm) = imm)
    by (apply const_low; [destruct (Bit Word 31); auto|done]).
  apply hasw_low with (sz := SizeFor (Bit Word 31)) in Hv, Hv0. rewrite Hc in Hv0.
  eapply wp_mono; [exact (add_sub_tail_ok _ _ _ _ s f _ Word _ _ _ _ StoreRegSP wXSP _ _ (or_intror (conj eq_refl eq_refl)) Hv Hv0)|].
  by intros ok e2 g2 [-> ->].
Qed.

(** ** PC-relative addressing *)

Lemma wp_current_pc junk entry pc s0 {A} (f : Z -> M A) e g Q :
  wp junk entry pc s0 (f pc) e g Q -> wp junk entry pc s0 (fun b => f (CurrentPC b) b) e g Q.
Proof. intros H b Hb. rewrite (inv_pc _ _ _ _ _ _ _ Hb). by apply H. Qed.

Lemma adr_imm Word :
  SignExtend (Z.lor (Z.shiftl (Bits Word 23 5) 2) (Bits Word 30 29)) 21 = sgn 21 (Bits Word 23 5 * 4 + Bits Word 30 29).
Proof.
  rewrite SignExtend_sgn by lia. f_equal. rewrite Z.lor_comm, lor_field_add; [|lia|exact (Bits_range Word 30 29 ltac:(lia))].
  change (2 ^ 2) with 4. lia.
Qed.

Lemma sgn_scale w k x : 0 < w -> 0 <= k -> sgn w x * 2 ^ k = sgn (w + k) (x * 2 ^ k).
Proof.
  intros Hw Hk. assert (0 < 2 ^ k) by (apply Z.pow_pos_nonneg; lia).
  assert (0 < 2 ^ w) by (apply Z.pow_pos_nonneg; lia). unfold sgn.
  replace (w + k - 1) with (w - 1 + k) by lia. rewrite !Z.pow_add_r by lia. rewrite Z.mul_mod_distr_r by lia.
  destruct (Z.ltb_spec (x mod 2 ^ w) (2 ^ (w - 1))), (Z.ltb_spec (x mod 2 ^ w * 2 ^ k) (2 ^ (w - 1) * 2 ^ k)); nia.
Qed.

Lemma ldiff_page pc : Z.ldiff pc 0xFFF = pc - pc mod 4096.
Proof.
  change 0xFFF with (Z.ones 12). rewrite Z.ldiff_ones_r by lia.
  rewrite Z.shiftr_div_pow2, Z.shiftl_mul_pow2 by lia. change (2 ^ 12) with 4096.
  pose proof (Z.div_mod pc 4096). lia.
Qed.

Lemma u64_u64 x : u64 (u64 x) = u64 x.
Proof. unfold u64. by rewrite wrap_wrap by lia. Qed.

(** ADR and ADRP store the PC-relative address, for every 21-bit signed
    displacement, with 64-bit wrap-around. *)
Lemma adr_impl : implements ADR arm_ADR /\ implements ADRP arm_ADRP.
Proof.
  split.
  - start ADR. apply (wp_current_pc _ _ _ _ (fun pc => v <- PCValue (u64 (pc + _)) ;; _)).
    repeat wp_step. unfold arm_ADR, outcome, Rd. by rewrite adr_imm, u64_u64.
  - start ADRP. apply (wp_current_pc _ _ _ _ (fun pc => v <- PCValue (u64 (Z.ldiff pc _ + _)) ;; _)).
    repeat wp_step. unfold arm_ADRP, outcome, Rd. rewrite adr_imm, u64_u64, ldiff_page.
    change 4096 with (2 ^ 12) at 2 4. by rewrite sgn_scale by lia.
Qed.

(** ** With carry *)

Lemma b2z_range c : 0 <= b2z c <= 1.
Proof. destruct c; simpl; lia. Qed.

(** ADC, ADCS, SBC and SBCS add the carry, or subtract with the inverted
    carry as borrow, and set the pseudocode's flags. *)
Lemma add_sub_carry_impl s f : implements (fun w => AddSubCarry w s f) (arm_add_sub_carry s f).
Proof.
  start AddSubCarry. unfold arm_add_sub_carry, X, Rn, Rm, Rd. rewrite <- size_datasize.
  set (N := bits (SizeFor (Bit Word 31))). set (a := wrap N (rX g (Bits Word 9 5))). set (b := wrap N (rX g (Bits Word 20 16))).
  assert (Ha : in_width N a) by apply wrap_in, bits_pos. assert (Hb : in_width N b) by apply wrap_in, bits_pos.
  assert (HA : AddWithCarry N a (if s then NOT N b else b) (b2z (FC (Flags g))) =
    (wrap N (if s then a - b - (1 - b2z (FC (Flags g))) else a + b + b2z (FC (Flags g))),
     if s then sub_flags N a b (b2z (FC (Flags g))) else add_flags N a b (b2z (FC (Flags g))))).
  { destruct s; [apply sub_flags_awc|apply add_flags_awc]; try done; try apply bits_pos; apply b2z_range. }
  destruct f; repeat wp_step; rewrite HA; by destruct s.
Qed.

(** ** Multiply *)

Lemma wrap_add_wrap N x y : 0 <= N -> wrap N (x + wrap N y) = wrap N (x + y).
Proof. intros. unfold wrap. apply Z.add_mod_idemp_r, Z.pow_nonzero; lia. Qed.

Lemma wrap_sub_wrap N x y : 0 <= N -> wrap N (x - wrap N y) = wrap N (x - y).
Proof. intros. unfold wrap. by rewrite Zminus_mod_idemp_r. Qed.

Lemma X_31 N g : 0 <= N -> X N g 31 = 0.
Proof. intros. unfold X, rX. apply wrap_small. unfold in_width. cbn. pose proof (Z.pow_pos_nonneg 2 N). lia. Qed.

(** MADD, MSUB (with MUL and MNEG as the forms with the zero register). *)
Lemma mul_add_impl : implements MADD (arm_mul_add false) /\ implements MSUB (arm_mul_add true).
Proof.
  split.
  - start MADD. unfold arm_mul_add, outcome, Rn, Rm, Rd, Ra. rewrite <- size_datasize.
    do 4 wp_step. destruct (Z.eqb_spec (Bits Word 14 10) 31) as [H31|].
    + repeat wp_step. rewrite H31, X_31 by (pose proof (bits_pos (SizeFor (Bit Word 31))); lia). done.
    + repeat wp_step. by rewrite Z.add_comm.
  - start MSUB. unfold arm_mul_add, outcome, Rn, Rm, Rd, Ra. rewrite <- size_datasize.
    repeat wp_step. cbn [bin]. rewrite wrap_sub_wrap; [done|]. pose proof (bits_pos (SizeFor (Bit Word 31))). lia.
Qed.

(** The long multiplies, SMADDL, SMSUBL, UMADDL, UMSUBL and the forms
    with the zero register: the full signed or unsigned 64-bit product. *)
Lemma mul_long_impl sg s : implements (fun w => MultiplyAddSubLong w sg s) (arm_mul_long sg s).
Proof.
  start MultiplyAddSubLong. unfold arm_mul_long, outcome, Rn, Rm, Rd, Ra.
  set (p := (if sg then sgn 32 (X 32 g (Bits Word 9 5)) else X 32 g (Bits Word 9 5)) *
            (if sg then sgn 32 (X 32 g (Bits Word 20 16)) else X 32 g (Bits Word 20 16))).
  do 5 wp_step. apply (wp_mono _ _ _ _ _ _ _ (fun r e' g' => hasw e' i64Bit r (u64 p) /\ g' = g)).
  { destruct sg; repeat wp_step; (split; [|done]).
    - done.
    - cbn [bin bits] in *. rewrite !Z.shiftr_0_r in *. done. }
  intros r1 e1 g1 [Hp ->]. destruct (Z.eqb_spec (Bits Word 14 10) 31) as [H31|].
  - destruct s; cbn [andb negb]; repeat wp_step; rewrite ?H31, X_31 by lia.
    + cbn [bin bits]. unfold rX. cbn. unfold u64. by rewrite wrap_sub_wrap by lia.
    + done.
  - cbn [andb]. repeat wp_step. cbn [bits]. unfold X. rewrite (wrap_small 64 (rX _ _)).
    + destruct s; cbn [bin]; unfold u64; [by rewrite wrap_sub_wrap by lia|by rewrite wrap_add_wrap by lia].
    + by eapply (hasw_range _ i64Bit).
Qed.

(** SMULH and UMULH: the upper half of the 128-bit product. *)
Lemma mul_high_impl : implements SMULH (arm_mul_high true) /\ implements UMULH (arm_mul_high false).
Proof.
  assert (Hx : forall e r g n, hasw e i64Bit r (rX g n) -> X 64 g n = rX g n)
    by (intros e r g n H; apply wrap_small; by apply (hasw_range _ i64Bit) in H).
  split; [start SMULH|start UMULH]; unfold multiply_high, arm_mul_high, outcome, Rn, Rm, Rd; repeat wp_step;
    erewrite !Hx by eassumption; [done|].
  cbn [bin bits]. split; [done|]. f_equal. symmetry. apply wrap_small.
  apply (bin_range UMulH 64 _ _ false); [lia|by eapply (hasw_range _ i64Bit)..].
Qed.

(** ** Shifts *)

Lemma ror_bits N x a :
  0 < N -> in_width N x -> 0 <= a < N ->
  wrap N (Z.lor (Z.shiftr x a) (Z.shiftl x (N - a))) = of_bits (Z.to_nat N) (fun i => Z.testbit x ((i + a) mod N)).
Proof.
  intros HN Hx Ha. apply (bits_ext N); [lia|apply wrap_range; lia| |].
  { pose proof (of_bits_range (Z.to_nat N) (fun i => Z.testbit x ((i + a) mod N))) as H. by rewrite Z2Nat.id in H by lia. }
  intros i Hi. rewrite testbit_wrap, testbit_of_bits, Z2Nat.id, Z.lor_spec, Z.shiftr_spec, Z.shiftl_spec by lia.
  replace (i <? N) with true by lia. replace (0 <=? i) with true by lia. simpl.
  destruct (decide (i + a < N)).
  - rewrite Z.mod_small, (Z.testbit_neg_r x (i - _)) by lia. apply orb_false_r.
  - rewrite (testbit_above N x (i + a)) by (done || lia). simpl. f_equal.
    replace (i + a) with (i - (N - a) + 1 * N) by lia. by rewrite Z.mod_add, Z.mod_small by lia.
Qed.

Lemma sgn_div_range N x a : 0 < N -> 0 <= a -> wrap N (Z.shiftr (sgn N x) a) = wrap N (sgn N x / 2 ^ a).
Proof. intros. by rewrite Z.shiftr_div_pow2. Qed.

(** The IR's shifts are the pseudocode's. *)
Lemma shift_value N x a ty o :
  0 < N -> in_width N x -> 0 <= a < N ->
  (ty, o) = (0, Lshl) \/ (ty, o) = (1, Lshr) \/ (ty, o) = (2, Ashr) \/ (ty, o) = (3, Ror) ->
  forall b C, b mod N = a -> bin o N x b C = shift_reg N x ty a.
Proof.
  intros HN Hx Ha Hty b C Hb. destruct Hty as [H|[H|[H|H]]]; injection H as -> ->; cbn [bin shift_reg]; rewrite Hb.
  - by rewrite Z.shiftl_mul_pow2 by lia.
  - by rewrite Z.shiftr_div_pow2 by lia.
  - by rewrite sgn_div_range by lia.
  - by apply ror_bits.
Qed.

Lemma shift_variable ty o :
  (ty, o) = (0, Lshl) \/ (ty, o) = (1, Lshr) \/ (ty, o) = (2, Ashr) \/ (ty, o) = (3, Ror) ->
  implements (fun w => ShiftVariable w o) (arm_shift_variable ty).
Proof.
  intros Hty. start ShiftVariable. unfold arm_shift_variable, outcome, Rn, Rm, Rd. rewrite <- size_datasize.
  assert (Ho : match o with Lshl => Lshl | Lshr => Lshr | Ashr => Ashr | _ => Ror end = o)
    by (destruct Hty as [H|[H|[H|H]]]; by injection H as -> ->).
  rewrite Ho. repeat wp_step. split; [done|]. f_equal. unfold X.
  apply shift_value; [apply bits_pos|apply wrap_in, bits_pos|apply Z.mod_pos_bound, bits_pos|done|done].
Qed.

(** LSLV, LSRV, ASRV and RORV shift by the amount modulo the width. *)
Lemma shift_variable_impl :
  implements LSLV (arm_shift_variable 0) /\ implements LSRV (arm_shift_variable 1) /\
  implements ASRV (arm_shift_variable 2) /\ implements RORV (arm_shift_variable 3).
Proof. split_and!; [apply (shift_variable 0)|apply (shift_variable 1)|apply (shift_variable 2)|apply (shift_variable 3)]; auto. Qed.

(** ** One source *)

Lemma leading_zeros_clz n x :
  in_width (Z.of_nat n) x -> leading_zeros n x = clz (Z.of_nat n) x.
Proof.
  unfold clz. revert x. induction n as [|n IH]; intros x Hx.
  - unfold in_width in Hx. simpl in Hx. assert (x = 0) as -> by lia. done.
  - cbn [leading_zeros]. destruct (Z.testbit x (Z.of_nat n)) eqn:Hb.
    + assert (Hne : x <> 0) by (intros ->; by rewrite Z.bits_0 in Hb). rewrite (proj2 (Z.eqb_neq x 0)) by done.
      enough (Z.log2 x = Z.of_nat n) by lia. apply Z.le_antisymm.
      * destruct Hx as [H0 H1]. enough (Z.log2 x < Z.of_nat (S n)) by lia. apply Z.log2_lt_pow2; lia.
      * destruct (decide (Z.of_nat n <= Z.log2 x)); [done|]. rewrite Z.bits_above_log2 in Hb; [done|destruct Hx; lia|lia].
    + rewrite IH.
      * destruct (x =? 0); lia.
      * apply in_width_bits; [lia|destruct Hx; lia|]. intros i Hi. destruct (decide (i = Z.of_nat n)) as [->|]; [done|].
        apply (testbit_above (Z.of_nat (S n))); [done|lia].
Qed.

Lemma of_bits_ext n f h : (forall i, 0 <= i < Z.of_nat n -> f i = h i) -> of_bits n f = of_bits n h.
Proof.
  induction n as [|n IH]; intros H; cbn [of_bits]; [done|]. rewrite IH by (intros i Hi; apply H; lia).
  by rewrite H by lia.
Qed.

(** Solve an equality of bit indices. *)
Ltac index := Z.div_mod_to_equations; lia.

Lemma rev_value N x : N = 32 \/ N = 64 -> un Rev N x = reverse_bytes N N x.
Proof.
  intros HN. unfold un, reverse_bytes. apply of_bits_ext. intros i Hi. f_equal.
  destruct HN as [->| ->]; index.
Qed.

Lemma size_cases b : bits (SizeFor b) = 32 \/ bits (SizeFor b) = 64.
Proof. destruct b; auto. Qed.

(** RBIT, CLZ and REV: bits reversed, leading zeros counted, bytes
    reversed; the unallocated REV encodings are rejected. *)
Lemma one_source_impl :
  implements RBIT_int (arm_unary bit_reverse) /\ implements CLZ_int (arm_unary count_leading_zeros) /\
  implements REV arm_REV.
Proof.
  split_and!.
  - start RBIT_int. unfold unary, arm_unary, outcome, Rn, Rd. rewrite <- size_datasize. by repeat wp_step.
  - start CLZ_int. unfold unary, arm_unary, outcome, Rn, Rd. rewrite <- size_datasize. repeat wp_step.
    split; [done|]. f_equal. unfold count_leading_zeros, X. rewrite leading_zeros_clz.
    + by rewrite Z2Nat.id by (pose proof (bits_pos (SizeFor (Bit Word 31))); lia).
    + rewrite Z2Nat.id by (pose proof (bits_pos (SizeFor (Bit Word 31))); lia). apply wrap_in, bits_pos.
  - start REV. unfold arm_REV. destruct (eqb (Bit Word 31) (Bit Word 10)); cbn [negb]; [|by apply wp_ret].
    unfold unary, arm_unary, outcome, Rn, Rd. rewrite <- size_datasize. repeat wp_step.
    split; [done|]. f_equal. apply rev_value, size_cases.
Qed.

Lemma mask16 (Is64 : bool) (N := bits (SizeFor Is64)) :
  (if Is64 then 0x00FF00FF00FF00FF else 0x00FF00FF) = of_bits (Z.to_nat N) (fun i => i mod 16 <? 8).
Proof. destruct Is64; vm_compute; reflexivity. Qed.

Lemma rev16_value N x :
  N = 32 \/ N = 64 -> in_width N x ->
  let m := of_bits (Z.to_nat N) (fun i => i mod 16 <? 8) in
  Z.lor (wrap N (Z.shiftl (Z.land x m) 8)) (Z.land (Z.shiftr x 8) m) = reverse_bytes 16 N x.
Proof.
  intros HN Hx m. assert (H0 : 0 < N) by lia.
  assert (Hm : in_width N m) by (unfold m; pose proof (of_bits_range (Z.to_nat N) (fun i => i mod 16 <? 8)) as H;
    by rewrite Z2Nat.id in H by lia).
  apply (bits_ext N); [lia| | |].
  - apply in_width_lor; [lia|apply wrap_range; lia|]. apply in_width_land; [lia|apply in_width_shiftr; [lia|done|lia]|apply Hm].
  - unfold reverse_bytes. pose proof (of_bits_range (Z.to_nat N) (fun i => Z.testbit x (i / 16 * 16 + (16 / 8 - 1 - i mod 16 / 8) * 8 + i mod 8))) as H.
    by rewrite Z2Nat.id in H by lia.
  - intros i Hi. unfold reverse_bytes, m.
    rewrite Z.lor_spec, testbit_wrap, Z.shiftl_spec, !Z.land_spec, !testbit_of_bits, Z.shiftr_spec, !Z2Nat.id by lia.
    replace (i <? N) with true by lia. replace (0 <=? i) with true by lia.
    replace (i - 8 <? N) with true by lia. cbn [andb].
    destruct (Z.ltb_spec (i mod 16) 8) as [Hlt|Hge].
    + replace ((0 <=? i - 8) && true && ((i - 8) mod 16 <? 8)) with false.
      * rewrite andb_false_r, andb_true_r. cbn [orb]. f_equal. index.
      * symmetry. apply andb_false_iff. right. apply Z.ltb_ge. index.
    + rewrite andb_false_r, orb_false_r. replace ((0 <=? i - 8) && true && ((i - 8) mod 16 <? 8)) with true.
      * rewrite andb_true_r. f_equal. index.
      * symmetry. rewrite andb_true_r. apply andb_true_iff. split; [apply Z.leb_le|apply Z.ltb_lt]; index.
Qed.

Lemma const_mod N c : N = 32 \/ N = 64 -> 0 <= c < N -> wrap N (u64 c) mod N = c.
Proof.
  intros HN Hc. rewrite (const_low N c); [apply Z.mod_small; lia|tauto|]. unfold in_width. lia.
Qed.

(** REV16 and REV32, whose IR is composed from masks, shifts and a
    rotation, reverse the bytes within each halfword or word. *)
Lemma reversals_impl :
  implements REV16_int (arm_unary (reverse_bytes 16)) /\ implements REV32_int arm_REV32.
Proof.
  split.
  - start REV16_int. unfold arm_unary, outcome, Rn, Rd, X. rewrite <- size_datasize.
    pose proof (size_cases (Bit Word 31)) as HN. repeat wp_step. split; [done|]. f_equal. cbn [bin].
    rewrite const_mod by lia.
    assert (Hm : wrap (bits (SizeFor (Bit Word 31))) (u64 (if Bit Word 31 then 71777214294589695 else 16711935)) =
                 of_bits (Z.to_nat (bits (SizeFor (Bit Word 31)))) (fun i => i mod 16 <? 8)).
    { destruct (Bit Word 31); vm_compute; reflexivity. }
    rewrite Hm. apply rev16_value; [done|apply wrap_in, bits_pos].
  - start REV32_int. unfold arm_REV32, outcome, Rn, Rd, X. repeat wp_step. split; [done|]. f_equal.
    cbn [bin bits].
    change (u64 32 mod 64) with 32. rewrite ror_bits; [|lia|apply (un_range Rev i64Bit); by eapply hasw_range|lia].
    unfold reverse_bytes. apply of_bits_ext. intros i Hi. cbn [un]. rewrite testbit_of_bits.
    pose proof (Z.mod_pos_bound (i + 32) 64). rewrite Z2Nat.id by lia.
    replace (0 <=? (i + 32) mod 64) with true by lia. replace ((i + 32) mod 64 <? 64) with true by lia. cbn [andb].
    rewrite (wrap_small 64) by (by apply (hasw_range _ i64Bit) in Hv). f_equal. index.
Qed.

Lemma testbit_sgn N x i : 0 < N -> 0 <= i < N -> Z.testbit (sgn N x) i = Z.testbit x i.
Proof.
  intros HN Hi. pose proof (wrap_sgn N x ltac:(lia)) as H.
  rewrite <- (Z.mod_pow2_bits_low (sgn N x) N i), <- (Z.mod_pow2_bits_low x N i) by lia.
  unfold wrap in H. by rewrite H.
Qed.

Lemma testbit_sgn_high N x i : 0 < N -> N - 1 <= i -> Z.testbit (sgn N x) i = Z.testbit x (N - 1).
Proof.
  intros HN Hi. destruct (decide (i = N - 1)) as [->|]; [apply testbit_sgn; lia|].
  pose proof (sgn_range N x HN) as Hr.
  assert (Hp : 2 ^ N = 2 * 2 ^ (N - 1)) by (rewrite <- Z.pow_succ_r by lia; f_equal; lia).
  assert (0 < 2 ^ (N - 1)) by (apply Z.pow_pos_nonneg; lia).
  rewrite <- (testbit_sgn N x (N - 1)) by lia. destruct (decide (0 <= sgn N x)) as [H0|H0].
  - rewrite !(testbit_above (N - 1)) by (split_and?; unfold in_width; lia). done.
  - assert (Hneg : forall j, N - 1 <= j -> Z.testbit (sgn N x) j = true).
    { intros j Hj. rewrite <- (Z.lnot_involutive (sgn N x)), Z.lnot_spec by lia. apply negb_true_iff.
      apply (testbit_above (N - 1)); [unfold in_width, Z.lnot; lia|done]. }
    by rewrite !Hneg by lia.
Qed.

Lemma cls_xor N x :
  1 < N -> in_width N x ->
  Z.lxor x (wrap N (Z.shiftr (sgn N x) 1)) = Z.lxor (x / 2) (wrap (N - 1) x) /\
  in_width (N - 1) (Z.lxor (x / 2) (wrap (N - 1) x)).
Proof.
  intros HN Hx.
  assert (Hw : in_width (N - 1) (Z.lxor (x / 2) (wrap (N - 1) x))).
  { apply in_width_lxor; [lia| |apply wrap_range; lia]. destruct Hx as [H0 H1]. split; [apply Z.div_pos; lia|].
    apply Z.div_lt_upper_bound; [lia|]. rewrite <- Z.pow_succ_r by lia. by replace (Z.succ (N - 1)) with N by lia. }
  split; [|done]. apply (bits_ext N); [lia| | |].
  - apply in_width_lxor; [lia|done|apply wrap_range; lia].
  - eapply in_width_mono; [exact Hw|lia|lia].
  - intros i Hi. rewrite !Z.lxor_spec, !testbit_wrap, Z.shiftr_spec by lia.
    rewrite <- (Z.div2_div x), Z.div2_spec, Z.shiftr_spec by lia. replace (i <? N) with true by lia. cbn [andb].
    destruct (decide (i = N - 1)) as [->|].
    + rewrite testbit_sgn_high by lia. replace (N - 1 <? N - 1) with false by lia. rewrite (testbit_above N x (N - 1 + 1)) by (done || lia).
      by destruct (Z.testbit x (N - 1)).
    + rewrite testbit_sgn by lia. replace (i <? N - 1) with true by lia. cbn [andb]. apply xorb_comm.
Qed.

(** CLS, computed as a CLZ of [x ^ (x ASR 1)] less one, counts the
    leading sign bits. *)
Lemma cls_impl : implements CLS_int (arm_unary count_leading_signs).
Proof.
  start CLS_int. unfold arm_unary, outcome, Rn, Rd, X. rewrite <- size_datasize.
  pose proof (size_cases (Bit Word 31)) as HN. set (N := bits (SizeFor (Bit Word 31))) in *.
  repeat wp_step. fold N. split; [done|]. f_equal. cbn [bin un].
  rewrite (const_mod N 1), (const_low N 1) by (unfold in_width; lia || tauto).
  set (x := wrap N (rX g _)). assert (Hx : in_width N x) by (apply wrap_range; lia).
  destruct (cls_xor N x ltac:(lia) Hx) as [-> Hy]. unfold count_leading_signs. set (y := Z.lxor (x / 2) _) in *.
  rewrite leading_zeros_clz by (by rewrite Z2Nat.id by lia). rewrite Z2Nat.id by lia.
  pose proof (clz_range (N - 1) y ltac:(lia) Hy) as Hr.
  replace (clz N y - 1) with (clz (N - 1) y) by (unfold clz; destruct (y =? 0); lia).
  apply wrap_small. unfold in_width. destruct HN as [HN|HN]; rewrite HN in *; lia.
Qed.
