(* ===== verification/LoadStoreSpec.v ===== *)
(** Correctness of the load and store translators: for every word, the IR they
    emit does to the guest's registers and memory what the pseudocode does; where
    an access faults, the execution of the block stops there, with the registers
    as they were before the instruction. *)
From S2P Require Import Prelude A64Common IR ArmSpec IRLogic DataProcessingSpec LoadStore.

(** [T] runs as [S]: [S] may also stop the guest. *)
Definition runs (T : Z -> M bool) (S : Z -> Z -> Guest -> option Guest) : Prop :=
  forall junk entry pc s0 Word e g, in_width 64 pc -> in_width 32 Word ->
    wpf junk entry pc s0 (T Word) e g (outcome (S pc Word g) e g) (fun g' => S pc Word g = Some g').

Lemma implements_runs T S : implements T S -> runs T S.
Proof. intros H junk entry pc s0 Word e g Hpc Hw. by apply wpf_wp, H. Qed.

(** ** Fields *)

Lemma decode_size_opc s o : 0 <= s < 4 -> 0 <= o < 4 ->
  let D := DecodeSizeOpc s o in
  match load_store_op s o with
  | None => Op D = Unallocated
  | Some STORE => Op D = Store
  | Some (LOAD sg rs) => Op D = Load /\ SignExt D = sg /\ bits (SizeFor (Is64Dest D)) = rs /\ 8 * 2 ^ s <= rs
  | Some PREFETCH => Op D = Prefetch
  end.
Proof.
  intros Hs Ho. assert (s = 0 \/ s = 1 \/ s = 2 \/ s = 3) as [->|[->|[->| ->]]] by lia;
    (assert (o = 0 \/ o = 1 \/ o = 2 \/ o = 3) as [->|[->|[->| ->]]] by lia); cbn; split_and?; lia || done.
Qed.

Lemma bytes_of_pow s : 0 <= s -> bytes_of s = Z.to_nat (2 ^ s).
Proof. intros Hs. unfold bytes_of. by rewrite Z.shiftl_1_l. Qed.

Lemma bytes_of_range s : 0 <= s < 4 -> (bytes_of s <= 8)%nat /\ Z.of_nat (bytes_of s) = 2 ^ s.
Proof.
  intros Hs. rewrite bytes_of_pow by lia. assert (2 ^ s <= 2 ^ 3) by (apply Z.pow_le_mono_r; lia). assert (0 < 2 ^ s) by (apply Z.pow_pos_nonneg; lia).
  change (2 ^ 3) with 8 in *. lia.
Qed.

Lemma u64_add_u64 x y : u64 (x + u64 y) = u64 (x + y).
Proof. unfold u64. apply wrap_add_wrap. lia. Qed.

(** The offset register, extended and scaled. *)
Lemma register_offset x opt s :
  in_width 64 x -> 0 <= opt < 8 -> Z.testbit opt 1 = true -> 0 <= s < 4 ->
  forall base, u64 (base + extend_reg 64 x opt s) = u64 (base + mem_offset (ExtendOffsetType opt) x * 2 ^ s).
Proof.
  intros Hx Ho Hbit Hs base.
  assert (Hmul : forall v y, u64 y = u64 v -> u64 (base + y) = u64 (base + v)).
  { intros v y H. unfold u64, wrap in *. by rewrite (Z.add_mod base y), H, <- Z.add_mod by lia. }
  apply Hmul. unfold extend_reg.
  assert (Hpow : 2 ^ 64 = 2 ^ (64 - s) * 2 ^ s) by (rewrite <- Z.pow_add_r by lia; f_equal; lia).
  assert (Hp : 2 ^ (64 - s) <> 0) by (apply Z.pow_nonzero; lia). assert (Hq : 2 ^ s <> 0) by (apply Z.pow_nonzero; lia).
  assert (Hlow : forall v, u64 (wrap 64 (wrap (64 - s) v * 2 ^ s)) = u64 (v * 2 ^ s)).
  { intros v. unfold u64. rewrite wrap_wrap by lia. unfold wrap. rewrite Hpow, !Z.mul_mod_distr_r by done. by rewrite Z.mod_mod. }
  assert (Hlen : forall v, u64 (wrap 64 (sgn (64 - s + s) (wrap (64 - s) v * 2 ^ s))) = u64 (v * 2 ^ s)).
  { intros v. replace (64 - s + s) with 64 by lia. rewrite <- Hlow. unfold u64. by rewrite wrap_sgn by lia. }
  assert (opt = 2 \/ opt = 3 \/ opt = 6 \/ opt = 7) as [->|[->|[->| ->]]].
  { assert (opt = 0 \/ opt = 1 \/ opt = 2 \/ opt = 3 \/ opt = 4 \/ opt = 5 \/ opt = 6 \/ opt = 7) as Hc by lia.
    destruct Hc as [->|[->|[->|[->|[->|[->|[->| ->]]]]]]]; try discriminate Hbit; auto. }
  - change (2 <? 4) with true. change (2 mod 4) with 2. cbv iota. rewrite Z.min_l by lia. apply u64_u64.
  - change (3 <? 4) with true. change (3 mod 4) with 3. cbv iota. rewrite Z.min_r by lia. apply Hlow.
  - change (6 <? 4) with false. change (6 mod 4) with 2. cbv iota. rewrite Z.min_l by lia. unfold u64. rewrite wrap_wrap by lia.
    cbn [ExtendOffsetType mem_offset]. f_equal. by rewrite <- sgn_scale by lia.
  - change (7 <? 4) with false. change (7 mod 4) with 3. cbv iota. rewrite Z.min_r by lia. apply Hlen.
Qed.

(** ** Rules *)

#[export] Instance grows_inline_offset c : Grows (inline_offset c).
Proof. unfold inline_offset. apply _. Qed.
#[export] Instance grows_extend_loaded sg n r : Grows (extend_loaded sg n r).
Proof. unfold extend_loaded. apply _. Qed.
#[export] Instance grows_single b n sg Is64 t a off ty k : Grows (LoadStoreSingle b n sg Is64 t a off ty k).
Proof. unfold LoadStoreSingle. apply _. Qed.
#[export] Instance grows_prefetch GP t a off ty k : Grows (PrefetchHint GP t a off ty k).
Proof. unfold PrefetchHint. apply _. Qed.

Section Rules.
Context (junk : nat -> Z) (entry pc : Z) (s0 : Machine).
Abbreviation wp := (wp junk entry pc s0).
Abbreviation wpf := (wpf junk entry pc s0).

Lemma wp_inline_offset c e g (Q : option Ref -> list Z -> Guest -> Prop) :
  (forall o e' vo, sub e e' -> offw e' o vo -> (forall va, ea va vo SXTX 1 = u64 (va + c)) -> Q o e' g) -> wp (inline_offset c) e g Q.
Proof.
  intros HQ. unfold inline_offset. destruct (Z.eqb_spec c 0) as [->|Hc].
  - apply wp_ret, (HQ None e None); [done|done|]. done.
  - apply wp_bind, wp_inline. intros r e' Hs Hr. apply wp_ret, (HQ (Some r) e' (Some (u64 c))); [done|done|].
    intros va. unfold ea. cbn [mem_offset]. by rewrite Z.mul_1_r, u64_add_u64.
Qed.

Lemma wp_extend_loaded sg n Is64 r v e g (Q : Ref -> list Z -> Guest -> Prop) :
  let rs := bits (SizeFor Is64) in
  hasw e i64Bit r v -> in_width (8 * Z.of_nat n) v -> (0 < n)%nat -> 8 * Z.of_nat n <= rs ->
  (forall r' e', sub e e' -> hasw e' (SizeFor Is64) r' (extend_data sg n rs v) -> Q r' e' g) -> wp (extend_loaded sg n r) e g Q.
Proof.
  intros rs Hr Hv Hpos Hn HQ. unfold extend_loaded, extend_data in *. pose proof (bits_le (SizeFor Is64)) as Hle. fold rs in Hle.
  assert (Hplain : v = wrap rs v) by (symmetry; apply wrap_small; destruct Hv as [H0 H1]; split; [done|];
    eapply Z.lt_le_trans; [exact H1|apply Z.pow_le_mono_r; lia]).
  assert (Hlow : hasw e (SizeFor Is64) r v) by (rewrite Hplain; by apply hasw_low).
  destruct sg; cbn [andb negb]; [|by apply wp_ret, HQ].
  destruct (Nat.eqb_spec n 8) as [->|H8]; cbn [negb].
  - apply wp_ret, HQ; [done|]. change (8 * Z.of_nat 8) with 64 in *. assert (rs = 64) as Hrs by lia. rewrite Hrs, wrap_sgn, wrap_small by done. done.
  - eapply wp_sbfe; [exact Hr|]. intros r' e' Hs Hr'. apply HQ; [done|]. apply (hasw_low _ (SizeFor Is64)) in Hr'. rewrite Z.shiftr_0_r in Hr'. cbn [bits] in Hr'.
    fold rs in Hr'. replace (wrap rs (wrap 64 _)) with (wrap rs (sgn (8 * Z.of_nat n) v)) in Hr'; [done|]. subst rs.
    unfold wrap. symmetry. apply Z.mod_mod_divide. exists (2 ^ (64 - bits (SizeFor Is64))). rewrite <- Z.pow_add_r by lia. f_equal. lia.
Qed.

Lemma offw_mono e e' o vo : sub e e' -> offw e o vo -> offw e' o vo.
Proof. intros Hs. destruct o, vo; cbn; try done. by apply hasw_mono. Qed.

(** One access of a register. *)
Lemma wpf_single_load n sg Is64 t a off ty k va vo e g (Q : unit -> list Z -> Guest -> Prop) (F : Guest -> Prop) :
  let rs := bits (SizeFor Is64) in let A := ea va vo ty k in
  hasw e i64Bit a va -> offw e off vo -> (0 < n <= 8)%nat -> 8 * Z.of_nat n <= rs -> 0 <= t < 32 ->
  (if readable n A (Mem g) then forall e', sub e e' -> Q tt e' (wX g t (extend_data sg n rs (from_le (read_bytes n A (Mem g)))))
   else F (set_stop g (SFault false A))) ->
  wpf (LoadStoreSingle true n sg Is64 t a off ty k) e g Q F.
Proof.
  intros rs A Ha Ho Hn Hrs Ht HQ. unfold LoadStoreSingle. cbn [negb]. apply wpf_bind_stop; [intros r; apply _|].
  eapply wpf_loadmem; [exact Ha|exact Ho|lia|]. cbv zeta. fold A. destruct (readable n A (Mem g)); [|done]. intros r e1 Hs Hr.
  apply wpf_wp, wp_bind. destruct (read_bytes_range n A (Mem g)) as [Hl Hb]. apply from_le_width in Hb. rewrite Hl in Hb.
  eapply (wp_extend_loaded sg n Is64); [exact Hr|exact Hb|lia|done|]. intros r' e2 Hs2 Hr'.
  eapply wp_storeReg; [done|exact Hr'|]. intros e3 Hs3. apply HQ. by etrans; [|etrans].
Qed.

Lemma wpf_single_store n sg Is64 t a off ty k va vo e g (Q : unit -> list Z -> Guest -> Prop) (F : Guest -> Prop) :
  let A := ea va vo ty k in
  hasw e i64Bit a va -> offw e off vo -> 0 <= t < 32 ->
  (if writable n A (Mem g) then forall e', sub e e' -> Q tt e' (set_mem g (write_bytes (to_le n (rX g t)) A (Mem g)))
   else F (set_stop g (SFault true A))) ->
  wpf (LoadStoreSingle false n sg Is64 t a off ty k) e g Q F.
Proof.
  intros A Ha Ho Ht HQ. unfold LoadStoreSingle. cbn [negb]. apply wpf_bind, wp_loadX; [done|]. intros r e1 Hs Hr.
  apply wpf_bind_stop; [intros r'; apply _|]. eapply wpf_storemem; [exact Hr|by eapply hasw_mono|by eapply offw_mono|].
  cbv zeta. fold A. destruct (writable n A (Mem g)); [|done]. intros r' e2 Hs2. apply wpf_ret, HQ. by etrans.
Qed.

Lemma wp_prefetch GP t a off ty k e g (Q : unit -> list Z -> Guest -> Prop) :
  (forall e', sub e e' -> Q tt e' g) -> wp (PrefetchHint GP t a off ty k) e g Q.
Proof.
  intros HQ. unfold PrefetchHint. destruct GP; cbn [negb]; [|by apply wp_ret, HQ].
  destruct (_ || _); [by apply wp_ret, HQ|]. apply wp_bind, wp_nop; [done|]. intros r e' Hs. by apply wp_ret, HQ.
Qed.
End Rules.

(** ** Stepping through a translator *)

Ltac lift_off :=
  repeat match goal with
  | S : sub ?e ?e', H : offw ?e _ _ |- _ => apply (offw_mono _ _ _ _ S) in H
  end; lift.

(** One emission, by [wp_step] where it cannot stop. *)
Ltac wpf_step :=
  lazymatch goal with
  | |- wpf _ _ _ _ (bind (inline_offset _) _) _ _ _ _ => apply wpf_bind, wp_inline_offset; intros ?o ?e' ?vo ?S ?Ho ?Hea; lift_off
  | |- wpf _ _ _ _ (bind (PrefetchHint _ _ _ _ _ _) _) _ _ _ _ => apply wpf_bind, wp_prefetch; intros ?e' ?S; lift_off
  | |- wpf _ _ _ _ (bind (ret _) _) _ _ _ _ => apply wpf_bind, wp_ret
  | |- wpf _ _ _ _ (bind (if _ then _ else _) _) _ _ _ _ => fail
  | |- wpf _ _ _ _ (bind _ _) _ _ _ _ => apply wpf_bind; wp_step; lift_off
  | |- wpf _ _ _ _ (ret _) _ _ _ _ => apply wpf_ret
  end.

Ltac startm T := intros junk entry pc s0 Word e g Hpc Hw; unfold T.

Lemma field_ranges Word : 0 <= Bits Word 31 30 < 4 /\ 0 <= Bits Word 23 22 < 4 /\ 0 <= Bits Word 4 0 < 32 /\ 0 <= Bits Word 9 5 < 32.
Proof.
  pose proof (Bits_range Word 31 30 ltac:(lia)). pose proof (Bits_range Word 23 22 ltac:(lia)).
  pose proof (Bits_range Word 4 0 ltac:(lia)). pose proof (Bits_range Word 9 5 ltac:(lia)). auto.
Qed.

(** ** Literal *)

Lemma literal_sgn Word pc : u64 (pc + SignExtend (Bits Word 23 5) 19 * 4) = literal_address pc Word.
Proof. unfold literal_address. by rewrite SignExtend_sgn by lia. Qed.

Lemma wp_literal junk entry pc s0 Word e g (Q : Ref -> list Z -> Guest -> Prop) :
  (forall r e', sub e e' -> hasw e' i64Bit r (literal_address pc Word) -> Q r e' g) -> wp junk entry pc s0 (literal Word) e g Q.
Proof.
  intros HQ. unfold literal. apply (wp_current_pc _ _ _ _ (fun pc => PCValue (u64 (pc + _)))). rewrite literal_sgn. apply wp_pcvalue. intros r e' Hs Hr. apply HQ; [done|].
  unfold literal_address in *. by rewrite u64_u64 in Hr.
Qed.

(** What the access of a literal comes down to. *)
Lemma ea_plain a : u64 a = a -> ea a None SXTX 1 = a.
Proof. intros H. unfold ea. by rewrite Z.add_0_r. Qed.

Lemma u64_literal pc w : u64 (literal_address pc w) = literal_address pc w.
Proof. unfold literal_address. apply u64_u64. Qed.

Lemma literal_impl : runs LDR_lit_gen arm_LDR_lit /\ runs LDRSW_lit arm_LDRSW_lit /\ forall GP, runs (PRFM_lit GP) arm_PRFM.
Proof.
  split_and!; [startm LDR_lit_gen|startm LDRSW_lit|intros GP; startm PRFM_lit]; destruct (field_ranges Word) as (_ & _ & Ht & _);
    apply wpf_bind, wp_literal; intros r e1 S1 Hr.
  - apply wpf_bind_stop; [apply _|]. eapply (wpf_single_load _ _ _ _ _ false (Bit Word 30) _ _ _ _ _ _ None); [exact Hr|done| | |done|].
    1, 2: by destruct (Bit Word 30); cbn; lia.
    rewrite ea_plain by apply u64_literal. unfold arm_LDR_lit, MemRead, extend_data, Rt. destruct (readable _ _ _); [|done].
    intros e2 _. by apply wpf_ret.
  - apply wpf_bind_stop; [apply _|]. eapply (wpf_single_load _ _ _ _ _ true true _ _ _ _ _ _ None); [exact Hr|done|lia|cbn; lia|done|].
    rewrite ea_plain by apply u64_literal. unfold arm_LDRSW_lit, MemRead, extend_data, Rt. destruct (readable _ _ _); [|done].
    intros e2 _. by apply wpf_ret.
  - wpf_step. by apply wpf_ret.
Qed.

Lemma prfm_impl GP : runs (PRFM_imm GP) arm_PRFM.
Proof. startm PRFM_imm. by repeat wpf_step. Qed.

(** ** One register *)

(** The decoded fields say the operation. *)
Definition decodes (D : OpcDecode) (s : Z) (op : memop) : Prop :=
  match op with
  | STORE => Op D = Store
  | LOAD sg rs => Op D = Load /\ SignExt D = sg /\ bits (SizeFor (Is64Dest D)) = rs /\ 8 * 2 ^ s <= rs
  | PREFETCH => Op D = Prefetch
  end.

Lemma decodes_fields s o : 0 <= s < 4 -> 0 <= o < 4 ->
  match load_store_op s o with Some op => decodes (DecodeSizeOpc s o) s op | None => Op (DecodeSizeOpc s o) = Unallocated end.
Proof. intros Hs Ho. pose proof (decode_size_opc s o Hs Ho) as H. cbv zeta in H. by destruct (load_store_op s o) as [[]|]. Qed.

(** An access without writeback. *)
Lemma wpf_access junk entry pc s0 D op s t a off ty k va vo e0 e g (S : option Guest) :
  0 <= s < 4 -> decodes D s op -> op <> PREFETCH -> 0 <= t < 32 -> hasw e i64Bit a va -> offw e off vo ->
  S = Some (arm_access op s t (ea va vo ty k) g (fun g => g)) ->
  wpf junk entry pc s0 (LoadStoreSingle (bool_decide (Op D = Load)) (bytes_of s) (SignExt D) (Is64Dest D) t a off ty k ;;; ret true)
    e g (outcome S e0 g) (fun g' => S = Some g').
Proof.
  intros Hs HD Hop Ht Ha Ho ->. destruct (bytes_of_range s Hs) as [Hn Hn2]. assert (Hpos : 0 < 2 ^ s) by (apply Z.pow_pos_nonneg; lia).
  unfold arm_access. rewrite <- bytes_of_pow by lia. apply wpf_bind_stop; [apply _|].
  destruct op as [|sg rs|]; [| |done]; cbn [decodes] in HD.
  - rewrite HD. eapply wpf_single_store; [exact Ha|exact Ho|done|]. unfold MemWrite. destruct (writable _ _ _); [|done].
    intros e' _. by apply wpf_ret.
  - destruct HD as (-> & <- & Hrs & Hle). rewrite <- Hrs in *. eapply wpf_single_load; [exact Ha|exact Ho|lia|lia|done|].
    unfold MemRead. destruct (readable _ _ _); [|done]. intros e' _. by apply wpf_ret.
Qed.

Lemma add_offset base c : u64 (base + u64 c) = u64 (base + c).
Proof. unfold u64. apply wrap_add_wrap. lia. Qed.

Lemma offset9 Word : SignExtend (Bits Word 20 12) 9 = sgn 9 (Bits Word 20 12).
Proof. by rewrite SignExtend_sgn by lia. Qed.

(** The written-back address: an addition when there is an offset. *)
Lemma wp_offsetted junk entry pc s0 (c : bool) r v off e g (Q : Ref -> list Z -> Guest -> Prop) :
  hasw e i64Bit r v -> (c = false -> off = 0) ->
  (forall r' e', sub e e' -> hasw e' i64Bit r' (u64 (v + off)) -> Q r' e' g) ->
  wp junk entry pc s0 (if c then k <- Constant off ;; emit (OBin Add i64Bit r k) else ret r) e g Q.
Proof.
  intros Hr Hc HQ. destruct c.
  - apply wp_bind, wp_constant. intros k e1 S1 Hk. eapply wp_bin; [by eapply hasw_mono|exact Hk|]. intros r' e2 S2 Hr'. apply HQ; [by etrans|].
    cbn [bin bits] in Hr'. fold u64 in Hr'. by rewrite <- add_offset.
  - apply wp_ret, HQ; [done|]. rewrite Hc, Z.add_0_r by done. unfold u64. rewrite wrap_small; [done|]. by apply hasw_range in Hr.
Qed.

Lemma u64_reg e r v : hasw e i64Bit r v -> u64 v = v.
Proof. intros H. apply wrap_small. by apply hasw_range in H. Qed.

Lemma decodes_op D s op : decodes D s op ->
  bool_decide (Op D = Unallocated) = false /\ bool_decide (Op D = Prefetch) = match op with PREFETCH => true | _ => false end /\
  bool_decide (Op D = Store) = match op with STORE => true | _ => false end.
Proof. destruct op as [|sg rs|]; cbn [decodes]; [intros ->|intros (-> & _)|intros ->]; by rewrite !bool_decide_decide. Qed.

(** An access with writeback: memory first, then the base, then a load's
    register. *)
Lemma wpf_writeback junk entry pc s0 D op s n t a A base r v e0 e g (S : option Guest) :
  0 <= s < 4 -> decodes D s op -> op <> PREFETCH -> 0 <= t < 32 -> 0 <= n < 32 ->
  hasw e i64Bit a A -> hasw e i64Bit r v -> hasw e i64Bit base (rXSP g n) ->
  S = Some (arm_access op s t A g (fun g => wXSP g n v)) ->
  wpf junk entry pc s0
    (if bool_decide (Op D = Store) then
       x <- LoadX t ;; emit (OStoreMem (bytes_of s) x a None SXTX 1) ;;; StoreXSP n r ;;; ret true
     else
       x <- emit (OLoadMem (bytes_of s) a None SXTX 1) ;; x <- extend_loaded (SignExt D) (bytes_of s) x ;;
       StoreXSP n r ;;; StoreReg t (Is64Dest D) x ;;; ret true)
    e g (outcome S e0 g) (fun g' => S = Some g').
Proof.
  intros Hs HD Hop Ht Hn Ha Hr Hb ->. destruct (bytes_of_range s Hs) as [Hn8 Hn2]. assert (Hpos : 0 < 2 ^ s) by (apply Z.pow_pos_nonneg; lia).
  destruct (decodes_op D s op HD) as (_ & _ & ->). pose proof (u64_reg _ _ _ Ha) as HA. unfold arm_access. rewrite <- bytes_of_pow by lia.
  destruct op as [|sg rs|]; [| |done]; cbn [decodes] in HD.
  - apply wpf_bind, wp_loadX; [done|]. intros x e1 S1 Hx. lift. apply wpf_bind_stop; [apply _|].
    eapply (wpf_storemem _ _ _ _ _ _ _ None _ _ _ _ None); [exact Hx|exact Ha|done|]. cbv zeta. rewrite ea_plain by done. unfold MemWrite.
    destruct (writable _ _ _); [|done]. intros r1 e2 S2. lift. apply wpf_bind. eapply wp_store_slot; [lia|exact Hr|]. intros e3 _. by apply wpf_ret.
  - destruct HD as (_ & <- & Hrs & Hle). apply wpf_bind_stop; [apply _|].
    eapply (wpf_loadmem _ _ _ _ _ _ None _ _ _ None); [exact Ha|done|done|]. cbv zeta. rewrite ea_plain by done. unfold MemRead.
    destruct (readable _ _ _); [|done]. intros r1 e2 S2 Hv1. lift. apply wpf_bind.
    destruct (read_bytes_range (bytes_of s) A (Mem g)) as [Hl Hbs]. apply from_le_width in Hbs. rewrite Hl in Hbs.
    eapply (wp_extend_loaded _ _ _ _ (SignExt D) _ (Is64Dest D)); [exact Hv1|exact Hbs|lia|lia|]. intros r2 e3 S3 Hr2. lift.
    apply wpf_bind. eapply wp_store_slot; [lia|exact Hr|]. intros e4 S4. lift. apply wpf_bind.
    eapply wp_storeReg; [done|eassumption|]. intros e5 _. rewrite <- Hrs. by apply wpf_ret.
Qed.

Lemma prefetch_or op : op = PREFETCH \/ op <> PREFETCH /\ (match op with PREFETCH => true | _ => false end) = false.
Proof. destruct op; auto. Qed.

Lemma imm9_impl GP : runs (LoadStoreImm9 GP) arm_imm9.
Proof.
  startm LoadStoreImm9. destruct (field_ranges Word) as (Hs & Ho & Ht & Hn). pose proof (decodes_fields _ _ Hs Ho) as HD.
  unfold arm_imm9, ArmSpec.size, opc, Rt, Rn. destruct (load_store_op _ _) as [op|]; [|by rewrite HD; apply wpf_ret].
  destruct (decodes_op _ _ _ HD) as (-> & -> & Hst). set (D := DecodeSizeOpc _ _) in *. set (mode := Bits Word 11 10).
  rewrite offset9. set (off := sgn 9 (Bits Word 20 12)). destruct (prefetch_or op) as [->|[Hop ->]].
  { destruct (mode =? 0); cbn [negb]; [|by apply wpf_ret]; by repeat wpf_step. }
  wpf_step. apply wpf_bind. set (n := Bits Word 9 5) in *. set (wback := (mode =? 1) || (mode =? 3)).
  assert (Heq : forall X : option Guest, X = Some (arm_access op (Bits Word 31 30) (Bits Word 4 0)
      (if mode =? 1 then rXSP g n else u64 (rXSP g n + off)) g (fun g => if wback then wXSP g n (u64 (rXSP g n + off)) else g)) ->
    match op with PREFETCH => if mode =? 0 then Some g else None | _ => X end = X) by (intros X _; by destruct op).
  rewrite Heq by done. clear Heq. destruct wback eqn:Hwb.
  - rewrite andb_true_r. eapply wp_offsetted; [eassumption|intros H0; destruct (Z.eqb_spec off 0); done|]. intros r1 e1 S1 Hr1. lift.
    cbn [negb]. destruct (mode =? 1); (eapply wpf_writeback; [done|exact HD|done|done|done|eassumption|exact Hr1|eassumption|done]).
  - rewrite andb_false_r. apply wp_ret. apply orb_false_iff in Hwb as [-> _]. cbn [negb].
    rewrite Hst. assert (Hacc : forall r o vo e1 e2, hasw e1 i64Bit r (rXSP g n) -> offw e1 o vo -> ea (rXSP g n) vo SXTX 1 = u64 (rXSP g n + off) ->
      wpf junk entry pc s0 (LoadStoreSingle (bool_decide (Op D = Load)) (bytes_of (Bits Word 31 30)) (SignExt D) (Is64Dest D) (Bits Word 4 0) r o SXTX 1 ;;; ret true)
        e1 g (outcome (Some (arm_access op (Bits Word 31 30) (Bits Word 4 0) (u64 (rXSP g n + off)) g (fun g => g))) e2 g)
        (fun g' => Some (arm_access op (Bits Word 31 30) (Bits Word 4 0) (u64 (rXSP g n + off)) g (fun g => g)) = Some g'))
      by (intros r1 o1 vo1 e1 e2 Hr1 Ho1 <-; by eapply wpf_access).
    destruct op as [|sg rs|]; [| |done]; cbn [decodes] in HD; wpf_step; eassert (H := Hacc _ _ _ _ e ltac:(eassumption) ltac:(eassumption) (Hea _)).
    + rewrite HD, bool_decide_false in H by done. exact H.
    + destruct HD as (HD & _). rewrite HD, bool_decide_true in H by done. exact H.
Qed.

(** The fields besides bit 24 do not depend on it. *)
Lemma Bits_but24 w w' h l :
  (forall i, 0 <= i -> i <> 24 -> Z.testbit w' i = Z.testbit w i) -> 0 <= l <= h -> h < 24 \/ 24 < l -> Bits w' h l = Bits w h l.
Proof.
  intros Hw Hl H24. apply Z.bits_inj'. intros i Hi. rewrite !testbit_Bits by lia. destruct (Z.leb_spec i (h - l)); [|done]. cbn. apply Hw; lia.
Qed.

Lemma clear24 w i : in_width 32 w -> 0 <= i -> i <> 24 -> Z.testbit (Z.land w (u32 (Z.lnot (Z.shiftl 1 24)))) i = Z.testbit w i.
Proof.
  intros Hw Hi H24. rewrite Z.land_spec. unfold u32. rewrite testbit_wrap, Z.lnot_spec, Z.shiftl_1_l, Z.pow2_bits_eqb by lia.
  destruct (Z.eqb_spec 24 i); [lia|]. destruct (Z.ltb_spec i 32); [apply andb_true_r|]. rewrite (testbit_above 32 w i) by (done || lia). done.
Qed.

Lemma arm_imm9_but24 pc w w' g : (forall i, 0 <= i -> i <> 24 -> Z.testbit w' i = Z.testbit w i) -> arm_imm9 pc w' g = arm_imm9 pc w g.
Proof.
  intros H. unfold arm_imm9, ArmSpec.size, opc, Rn, Rt. assert (HB := Bits_but24 w w'). by rewrite !HB by (done || lia).
Qed.

Lemma rcpc_impl GP : runs (STLURx_LDAPURx GP) arm_rcpc_imm9.
Proof.
  startm STLURx_LDAPURx. unfold arm_rcpc_imm9, ArmSpec.size, opc. destruct (field_ranges Word) as (_ & Ho & _).
  assert (Hbit : Bit Word 23 = (2 <=? Bits Word 23 22)).
  { rewrite Bit_testbit by lia. replace (Z.testbit Word 23) with (Z.testbit (Bits Word 23 22) 1) by (by rewrite testbit_Bits by lia).
    set (o := Bits Word 23 22) in *. assert (o = 0 \/ o = 1 \/ o = 2 \/ o = 3) as [->|[->|[->| ->]]] by lia; done. }
  rewrite Hbit. destruct (_ && _); [by apply wpf_ret|]. rewrite <- (arm_imm9_but24 pc Word (Z.land Word (u32 (Z.lnot (Z.shiftl 1 24))))) by (by intros; apply clear24).
  apply imm9_impl; [done|]. apply in_width_land; [lia|done|]. by apply wrap_range.
Qed.

Lemma uimm12_impl GP : runs (STRx_LDRx_imm_2 GP) arm_uimm12.
Proof.
  startm STRx_LDRx_imm_2. destruct (field_ranges Word) as (Hs & Ho & Ht & Hn). pose proof (decodes_fields _ _ Hs Ho) as HD.
  unfold arm_uimm12, ArmSpec.size, opc, Rt, Rn. destruct (load_store_op _ _) as [op|]; [|by rewrite HD; apply wpf_ret].
  destruct (decodes_op _ _ _ HD) as (-> & -> & _). rewrite Z.shiftl_mul_pow2 by lia. destruct (prefetch_or op) as [->|[Hop ->]]; [by repeat wpf_step|].
  do 2 wpf_step. rewrite <- Hea. by eapply wpf_access.
Qed.

Lemma register_offset_impl GP : runs (LoadStoreRegOffset GP) arm_register_offset.
Proof.
  startm LoadStoreRegOffset. destruct (field_ranges Word) as (Hs & Ho & Ht & Hn). pose proof (decodes_fields _ _ Hs Ho) as HD.
  pose proof (Bits_range Word 15 13 ltac:(lia)) as Hx. change (2 ^ (15 - 13 + 1)) with 8 in Hx. pose proof (Bits_range Word 20 16 ltac:(lia)) as Hm.
  change (2 ^ (20 - 16 + 1)) with 32 in Hm.
  unfold arm_register_offset, ArmSpec.size, opc, Rt, Rn, Rm.
  assert (Hbit : negb (Bit Word 14) = (Z.land (Bits Word 15 13) 2 =? 0)).
  { rewrite Bit_testbit by lia. replace (Z.testbit Word 14) with (Z.testbit (Bits Word 15 13) 1) by (by rewrite testbit_Bits by lia).
    set (o := Bits Word 15 13) in *. assert (o = 0 \/ o = 1 \/ o = 2 \/ o = 3 \/ o = 4 \/ o = 5 \/ o = 6 \/ o = 7) as Hc by lia.
    by destruct Hc as [->|[->|[->|[->|[->|[->|[->| ->]]]]]]]. }
  destruct (load_store_op _ _) as [op|]; [|rewrite HD, orb_true_r; by apply wpf_ret]. destruct (decodes_op _ _ _ HD) as (-> & -> & _).
  rewrite orb_false_r, <- Hbit. destruct (Bit Word 14) eqn:H14; cbn [negb]; [|by apply wpf_ret].
  set (m := Bits Word 20 16) in *. destruct (prefetch_or op) as [->|[Hop ->]]; wpf_step.
  { apply wpf_bind. destruct (m =? 31); [|apply wp_bind, wp_loadX; [done|]; intros x e2 S2 Hv2]; apply wp_prefetch; intros e3 S3; by apply wpf_ret. }
  assert (Hsh : 0 <= (if Bit Word 12 then Bits Word 31 30 else 0) < 4) by (destruct (Bit Word 12); lia).
  assert (Hsc : (if Bit Word 12 then Z.shiftl 1 (Bits Word 31 30) else 1) = 2 ^ (if Bit Word 12 then Bits Word 31 30 else 0))
    by (destruct (Bit Word 12); [by rewrite Z.shiftl_1_l|done]).
  assert (Hopt : Z.testbit (Bits Word 15 13) 1 = true) by (rewrite testbit_Bits by lia; by rewrite Bit_testbit in H14 by lia).
  pose proof (fun x Hx' => register_offset x (Bits Word 15 13) _ Hx' Hx Hopt Hsh (rXSP g (Bits Word 9 5))) as Hreg.
  destruct (Z.eqb_spec m 31) as [Hm31|Hm31].
  - rewrite Hreg by (unfold rX; rewrite Hm31; cbn; unfold in_width; lia). eapply (wpf_access _ _ _ _ _ _ _ _ _ None _ _ _ None); try done.
    replace (rX g m) with 0 by (by rewrite Hm31). unfold ea. by destruct (ExtendOffsetType _).
  - cbv zeta. apply wpf_bind, wp_loadX; [done|]. intros x e2 S2 Hv2. lift. rewrite Hreg by (by eapply (hasw_range _ i64Bit)). rewrite <- Hsc. by eapply (wpf_access _ _ _ _ _ _ _ _ _ (Some _) _ _ _ (Some _)).
Qed.

(** ** Pairs *)

Section Pair.
Context (junk : nat -> Z) (entry pc : Z) (s0 : Machine).
(** The register numbers, the width, the addresses and the value written
    back. *)
Context (Is64 Sign WriteBack : bool) (t t2 rn va a indexed rv Disp2 : Z) (vo : option Z).
Context (Ht : 0 <= t < 32) (Ht2 : 0 <= t2 < 32) (Hrn : 0 <= rn < 32) (Hsign : Sign = true -> Is64 = false).
Context (Hrv : WriteBack = true -> rv = indexed).
Abbreviation n := (if Is64 then 8%nat else 4%nat).
Context (Ha : ea va vo SXTX 1 = a) (Ha2 : u64 (va + Disp2) = u64 (a + Z.of_nat n)).

Definition pair_wb (g : Guest) : Guest := if WriteBack then wXSP g rn indexed else g.

Lemma wp_pair_writeback r e g (Q : unit -> list Z -> Guest -> Prop) :
  hasw e i64Bit r rv -> (forall e', sub e e' -> Q tt e' (pair_wb g)) ->
  wp junk entry pc s0 (if WriteBack then StoreXSP rn r else ret tt) e g Q.
Proof using Hrn Hrv.
  intros Hr HQ. unfold pair_wb in *. destruct WriteBack; [|by apply wp_ret, HQ]. rewrite <- Hrv in HQ by done. eapply wp_store_slot; [lia|exact Hr|done].
Qed.

Lemma ea_disp2 : ea va (Some (u64 Disp2)) SXTX 1 = u64 (a + Z.of_nat n).
Proof using Ha2. unfold ea. cbn [mem_offset]. by rewrite Z.mul_1_r, u64_add_u64. Qed.

Lemma wpf_store_pair r Address o1 o2 e0 e g S :
  hasw e i64Bit r rv -> hasw e i64Bit Address va -> offw e o1 vo -> hasw e i64Bit o2 (u64 Disp2) ->
  S = Some (MemWrite n a (rX g t) g (fun g' => MemWrite n (u64 (a + Z.of_nat n)) (rX g t2) g' pair_wb)) ->
  wpf junk entry pc s0 (x <- LoadX t ;; y <- LoadX t2 ;; emit (OStoreMem n x Address o1 SXTX 1) ;;; emit (OStoreMem n y Address (Some o2) SXTX 1) ;;;
    (if WriteBack then StoreXSP rn r else ret tt) ;;; ret true) e g (outcome S e0 g) (fun g' => S = Some g').
Proof using All.
  intros Hr HA Ho1 Ho2 ->. apply wpf_bind, wp_loadX; [done|]. intros x e1 S1 Hx. lift_off. apply wpf_bind, wp_loadX; [done|]. intros y e2 S2 Hy. lift_off.
  apply wpf_bind_stop; [intros; apply _|]. eapply wpf_storemem; [exact Hx|exact HA|exact Ho1|]. cbv zeta. rewrite Ha. unfold MemWrite.
  destruct (writable n a (Mem g)); [|done]. intros r1 e3 S3. lift.
  apply wpf_bind_stop; [intros; apply _|]. eapply (wpf_storemem _ _ _ _ _ _ _ (Some o2) _ _ _ _ (Some (u64 Disp2))); [exact Hy|exact HA|exact Ho2|]. cbv zeta.
  rewrite ea_disp2. destruct (writable n _ (Mem (set_mem _ _))); [|done]. intros r2 e4 S4. lift.
  apply wpf_bind. eapply wp_pair_writeback; [exact Hr|]. intros e5 S5. by apply wpf_ret.
Qed.

(** Both values, extended, into their registers. *)
Definition pair_loaded (v : Z) : Z := extend_data Sign n 64 v.

Lemma wp_pair_value r v e g (Q : Ref -> list Z -> Guest -> Prop) :
  hasw e i64Bit r v -> in_width (8 * Z.of_nat n) v ->
  (forall r' e', sub e e' -> hasw e' i64Bit r' (pair_loaded v) -> Q r' e' g) ->
  wp junk entry pc s0 (if Sign then emit (OSbfe i64Bit 32 0 r) else ret r) e g Q.
Proof using Hsign.
  intros Hr Hv HQ. unfold pair_loaded, extend_data in HQ. destruct Sign; [|by apply wp_ret, HQ]. rewrite Hsign in HQ by done.
  eapply wp_sbfe; [exact Hr|]. by rewrite Z.shiftr_0_r.
Qed.

Lemma pair_dest v e r : hasw e i64Bit r (pair_loaded v) -> in_width (8 * Z.of_nat n) v -> hasw e (SizeFor (Is64 || Sign)) r (pair_loaded v).
Proof using Hsign.
  intros Hr Hv. destruct (Is64 || Sign) eqn:E; [done|]. apply orb_false_iff in E as [E64 Es]. unfold pair_loaded, extend_data in *. rewrite Es in *.
  rewrite E64 in Hv. apply (hasw_low _ i32Bit) in Hr. cbn [bits] in Hr. by rewrite (wrap_small 32) in Hr.
Qed.

Lemma wpf_load_pair r Address o1 o2 e0 e g S :
  hasw e i64Bit r rv -> hasw e i64Bit Address va -> offw e o1 vo -> hasw e i64Bit o2 (u64 Disp2) ->
  S = Some (MemRead n a g (fun v1 => MemRead n (u64 (a + Z.of_nat n)) g (fun v2 => wX (wX (pair_wb g) t (pair_loaded v1)) t2 (pair_loaded v2)))) ->
  wpf junk entry pc s0 (x <- emit (OLoadMem n Address o1 SXTX 1) ;; y <- emit (OLoadMem n Address (Some o2) SXTX 1) ;;
    x <- (if Sign then emit (OSbfe i64Bit 32 0 x) else ret x) ;; y <- (if Sign then emit (OSbfe i64Bit 32 0 y) else ret y) ;;
    (if WriteBack then StoreXSP rn r else ret tt) ;;; StoreReg t (Is64 || Sign) x ;;; StoreReg t2 (Is64 || Sign) y ;;; ret true)
    e g (outcome S e0 g) (fun g' => S = Some g').
Proof using All.
  intros Hr HA Ho1 Ho2 ->. assert (Hn : (n <= 8)%nat) by (destruct Is64; lia). unfold MemRead.
  assert (Hrange : forall a, in_width (8 * Z.of_nat n) (from_le (read_bytes n a (Mem g))))
    by (intros a'; destruct (read_bytes_range n a' (Mem g)) as [Hl Hb]; apply from_le_width in Hb; by rewrite Hl in Hb).
  apply wpf_bind_stop; [intros; apply _|]. eapply wpf_loadmem; [exact HA|exact Ho1|done|]. cbv zeta. rewrite Ha.
  destruct (readable n a (Mem g)); [|done]. intros x e1 S1 Hx. lift.
  apply wpf_bind_stop; [intros; apply _|]. eapply (wpf_loadmem _ _ _ _ _ _ (Some o2) _ _ _ (Some (u64 Disp2))); [exact HA|exact Ho2|done|]. cbv zeta.
  rewrite ea_disp2. destruct (readable n _ (Mem g)); [|done]. intros y e2 S2 Hy. lift.
  apply wpf_bind. eapply wp_pair_value; [exact Hx|done|]. intros x' e3 S3 Hx'. lift.
  apply wpf_bind. eapply wp_pair_value; [exact Hy|done|]. intros y' e4 S4 Hy'. lift.
  apply wpf_bind. eapply wp_pair_writeback; [exact Hr|]. intros e5 S5. lift.
  apply wpf_bind. eapply wp_storeReg; [done|by apply pair_dest|]. intros e6 S6. lift.
  apply wpf_bind. eapply wp_storeReg; [done|by apply pair_dest|]. intros e7 S7. by apply wpf_ret.
Qed.

Lemma wpf_pair (load : bool) r Address o1 o2 e0 e g S :
  hasw e i64Bit r rv -> hasw e i64Bit Address va -> offw e o1 vo -> hasw e i64Bit o2 (u64 Disp2) ->
  S = Some (if load then MemRead n a g (fun v1 => MemRead n (u64 (a + Z.of_nat n)) g (fun v2 => wX (wX (pair_wb g) t (pair_loaded v1)) t2 (pair_loaded v2)))
            else MemWrite n a (rX g t) g (fun g' => MemWrite n (u64 (a + Z.of_nat n)) (rX g t2) g' pair_wb)) ->
  wpf junk entry pc s0
    (if negb load then
       x <- LoadX t ;; y <- LoadX t2 ;; emit (OStoreMem n x Address o1 SXTX 1) ;;; emit (OStoreMem n y Address (Some o2) SXTX 1) ;;;
       (if WriteBack then StoreXSP rn r else ret tt) ;;; ret true
     else
       x <- emit (OLoadMem n Address o1 SXTX 1) ;; y <- emit (OLoadMem n Address (Some o2) SXTX 1) ;;
       x <- (if Sign then emit (OSbfe i64Bit 32 0 x) else ret x) ;; y <- (if Sign then emit (OSbfe i64Bit 32 0 y) else ret y) ;;
       (if WriteBack then StoreXSP rn r else ret tt) ;;; StoreReg t (Is64 || Sign) x ;;; StoreReg t2 (Is64 || Sign) y ;;; ret true)
    e g (outcome S e0 g) (fun g' => S = Some g').
Proof using All. destruct load; cbn [negb]; intros; [by eapply wpf_load_pair|by eapply wpf_store_pair]. Qed.
End Pair.

Lemma offset7 Word : SignExtend (Bits Word 21 15) 7 = sgn 7 (Bits Word 21 15).
Proof. by rewrite SignExtend_sgn by lia. Qed.

Lemma index_bits Word : Bits Word 24 23 = b2z (Bit Word 23) + 2 * b2z (Bit Word 24).
Proof.
  rewrite !Bit_testbit by lia. pose proof (Bits_range Word 24 23 ltac:(lia)) as Hr. change (2 ^ (24 - 23 + 1)) with 4 in Hr.
  replace (Z.testbit Word 24) with (Z.testbit (Bits Word 24 23) 1) by (by rewrite testbit_Bits by lia).
  replace (Z.testbit Word 23) with (Z.testbit (Bits Word 24 23) 0) by (by rewrite testbit_Bits by lia).
  set (o := Bits Word 24 23) in *. by assert (o = 0 \/ o = 1 \/ o = 2 \/ o = 3) as [->|[->|[->| ->]]] by lia.
Qed.

Lemma pair_impl : runs STP_LDP_gen arm_pair.
Proof.
  startm STP_LDP_gen. unfold arm_pair, Rt, Rt2, Rn. rewrite index_bits, offset7.
  pose proof (Bits_range Word 4 0 ltac:(lia)) as Ht. pose proof (Bits_range Word 14 10 ltac:(lia)) as Ht2. pose proof (Bits_range Word 9 5 ltac:(lia)) as Hn.
  set (o := Bits Word 31 30). set (n := Bits Word 9 5) in *. set (t := Bits Word 4 0) in *. set (t2 := Bits Word 14 10) in *.
  assert (Hsign : (o =? 1) = true -> (o =? 2) = false) by (intros ->%Z.eqb_eq; done).
  destruct (Z.eqb_spec o 3) as [|H3]; [by apply wpf_ret|]. cbn [orb]. destruct ((o =? 1) && negb (Bit Word 22)) eqn:H1; [by apply wpf_ret|]. cbn [orb].
  replace (if o =? 2 then 8 else 4) with (Z.of_nat (if o =? 2 then 8%nat else 4%nat)) by (by destruct (o =? 2)).
  set (k := if o =? 2 then 8%nat else 4%nat). set (off := sgn 7 (Bits Word 21 15) * Z.of_nat k). set (base := rXSP g n).
  assert (Hplus : forall x d, u64 (x + (d + Z.of_nat k)) = u64 (u64 (x + d) + Z.of_nat k))
    by (intros; rewrite Z.add_assoc, (Z.add_comm (u64 _)), u64_add_u64; f_equal; lia).
  assert (Hb : forall e r, hasw e i64Bit r base -> u64 (base + 0) = base) by (intros e1 r1 H; rewrite Z.add_0_r; by apply u64_reg in H).
  destruct (Bit Word 23), (Bit Word 24); [| | |by apply wpf_ret]; apply wpf_bind, wp_loadXSP; try done; intros r e1 S1 Hr; fold base in Hr; lift; apply wpf_bind;
    [eapply (wp_offsetted _ _ _ _ true); [exact Hr|done|]; intros r' e2 S2 Hr'; lift_off ..|apply wp_ret];
    wpf_step; apply wpf_bind, wp_inline; intros o2 e4 S4 Ho2; lift_off.
  - eapply (wpf_pair _ _ _ _ (o =? 2) (o =? 1) true t t2 n (u64 (base + off)) (u64 (base + off)) (u64 (base + off)) (u64 (base + off))); try done.
    rewrite Hea, Z.add_0_r. apply u64_u64.
  - eapply (wpf_pair _ _ _ _ (o =? 2) (o =? 1) true t t2 n base base (u64 (base + off)) (u64 (base + off))); try done. rewrite Hea. by eapply Hb.
  - eapply (wpf_pair _ _ _ _ (o =? 2) (o =? 1) false t t2 n base (u64 (base + off)) 0 base); try done; cbn [orb] in *;
      (replace (if off =? 0 then 0 else off) with off in * by (destruct (Z.eqb_spec off 0); lia)); [by rewrite Hea|exact Ho2].
Qed.

Lemma nontemporal_pair_impl : runs STNP_LDNP_gen arm_nontemporal_pair.
Proof.
  startm STNP_LDNP_gen. unfold arm_nontemporal_pair. apply pair_impl; [done|]. apply in_width_lor; [lia|done|]. unfold in_width. cbn. lia.
Qed.

(** ** Release and acquire *)

Definition fences (l : list op) : list FenceType := omap (fun o => match o with OFence f => Some f | _ => None end) l.

(** The IR of stlr x0, [x1] and ldapr x0, [x1] has fences, that of the unscaled
    forms stlur x0, [x1] and ldapur x0, [x1] has none. *)
Lemma unscaled_unordered (b := mkBuilder [] 0 0 empty_cache 0 1 [] 0 false empty_unit) :
  fences (Ops (LoadStoreAtomicWidth 0xC89FFC20 b).2) = [FenceLoadStore] /\ fences (Ops (LDAPR 0xF8BFC020 b).2) = [FenceAcquire] /\
  forall GP, fences (Ops (STLURx_LDAPURx GP 0xD9000020 b).2) = [] /\ fences (Ops (STLURx_LDAPURx GP 0xD9400020 b).2) = [].
Proof. by split_and!. Qed.
