(* ===== verification/LogicalBitfieldSpec.v ===== *)
(** Correctness of the remaining integer data-processing translators: the
    logical, shifted- and extended-register, conditional, move-wide, bitfield,
    extract and division instructions, against the Arm pseudocode. *)
From S2P Require Import Prelude A64Common IR ArmSpec IRLogic DataProcessing DataProcessingSpec.

(** ** The operand of the shifted-register forms *)

Lemma of_bits_self N x : 0 <= N -> in_width N x -> of_bits (Z.to_nat N) (fun i => Z.testbit x i) = x.
Proof.
  intros HN Hx. apply (bits_ext N); [done| |done|].
  - pose proof (of_bits_range (Z.to_nat N) (fun i => Z.testbit x i)) as H. by rewrite Z2Nat.id in H by lia.
  - intros i Hi. rewrite testbit_of_bits, Z2Nat.id by lia.
    by replace (0 <=? i) with true by lia; replace (i <? N) with true by lia.
Qed.

Lemma of_bits_wrap N x f :
  0 <= N -> (forall i, 0 <= i < N -> f i = Z.testbit x i) -> of_bits (Z.to_nat N) f = wrap N x.
Proof.
  intros HN Hf. rewrite <- (of_bits_self N (wrap N x)); [|done|by apply wrap_range].
  apply of_bits_ext. intros i Hi. rewrite testbit_wrap by lia. rewrite Hf by lia. by replace (i <? N) with true by lia.
Qed.

Lemma shift_reg_0 N x ty : 0 < N -> in_width N x -> shift_reg N x ty 0 = x.
Proof.
  intros HN Hx. assert (Hs : wrap N (sgn N x / 2 ^ 0) = x).
  { rewrite Z.pow_0_r, Z.div_1_r, wrap_sgn by lia. by apply wrap_small. }
  assert (Hr : of_bits (Z.to_nat N) (fun i => Z.testbit x ((i + 0) mod N)) = x).
  { transitivity (of_bits (Z.to_nat N) (Z.testbit x)); [|apply of_bits_self; [lia|done]].
    apply of_bits_ext. intros i Hi. f_equal. rewrite Z.add_0_r. apply Z.mod_small. lia. }
  unfold shift_reg. destruct ty as [|[[p|p|]|[p|p|]|]|p]; try done.
  - rewrite Z.pow_0_r, Z.mul_1_r. by apply wrap_small.
  - by rewrite Z.pow_0_r, Z.div_1_r.
Qed.

Section Operand.
Context (junk : nat -> Z) (entry pc : Z) (s0 : Machine).
Abbreviation wp := (wp junk entry pc s0).

Lemma wp_shiftReg r v ty amt Is64 e g (Q : Ref -> list Z -> Guest -> Prop) (N := bits (SizeFor Is64)) :
  hasw e i64Bit r v -> 0 <= ty < 4 -> 0 <= amt < N ->
  (forall r' e', sub e e' -> hasw e' (SizeFor Is64) r' (shift_reg N (wrap N v) ty amt) -> Q r' e' g) ->
  wp (ShiftReg r ty amt Is64) e g Q.
Proof.
  subst N. intros Hr Hty Ha HQ. pose proof (size_cases Is64) as HN. set (N := bits (SizeFor Is64)) in *.
  assert (Hw : in_width N (wrap N v)) by (apply wrap_range; lia).
  unfold ShiftReg. destruct (Z.eqb_spec amt 0) as [->|Hne].
  - apply wp_ret, HQ; [done|]. rewrite shift_reg_0 by (done || lia). by apply hasw_low.
  - apply wp_bind, wp_constant. intros c e1 S1 Hc. apply (hasw_mono _ _ _ _ _ S1) in Hr.
    assert (Hop : forall o, (ty, o) = (0, Lshl) \/ (ty, o) = (1, Lshr) \/ (ty, o) = (2, Ashr) \/ (ty, o) = (3, Ror) ->
      wp (emit (OBin o (SizeFor Is64) r c)) e1 g Q).
    { intros o Ho. eapply wp_bin; [val|val|]. intros r' e' S2 Hv. apply HQ; [by etrans|]. fold N in Hv.
      by rewrite (shift_value N _ amt ty o) in Hv by (done || lia || by apply const_mod). }
    assert (ty = 0 \/ ty = 1 \/ ty = 2 \/ ty = 3) as [->|[->|[->| ->]]] by lia; apply Hop; auto.
Qed.

Lemma NOT_wrap N x : 0 <= N -> NOT N (wrap N x) = wrap N (Z.lnot x).
Proof.
  intros HN. assert (0 < 2 ^ N) by (apply Z.pow_pos_nonneg; lia). unfold NOT, wrap, Z.lnot.
  apply (Z.mod_unique _ _ (- (x / 2 ^ N) - 1)); [left; pose proof (Z.mod_pos_bound x (2 ^ N)); lia|].
  pose proof (Z.div_mod x (2 ^ N)). lia.
Qed.

Lemma NOT_range N x : in_width N x -> in_width N (NOT N x).
Proof. unfold in_width, NOT. lia. Qed.

(** Inverting all 64 bits inverts the bits the instruction reads. *)
Lemma wp_not64 r v sz e g (Q : Ref -> list Z -> Guest -> Prop) :
  hasw e sz r v -> (forall r' e', sub e e' -> hasw e' sz r' (NOT (bits sz) v) -> Q r' e' g) ->
  wp (emit (OUn Not i64Bit r)) e g Q.
Proof.
  intros (x & Hx & <-) HQ. pose proof (bits_pos sz). apply (wp_un _ _ _ _ _ _ _ (wrap 64 x)).
  { by exists x. }
  intros r' e' S' Hv. apply HQ; [done|]. apply (hasw_low _ sz) in Hv. cbn [un bits] in Hv.
  rewrite NOT_wrap by lia. replace (wrap (bits sz) (Z.lnot x)) with (wrap (bits sz) (wrap 64 (Z.lnot (wrap 64 x)))); [done|].
  rewrite <- (NOT_wrap 64 (wrap 64 x)), wrap_wrap, NOT_wrap by lia. pose proof (bits_le sz).
  unfold wrap. apply Z.mod_mod_divide. exists (2 ^ (64 - bits sz)). rewrite <- Z.pow_add_r by lia. f_equal. lia.
Qed.

End Operand.

(** The top bit of a field. *)
Lemma field_top Word Hi Lo :
  0 <= Lo < Hi -> (Bits Word Hi Lo >=? 2 ^ (Hi - Lo)) = Bit Word Hi.
Proof.
  intros H. rewrite Bit_testbit by lia. replace Hi with (Hi - Lo + Lo) at 3 by lia.
  pose proof (Bits_range Word Hi Lo ltac:(lia)) as [H0 H1].
  assert (Hp : 2 ^ (Hi - Lo + 1) = 2 * 2 ^ (Hi - Lo)) by (rewrite <- Z.pow_succ_r by lia; f_equal; lia).
  assert (0 < 2 ^ (Hi - Lo)) by (apply Z.pow_pos_nonneg; lia).
  transitivity (Z.testbit (Bits Word Hi Lo) (Hi - Lo)).
  - destruct (Z.testbit (Bits Word Hi Lo) (Hi - Lo)) eqn:Ht; [apply Z.testbit_true in Ht; [|lia]|apply Z.testbit_false in Ht; [|lia]];
      rewrite Z.mod_small in Ht by (split; [apply Z.div_pos; lia|apply Z.div_lt_upper_bound; lia]).
    + apply Z.geb_le. pose proof (Z.mul_div_le (Bits Word Hi Lo) (2 ^ (Hi - Lo))). nia.
    + rewrite Z.geb_leb. apply Z.leb_gt. apply Z.div_small_iff in Ht; lia.
  - rewrite testbit_Bits by lia. by replace (Hi - Lo <=? Hi - Lo) with true by lia.
Qed.

Lemma amount_top Word : (Bits Word 15 10 >=? 32) = Bit Word 15.
Proof. apply (field_top Word 15 10). lia. Qed.

(** A six-bit amount that passed the guard is below the width. *)
Lemma amount_range Word :
  negb (Bit Word 31) && Bit Word 15 = false -> 0 <= Bits Word 15 10 < bits (SizeFor (Bit Word 31)).
Proof.
  intros H. rewrite <- amount_top in H. pose proof (Bits_range Word 15 10 ltac:(lia)) as Hr.
  change (2 ^ (15 - 10 + 1)) with 64 in Hr. rewrite Z.geb_leb in H. destruct (Bit Word 31); cbn [SizeFor bits negb andb] in *; [lia|].
  apply Z.leb_gt in H. lia.
Qed.

Ltac shift_step :=
  lazymatch goal with
  | |- wp _ _ _ _ (ShiftReg _ (Bits ?w ?h ?l) _ _) _ _ _ =>
      eapply wp_shiftReg; [eassumption|exact (Bits_range w h l ltac:(lia))|assumption|intros ?r ?e' ?S ?Hv; lift]
  end.

(** A two-bit field. *)
Lemma opc_cases Word Hi Lo :
  0 <= Lo -> Hi = Lo + 1 -> Bits Word Hi Lo = 0 \/ Bits Word Hi Lo = 1 \/ Bits Word Hi Lo = 2 \/ Bits Word Hi Lo = 3.
Proof.
  intros H ->. pose proof (Bits_range Word (Lo + 1) Lo ltac:(lia)) as Hr.
  replace (Lo + 1 - Lo + 1) with 2 in Hr by lia. lia.
Qed.

(** AND, ORR, EOR, ANDS (shifted register), with BIC, ORN, EON, BICS, MOV,
    MVN and TST: every shift type, the inverted operand and, for the
    flag-setting forms, N and Z from the result with C and V cleared. *)
Lemma logical_shifted_impl : implements LogicalShifted arm_logical_shifted.
Proof.
  start LogicalShifted. unfold arm_logical_shifted. rewrite amount_top.
  destruct (negb (Bit Word 31) && Bit Word 15) eqn:Hg; [by apply wp_ret|]. apply amount_range in Hg.
  rewrite <- size_datasize. unfold X, Rn, Rm, Rd. do 3 wp_step. shift_step.
  set (N := bits (SizeFor (Bit Word 31))) in *. set (b := shift_reg N _ _ _) in *. wp_step.
  apply (wp_mono _ _ _ _ _ _ _ (fun r' e2 g2 =>
    hasw e2 (SizeFor (Bit Word 31)) r' (if Bit Word 21 then NOT N b else b) /\ g2 = g)).
  { destruct (Bit Word 21); [|by apply wp_ret]. eapply wp_not64; [eassumption|by intros]. }
  intros r1 e1 g1 [Hb ->]. set (b1 := if Bit Word 21 then NOT N b else b) in *.
  do 3 wp_step. unfold logical.
  destruct (opc_cases Word 30 29 ltac:(lia) eq_refl) as [Ho|[Ho|[Ho|Ho]]]; rewrite Ho; repeat wp_step; done.
Qed.

Lemma wrap_wrap_min a b x : 0 <= a -> 0 <= b -> wrap a (wrap b x) = wrap (Z.min a b) x.
Proof.
  intros Ha Hb. apply Z.bits_inj'. intros i Hi. rewrite !testbit_wrap by lia.
  destruct (Z.ltb_spec i a), (Z.ltb_spec i b), (Z.ltb_spec i (Z.min a b)); try lia; done.
Qed.

Lemma wrap_shift N s x : 0 <= s <= N -> wrap N (x * 2 ^ s) = wrap (N - s) x * 2 ^ s.
Proof.
  intros H. unfold wrap. replace (2 ^ N) with (2 ^ (N - s) * 2 ^ s) by (rewrite <- Z.pow_add_r by lia; f_equal; lia).
  apply Z.mul_mod_distr_r; apply Z.pow_nonzero; lia.
Qed.

(** AND, ORR, EOR and ANDS (immediate): a bitmask immediate is rejected
    exactly when the pseudocode's [DecodeBitMasks] is undefined, and is decoded
    to the same mask otherwise; the destination is SP except for ANDS. *)
Lemma logical_immediate_impl : implements LogicalImmediate arm_logical_imm.
Proof.
  start LogicalImmediate. unfold arm_logical_imm. destruct (negb (Bit Word 31) && Bit Word 22) eqn:Hg; [by apply wp_ret|].
  change (if Bit Word 31 then 64 else 32) with (datasize Word).
  pose proof (DecodeBitMasks_arm (Bit Word 22) (Bits Word 15 10) (Bits Word 21 16) true (datasize Word)
    (Bits_range Word 15 10 ltac:(lia)) (Bits_range Word 21 16 ltac:(lia))) as Hd.
  assert (HM : datasize Word = 64 \/ datasize Word = 32 /\ Bit Word 22 = false).
  { unfold datasize. destruct (Bit Word 31); [auto|]. right. split; [done|]. by destruct (Bit Word 22). }
  specialize (Hd HM).
  destruct (DecodeBitMasks _ _ _ _ _) as [[Imm t]|], (ArmDecodeBitMasks _ _ _ _ _) as [[fw ft]|]; try done; [|by apply wp_ret].
  rewrite <- size_datasize in *. unfold X, Rn, Rd. do 4 wp_step.
  assert (Himm : wrap (bits (SizeFor (Bit Word 31))) (u64 Imm) = of_bits (Z.to_nat (bits (SizeFor (Bit Word 31)))) fw).
  { pose proof (size_cases (Bit Word 31)). symmetry. rewrite (of_bits_wrap _ Imm); [|lia|].
    - unfold u64. rewrite wrap_wrap_min by lia. f_equal. lia.
    - intros i Hi. symmetry. by apply Hd. }
  set (N := bits (SizeFor (Bit Word 31))) in *. unfold logical. rewrite <- Himm.
  destruct (opc_cases Word 30 29 ltac:(lia) eq_refl) as [Ho|[Ho|[Ho|Ho]]]; rewrite Ho; repeat wp_step; done.
Qed.

(** ADD, ADDS, SUB and SUBS (shifted register), with CMP, CMN and NEG. *)
Lemma add_sub_shifted_impl : implements AddSubShifted arm_add_sub_shifted.
Proof.
  start AddSubShifted. unfold arm_add_sub_shifted. rewrite amount_top.
  destruct (Bits Word 23 22 =? 3); [by apply wp_ret|]. cbn [orb].
  destruct (negb (Bit Word 31) && Bit Word 15) eqn:Hg; [by apply wp_ret|]. apply amount_range in Hg.
  rewrite <- size_datasize. unfold X, Rn, Rm, Rd. do 3 wp_step. shift_step. do 2 wp_step.
  apply hasw_low with (sz := SizeFor (Bit Word 31)) in Hv1.
  eapply wp_mono; [exact (add_sub_tail_ok _ _ _ _ _ _ _ Word _ _ _ _ StoreReg wX _ _ (or_introl (conj eq_refl eq_refl)) Hv1 Hv0)|].
  intros ok e2 g2 [-> ->]. split; [done|]. by destruct (Bit Word 29).
Qed.

(** ** The extended operand *)

Definition ext_len (ty : Z) : Z := match ty mod 4 with 0 => 8 | 1 => 16 | 2 => 32 | _ => 64 end.

Definition extended (ty x : Z) : Z :=
  if ty <? 4 then wrap (ext_len ty) x else wrap 64 (sgn (ext_len ty) x).

Lemma extended_low N ty s x :
  N = 32 \/ N = 64 -> 0 <= ty < 8 -> 0 <= s <= 4 ->
  wrap N (extended ty x * 2 ^ s) = extend_reg N (wrap N x) ty s.
Proof.
  intros HN Hty Hs. unfold extended, extend_reg. fold (ext_len ty). set (L := ext_len ty).
  assert (HL : 8 <= L <= 64) by (subst L; unfold ext_len; destruct (ty mod 4) as [|[[]|[]|]|]; lia).
  rewrite wrap_wrap_min by lia. destruct (ty <? 4).
  - rewrite !wrap_shift, !wrap_wrap_min by lia. do 2 f_equal. lia.
  - replace (Z.min (Z.min L (N - s)) N) with (Z.min L (N - s)) by lia. rewrite <- sgn_scale, sgn_wrap by lia.
    rewrite !wrap_shift, wrap_wrap_min by lia. f_equal. replace (Z.min (N - s) 64) with (N - s) by lia.
    destruct (decide (L <= N - s)); [by rewrite Z.min_l by lia|]. rewrite Z.min_r, wrap_sgn by lia.
    rewrite <- (Z.min_l (N - s) L) at 1 by lia. by rewrite <- wrap_wrap_min, wrap_sgn, wrap_wrap_min, Z.min_l by lia.
Qed.

Lemma wp_extendReg junk entry pc s0 r v ty s e g (Q : Ref -> list Z -> Guest -> Prop) :
  hasw e i64Bit r v -> 0 <= ty < 8 -> 0 <= s <= 4 ->
  (forall r' e', sub e e' -> hasw e' i64Bit r' (wrap 64 (extended ty v * 2 ^ s)) -> Q r' e' g) ->
  wp junk entry pc s0 (ExtendReg r ty s) e g Q.
Proof.
  intros Hr Hty Hs HQ. pose proof (hasw_range _ i64Bit _ _ Hr) as Hv. cbn [bits] in Hv. unfold ExtendReg. wp_step.
  apply (wp_mono _ _ _ _ _ _ _ (fun r' e' g' => sub e e' /\ hasw e' i64Bit r' (extended ty v) /\ g' = g)).
  { assert (Hself : extended 3 v = v /\ extended 7 v = v).
    { split; [by apply (wrap_small 64)|]. change (wrap 64 (sgn 64 v) = v). rewrite wrap_sgn by lia. by apply wrap_small. }
    destruct Hself as [H3 H7].
    assert (ty = 0 \/ ty = 1 \/ ty = 2 \/ ty = 3 \/ ty = 4 \/ ty = 5 \/ ty = 6 \/ ty = 7) as Hc by lia.
    destruct Hc as [->|[->|[->|[->|[->|[->|[->| ->]]]]]]];
      [eapply wp_bfe|eapply wp_bfe|eapply wp_bfe|apply wp_ret|eapply wp_sbfe|eapply wp_sbfe|eapply wp_sbfe|apply wp_ret];
      rewrite ?H3, ?H7; try done; try (cbn [bits]; lia); intros r' e' Sb Hv'; by rewrite Z.shiftr_0_r in Hv'. }
  intros r1 e1 g1 (S1 & H1 & ->). assert (He : in_width 64 (extended ty v)) by (by apply (hasw_range _ i64Bit) in H1).
  destruct (Z.eqb_spec s 0) as [->|].
  - apply wp_ret, HQ; [done|]. by rewrite Z.pow_0_r, Z.mul_1_r, wrap_small.
  - apply wp_bind, wp_constant. intros c e2 S2 Hc. apply (hasw_mono _ _ _ _ _ S2) in H1.
    eapply wp_bin; [val|val|]. intros r' e' S3 Hv'. apply HQ; [by do 2 (etrans; [eassumption|])|].
    cbn [bin bits] in Hv'. unfold u64 in Hv'. rewrite (wrap_small 64 s), (Z.mod_small s) in Hv' by (unfold in_width; lia).
    by rewrite Z.shiftl_mul_pow2 in Hv' by lia.
Qed.

(** ADD, ADDS, SUB and SUBS (extended register): the eight extensions, the
    shift up to four, and SP as the source, or as the destination of the forms
    that set no flags. *)
Lemma add_sub_extended_impl : implements AddSubExtended arm_add_sub_extended.
Proof.
  start AddSubExtended. unfold arm_add_sub_extended. rewrite Z.gtb_ltb.
  destruct (4 <? Bits Word 12 10) eqn:Hg; [by apply wp_ret|]. cbn [orb].
  destruct (negb (Bits Word 23 22 =? 0)); [by apply wp_ret|]. apply Z.ltb_ge in Hg.
  pose proof (Bits_range Word 12 10 ltac:(lia)). rewrite <- size_datasize. unfold X, XorSP, Rn, Rm, Rd. do 3 wp_step.
  eapply wp_extendReg; [eassumption|exact (Bits_range Word 15 13 ltac:(lia))|lia|]. intros r1 e1 S1 Hv1. lift. do 2 wp_step.
  apply hasw_low with (sz := SizeFor (Bit Word 31)) in Hv0, Hv1.
  pose proof (size_cases (Bit Word 31)) as HN. rewrite wrap_wrap_min in Hv1 by lia.
  rewrite Z.min_l, (extended_low _ _ _ _ HN) in Hv1 by (exact (Bits_range Word 15 13 ltac:(lia)) || lia).
  eapply wp_mono; [exact (add_sub_tail_ok _ _ _ _ _ _ _ Word _ _ _ _ StoreRegSP wXSP _ _ (or_intror (conj eq_refl eq_refl)) Hv0 Hv1)|].
  by intros ok e2 g2 [-> ->].
Qed.

(** ** Conditions *)

Lemma MapCondition_holds c f : 0 <= c < 16 -> nzcv_cond (MapCondition c) f = ConditionHolds c f.
Proof.
  intros Hc.
  assert (Hin : c = 0 \/ c = 1 \/ c = 2 \/ c = 3 \/ c = 4 \/ c = 5 \/ c = 6 \/ c = 7 \/ c = 8 \/ c = 9 \/ c = 10 \/
    c = 11 \/ c = 12 \/ c = 13 \/ c = 14 \/ c = 15) by lia.
  repeat (destruct Hin as [->|Hin]; [reflexivity|]). by rewrite Hin.
Qed.

Lemma always_holds c f : 14 <= c < 16 -> ConditionHolds c f = true.
Proof. intros Hc. assert (c = 14 \/ c = 15) as [->| ->] by lia; reflexivity. Qed.

(** CCMP and CCMN, with a register or an immediate: the comparison's flags
    when the condition holds, the encoded flags otherwise; conditions 14 and
    15 both always hold. *)
Lemma cond_compare_impl : implements CondCompare arm_cond_compare.
Proof.
  start CondCompare. unfold arm_cond_compare. destruct (Bit Word 10 || Bit Word 4); [by apply wp_ret|].
  rewrite <- size_datasize. set (sz := SizeFor (Bit Word 31)). unfold Rn, Rm.
  pose proof (Bits_range Word 15 12 ltac:(lia)) as Hc. change (2 ^ (15 - 12 + 1)) with 16 in Hc.
  do 3 wp_step. set (a := X (bits sz) g (Bits Word 9 5)).
  set (b := if Bit Word 11 then Bits Word 20 16 else X (bits sz) g (Bits Word 20 16)).
  apply (wp_mono _ _ _ _ _ _ _ (fun r' e' g' => hasw e' sz r a /\ hasw e' sz r' b /\ g' = g)).
  { subst b. destruct (Bit Word 11); wp_step; (split; [by apply hasw_low|split; [|done]]); [|by apply hasw_low].
    rewrite <- (const_low (bits sz) (Bits Word 20 16)) by
      (apply size_cases || (eapply in_width_mono; [exact (Bits_range Word 20 16 ltac:(lia))|lia|lia])).
    by apply hasw_low. }
  intros r1 e1 g1 (Ha & Hb & ->).
  assert (HA := add_sub_awc (bits sz) (Bit Word 30) a b (bits_pos sz) (hasw_range _ _ _ _ Ha) (hasw_range _ _ _ _ Hb)).
  rewrite HA. cbn [snd]. rewrite Z.geb_leb. destruct (Z.leb_spec 14 (Bits Word 15 12)).
  - rewrite always_holds by lia. destruct (Bit Word 30); repeat wp_step; done.
  - rewrite <- MapCondition_holds by done. wp_step. eapply wp_condnzcv; [eassumption..|]. intros r2 e2 S2. by wp_step.
Qed.

Lemma opc1_top Word : (Bits Word 11 10 >? 1) = Bit Word 11.
Proof.
  rewrite <- (field_top Word 11 10) by lia. rewrite Z.gtb_ltb, Z.geb_leb.
  change (2 ^ (11 - 10)) with 2. apply eq_true_iff_eq. rewrite Z.ltb_lt, Z.leb_le. lia.
Qed.

Lemma opc1_low Word : Bit Word 11 = false -> Bits Word 11 10 = if Bit Word 10 then 1 else 0.
Proof.
  intros H. rewrite <- opc1_top, Z.gtb_ltb in H. apply Z.ltb_ge in H.
  pose proof (Bits_range Word 11 10 ltac:(lia)) as Hr. rewrite Bit_testbit by lia.
  assert (Ht : Z.testbit (Bits Word 11 10) 0 = Z.testbit Word 10) by (by rewrite testbit_Bits by lia).
  rewrite <- Ht. assert (Bits Word 11 10 = 0 \/ Bits Word 11 10 = 1) as [->| ->] by lia; done.
Qed.

Lemma neg_NOT N x : 0 <= N -> wrap N (- x) = wrap N (NOT N x + 1).
Proof.
  intros HN. unfold wrap, NOT. replace (2 ^ N - 1 - x + 1) with (- x + 1 * 2 ^ N) by lia.
  symmetry. apply Z.mod_add, Z.pow_nonzero; lia.
Qed.

(** CSEL, CSINC, CSINV and CSNEG, with CSET, CSETM, CINC, CINV and CNEG. *)
Lemma cond_select_impl : implements CondSelect arm_cond_select.
Proof.
  start CondSelect. unfold arm_cond_select. rewrite opc1_top.
  destruct (Bit Word 29); [by apply wp_ret|]. cbn [orb]. destruct (Bit Word 11) eqn:H11; [by apply wp_ret|].
  rewrite <- size_datasize. set (sz := SizeFor (Bit Word 31)). pose proof (size_cases (Bit Word 31)) as HN. fold sz in HN.
  pose proof (Bits_range Word 15 12 ltac:(lia)) as Hc. change (2 ^ (15 - 12 + 1)) with 16 in Hc.
  unfold Rn, Rm, Rd. do 4 wp_step. rewrite Z.geb_leb. destruct (Z.leb_spec 14 (Bits Word 15 12)).
  { rewrite always_holds by lia. by repeat wp_step. }
  rewrite <- MapCondition_holds by done. set (m := X (bits sz) g (Bits Word 20 16)). cbn zeta. wp_step.
  set (alt := if Bit Word 10 then _ else _).
  apply (wp_mono _ _ _ _ _ _ _ (fun r' e1 g1 => sub e'0 e1 /\ hasw e1 sz r' alt /\ g1 = g)).
  { subst alt. rewrite (opc1_low Word H11). destruct (Bit Word 30), (Bit Word 10); cbn [negb andb Z.eqb Pos.eqb].
    - eapply wp_un; [val|]. intros r1 e1 S1 H1. split_and!; [done| |done]. cbn [un] in H1. by rewrite neg_NOT in H1 by lia.
    - eapply wp_un; [val|]. intros r1 e1 S1 H1. split_and!; [done| |done]. cbn [un] in H1.
      rewrite <- NOT_wrap in H1 by lia. unfold m, X in *. by rewrite wrap_wrap in H1 by lia.
    - apply wp_bind, wp_constant. intros c e1 S1 Hc1. apply (hasw_mono _ _ _ _ _ S1) in Hv0.
      eapply wp_bin; [val|val|]. intros r1 e2 S2 H1. split_and!; [by etrans| |done]. cbn [bin] in H1.
      by rewrite const_low in H1 by (done || (unfold in_width; lia)).
    - apply wp_ret. split_and!; [done| |done]. by apply hasw_low. }
  intros r1 e1 g1 (S1 & H1 & ->). lift. by repeat wp_step.
Qed.

(** ** Move wide *)

Lemma hw_top Word : (Bits Word 22 21 >? 1) = Bit Word 22.
Proof.
  rewrite <- (field_top Word 22 21) by lia. rewrite Z.gtb_ltb, Z.geb_leb.
  change (2 ^ (22 - 21)) with 2. apply eq_true_iff_eq. rewrite Z.ltb_lt, Z.leb_le. lia.
Qed.

(** [old] with the 16 bits at [pos] replaced by [imm]. *)
Definition insert16 (old imm pos : Z) : Z := Z.lor (Z.ldiff old (Z.shiftl 0xFFFF pos)) (Z.shiftl imm pos).

Lemma testbit_16 pos i : 0 <= pos -> 0 <= i -> Z.testbit (Z.shiftl 0xFFFF pos) i = (pos <=? i) && (i <? pos + 16).
Proof.
  intros Hp Hi. rewrite Z.shiftl_spec by done. change 0xFFFF with (Z.ones 16).
  destruct (Z.leb_spec pos i); [|by rewrite Z.testbit_neg_r by lia]. rewrite Z.testbit_ones_nonneg by lia.
  cbn [andb]. apply eq_true_iff_eq. rewrite !Z.ltb_lt. lia.
Qed.

Lemma insert16_bits N old imm pos :
  0 < N -> 0 <= pos -> in_width 16 imm ->
  of_bits (Z.to_nat N) (fun i => if (pos <=? i) && (i <? pos + 16) then Z.testbit imm (i - pos) else Z.testbit old i) =
  wrap N (insert16 old imm pos).
Proof.
  intros HN Hp Hi. apply of_bits_wrap; [lia|]. intros i Hr. unfold insert16.
  rewrite Z.lor_spec, Z.ldiff_spec, testbit_16, Z.shiftl_spec by lia.
  destruct (Z.leb_spec pos i), (Z.ltb_spec i (pos + 16)); cbn [andb negb]; rewrite ?andb_false_r, ?andb_true_r; cbn [orb]; try done.
  - by rewrite (testbit_above 16 imm), orb_false_r by (done || lia).
  - by rewrite (Z.testbit_neg_r imm), orb_false_r by lia.
  - by rewrite (Z.testbit_neg_r imm), orb_false_r by lia.
Qed.

(** MOVK's mask and merge, at the width of the instruction. *)
Lemma movk_value N old imm pos :
  0 < N <= 64 -> 0 <= pos ->
  Z.lor (Z.land (wrap N old) (wrap N (u64 (u64 (Z.lnot (u64 (Z.shiftl 0xFFFF pos)))))))
    (wrap N (u64 (u64 (Z.shiftl imm pos)))) = wrap N (insert16 (wrap N old) imm pos).
Proof.
  intros HN Hp. unfold u64, insert16. rewrite !wrap_wrap by lia. apply Z.bits_inj'. intros i Hi.
  rewrite Z.lor_spec, Z.land_spec, !testbit_wrap, Z.lnot_spec, testbit_wrap, Z.lor_spec, Z.ldiff_spec, testbit_wrap by lia.
  destruct (Z.ltb_spec i N); cbn [andb]; [|done]. replace (i <? 64) with true by lia. cbn [andb]. done.
Qed.

Lemma wrap_u64 N x : 0 <= N <= 64 -> wrap N (u64 x) = wrap N x.
Proof. intros H. unfold u64. by rewrite wrap_wrap_min, Z.min_l by lia. Qed.

Lemma insert16_0 imm pos : insert16 0 imm pos = Z.shiftl imm pos.
Proof. unfold insert16. by rewrite Z.ldiff_0_l, Z.lor_0_l. Qed.

(** MOVN's constant. *)
Lemma movn_value Is64 x (N := bits (SizeFor Is64)) :
  u64 (if negb Is64 then Z.land (u64 (Z.lnot (u64 x))) 0xFFFFFFFF else u64 (Z.lnot (u64 x))) = NOT N (wrap N x).
Proof.
  assert (HN : 0 <= N <= 64) by (subst N; destruct Is64; simpl; lia). rewrite NOT_wrap by lia.
  assert (H64 : wrap N (u64 (Z.lnot (u64 x))) = wrap N (Z.lnot x)).
  { rewrite wrap_u64 by done. rewrite <- !NOT_wrap by lia. by rewrite wrap_u64. }
  subst N. destruct Is64; cbn [negb SizeFor bits] in *.
  - exact H64.
  - change 0xFFFFFFFF with (Z.ones 32). rewrite land_wrap by lia. rewrite H64. unfold u64.
    by rewrite wrap_wrap_min by lia.
Qed.

Lemma movz_value N imm pos :
  N = 32 \/ N = 64 -> in_width 16 imm -> 0 <= pos -> 16 + pos <= N ->
  u64 (u64 (Z.shiftl imm pos)) = wrap N (Z.shiftl imm pos).
Proof.
  intros HN [Hi0 Hi1] Hp Hle. assert (Hin : in_width N (Z.shiftl imm pos)).
  { rewrite Z.shiftl_mul_pow2 by done. assert (0 < 2 ^ pos) by (apply Z.pow_pos_nonneg; lia). split; [nia|].
    apply Z.lt_le_trans with (2 ^ (16 + pos)); [rewrite Z.pow_add_r by lia; nia|]. apply Z.pow_le_mono_r; lia. }
  rewrite u64_u64, (wrap_small N) by done. apply wrap_small. eapply in_width_mono; [exact Hin|lia|lia].
Qed.

(** MOVN, MOVZ and MOVK: every 16-bit position, the complement of MOVN at
    the width of the instruction, and the other bits kept by MOVK; the
    reserved positions and the unallocated opcode are rejected. *)
Lemma move_wide_impl : implements MoveWide arm_move_wide.
Proof.
  start MoveWide. unfold arm_move_wide. rewrite hw_top.
  pose proof (opc_cases Word 30 29 ltac:(lia) eq_refl) as Ho. pose proof (size_cases (Bit Word 31)) as HN.
  pose proof (Bits_range Word 22 21 ltac:(lia)) as Hhw. change (2 ^ (22 - 21 + 1)) with 4 in Hhw.
  destruct (negb (Bit Word 31) && Bit Word 22) eqn:Hg; [rewrite orb_true_r; by apply wp_ret|].
  rewrite orb_false_r, insert16_bits by (done || lia || exact (Bits_range Word 20 5 ltac:(lia))).
  rewrite <- size_datasize. set (imm := Bits Word 20 5). set (pos := Bits Word 22 21 * 16).
  assert (Hx : u64 (u64 (Z.shiftl imm pos)) = wrap (bits (SizeFor (Bit Word 31))) (Z.shiftl imm pos)).
  { apply movz_value; [done|exact (Bits_range Word 20 5 ltac:(lia))|subst pos; lia|].
    subst pos. rewrite <- hw_top, Z.gtb_ltb in Hg.
    destruct (Bit Word 31); cbn [SizeFor bits negb andb] in *; [lia|apply Z.ltb_ge in Hg; lia]. }
  destruct Ho as [Ho|[Ho|[Ho|Ho]]]; rewrite Ho in *; cbn [Z.eqb Pos.eqb]; cbn zeta; unfold Rd.
  - repeat wp_step. by rewrite movn_value, insert16_0.
  - by apply wp_ret.
  - repeat wp_step. by rewrite Hx, insert16_0.
  - repeat wp_step. split; [done|]. f_equal. cbn [bin]. apply movk_value; subst pos; lia.
Qed.

(** ** Extract *)

(** EXTR (and ROR by an immediate): the low word of the pair of registers
    shifted right. *)
Lemma extr_impl : implements EXTR arm_EXTR.
Proof.
  start EXTR. unfold arm_EXTR. rewrite amount_top.
  replace (eqb (Bit Word 22) (Bit Word 31)) with (eqb (Bit Word 31) (Bit Word 22)) by (by destruct (Bit Word 22), (Bit Word 31)).
  destruct (negb (eqb (Bit Word 31) (Bit Word 22)) || (negb (Bit Word 31) && Bit Word 15)); [by apply wp_ret|].
  rewrite <- size_datasize. unfold X, Rn, Rm, Rd. repeat wp_step. split; [done|]. f_equal. symmetry.
  apply of_bits_wrap; [pose proof (bits_pos (SizeFor (Bit Word 31))); lia|]. intros i Hi. by rewrite Z.shiftr_spec by lia.
Qed.

(** ** Division *)

Ltac select_step :=
  eapply wp_select; [val|val|val|val|reflexivity|intros ?r ?e' ?S ?Hv; lift].

(** UDIV: the quotient, and zero for a zero divisor; the division emitted
    never has one. *)
Lemma udiv_impl : implements UDIV (arm_div false).
Proof.
  start UDIV. unfold arm_div, Rn, Rm, Rd. rewrite <- size_datasize. set (sz := SizeFor (Bit Word 31)).
  do 9 wp_step. select_step.
  set (a := X (bits sz) g (Bits Word 9 5)). set (b := X (bits sz) g (Bits Word 20 16)).
  assert (H0 : wrap (bits sz) (u64 0) = 0) by (apply const_low; [apply size_cases|unfold in_width; lia]).
  assert (H1 : wrap (bits sz) (u64 1) = 1) by (apply const_low; [apply size_cases|unfold in_width; lia]).
  rewrite H0, H1 in Hv3. change (wrap (bits sz) (rX g (Bits Word 20 16))) with b in *.
  eapply (wp_udiv _ _ _ _ (fun q => v <- emit _ ;; StoreReg _ _ v ;;; ret true) _ _ _ a); [val|eassumption| |].
  { destruct (Z.eqb_spec b 0); lia. }
  intros q e1 S1 Hq. lift. wp_step. select_step. repeat wp_step. split; [done|]. f_equal.
  change (wrap (bits sz) (rX g (Bits Word 20 16))) with b. rewrite H0. by destruct (b =? 0).
Qed.

Lemma wrap_m1 N : N = 32 \/ N = 64 -> wrap N (u64 (-1)) = 2 ^ N - 1.
Proof. by intros [->| ->]. Qed.

Lemma sgn_m1 N : 0 < N -> sgn N (2 ^ N - 1) = -1.
Proof.
  intros HN. assert (Hp : 2 ^ N = 2 * 2 ^ (N - 1)) by (rewrite <- Z.pow_succ_r by lia; f_equal; lia).
  assert (0 < 2 ^ (N - 1)) by (apply Z.pow_pos_nonneg; lia). unfold sgn. rewrite Z.mod_small by lia.
  destruct (Z.ltb_spec (2 ^ N - 1) (2 ^ (N - 1))); lia.
Qed.

Lemma sgn_inj N x y : 0 <= N -> in_width N x -> in_width N y -> sgn N x = sgn N y -> x = y.
Proof. intros HN Hx Hy H. rewrite <- (wrap_small N x), <- (wrap_small N y), <- (wrap_sgn N x), <- (wrap_sgn N y) by done. by rewrite H. Qed.

(** The divisor SDIV divides by: neither 0 nor -1, and otherwise the
    instruction's. *)
Lemma safe_divisor N b (s := if wrap N (b + 1) <=? 1 then 1 else b) :
  1 < N -> in_width N b ->
  sgn N s <> 0 /\ sgn N s <> -1 /\ (b = 0 \/ b = 2 ^ N - 1 \/ s = b).
Proof.
  intros HN [Hb0 Hb1]. pose proof (sgn_m1 N ltac:(lia)) as Hm.
  assert (H4 : 2 ^ 2 <= 2 ^ N) by (apply Z.pow_le_mono_r; lia). change (2 ^ 2) with 4 in H4.
  assert (Hs : in_width N s /\ s <> 0 /\ s <> 2 ^ N - 1 /\ (b = 0 \/ b = 2 ^ N - 1 \/ s = b)).
  { subst s. destruct (decide (b = 2 ^ N - 1)) as [->|].
    - replace (2 ^ N - 1 + 1) with (0 + 1 * 2 ^ N) by lia. unfold wrap. rewrite Z.mod_add, Z.mod_0_l by lia. cbn. unfold in_width. lia.
    - rewrite wrap_small by (unfold in_width; lia). unfold in_width. destruct (Z.leb_spec (b + 1) 1); lia. }
  destruct Hs as (Hs & H0 & H1 & H). split_and!; [| |done].
  - intros E. apply H0, (sgn_inj N); [lia|done|unfold in_width; lia|]. rewrite E. symmetry. apply sgn_id; [lia|].
    pose proof (Z.pow_pos_nonneg 2 (N - 1)). lia.
  - intros E. apply H1, (sgn_inj N); [lia|done|unfold in_width; lia|]. by rewrite E, Hm.
Qed.

Lemma sdiv_minus_one N a : 0 < N -> wrap N (Z.quot (sgn N a) (-1)) = wrap N (- a).
Proof.
  intros HN. replace (Z.quot (sgn N a) (-1)) with (- sgn N a).
  - unfold wrap. rewrite <- (Z.sub_0_l (sgn N a)), <- (Z.sub_0_l a), <- (Zminus_mod_idemp_r _ (sgn N a)), <- (Zminus_mod_idemp_r _ a).
    pose proof (wrap_sgn N a ltac:(lia)) as H. unfold wrap in H. by rewrite H.
  - change (-1) with (- (1)). by rewrite Z.quot_opp_r, Z.quot_1_r by lia.
Qed.

(** SDIV: the quotient rounded towards zero, zero for a zero divisor and
    the wrapped negation for -1; the division emitted never overflows. *)
Lemma sdiv_impl : implements SDIV (arm_div true).
Proof.
  start SDIV. unfold arm_div, Rn, Rm, Rd. rewrite <- size_datasize. set (sz := SizeFor (Bit Word 31)).
  pose proof (size_cases (Bit Word 31)) as HN. fold sz in HN.
  do 13 wp_step. select_step.
  set (a := X (bits sz) g (Bits Word 9 5)). set (b := X (bits sz) g (Bits Word 20 16)).
  assert (H0 : wrap (bits sz) (u64 0) = 0) by (apply const_low; [done|unfold in_width; lia]).
  assert (H1 : wrap (bits sz) (u64 1) = 1) by (apply const_low; [done|unfold in_width; lia]).
  change (wrap (bits sz) (rX g (Bits Word 20 16))) with b in *. rewrite H1 in *. cbn [bin] in *.
  destruct (safe_divisor (bits sz) b ltac:(lia) (wrap_in _ _ (bits_pos sz))) as (Hs0 & Hs1 & Hsb).
  set (s := if _ <=? 1 then 1 else b) in *.
  eapply (wp_sdiv _ _ _ _ (fun q => x <- emit _ ;; y <- emit _ ;; v <- emit _ ;; StoreReg _ _ v ;;; ret true) _ _ _ a);
    [val|eassumption|done|tauto|].
  intros q e1 S1 Hq. lift. do 3 wp_step. select_step. wp_step. select_step. repeat wp_step. split; [done|]. f_equal.
  change (wrap (bits sz) (rX g (Bits Word 20 16))) with b. change (wrap (bits sz) (rX g (Bits Word 9 5))) with a.
  rewrite H0, wrap_m1 by done. cbn [un]. destruct (Z.eqb_spec b 0) as [|Hb]; [done|].
  destruct (Z.eqb_spec b (2 ^ bits sz - 1)) as [->|Hb'].
  - rewrite sgn_m1 by lia. by rewrite sdiv_minus_one by lia.
  - by destruct Hsb as [|[|Hsb]]; [done|done|rewrite Hsb].
Qed.
