(* ===== verification/BitfieldSpec.v ===== *)
(** Correctness of the bitfield translator (SBFM, BFM and UBFM, with their
    aliases): the bitfield operations it emits, which never rotate, against
    the pseudocode's rotation and pair of masks. *)
From S2P Require Import Prelude A64Common IR ArmSpec IRLogic DataProcessing DataProcessingSpec LogicalBitfieldSpec.

(** Bit [i] of the result, with the rotation resolved into its two cases. *)
Definition bf_bit (N opc src dst R S i : Z) : bool :=
  let top := if opc =? 0 then Z.testbit src S else Z.testbit dst i in
  if R <=? S then (if i <=? S - R then Z.testbit src (i + R) else top)
  else if i <? N - R then Z.testbit dst i
  else if i <=? S + N - R then Z.testbit src (i - (N - R)) else top.

(** The guard fixes the element size to the data size. *)
Lemma bitfield_masks (sf : bool) (N S R : Z) :
  N = (if sf then 64 else 32) -> 0 <= S < N ->
  ArmDecodeBitMasks sf S R false N =
  Some (fun i => (i mod N + R mod N) mod N <=? S, fun i => i mod N <=? (S - R mod N) mod N).
Proof.
  intros HN HS. unfold ArmDecodeBitMasks.
  assert (Hlen : Z.log2 (Z.lor (if sf then 64 else 0) (63 - S)) = if sf then 6 else 5).
  { destruct sf; subst N.
    - assert (E : Z.lor 64 (63 - S) = 64 + (63 - S)).
      { rewrite Z.lor_comm. change 64 with (Z.shiftl 1 6) at 1. rewrite lor_field_add by (unfold in_width; lia). lia. }
      rewrite E. apply Z.log2_unique; lia.
    - rewrite Z.lor_0_l. apply Z.log2_unique; lia. }
  rewrite Hlen. replace (negb sf && (S =? 63)) with false by (destruct sf; cbn; [done|symmetry; apply Z.eqb_neq; lia]).
  replace (2 ^ (if sf then 6 else 5)) with N by (by destruct sf). rewrite (Z.mod_small S N) by lia.
  by destruct sf.
Qed.

Lemma bitfield_bits (N opc src dst R S i : Z) :
  0 < N -> 0 <= S < N -> 0 <= R < N -> 0 <= i < N -> (opc = 0 -> dst = 0) ->
  (if i mod N <=? (S - R mod N) mod N
   then if (i mod N + R mod N) mod N <=? S then ROR_bit N src R i else Z.testbit dst i
   else if opc =? 0 then Z.testbit src S else Z.testbit dst i) = bf_bit N opc src dst R S i.
Proof.
  intros HN HS HR Hi Hd. rewrite (Z.mod_small i), (Z.mod_small R) by lia. unfold bf_bit, ROR_bit.
  destruct (Z.leb_spec R S).
  - rewrite (Z.mod_small (S - R)) by lia. destruct (Z.leb_spec i (S - R)); [|done].
    rewrite Z.mod_small by lia. by replace (i + R <=? S) with true by lia.
  - rewrite <- (Z.mod_add (S - R) 1), (Z.mod_small (S - R + 1 * N)) by lia.
    destruct (Z.ltb_spec i (N - R)).
    + rewrite (Z.mod_small (i + R)) by lia. replace (i + R <=? S) with false by lia.
      destruct (Z.leb_spec i (S - R + 1 * N)); [done|]. lia.
    + rewrite <- (Z.mod_add (i + R) (-1)), (Z.mod_small (i + R + -1 * N)) by lia.
      replace (i <=? S - R + 1 * N) with (i <=? S + N - R) by (f_equal; lia).
      destruct (Z.leb_spec i (S + N - R)); [|done]. replace (i + R + -1 * N <=? S) with true by lia.
      f_equal. lia.
Qed.

(** ** The values of the six emitted forms, bit by bit *)

Lemma testbit_sgn_field w x j :
  0 < w -> 0 <= j < 64 -> Z.testbit (wrap 64 (sgn w x)) j = Z.testbit x (Z.min j (w - 1)).
Proof.
  intros Hw Hj. rewrite testbit_wrap by lia. replace (j <? 64) with true by lia. cbn [andb].
  destruct (decide (j < w)); [rewrite testbit_sgn by lia|rewrite testbit_sgn_high by lia]; f_equal; lia.
Qed.

Section Forms.
#[local] Set Default Proof Using "Type*".
Context (src dst R S N i : Z).
Hypothesis HN : 0 < N <= 64.
Hypothesis HS : 0 <= S < N.
Hypothesis HR : 0 <= R < N.
Hypothesis Hi : 0 <= i < N.

Lemma sbfx_bit : R <= S -> Z.testbit (wrap 64 (sgn (S - R + 1) (Z.shiftr src R))) i = bf_bit N 0 src 0 R S i.
Proof.
  intros H. rewrite testbit_sgn_field, Z.shiftr_spec by lia. unfold bf_bit. cbn [Z.eqb].
  replace (R <=? S) with true by lia. destruct (Z.leb_spec i (S - R)); f_equal; lia.
Qed.

Lemma ubfx_bit : R <= S -> Z.testbit (wrap (S - R + 1) (Z.shiftr src R)) i = bf_bit N 2 src 0 R S i.
Proof.
  intros H. rewrite testbit_wrap, Z.shiftr_spec by lia. unfold bf_bit. cbn [Z.eqb].
  replace (R <=? S) with true by lia. rewrite Z.bits_0.
  destruct (Z.ltb_spec i (S - R + 1)), (Z.leb_spec i (S - R)); try lia; done.
Qed.

Lemma bfxil_bit :
  R <= S -> Z.testbit (Z.lor (Z.ldiff dst (field_mask (S - R + 1))) (Z.land (Z.shiftr src R) (field_mask (S - R + 1)))) i =
            bf_bit N 1 src dst R S i.
Proof.
  intros H. unfold field_mask. rewrite Z.lor_spec, Z.ldiff_spec, Z.land_spec, Z.testbit_ones_nonneg, Z.shiftr_spec by lia.
  unfold bf_bit. cbn [Z.eqb]. replace (R <=? S) with true by lia.
  destruct (Z.ltb_spec i (S - R + 1)), (Z.leb_spec i (S - R)); try lia; cbn [negb];
    rewrite ?andb_false_r, ?andb_true_r, ?orb_false_r; done.
Qed.

(** The forms that move the field up; [sh] is the IR's shift amount. *)
Lemma shifted_bit f sh :
  S < R -> sh = N - R -> in_width 64 f ->
  Z.testbit (wrap 64 (Z.shiftl f sh)) i = if i <? N - R then false else Z.testbit f (i - (N - R)).
Proof.
  intros H -> Hf. rewrite testbit_wrap, Z.shiftl_spec by lia. replace (i <? 64) with true by lia. cbn [andb].
  destruct (Z.ltb_spec i (N - R)); [|done]. apply Z.testbit_neg_r. lia.
Qed.

Lemma sbfiz_bit sh :
  S < R -> sh = N - R ->
  Z.testbit (wrap 64 (Z.shiftl (wrap 64 (sgn (S + 1) (Z.shiftr src 0))) sh)) i = bf_bit N 0 src 0 R S i.
Proof.
  intros H Hsh. rewrite shifted_bit by (done || apply wrap_range; lia). unfold bf_bit. cbn [Z.eqb].
  replace (R <=? S) with false by lia. destruct (Z.ltb_spec i (N - R)); [by rewrite Z.bits_0|].
  rewrite testbit_sgn_field, Z.shiftr_0_r by lia. destruct (Z.leb_spec i (S + N - R)); f_equal; lia.
Qed.

Lemma ubfiz_bit sh :
  S < R -> sh = N - R ->
  Z.testbit (wrap 64 (Z.shiftl (wrap (S + 1) (Z.shiftr src 0)) sh)) i = bf_bit N 2 src 0 R S i.
Proof.
  intros H Hsh. rewrite shifted_bit by (done || (eapply in_width_mono; [apply wrap_range; lia|lia|lia])). unfold bf_bit. cbn [Z.eqb].
  replace (R <=? S) with false by lia. rewrite !Z.bits_0. destruct (Z.ltb_spec i (N - R)); [done|].
  rewrite testbit_wrap, Z.shiftr_0_r by lia.
  destruct (Z.leb_spec i (S + N - R)), (Z.ltb_spec (i - (N - R)) (S + 1)); try lia; done.
Qed.

Lemma bfi_bit :
  S < R ->
  Z.testbit (Z.lor (Z.ldiff dst (Z.shiftl (field_mask (S + 1)) (N - R))) (Z.shiftl (Z.land src (field_mask (S + 1))) (N - R))) i =
  bf_bit N 1 src dst R S i.
Proof.
  intros H. unfold field_mask. rewrite Z.lor_spec, Z.ldiff_spec, !Z.shiftl_spec by lia.
  unfold bf_bit. cbn [Z.eqb]. replace (R <=? S) with false by lia. destruct (Z.ltb_spec i (N - R)).
  { by rewrite !(Z.testbit_neg_r _ (i - (N - R))), orb_false_r, andb_true_r by lia. }
  rewrite Z.land_spec, Z.testbit_ones_nonneg by lia.
  destruct (Z.leb_spec i (S + N - R)), (Z.ltb_spec (i - (N - R)) (S + 1)); try lia; cbn [negb];
    rewrite ?andb_false_r, ?andb_true_r, ?orb_false_r; done.
Qed.

End Forms.

(** ** The translator *)

Lemma bitfield_guard Word :
  (Bits Word 30 29 =? 3) || negb (eqb (Bit Word 22) (Bit Word 31)) ||
    (negb (Bit Word 31) && ((Bits Word 21 16 >=? 32) || (Bits Word 15 10 >=? 32))) =
  (Bits Word 30 29 =? 3) || (Bit Word 31 && negb (Bit Word 22)) ||
    (negb (Bit Word 31) && (Bit Word 22 || Bit Word 21 || Bit Word 15)).
Proof.
  rewrite amount_top. change 32 with (2 ^ (21 - 16)). rewrite field_top by lia.
  by destruct (Bits Word 30 29 =? 3), (Bit Word 22), (Bit Word 31), (Bit Word 21), (Bit Word 15).
Qed.

(** What passes the guard. *)
Lemma bitfield_fields Word :
  (Bits Word 30 29 =? 3) || negb (eqb (Bit Word 22) (Bit Word 31)) ||
    (negb (Bit Word 31) && ((Bits Word 21 16 >=? 32) || (Bits Word 15 10 >=? 32))) = false ->
  Bits Word 30 29 <> 3 /\ Bit Word 22 = Bit Word 31 /\
  0 <= Bits Word 21 16 < datasize Word /\ 0 <= Bits Word 15 10 < datasize Word.
Proof.
  intros H. pose proof (Bits_range Word 21 16 ltac:(lia)) as HR. pose proof (Bits_range Word 15 10 ltac:(lia)) as HS.
  change (2 ^ (21 - 16 + 1)) with 64 in HR. change (2 ^ (15 - 10 + 1)) with 64 in HS. rewrite !Z.geb_leb in H.
  apply orb_false_iff in H as [H H3]. apply orb_false_iff in H as [H1 H2].
  apply Z.eqb_neq in H1. apply negb_false_iff, eqb_prop in H2. unfold datasize.
  destruct (Bit Word 31); cbn [negb andb] in H3; [split_and!; done || lia|].
  apply orb_false_iff in H3 as [H3 H4]. apply Z.leb_gt in H3, H4. split_and!; done || lia.
Qed.

Lemma arm_bitfield_bits pc Word g (N := datasize Word) :
  (Bits Word 30 29 =? 3) || negb (eqb (Bit Word 22) (Bit Word 31)) ||
    (negb (Bit Word 31) && ((Bits Word 21 16 >=? 32) || (Bits Word 15 10 >=? 32))) = false ->
  arm_bitfield pc Word g =
  Some (wX g (Rd Word) (of_bits (Z.to_nat N)
    (bf_bit N (Bits Word 30 29) (rX g (Rn Word)) (if Bits Word 30 29 =? 1 then rX g (Rd Word) else 0)
       (Bits Word 21 16) (Bits Word 15 10)))).
Proof.
  intros Hg. destruct (bitfield_fields Word Hg) as (Ho & H22 & HR & HS). rewrite bitfield_guard in Hg.
  unfold arm_bitfield. rewrite Hg, H22. fold N in HR, HS |- *. pose proof (datasize_pos Word) as HN. fold N in HN.
  rewrite (bitfield_masks (Bit Word 31) N) by done. do 2 f_equal. apply of_bits_ext. intros i Hi. rewrite Z2Nat.id in Hi by lia.
  set (dst := if Bits Word 30 29 =? 1 then X N g (Rd Word) else 0).
  rewrite (bitfield_bits N (Bits Word 30 29) (X N g (Rn Word)) dst) by (done || lia || intros E; subst dst; by rewrite E).
  assert (Hx : forall n j, 0 <= j < N -> Z.testbit (X N g n) j = Z.testbit (rX g n) j).
  { intros n j Hj. unfold X. rewrite testbit_wrap by lia. by replace (j <? N) with true by lia. }
  assert (Hd : Z.testbit dst i = Z.testbit (if Bits Word 30 29 =? 1 then rX g (Rd Word) else 0) i).
  { subst dst. destruct (_ =? 1); [by apply Hx|done]. }
  unfold bf_bit. rewrite Hd. destruct (Z.leb_spec (Bits Word 21 16) (Bits Word 15 10)).
  - destruct (Z.leb_spec i (Bits Word 15 10 - Bits Word 21 16)); by rewrite !Hx by lia.
  - destruct (Z.ltb_spec i (N - Bits Word 21 16)), (Z.leb_spec i (Bits Word 15 10 + N - Bits Word 21 16));
      rewrite ?Hx by lia; done.
Qed.

(** SBFM, BFM and UBFM, hence SBFX, SBFIZ, ASR, SXTB/SXTH/SXTW, BFI, BFXIL,
    BFC, UBFX, UBFIZ, LSL, LSR, UXTB and UXTH (immediate): for every position
    and width, the rotate-and-mask pseudocode. *)
Lemma bitfield_impl : implements Bitfield arm_bitfield.
Proof.
  start Bitfield.
  destruct ((Bits Word 30 29 =? 3) || negb (eqb (Bit Word 22) (Bit Word 31)) ||
    (negb (Bit Word 31) && ((Bits Word 21 16 >=? 32) || (Bits Word 15 10 >=? 32)))) eqn:Hg.
  { unfold arm_bitfield. rewrite bitfield_guard in Hg. rewrite Hg. by apply wp_ret. }
  rewrite arm_bitfield_bits by done. destruct (bitfield_fields Word Hg) as (Ho & _ & HR & HS). clear Hg.
  change (if Bit Word 31 then 64 else 32) with (datasize Word). pose proof (datasize_cases Word) as HN.
  rewrite <- size_datasize in *. set (N := bits (SizeFor (Bit Word 31))) in *.
  set (R := Bits Word 21 16) in *. set (S := Bits Word 15 10) in *. unfold Rn, Rd. do 3 wp_step.
  set (src := rX g (Bits Word 9 5)) in *.
  assert (Hsh : S < R -> u64 (N - R) mod 64 = N - R).
  { intros H. unfold u64. rewrite (wrap_small 64) by (unfold in_width; lia). apply Z.mod_small. lia. }
  apply (wp_mono _ _ _ _ _ _ _ (fun r' e1 g1 => exists v, hasw e1 i64Bit r' v /\ g1 = g /\ forall i, 0 <= i < N ->
    bf_bit N (Bits Word 30 29) src (if Bits Word 30 29 =? 1 then rX g (Bits Word 4 0) else 0) R S i = Z.testbit v i)).
  2:{ intros r1 e1 g1 (v & Hv' & -> & Hbits). apply hasw_low with (sz := SizeFor (Bit Word 31)) in Hv'.
      repeat wp_step. split; [done|]. f_equal. symmetry. apply of_bits_wrap; [lia|done]. }
  rewrite Z.geb_leb. destruct (opc_cases Word 30 29 ltac:(lia) eq_refl) as [H|[H|[H|H]]]; [| | |done];
    rewrite H; cbn [Z.eqb Pos.eqb]; (destruct (Z.leb_spec R S) as [Hle|Hlt]; [|specialize (Hsh Hlt)]).
  - eapply wp_sbfe; [val|]. intros r1 e1 S1 Hv1. eexists. split_and!; [exact Hv1|done|]. intros i Hi. symmetry. apply sbfx_bit; lia.
  - repeat wp_step. eexists. split_and!; [eassumption|done|]. intros i Hi. symmetry. cbn [bin bits]. apply sbfiz_bit; lia.
  - do 2 wp_step. eapply wp_bfxil; [val|val|cbn [bits]; lia|]. intros r1 e1 S1 Hv1. eexists. split_and!; [exact Hv1|done|].
    intros i Hi. symmetry. apply bfxil_bit; lia.
  - do 2 wp_step. eapply wp_bfi; [val|val|lia|lia|cbn [bits]; lia|]. intros r1 e1 S1 Hv1. eexists. split_and!; [exact Hv1|done|].
    intros i Hi. symmetry. apply bfi_bit; lia.
  - eapply wp_bfe; [val|cbn [bits]; lia|]. intros r1 e1 S1 Hv1. eexists. split_and!; [exact Hv1|done|]. intros i Hi. symmetry. apply ubfx_bit; lia.
  - repeat wp_step. eexists. split_and!; [eassumption|done|]. intros i Hi. symmetry. cbn [bin bits]. apply ubfiz_bit; lia.
Qed.
