(* ===== verification/SystemSpec.v ===== *)
(** The guest signals and the system instructions: hints, barriers, cache
    maintenance, DC ZVA and BRK. *)
From S2P Require Import Prelude A64Common IR ArmSpec IRLogic BlockBuilder Branch DataProcessing DataProcessingSpec.
From S2P Require Import LoadStore ArmSpec LoadStoreSpec.

#[export] Instance grows_SetBlockSetPC x : Grows (SetBlockSetPC x).
Proof. intros b. split; try done. by right. Qed.

#[export] Instance grows_RaiseGuestSignal pc r : Grows (RaiseGuestSignal pc r).
Proof. unfold RaiseGuestSignal. apply _. Qed.

Section Signals.
Context (junk : nat -> Z) (entry : Z) (s0 : Machine).

Lemma wp_guest pc o e g g' (Q : Ref -> list Z -> Guest -> Prop) :
  step junk entry (mkMachine e g) o = mkMachine (e ++ [0]) g' -> guest_ok g' -> Regs g' = Regs g ->
  (forall r e', sub e e' -> Q r e' g') -> wp junk entry pc s0 (emit o) e g Q.
Proof.
  intros Hs Hg Hr HQ b Hb. exists (e ++ [0]), g'. unfold emit. cbn [fst snd]. split; [|apply HQ; by exists [0]].
  eapply inv_push; [done|exact Hs|apply zero_width|done|]. intros _ i v p _. unfold reg. by rewrite Hr.
Qed.

Lemma wp_storepc pc r v e g (Q : Ref -> list Z -> Guest -> Prop) :
  hasw e i64Bit r v -> (forall r' e', sub e e' -> Q r' e' (set_pcslot g v)) ->
  wp junk entry pc s0 (emit (OStoreContextPC r)) e g Q.
Proof.
  intros (x & Hx & <-) HQ b Hb. pose proof (inv_env _ _ _ _ _ _ _ Hb) as He. eapply Forall_lookup_1 in He; [|exact Hx].
  cbn [bits] in HQ. rewrite (wrap_small 64) in HQ by done.
  eapply (wp_guest pc _ e g (set_pcslot g x)); [|apply (inv_guest _ _ _ _ _ _ _ Hb)|done|exact HQ|exact Hb].
  cbn [step push_g Env G]. by rewrite (nth_lookup e), Hx.
Qed.

(** The signal leaves the registers, the flags and memory as they are, with the
    PC of the instruction, and ends the block. *)
Lemma raise_exec pc b e g PC r :
  inv junk entry pc s0 b e g -> in_width 64 PC ->
  stopped junk entry s0 (RaiseGuestSignal PC r b).2 (set_trap (set_pcslot g PC) r) /\ BlockSetPC (RaiseGuestSignal PC r b).2 = true.
Proof.
  intros Hb Hpc.
  assert (Hw : wpf junk entry pc s0 (v <- PCValue PC ;; emit (OStoreContextPC v) ;;; emit (OBreak r)) e g
    (fun _ _ _ => False) (fun g' => g' = set_trap (set_pcslot g PC) r)).
  { apply wpf_bind, wp_pcvalue. intros v e1 _ Hv. apply wpf_bind. unfold u64 in Hv. rewrite (wrap_small 64) in Hv by done.
    eapply wp_storepc; [exact Hv|]. intros r1 e2 _. by apply (wpf_stop _ _ _ _ (OBreak r) e2 _ (SBreak r)). }
  destruct (Hw b Hb) as [(e' & g' & _ & [])|(g' & Hi & ->)]. split; [|done].
  unfold RaiseGuestSignal. unfold bind in Hi |- *. destruct (PCValue PC b) as [v b1].
  destruct (emit (OStoreContextPC v) b1) as [r1 b2]. by destruct (emit (OBreak r) b2) as [r2 b3].
Qed.

End Signals.

(** ** System instructions *)

Lemma nop_impl T : (forall Word, T Word = ret true) -> implements T arm_nop.
Proof. intros HT junk entry pc s0 Word e g _ _. rewrite HT. by apply wp_ret. Qed.

Lemma undefined_impl : implements UnallocatedEncoding arm_undefined.
Proof. intros junk entry pc s0 Word e g _ _. by apply wp_ret. Qed.

Lemma barrier_impl : implements Barrier arm_nop.
Proof. intros junk entry pc s0 Word e g _ _. unfold Barrier. apply wp_bind, wp_nop; [done|]. intros r e' _. by apply wp_ret. Qed.

Lemma ic_ivau_impl IC : implements (IC_IVAU IC) arm_nop.
Proof.
  destruct IC; [|by apply nop_impl]. intros junk entry pc s0 Word e g _ _. unfold IC_IVAU. cbn [negb].
  apply wp_bind, wp_loadX; [fld|]. intros a e1 _ _. apply wp_bind, wp_nop; [done|]. intros r e' _. by apply wp_ret.
Qed.

Lemma ldiff_63 a : 0 <= a -> Z.ldiff a 63 = a - a mod 64.
Proof. intros Ha. change 63 with (Z.ones 6). rewrite Z.ldiff_ones_r, Z.shiftr_div_pow2, Z.shiftl_mul_pow2 by lia. change (2 ^ 6) with 64. pose proof (Z.div_mod a 64). lia. Qed.

Lemma dc_zva_impl : runs DC_ZVA arm_DC_ZVA.
Proof.
  intros junk entry pc s0 Word e g _ _. unfold DC_ZVA. apply wpf_bind, wp_loadX; [fld|]. intros a e1 S1 Ha. apply wpf_bind_stop; [apply _|].
  pose proof (hasw_range _ _ _ _ Ha) as [Ha0 _]. set (v := rX g (Bits Word 4 0)) in *. set (A := v - v mod 64).
  apply (wpf_store _ _ _ _ _ 64 A (repeat 0 64)).
  - intros He. cbn [step Env G]. rewrite (hasw_nth e1 a v He Ha), ldiff_63 by done. fold A. by destruct (writable _ _ _).
  - assert (HX : X 64 g (Rd Word) = v) by (apply wrap_small; exact (hasw_range e1 i64Bit a v Ha)).
    unfold arm_DC_ZVA. rewrite HX. fold A. cbv zeta. destruct (writable 64 A (Mem g)); [|done]. intros r e2 _. by apply wpf_ret.
Qed.

Lemma brk_impl : runs BRK arm_BRK.
Proof.
  intros junk entry pc s0 Word e g Hpc _ b Hb. right. unfold BRK, bind. rewrite (inv_pc _ _ _ _ _ _ _ Hb).
  destruct (raise_exec junk entry s0 pc b e g pc (mkBreak 0 SIGTRAP 0 1) Hb Hpc) as [Hs _].
  destruct (RaiseGuestSignal _ _ b) as [[] b1]. cbn [snd ret] in *. eauto.
Qed.
