(* ===== verification/DecodeTable.v ===== *)
(** The A64 decode table: its build-time generator
    (FEXCore/Scripts/a64_decode_table_generator.py) and the bucket scan over
    the generated arrays (FEXCore/Source/Interface/Core/A64Frontend/
    DecodeTable.cpp).  The table (a64.inc), the weights and the handlers are
    arguments. *)
From S2P Require Import Prelude.
From Stdlib Require Import Ascii.
From stdpp Require Export strings.
Open Scope Z_scope.

(** ** Entries *)

Record RawEntry := mkRaw { Name : string; Description : string; BitString : string }.

(** '0' and '1' are fixed bits; every other character is free. *)
Fixpoint ParseBits_loop (s : string) (i : Z) (Mask Expect : Z) : Z * Z :=
  match s with
  | EmptyString => (Mask, Expect)
  | String c s =>
      let Bit := u32 (Z.shiftl 1 (31 - i)) in
      if Ascii.eqb c "0"%char then ParseBits_loop s (i + 1) (Z.lor Mask Bit) Expect
      else if Ascii.eqb c "1"%char then ParseBits_loop s (i + 1) (Z.lor Mask Bit) (Z.lor Expect Bit)
      else ParseBits_loop s (i + 1) Mask Expect
  end.
Definition ParseBits (s : string) : Z * Z := ParseBits_loop s 0 0 0.

Definition FastLookupIndex (Word : Z) : Z :=
  Z.lor (Z.land (Z.shiftr Word 10) 0x00F) (Z.land (Z.shiftr Word 18) 0x3FF0).

(** One active entry, with its position in a64.inc. *)
Record Entry := mkEntry { raw : nat; raw_entry : RawEntry; mask : Z; expect : Z }.

Definition make_entry (i : nat) (r : RawEntry) : Entry :=
  let '(m, e) := ParseBits (BitString r) in mkEntry i r m e.

Definition matches (Word : Z) (e : Entry) : bool := Z.land Word (mask e) =? expect e.

(** ** The generator *)

Definition COMES_FIRST : list string :=
  ["MOVI, MVNI, ORR, BIC (vector, immediate)"; "FMOV (vector, immediate)"; "Unallocated SIMD modified immediate"]%string.

Definition comes_first (e : Entry) : bool := existsb (String.eqb (Description (raw_entry e))) COMES_FIRST.

Fixpoint pos_popcount (p : positive) : nat :=
  match p with xH => 1 | xO p => pos_popcount p | xI p => S (pos_popcount p) end.
Definition popcount (z : Z) : nat := match z with Zpos p => pos_popcount p | _ => O end.

(** Python's [sorted] with the key [- popcount(mask)]: stable. *)
Fixpoint insert_stable (e : Entry) (l : list Entry) : list Entry :=
  match l with
  | [] => [e]
  | y :: l' => if (popcount (mask y) <=? popcount (mask e))%nat then e :: l else y :: insert_stable e l'
  end.
Definition by_specificity (es : list Entry) : list Entry := foldr insert_stable [] es.

Definition priority_order (es : list Entry) : list Entry :=
  List.filter comes_first (by_specificity es) ++ List.filter (fun e => negb (comes_first e)) (by_specificity es).

Definition INDEX_COUNT : nat := Z.to_nat (2 ^ 14).

(** The enumeration of the submasks of [free]; each step decreases [sub], so
    [free + 1] steps are enough. *)
Fixpoint submasks (fuel : nat) (free sub : Z) : list Z :=
  match fuel with
  | O => []
  | S fuel => sub :: if sub =? 0 then [] else submasks fuel free (Z.land (sub - 1) free)
  end.

Definition reachable_buckets (e : Entry) : list Z :=
  let fixed := FastLookupIndex (mask e) in
  let want := FastLookupIndex (expect e) in
  let free := Z.land (Z.lnot fixed) (2 ^ 14 - 1) in
  map (Z.lor want) (submasks (S (Z.to_nat free)) free free).

(** Bucket [i] of [build_buckets]: each entry of [order] is appended to every
    bucket it reaches. *)
Definition bucket (order : list Entry) (i : Z) : list Entry :=
  flat_map (fun e => map (fun _ => e) (List.filter (Z.eqb i) (reachable_buckets e))) order.

Definition disjoint (a b : Entry) : bool :=
  negb (Z.land (Z.land (Z.lxor (expect a) (expect b)) (mask a)) (mask b) =? 0).

Section Generator.
(** [weight.get(key, 0)]; the key is the name and the bit string. *)
Context (weight : string * string -> Z).

Definition key (e : Entry) : string * string := (Name (raw_entry e), BitString (raw_entry e)).

(** One pass of [reorder_by_weight]; [x] is the element at the current
    position. *)
Fixpoint swap_pass (x : Entry) (b : list Entry) : list Entry * bool :=
  match b with
  | [] => ([x], false)
  | y :: b =>
      if (weight (key x) <? weight (key y)) && disjoint x y
      then let '(r, _) := swap_pass x b in (y :: r, true)
      else let '(r, swapped) := swap_pass y b in (x :: r, swapped)
  end.

(** The loop [while swapped]: see [reorder_fixpoint] for the fuel. *)
Fixpoint reorder_loop (fuel : nat) (b : list Entry) : list Entry :=
  match fuel, b with
  | S fuel, x :: b' => let '(r, swapped) := swap_pass x b' in if swapped then reorder_loop fuel r else r
  | _, _ => b
  end.
Definition reorder_by_weight (b : list Entry) : list Entry := reorder_loop (S (length b * length b)) b.

(** The arrays: bucket [i] is the slots from [starts[i]] to [starts[i+1]]. *)
Record Arrays := mkArrays { A64DecodeBucketStart : list nat; A64DecodeSlot : list nat }.

Fixpoint layout (buckets : list (list Entry)) (start : nat) : list nat :=
  match buckets with
  | [] => []
  | b :: bs => let s := (start + length b)%nat in s :: layout bs s
  end.

(** [None] where the script exits with an error: an entry that is not 32 bits,
    or more slots than a [uint16_t] can index. *)
Definition generate (es : list Entry) : option Arrays :=
  if negb (forallb (fun e => Nat.eqb (String.length (BitString (raw_entry e))) 32) es) then None else
  let order := priority_order es in
  let buckets := map (fun i => reorder_by_weight (bucket order (Z.of_nat i))) (seq 0 INDEX_COUNT) in
  let slots := map raw (concat buckets) in
  if Z.of_nat (length slots) >? 0xFFFF then None else Some (mkArrays (0%nat :: layout buckets 0) slots).

End Generator.

(** ** The scan *)

Section Scan.
Context (RawTable : list RawEntry) (weight : string * string -> Z).

Definition entries : list Entry := imap make_entry RawTable.

(** [ScanTable[Slot]]: the mask and expected bits of the slot's entry. *)
Definition ScanSlot (r : nat) : Z * Z :=
  match RawTable !! r with Some e => ParseBits (BitString e) | None => (0, 0) end.

Fixpoint scan (slots : list nat) (Word : Z) : option nat :=
  match slots with
  | [] => None
  | r :: slots => let '(m, e) := ScanSlot r in if Z.land Word m =? e then Some r else scan slots Word
  end.

(** The position in a64.inc of the matcher [DecodeInstruction] returns. *)
Definition DecodeInstruction (t : Arrays) (Word : Z) : option nat :=
  let Index := Z.to_nat (FastLookupIndex Word) in
  let Start := nth Index (A64DecodeBucketStart t) 0%nat in
  let End := nth (S Index) (A64DecodeBucketStart t) 0%nat in
  scan (take (End - Start) (drop Start (A64DecodeSlot t))) Word.

End Scan.
