(* ===== verification/DecodeTableSpec.v ===== *)
(** Correctness of the decode table: whatever the entries and the weights,
    the bucketed and frequency-ordered scan returns the matching entry of
    highest priority: the hoisted entries first, then the most fixed bits, then
    the position in a64.inc. *)
From S2P Require Import Prelude DecodeTable.
Open Scope Z_scope.

(** ** Enumerating submasks *)

Lemma land_double x y b c :
  Z.land (2 * x + b2z b) (2 * y + b2z c) = 2 * Z.land x y + b2z (b && c).
Proof.
  apply Z.bits_inj'. intros i Hi. rewrite Z.land_spec.
  change (b2z b) with (Z.b2z b). change (b2z c) with (Z.b2z c). change (b2z (b && c)) with (Z.b2z (b && c)).
  destruct (decide (i = 0)) as [->|Hne].
  - by rewrite !Z.testbit_0_r.
  - replace i with (Z.succ (i - 1)) by lia. by rewrite !Z.testbit_succ_r, Z.land_spec by lia.
Qed.

Lemma bit_split x : x = 2 * (x / 2) + b2z (Z.odd x).
Proof. rewrite (Z.div_mod x 2) at 1 by lia. rewrite Zmod_odd. unfold b2z. by destruct (Z.odd x). Qed.

Lemma sub_split a F : Z.land a F = a -> Z.land (a / 2) (F / 2) = a / 2 /\ (Z.odd a = true -> Z.odd F = true).
Proof.
  intros H. rewrite (bit_split a), (bit_split F), land_double in H.
  destruct (Z.odd a), (Z.odd F); cbn in H |- *; (split; [lia|done || lia]).
Qed.

(** [(sub - 1) & free] is the next smaller submask. *)
Lemma next_submask n a s F :
  0 <= s < a -> a < 2 ^ Z.of_nat n -> Z.land a F = a -> Z.land s F = s -> s <= Z.land (a - 1) F.
Proof.
  revert a s F. induction n as [|n IH]; intros a s F Hs Ha HaF HsF.
  { change (2 ^ Z.of_nat 0) with 1 in Ha. lia. }
  destruct (sub_split a F HaF) as [HaF' Hodd], (sub_split s F HsF) as [HsF' Hsodd].
  replace (Z.of_nat (S n)) with (Z.of_nat n + 1) in Ha by lia. rewrite Z.pow_add_r, Z.pow_1_r in Ha by lia.
  pose proof (bit_split a) as Ea. pose proof (bit_split s) as Es. pose proof (bit_split F) as EF.
  destruct (Z.odd a) eqn:Oa.
  - assert (E : a - 1 = 2 * (a / 2) + b2z false) by (unfold b2z in *; lia).
    rewrite E, EF, land_double, HaF'. cbn [andb b2z] in *. lia.
  - assert (E : a - 1 = 2 * (a / 2 - 1) + b2z true) by (unfold b2z in *; lia).
    rewrite E, EF, land_double. cbn [andb].
    assert (Hlt : s / 2 < a / 2) by (unfold b2z in *; destruct (Z.odd s); lia).
    assert (0 <= s / 2) by (apply Z.div_pos; lia).
    specialize (IH (a / 2) (s / 2) (F / 2) ltac:(lia) ltac:(unfold b2z in *; lia) HaF' HsF').
    destruct (Z.odd s), (Z.odd F); unfold b2z in *; try (specialize (Hsodd eq_refl); done); lia.
Qed.

Lemma land_le a b : 0 <= a -> Z.land a b <= a.
Proof.
  intros H. assert (E : Z.ldiff (Z.land a b) a = 0).
  { apply Z.bits_inj'. intros i Hi. rewrite Z.ldiff_spec, Z.land_spec, Z.bits_0. by destruct (Z.testbit a i), (Z.testbit b i). }
  apply Z.sub_nocarry_ldiff in E. assert (0 <= Z.ldiff a (Z.land a b)) by (apply Z.ldiff_nonneg; by left). lia.
Qed.

Lemma submasks_complete fuel F sub s :
  (Z.to_nat sub < fuel)%nat -> 0 <= s <= sub -> Z.land sub F = sub -> Z.land s F = s -> s ∈ submasks fuel F sub.
Proof.
  revert sub. induction fuel as [|fuel IH]; intros sub Hf Hs Hsub HsF; [lia|]. cbn [submasks].
  destruct (decide (s = sub)) as [->|Hne]; [apply list_elem_of_here|]. apply list_elem_of_further.
  rewrite (proj2 (Z.eqb_neq sub 0)) by lia.
  pose proof (land_le (sub - 1) F ltac:(lia)) as Hle.
  assert (Hn : s <= Z.land (sub - 1) F).
  { apply (next_submask (Z.to_nat (sub + 1))); try done; [lia|]. rewrite Z2Nat.id by lia.
    apply Z.lt_le_trans with (sub + 1); [lia|]. pose proof (Z.pow_gt_lin_r 2 (sub + 1)). lia. }
  apply IH; [lia|lia| |done]. by rewrite <- Z.land_assoc, Z.land_diag.
Qed.

(** ** A word's bucket holds every entry it matches *)

Lemma testbit_FLI w i :
  0 <= i -> Z.testbit (FastLookupIndex w) i =
    if i <? 4 then Z.testbit w (i + 10) else if i <? 14 then Z.testbit w (i + 18) else false.
Proof.
  intros Hi. unfold FastLookupIndex. rewrite Z.lor_spec, !Z.land_spec, !Z.shiftr_spec by lia.
  change 0x00F with (Z.ones 4). change 0x3FF0 with (Z.shiftl (Z.ones 10) 4).
  rewrite Z.shiftl_spec, Z.testbit_ones_nonneg by lia. destruct (Z.ltb_spec i 4).
  - by rewrite (Z.testbit_neg_r (Z.ones 10)), andb_true_r, andb_false_r, orb_false_r by lia.
  - rewrite Z.testbit_ones_nonneg, andb_false_r by lia. cbn [orb].
    destruct (Z.ltb_spec (i - 4) 10), (Z.ltb_spec i 14); try lia; by rewrite ?andb_true_r, ?andb_false_r.
Qed.

Lemma FLI_land a b : FastLookupIndex (Z.land a b) = Z.land (FastLookupIndex a) (FastLookupIndex b).
Proof.
  apply Z.bits_inj'. intros i Hi. rewrite Z.land_spec, !testbit_FLI, !Z.land_spec by done.
  by destruct (i <? 4), (i <? 14).
Qed.

Lemma FLI_range w : in_width 14 (FastLookupIndex w).
Proof.
  apply in_width_bits; [lia| |].
  - unfold FastLookupIndex. apply Z.lor_nonneg. split; apply Z.land_nonneg; right; lia.
  - intros i Hi. rewrite testbit_FLI by lia. by replace (i <? 4) with false by lia; replace (i <? 14) with false by lia.
Qed.

Lemma matches_reachable w e : matches w e = true -> FastLookupIndex w ∈ reachable_buckets e.
Proof.
  unfold matches. intros Hm%Z.eqb_eq. unfold reachable_buckets. rewrite <- Hm, FLI_land.
  set (x := FastLookupIndex w). set (f := FastLookupIndex (mask e)). set (free := Z.land (Z.lnot f) (2 ^ 14 - 1)).
  apply list_elem_of_fmap. exists (Z.land x free).
  assert (Hfree : 0 <= free) by (apply Z.land_nonneg; right; lia). pose proof (FLI_range w) as Hx. fold x in Hx.
  assert (Hbit : forall i, 0 <= i -> Z.testbit free i = negb (Z.testbit f i) && (i <? 14)).
  { intros i Hi. unfold free. rewrite pow2_pred_ones, Z.land_spec, Z.lnot_spec, Z.testbit_ones_nonneg by lia. done. }
  split.
  - apply Z.bits_inj'. intros i Hi. rewrite Z.lor_spec, !Z.land_spec, Hbit by done.
    destruct (Z.ltb_spec i 14); [by destruct (Z.testbit x i), (Z.testbit f i)|].
    by rewrite (testbit_above 14 x) by done.
  - apply submasks_complete; [lia| | |].
    + split; [apply Z.land_nonneg; by right|]. rewrite Z.land_comm. by apply land_le.
    + apply Z.land_diag.
    + by rewrite <- Z.land_assoc, Z.land_diag.
Qed.

(** ** The first match is the same in the bucket and in the whole order *)

Lemma find_app {A} (f : A -> bool) l k :
  List.find f (l ++ k) = match List.find f l with Some x => Some x | None => List.find f k end.
Proof. induction l as [|x l IH]; simpl; [done|]. by destruct (f x). Qed.

Lemma find_copies w (e : Entry) (l : list Z) :
  List.find (matches w) (map (fun _ => e) l) = if matches w e then match l with [] => None | _ => Some e end else None.
Proof. induction l as [|x l IH]; simpl; [by destruct (matches w e)|]. rewrite IH. by destruct (matches w e). Qed.

Lemma bucket_find w order : List.find (matches w) (bucket order (FastLookupIndex w)) = List.find (matches w) order.
Proof.
  unfold bucket. induction order as [|e order IH]; [done|]. cbn [flat_map List.find]. rewrite find_app, find_copies, IH.
  destruct (matches w e) eqn:Hm; [|done].
  destruct (List.filter (Z.eqb (FastLookupIndex w)) (reachable_buckets e)) as [|x l] eqn:Hf; [|done].
  assert (Hin : In (FastLookupIndex w) (List.filter (Z.eqb (FastLookupIndex w)) (reachable_buckets e))).
  { apply filter_In. split; [by apply list_elem_of_In, matches_reachable|apply Z.eqb_refl]. }
  rewrite Hf in Hin. done.
Qed.

(** ** Reordering by weight *)

Lemma disjoint_matches w x y : disjoint x y = true -> matches w x = true -> matches w y = true -> False.
Proof.
  unfold disjoint, matches. intros Hd Hx%Z.eqb_eq Hy%Z.eqb_eq. apply negb_true_iff, Z.eqb_neq in Hd. apply Hd.
  rewrite <- Hx, <- Hy. apply Z.bits_inj'. intros i Hi. rewrite !Z.land_spec, Z.lxor_spec, !Z.land_spec, Z.bits_0.
  by destruct (Z.testbit w i), (Z.testbit (mask x) i), (Z.testbit (mask y) i).
Qed.

Section Reorder.
Context (weight : string * string -> Z).
Abbreviation swap_pass := (swap_pass weight).

Lemma swap_pass_perm x b : Permutation (swap_pass x b).1 (x :: b).
Proof.
  revert x. induction b as [|y b IH]; intros x; simpl; [done|].
  destruct (_ && _); [specialize (IH x)|specialize (IH y)]; destruct (swap_pass _ b) as [r s]; simpl in *.
  - rewrite IH. apply Permutation_swap.
  - by rewrite IH.
Qed.

Lemma swap_pass_find w x b : List.find (matches w) (swap_pass x b).1 = List.find (matches w) (x :: b).
Proof.
  revert x. induction b as [|y b IH]; intros x; simpl; [done|].
  destruct (_ && disjoint x y) eqn:Hd; [specialize (IH x)|specialize (IH y)];
    destruct (swap_pass _ b) as [r s]; simpl in *; rewrite IH; [|done].
  apply andb_true_iff in Hd as [_ Hd].
  destruct (matches w y) eqn:Hy, (matches w x) eqn:Hx; try done. by destruct (disjoint_matches w x y).
Qed.

Lemma reorder_find w fuel b : List.find (matches w) (reorder_loop weight fuel b) = List.find (matches w) b.
Proof.
  revert b. induction fuel as [|fuel IH]; intros [|x b]; try done. cbn [reorder_loop].
  pose proof (swap_pass_find w x b) as H. destruct (swap_pass x b) as [r [|]]; simpl in *; [by rewrite IH|done].
Qed.

Lemma reorder_perm fuel b : Permutation (reorder_loop weight fuel b) b.
Proof.
  revert b. induction fuel as [|fuel IH]; intros [|x b]; try done. cbn [reorder_loop].
  pose proof (swap_pass_perm x b) as H. destruct (swap_pass x b) as [r [|]]; simpl in *; [by rewrite IH|done].
Qed.

(** *** Termination: each pass that swaps removes an inversion *)

Definition heavier (x y : Entry) : bool := weight (key x) <? weight (key y).
Definition count_heavier (x : Entry) (l : list Entry) : nat := length (List.filter (heavier x) l).

Fixpoint inversions (l : list Entry) : nat :=
  match l with [] => 0 | x :: l => count_heavier x l + inversions l end.

#[local] Instance count_heavier_perm x : Proper (Permutation ==> eq) (count_heavier x).
Proof.
  unfold count_heavier. intros l k H. induction H; simpl; repeat case_match; simpl; lia.
Qed.

Lemma swap_pass_inversions x b :
  (inversions (swap_pass x b).1 + (if (swap_pass x b).2 then 1 else 0) <= inversions (x :: b))%nat.
Proof.
  revert x. induction b as [|y b IH]; intros x; simpl; [lia|].
  destruct (weight (key x) <? weight (key y)) eqn:Hw; cbn [andb]; [destruct (disjoint x y)|].
  - specialize (IH x). pose proof (swap_pass_perm x b) as Hp. destruct (swap_pass x b) as [r s]. cbn [fst snd] in *.
    cbn [inversions] in *. rewrite (count_heavier_perm y _ _ Hp). unfold count_heavier in *. cbn [List.filter].
    assert (Hxy : heavier x y = true) by done. assert (Hyx : heavier y x = false) by (unfold heavier; lia).
    rewrite Hxy, Hyx. cbn [length]. destruct s; lia.
  - specialize (IH y). pose proof (swap_pass_perm y b) as Hp. destruct (swap_pass y b) as [r s]. cbn [fst snd] in *.
    cbn [inversions] in *. rewrite (count_heavier_perm x _ _ Hp). lia.
  - specialize (IH y). pose proof (swap_pass_perm y b) as Hp. destruct (swap_pass y b) as [r s]. cbn [fst snd] in *.
    cbn [inversions] in *. rewrite (count_heavier_perm x _ _ Hp). lia.
Qed.

Lemma count_heavier_le x l : (count_heavier x l <= length l)%nat.
Proof. unfold count_heavier. induction l; simpl; [done|]. destruct (heavier x _); simpl; lia. Qed.

Lemma inversions_le l : (inversions l <= length l * length l)%nat.
Proof. induction l as [|x l IH]; simpl; [done|]. pose proof (count_heavier_le x l). lia. Qed.

Lemma swap_pass_idle x b : (swap_pass x b).2 = false -> (swap_pass x b).1 = x :: b.
Proof.
  revert x. induction b as [|y b IH]; intros x; simpl; [done|].
  destruct (_ && _); [by destruct (swap_pass x b)|]. specialize (IH y). destruct (swap_pass y b) as [r s].
  simpl in *. intros Hs. by rewrite IH.
Qed.

(** The loop stops by its own condition: a further pass swaps nothing. *)
Lemma reorder_fixpoint b :
  match reorder_by_weight weight b with
  | [] => b = []
  | x :: r => swap_pass x r = (x :: r, false)
  end.
Proof.
  unfold reorder_by_weight. assert (Hf : (inversions b < S (length b * length b))%nat) by (pose proof (inversions_le b); lia).
  revert Hf. generalize (S (length b * length b)). intros fuel. revert b.
  induction fuel as [|fuel IH]; intros b Hf; [lia|]. destruct b as [|x b]; [done|]. cbn [reorder_loop].
  pose proof (swap_pass_inversions x b) as Hi. pose proof (swap_pass_idle x b) as Hd. pose proof (swap_pass_perm x b) as Hp.
  destruct (swap_pass x b) as [r [|]] eqn:E; cbn [fst snd] in *.
  - specialize (IH r ltac:(lia)). destruct (reorder_loop weight fuel r) as [|y r'] eqn:Er; [|done].
    pose proof (reorder_perm fuel r) as Hr. rewrite Er in Hr. apply Permutation_nil_l in Hr as <-. by apply Permutation_nil_cons in Hp.
  - rewrite Hd in * by done. done.
Qed.

End Reorder.

(** ** The arrays *)

Lemma layout_nth bs s i :
  (i < length bs)%nat -> nth i (layout bs s) 0%nat = (s + length (concat (take (S i) bs)))%nat.
Proof.
  revert s i. induction bs as [|b bs IH]; intros s [|i] Hi; simpl in *; try lia.
  - by rewrite app_nil_r.
  - rewrite IH by lia. rewrite length_app. destruct bs; simpl in *; lia.
Qed.

Lemma start_nth bs i :
  (i <= length bs)%nat -> nth i (0%nat :: layout bs 0) 0%nat = length (concat (take i bs)).
Proof. destruct i as [|i]; [done|]. intros Hi. cbn [nth]. by rewrite layout_nth by lia. Qed.

Lemma concat_segment {A} (bs : list (list A)) i b :
  bs !! i = Some b ->
  take (length (concat (take (S i) bs)) - length (concat (take i bs))) (drop (length (concat (take i bs))) (concat bs)) = b.
Proof.
  intros Hi. rewrite <- (take_drop_middle bs i b Hi) at 4. rewrite (take_S_r bs i b Hi).
  rewrite !concat_app. cbn [concat]. rewrite app_nil_r, length_app, drop_app_length.
  replace (_ + length b - _)%nat with (length b) by lia. by rewrite take_app_length.
Qed.

(** ** Priority *)

(** [a] is tried before [b] when both match. *)
Definition higher (a b : Entry) : Prop :=
  (comes_first a = true /\ comes_first b = false) \/
  (comes_first a = comes_first b /\
   ((popcount (mask b) < popcount (mask a))%nat \/
    (popcount (mask a) = popcount (mask b) /\ (raw a < raw b)%nat))).

Definition specific (a b : Entry) : Prop :=
  (popcount (mask b) < popcount (mask a))%nat \/ (popcount (mask a) = popcount (mask b) /\ (raw a < raw b)%nat).

Lemma insert_stable_perm e l : Permutation (insert_stable e l) (e :: l).
Proof. induction l as [|y l IH]; simpl; [done|]. destruct (_ <=? _)%nat; [done|]. rewrite IH. apply Permutation_swap. Qed.

Lemma insert_stable_sorted e l :
  StronglySorted specific l -> Forall (fun y => (raw e < raw y)%nat) l -> StronglySorted specific (insert_stable e l).
Proof.
  induction l as [|y l IH]; intros Hs Hr; simpl; [by repeat constructor|].
  apply StronglySorted_cons in Hs as [Hy Hs]. apply Forall_cons in Hr as [Hey Hr].
  destruct (Nat.leb_spec (popcount (mask y)) (popcount (mask e))) as [Hle|Hgt].
  - constructor; [by constructor|]. constructor; [unfold specific; lia|].
    eapply Forall_impl; [apply Forall_and; split; [exact Hy|exact Hr]|]. intros z [Hz Hez]. unfold specific in *. lia.
  - constructor; [by apply IH|]. rewrite insert_stable_perm. constructor; [unfold specific; lia|done].
Qed.

Lemma by_specificity_perm es : Permutation (by_specificity es) es.
Proof. induction es as [|e es IH]; simpl; [done|]. by rewrite insert_stable_perm, IH. Qed.

Lemma by_specificity_sorted es :
  StronglySorted (fun a b => (raw a < raw b)%nat) es -> StronglySorted specific (by_specificity es).
Proof.
  induction es as [|e es IH]; intros Hs; simpl; [constructor|]. apply StronglySorted_cons in Hs as [He Hs].
  apply insert_stable_sorted; [by apply IH|]. by rewrite by_specificity_perm.
Qed.

Lemma filter_sorted {A} (R : A -> A -> Prop) (f : A -> bool) l :
  StronglySorted R l -> StronglySorted (fun a b => f a = true /\ f b = true /\ R a b) (List.filter f l).
Proof.
  induction 1 as [|x l Hs IH Hx]; simpl; [constructor|]. destruct (f x) eqn:Hf; [|done].
  constructor; [done|]. apply Forall_forall. intros y Hy%list_elem_of_In%filter_In. destruct Hy as [Hy Hfy].
  rewrite Forall_forall in Hx. split_and!; [done|done|]. by apply Hx, list_elem_of_In.
Qed.

Lemma sorted_mono {A} (R R' : A -> A -> Prop) l :
  StronglySorted R l -> (forall a b, R a b -> R' a b) -> StronglySorted R' l.
Proof. intros Hs Hi. induction Hs as [|x l Hs IH Hx]; constructor; [done|]. eapply Forall_impl; eauto. Qed.

Lemma priority_sorted es :
  StronglySorted (fun a b => (raw a < raw b)%nat) es -> StronglySorted higher (priority_order es).
Proof.
  intros Hs. apply by_specificity_sorted in Hs. unfold priority_order.
  pose proof (filter_sorted _ comes_first _ Hs) as H1.
  pose proof (filter_sorted _ (fun e => negb (comes_first e)) _ Hs) as H2.
  apply StronglySorted_app_2.
  - intros x y Hx%list_elem_of_In%filter_In Hy%list_elem_of_In%filter_In. left. destruct Hx, Hy as [_ Hy]. by apply negb_true_iff in Hy.
  - eapply sorted_mono; [exact H1|]. intros a b (Ha & Hb & Hab). right. rewrite Ha, Hb. done.
  - eapply sorted_mono; [exact H2|]. intros a b (Ha & Hb & Hab). right. apply negb_true_iff in Ha, Hb. rewrite Ha, Hb. done.
Qed.

Lemma priority_perm es : Permutation (priority_order es) es.
Proof.
  unfold priority_order. rewrite <- (by_specificity_perm es) at 3. generalize (by_specificity es). intros l.
  induction l as [|x l IH]; simpl; [done|]. destruct (comes_first x); simpl; [by rewrite IH|].
  rewrite <- Permutation_middle. by rewrite IH.
Qed.

Lemma find_sorted {A} (R : A -> A -> Prop) (f : A -> bool) l x :
  StronglySorted R l -> List.find f l = Some x -> forall y, y ∈ l -> f y = true -> y = x \/ R x y.
Proof.
  induction 1 as [|z l Hs IH Hz]; simpl; [done|]. destruct (f z) eqn:Hf.
  - intros [= ->] y Hy Hfy. apply elem_of_cons in Hy as [->|Hy]; [by left|]. right. rewrite Forall_forall in Hz. by apply Hz.
  - intros Hx y Hy Hfy. apply elem_of_cons in Hy as [->|Hy]; [congruence|]. by apply IH.
Qed.

(** ** The scan *)

Lemma index_in_count x : 0 <= x < 2 ^ 14 -> (Z.to_nat x < INDEX_COUNT)%nat.
Proof. intros H. unfold INDEX_COUNT. apply Z2Nat.inj_lt; lia. Qed.

Lemma index_count_value : Z.of_nat INDEX_COUNT = 2 ^ 14.
Proof. unfold INDEX_COUNT. by rewrite Z2Nat.id by lia. Qed.

#[local] Opaque INDEX_COUNT.

Section Table.
Context (RawTable : list RawEntry) (weight : string * string -> Z).
Abbreviation entries := (entries RawTable).

Lemma entries_lookup i e : entries !! i = Some e -> exists r, RawTable !! i = Some r /\ e = make_entry i r.
Proof. unfold DecodeTable.entries. rewrite list_lookup_imap. destruct (RawTable !! i) as [r|]; [|done]. intros [= <-]. by exists r. Qed.

Lemma sorted_lookup {A} (R : A -> A -> Prop) (l : list A) :
  (forall i j a b, l !! i = Some a -> l !! j = Some b -> (i < j)%nat -> R a b) -> StronglySorted R l.
Proof.
  induction l as [|x l IH]; intros H; constructor.
  - apply IH. intros i j a b Ha Hb Hij. apply (H (S i) (S j)); [done|done|lia].
  - apply Forall_lookup. intros i y Hy. apply (H 0%nat (S i)); [done|done|lia].
Qed.

Lemma entries_sorted : StronglySorted (fun a b => (raw a < raw b)%nat) entries.
Proof.
  assert (Hr : forall i r, raw (make_entry i r) = i) by (intros; unfold make_entry; by destruct (ParseBits _)).
  apply sorted_lookup. intros i j a b Ha Hb Hij.
  destruct (entries_lookup i a Ha) as (ra & _ & ->), (entries_lookup j b Hb) as (rb & _ & ->). by rewrite !Hr.
Qed.

Definition from_table (e : Entry) : Prop :=
  entries !! raw e = Some e /\ ScanSlot RawTable (raw e) = (mask e, expect e).

Lemma entries_from_table e : e ∈ entries -> from_table e.
Proof.
  intros [i Hi]%list_elem_of_lookup. destruct (entries_lookup i e Hi) as (r & Hr & ->).
  unfold from_table, make_entry, ScanSlot in *. destruct (ParseBits (BitString r)) as [m x] eqn:E. cbn [raw mask expect] in *.
  by rewrite Hr, E.
Qed.

Lemma scan_find l w :
  Forall from_table l -> scan RawTable (map raw l) w = option_map raw (List.find (matches w) l).
Proof.
  induction 1 as [|e l [_ He] Hl IH]; simpl; [done|]. rewrite He. unfold matches at 1. by destruct (_ =? _).
Qed.

Lemma bucket_from_table i : Forall from_table (reorder_by_weight weight (bucket (priority_order entries) i)).
Proof.
  unfold reorder_by_weight. rewrite reorder_perm. apply Forall_forall. intros e He. apply entries_from_table.
  rewrite <- priority_perm. apply list_elem_of_In in He. apply list_elem_of_In. unfold bucket in He.
  apply in_flat_map in He as (x & Hx & He). apply in_map_iff in He as (y & <- & _). done.
Qed.

(** The scan of the generated arrays is the first match of the whole priority
    order. *)
Lemma decode_find t w :
  generate weight entries = Some t ->
  DecodeInstruction RawTable t w = option_map raw (List.find (matches w) (priority_order entries)).
Proof.
  unfold generate. destruct (negb _); [done|]. destruct (_ >? _); [done|]. intros [= <-]. unfold DecodeInstruction. cbn [A64DecodeBucketStart A64DecodeSlot].
  set (bs := map _ _). set (i := Z.to_nat (FastLookupIndex w)). destruct (FLI_range w) as [H0 H1].
  assert (Hlen : length bs = INDEX_COUNT) by (unfold bs; by rewrite length_map, length_seq).
  assert (Hi : (i < INDEX_COUNT)%nat) by exact (index_in_count _ (conj H0 H1)).
  assert (Hb : bs !! i = Some (reorder_by_weight weight (bucket (priority_order entries) (FastLookupIndex w)))).
  { unfold bs. rewrite list_lookup_fmap, lookup_seq_lt by exact Hi. cbn [fmap option_fmap option_map Nat.add]. subst i.
    by rewrite Z2Nat.id by exact H0. }
  rewrite !start_nth by lia. rewrite skipn_map, firstn_map. rewrite (concat_segment _ _ _ Hb).
  rewrite scan_find by apply bucket_from_table. unfold reorder_by_weight. by rewrite reorder_find, bucket_find.
Qed.

End Table.

(** C5. For every table, every weights and every word, the scan of the
    generated arrays returns the entry of highest priority among all the
    entries of the table that match the word, and nothing exactly when none
    matches: neither the buckets nor the reordering by frequency can be
    observed. *)
Theorem decode_highest_priority RawTable weight t Word :
  generate weight (entries RawTable) = Some t ->
  match DecodeInstruction RawTable t Word with
  | Some r =>
      exists e, entries RawTable !! r = Some e /\ matches Word e = true /\
        forall e', e' ∈ entries RawTable -> matches Word e' = true -> e' = e \/ higher e e'
  | None => forall e', e' ∈ entries RawTable -> matches Word e' = false
  end.
Proof.
  intros Ht. rewrite (decode_find _ _ _ _ Ht).
  pose proof (priority_sorted _ (entries_sorted RawTable)) as Hs. pose proof (priority_perm (entries RawTable)) as Hp.
  destruct (List.find (matches Word) (priority_order (entries RawTable))) as [e|] eqn:Hf; cbn [option_map].
  - pose proof (find_some _ _ Hf) as [Hin Hm]. apply list_elem_of_In in Hin. rewrite Hp in Hin.
    exists e. split_and!; [by apply entries_from_table|done|]. intros e' He' Hm'.
    apply (find_sorted higher (matches Word) (priority_order (entries RawTable))); try done. by rewrite Hp.
  - intros e' He'. rewrite <- Hp in He'. by apply list_elem_of_In, (find_none _ _ Hf) in He'.
Qed.

(** The generator only fails on a table with more than 65535 slots: one of up
    to three entries always has fewer. *)
Lemma length_submasks fuel F sub : (length (submasks fuel F sub) <= fuel)%nat.
Proof. revert sub. induction fuel as [|fuel IH]; intros sub; simpl; [done|]. destruct (sub =? 0); simpl; [lia|]. specialize (IH (Z.land (sub - 1) F)). lia. Qed.

Lemma length_reachable e : (length (reachable_buckets e) <= INDEX_COUNT)%nat.
Proof.
  unfold reachable_buckets. rewrite length_map. etrans; [apply length_submasks|].
  set (free := Z.land _ _). assert (Hf : in_width 14 free).
  { unfold free. rewrite pow2_pred_ones, land_wrap by lia. apply wrap_range. lia. }
  destruct Hf as [H0 H1]. pose proof index_count_value. lia.
Qed.

Lemma sum_cons x l : list_sum (x :: l) = (x + list_sum l)%nat.
Proof. done. Qed.

(** Each occurrence of an index is counted in one bucket. *)
Lemma count_occurrences (l : list Z) n :
  (list_sum (map (fun i => length (List.filter (Z.eqb (Z.of_nat i)) l)) (seq 0 n)) <= length l)%nat.
Proof.
  induction l as [|x l IH]; simpl.
  - induction (seq 0 n); simpl; lia.
  - assert (H : forall k m, (list_sum (map (fun i => length (if (Z.of_nat i =? x)%Z then x :: List.filter (Z.eqb (Z.of_nat i)) l
        else List.filter (Z.eqb (Z.of_nat i)) l)) (seq k m)) <=
      (if (Z.of_nat k <=? x)%Z then 1 else 0) + list_sum (map (fun i => length (List.filter (Z.eqb (Z.of_nat i)) l)) (seq k m)))%nat).
    { intros k m. revert k. induction m as [|m IHm]; intros k; cbn [seq map]; [cbn; lia|].
      specialize (IHm (S k)). rewrite !sum_cons.
      destruct (Z.eqb_spec (Z.of_nat k) x), (Z.leb_spec (Z.of_nat k) x), (Z.leb_spec (Z.of_nat (S k)) x); cbn [length]; lia. }
    specialize (H 0%nat n). destruct (_ <=? x); lia.
Qed.

Lemma length_concat {A} (bs : list (list A)) : length (concat bs) = list_sum (map length bs).
Proof. induction bs as [|b bs IH]; simpl; [done|]. by rewrite length_app, IH. Qed.

Lemma length_buckets order n :
  (list_sum (map (fun i => length (bucket order (Z.of_nat i))) (seq 0 n)) <= length order * INDEX_COUNT)%nat.
Proof.
  induction order as [|e order IH].
  - cbn [bucket flat_map length]. induction (seq 0 n) as [|x l IHl]; [cbn; lia|]. cbn [map]. rewrite sum_cons. lia.
  - cbn [length Nat.mul]. pose proof (count_occurrences (reachable_buckets e) n). pose proof (length_reachable e).
    assert (Hadd : forall (f h : nat -> nat) k, list_sum (map (fun i => f i + h i)%nat k) = (list_sum (map f k) + list_sum (map h k))%nat)
      by (intros f h k; induction k; simpl; lia).
    rewrite (map_ext _ (fun i => length (List.filter (Z.eqb (Z.of_nat i)) (reachable_buckets e)) + length (bucket order (Z.of_nat i)))%nat).
    + rewrite Hadd. lia.
    + intros i. unfold bucket. cbn [flat_map]. by rewrite length_app, length_map.
Qed.

Lemma generate_small weight es :
  (length es <= 3)%nat -> forallb (fun e => Nat.eqb (String.length (BitString (raw_entry e))) 32) es = true ->
  generate weight es <> None.
Proof.
  intros Hn H32. unfold generate. rewrite H32. cbn [negb]. destruct (Z.gtb_spec (Z.of_nat (length (map raw (concat (map (fun i =>
    reorder_by_weight weight (bucket (priority_order es) (Z.of_nat i))) (seq 0 INDEX_COUNT)))))) 0xFFFF) as [H|]; [exfalso|done].
  rewrite length_map, length_concat, map_map in H. pose proof (length_buckets (priority_order es) INDEX_COUNT) as Hb.
  rewrite (map_ext _ (fun i => length (bucket (priority_order es) (Z.of_nat i)))) in H
    by (intros i; unfold reorder_by_weight; by rewrite reorder_perm).
  rewrite (priority_perm es) in Hb. pose proof index_count_value. nia.
Qed.

(** Three entries of a64.inc: a word that is an SXTW matches the more general
    SBFM as well. *)
Definition sample : list RawEntry :=
  [mkRaw "SBFM" "SBFM" "z00100110Nrrrrrrssssssnnnnnddddd";
   mkRaw "SXTW" "SXTW" "1001001101000000011111nnnnnddddd";
   mkRaw "ADD_imm" "ADD (immediate)" "z0010001ssiiiiiiiiiiiinnnnnddddd"]%string.

Lemma decode_highest_priority_witness :
  exists t, generate (fun k => if String.eqb k.1 "SBFM" then 7 else 0) (entries sample) = Some t /\
  match DecodeInstruction sample t 0x93407c20 with
  | Some r =>
      exists e, entries sample !! r = Some e /\ matches 0x93407c20 e = true /\
        forall e', e' ∈ entries sample -> matches 0x93407c20 e' = true -> e' = e \/ higher e e'
  | None => forall e', e' ∈ entries sample -> matches 0x93407c20 e' = false
  end.
Proof.
  destruct (generate (fun k => if String.eqb k.1 "SBFM" then 7 else 0) (entries sample)) as [t|] eqn:E.
  - exists t. split; [reflexivity|]. exact (decode_highest_priority sample _ t 0x93407c20 E).
  - exfalso. exact (generate_small _ (entries sample) (Nat.le_refl 3) eq_refl E).
Defined.
