(* ===== verification/A64Rows.v ===== *)
(** The rows of a64.inc for the instructions the frontend model has, and what it
    means that a word fits a row. *)
From S2P Require Import Prelude DecodeTable.
From stdpp Require Import strings.
Open Scope Z_scope.

Definition A64Immediate : list (string * string) := [
  ("ADR", "0ii10000iiiiiiiiiiiiiiiiiiiddddd");
  ("ADRP", "1ii10000iiiiiiiiiiiiiiiiiiiddddd");
  ("ADD_imm", "z0010001ssiiiiiiiiiiiinnnnnddddd");
  ("ADDS_imm", "z0110001ssiiiiiiiiiiiinnnnnddddd");
  ("SUB_imm", "z1010001ssiiiiiiiiiiiinnnnnddddd");
  ("SUBS_imm", "z1110001ssiiiiiiiiiiiinnnnnddddd");
  ("AND_imm", "z00100100Nrrrrrrssssssnnnnnddddd");
  ("ORR_imm", "z01100100Nrrrrrrssssssnnnnnddddd");
  ("EOR_imm", "z10100100Nrrrrrrssssssnnnnnddddd");
  ("ANDS_imm", "z11100100Nrrrrrrssssssnnnnnddddd");
  ("MOVN", "z00100101ssiiiiiiiiiiiiiiiiddddd");
  ("MOVZ", "z10100101ssiiiiiiiiiiiiiiiiddddd");
  ("MOVK", "z11100101ssiiiiiiiiiiiiiiiiddddd");
  ("SBFM", "z00100110Nrrrrrrssssssnnnnnddddd");
  ("BFM", "z01100110Nrrrrrrssssssnnnnnddddd");
  ("UBFM", "z10100110Nrrrrrrssssssnnnnnddddd");
  ("ASR_1", "00010011000rrrrr011111nnnnnddddd");
  ("ASR_2", "1001001101rrrrrr111111nnnnnddddd");
  ("SXTB_1", "0001001100000000000111nnnnnddddd");
  ("SXTB_2", "1001001101000000000111nnnnnddddd");
  ("SXTH_1", "0001001100000000001111nnnnnddddd");
  ("SXTH_2", "1001001101000000001111nnnnnddddd");
  ("SXTW", "1001001101000000011111nnnnnddddd");
  ("EXTR", "z00100111N0mmmmmssssssnnnnnddddd")]%string.

Definition A64Branch : list (string * string) := [
  ("B_cond", "01010100iiiiiiiiiiiiiiiiiii0cccc");
  ("SVC", "11010100000iiiiiiiiiiiiiiii00001");
  ("BLR", "1101011000111111000000nnnnn00000");
  ("BR", "1101011000011111000000nnnnn00000");
  ("RET", "1101011001011111000000nnnnn00000");
  ("B_uncond", "000101iiiiiiiiiiiiiiiiiiiiiiiiii");
  ("BL", "100101iiiiiiiiiiiiiiiiiiiiiiiiii");
  ("CBZ", "z0110100iiiiiiiiiiiiiiiiiiittttt");
  ("CBNZ", "z0110101iiiiiiiiiiiiiiiiiiittttt");
  ("TBZ", "b0110110bbbbbiiiiiiiiiiiiiittttt");
  ("TBNZ", "b0110111bbbbbiiiiiiiiiiiiiittttt")]%string.

Definition A64Register : list (string * string) := [
  ("UDIV", "z0011010110mmmmm000010nnnnnddddd");
  ("SDIV", "z0011010110mmmmm000011nnnnnddddd");
  ("LSLV", "z0011010110mmmmm001000nnnnnddddd");
  ("LSRV", "z0011010110mmmmm001001nnnnnddddd");
  ("ASRV", "z0011010110mmmmm001010nnnnnddddd");
  ("RORV", "z0011010110mmmmm001011nnnnnddddd");
  ("RBIT_int", "z101101011000000000000nnnnnddddd");
  ("REV16_int", "z101101011000000000001nnnnnddddd");
  ("REV", "z10110101100000000001onnnnnddddd");
  ("CLZ_int", "z101101011000000000100nnnnnddddd");
  ("CLS_int", "z101101011000000000101nnnnnddddd");
  ("REV32_int", "1101101011000000000010nnnnnddddd");
  ("AND_shift", "z0001010ss0mmmmmiiiiiinnnnnddddd");
  ("BIC_shift", "z0001010ss1mmmmmiiiiiinnnnnddddd");
  ("ORR_shift", "z0101010ss0mmmmmiiiiiinnnnnddddd");
  ("ORN_shift", "z0101010ss1mmmmmiiiiiinnnnnddddd");
  ("EOR_shift", "z1001010ss0mmmmmiiiiiinnnnnddddd");
  ("EON", "z1001010ss1mmmmmiiiiiinnnnnddddd");
  ("ANDS_shift", "z1101010ss0mmmmmiiiiiinnnnnddddd");
  ("BICS", "z1101010ss1mmmmmiiiiiinnnnnddddd");
  ("ADD_shift", "z0001011ss0mmmmmiiiiiinnnnnddddd");
  ("ADDS_shift", "z0101011ss0mmmmmiiiiiinnnnnddddd");
  ("SUB_shift", "z1001011ss0mmmmmiiiiiinnnnnddddd");
  ("SUBS_shift", "z1101011ss0mmmmmiiiiiinnnnnddddd");
  ("ADD_ext", "z0001011001mmmmmxxxiiinnnnnddddd");
  ("ADDS_ext", "z0101011001mmmmmxxxiiinnnnnddddd");
  ("SUB_ext", "z1001011001mmmmmxxxiiinnnnnddddd");
  ("SUBS_ext", "z1101011001mmmmmxxxiiinnnnnddddd");
  ("ADC", "z0011010000mmmmm000000nnnnnddddd");
  ("ADCS", "z0111010000mmmmm000000nnnnnddddd");
  ("SBC", "z1011010000mmmmm000000nnnnnddddd");
  ("SBCS", "z1111010000mmmmm000000nnnnnddddd");
  ("CCMN_reg", "z0111010010mmmmmcccc00nnnnn0ffff");
  ("CCMP_reg", "z1111010010mmmmmcccc00nnnnn0ffff");
  ("CCMN_imm", "z0111010010iiiiicccc10nnnnn0ffff");
  ("CCMP_imm", "z1111010010iiiiicccc10nnnnn0ffff");
  ("CSEL", "z0011010100mmmmmcccc00nnnnnddddd");
  ("CSINC", "z0011010100mmmmmcccc01nnnnnddddd");
  ("CSINV", "z1011010100mmmmmcccc00nnnnnddddd");
  ("CSNEG", "z1011010100mmmmmcccc01nnnnnddddd");
  ("MADD", "z0011011000mmmmm0aaaaannnnnddddd");
  ("MSUB", "z0011011000mmmmm1aaaaannnnnddddd");
  ("SMADDL", "10011011001mmmmm0aaaaannnnnddddd");
  ("SMSUBL", "10011011001mmmmm1aaaaannnnnddddd");
  ("SMULH", "10011011010mmmmm011111nnnnnddddd");
  ("UMADDL", "10011011101mmmmm0aaaaannnnnddddd");
  ("UMSUBL", "10011011101mmmmm1aaaaannnnnddddd");
  ("UMULH", "10011011110mmmmm011111nnnnnddddd")]%string.

Definition A64LoadStore : list (string * string) := [
  ("LDR_lit_gen", "0z011000iiiiiiiiiiiiiiiiiiittttt");
  ("LDRSW_lit", "10011000iiiiiiiiiiiiiiiiiiittttt");
  ("PRFM_lit", "11011000iiiiiiiiiiiiiiiiiiittttt");
  ("STNP_LDNP_gen", "o01010000Liiiiiiiuuuuunnnnnttttt");
  ("STP_LDP_gen", "oo10100pwLiiiiiiiuuuuunnnnnttttt");
  ("STURx_LDURx", "zz111000oo0iiiiiiiii00nnnnnttttt");
  ("STLURx_LDAPURx", "zz011001oo0iiiiiiiii00nnnnnttttt");
  ("PRFM_imm", "1111100110iiiiiiiiiiiinnnnnttttt");
  ("PRFM_unscaled_imm", "11111000100iiiiiiiii00nnnnnttttt");
  ("STRx_LDRx_imm_1", "zz111000oo0iiiiiiiiip1nnnnnttttt");
  ("STRx_LDRx_imm_2", "zz111001ooiiiiiiiiiiiinnnnnttttt");
  ("STTRB", "00111000000iiiiiiiii10nnnnnttttt");
  ("LDTRB", "00111000010iiiiiiiii10nnnnnttttt");
  ("LDTRSB", "00111000oo0iiiiiiiii10nnnnnttttt");
  ("STTRH", "01111000000iiiiiiiii10nnnnnttttt");
  ("LDTRH", "01111000010iiiiiiiii10nnnnnttttt");
  ("LDTRSH", "01111000oo0iiiiiiiii10nnnnnttttt");
  ("STTR", "zz111000000iiiiiiiii10nnnnnttttt");
  ("LDTR", "zz111000010iiiiiiiii10nnnnnttttt");
  ("LDTRSW", "10111000100iiiiiiiii10nnnnnttttt");
  ("STRx_reg", "zz111000o01mmmmmxxxS10nnnnnttttt");
  ("LDRx_reg", "zz111000o11mmmmmxxxS10nnnnnttttt")]%string.

Definition A64System : list (string * string) := [
  ("ISB", "11010101000000110011MMMM11011111");
  ("BRK", "11010100001iiiiiiiiiiiiiiii00000");
  ("HINT", "11010101000000110010MMMMooo11111");
  ("NOP", "11010101000000110010000000011111");
  ("YIELD", "11010101000000110010000000111111");
  ("WFE", "11010101000000110010000001011111");
  ("WFI", "11010101000000110010000001111111");
  ("SEV", "11010101000000110010000010011111");
  ("SEVL", "11010101000000110010000010111111");
  ("DSB", "11010101000000110011MMMM10011111");
  ("DMB", "11010101000000110011MMMM10111111");
  ("DC_ZVA", "110101010000101101110100001ttttt");
  ("DC_CVAU", "110101010000101101111011001ttttt");
  ("IC_IVAU", "110101010000101101110101001ttttt");
  ("DC_CVAC", "110101010000101101111010001ttttt");
  ("DC_CIVAC", "110101010000101101111110001ttttt");
  ("DC_CVAP", "110101010000101101111100001ttttt");
  ("UnallocatedEncoding", "--1010000-----------------------");
  ("UnallocatedEncoding", "--1011000-----------------------");
  ("UnallocatedEncoding", "111110001-0---------00----------");
  ("UnallocatedEncoding", "10111000110---------00----------");
  ("UnallocatedEncoding", "111110001-0----------1----------");
  ("UnallocatedEncoding", "10111000110----------1----------");
  ("UnallocatedEncoding", "1111100111----------------------");
  ("UnallocatedEncoding", "1011100111----------------------")]%string.

Definition A64Rows : list (string * string) := A64Immediate ++ A64Branch ++ A64LoadStore ++ A64Register ++ A64System.

(** A row as the bits it fixes. *)
Record Pattern := mkPattern { PMask : Z; PExpect : Z }.
Definition pattern (bits : string) : Pattern := let '(m, e) := ParseBits bits in mkPattern m e.
Definition fits (p : Pattern) (w : Z) : Prop := in_width 32 w /\ Z.land w (PMask p) = PExpect p.

Lemma fits_bit p w i : fits p w -> 0 <= i -> Z.testbit (PMask p) i = true -> Z.testbit w i = Z.testbit (PExpect p) i.
Proof. intros [_ H] Hi Hm. rewrite <- H, Z.land_spec, Hm. by rewrite andb_true_r. Qed.
