(* ===== verification/Frontend.v ===== *)
(** The frontend around the translators: the handler table and its lookup
    (HandlerTable.h, DecodeTable.cpp), [TranslateInstruction] with the guest
    signal of an instruction it does not know, and the two fusions that go on
    in the same block: RBIT with CLZ, and a byte reversal with the memory access
    next to it (IRBuilder.cpp, TranslateDataProcessing.cpp,
    TranslateLoadStore.cpp). *)
From S2P Require Import Prelude DecodeTable A64Common IR BlockBuilder Branch DataProcessing LoadStore.
From stdpp Require Import strings.
Open Scope Z_scope.

(** ** Looking a handler up by name *)

Section FindHandler.
Context {H : Type} (HandlerTable : list (string * H)).

Definition handler_name (i : nat) : string :=
  match HandlerTable !! i with Some (n, _) => n | None => EmptyString end.

(** The order of [HandlerOrder]: by name, ties by position. *)
Definition handler_le (a b : nat) : Prop :=
  String.compare (handler_name a) (handler_name b) = Lt \/ (handler_name a = handler_name b /\ (a <= b)%nat).
#[export] Instance handler_le_dec : RelDecision handler_le.
Proof. intros a b. unfold handler_le. apply _. Defined.

Definition HandlerOrder : list nat := merge_sort handler_le (seq 0 (length HandlerTable)).

(** [std::lower_bound], on the sorted positions: the first one whose name is
    not below. *)
Definition lower_bound (n : string) : option nat :=
  List.find (fun i => negb (String.ltb (handler_name i) n)) HandlerOrder.

Definition FindHandler (n : string) : option H :=
  match lower_bound n with
  | Some i => if String.eqb (handler_name i) n then snd <$> HandlerTable !! i else None
  | None => None
  end.

End FindHandler.

(** The entries of the table for the integer data-processing instructions, for
    branches and system instructions and for loads and stores, in its order: the
    immediate forms, branches, system, loads and stores, then the register
    forms.  ISB is with the branches, since it may leave the block.
    These are 122 of the 736 names of HandlerTable.h: [FindHandler] gives nothing
    for SVC, HLT, CLREX, MRS, MSR and the exclusive, atomic, vector and
    floating-point names, which the sources resolve, and the theorems on
    translated words ask that the word has one of the modelled names. *)
Definition HandlerTable_imm : list (string * (Z -> M bool)) := [
  ("ADR", ADR); ("ADRP", ADRP);
  ("ADD_imm", ADD_imm); ("ADDS_imm", ADDS_imm); ("SUB_imm", SUB_imm); ("SUBS_imm", SUBS_imm);
  ("AND_imm", AND_imm); ("ORR_imm", ORR_imm); ("EOR_imm", EOR_imm); ("ANDS_imm", ANDS_imm);
  ("MOVN", MOVN); ("MOVZ", MOVZ); ("MOVK", MOVK);
  ("SBFM", SBFM); ("BFM", BFM); ("UBFM", UBFM);
  ("ASR_1", SBFM); ("ASR_2", SBFM); ("SXTB_1", SBFM); ("SXTB_2", SBFM);
  ("SXTH_1", SBFM); ("SXTH_2", SBFM); ("SXTW", SBFM);
  ("EXTR", EXTR)]%string.

Definition HandlerTable_reg : list (string * (Z -> M bool)) := [
  ("UDIV", UDIV); ("SDIV", SDIV);
  ("LSLV", LSLV); ("LSRV", LSRV); ("ASRV", ASRV); ("RORV", RORV);
  ("RBIT_int", RBIT_int); ("REV16_int", REV16_int); ("REV", REV);
  ("REV32_int", REV32_int); ("CLZ_int", CLZ_int); ("CLS_int", CLS_int);
  ("AND_shift", LogicalShifted); ("BIC_shift", LogicalShifted);
  ("ORR_shift", LogicalShifted); ("ORN_shift", LogicalShifted);
  ("EOR_shift", LogicalShifted); ("EON", LogicalShifted);
  ("ANDS_shift", LogicalShifted); ("BICS", LogicalShifted);
  ("ADD_shift", AddSubShifted); ("ADDS_shift", AddSubShifted);
  ("SUB_shift", AddSubShifted); ("SUBS_shift", AddSubShifted);
  ("ADD_ext", AddSubExtended); ("ADDS_ext", AddSubExtended);
  ("SUB_ext", AddSubExtended); ("SUBS_ext", AddSubExtended);
  ("ADC", ADC); ("ADCS", ADCS); ("SBC", SBC); ("SBCS", SBCS);
  ("CCMN_reg", CondCompare); ("CCMP_reg", CondCompare);
  ("CCMN_imm", CondCompare); ("CCMP_imm", CondCompare);
  ("CSEL", CondSelect); ("CSINC", CondSelect); ("CSINV", CondSelect); ("CSNEG", CondSelect);
  ("MADD", MADD); ("MSUB", MSUB);
  ("SMADDL", SMADDL); ("SMSUBL", SMSUBL); ("UMADDL", UMADDL); ("UMSUBL", UMSUBL);
  ("SMULH", SMULH); ("UMULH", UMULH)]%string.

Section Config.
(** [CTX->Config.GuestPrefetch()]; [SMCChecks == CONFIG_SMC_ICACHE]. *)
Context (GuestPrefetch SMCICache : bool).

Definition HandlerTable_branch : list (string * (Z -> M bool)) := [
  ("B_cond", B_cond); ("B_uncond", B_uncond); ("BL", BL);
  ("CBZ", CBZ); ("CBNZ", CBNZ); ("TBZ", TBZ); ("TBNZ", TBNZ);
  ("BR", BR); ("BLR", BLR); ("RET", RET); ("ISB", ISB SMCICache)]%string.

Definition HandlerTable_system : list (string * (Z -> M bool)) := [
  ("BRK", BRK); ("HINT", HINT); ("NOP", HINT); ("YIELD", HINT); ("WFE", HINT); ("WFI", HINT); ("SEV", HINT); ("SEVL", HINT);
  ("DSB", Barrier); ("DMB", Barrier); ("DC_ZVA", DC_ZVA);
  ("DC_CVAU", CacheMaintenanceNop); ("IC_IVAU", IC_IVAU SMCICache);
  ("DC_CVAC", CacheMaintenanceNop); ("DC_CIVAC", CacheMaintenanceNop); ("DC_CVAP", CacheMaintenanceNop);
  ("UnallocatedEncoding", UnallocatedEncoding)]%string.

Definition HandlerTable_mem : list (string * (Z -> M bool)) := [
  ("LDR_lit_gen", LDR_lit_gen); ("LDRSW_lit", LDRSW_lit); ("PRFM_lit", PRFM_lit GuestPrefetch);
  ("STP_LDP_gen", STP_LDP_gen); ("STNP_LDNP_gen", STNP_LDNP_gen);
  ("STURx_LDURx", LoadStoreImm9 GuestPrefetch); ("STRx_LDRx_imm_1", LoadStoreImm9 GuestPrefetch);
  ("STRx_LDRx_imm_2", STRx_LDRx_imm_2 GuestPrefetch);
  ("STLURx_LDAPURx", STLURx_LDAPURx GuestPrefetch);
  ("PRFM_imm", PRFM_imm GuestPrefetch); ("PRFM_unscaled_imm", PRFM_imm GuestPrefetch);
  ("STTRB", LoadStoreImm9 GuestPrefetch); ("LDTRB", LoadStoreImm9 GuestPrefetch); ("LDTRSB", LoadStoreImm9 GuestPrefetch);
  ("STTRH", LoadStoreImm9 GuestPrefetch); ("LDTRH", LoadStoreImm9 GuestPrefetch); ("LDTRSH", LoadStoreImm9 GuestPrefetch);
  ("STTR", LoadStoreImm9 GuestPrefetch); ("LDTR", LoadStoreImm9 GuestPrefetch); ("LDTRSW", LoadStoreImm9 GuestPrefetch);
  ("STRx_reg", LoadStoreRegOffset GuestPrefetch); ("LDRx_reg", LoadStoreRegOffset GuestPrefetch)]%string.

Definition HandlerTable : list (string * (Z -> M bool)) := HandlerTable_imm ++ HandlerTable_branch ++ HandlerTable_system ++ HandlerTable_mem ++ HandlerTable_reg.

(** ** Translating one instruction *)

Record InstMatcher := mkMatcher {
  MName : string; Mask : Z; Expect : Z; Handler : option (Z -> M bool); RawIndex : nat }.

(** [Matchers]: one per entry of a64.inc, with the handler of its name. *)
Definition Matchers (RawTable : list RawEntry) : list InstMatcher :=
  imap (fun i r => let '(m, e) := ParseBits (BitString r) in mkMatcher (Name r) m e (FindHandler HandlerTable (Name r)) i) RawTable.
End Config.

Record DecodedInst := mkInst { IPC : Z; Word : Z; Matcher : option InstMatcher }.

Definition UnimplementedInstruction (Inst : DecodedInst) : M unit :=
  RaiseGuestSignal (IPC Inst) (mkBreak 0 SIGILL 0 1).
Definition NoExecInstruction (PC : Z) : M unit := RaiseGuestSignal PC (mkBreak 0 SIGSEGV 0 2).
Definition UnalignedPCInstruction (PC : Z) : M unit := RaiseGuestSignal PC (mkBreak 0 SIGBUS 0 1).

Definition set_pc (b : Builder) (pc : Z) : Builder :=
  mkBuilder (Ops b) pc (Entry b) (GPRCache b) (CacheBlock b) (CurrentBlock b) (Constants b) (NrConstants b) (BlockSetPC b) (Unit b).
Definition SetCurrentPC (pc : Z) : M unit := fun b => (tt, set_pc b pc).

(** The handler's result is [false] when it rejects the word. *)
Definition TranslateInstruction (Inst : DecodedInst) : M bool :=
  SetCurrentPC (IPC Inst) ;;;
  ok <- match Matcher Inst with
        | Some m => match Handler m with Some h => h (Word Inst) | None => ret false end
        | None => ret false
        end ;;
  (if negb ok then UnimplementedInstruction Inst else ret tt) ;;;
  ret true.

(** ** Fusing RBIT and CLZ *)

(** [Block]: the decoded instructions of the block, [Index] the current one;
    the result is the number of instructions translated. *)
Definition TryFuseRbitClz (Block : list DecodedInst) (Index : nat) : M nat := fun b =>
  (if (length Block <? Index + 2)%nat then ret 0%nat
   else match Block !! Index, Block !! S Index with
   | Some Rb, Some Cl =>
       match Matcher Rb, Matcher Cl with
       | Some mr, Some mc =>
           if negb (String.eqb (MName mr) "RBIT_int") || negb (String.eqb (MName mc) "CLZ_int") then ret 0%nat
           else
             let Is64 := Bit (Word Rb) 31 in
             if negb (eqb (Bit (Word Cl) 31) Is64) then ret 0%nat
             else
               let Rd := Bits (Word Rb) 4 0 in
               if (Rd =? 31) || negb (Bits (Word Cl) 9 5 =? Rd) || negb (Bits (Word Cl) 4 0 =? Rd) then ret 0%nat
               else
                 emit (OGuestOpcode (IPC Cl - Entry b)) ;;;
                 SetCurrentPC (IPC Rb) ;;;
                 n <- LoadX (Bits (Word Rb) 9 5) ;;
                 v <- emit (OUn FindTrailingZeroes (SizeFor Is64) n) ;;
                 StoreReg Rd Is64 v ;;;
                 ret 2%nat
       | _, _ => ret 0%nat
       end
   | _, _ => ret 0%nat
   end) b.

(** ** Fusing a byte reversal with a memory access *)

Record RevAccess := mkAccess {
  Valid : bool; IsLoad : bool; ASize : Z; ARt : Z; ARn : Z; Disp : Z; WriteBack : bool; PostIndex : bool; ARm : Z }.

Definition DecodeRevAccess (Inst : DecodedInst) : RevAccess :=
  let none := mkAccess false false 0 0 0 0 false false 31 in
  match Matcher Inst with
  | None => none
  | Some m =>
      let W := Word Inst in
      if negb (Bits W 29 27 =? 7) || Bit W 26 then none
      else
        let Size := Bits W 31 30 in
        let Decode := DecodeSizeOpc Size (Bits W 23 22) in
        if (Size =? 0) || SignExt Decode || (negb (bool_decide (Op Decode = Load)) && negb (bool_decide (Op Decode = Store))) then none
        else
          let A Valid := mkAccess Valid (bool_decide (Op Decode = Load)) Size (Bits W 4 0) (Bits W 9 5) in
          if String.eqb (MName m) "STRx_LDRx_imm_2" then A true (Z.shiftl (Bits W 21 10) Size) false false 31
          else if String.eqb (MName m) "STURx_LDURx" then A true (SignExtend (Bits W 20 12) 9) false false 31
          else if String.eqb (MName m) "STRx_LDRx_imm_1" then A true (SignExtend (Bits W 20 12) 9) true (Bits W 11 10 =? 1) 31
          else if String.eqb (MName m) "LDRx_reg" || String.eqb (MName m) "STRx_reg" then
            if (Bits W 15 13 =? 3) && negb (Bit W 12) then A true 0 false false (Bits W 20 16) else A false 0 false false 31
          else A false 0 false false 31
  end.

Definition RevOfWidth (Rev : DecodedInst) (Size : Z) : bool :=
  match Matcher Rev with
  | None => false
  | Some m =>
      if String.eqb (MName m) "REV16_int" then Size =? 1
      else if String.eqb (MName m) "REV" then
        let Is64 := Bit (Word Rev) 31 in
        if negb (eqb Is64 (Bit (Word Rev) 10)) then false else Size =? (if Is64 then 3 else 2)
      else false
  end.

(** The address of the access and what is written back. *)
Definition rev_address (A : RevAccess) (Base : Ref) : M (Ref * Ref) :=
  let add_disp := if negb (Disp A =? 0) then c <- Constant (Disp A) ;; emit (OBin IR.Add i64Bit Base c) else ret Base in
  if WriteBack A then Offsetted <- add_disp ;; ret (if PostIndex A then Base else Offsetted, Offsetted)
  else if negb (ARm A =? 31) then m <- LoadX (ARm A) ;; Address <- emit (OBin IR.Add i64Bit Base m) ;; ret (Address, Base)
  else Address <- add_disp ;; ret (Address, Base).

Definition fuse_load_rev (First Second : DecodedInst) (A : RevAccess) : M nat := fun b =>
  (SetCurrentPC (IPC First) ;;;
   Base <- LoadXSP (ARn A) ;;
   p <- rev_address A Base ;;
   Value <- emit (OLoadMemRev (bytes_of (ASize A)) (fst p)) ;;
   (if WriteBack A then StoreXSP (ARn A) (snd p) else ret tt) ;;;
   StoreX (ARt A) Value ;;;
   emit (OGuestOpcode (IPC Second - Entry b)) ;;;
   ret 2%nat) b.

Definition fuse_rev_store (First Second : DecodedInst) (A : RevAccess) (is16 : bool) : M nat := fun b =>
  (SetCurrentPC (IPC First) ;;;
   Src <- LoadX (Bits (Word First) 9 5) ;;
   RevHandled <- (if is16 then REV16_int (Word First) else REV (Word First)) ;;
   if negb RevHandled then ret 0%nat
   else
     emit (OGuestOpcode (IPC Second - Entry b)) ;;;
     SetCurrentPC (IPC Second) ;;;
     Base <- LoadXSP (ARn A) ;;
     p <- rev_address A Base ;;
     emit (OStoreMemRev (bytes_of (ASize A)) (fst p) Src) ;;;
     (if WriteBack A then StoreXSP (ARn A) (snd p) else ret tt) ;;;
     ret 2%nat) b.

Definition is_rev16 (i : DecodedInst) : bool := match Matcher i with Some m => String.eqb (MName m) "REV16_int" | None => false end.

Definition TryFuseMemRev (Block : list DecodedInst) (Index : nat) : M nat :=
  if (length Block <? Index + 2)%nat then ret 0%nat
  else match Block !! Index, Block !! S Index with
  | Some First, Some Second =>
      let L := DecodeRevAccess First in
      if Valid L && IsLoad L && negb (ARt L =? 31) && RevOfWidth Second (ASize L) && (Bits (Word Second) 9 5 =? ARt L) && (Bits (Word Second) 4 0 =? ARt L)
      then fuse_load_rev First Second L
      else
        let S := DecodeRevAccess Second in
        if Valid S && negb (IsLoad S) && negb (ARt S =? 31) && RevOfWidth First (ASize S) && (Bits (Word First) 4 0 =? ARt S)
        then fuse_rev_store First Second S (is_rev16 First)
        else ret 0%nat
  | _, _ => ret 0%nat
  end.
