(* ===== verification/FrontendSpec.v ===== *)
(** The handler lookup, and the translators by the names of the handler table:
    each one's semantics, and that it only appends to the block. *)
From S2P Require Import Prelude DecodeTable A64Common IR ArmSpec IRLogic DataProcessing DataProcessingSpec.
From S2P Require Import LogicalBitfieldSpec BitfieldSpec BlockBuilder Branch ArmSpec LoadStore LoadStoreSpec SystemSpec A64Rows Frontend.
From stdpp Require Import strings.
From Stdlib Require Import OrdersEx.
Open Scope Z_scope.

(** ** The order on names *)

Lemma string_compare_OT a b : String.compare a b = String_as_OT.compare a b.
Proof. reflexivity. Qed.

Lemma name_lt_trans a b c : String.compare a b = Lt -> String.compare b c = Lt -> String.compare a c = Lt.
Proof. rewrite !string_compare_OT. apply (String_as_OT.lt_strorder). Qed.

Lemma name_lt_irrefl a : String.compare a a <> Lt.
Proof. rewrite string_compare_OT. intros H. by apply (StrictOrder_Irreflexive (R := String_as_OT.lt) a). Qed.

Lemma name_total a b : String.compare a b = Lt \/ a = b \/ String.compare b a = Lt.
Proof.
  rewrite (String.compare_antisym b a). destruct (String.compare a b) eqn:E; auto.
  right; left. by apply String.compare_eq_iff.
Qed.

Section FindHandlerSpec.
Context {H : Type} (T : list (string * H)).

#[local] Instance handler_le_trans : Transitive (handler_le T).
Proof.
  intros a b c [Hab|[Eab Hab]] [Hbc|[Ebc Hbc]]; unfold handler_le in *.
  - left. by eapply name_lt_trans.
  - left. by rewrite <- Ebc.
  - left. by rewrite Eab.
  - right. split; [congruence|lia].
Qed.

#[local] Instance handler_le_total : Total (handler_le T).
Proof.
  intros a b. unfold handler_le. destruct (name_total (handler_name T a) (handler_name T b)) as [|[E|]]; auto.
  destruct (decide (a <= b)%nat); [left|right]; right; split; by try lia.
Qed.

Lemma find_split {A} (f : A -> bool) l x :
  List.find f l = Some x -> exists l1 l2, l = l1 ++ x :: l2 /\ f x = true /\ Forall (fun y => f y = false) l1.
Proof.
  induction l as [|y l IH]; simpl; [done|]. destruct (f y) eqn:Hf.
  - intros [= ->]. by exists [], l.
  - intros (l1 & l2 & -> & Hx & Hl)%IH. exists (y :: l1), l2. split_and!; [done|done|by constructor].
Qed.

Lemma not_below i n : negb (String.ltb (handler_name T i) n) = true <-> String.compare (handler_name T i) n <> Lt.
Proof. unfold String.ltb. by destruct (String.compare (handler_name T i) n). Qed.

Lemma in_order i : i ∈ HandlerOrder T <-> (i < length T)%nat.
Proof. unfold HandlerOrder. rewrite merge_sort_Permutation, elem_of_seq. lia. Qed.

Lemma find_first n i p :
  T !! i = Some p -> p.1 = n -> (forall j q, T !! j = Some q -> q.1 = n -> (i <= j)%nat) ->
  List.find (fun p => String.eqb p.1 n) T = Some p.
Proof.
  revert i. induction T as [|q l IH]; intros [|i] Hi Hp Hmin; simpl; try done.
  - injection Hi as ->. by rewrite (proj2 (String.eqb_eq _ _) Hp).
  - destruct (String.eqb_spec q.1 n) as [E|E]; [specialize (Hmin 0%nat q eq_refl E); lia|].
    apply (IH i); [done|done|]. intros j r Hj Hr. specialize (Hmin (S j) r Hj Hr). lia.
Qed.

Lemma find_no n : (forall j q, T !! j = Some q -> q.1 <> n) -> List.find (fun p => String.eqb p.1 n) T = None.
Proof.
  intros Hn. destruct (List.find _ T) as [p|] eqn:E; [|done]. apply find_some in E as [Hin E].
  apply list_elem_of_In, list_elem_of_lookup in Hin as [j Hj]. apply String.eqb_eq in E. by destruct (Hn j p Hj).
Qed.

(** The lookup by binary search finds the first entry of the name. *)
Lemma FindHandler_first n :
  FindHandler T n = snd <$> List.find (fun p => String.eqb p.1 n) T.
Proof.
  assert (Hname : forall j q, T !! j = Some q -> handler_name T j = q.1)
    by (intros j q Hj; unfold handler_name; rewrite Hj; by destruct q).
  pose proof (StronglySorted_merge_sort (handler_le T) (seq 0 (length T))) as Hs. fold (HandlerOrder T) in Hs.
  unfold FindHandler, lower_bound. destruct (List.find _ (HandlerOrder T)) as [i|] eqn:E.
  - pose proof (find_split _ _ _ E) as (l1 & l2 & Hl & Hi & Hl1). apply not_below in Hi.
    assert (Hin : (i < length T)%nat) by (apply in_order; rewrite Hl; apply elem_of_app; right; apply list_elem_of_here).
    apply lookup_lt_is_Some_2 in Hin as [p Hp].
    assert (Hrest : forall j q, T !! j = Some q -> q.1 = n -> handler_le T i j).
    { intros j q Hj Hq. assert (Hjo : j ∈ HandlerOrder T) by (apply in_order; by eapply lookup_lt_Some).
      rewrite Hl in Hjo, Hs. apply elem_of_app in Hjo as [Hj1|Hj2].
      - rewrite Forall_forall in Hl1. specialize (Hl1 j Hj1). cbn beta in Hl1. apply not_true_iff_false in Hl1.
        destruct Hl1. apply not_below. rewrite (Hname j q Hj), Hq. apply name_lt_irrefl.
      - apply StronglySorted_app in Hs as (_ & _ & Hs). apply StronglySorted_cons in Hs as [Hs _].
        apply elem_of_cons in Hj2 as [->|Hj2]; [right; split; [done|lia]|]. rewrite Forall_forall in Hs. by apply Hs. }
    destruct (String.eqb_spec (handler_name T i) n) as [En|En].
    + rewrite (find_first n i p), Hp; [done|done|by rewrite <- (Hname i p Hp)|]. intros j q Hj Hq.
      destruct (Hrest j q Hj Hq) as [Hlt|[_ Hle]]; [|done]. rewrite En, (Hname j q Hj), Hq in Hlt. by apply name_lt_irrefl in Hlt.
    + rewrite (find_no n); [done|]. intros j q Hj Hq. rewrite <- Hq, <- (Hname j q Hj) in Hi, En.
      destruct (Hrest j q Hj Hq) as [Hlt|[Heq _]]; [by apply Hi|by apply En].
  - rewrite (find_no n); [done|]. intros j q Hj Hq. assert (Hjo : j ∈ HandlerOrder T) by (apply in_order; by eapply lookup_lt_Some).
    apply list_elem_of_In in Hjo. pose proof (find_none _ _ E _ Hjo) as Hb. apply not_true_iff_false in Hb. apply Hb.
    apply not_below. rewrite (Hname j q Hj), Hq. apply name_lt_irrefl.
Qed.

End FindHandlerSpec.

(** ** The translators of the table *)

(** The Arm semantics of the entries of [HandlerTable] but the branches, in its
    order. *)
Definition ArmTable_imm : list (string * (Z -> Z -> Guest -> option Guest)) := [
  ("ADR", arm_ADR); ("ADRP", arm_ADRP);
  ("ADD_imm", arm_add_sub_imm false false); ("ADDS_imm", arm_add_sub_imm false true);
  ("SUB_imm", arm_add_sub_imm true false); ("SUBS_imm", arm_add_sub_imm true true);
  ("AND_imm", arm_logical_imm); ("ORR_imm", arm_logical_imm); ("EOR_imm", arm_logical_imm); ("ANDS_imm", arm_logical_imm);
  ("MOVN", arm_move_wide); ("MOVZ", arm_move_wide); ("MOVK", arm_move_wide);
  ("SBFM", arm_bitfield); ("BFM", arm_bitfield); ("UBFM", arm_bitfield);
  ("ASR_1", arm_bitfield); ("ASR_2", arm_bitfield); ("SXTB_1", arm_bitfield); ("SXTB_2", arm_bitfield);
  ("SXTH_1", arm_bitfield); ("SXTH_2", arm_bitfield); ("SXTW", arm_bitfield);
  ("EXTR", arm_EXTR)]%string.

Definition ArmTable_reg : list (string * (Z -> Z -> Guest -> option Guest)) := [
  ("UDIV", arm_div false); ("SDIV", arm_div true);
  ("LSLV", arm_shift_variable 0); ("LSRV", arm_shift_variable 1);
  ("ASRV", arm_shift_variable 2); ("RORV", arm_shift_variable 3);
  ("RBIT_int", arm_unary bit_reverse); ("REV16_int", arm_unary (reverse_bytes 16)); ("REV", arm_REV);
  ("REV32_int", arm_REV32); ("CLZ_int", arm_unary count_leading_zeros); ("CLS_int", arm_unary count_leading_signs);
  ("AND_shift", arm_logical_shifted); ("BIC_shift", arm_logical_shifted);
  ("ORR_shift", arm_logical_shifted); ("ORN_shift", arm_logical_shifted);
  ("EOR_shift", arm_logical_shifted); ("EON", arm_logical_shifted);
  ("ANDS_shift", arm_logical_shifted); ("BICS", arm_logical_shifted);
  ("ADD_shift", arm_add_sub_shifted); ("ADDS_shift", arm_add_sub_shifted);
  ("SUB_shift", arm_add_sub_shifted); ("SUBS_shift", arm_add_sub_shifted);
  ("ADD_ext", arm_add_sub_extended); ("ADDS_ext", arm_add_sub_extended);
  ("SUB_ext", arm_add_sub_extended); ("SUBS_ext", arm_add_sub_extended);
  ("ADC", arm_add_sub_carry false false); ("ADCS", arm_add_sub_carry false true);
  ("SBC", arm_add_sub_carry true false); ("SBCS", arm_add_sub_carry true true);
  ("CCMN_reg", arm_cond_compare); ("CCMP_reg", arm_cond_compare);
  ("CCMN_imm", arm_cond_compare); ("CCMP_imm", arm_cond_compare);
  ("CSEL", arm_cond_select); ("CSINC", arm_cond_select); ("CSINV", arm_cond_select); ("CSNEG", arm_cond_select);
  ("MADD", arm_mul_add false); ("MSUB", arm_mul_add true);
  ("SMADDL", arm_mul_long true false); ("SMSUBL", arm_mul_long true true);
  ("UMADDL", arm_mul_long false false); ("UMSUBL", arm_mul_long false true);
  ("SMULH", arm_mul_high true); ("UMULH", arm_mul_high false)]%string.

Definition ArmTable_mem : list (string * (Z -> Z -> Guest -> option Guest)) := [
  ("LDR_lit_gen", arm_LDR_lit); ("LDRSW_lit", arm_LDRSW_lit); ("PRFM_lit", arm_PRFM);
  ("STP_LDP_gen", arm_pair); ("STNP_LDNP_gen", arm_nontemporal_pair);
  ("STURx_LDURx", arm_imm9); ("STRx_LDRx_imm_1", arm_imm9);
  ("STRx_LDRx_imm_2", arm_uimm12);
  ("STLURx_LDAPURx", arm_rcpc_imm9);
  ("PRFM_imm", arm_PRFM); ("PRFM_unscaled_imm", arm_PRFM);
  ("STTRB", arm_imm9); ("LDTRB", arm_imm9); ("LDTRSB", arm_imm9);
  ("STTRH", arm_imm9); ("LDTRH", arm_imm9); ("LDTRSH", arm_imm9);
  ("STTR", arm_imm9); ("LDTR", arm_imm9); ("LDTRSW", arm_imm9);
  ("STRx_reg", arm_register_offset); ("LDRx_reg", arm_register_offset)]%string.

Definition ArmTable_system : list (string * (Z -> Z -> Guest -> option Guest)) := [
  ("BRK", arm_BRK); ("HINT", arm_nop); ("NOP", arm_nop); ("YIELD", arm_nop); ("WFE", arm_nop); ("WFI", arm_nop); ("SEV", arm_nop); ("SEVL", arm_nop);
  ("DSB", arm_nop); ("DMB", arm_nop); ("DC_ZVA", arm_DC_ZVA);
  ("DC_CVAU", arm_nop); ("IC_IVAU", arm_nop); ("DC_CVAC", arm_nop); ("DC_CIVAC", arm_nop); ("DC_CVAP", arm_nop);
  ("UnallocatedEncoding", arm_undefined)]%string.

Definition ArmTable : list (string * (Z -> Z -> Guest -> option Guest)) := ArmTable_imm ++ ArmTable_system ++ ArmTable_mem ++ ArmTable_reg.
Definition arm_of (n : string) : option (Z -> Z -> Guest -> option Guest) := snd <$> List.find (fun p => String.eqb p.1 n) ArmTable.

(** The translator of one entry. *)
Ltac impl :=
  lazymatch goal with
  | |- implements (ADR) _ => exact (proj1 adr_impl)
  | |- implements (ADRP) _ => exact (proj2 adr_impl)
  | |- implements _ (arm_add_sub_imm _ _) => apply add_sub_immediate_impl
  | |- implements _ (arm_add_sub_carry _ _) => apply add_sub_carry_impl
  | |- implements _ arm_logical_imm => exact logical_immediate_impl
  | |- implements _ arm_move_wide => exact move_wide_impl
  | |- implements _ arm_bitfield => exact bitfield_impl
  | |- implements _ arm_EXTR => exact extr_impl
  | |- implements UDIV _ => exact udiv_impl
  | |- implements SDIV _ => exact sdiv_impl
  | |- implements _ (arm_shift_variable _) => apply shift_variable_impl
  | |- implements CLS_int _ => exact cls_impl
  | |- implements REV16_int _ => apply reversals_impl
  | |- implements REV32_int _ => apply reversals_impl
  | |- implements _ (arm_unary _) => apply one_source_impl
  | |- implements REV _ => apply one_source_impl
  | |- implements _ arm_logical_shifted => exact logical_shifted_impl
  | |- implements _ arm_add_sub_shifted => exact add_sub_shifted_impl
  | |- implements _ arm_add_sub_extended => exact add_sub_extended_impl
  | |- implements _ arm_cond_compare => exact cond_compare_impl
  | |- implements _ arm_cond_select => exact cond_select_impl
  | |- implements _ (arm_mul_add _) => apply mul_add_impl
  | |- implements _ (arm_mul_long _ _) => apply mul_long_impl
  | |- implements _ (arm_mul_high _) => apply mul_high_impl
  end.

Ltac impl_mem :=
  lazymatch goal with
  | |- runs LDR_lit_gen _ => apply literal_impl
  | |- runs LDRSW_lit _ => apply literal_impl
  | |- runs (PRFM_lit _) _ => apply literal_impl
  | |- runs (PRFM_imm _) _ => apply prfm_impl
  | |- runs _ arm_pair => apply pair_impl
  | |- runs _ arm_nontemporal_pair => apply nontemporal_pair_impl
  | |- runs _ arm_imm9 => apply imm9_impl
  | |- runs _ arm_rcpc_imm9 => apply rcpc_impl
  | |- runs _ arm_uimm12 => apply uimm12_impl
  | |- runs _ arm_register_offset => apply register_offset_impl
  | |- runs BRK _ => exact brk_impl
  | |- runs DC_ZVA _ => exact dc_zva_impl
  | |- runs Barrier _ => exact (implements_runs _ _ barrier_impl)
  | |- runs (IC_IVAU _) _ => exact (implements_runs _ _ (ic_ivau_impl _))
  | |- runs UnallocatedEncoding _ => exact (implements_runs _ _ undefined_impl)
  | |- runs _ arm_nop => apply implements_runs, nop_impl; reflexivity
  | |- _ => apply implements_runs; impl
  end.

(** Each handler only appends. *)
Ltac grow :=
  lazymatch goal with
  | |- Grows (fun b => _) =>
      let b := fresh "b" in intros b; cbv beta zeta;
      lazymatch goal with |- frame b (?m b).2 => let H := fresh "H" in assert (H : Grows m) by grow; exact (H b) end
  | |- Grows (let x := _ in _) => cbv zeta; grow
  | |- Grows (bind _ _) => apply grows_bind; [grow|intros ?; grow]
  | |- Grows (if ?c then _ else _) => destruct c; grow
  | |- Grows (match ?c with _ => _ end) => destruct c; grow
  | |- _ => first [apply _ | unfold_head; grow]
  end
with unfold_head := match goal with |- Grows ?m => let f := head_of m in unfold f; cbv beta zeta end
with head_of m := lazymatch m with ?f _ => head_of f | _ => m end.

Definition entry_ok (h : string * (Z -> M bool)) (a : string * (Z -> Z -> Guest -> option Guest)) : Prop :=
  h.1 = a.1 /\ runs h.2 a.2 /\ forall w, Grows (h.2 w).

Ltac entries := repeat (apply Forall2_cons; split; [split_and!; [reflexivity|cbn [snd]; impl_mem|cbn [snd]; intros w; grow]|]); constructor.

(** The entries whose handlers stay in their block. *)
Definition StraightTable (GP IC : bool) : list (string * (Z -> M bool)) :=
  HandlerTable_imm ++ HandlerTable_system IC ++ HandlerTable_mem GP ++ HandlerTable_reg.

Lemma table_ok GP IC : Forall2 entry_ok (StraightTable GP IC) ArmTable.
Proof. apply Forall2_app; [|apply Forall2_app; [|apply Forall2_app]]; entries. Qed.

Lemma find_entry T A n h :
  Forall2 entry_ok T A -> List.find (fun p => String.eqb p.1 n) T = Some h ->
  exists sem, List.find (fun p => String.eqb p.1 n) A = Some (n, sem) /\ h.1 = n /\ runs h.2 sem /\ forall w, Grows (h.2 w).
Proof.
  induction 1 as [|h' [m sem] T A (Hn & Hr & Hg) _ IH]; [done|]. cbn [List.find]. rewrite Hn. cbn [fst].
  destruct (String.eqb_spec m n) as [->|]; [|done]. intros [= ->]. by exists sem.
Qed.

Lemma find_app_table {A} (f : A -> bool) l l' : List.find f (l ++ l') = match List.find f l with Some x => Some x | None => List.find f l' end.
Proof. induction l as [|x l IH]; [done|]. cbn. by destruct (f x). Qed.

Lemma find_none_names {A} (T : list (string * A)) n : List.find (fun p => String.eqb p.1 n) T = None <-> n ∉ T.*1.
Proof.
  split.
  - intros Hf [p [-> Hin]]%list_elem_of_fmap. apply list_elem_of_In in Hin. pose proof (find_none _ _ Hf _ Hin) as Hb. cbn in Hb. by rewrite String.eqb_refl in Hb.
  - intros Hn. apply find_no. intros j q Hj <-. apply Hn, list_elem_of_fmap_2. by eapply list_elem_of_lookup_2.
Qed.

(** What the handler of a name does, unless it is a branch. *)
Lemma handler_runs GP IC n h :
  FindHandler (HandlerTable GP IC) n = Some h -> is_branch n = false ->
  exists sem, arm_of n = Some sem /\ runs h sem /\ forall w, Grows (h w).
Proof.
  rewrite FindHandler_first. destruct (List.find _ _) as [p|] eqn:E; [|done]. intros [= <-] Hb.
  assert (Hs : List.find (fun p => String.eqb p.1 n) (StraightTable GP IC) = Some p).
  { unfold HandlerTable in E. unfold StraightTable. rewrite !find_app_table in *. destruct (List.find _ HandlerTable_imm); [done|].
    destruct (List.find _ (HandlerTable_branch IC)) as [q|] eqn:Eb; [|done]. apply find_some in Eb as [Hin Hq%String.eqb_eq]. subst n. exfalso.
    assert (Hall : forallb (fun q => is_branch q.1) (HandlerTable_branch IC) = true) by reflexivity.
    rewrite forallb_forall in Hall. by rewrite (Hall q Hin) in Hb. }
  destruct (find_entry _ _ _ _ (table_ok GP IC) Hs) as (sem & Hsem & _ & Hr & Hg). exists sem. unfold arm_of. by rewrite Hsem.
Qed.

(** The handler of a branch is the one of the table. *)
Lemma handler_branch GP IC n h :
  FindHandler (HandlerTable GP IC) n = Some h -> is_branch n = true -> (n, h) ∈ HandlerTable_branch IC.
Proof.
  rewrite FindHandler_first. destruct (List.find _ _) as [[m p]|] eqn:E; [|done]. intros [= ->] Hb. apply find_some in E as [Hin Hm%String.eqb_eq].
  cbn in Hm. subst m. apply list_elem_of_In in Hin. unfold HandlerTable in Hin.
  assert (Hno : forall T, forallb (fun q => negb (is_branch q.1)) T = true -> (n, h) ∈ T -> False).
  { intros T Hall HT%list_elem_of_In. rewrite forallb_forall in Hall. specialize (Hall _ HT). change (negb (is_branch n) = true) in Hall. by rewrite Hb in Hall. }
  repeat (apply elem_of_app in Hin as [Hin|Hin]); first [exact Hin|exfalso; eapply Hno; [|exact Hin]; reflexivity].
Qed.

(** Each name of the handler table resolves, through the sorted order and
    the binary search, to the handler of the table's first entry of that name,
    and that handler has the Arm semantics of the name or is that of a branch; a
    name not in the table resolves to nothing. *)
Theorem handlers_resolve GP IC n :
  match FindHandler (HandlerTable GP IC) n with
  | Some h => List.find (fun p => String.eqb p.1 n) (HandlerTable GP IC) = Some (n, h) /\
              if is_branch n then (n, h) ∈ HandlerTable_branch IC else exists sem, arm_of n = Some sem /\ runs h sem
  | None => n ∉ (HandlerTable GP IC).*1
  end.
Proof.
  destruct (FindHandler (HandlerTable GP IC) n) as [h|] eqn:E.
  - split.
    + rewrite FindHandler_first in E. destruct (List.find _ _) as [[m p]|] eqn:Ef; [|done]. injection E as ->.
      apply find_some in Ef as [_ Hm%String.eqb_eq]. cbn in Hm. by subst m.
    + destruct (is_branch n) eqn:Hb; [by eapply handler_branch|]. destruct (handler_runs GP IC n h E Hb) as (sem & Hs & Hrun & _). by exists sem.
  - rewrite FindHandler_first in E. destruct (List.find _ (HandlerTable GP IC)) as [|] eqn:Ef; [done|]. by apply find_none_names.
Qed.

(** ** The translators, by instruction group

    [implements T S]: emitted at any point of a block, [T Word] accepts exactly
    the words for which [S] is defined, emits nothing for the others, and the
    IR has the effect of [S]. *)

(** C6. The integer data-processing instructions, every translator of
    TranslateDataProcessing.cpp:
    - ADD, ADDS, SUB and SUBS with an immediate, a shifted or an extended
      register, and ADC, ADCS, SBC and SBCS: results, flags, SP or the zero
      register, and the rejection of the reserved encodings;
    - AND, ORR, EOR and ANDS with a bitmask immediate, and with a shifted and
      possibly inverted register: the immediate is rejected exactly when the
      pseudocode's DecodeBitMasks is undefined;
    - SBFM, BFM and UBFM with all their aliases, and EXTR: the pseudocode's
      rotation and masks, for every position, width and register size;
    - MOVN, MOVZ and MOVK, and the PC-relative ADR and ADRP;
    - UDIV and SDIV: zero for a zero divisor and no overflow, although the host
      division is undefined for both;
    - MADD, MSUB, the four long forms with signed or unsigned 32-bit factors,
      SMULH and UMULH;
    - CCMP and CCMN, and CSEL, CSINC, CSINV and CSNEG, for the sixteen condition
      codes;
    - the variable shifts LSLV, LSRV, ASRV and RORV, and RBIT, CLZ, CLS, REV,
      REV16 and REV32. *)
Theorem data_processing_ok :
  (forall s f, implements (fun w => AddSubImmediate w s f) (arm_add_sub_imm s f)) /\
  implements AddSubShifted arm_add_sub_shifted /\ implements AddSubExtended arm_add_sub_extended /\
  (forall s f, implements (fun w => AddSubCarry w s f) (arm_add_sub_carry s f)) /\
  implements LogicalImmediate arm_logical_imm /\ implements LogicalShifted arm_logical_shifted /\
  implements Bitfield arm_bitfield /\ implements EXTR arm_EXTR /\
  implements MoveWide arm_move_wide /\ implements ADR arm_ADR /\ implements ADRP arm_ADRP /\
  implements UDIV (arm_div false) /\ implements SDIV (arm_div true) /\
  implements MADD (arm_mul_add false) /\ implements MSUB (arm_mul_add true) /\
  (forall sg s, implements (fun w => MultiplyAddSubLong w sg s) (arm_mul_long sg s)) /\
  implements SMULH (arm_mul_high true) /\ implements UMULH (arm_mul_high false) /\
  implements CondCompare arm_cond_compare /\ implements CondSelect arm_cond_select /\
  implements LSLV (arm_shift_variable 0) /\ implements LSRV (arm_shift_variable 1) /\
  implements ASRV (arm_shift_variable 2) /\ implements RORV (arm_shift_variable 3) /\
  implements RBIT_int (arm_unary bit_reverse) /\ implements CLZ_int (arm_unary count_leading_zeros) /\
  implements CLS_int (arm_unary count_leading_signs) /\ implements REV arm_REV /\
  implements REV16_int (arm_unary (reverse_bytes 16)) /\ implements REV32_int arm_REV32.
Proof.
  split_and!; (apply add_sub_immediate_impl || apply add_sub_shifted_impl || apply add_sub_extended_impl || apply add_sub_carry_impl || apply logical_immediate_impl ||
    apply logical_shifted_impl || apply bitfield_impl || apply extr_impl || apply move_wide_impl || apply adr_impl || apply udiv_impl || apply sdiv_impl || apply mul_add_impl ||
    apply mul_long_impl || apply mul_high_impl || apply cond_compare_impl || apply cond_select_impl || apply shift_variable_impl || apply one_source_impl || apply cls_impl || apply reversals_impl).
Qed.

(** C7. The loads and stores of general registers: literal, unscaled,
    post-indexed, pre-indexed, unprivileged, unsigned-offset, register-offset,
    pairs, and the release and acquire forms with their order left out.  For
    every word the translator accepts exactly the allocated encodings, a load
    writes its register with the zero- or sign-extended bytes and wins over the
    writeback, a store writes the bytes, and an access out of reach stops the
    block with the registers, the base included, as they were. *)
Theorem load_store_ok GP :
  runs LDR_lit_gen arm_LDR_lit /\ runs LDRSW_lit arm_LDRSW_lit /\ runs (LoadStoreImm9 GP) arm_imm9 /\
  runs (STRx_LDRx_imm_2 GP) arm_uimm12 /\ runs (LoadStoreRegOffset GP) arm_register_offset /\
  runs STP_LDP_gen arm_pair /\ runs STNP_LDNP_gen arm_nontemporal_pair /\ runs (STLURx_LDAPURx GP) arm_rcpc_imm9 /\
  runs (PRFM_lit GP) arm_PRFM /\ runs (PRFM_imm GP) arm_PRFM.
Proof.
  destruct literal_impl as (H1 & H2 & H3).
  split_and!; [exact H1|exact H2|apply imm9_impl|apply uimm12_impl|apply register_offset_impl|exact pair_impl|exact nontemporal_pair_impl|apply rcpc_impl|apply H3|apply prfm_impl].
Qed.
