(* ===== verification/InstSpec.v ===== *)
(** One instruction: its Arm semantics, the guest signal of an undefined one,
    and what [TranslateInstruction] emits for it. *)
From S2P Require Import Prelude DecodeTable A64Common IR ArmSpec IRLogic DataProcessing DataProcessingSpec.
From S2P Require Import BlockBuilder ArmSpec LoadStore LoadStoreSpec SystemSpec A64Rows Frontend FrontendSpec.
From stdpp Require Import strings.
Open Scope Z_scope.

(** ** Semantics *)

(** The Arm semantics of a decoded instruction that is no branch; [None] when it
    is UNDEFINED or matches no entry. *)
Definition arm_semantics (i : DecodedInst) (g : Guest) : option Guest :=
  match Matcher i with
  | Some m => match arm_of (MName m) with Some sem => sem (IPC i) (Word i) g | None => None end
  | None => None
  end.

(** The signal of an undefined instruction. *)
Definition undefined (i : DecodedInst) (g : Guest) : Guest := set_trap (set_pcslot g (IPC i)) (mkBreak 0 SIGILL 0 1).

Definition arm_step (i : DecodedInst) (g : Guest) : Guest :=
  let g := set_marker g (IPC i) in match arm_semantics i g with Some g' => g' | None => undefined i g end.

Definition branches (i : DecodedInst) : bool := match Matcher i with Some m => is_branch (MName m) | None => false end.

(** One instruction of the guest: where it goes, and the state. *)
Definition arm_next (i : DecodedInst) (g : Guest) : Z * Guest :=
  match (m ← Matcher i; arm_branch (MName m) (IPC i) (Word i) (set_marker g (IPC i))) with
  | Some r => r
  | None => (u64 (IPC i + 4), arm_step i g)
  end.

Lemma arm_next_plain i g : branches i = false -> arm_next i g = (u64 (IPC i + 4), arm_step i g).
Proof.
  unfold branches, arm_next. destruct (Matcher i) as [m|]; [|done]. cbn [mbind option_bind]. rewrite (arm_branch_names _ (IPC i) (Word i) (set_marker g (IPC i))).
  by destruct (arm_branch _ _ _ _).
Qed.

(** A run of instructions, up to the first that stops the guest. *)
Fixpoint arm_run (l : list DecodedInst) (g : Guest) : Guest :=
  match l with
  | [] => g
  | i :: l => let g' := arm_step i g in match Stop g' with Some _ => g' | None => arm_run l g' end
  end.

Lemma arm_run_app l l' g :
  Stop g = None -> arm_run (l ++ l') g = let g1 := arm_run l g in match Stop g1 with Some _ => g1 | None => arm_run l' g1 end.
Proof.
  revert g. induction l as [|i l IH]; intros g Hg; cbn [app arm_run]; [by rewrite Hg|].
  destruct (Stop (arm_step i g)) eqn:E; [by rewrite E|by apply IH].
Qed.

(** The word fits a row of a64.inc with that name. *)
Definition row_fits (n : string) (w : Z) : Prop := exists bits, (n, bits) ∈ A64Rows /\ fits (pattern bits) w.

(** Only one name has several rows. *)
Definition named_once (n : string) : bool := (length (List.filter (fun r => String.eqb r.1 n) A64Rows) <=? 1)%nat.

Lemma row_fits_all n w : row_fits n w -> named_once n = true -> forall bits, (n, bits) ∈ A64Rows -> fits (pattern bits) w.
Proof.
  unfold named_once. intros (b & Hb & Hw) Hn b' Hb'. apply Nat.leb_le in Hn.
  assert (Hin : forall c, (n, c) ∈ A64Rows -> (n, c) ∈ List.filter (fun r => String.eqb r.1 n) A64Rows)
    by (intros c Hc; apply list_elem_of_In, filter_In; split; [by apply list_elem_of_In|apply String.eqb_refl]).
  pose proof (Hin _ Hb) as H1. pose proof (Hin _ Hb') as H2. destruct (List.filter _ A64Rows) as [|r [|r' l]]; [by apply elem_of_nil in H1| |cbn in Hn; lia].
  apply list_elem_of_singleton in H1, H2. congruence.
Qed.

(** The decoder's part: the instruction carries the handler of its name, one of
    the table, and the word fits a row of a64.inc with that name. *)
Definition resolved (GP IC : bool) (i : DecodedInst) : Prop :=
  in_width 64 (IPC i) /\ in_width 32 (Word i) /\
  match Matcher i with
  | Some m => (exists h, Handler m = Some h /\ FindHandler (HandlerTable GP IC) (MName m) = Some h) /\ row_fits (MName m) (Word i)
  | None => True
  end.

(** The outcome of emitting [m]: the operations run to the end and leave [g'],
    or stop with it. *)
Definition ends {A} (junk : nat -> Z) (entry : Z) (s0 : Machine) (r : A * Builder) (g' : Guest) : Prop :=
  (exists pc e', inv junk entry pc s0 r.2 e' g') \/ stopped junk entry s0 r.2 g'.

(** ** Guest-level operations *)

#[export] Instance grows_SetCurrentPC pc : Grows (SetCurrentPC pc).
Proof. intros b. split; try done. by right. Qed.

Lemma wX_marker g n v pc : wX (set_marker g pc) n v = set_marker (wX g n v) pc.
Proof. unfold wX. by destruct (n =? 31). Qed.

Lemma wX_stop g n v : Stop (wX g n v) = Stop g.
Proof. unfold wX. by destruct (n =? 31). Qed.

Lemma marked_ok g pc : guest_ok g -> guest_ok (set_marker g pc).
Proof. done. Qed.

Section Insts.
Context (junk : nat -> Z) (entry : Z) (s0 : Machine).
Abbreviation ends := (ends junk entry s0).

Lemma inv_set_pc pc pc' b e g : inv junk entry pc s0 b e g -> inv junk entry pc' s0 (set_pc b pc') e g.
Proof. intros [H1 H2 H3 H4 H5 H6 H7 H8 H9 H10 H11]. by split. Qed.

Lemma ends_running {A} (r : A * Builder) g : ends r g -> Stop g = None -> exists pc e, inv junk entry pc s0 r.2 e g.
Proof. intros [H|[_ H]] Hs; [done|by rewrite Hs in H]. Qed.

Lemma ends_grows {A B} (r : A * Builder) (r' : B * Builder) g : ends r g -> Stop g <> None -> Ops r.2 `prefix_of` Ops r'.2 -> ends r' g.
Proof.
  intros [(pc & e & H)|H] Hs Hp; [by destruct (inv_guest _ _ _ _ _ _ _ H) as (_ & _ & ?)|]. right. by eapply stopped_grows.
Qed.

Lemma ends_exec {A} (r : A * Builder) g : ends r g -> G (exec junk entry s0 (code s0 r.2)) = g.
Proof. intros [(pc & e & H)|[H _]]; [by rewrite (inv_exec _ _ _ _ _ _ _ H)|done]. Qed.

(** The marker of an instruction. *)
Lemma wp_marker pc ipc e g (Q : Ref -> list Z -> Guest -> Prop) :
  in_width 64 ipc -> guest_ok g -> (forall r e', sub e e' -> Q r e' (set_marker g ipc)) ->
  wp junk entry pc s0 (emit (OGuestOpcode (ipc - entry))) e g Q.
Proof.
  intros Hpc Hg HQ. eapply wp_guest; [|by apply (marked_ok g ipc)|done|exact HQ]. cbn [step push_g Env G].
  replace (entry + (ipc - entry)) with ipc by lia. unfold u64. by rewrite wrap_small.
Qed.

Lemma TranslateInstruction_grows GP IC i : resolved GP IC i -> branches i = false -> Grows (TranslateInstruction i).
Proof.
  intros (_ & _ & Hm) Hb. unfold branches in Hb. unfold TranslateInstruction. apply grows_bind; [apply _|intros _]. apply grows_bind.
  - destruct (Matcher i) as [m|]; [|apply _]. destruct Hm as [(h & -> & Hh) _]. destruct (handler_runs _ _ _ _ Hh Hb) as (_ & _ & _ & Hg). apply Hg.
  - intros ok. apply grows_bind; [|intros _; apply _]. destruct ok; cbn [negb]; [apply _|]. unfold UnimplementedInstruction. apply _.
Qed.

(** One instruction, after its marker: its semantics, a fault in it, or the
    signal. *)
Lemma translate_exec GP IC pc b e g i :
  inv junk entry pc s0 b e (set_marker g (IPC i)) -> resolved GP IC i -> branches i = false -> ends (TranslateInstruction i b) (arm_step i g).
Proof.
  intros Hb (Hpc & Hw & Hm) Hbr. unfold branches in Hbr. set (gm := set_marker g (IPC i)) in *. pose proof (inv_set_pc pc (IPC i) b e gm Hb) as Hb1.
  assert (Hraise : forall b' e', inv junk entry (IPC i) s0 b' e' gm ->
    stopped junk entry s0 (UnimplementedInstruction i b').2 (undefined i gm)) by (intros b' e' H; by apply (raise_exec junk entry s0 (IPC i) b' e')).
  unfold TranslateInstruction, SetCurrentPC, bind at 1, arm_step, arm_semantics. fold gm. cbv zeta.
  destruct (Matcher i) as [m|].
  - destruct Hm as [(h & -> & Hh) _]. destruct (handler_runs _ _ _ _ Hh Hbr) as (sem & -> & Hrun & _). unfold bind.
    destruct (Hrun junk entry (IPC i) s0 (Word i) e gm Hpc Hw (set_pc b (IPC i)) Hb1) as [(e' & g' & Hi & HQ)|(g' & Hst & HS)];
      destruct (h (Word i) (set_pc b (IPC i))) as [ok b1]; cbn [fst snd] in *.
    + unfold outcome in HQ. destruct (sem (IPC i) (Word i) gm) as [g1|].
      * destruct HQ as [-> ->]. left. by exists (IPC i), e'.
      * destruct HQ as (-> & -> & ->). cbn [negb]. right. pose proof (Hraise b1 e Hi) as Hr. by destruct (UnimplementedInstruction i b1).
    + rewrite HS. right. destruct ok; cbn [negb]; [done|]. pose proof (grows_RaiseGuestSignal (IPC i) (mkBreak 0 SIGILL 0 1) b1) as Hgr.
      unfold UnimplementedInstruction. destruct (RaiseGuestSignal _ _ b1). eapply stopped_grows; [exact Hst|by apply frame_ops].
  - right. unfold bind, ret. cbn [negb]. pose proof (Hraise (set_pc b (IPC i)) e Hb1) as Hr. by destruct (UnimplementedInstruction i _).
Qed.

End Insts.
