(* ===== verification/FusionSpec.v ===== *)
(** The fusions: RBIT with CLZ, and a byte reversal with the load before it or
    the store after it.  A fused pair has the effect of its two instructions,
    the marker of the second and the faults of both included. *)
From S2P Require Import Prelude DecodeTable A64Common IR ArmSpec IRLogic DataProcessing DataProcessingSpec.
From S2P Require Import LoadStore ArmSpec LoadStoreSpec A64Rows Frontend FrontendSpec InstSpec.
From stdpp Require Import strings.
Open Scope Z_scope.

(** What a fusion does at the head of the block [l], whose first instruction is
    marked: nothing, or the two instructions, neither a branch. *)
Definition fused (junk : nat -> Z) (entry : Z) (s0 : Machine) (l : list DecodedInst) (b : Builder) (g : Guest) (r : nat * Builder) : Prop :=
  r = (0%nat, b) \/
  exists i j rest, r.1 = 2%nat /\ l = i :: j :: rest /\ branches i = false /\ branches j = false /\ ends junk entry s0 r (arm_run [i; j] g).

(** ** Count trailing zeros *)

Lemma leading_zeros_ctz x y N k :
  (forall j, 0 <= j < Z.of_nat N -> Z.testbit y j = Z.testbit x (Z.of_nat N - 1 - j)) -> (k <= N)%nat ->
  leading_zeros k y = ctz_from k (Z.of_nat N - Z.of_nat k) x - (Z.of_nat N - Z.of_nat k).
Proof.
  intros H. induction k as [|k IH]; intros Hk; cbn [leading_zeros ctz_from]; [lia|].
  rewrite H by lia. replace (Z.of_nat N - 1 - Z.of_nat k) with (Z.of_nat N - Z.of_nat (S k)) by lia.
  destruct (Z.testbit x _); [lia|]. rewrite IH by lia.
  replace (Z.of_nat N - Z.of_nat (S k) + 1) with (Z.of_nat N - Z.of_nat k) by lia. lia.
Qed.

Lemma clz_rbit N x : 0 < N -> count_leading_zeros N (bit_reverse N x) = un FindTrailingZeroes N x.
Proof.
  intros HN. unfold count_leading_zeros. cbn [un]. unfold ctz.
  rewrite (leading_zeros_ctz x _ (Z.to_nat N)); [rewrite Z.sub_diag; lia| |done].
  intros j Hj. unfold bit_reverse. rewrite testbit_of_bits, Z2Nat.id in * by lia.
  by replace (0 <=? j) with true by lia; replace (j <? N) with true by lia.
Qed.

Lemma wX_read N g n v : guest_ok g -> 0 <= n < 31 -> in_width N v -> X N (wX g n v) n = v.
Proof.
  intros Hg Hn Hv. unfold X, rX, wX. rewrite (proj2 (Z.eqb_neq n 31)) by lia.
  rewrite reg_set by (done || lia). by apply wrap_small.
Qed.

Lemma wX_wX g n v w : wX (wX g n v) n w = wX g n w.
Proof. unfold wX. destruct (n =? 31); [done|]. unfold set_reg. cbn. by rewrite list_insert_insert_eq. Qed.

Lemma bit_reverse_range N x : 0 < N -> in_width N (bit_reverse N x).
Proof.
  intros HN. unfold bit_reverse. pose proof (of_bits_range (Z.to_nat N) (fun i => Z.testbit x (N - 1 - i))) as H.
  by rewrite Z2Nat.id in H by lia.
Qed.

Lemma arm_run_two i j g g1 g2 :
  guest_ok g -> arm_semantics i (set_marker g (IPC i)) = Some g1 -> Stop g1 = None ->
  arm_semantics j (set_marker g1 (IPC j)) = Some g2 -> arm_run [i; j] g = g2.
Proof. intros Hg H1 Hs H2. cbn [arm_run]. unfold arm_step. rewrite H1, Hs. cbv zeta. rewrite H2. by destruct (Stop g2). Qed.

Section Fuse.
Context (junk : nat -> Z) (entry : Z) (s0 : Machine).

Abbreviation wp := (wp junk entry).
Abbreviation wpf := (wpf junk entry).

(** [wps pc m e g v g2]: [m] returns [v], and what it emits ends in [g2]. *)
Definition wps {A} (pc : Z) (m : M A) (e : list Z) (g : Guest) (v : A) (g2 : Guest) : Prop :=
  forall b, inv junk entry pc s0 b e g -> (m b).1 = v /\ ends junk entry s0 (m b) g2.

Definition returns {A} (m : M A) (v : A) : Prop := forall b, (m b).1 = v.

Lemma returns_bind {A B} (m : M A) (f : A -> M B) v : (forall a, returns (f a) v) -> returns (bind m f) v.
Proof. intros H b. unfold bind. destruct (m b) as [a b']. apply H. Qed.

Lemma wps_ret {A} pc (v : A) e g : wps pc (ret v) e g v g.
Proof. intros b Hb. split; [done|]. left. by exists pc, e. Qed.

Lemma wps_bind {A B} pc (m : M A) (f : A -> M B) e g v g2 :
  wp pc s0 m e g (fun a e' g' => wps pc (f a) e' g' v g2) -> wps pc (bind m f) e g v g2.
Proof. intros Hm b Hb. destruct (Hm b Hb) as (e1 & g1 & H1 & HQ). unfold bind. destruct (m b). by apply HQ. Qed.

Lemma wps_bind_stop {A B} pc (m : M A) (f : A -> M B) e g v g2 :
  (forall a, Grows (f a)) -> (forall a, returns (f a) v) ->
  wpf pc s0 m e g (fun a e' g' => wps pc (f a) e' g' v g2) (fun g' => g' = g2) -> wps pc (bind m f) e g v g2.
Proof.
  intros Hgr Hret Hm b Hb. unfold bind. destruct (Hm b Hb) as [(e1 & g1 & H1 & HQ)|(g1 & H1 & ->)]; destruct (m b) as [a b']; [by apply HQ|].
  split; [apply Hret|]. right. eapply stopped_grows; [exact H1|apply Hgr].
Qed.

Lemma wps_setpc {A} pc pc' (k : M A) e g v g2 : wps pc' k e g v g2 -> wps pc (SetCurrentPC pc' ;;; k) e g v g2.
Proof. intros Hk b Hb. by apply Hk, (inv_set_pc _ _ _ pc). Qed.

Lemma wps_marker {A} pc ipc (k : M A) e g v g2 :
  in_width 64 ipc -> guest_ok g -> (forall e', sub e e' -> wps pc k e' (set_marker g ipc) v g2) ->
  wps pc (emit (OGuestOpcode (ipc - entry)) ;;; k) e g v g2.
Proof. intros Hpc Hg Hk. apply wps_bind, wp_marker; [done|done|]. intros r e' Hs. by apply Hk. Qed.

Lemma fuse_rbit_clz GP IC pc b e g Rb l :
  inv junk entry pc s0 b e (set_marker g (IPC Rb)) -> Forall (resolved GP IC) (Rb :: l) ->
  fused junk entry s0 (Rb :: l) b g (TryFuseRbitClz (Rb :: l) 0 b).
Proof.
  intros Hb Hl. unfold TryFuseRbitClz. destruct (_ <? _)%nat; [by left|].
  destruct l as [|Cl rest]; [by left|]. cbn [lookup list_lookup].
  destruct (Matcher Rb) as [mr|] eqn:Er, (Matcher Cl) as [mc|] eqn:Ec; try by left.
  destruct (String.eqb_spec (MName mr) "RBIT_int") as [Nr|]; [|by left].
  destruct (String.eqb_spec (MName mc) "CLZ_int") as [Nc|]; [|by left]. cbn [negb orb].
  destruct (eqb (Bit (Word Cl) 31) (Bit (Word Rb) 31)) eqn:Hsf; [|by left]. apply eqb_prop in Hsf. cbn [negb].
  destruct (Z.eqb_spec (Bits (Word Rb) 4 0) 31) as [|Hd]; [by left|].
  destruct (Z.eqb_spec (Bits (Word Cl) 9 5) (Bits (Word Rb) 4 0)) as [Hn|]; [|by left].
  destruct (Z.eqb_spec (Bits (Word Cl) 4 0) (Bits (Word Rb) 4 0)) as [Hdd|]; [|by left]. cbn [negb orb].
  apply Forall_cons in Hl as [_ [(Hpcj & _) _]%Forall_cons]. pose proof (inv_guest _ _ _ _ _ _ _ Hb) as Hgm.
  assert (Hg : guest_ok g) by exact Hgm. set (W := Word Rb) in *. set (N := bits (SizeFor (Bit W 31))).
  set (x := X N g (Bits W 9 5)). pose proof (Bits_range W 4 0 ltac:(lia)) as Hr. change (2 ^ (4 - 0 + 1)) with 32 in Hr.
  set (gm := set_marker g (IPC Rb)) in *. set (g1 := wX gm (Bits W 4 0) (bit_reverse N x)).
  set (g2 := wX (set_marker gm (IPC Cl)) (Bits W 4 0) (un FindTrailingZeroes N x)). assert (HN : 0 < N) by apply bits_pos.
  assert (H12 : arm_run [Rb; Cl] g = g2).
  { apply (arm_run_two Rb Cl g g1); [done| |unfold g1; by rewrite wX_stop; apply Hgm|].
    - unfold arm_semantics. rewrite Er, Nr. change (arm_of "RBIT_int") with (Some (arm_unary bit_reverse)). fold gm. unfold arm_unary, Rd, Rn. by rewrite <- size_datasize.
    - unfold arm_semantics. rewrite Ec, Nc. change (arm_of "CLZ_int") with (Some (arm_unary count_leading_zeros)). cbv beta iota. unfold arm_unary, Rd, Rn.
      rewrite <- size_datasize, Hsf, Hn, Hdd. fold N. unfold g1. rewrite <- wX_marker.
      rewrite wX_read, wX_wX, clz_rbit by (done || lia || by apply bit_reverse_range). done. }
  assert (HRb : branches Rb = false) by (unfold branches; by rewrite Er, Nr). assert (HCl : branches Cl = false) by (unfold branches; by rewrite Ec, Nc).
  right. exists Rb, Cl, rest. rewrite H12, (inv_entry _ _ _ _ _ _ _ Hb).
  assert (Hw : wps pc (emit (OGuestOpcode (IPC Cl - entry)) ;;; SetCurrentPC (IPC Rb) ;;; n <- LoadX (Bits W 9 5) ;;
    v <- emit (OUn FindTrailingZeroes (SizeFor (Bit W 31)) n) ;; StoreReg (Bits W 4 0) (Bit W 31) v ;;; ret 2%nat) e gm 2%nat g2).
  { apply wps_marker; [done|done|]. intros e1 _. apply wps_setpc, wps_bind. wp_step. apply wps_bind. wp_step. apply wps_bind. wp_step. apply wps_ret. }
  destruct (Hw b Hb). by split_and!.
Qed.

End Fuse.
