(* ===== verification/MemRevSpec.v ===== *)
(** The fusion of a byte reversal with the memory access next to it: the bytes
    of a reversed load or store, the accesses the fusion takes, and that the
    fused pair has the effect of the two instructions. *)
From S2P Require Import Prelude DecodeTable A64Common IR ArmSpec IRLogic DataProcessing DataProcessingSpec.
From S2P Require Import LoadStore ArmSpec LoadStoreSpec A64Rows Frontend FrontendSpec InstSpec FusionSpec.
From stdpp Require Import strings.
Open Scope Z_scope.

(** ** Reversed bytes *)

Lemma testbit_from_le l i :
  Forall (in_width 8) l -> 0 <= i -> Z.testbit (from_le l) i = Z.testbit (nth (Z.to_nat (i / 8)) l 0) (i mod 8).
Proof.
  intros Hl. revert i. induction Hl as [|b l Hb Hl IH]; intros i Hi; cbn [from_le].
  - rewrite Z.bits_0. by destruct (Z.to_nat _); cbn; rewrite Z.bits_0.
  - unfold in_width in Hb. change (2 ^ 8) with 256 in Hb. destruct (Z.ltb_spec i 8).
    + rewrite (Z.div_small i 8), (Z.mod_small i 8) by lia. change (Z.to_nat 0) with 0%nat. cbn [nth]. rewrite <- (Z.mod_pow2_bits_low _ 8) by lia. f_equal. change (2 ^ 8) with 256. index.
    + replace i with (i - 8 + 8) at 1 by lia. rewrite <- Z.shiftr_spec, Z.shiftr_div_pow2 by lia. change (2 ^ 8) with 256.
      replace ((b + 256 * from_le l) / 256) with (from_le l) by index. rewrite IH by lia.
      replace (Z.to_nat (i / 8)) with (S (Z.to_nat ((i - 8) / 8))) by index. cbn [nth]. f_equal. index.
Qed.

Lemma Forall_bytes_rev l : Forall (in_width 8) l -> Forall (in_width 8) (rev l).
Proof. rewrite !Forall_forall. intros H x Hx. apply H. by apply list_elem_of_In, in_rev, list_elem_of_In. Qed.

(** Reversing a container of [8 n] bits in a register of [N]. *)
Lemma reverse_from_le N n l :
  Forall (in_width 8) l -> length l = n -> (0 < n)%nat -> 8 * Z.of_nat n <= N ->
  reverse_bytes (8 * Z.of_nat n) N (from_le l) = from_le (rev l).
Proof.
  intros Hl Hlen Hn HN. set (c := 8 * Z.of_nat n). pose proof (from_le_width _ Hl) as Hw. pose proof (from_le_width _ (Forall_bytes_rev _ Hl)) as Hwr.
  rewrite length_rev in Hwr. rewrite Hlen in Hw, Hwr. fold c in Hw, Hwr.
  assert (Hc8 : c / 8 = Z.of_nat n) by (unfold c; index). assert (Hc : 0 < c) by lia.
  apply Z.bits_inj'. intros i Hi. unfold reverse_bytes. rewrite testbit_of_bits, Z2Nat.id by lia.
  rewrite (testbit_from_le (rev l)) by (by try apply Forall_bytes_rev). replace (0 <=? i) with true by lia. cbn [andb].
  destruct (Z.ltb_spec i c) as [Hic|Hic].
  - replace (i <? N) with true by lia. cbn [andb]. rewrite (Z.div_small i c), (Z.mod_small i c), Hc8 by lia.
    assert (Hi8 : 0 <= i / 8 < Z.of_nat n) by (unfold c in Hic; index). rewrite testbit_from_le by (done || index).
    rewrite rev_nth by lia. f_equal; [|index]. f_equal. rewrite Hlen. unfold c in *. index.
  - rewrite (nth_overflow (rev l)) by (rewrite length_rev; unfold c in Hic; index). rewrite Z.bits_0. apply andb_false_iff. right.
    apply Z.testbit_false; [|rewrite Z.div_small; [done|]].
    + pose proof (Z.mod_pos_bound i c Hc). pose proof (Z.mod_pos_bound i 8). assert (0 <= i / c) by (by apply Z.div_pos).
      assert ((i mod c) / 8 < Z.of_nat n) by (apply Z.div_lt_upper_bound; lia). nia.
    + destruct Hw as [H0 H1]. split; [done|]. eapply Z.lt_le_trans; [exact H1|]. apply Z.pow_le_mono_r; [lia|].
      assert (1 <= i / c) by (apply Z.div_le_lower_bound; lia). pose proof (Z.mod_pos_bound i c Hc). pose proof (Z.mod_pos_bound i 8).
      assert ((i mod c) / 8 < Z.of_nat n) by (apply Z.div_lt_upper_bound; lia). nia.
Qed.

Lemma to_le_bytes n x : Forall (in_width 8) (to_le n x).
Proof. revert x. induction n as [|n IH]; intros x; cbn [to_le]; constructor; [apply (wrap_range 8); lia|apply IH]. Qed.

Lemma to_le_wrap n x : to_le n (wrap (8 * Z.of_nat n) x) = to_le n x.
Proof.
  revert x. induction n as [|n IH]; intros x; cbn [to_le]; [done|]. replace (8 * Z.of_nat (S n)) with (8 + 8 * Z.of_nat n) by lia.
  unfold wrap in *. rewrite Z.pow_add_r by lia. change (2 ^ 8) with 256. assert (0 < 2 ^ (8 * Z.of_nat n)) by (apply Z.pow_pos_nonneg; lia).
  rewrite Z.rem_mul_r by lia. rewrite <- (IH (x / 256)). generalize ((x / 256) mod 2 ^ (8 * Z.of_nat n)). intros y.
  f_equal; [index|]. f_equal. index.
Qed.

Lemma to_from_le l : Forall (in_width 8) l -> to_le (length l) (from_le l) = l.
Proof.
  induction 1 as [|b l Hb Hl IH]; [done|]. cbn [length to_le from_le]. unfold in_width in Hb. change (2 ^ 8) with 256 in Hb.
  replace ((b + 256 * from_le l) / 256) with (from_le l) by index. rewrite IH. f_equal. index.
Qed.

Lemma wrap_reverse c N x : 0 < c <= N -> c mod 8 = 0 -> wrap c (reverse_bytes c N x) = reverse_bytes c c (wrap c x).
Proof.
  intros Hc H8. apply Z.bits_inj'. intros i Hi. unfold reverse_bytes. rewrite testbit_wrap, !testbit_of_bits, !Z2Nat.id by lia.
  destruct (Z.ltb_spec i c); [|by rewrite andb_false_r]. replace (0 <=? i) with true by lia. replace (i <? N) with true by lia. cbn [andb].
  rewrite (Z.div_small i c), (Z.mod_small i c), testbit_wrap by lia. replace (_ <? c) with true; [done|]. symmetry. apply Z.ltb_lt.
  assert (0 <= i / 8 < c / 8) by index. index.
Qed.

(** Storing a reversed value is storing the bytes of the value reversed. *)
Lemma to_le_reverse N n x : (0 < n)%nat -> 8 * Z.of_nat n <= N -> to_le n (reverse_bytes (8 * Z.of_nat n) N x) = rev (to_le n x).
Proof.
  intros Hn HN. rewrite <- (to_le_wrap n (reverse_bytes _ N x)), wrap_reverse by index. rewrite <- (from_to_le n x).
  rewrite (reverse_from_le _ n (to_le n x)) by (apply to_le_bytes || apply length_to_le || lia).
  replace n with (length (rev (to_le n x))) at 1 by (by rewrite length_rev, length_to_le). apply to_from_le, Forall_bytes_rev, to_le_bytes.
Qed.

(** ** The accesses *)

Definition acc_op (s : Z) (load : bool) : memop := if load then LOAD false (if s =? 3 then 64 else 32) else STORE.
Definition acc_indexed (A : RevAccess) (g : Guest) : Z := u64 (rXSP g (ARn A) + Disp A).
Definition acc_address (A : RevAccess) (g : Guest) : Z :=
  if WriteBack A then if PostIndex A then rXSP g (ARn A) else acc_indexed A g
  else if negb (ARm A =? 31) then u64 (rXSP g (ARn A) + rX g (ARm A)) else acc_indexed A g.
Definition acc_back (A : RevAccess) (g g' : Guest) : Guest := if WriteBack A then wXSP g' (ARn A) (acc_indexed A g) else g'.

Lemma acc_fields s o :
  0 <= s < 4 -> 0 <= o < 4 -> let D := DecodeSizeOpc s o in
  SignExt D = false -> bool_decide (Op D = Load) || bool_decide (Op D = Store) = true ->
  load_store_op s o = Some (acc_op s (bool_decide (Op D = Load))).
Proof.
  intros Hs Ho. assert (s = 0 \/ s = 1 \/ s = 2 \/ s = 3) as [->|[->|[->| ->]]] by lia;
    (assert (o = 0 \/ o = 1 \/ o = 2 \/ o = 3) as [->|[->|[->| ->]]] by lia); by vm_compute.
Qed.

Lemma row_bit (n bits : string) W i :
  (forall bits, (n, bits) ∈ A64Rows -> fits (pattern bits) W) -> (n, bits) ∈ A64Rows ->
  0 <= i -> Z.testbit (PMask (pattern bits)) i = true -> Z.testbit W i = Z.testbit (PExpect (pattern bits)) i.
Proof. intros H Hin. apply fits_bit. by apply H. Qed.

Lemma two_bits W l : 0 <= l -> Bits W (l + 1) l = b2z (Z.testbit W l) + 2 * b2z (Z.testbit W (l + 1)).
Proof.
  intros Hl. pose proof (Bits_range W (l + 1) l ltac:(lia)) as Hr. replace (l + 1 - l + 1) with 2 in Hr by lia. change (2 ^ 2) with 4 in Hr.
  replace (Z.testbit W (l + 1)) with (Z.testbit (Bits W (l + 1) l) 1) by (rewrite testbit_Bits by lia; replace (1 <=? l + 1 - l) with true by lia; cbn [andb]; f_equal; lia).
  replace (Z.testbit W l) with (Z.testbit (Bits W (l + 1) l) 0) by (rewrite testbit_Bits by lia; replace (0 <=? l + 1 - l) with true by lia; cbn [andb]; f_equal; lia).
  set (o := Bits W (l + 1) l) in *. by assert (o = 0 \/ o = 1 \/ o = 2 \/ o = 3) as [->|[->|[->| ->]]] by lia.
Qed.

(** Bits 11:10, the form of an access with a 9-bit offset. *)
Lemma mode_unscaled W : (forall bits, ("STURx_LDURx", bits)%string ∈ A64Rows -> fits (pattern bits) W) -> Bits W 11 10 = 0.
Proof.
  intros H. assert (Hin : ("STURx_LDURx", "zz111000oo0iiiiiiiii00nnnnnttttt")%string ∈ A64Rows) by (by apply (list_elem_of_lookup_2 _ 40)).
  change 11 with (10 + 1). rewrite two_bits, (row_bit _ _ W 10 H Hin), (row_bit _ _ W (10 + 1) H Hin) by done. done.
Qed.

Lemma mode_indexed W :
  (forall bits, ("STRx_LDRx_imm_1", bits)%string ∈ A64Rows -> fits (pattern bits) W) -> Bits W 11 10 = 1 \/ Bits W 11 10 = 3.
Proof.
  intros H. assert (Hin : ("STRx_LDRx_imm_1", "zz111000oo0iiiiiiiiip1nnnnnttttt")%string ∈ A64Rows) by (by apply (list_elem_of_lookup_2 _ 44)).
  change 11 with (10 + 1). rewrite two_bits, (row_bit _ _ W 10 H Hin) by done. destruct (Z.testbit W (10 + 1)); cbn; auto.
Qed.

Lemma register_unscaled W x : in_width 64 x -> Bits W 15 13 = 3 -> Bit W 12 = false -> forall b,
  u64 (b + extend_reg 64 x (Bits W 15 13) (if Bit W 12 then ArmSpec.size W else 0)) = u64 (b + x).
Proof.
  intros Hx -> -> b. rewrite (register_offset x 3 0) by (done || lia). cbn [ExtendOffsetType mem_offset]. by rewrite Z.mul_1_r.
Qed.

Lemma bit14 W : Bits W 15 13 = 3 -> Bit W 14 = true.
Proof.
  intros H. rewrite Bit_testbit by lia. replace (Z.testbit W 14) with (Z.testbit (Bits W 15 13) 1) by (by rewrite testbit_Bits by lia). by rewrite H.
Qed.

Lemma rX_width g n : guest_ok g -> in_width 64 (rX g n).
Proof. intros Hg. unfold rX. destruct (n =? 31); [apply zero_width|by apply reg_width]. Qed.

Lemma register_access pc W g op :
  guest_ok g -> load_store_op (Bits W 31 30) (Bits W 23 22) = Some op -> (Bits W 15 13 =? 3) && negb (Bit W 12) = true ->
  arm_register_offset pc W g = Some (arm_access op (Bits W 31 30) (Bits W 4 0)
    (if negb (Bits W 20 16 =? 31) then u64 (rXSP g (Bits W 9 5) + rX g (Bits W 20 16)) else u64 (rXSP g (Bits W 9 5) + 0)) g (fun g => g)).
Proof.
  intros Hg Hop [H3%Z.eqb_eq H12%negb_true_iff]%andb_true_iff. unfold arm_register_offset, opc. fold (ArmSpec.size W) in *. rewrite Hop, bit14 by done.
  cbn [negb]. rewrite register_unscaled by (done || by apply rX_width). unfold Rm, Rn, Rt. do 2 f_equal.
  unfold rX at 1. by destruct (Bits W 20 16 =? 31) eqn:E; [|unfold rX; rewrite E].
Qed.

(** One name of the decoded access. *)
Ltac case_match_name :=
  match goal with |- context [String.eqb (MName ?m) ?n] => destruct (String.eqb_spec (MName m) n) as [Hname|]; [rewrite Hname in *|] end.

(** What the fusion decodes is the access of the instruction. *)
Lemma rev_access GP IC i (A := DecodeRevAccess i) :
  resolved GP IC i -> Valid A = true ->
  1 <= ASize A <= 3 /\ 0 <= ARt A < 32 /\ 0 <= ARn A < 32 /\ 0 <= ARm A < 32 /\
  forall g, guest_ok g -> arm_semantics i g = Some (arm_access (acc_op (ASize A) (IsLoad A)) (ASize A) (ARt A) (acc_address A g) g (acc_back A g)).
Proof.
  intros (_ & _ & Hm) HV. unfold A, DecodeRevAccess in *. clear A. unfold arm_semantics. destruct (Matcher i) as [m|]; [|done].
  destruct Hm as [_ Hrow]. set (W := Word i) in *. destruct (field_ranges W) as (Hs & Ho & Ht & Hn).
  destruct (_ || _) eqn:E1 in HV; [done|]. rewrite E1. cbv zeta in *. destruct (_ || _) eqn:E2 in HV; [done|]. rewrite E2.
  apply orb_false_iff in E2 as [[Hz Hsg]%orb_false_iff Hop].
  assert (Hacc := acc_fields _ _ Hs Ho Hsg). assert (Hop' : bool_decide (Op (DecodeSizeOpc (Bits W 31 30) (Bits W 23 22)) = Load) || bool_decide (Op (DecodeSizeOpc (Bits W 31 30) (Bits W 23 22)) = Store) = true)
    by (by destruct (bool_decide _), (bool_decide _)).
  specialize (Hacc Hop'). apply Z.eqb_neq in Hz. set (ld := bool_decide (_ = Load)) in *. clearbody ld.
  set (s := Bits W 31 30) in *.
  assert (Hs3 : 1 <= s <= 3) by lia. pose proof (Bits_range W 20 16 ltac:(lia)) as Hrm. change (2 ^ (20 - 16 + 1)) with 32 in Hrm.
  repeat case_match_name; cbn [orb] in *; try discriminate HV;
    [| | |destruct ((_ =? 3) && _) eqn:Hreg in HV; [rewrite Hreg|discriminate HV] ..];
    unfold acc_address, acc_back, acc_indexed; cbn [WriteBack PostIndex ARn ARm Disp ASize IsLoad ARt];
    (split; [exact Hs3|]; split; [exact Ht|]; split; [exact Hn|]; split; [lia|]; intros g Hg).
  - change (arm_of _) with (Some arm_uimm12). unfold arm_uimm12, ArmSpec.size, opc, Rt, Rn. fold s. rewrite Hacc.
    cbn [negb Z.eqb Pos.eqb]. by rewrite Z.shiftl_mul_pow2 by lia.
  - change (arm_of _) with (Some arm_imm9). unfold arm_imm9, ArmSpec.size, opc, Rt, Rn. fold s. rewrite Hacc, (mode_unscaled W (row_fits_all _ _ Hrow eq_refl)), offset9. by destruct ld.
  - change (arm_of _) with (Some arm_imm9). unfold arm_imm9, ArmSpec.size, opc, Rt, Rn. fold s. rewrite Hacc, offset9.
    destruct (mode_indexed W (row_fits_all _ _ Hrow eq_refl)) as [-> | ->]; by destruct ld.
  - change (arm_of _) with (Some arm_register_offset). by apply register_access.
  - change (arm_of _) with (Some arm_register_offset). by apply register_access.
Qed.

(** The reversal is one of a container as wide as the access. *)
Lemma rev_of_width GP IC j s :
  resolved GP IC j -> RevOfWidth j s = true -> 1 <= s <= 3 -> exists N sem, 8 * Z.of_nat (bytes_of s) <= N <= 64 /\
    (forall g, arm_semantics j g = Some (wX g (Bits (Word j) 4 0) (reverse_bytes (8 * Z.of_nat (bytes_of s)) N (X N g (Bits (Word j) 9 5))))) /\
    implements (if is_rev16 j then REV16_int else REV) sem /\ forall g, arm_semantics j g = sem (IPC j) (Word j) g.
Proof.
  intros _ HR Hs. unfold RevOfWidth, arm_semantics, is_rev16 in *. destruct (Matcher j) as [m|]; [|done]. set (W := Word j) in *.
  destruct (String.eqb_spec (MName m) "REV16_int") as [->|].
  - apply Z.eqb_eq in HR as ->. exists (datasize W), (arm_unary (reverse_bytes 16)). change (8 * Z.of_nat (bytes_of 1)) with 16.
    split_and!; [destruct (datasize_cases W); lia..|done|apply reversals_impl|done].
  - destruct (String.eqb_spec (MName m) "REV") as [->|]; [|done]. destruct (eqb (Bit W 31) (Bit W 10)) eqn:E; [|done]. cbn [negb] in HR.
    apply Z.eqb_eq in HR. exists (datasize W), arm_REV. change (arm_of "REV") with (Some arm_REV). cbv beta iota. unfold arm_REV. rewrite E.
    assert (HN : 8 * Z.of_nat (bytes_of s) = datasize W) by (unfold datasize; by destruct (Bit W 31); rewrite HR). rewrite HN.
    split_and!; [destruct (datasize_cases W); lia..|done|apply one_source_impl|done].
Qed.

Lemma valid_plain i : Valid (DecodeRevAccess i) = true -> branches i = false.
Proof.
  unfold DecodeRevAccess, branches. destruct (Matcher i) as [m|]; [|done]. destruct (_ || _); [done|]. cbv zeta. destruct (_ || _); [done|].
  repeat case_match_name; done.
Qed.

Lemma rev_plain j s : RevOfWidth j s = true -> branches j = false.
Proof. unfold RevOfWidth, branches. destruct (Matcher j) as [m|]; [|done]. repeat case_match_name; done. Qed.

(** ** The two instructions together *)

Lemma acc_back_ok A g g' : guest_ok g' -> 0 <= ARn A < 32 -> guest_ok (acc_back A g g').
Proof.
  intros Hg Hn. unfold acc_back. destruct (WriteBack A); [|done]. apply set_reg_ok; [done|]. unfold acc_indexed. apply wrap_range. lia.
Qed.

Lemma wX_ok g n v : guest_ok g -> in_width 64 v -> guest_ok (wX g n v).
Proof. intros Hg Hv. unfold wX. destruct (n =? 31); [done|by apply set_reg_ok]. Qed.

Lemma reverse_bytes_range c N x : 0 < N -> in_width N (reverse_bytes c N x).
Proof. intros HN. unfold reverse_bytes. replace N with (Z.of_nat (Z.to_nat N)) at 1 by lia. apply of_bits_range. Qed.

(** A reversed value stored is the reversed bytes. *)
Lemma stored_reverse g t N n pc m :
  guest_ok g -> 0 <= t < 31 -> (0 < n)%nat -> 8 * Z.of_nat n <= N <= 64 ->
  to_le n (rX (set_marker (wX g t (reverse_bytes (8 * Z.of_nat n) N (X N g m))) pc) t) = rev (to_le n (rX g m)).
Proof.
  intros Hg Ht Hn HN. set (y := reverse_bytes _ _ _). assert (Hy : in_width 64 y) by (eapply in_width_mono; [apply reverse_bytes_range; lia|lia|lia]).
  assert (Hr : rX (set_marker (wX g t y) pc) t = y).
  { pose proof (wX_read 64 g t y Hg Ht Hy) as H. unfold X in H. rewrite wrap_small in H; [done|]. by apply rX_width, wX_ok. }
  rewrite Hr. unfold y. rewrite to_le_reverse by lia. f_equal. unfold X. rewrite <- (to_le_wrap n (wrap N _)), <- (to_le_wrap n (rX g m)). f_equal.
  unfold wrap. apply Z.mod_mod_divide. exists (2 ^ (N - 8 * Z.of_nat n)). rewrite <- Z.pow_add_r by lia. f_equal. lia.
Qed.

(** A loaded value reversed in place is the reversed bytes. *)
Lemma load_then_reverse h t l n N pc :
  guest_ok h -> 0 <= t < 31 -> Forall (in_width 8) l -> length l = n -> (0 < n)%nat -> 8 * Z.of_nat n <= N ->
  let g1 := set_marker (wX h t (from_le l)) pc in
  wX g1 t (reverse_bytes (8 * Z.of_nat n) N (X N g1 t)) = set_marker (wX h t (from_le (rev l))) pc.
Proof.
  intros Hh Ht Hl Hlen Hn HN g1. unfold g1. rewrite <- wX_marker, wX_read, wX_wX, wX_marker, reverse_from_le; [done|done|done|done|done|done|done|].
  pose proof (from_le_width _ Hl) as [H0 H1]. rewrite Hlen in H1. split; [done|]. eapply Z.lt_le_trans; [exact H1|]. apply Z.pow_le_mono_r; lia.
Qed.

Section Fuse.
Context (junk : nat -> Z) (entry : Z) (s0 : Machine).

Lemma wp_and {A} pc (m : M A) e g (P Q : A -> list Z -> Guest -> Prop) :
  wp junk entry pc s0 m e g P -> wp junk entry pc s0 m e g Q -> wp junk entry pc s0 m e g (fun a e' g' => P a e' g' /\ Q a e' g').
Proof.
  intros H1 H2 b Hb. destruct (H1 b Hb) as (e1 & g1 & I1 & HP), (H2 b Hb) as (e2 & g2 & I2 & HQ). exists e1, g1. split_and!; [done|done|].
  pose proof (inv_exec _ _ _ _ _ _ _ I1) as X1. by rewrite (inv_exec _ _ _ _ _ _ _ I2) in X1; injection X1 as -> ->.
Qed.

Abbreviation wp := (wp junk entry).
Abbreviation wps := (wps junk entry s0).

Lemma wp_rev_address pc A r e g (Q : Ref * Ref -> list Z -> Guest -> Prop) :
  0 <= ARm A < 32 -> hasw e i64Bit r (rXSP g (ARn A)) ->
  (forall p e', sub e e' -> hasw e' i64Bit p.1 (acc_address A g) -> (WriteBack A = true -> hasw e' i64Bit p.2 (acc_indexed A g)) -> Q p e' g) ->
  wp pc s0 (rev_address A r) e g Q.
Proof.
  intros Hm Hr HQ. unfold rev_address, acc_address in *.
  assert (Hoff : forall (k : Ref -> M (Ref * Ref)), (forall x e', sub e e' -> hasw e' i64Bit x (acc_indexed A g) -> wp pc s0 (k x) e' g Q) ->
    wp pc s0 (x <- (if negb (Disp A =? 0) then c <- Constant (Disp A) ;; emit (OBin IR.Add i64Bit r c) else ret r) ;; k x) e g Q).
  { intros k Hk. apply wp_bind. eapply wp_offsetted; [exact Hr|intros H; by destruct (Z.eqb_spec (Disp A) 0)|exact Hk]. }
  destruct (WriteBack A).
  - apply Hoff. intros x e' S Hx. apply wp_ret, HQ; [done| |intros _; exact Hx]. destruct (PostIndex A); [by eapply hasw_mono|done].
  - destruct (negb (ARm A =? 31)).
    + wp_step. apply wp_loadX; [done|]. intros m e1 S1 Hv. apply wp_bind. eapply wp_bin; [by eapply hasw_mono|exact Hv|].
      intros x e2 S2 Hx. apply wp_ret, HQ; [by etrans|exact Hx|done].
    + apply Hoff. intros x e' S Hx. by apply wp_ret, HQ.
Qed.

(** The base register written back, or nothing. *)
Lemma wps_back {A} pc B r (k : M A) e g g' v g2 :
  0 <= ARn B < 32 -> (WriteBack B = true -> hasw e i64Bit r (acc_indexed B g)) ->
  (forall e', sub e e' -> wps pc k e' (acc_back B g g') v g2) ->
  wps pc ((if WriteBack B then StoreXSP (ARn B) r else ret tt) ;;; k) e g' v g2.
Proof.
  intros Hn Hr Hk. unfold acc_back in Hk. apply wps_bind. destruct (WriteBack B); [|by apply wp_ret, Hk].
  eapply wp_store_slot; [lia|by apply Hr|done].
Qed.

Lemma fuse_load_ok GP IC pc b e g i j (A := DecodeRevAccess i) (gm := set_marker g (IPC i)) :
  inv junk entry pc s0 b e gm -> resolved GP IC i -> resolved GP IC j ->
  Valid A = true -> IsLoad A = true -> ARt A <> 31 -> RevOfWidth j (ASize A) = true ->
  Bits (Word j) 9 5 = ARt A -> Bits (Word j) 4 0 = ARt A ->
  (fuse_load_rev i j A b).1 = 2%nat /\ ends junk entry s0 (fuse_load_rev i j A b) (arm_run [i; j] g).
Proof.
  intros Hb Hi Hj HV HL Ht HR Hn Hd. destruct (rev_access GP IC i Hi HV) as (Hs & Htr & Hnr & Hmr & Hsem). fold A in Hs, Htr, Hnr, Hmr, Hsem.
  destruct (rev_of_width GP IC j _ Hj HR Hs) as (N & _ & HN & Hrev & _). rewrite Hn, Hd in Hrev.
  pose proof (inv_guest _ _ _ _ _ _ _ Hb) as Hg. destruct (bytes_of_range (ASize A) ltac:(lia)) as [Hn8 Hn2].
  assert (0 < 2 ^ ASize A) by (apply Z.pow_pos_nonneg; lia). set (n := bytes_of (ASize A)) in *. set (a := acc_address A gm).
  set (l := read_bytes n a (Mem gm)). destruct (read_bytes_range n a (Mem gm)) as [Hll Hlb]. fold l in Hll, Hlb. set (h := acc_back A gm gm).
  assert (Hrun : arm_run [i; j] g = if readable n a (Mem gm) then set_marker (wX h (ARt A) (from_le (rev l))) (IPC j) else set_stop gm (SFault false a)).
  { destruct (acc_back_ok A gm gm Hg Hnr) as (Hh1 & Hh2 & Hh3). fold h in Hh1, Hh2, Hh3.
    assert (Hi1 : arm_semantics i gm = Some (if readable n a (Mem gm) then wX h (ARt A) (from_le l) else set_stop gm (SFault false a))).
    { rewrite Hsem, HL by done. cbn [acc_op arm_access]. unfold MemRead, extend_data. rewrite <- bytes_of_pow by lia. done. }
    destruct (readable n a (Mem gm)).
    - apply (arm_run_two i j g _ _ Hg Hi1); [by rewrite wX_stop|]. rewrite Hrev. f_equal. apply load_then_reverse; done || lia.
    - cbn [arm_run]. unfold arm_step. cbv zeta. fold gm. by rewrite Hi1. }
  unfold fuse_load_rev. rewrite (inv_entry _ _ _ _ _ _ _ Hb). fold n. cbv zeta.
  revert b Hb. change (wps pc (SetCurrentPC (IPC i) ;;; Base <- LoadXSP (ARn A) ;; p <- rev_address A Base ;;
    Value <- emit (OLoadMemRev n p.1) ;; (if WriteBack A then StoreXSP (ARn A) p.2 else ret tt) ;;; StoreX (ARt A) Value ;;;
    emit (OGuestOpcode (IPC j - entry)) ;;; ret 2%nat) e gm 2%nat (arm_run [i; j] g)). rewrite Hrun.
  apply wps_setpc, wps_bind. apply wp_loadXSP; [done|]. intros r e1 S1 Hr. apply wps_bind. eapply wp_rev_address; [done|exact Hr|].
  intros p e2 S2 Hp1 Hp2. apply wps_bind_stop; [intros x; apply _|by intros x; repeat (apply returns_bind; intros ?)|].
  eapply wpf_loadmemrev; [exact Hp1|lia|]. cbv zeta. assert (Ha : u64 a = a) by (by apply (u64_reg e2 p.1)). rewrite ea_plain by exact Ha. fold a l.
  destruct (readable n a (Mem gm)); [|done]. intros v e3 S3 Hv. eapply wps_back; [done|by intros HW; eapply hasw_mono; [exact S3|apply Hp2]|].
  intros e4 S4. apply wps_bind. eapply wp_storeX; [done|by eapply hasw_mono|]. intros e5 S5.
  apply wps_marker; [apply Hj| |]; [|intros e6 _; apply wps_ret].
  apply wX_ok; [by apply acc_back_ok|]. by apply (hasw_range e3 i64Bit v).
Qed.

Lemma wp_rev_keeps (is16 : bool) pc W src x e g :
  hasw e i64Bit src x -> wp pc s0 ((if is16 then REV16_int else REV) W) e g (fun _ e' _ => hasw e' i64Bit src x).
Proof.
  intros Hs. destruct is16; [unfold REV16_int; by repeat wp_step|]. unfold REV, unary. destruct (negb _); by repeat wp_step.
Qed.

(** The store, of the register's value from before the reversal. *)
Lemma store_rest pc A n src x e g (a := acc_address A g) :
  0 <= ARn A < 32 -> 0 <= ARm A < 32 -> guest_ok g -> hasw e i64Bit src x ->
  wps pc (Base <- LoadXSP (ARn A) ;; p <- rev_address A Base ;; emit (OStoreMemRev n p.1 src) ;;;
    (if WriteBack A then StoreXSP (ARn A) p.2 else ret tt) ;;; ret 2%nat) e g 2%nat
    (if writable n a (Mem g) then acc_back A g (set_mem g (write_bytes (rev (to_le n x)) a (Mem g))) else set_stop g (SFault true a)).
Proof.
  intros Hn Hm Hg Hsrc. apply wps_bind. apply wp_loadXSP; [done|]. intros r e1 S1 Hr. apply wps_bind. eapply wp_rev_address; [done|exact Hr|].
  intros p e2 S2 Hp1 Hp2. apply wps_bind_stop; [intros y; apply _|by intros y; repeat (apply returns_bind; intros ?)|].
  assert (Hsrc2 : hasw e2 i64Bit src x) by (by eapply hasw_mono; [|eapply hasw_mono]).
  eapply wpf_storememrev; [exact Hsrc2|exact Hp1|]. cbv zeta. rewrite ea_plain by (by apply (u64_reg e2 p.1)). fold a.
  destruct (writable n a (Mem g)); [|done]. intros v e3 S3. eapply wps_back; [done|by intros HW; eapply hasw_mono; [exact S3|apply Hp2]|].
  intros e4 S4. apply wps_ret.
Qed.

Lemma fuse_store_ok GP IC pc b e g i j (A := DecodeRevAccess j) (gm := set_marker g (IPC i)) :
  inv junk entry pc s0 b e gm -> resolved GP IC i -> resolved GP IC j ->
  Valid A = true -> IsLoad A = false -> ARt A <> 31 -> RevOfWidth i (ASize A) = true -> Bits (Word i) 4 0 = ARt A ->
  (fuse_rev_store i j A (is_rev16 i) b).1 = 2%nat /\ ends junk entry s0 (fuse_rev_store i j A (is_rev16 i) b) (arm_run [i; j] g).
Proof.
  intros Hb Hi Hj HV HL Ht HR Hd. destruct (rev_access GP IC j Hj HV) as (Hs & Htr & Hnr & Hmr & Hsem). fold A in Hs, Htr, Hnr, Hmr, Hsem.
  destruct (rev_of_width GP IC i _ Hi HR Hs) as (N & sem & HN & Hrev & Himp & Heq). rewrite Hd in Hrev.
  pose proof (inv_guest _ _ _ _ _ _ _ Hb) as Hg. destruct (bytes_of_range (ASize A) ltac:(lia)) as [Hn8 Hn2].
  assert (0 < 2 ^ ASize A) by (apply Z.pow_pos_nonneg; lia). set (n := bytes_of (ASize A)) in *. set (x := rX gm (Bits (Word i) 9 5)).
  set (y := reverse_bytes (8 * Z.of_nat n) N (X N gm (Bits (Word i) 9 5))) in *. set (g1 := wX gm (ARt A) y). set (gj := set_marker g1 (IPC j)).
  set (a := acc_address A gj). assert (Hy : in_width 64 y) by (eapply in_width_mono; [apply reverse_bytes_range; lia|lia|lia]).
  assert (Hg1 : guest_ok g1) by (by apply wX_ok). assert (Hgj : guest_ok gj) by exact Hg1.
  assert (Hst : to_le n (rX gj (ARt A)) = rev (to_le n x)) by (apply stored_reverse; done || lia).
  assert (Hrun : arm_run [i; j] g = if writable n a (Mem gj) then acc_back A gj (set_mem gj (write_bytes (rev (to_le n x)) a (Mem gj))) else set_stop gj (SFault true a)).
  { apply (arm_run_two i j g g1 _ Hg); [apply Hrev|apply Hg1|]. fold gj. rewrite Hsem, HL by done. cbn [acc_op arm_access]. unfold MemWrite.
    rewrite <- bytes_of_pow by lia. fold n a. by rewrite Hst. }
  unfold fuse_rev_store. rewrite (inv_entry _ _ _ _ _ _ _ Hb). fold n.
  revert b Hb. change (wps pc (SetCurrentPC (IPC i) ;;; Src <- LoadX (Bits (Word i) 9 5) ;;
    ok <- (if is_rev16 i then REV16_int (Word i) else REV (Word i)) ;; if negb ok then ret 0%nat else
    emit (OGuestOpcode (IPC j - entry)) ;;; SetCurrentPC (IPC j) ;;; Base <- LoadXSP (ARn A) ;; p <- rev_address A Base ;;
    emit (OStoreMemRev n p.1 Src) ;;; (if WriteBack A then StoreXSP (ARn A) p.2 else ret tt) ;;; ret 2%nat) e gm 2%nat (arm_run [i; j] g)). rewrite Hrun.
  apply wps_setpc, wps_bind. apply wp_loadX; [apply (Bits_range _ 9 5); lia|]. intros src e1 S1 Hsrc. fold x in Hsrc. apply wps_bind.
  destruct Hi as (Hpi & Hwi & _). pose proof (Himp junk entry (IPC i) s0 (Word i) e1 gm Hpi Hwi) as Hw. rewrite <- Heq, Hrev in Hw.
  pose proof (wp_rev_keeps (is_rev16 i) (IPC i) (Word i) src x e1 gm Hsrc) as Hk.
  assert (Hrest : forall e', hasw e' i64Bit src x -> wps (IPC i) (emit (OGuestOpcode (IPC j - entry)) ;;; SetCurrentPC (IPC j) ;;; Base <- LoadXSP (ARn A) ;;
    p <- rev_address A Base ;; emit (OStoreMemRev n p.1 src) ;;; (if WriteBack A then StoreXSP (ARn A) p.2 else ret tt) ;;; ret 2%nat) e' g1 2%nat
    (if writable n a (Mem gj) then acc_back A gj (set_mem gj (write_bytes (rev (to_le n x)) a (Mem gj))) else set_stop gj (SFault true a)))
    by (intros e' He'; apply wps_marker; [apply Hj|done|]; intros e2 S2; apply wps_setpc; apply store_rest; [lia..|done|by eapply hasw_mono]).
  destruct (is_rev16 i); (eapply wp_mono; [exact (wp_and _ _ _ _ _ _ Hw Hk)|]); intros ok e' g' ([-> ->] & Hs'); by apply Hrest.
Qed.

(** The fusion of the pair at the head of a block. *)
Lemma fuse_mem_rev GP IC pc b e g i l :
  inv junk entry pc s0 b e (set_marker g (IPC i)) -> Forall (resolved GP IC) (i :: l) ->
  fused junk entry s0 (i :: l) b g (TryFuseMemRev (i :: l) 0 b).
Proof.
  intros Hb Hl. unfold TryFuseMemRev. destruct (_ <? _)%nat; [by left|]. destruct l as [|j rest]; [by left|]. cbn [lookup list_lookup].
  apply Forall_cons in Hl as [Hi [Hj _]%Forall_cons]. cbv zeta.
  destruct (_ && _) eqn:E1.
  { apply andb_true_iff in E1 as [E1 Hd%Z.eqb_eq]. apply andb_true_iff in E1 as [E1 Hn%Z.eqb_eq]. apply andb_true_iff in E1 as [E1 HR].
    apply andb_true_iff in E1 as [E1 Ht%negb_true_iff%Z.eqb_neq]. apply andb_true_iff in E1 as [HV HL].
    destruct (fuse_load_ok GP IC pc b e g i j Hb Hi Hj HV HL Ht HR Hn Hd). apply valid_plain in HV. apply rev_plain in HR. right. by exists i, j, rest. }
  clear E1. match goal with |- context [if ?c then fuse_rev_store _ _ _ _ else _] => destruct c eqn:E2; [|by left] end.
  apply andb_true_iff in E2 as [E2 Hd%Z.eqb_eq]. apply andb_true_iff in E2 as [E2 HR].
  apply andb_true_iff in E2 as [E2 Ht%negb_true_iff%Z.eqb_neq]. apply andb_true_iff in E2 as [HV HL%negb_true_iff].
  destruct (fuse_store_ok GP IC pc b e g i j Hb Hi Hj HV HL Ht HR Hd). apply valid_plain in HV. apply rev_plain in HR. right. by exists i, j, rest.
Qed.

End Fuse.

(** C8. The fusions.  At the head of a block, whose first instruction is marked,
    a pair RBIT, CLZ, and a load with a byte reversal after it or a store with
    one before it, is translated as one, with the effect of the two instructions
    one after the other, faults and the marker of the second included; any other
    pair is left alone, with nothing emitted. *)
Theorem fusion_ok junk entry s0 GP IC pc b e g i l :
  inv junk entry pc s0 b e (set_marker g (IPC i)) -> Forall (resolved GP IC) (i :: l) ->
  fused junk entry s0 (i :: l) b g (TryFuseRbitClz (i :: l) 0 b) /\ fused junk entry s0 (i :: l) b g (TryFuseMemRev (i :: l) 0 b).
Proof. intros Hb Hl. split; [by eapply fuse_rbit_clz|by eapply fuse_mem_rev]. Qed.

(** rbit x9, x9; clz x9, x9, and ldr x10, [x9]; rev x10, x10. *)
Definition pair_inst (pc w : Z) (n : string) : DecodedInst := mkInst pc w (Some (mkMatcher n 0 0 (FindHandler (HandlerTable false false) n) 0)).
Definition ctz_pair : list DecodedInst := [pair_inst 0x10000 0xDAC00129 "RBIT_int"; pair_inst 0x10004 0xDAC01129 "CLZ_int"].
Definition rev_pair : list DecodedInst := [pair_inst 0x10000 0xF940012A "STRx_LDRx_imm_2"; pair_inst 0x10004 0xDAC00D4A "REV"].
Definition pair_guest : Guest := mkGuest (repeat 8 31 ++ [0x8000]) (mkNZCV false false false false) 0 (mkMemory (fun a => a mod 256) (fun _ => true) (fun _ => true)) 0x10000 None.
Definition pair_builder : Builder := mkBuilder [] 0x10000 0x10000 empty_cache 0 0 [] 0 false empty_unit.

Lemma pair_inv : inv (fun _ => 1) 0x10000 0x10000 (mkMachine [] pair_guest) pair_builder [] pair_guest.
Proof.
  assert (Hno : forall i x, GPRCache pair_builder !! i = Some (Some x) -> False)
    by (intros i x Hi; by apply list_elem_of_lookup_2, list_elem_of_In, (repeat_spec 31 None) in Hi).
  split; try done; [split_and!; [done|by apply Forall_in_widthb|done]|intros _ i v p Hi|intros i v p Hi]; by destruct (Hno i (v, p)).
Qed.

Definition pair_fits (i : DecodedInst) : bool :=
  match Matcher i with Some m => existsb (fun r => String.eqb r.1 (MName m) && (Z.land (Word i) (PMask (pattern r.2)) =? PExpect (pattern r.2))) A64Rows && (if Handler m then true else false) | None => false end.

Lemma pair_resolved pc w n : in_width 64 pc -> in_width 32 w -> pair_fits (pair_inst pc w n) = true -> resolved false false (pair_inst pc w n).
Proof.
  intros Hp Hw [Hr Hh]%andb_true_iff. split; [done|]. split; [done|]. cbn [Matcher pair_inst MName Handler] in *. split.
  - destruct (FindHandler _ n) as [h|]; [by exists h|done].
  - apply existsb_exists in Hr as ([m bits] & Hin & [Hn%String.eqb_eq Hf%Z.eqb_eq]%andb_true_iff). cbn in Hn, Hf. subst m. exists bits. split; [by apply list_elem_of_In|done].
Qed.

Lemma fusion_ok_witness :
  (exists r, r = TryFuseRbitClz ctz_pair 0 pair_builder /\ r.1 = 2%nat /\ fused (fun _ => 1) 0x10000 (mkMachine [] pair_guest) ctz_pair pair_builder pair_guest r) /\
  (exists r, r = TryFuseMemRev rev_pair 0 pair_builder /\ r.1 = 2%nat /\ fused (fun _ => 1) 0x10000 (mkMachine [] pair_guest) rev_pair pair_builder pair_guest r) /\
  reg (arm_run ctz_pair pair_guest) 9 = 3 /\ reg (arm_run rev_pair pair_guest) 10 = 0x08090A0B0C0D0E0F.
Proof.
  assert (H : forall i j, resolved false false i -> resolved false false j -> IPC i = 0x10000 ->
    fused (fun _ => 1) 0x10000 (mkMachine [] pair_guest) [i; j] pair_builder pair_guest (TryFuseRbitClz [i; j] 0 pair_builder) /\
    fused (fun _ => 1) 0x10000 (mkMachine [] pair_guest) [i; j] pair_builder pair_guest (TryFuseMemRev [i; j] 0 pair_builder)).
  { intros i j Hi Hj HP. apply (fusion_ok (fun _ => 1) 0x10000 (mkMachine [] pair_guest) false false 0x10000 pair_builder [] pair_guest i [j]).
    - rewrite HP. exact pair_inv.
    - constructor; [exact Hi|constructor; [exact Hj|constructor]]. }
  assert (R : forall w n pc, in_widthb 64 pc && in_widthb 32 w && pair_fits (pair_inst pc w n) = true -> resolved false false (pair_inst pc w n)).
  { intros w n pc [[Hp%in_widthb_spec Hw%in_widthb_spec]%andb_prop Hf]%andb_prop. exact (pair_resolved pc w n Hp Hw Hf). }
  split; [|split; [|split; vm_compute; reflexivity]].
  - eexists. split; [reflexivity|]. split; [vm_compute; reflexivity|]. refine (proj1 (H (pair_inst _ _ _) (pair_inst _ _ _) _ _ _)); [apply R; vm_compute; reflexivity..|reflexivity].
  - eexists. split; [reflexivity|]. split; [vm_compute; reflexivity|]. refine (proj2 (H (pair_inst _ _ _) (pair_inst _ _ _) _ _ _)); [apply R; vm_compute; reflexivity..|reflexivity].
Defined.
