(* ===== verification/PPC64.v ===== *)
(** The host instructions the backend uses to build constants and to mask:
    the load-immediate sequences of the emitter (CodeEmitter/PPC64LE/
    Emitter.h), the immediate predicates and the AND-mask classification
    (FEXCore/Source/Interface/IR/PPC64Immediates.h) and its lowering
    (FEXCore/Source/Interface/Core/JIT/PPC64LE/ALUOps.cpp). *)
From S2P Require Import Prelude.

(** ** The Power ISA instructions *)

(** [MASK(x, y)]: the big-endian bits from [x] to [y], cyclically. *)
Definition MASK (x y : Z) : Z :=
  of_bits 64 (fun i => let b := 63 - i in
    if x <=? y then (x <=? b) && (b <=? y) else (x <=? b) || (b <=? y)).
Definition ROTL64 (v n : Z) : Z := of_bits 64 (fun i => Z.testbit v ((i - n) mod 64)).
(** The low word, rotated, in both halves. *)
Definition ROTL32 (v n : Z) : Z := of_bits 64 (fun i => Z.testbit v ((i - n) mod 32)).

Notation GPR := nat (only parsing).

Inductive insn :=
  | li (rt : GPR) (si : Z)
  | lis (rt : GPR) (si : Z)
  | ori (ra rs : GPR) (ui : Z)
  | oris (ra rs : GPR) (ui : Z)
  | mr (ra rs : GPR)
  | rldicl (ra rs : GPR) (sh mb : Z)
  | rldicr (ra rs : GPR) (sh me : Z)
  | rldic (ra rs : GPR) (sh mb : Z)
  | rldimi (ra rs : GPR) (sh mb : Z)
  | rlwinm (ra rs : GPR) (sh mb me : Z).

Definition sldi (ra rs : GPR) (n : Z) : insn := rldicr ra rs n (63 - n).
Definition clrldi (ra rs : GPR) (n : Z) : insn := rldicl ra rs 0 n.

Definition regfile : Type := GPR -> Z.
Definition set (r : GPR) (v : Z) (s : regfile) : regfile := fun x => if Nat.eqb x r then v else s x.

Definition run (s : regfile) (i : insn) : regfile :=
  match i with
  | li rt si => set rt (u64 (sgn 16 si)) s
  | lis rt si => set rt (u64 (sgn 16 si * 65536)) s
  | ori ra rs ui => set ra (Z.lor (s rs) ui) s
  | oris ra rs ui => set ra (Z.lor (s rs) (Z.shiftl ui 16)) s
  | mr ra rs => set ra (s rs) s
  | rldicl ra rs sh mb => set ra (Z.land (ROTL64 (s rs) sh) (MASK mb 63)) s
  | rldicr ra rs sh me => set ra (Z.land (ROTL64 (s rs) sh) (MASK 0 me)) s
  | rldic ra rs sh mb => set ra (Z.land (ROTL64 (s rs) sh) (MASK mb (63 - sh))) s
  | rldimi ra rs sh mb =>
      set ra (Z.lor (Z.land (ROTL64 (s rs) sh) (MASK mb (63 - sh))) (Z.ldiff (s ra) (MASK mb (63 - sh)))) s
  | rlwinm ra rs sh mb me => set ra (Z.land (ROTL32 (s rs) sh) (MASK (mb + 32) (me + 32))) s
  end.

Definition runs (s : regfile) (l : list insn) : regfile := foldl run s l.

(** ** std::bit *)

(** Over an [n]-bit value. *)
Fixpoint popcount (n : nat) (x : Z) : Z :=
  match n with O => 0 | S n => popcount n x + b2z (Z.testbit x (Z.of_nat n)) end.
Fixpoint countl_zero (n : nat) (x : Z) : Z :=
  match n with O => 0 | S n => if Z.testbit x (Z.of_nat n) then 0 else 1 + countl_zero n x end.
Fixpoint countr_from (n : nat) (i x : Z) : Z :=
  match n with O => 0 | S n => if Z.testbit x i then 0 else 1 + countr_from n (i + 1) x end.
Definition countr_zero (n : nat) (x : Z) : Z := countr_from n 0 x.
Definition countr_one (n : nat) (x : Z) : Z := countr_zero n (Z.lnot x).

(** ** Load immediate *)

Definition LoadImm32 (rt : GPR) (imm : Z) : list insn :=
  let simm := sgn 32 imm in
  if (simm >=? -32768) && (simm <? 32768) then [li rt (u16 simm)]
  else lis rt (Z.shiftr imm 16) :: (if negb (Z.land imm 0xFFFF =? 0) then [ori rt rt (Z.land imm 0xFFFF)] else []).

(** [DisableShiftedImm32]: the kill switch. *)
Definition LoadImm64 (DisableShiftedImm32 : bool) (rt : GPR) (imm : Z) : list insn :=
  if imm =? 0 then [li rt 0]
  else if (imm <=? 0x7FFFFFFF) || (imm >=? 0xFFFFFFFF80000000) then LoadImm32 rt (u32 imm)
  else if imm <=? 0xFFFFFFFF then LoadImm32 rt (u32 imm) ++ [clrldi rt rt 32]
  else
    let tz := countr_zero 64 imm in
    let v := Z.shiftr (sgn 64 imm) tz in
    if (v >=? -32768) && (v <=? 32767) && (u64 (Z.shiftl (u64 v) tz) =? imm) then [li rt (u16 v); sldi rt rt tz]
    else if popcount 64 imm + countl_zero 64 imm + countr_zero 64 imm =? 64 then
      let lo := countr_zero 64 imm in
      let hi := 63 - countl_zero 64 imm in
      [li rt (u16 (-1)); rldic rt rt lo (63 - hi)]
    else
      let v := Z.shiftr imm tz in
      if negb DisableShiftedImm32 && ((tz >? 0) && (v <=? 0x7FFFFFFF)) then LoadImm32 rt (u32 v) ++ [sldi rt rt tz]
      else
        let hi := Z.shiftr imm 32 in
        let lo := u32 imm in
        (if negb (hi =? 0) then
           if hi <=? 0x7FFF then [li rt hi]
           else lis rt (Z.shiftr hi 16) :: (if negb (Z.land hi 0xFFFF =? 0) then [ori rt rt (Z.land hi 0xFFFF)] else [])
         else [li rt 0]) ++
        [sldi rt rt 32] ++
        (if negb (Z.shiftr lo 16 =? 0) then [oris rt rt (Z.shiftr lo 16)] else []) ++
        (if negb (Z.land lo 0xFFFF =? 0) then [ori rt rt (Z.land lo 0xFFFF)] else []).

Definition LoadImm64Fixed (rt : GPR) (imm : Z) : list insn :=
  let hi := Z.shiftr imm 32 in
  let lo := u32 imm in
  [lis rt (Z.shiftr hi 16); ori rt rt (Z.land hi 0xFFFF); sldi rt rt 32; oris rt rt (Z.shiftr lo 16); ori rt rt (Z.land lo 0xFFFF)].

(** ** The predicates *)

Definition IsSImm16 (X : Z) : bool := let V := sgn 64 X in (V >=? -32768) && (V <=? 32767).
Definition IsSImm32 (X : Z) : bool := let V := sgn 64 X in (V >=? - 2 ^ 31) && (V <=? 2 ^ 31 - 1).
Definition IsOneInsnConstant (X : Z) : bool := IsSImm16 X || (IsSImm32 X && (Z.land X 0xFFFF =? 0)).

Definition IsRun64 (V : Z) : bool := negb (V =? 0) && (popcount 64 V + countl_zero 64 V + countr_zero 64 V =? 64).
Definition IsRun32 (V : Z) : bool := negb (V =? 0) && (popcount 32 V + countl_zero 32 V + countr_zero 32 V =? 32).

Inductive AndMaskKind := None_ | Zero | Move | ClearLeft | ClearRight | Word | InsertZeroField | ClearBoth.
#[export] Instance AndMaskKind_eq_dec : EqDecision AndMaskKind.
Proof. solve_decision. Defined.

Record AndMaskForm := mkForm { Kind : AndMaskKind; MB : Z; ME : Z; SH : Z }.

Definition ClassifyAndMask64 (M : Z) (AllowWord : bool) : AndMaskForm :=
  if M =? 0 then mkForm Zero 0 0 0
  else if M =? 2 ^ 64 - 1 then mkForm Move 0 0 0
  else if Z.land M (u64 (M + 1)) =? 0 then
    let k := countr_one 64 M in mkForm ClearLeft (64 - k) 0 0
  else
    let NotM := u64 (Z.lnot M) in
    if Z.land NotM (u64 (NotM + 1)) =? 0 then
      let t := countr_one 64 NotM in mkForm ClearRight 0 (63 - t) 0
    else if AllowWord && (M <=? 0xFFFFFFFF) && IsRun32 (u32 M) then
      let W := u32 M in
      let lo := countr_zero 32 W in
      let hi := 31 - countl_zero 32 W in
      mkForm Word (31 - hi) (31 - lo) 0
    else
      let Zeros := u64 (Z.lnot M) in
      if IsRun64 Zeros then
        let lo := countr_zero 64 Zeros in
        let hi := 63 - countl_zero 64 Zeros in
        mkForm InsertZeroField (63 - hi) 0 lo
      else if IsRun64 M then
        let lo := countr_zero 64 M in
        let hi := 63 - countl_zero 64 M in
        mkForm ClearBoth (63 - hi) (63 - lo) 0
      else mkForm None_ 0 0 0.

Definition AndMaskCost (K : AndMaskKind) : Z :=
  match K with
  | None_ => 99
  | Zero | Move | ClearLeft | ClearRight | Word => 1
  | InsertZeroField | ClearBoth => 2
  end.

Definition ClassifyAndMask (M : Z) (Is32Bit : bool) : AndMaskForm :=
  if negb Is32Bit then ClassifyAndMask64 M false
  else
    let Clear := ClassifyAndMask64 (Z.land M 0xFFFFFFFF) true in
    let Keep := ClassifyAndMask64 (Z.lor M 0xFFFFFFFF00000000) false in
    if AndMaskCost (Kind Keep) <? AndMaskCost (Kind Clear) then Keep else Clear.

Definition IsAddSubImm (X : Z) : bool :=
  IsSImm16 X || (X <=? 0xFFFF) || (IsSImm32 X && (Z.land X 0xFFFF =? 0)).

(** The size is at least 32 bits. *)
Definition IsLargeAddSubImm (AtLeast32 : bool) (X : Z) : bool := IsOneInsnConstant X && AtLeast32.

Definition IsLogicalImm (Is32Bit : bool) (X : Z) : bool :=
  if (X <=? 0xFFFF) || (Z.land X 0xFFFF0000 =? X) || IsSImm16 X then true
  else negb (bool_decide (Kind (ClassifyAndMask X Is32Bit) = None_)).

(** ** Lowering an AND with a constant *)

(** [LogicalImmEnabled]: the kill switch. *)
Definition EmitAndMask (LogicalImmEnabled : bool) (Dst S1 : GPR) (Mask : Z) (Is32Bit : bool) : option (list insn) :=
  if negb LogicalImmEnabled then None
  else
    let Form := ClassifyAndMask Mask Is32Bit in
    let copy := if Nat.eqb Dst S1 then [] else [mr Dst S1] in
    match Kind Form with
    | None_ => None
    | Zero => Some [li Dst 0]
    | Move => Some copy
    | ClearLeft => Some [rldicl Dst S1 0 (MB Form)]
    | ClearRight => Some [rldicr Dst S1 0 (ME Form)]
    | Word => Some [rlwinm Dst S1 0 (MB Form) (ME Form)]
    | InsertZeroField => Some (copy ++ [rldimi Dst 0%nat (SH Form) (MB Form)])
    | ClearBoth => Some [rldicl Dst S1 0 (MB Form); rldicr Dst Dst 0 (ME Form)]
    end.

Definition SplitAddisAddi (V : Z) : option (Z * Z) :=
  let L := sgn 16 V in
  let H := Z.shiftr (V - L) 16 in
  if (H <? -32768) || (H >? 32767) then None else Some (H, L).

(** ** Encoding *)

Definition EmitX (op rs ra rb xo rc : Z) : Z :=
  u32 (Z.lor (Z.lor (Z.lor (Z.lor (Z.lor (Z.shiftl op 26) (Z.shiftl rs 21)) (Z.shiftl ra 16)) (Z.shiftl rb 11)) (Z.shiftl xo 1)) rc).
Definition EmitD (op rt ra d : Z) : Z := u32 (Z.lor (Z.lor (Z.lor (Z.shiftl op 26) (Z.shiftl rt 21)) (Z.shiftl ra 16)) d).
(** [None]: the guard on the field widths throws. *)
Definition EmitM (op rs ra sh mb me rc : Z) : option Z :=
  if negb (sh <? 32) then None
  else if negb (mb <? 32) then None
  else if negb (me <? 32) then None
  else Some (u32 (Z.lor (Z.lor (Z.lor (Z.lor (Z.lor (Z.lor (Z.shiftl op 26) (Z.shiftl rs 21)) (Z.shiftl ra 16)) (Z.shiftl sh 11)) (Z.shiftl mb 6)) (Z.shiftl me 1)) rc)).
Definition EmitMD (rs ra sh mb_or_me xo rc : Z) : Z :=
  let sh_low := Z.land sh 0x1F in
  let sh_high := Z.land (Z.shiftr sh 5) 1 in
  let mb_low := Z.land mb_or_me 0x1F in
  let mb_high := Z.land (Z.shiftr mb_or_me 5) 1 in
  u32 (Z.lor (Z.lor (Z.lor (Z.lor (Z.lor (Z.lor (Z.lor (Z.lor (Z.shiftl 30 26) (Z.shiftl rs 21)) (Z.shiftl ra 16)) (Z.shiftl sh_low 11))
    (Z.shiftl mb_low 6)) (Z.shiftl mb_high 5)) (Z.shiftl xo 2)) (Z.shiftl sh_high 1)) rc).

Definition idx (r : GPR) : Z := Z.of_nat r.

Definition addi_word (rt ra si : Z) : Z := EmitD 14 rt ra (u16 si).
Definition addis_word (rt ra si : Z) : Z := EmitD 15 rt ra (u16 si).
Definition ori_word (rs ra ui : Z) : Z := EmitD 24 rs ra ui.
Definition oris_word (rs ra ui : Z) : Z := EmitD 25 rs ra ui.
Definition mr_word (rs ra : Z) : Z := EmitX 31 rs ra rs 444 0.
Definition rlwinm_word (rs ra sh mb me : Z) : option Z := EmitM 21 rs ra sh mb me 0.

(** [li] and [lis] are [addi] and [addis] of register 0. *)
Definition encode (i : insn) : option Z :=
  match i with
  | li rt si => Some (addi_word (idx rt) 0 si)
  | lis rt si => Some (addis_word (idx rt) 0 si)
  | ori ra rs ui => Some (ori_word (idx rs) (idx ra) ui)
  | oris ra rs ui => Some (oris_word (idx rs) (idx ra) ui)
  | mr ra rs => Some (mr_word (idx rs) (idx ra))
  | rldicl ra rs sh mb => Some (EmitMD (idx rs) (idx ra) sh mb 0 0)
  | rldicr ra rs sh me => Some (EmitMD (idx rs) (idx ra) sh me 1 0)
  | rldic ra rs sh mb => Some (EmitMD (idx rs) (idx ra) sh mb 2 0)
  | rldimi ra rs sh mb => Some (EmitMD (idx rs) (idx ra) sh mb 3 0)
  | rlwinm ra rs sh mb me => rlwinm_word (idx rs) (idx ra) sh mb me
  end.
