(* ===== verification/PPC64Spec.v ===== *)
(** Correctness of the constant and mask sequences of [PPC64]. *)
From S2P Require Import Prelude PPC64.

(** ** Counting bits *)

Lemma countr_from_spec n i x (c := countr_from n i x) :
  0 <= c <= Z.of_nat n /\ (forall j, i <= j < i + c -> Z.testbit x j = false) /\
  (c < Z.of_nat n -> Z.testbit x (i + c) = true).
Proof.
  subst c. revert i. induction n as [|n IH]; intros i; cbn [countr_from]; [split_and!; lia|].
  destruct (Z.testbit x i) eqn:Hb; [rewrite Z.add_0_r; split_and!; [lia|lia|lia|done]|].
  destruct (IH (i + 1)) as (Hr & Hz & Ho). split_and!; [lia|lia| |].
  - intros j Hj. destruct (decide (j = i)) as [->|]; [done|]. apply Hz. lia.
  - intros Hc. replace (i + (1 + countr_from n (i + 1) x)) with (i + 1 + countr_from n (i + 1) x) by lia. apply Ho. lia.
Qed.

Lemma countl_zero_spec n x (c := countl_zero n x) :
  0 <= c <= Z.of_nat n /\ (forall j, Z.of_nat n - c <= j < Z.of_nat n -> Z.testbit x j = false) /\
  (c < Z.of_nat n -> Z.testbit x (Z.of_nat n - 1 - c) = true).
Proof.
  subst c. induction n as [|n IH]; cbn [countl_zero]; [split_and!; lia|].
  destruct (Z.testbit x (Z.of_nat n)) eqn:Hb.
  - split_and!; [lia|lia|lia|]. intros _. by replace (Z.of_nat (S n) - 1 - 0) with (Z.of_nat n) by lia.
  - destruct IH as (Hr & Hz & Ho). split_and!; [lia|lia| |].
    + intros j Hj. destruct (decide (j = Z.of_nat n)) as [->|]; [done|]. apply Hz. lia.
    + intros Hc. replace (Z.of_nat (S n) - 1 - (1 + countl_zero n x)) with (Z.of_nat n - 1 - countl_zero n x) by lia. apply Ho. lia.
Qed.

(** Sum of a predicate below [n]. *)
Fixpoint count (n : nat) (g : Z -> bool) : Z :=
  match n with O => 0 | S n => count n g + b2z (g (Z.of_nat n)) end.

Lemma popcount_count n x : popcount n x = count n (Z.testbit x).
Proof. induction n as [|n IH]; cbn; [done|]. by rewrite IH. Qed.

Lemma count_le n f g : (forall j, 0 <= j < Z.of_nat n -> f j = true -> g j = true) -> count n f <= count n g.
Proof.
  induction n as [|n IH]; intros H; cbn [count]; [lia|]. specialize (IH ltac:(intros; apply H; [lia|done])).
  specialize (H (Z.of_nat n) ltac:(lia)). destruct (f (Z.of_nat n)), (g (Z.of_nat n)); cbn [b2z]; lia.
Qed.

Lemma count_nonneg n g : 0 <= count n g.
Proof. induction n as [|n IH]; cbn [count]; [lia|]. destruct (g _); cbn [b2z]; lia. Qed.

Lemma count_interval n lo hi :
  0 <= lo <= hi -> hi <= Z.of_nat n -> count n (fun j => (lo <=? j) && (j <? hi)) = hi - lo.
Proof.
  intros Hl. revert hi Hl. induction n as [|n IH]; intros hi Hl Hh; cbn [count]; [lia|].
  destruct (decide (hi = Z.of_nat (S n))) as [->|Hne].
  - destruct (decide (lo = Z.of_nat (S n))) as [Hlo|].
    + assert (Hz : count n (fun j => (lo <=? j) && (j <? Z.of_nat (S n))) <= count n (fun _ => false))
        by (apply count_le; intros j Hj; rewrite andb_true_iff, Z.leb_le; lia).
      assert (Hf : count n (fun _ => false) = 0) by (clear; induction n; cbn; lia).
      pose proof (count_nonneg n (fun j => (lo <=? j) && (j <? Z.of_nat (S n)))).
      rewrite (proj2 (Z.leb_gt lo (Z.of_nat n))) by lia. cbn [andb b2z]. lia.
    + rewrite (proj2 (Z.leb_le lo (Z.of_nat n))), (proj2 (Z.ltb_lt (Z.of_nat n) (Z.of_nat (S n)))) by lia. cbn [andb b2z].
      assert (count n (fun j => (lo <=? j) && (j <? Z.of_nat (S n))) = Z.of_nat n - lo).
      { rewrite <- (IH (Z.of_nat n)) by lia. apply Z.le_antisymm; apply count_le; intros j Hj; rewrite !andb_true_iff, !Z.leb_le, !Z.ltb_lt; lia. }
      lia.
  - rewrite IH by lia. rewrite (proj2 (Z.ltb_ge (Z.of_nat n) hi)) by lia. rewrite andb_false_r. cbn [b2z]. lia.
Qed.

Lemma count_remove n g j0 :
  0 <= j0 < Z.of_nat n -> g j0 = true -> count n (fun j => g j && negb (j =? j0)) = count n g - 1.
Proof.
  induction n as [|n IH]; intros Hj Hg; cbn [count]; [lia|]. destruct (decide (j0 = Z.of_nat n)) as [->|Hne].
  - rewrite Hg, Z.eqb_refl. cbn [negb andb b2z].
    assert (count n (fun j => g j && negb (j =? Z.of_nat n)) = count n g).
    { apply Z.le_antisymm; apply count_le; intros j Hjn; rewrite andb_true_iff, negb_true_iff, Z.eqb_neq; [tauto|].
      intros H; split; [done|lia]. }
    lia.
  - rewrite IH by (done || lia). rewrite (proj2 (Z.eqb_neq (Z.of_nat n) j0)) by lia. cbn [negb]. rewrite andb_true_r. lia.
Qed.

(** The identity behind [IsRun64]: the set bits are one run. *)
Lemma run_bits n x j :
  popcount n x + countl_zero n x + countr_zero n x = Z.of_nat n -> 0 <= j < Z.of_nat n ->
  Z.testbit x j = (countr_zero n x <=? j) && (j <? Z.of_nat n - countl_zero n x).
Proof.
  intros Hp Hj. unfold countr_zero in *. destruct (countr_from_spec n 0 x) as (Hr & Hrz & _), (countl_zero_spec n x) as (Hl & Hlz & _).
  set (lo := countr_from n 0 x) in *. set (hi := Z.of_nat n - countl_zero n x) in *.
  assert (Hin : forall k, 0 <= k < Z.of_nat n -> Z.testbit x k = true -> (lo <=? k) && (k <? hi) = true).
  { intros k Hk Hb. apply andb_true_iff. rewrite Z.leb_le, Z.ltb_lt. split; apply Z.nlt_ge || apply Z.nle_gt; intros Hc.
    - rewrite (Hrz k) in Hb by lia. done.
    - rewrite (Hlz k) in Hb by lia. done. }
  rewrite popcount_count in Hp.
  assert (Hle : lo <= hi).
  { pose proof (count_nonneg n (Z.testbit x)). lia. }
  destruct (Z.testbit x j) eqn:Hb; [by rewrite (Hin j Hj Hb)|].
  destruct ((lo <=? j) && (j <? hi)) eqn:Hg; [|done]. exfalso.
  assert (Hb2 : count n (Z.testbit x) <= count n (fun k => ((lo <=? k) && (k <? hi)) && negb (k =? j))).
  { apply count_le. intros k Hk Hbk. rewrite (Hin k Hk Hbk). cbn [andb]. apply negb_true_iff, Z.eqb_neq. intros ->. congruence. }
  rewrite count_remove, count_interval in Hb2 by (done || lia). lia.
Qed.

(** ** The instructions, bit by bit *)

Lemma testbit_MASK x y i :
  0 <= i < 64 -> x <= y -> Z.testbit (MASK x y) i = (63 - y <=? i) && (i <=? 63 - x).
Proof.
  intros Hi Hxy. unfold MASK. rewrite testbit_of_bits. change (Z.of_nat 64) with 64.
  rewrite (proj2 (Z.leb_le 0 i)), (proj2 (Z.ltb_lt i 64)), (proj2 (Z.leb_le x y)) by lia. cbn [andb].
  rewrite andb_comm. f_equal; apply eq_true_iff_eq; rewrite !Z.leb_le; lia.
Qed.

Lemma MASK_range x y : in_width 64 (MASK x y).
Proof. exact (of_bits_range 64 _). Qed.

Lemma testbit_ROTL64 v n i : 0 <= i < 64 -> Z.testbit (ROTL64 v n) i = Z.testbit v ((i - n) mod 64).
Proof.
  intros Hi. unfold ROTL64. rewrite testbit_of_bits. change (Z.of_nat 64) with 64.
  by rewrite (proj2 (Z.leb_le 0 i)), (proj2 (Z.ltb_lt i 64)) by lia.
Qed.

Lemma ROTL64_0 v : in_width 64 v -> ROTL64 v 0 = v.
Proof.
  intros Hv. apply (bits_ext 64); [lia|exact (of_bits_range 64 _)|done|]. intros i Hi.
  rewrite testbit_ROTL64 by lia. f_equal. rewrite Z.sub_0_r. apply Z.mod_small. lia.
Qed.

Lemma ROTL64_range v n : in_width 64 (ROTL64 v n).
Proof. exact (of_bits_range 64 _). Qed.

Lemma sldi_value v n : in_width 64 v -> 0 <= n < 64 -> Z.land (ROTL64 v n) (MASK 0 (63 - n)) = u64 (v * 2 ^ n).
Proof.
  intros Hv Hn. apply (bits_ext 64); [lia|apply in_width_land; [lia|apply ROTL64_range|apply MASK_range]|apply wrap_range; lia|].
  intros i Hi. unfold u64. rewrite Z.land_spec, testbit_ROTL64, testbit_MASK, testbit_wrap by lia.
  rewrite <- Z.shiftl_mul_pow2, Z.shiftl_spec by lia. rewrite (proj2 (Z.ltb_lt i 64)), (proj2 (Z.leb_le i (63 - 0))) by lia. cbn [andb].
  rewrite andb_true_r. destruct (Z.leb_spec (63 - (63 - n)) i).
  - rewrite andb_true_r, Z.mod_small by lia. done.
  - rewrite andb_false_r, Z.testbit_neg_r by lia. done.
Qed.

Lemma clear_left v n : in_width 64 v -> 0 <= n < 64 -> Z.land (ROTL64 v 0) (MASK n 63) = wrap (64 - n) v.
Proof.
  intros Hv Hn. rewrite ROTL64_0 by done. apply (bits_ext 64); [lia|by apply in_width_land; [lia|done|apply MASK_range]| |].
  { eapply in_width_mono; [apply wrap_range|..]; lia. }
  intros i Hi. rewrite Z.land_spec, testbit_MASK, testbit_wrap by lia. rewrite (proj2 (Z.leb_le (63 - 63) i)) by lia. cbn [andb].
  rewrite andb_comm. f_equal. apply eq_true_iff_eq. rewrite Z.leb_le, Z.ltb_lt. lia.
Qed.

(** ** Load immediate *)

(** [l] loads [v] into [rt] and changes nothing else. *)
Definition loads (l : list insn) (rt : GPR) (v : Z) : Prop :=
  forall s, runs s l rt = v /\ forall r, r <> rt -> runs s l r = s r.

Lemma set_eq r v s : set r v s r = v.
Proof. unfold set. by rewrite Nat.eqb_refl. Qed.

Lemma set_ne r v s x : x <> r -> set r v s x = s x.
Proof. intros H. unfold set. by rewrite (proj2 (Nat.eqb_neq x r)) by done. Qed.

Lemma loads_li rt si v : v = u64 (sgn 16 si) -> loads [li rt si] rt v.
Proof. intros -> s. cbn. split; [apply set_eq|]. intros r Hr. by apply set_ne. Qed.

Lemma loads_lis rt si : loads [lis rt si] rt (u64 (sgn 16 si * 65536)).
Proof. intros s. cbn. split; [apply set_eq|]. intros r Hr. by apply set_ne. Qed.

(** One more instruction on the same register. *)
Lemma loads_snoc l rt v i w :
  loads l rt v -> (forall s, s rt = v -> run s i = set rt w s) -> loads (l ++ [i]) rt w.
Proof.
  intros Hl Hi s. destruct (Hl s) as [Hv Ho]. unfold runs in *. rewrite foldl_app. cbn [foldl].
  rewrite Hi by done. split; [apply set_eq|]. intros r Hr. rewrite set_ne by done. by apply Ho.
Qed.

Lemma loads_ori l rt v ui : loads l rt v -> loads (l ++ [ori rt rt ui]) rt (Z.lor v ui).
Proof. intros Hl. eapply loads_snoc; [exact Hl|]. intros s Hs. cbn. by rewrite Hs. Qed.

Lemma loads_oris l rt v ui : loads l rt v -> loads (l ++ [oris rt rt ui]) rt (Z.lor v (Z.shiftl ui 16)).
Proof. intros Hl. eapply loads_snoc; [exact Hl|]. intros s Hs. cbn. by rewrite Hs. Qed.

Lemma loads_sldi l rt v n : loads l rt v -> in_width 64 v -> 0 <= n < 64 -> loads (l ++ [sldi rt rt n]) rt (u64 (v * 2 ^ n)).
Proof. intros Hl Hv Hn. eapply loads_snoc; [exact Hl|]. intros s Hs. unfold sldi; cbn [run]. rewrite Hs. by rewrite sldi_value. Qed.

Lemma loads_clrldi l rt v n : loads l rt v -> in_width 64 v -> 0 <= n < 64 -> loads (l ++ [clrldi rt rt n]) rt (wrap (64 - n) v).
Proof. intros Hl Hv Hn. eapply loads_snoc; [exact Hl|]. intros s Hs. unfold clrldi; cbn [run]. rewrite Hs. by rewrite clear_left. Qed.

(** [lis] and [ori] rebuild a 32-bit value, sign-extended. *)
Lemma halves_32 imm :
  in_width 32 imm -> Z.lor (u64 (sgn 16 (Z.shiftr imm 16) * 65536)) (Z.land imm 0xFFFF) = u64 (sgn 32 imm).
Proof.
  intros Him. change 0xFFFF with (Z.ones 16). rewrite land_wrap by lia.
  assert (Hlo : in_width 16 (wrap 16 imm)) by (apply wrap_range; lia).
  assert (E : sgn 32 imm = sgn 16 (Z.shiftr imm 16) * 65536 + wrap 16 imm).
  { rewrite Z.shiftr_div_pow2 by lia. change 65536 with (2 ^ 16). destruct Him as [H0 H1].
    pose proof (Z.div_mod imm (2 ^ 16) ltac:(lia)). unfold sgn, wrap. rewrite (Z.mod_small imm (2 ^ 32)) by lia.
    assert (0 <= imm / 2 ^ 16 < 2 ^ 16) by (split; [apply Z.div_pos; lia|apply Z.div_lt_upper_bound; lia]).
    rewrite (Z.mod_small (imm / 2 ^ 16)) by lia. pose proof (Z.mod_pos_bound imm (2 ^ 16)).
    destruct (Z.ltb_spec imm (2 ^ (32 - 1))), (Z.ltb_spec (imm / 2 ^ 16) (2 ^ (16 - 1))); lia. }
  rewrite E. apply Z.bits_inj'. intros i Hi. unfold u64. rewrite Z.lor_spec, !testbit_wrap by lia.
  assert (Hs : forall a, Z.testbit (a * 65536 + wrap 16 imm) i = if i <? 16 then Z.testbit imm i else Z.testbit a (i - 16)).
  { intros a. change 65536 with (2 ^ 16). rewrite Z.add_comm, <- lor_field_add by (done || lia).
    rewrite Z.lor_spec, Z.shiftl_spec, testbit_wrap by lia. destruct (Z.ltb_spec i 16).
    - rewrite (Z.testbit_neg_r a) by lia. apply orb_false_r.
    - done. }
  rewrite Hs. change 65536 with (2 ^ 16). rewrite <- Z.shiftl_mul_pow2, Z.shiftl_spec by lia.
  destruct (Z.ltb_spec i 16).
  - rewrite (proj2 (Z.ltb_lt i 64)), (Z.testbit_neg_r _ (i - 16)) by lia. done.
  - cbn [andb]. by rewrite orb_false_r.
Qed.

Lemma sgn16_small x : -32768 <= x < 32768 -> sgn 16 (u16 x) = x.
Proof. intros H. unfold u16. rewrite sgn_wrap by lia. apply sgn_id; lia. Qed.

(** [lis]+[ori] give the word whose sign-extension [LoadImm32] wants. *)
Lemma loads_word rt hi :
  in_width 32 hi ->
  loads (lis rt (Z.shiftr hi 16) :: (if negb (Z.land hi 0xFFFF =? 0) then [ori rt rt (Z.land hi 0xFFFF)] else [])) rt (u64 (sgn 32 hi)).
Proof.
  intros Hh. rewrite <- halves_32 by done. destruct (Z.eqb_spec (Z.land hi 0xFFFF) 0) as [E|E]; cbn [negb].
  - rewrite E, Z.lor_0_r. apply loads_lis.
  - apply (loads_ori [lis rt (Z.shiftr hi 16)]), loads_lis.
Qed.

Lemma load_imm32 rt imm : in_width 32 imm -> loads (LoadImm32 rt imm) rt (u64 (sgn 32 imm)).
Proof.
  intros Him. unfold LoadImm32. destruct ((sgn 32 imm >=? -32768) && (sgn 32 imm <? 32768)) eqn:Hs.
  - apply andb_true_iff in Hs as [H1 H2]. rewrite Z.geb_leb in H1. apply Z.leb_le in H1. apply Z.ltb_lt in H2.
    apply loads_li. by rewrite sgn16_small by lia.
  - by apply loads_word.
Qed.

Lemma wrap_mul_l w a b : 0 <= w -> wrap w (wrap w a * b) = wrap w (a * b).
Proof. intros Hw. unfold wrap. apply Z.mul_mod_idemp_l. apply Z.pow_nonzero; lia. Qed.

(** A value is its part above the trailing zeros, shifted back. *)
Lemma countr_zero_split x (tz := countr_zero 64 x) :
  in_width 64 x -> x <> 0 -> 0 <= tz < 64 /\ Z.shiftl (Z.shiftr x tz) tz = x.
Proof.
  intros Hx Hne. subst tz. unfold countr_zero. destruct (countr_from_spec 64 0 x) as (Hr & Hz & _). change (Z.of_nat 64) with 64 in *.
  set (c := countr_from 64 0 x) in *. assert (Hc : c < 64).
  { apply Z.nle_gt. intros Hc. apply Hne, (bits_ext 64); [lia|done|unfold in_width; lia|]. intros i Hi. rewrite Z.bits_0. apply Hz. lia. }
  split; [lia|]. apply Z.bits_inj'. intros i Hi. rewrite Z.shiftl_spec by lia. destruct (decide (i < c)).
  - rewrite Z.testbit_neg_r by lia. symmetry. apply Hz. lia.
  - rewrite Z.shiftr_spec by lia. f_equal. lia.
Qed.

Lemma sgn_shift w x k : 0 < w -> in_width w x -> 0 <= k -> wrap w (Z.shiftl (Z.shiftr x k) k) = wrap w (Z.shiftl (Z.shiftr (sgn w x) k) k).
Proof.
  intros Hw Hx Hk. apply (bits_ext w); [lia|apply wrap_range; lia|apply wrap_range; lia|]. intros i Hi.
  rewrite !testbit_wrap, !Z.shiftl_spec by lia. f_equal. destruct (decide (i < k)); [by rewrite !Z.testbit_neg_r by lia|].
  rewrite !Z.shiftr_spec by lia. rewrite <- (wrap_small w x Hx) at 1. rewrite <- wrap_sgn by lia.
  rewrite testbit_wrap by lia. rewrite (proj2 (Z.ltb_lt _ _)) by lia. done.
Qed.

(** A run of ones is all-ones rotated and masked. *)
Lemma rldic_run x :
  in_width 64 x -> x <> 0 -> popcount 64 x + countl_zero 64 x + countr_zero 64 x = 64 ->
  Z.land (ROTL64 (2 ^ 64 - 1) (countr_zero 64 x)) (MASK (63 - (63 - countl_zero 64 x)) (63 - countr_zero 64 x)) = x.
Proof.
  intros Hx Hne Hp. destruct (countr_zero_split x Hx Hne) as [Hlo _]. destruct (countl_zero_spec 64 x) as (Hhi & _).
  change (Z.of_nat 64) with 64 in Hhi. pose proof (fun j => run_bits 64 x j Hp) as Hb. change (Z.of_nat 64) with 64 in Hb.
  assert (Hle : countr_zero 64 x + countl_zero 64 x < 64).
  { apply Z.nle_gt. intros Hc. apply Hne, (bits_ext 64); [lia|done|unfold in_width; lia|]. intros i Hi.
    rewrite Hb, Z.bits_0 by lia. lia. }
  apply (bits_ext 64); [lia|apply in_width_land; [lia|apply ROTL64_range|apply MASK_range]|done|]. intros i Hi.
  rewrite Z.land_spec, testbit_ROTL64, testbit_MASK, Hb by lia. change (2 ^ 64 - 1) with (Z.ones 64).
  pose proof (Z.mod_pos_bound (i - countr_zero 64 x) 64). rewrite Z.ones_spec_low by lia. lia.
Qed.

Lemma sext_small imm : in_width 64 imm -> imm <= 0x7FFFFFFF \/ imm >= 0xFFFFFFFF80000000 -> u64 (sgn 32 (u32 imm)) = imm.
Proof.
  intros Hi Hs. unfold u32. rewrite sgn_wrap by lia. unfold in_width in Hi. destruct Hs.
  - rewrite sgn_id by lia. apply wrap_small. unfold in_width. lia.
  - assert (E : sgn 32 imm = imm - 2 ^ 64).
    { rewrite <- (sgn_id 32 (imm - 2 ^ 64)) by lia. unfold sgn.
      replace ((imm - 2 ^ 64) mod 2 ^ 32) with (imm mod 2 ^ 32); [done|].
      rewrite <- (Z.mod_add imm (- 2 ^ 32) (2 ^ 32)) by lia. f_equal. }
    rewrite E. unfold u64, wrap. rewrite <- (Z.mod_add _ 1) by lia. rewrite Z.mul_1_l, Z.sub_add. apply Z.mod_small. lia.
Qed.

Lemma shift_high v : u64 (v * 2 ^ 32) = wrap 32 v * 2 ^ 32.
Proof. unfold u64, wrap. change (2 ^ 64) with (2 ^ 32 * 2 ^ 32). by rewrite Z.mul_mod_distr_r by lia. Qed.

Lemma join_low imm :
  in_width 64 imm ->
  Z.lor (Z.lor (Z.shiftr imm 32 * 2 ^ 32) (Z.shiftl (Z.shiftr (u32 imm) 16) 16)) (Z.land (u32 imm) 0xFFFF) = imm.
Proof.
  intros Hi. change 0xFFFF with (Z.ones 16). rewrite <- Z.shiftl_mul_pow2 by lia. apply Z.bits_inj'. intros i Hi0. unfold u32.
  rewrite !Z.lor_spec, Z.land_spec, !Z.shiftl_spec, !Z.testbit_ones_nonneg, testbit_wrap by lia.
  destruct (decide (i < 16)) as [H|H].
  - rewrite (Z.testbit_neg_r _ (i - 32)), (Z.testbit_neg_r _ (i - 16)) by lia. rewrite !(proj2 (Z.ltb_lt i _)) by lia. cbn [orb andb]. apply andb_true_r.
  - rewrite (proj2 (Z.ltb_ge i 16)), andb_false_r, orb_false_r, (Z.shiftr_spec _ 16), testbit_wrap by lia. rewrite Z.sub_add.
    destruct (decide (i < 32)).
    + rewrite (Z.testbit_neg_r _ (i - 32)), (proj2 (Z.ltb_lt i 32)) by lia. done.
    + rewrite (proj2 (Z.ltb_ge i 32)), Z.shiftr_spec by lia. cbn [andb]. rewrite orb_false_r. f_equal. lia.
Qed.

(** The low half, each of its instructions left out when it would add nothing. *)
Lemma loads_low l rt imm :
  in_width 64 imm -> loads l rt (Z.shiftr imm 32 * 2 ^ 32) ->
  loads (l ++ (if negb (Z.shiftr (u32 imm) 16 =? 0) then [oris rt rt (Z.shiftr (u32 imm) 16)] else []) ++
         (if negb (Z.land (u32 imm) 0xFFFF =? 0) then [ori rt rt (Z.land (u32 imm) 0xFFFF)] else [])) rt imm.
Proof.
  intros Hi Hl. rewrite <- (join_low imm Hi) at 5. rewrite app_assoc.
  assert (H1 : loads (l ++ (if negb (Z.shiftr (u32 imm) 16 =? 0) then [oris rt rt (Z.shiftr (u32 imm) 16)] else [])) rt
                 (Z.lor (Z.shiftr imm 32 * 2 ^ 32) (Z.shiftl (Z.shiftr (u32 imm) 16) 16))).
  { destruct (Z.eqb_spec (Z.shiftr (u32 imm) 16) 0) as [E|E]; cbn [negb]; [|by apply loads_oris].
    by rewrite E, app_nil_r, Z.shiftl_0_l, Z.lor_0_r. }
  destruct (Z.eqb_spec (Z.land (u32 imm) 0xFFFF) 0) as [E|E]; cbn [negb]; [|by apply loads_ori].
  by rewrite E, app_nil_r, Z.lor_0_r.
Qed.

Lemma loads_high l rt v imm :
  in_width 64 imm -> in_width 64 v -> loads l rt v -> wrap 32 v = Z.shiftr imm 32 ->
  loads (l ++ [sldi rt rt 32]) rt (Z.shiftr imm 32 * 2 ^ 32).
Proof. intros Hi Hv Hl <-. rewrite <- shift_high. by apply loads_sldi. Qed.

Lemma high_word_range imm : in_width 64 imm -> in_width 32 (Z.shiftr imm 32).
Proof.
  unfold in_width. rewrite Z.shiftr_div_pow2 by lia. intros H.
  split; [apply Z.div_pos; lia|apply Z.div_lt_upper_bound; lia].
Qed.

Lemma word_of_sext v : in_width 32 v -> wrap 32 (u64 (sgn 32 v)) = v.
Proof.
  intros Hv. rewrite <- (wrap_small 32 v Hv) at 2. rewrite <- (wrap_sgn 32 v) by lia.
  apply (bits_ext 32); [lia|apply wrap_range; lia..|]. intros i Hi. unfold u64. rewrite !testbit_wrap by lia.
  by rewrite (proj2 (Z.ltb_lt i 32)), (proj2 (Z.ltb_lt i 64)) by lia.
Qed.

Lemma loads_general rt imm (hi := Z.shiftr imm 32) :
  in_width 64 imm ->
  loads ((if negb (hi =? 0) then
            if hi <=? 0x7FFF then [li rt hi]
            else lis rt (Z.shiftr hi 16) :: (if negb (Z.land hi 0xFFFF =? 0) then [ori rt rt (Z.land hi 0xFFFF)] else [])
          else [li rt 0]) ++ [sldi rt rt 32]) rt (hi * 2 ^ 32).
Proof.
  intros Hi. subst hi. pose proof (high_word_range imm Hi) as Hh.
  assert (Hsmall : Z.shiftr imm 32 <= 0x7FFF -> loads ([li rt (Z.shiftr imm 32)] ++ [sldi rt rt 32]) rt (Z.shiftr imm 32 * 2 ^ 32)).
  { unfold in_width in Hh. intros Hs. apply (loads_high _ _ (Z.shiftr imm 32)); [done|unfold in_width; lia| |by apply wrap_small].
    apply loads_li. rewrite sgn_id by lia. symmetry. apply wrap_small. unfold in_width; lia. }
  destruct (Z.eqb_spec (Z.shiftr imm 32) 0) as [E|E]; cbn [negb].
  - rewrite E in *. apply Hsmall. lia.
  - destruct (Z.leb_spec (Z.shiftr imm 32) 0x7FFF) as [Hs|Hs]; [by apply Hsmall|].
    eapply loads_high; [done| |by apply loads_word|by apply word_of_sext]. apply wrap_range; lia.
Qed.

Lemma loads_shifted rt imm v tz l :
  in_width 64 imm -> 0 <= tz < 64 -> loads l rt (u64 v) -> u64 (Z.shiftl v tz) = imm -> loads (l ++ [sldi rt rt tz]) rt imm.
Proof.
  intros Hi Htz Hl <-. unfold u64. rewrite Z.shiftl_mul_pow2, <- (wrap_mul_l 64 v) by lia.
  apply loads_sldi; [done|apply wrap_range; lia|done].
Qed.

(** Case analysis on the tests of a list of instructions, for its length. *)
Ltac length_cases :=
  repeat match goal with |- context [if ?b then _ else _] => destruct b end; rewrite ?length_app; cbn [length]; lia.

Lemma length_imm32 rt x : (1 <= length (LoadImm32 rt x) <= 2)%nat.
Proof. unfold LoadImm32. length_cases. Qed.

(** for every 64-bit immediate, with the shifted form enabled or disabled, the sequence of [LoadImm64] leaves the immediate in [rt], changes no other register and is at most five instructions long. *)
Lemma load_imm64_spec (Disable : bool) (rt : GPR) (imm : Z) :
  in_width 64 imm ->
  loads (LoadImm64 Disable rt imm) rt imm /\ (1 <= length (LoadImm64 Disable rt imm) <= 5)%nat.
Proof.
  intros Hi. unfold LoadImm64. pose proof (Z.eqb_spec imm 0) as H0. destruct (imm =? 0); inversion_clear H0 as [Hz|Hz].
  { subst. split; [by apply loads_li|cbn; lia]. }
  pose proof (length_imm32 rt) as Hl32.
  destruct ((imm <=? 0x7FFFFFFF) || (imm >=? 0xFFFFFFFF80000000)) eqn:Hs.
  { split; [|specialize (Hl32 (u32 imm)); lia]. rewrite <- (sext_small imm) at 2 by (done || lia). apply load_imm32, wrap_range. lia. }
  destruct (Z.leb_spec imm 0xFFFFFFFF) as [H32|H32].
  { split; [|rewrite length_app; specialize (Hl32 (u32 imm)); cbn; lia]. unfold in_width in Hi.
    assert (Hw : in_width 32 imm) by (unfold in_width; lia).
    rewrite <- (word_of_sext imm Hw) at 2. unfold u32. rewrite wrap_small by done. change 32 with (64 - 32) at 2.
    apply loads_clrldi; [by apply load_imm32|apply wrap_range; lia|lia]. }
  destruct (countr_zero_split imm Hi Hz) as [Htz Hsplit].
  case_if Hv.
  { apply andb_true_iff in Hv as [Hv He]. apply Z.eqb_eq in He. split; [|cbn; lia]. change [?a; ?b] with ([a] ++ [b]).
    apply (loads_shifted _ _ (u64 (Z.shiftr (sgn 64 imm) (countr_zero 64 imm)))); [done|done| |done].
    apply loads_li. rewrite sgn16_small by lia. unfold u64. by rewrite wrap_wrap by lia. }
  case_if Hrun.
  { apply Z.eqb_eq in Hrun. split; [|cbn; lia]. apply (loads_snoc [li rt (u16 (-1))] _ (2 ^ 64 - 1)); [by apply loads_li|].
    intros s Hs1. cbn [run]. rewrite Hs1. f_equal. by apply rldic_run. }
  case_if Hsh.
  { split; [|rewrite length_app; specialize (Hl32 (u32 (Z.shiftr imm (countr_zero 64 imm)))); cbn [length]; lia].
    apply (loads_shifted _ _ (Z.shiftr imm (countr_zero 64 imm))); [done|done| |unfold u64; rewrite Hsplit; by apply wrap_small].
    assert (0 <= Z.shiftr imm (countr_zero 64 imm)) by (apply Z.shiftr_nonneg, Hi).
    assert (Hw : u32 (Z.shiftr imm (countr_zero 64 imm)) = Z.shiftr imm (countr_zero 64 imm)) by (apply wrap_small; unfold in_width; lia).
    rewrite Hw. unfold u64. rewrite <- (sgn_id 32 (Z.shiftr imm (countr_zero 64 imm))) at 2 by lia. apply load_imm32. rewrite <- Hw. apply wrap_range. lia. }
  rewrite app_assoc. split; [apply loads_low; [done|by apply loads_general]|].
  length_cases.
Qed.

(** [LoadImm64Fixed] emits exactly five instructions whatever the value, and they load the value and change no other register. *)
Lemma load_imm64_fixed_spec (rt : GPR) (imm : Z) :
  in_width 64 imm -> loads (LoadImm64Fixed rt imm) rt imm /\ length (LoadImm64Fixed rt imm) = 5%nat.
Proof.
  intros Hi. split; [|done]. unfold LoadImm64Fixed. rewrite <- (join_low imm Hi) at 5.
  apply (loads_ori [_; _; _; _]), (loads_oris [_; _; _]). pose proof (high_word_range imm Hi) as Hh.
  apply (loads_high [_; _] _ (u64 (sgn 32 (Z.shiftr imm 32)))); [done|apply wrap_range; lia| |by apply word_of_sext].
  rewrite <- halves_32 by done. apply (loads_ori [_]), loads_lis.
Qed.

Lemma simm32_range imm : in_width 64 imm -> IsSImm32 imm = (imm <=? 0x7FFFFFFF) || (imm >=? 0xFFFFFFFF80000000).
Proof.
  intros Hi. unfold IsSImm32, sgn, in_width in *. rewrite Z.mod_small by lia. destruct (Z.ltb_spec imm (2 ^ (64 - 1))); lia.
Qed.

Lemma simm32_value imm : in_width 64 imm -> IsSImm32 imm = true -> sgn 32 (u32 imm) = sgn 64 imm.
Proof.
  intros Hi Hs. rewrite simm32_range in Hs by done. pose proof (sext_small imm Hi ltac:(lia)) as E.
  rewrite <- E at 2. unfold u64. rewrite (sgn_wrap 64) by lia. pose proof (sgn_range 32 (u32 imm)). rewrite (sgn_id 64); [done|lia|lia].
Qed.

(** The cost predicate is exact: a constant is classed as one instruction precisely when [LoadImm64] builds it in one. *)
Theorem one_insn_exact (Disable : bool) (rt : GPR) (imm : Z) :
  in_width 64 imm -> IsOneInsnConstant imm = true <-> length (LoadImm64 Disable rt imm) = 1%nat.
Proof.
  intros Hi. pose proof (length_imm32 rt (u32 imm)) as Hl. unfold IsOneInsnConstant, LoadImm64.
  destruct (Z.eqb_spec imm 0) as [->|H0]; [by vm_compute|]. rewrite <- simm32_range by done. destruct (IsSImm32 imm) eqn:Hs.
  - pose proof (simm32_value imm Hi Hs) as Hv. unfold LoadImm32. rewrite Hv. unfold IsSImm16.
    replace (Z.land (u32 imm) 0xFFFF) with (Z.land imm 0xFFFF).
    + destruct ((sgn 64 imm >=? -32768) && (sgn 64 imm <=? 32767)) eqn:H16.
      * replace ((sgn 64 imm >=? -32768) && (sgn 64 imm <? 32768)) with true by lia. done.
      * replace ((sgn 64 imm >=? -32768) && (sgn 64 imm <? 32768)) with false by lia. destruct (Z.land imm 0xFFFF =? 0); done.
    + apply Z.bits_inj'. intros i H. unfold u32. change 0xFFFF with (Z.ones 16).
      rewrite !Z.land_spec, testbit_wrap, !Z.testbit_ones_nonneg by lia. destruct (Z.ltb_spec i 16); [|by rewrite !andb_false_r].
      by rewrite (proj2 (Z.ltb_lt i 32)) by lia.
  - assert (H16 : IsSImm16 imm = false) by (unfold IsSImm16, IsSImm32 in *; lia). rewrite H16. cbn [orb andb]. split; [done|].
    rewrite ?length_app. pose proof (length_imm32 rt (u32 (Z.shiftr imm (countr_zero 64 imm)))). 
    repeat match goal with |- context [if ?b then _ else _] => destruct b end; rewrite ?length_app; cbn [length]; lia.
Qed.

(** ** AND masks *)

Definition not64 (M : Z) : Z := u64 (Z.lnot M).

Lemma testbit_not64 M i : 0 <= i < 64 -> Z.testbit (not64 M) i = negb (Z.testbit M i).
Proof. intros Hi. unfold not64, u64. rewrite testbit_wrap, Z.lnot_spec by lia. by rewrite (proj2 (Z.ltb_lt i 64)) by lia. Qed.

Lemma not64_range M : in_width 64 (not64 M).
Proof. apply wrap_range. lia. Qed.

Lemma not64_all M : in_width 64 M -> not64 M = 2 ^ 64 - 1 -> M = 0.
Proof.
  intros HM H. apply (bits_ext 64); [lia|done|unfold in_width; lia|]. intros i Hi. rewrite Z.bits_0.
  apply negb_true_iff. rewrite <- testbit_not64, H by lia. change (2 ^ 64 - 1) with (Z.ones 64). by apply Z.ones_spec_low.
Qed.

(** The set bits of [M] are those from [lo] to [hi]. *)
Definition is_run (M lo hi : Z) : Prop :=
  0 <= lo <= hi /\ hi < 64 /\ forall i, 0 <= i < 64 -> Z.testbit M i = (lo <=? i) && (i <=? hi).

Lemma countr_one_spec M (k := countr_one 64 M) :
  in_width 64 M -> M <> 2 ^ 64 - 1 ->
  0 <= k < 64 /\ (forall j, 0 <= j < k -> Z.testbit M j = true) /\ Z.testbit M k = false.
Proof.
  intros HM Hne. subst k. unfold countr_one, countr_zero. destruct (countr_from_spec 64 0 (Z.lnot M)) as (Hr & Hz & Ho).
  set (k := countr_from 64 0 (Z.lnot M)) in *. change (Z.of_nat 64) with 64 in *.
  assert (Hones : forall j, 0 <= j < k -> Z.testbit M j = true).
  { intros j Hj. specialize (Hz j ltac:(lia)). rewrite Z.lnot_spec in Hz by lia. by apply negb_false_iff. }
  assert (Hk : k < 64).
  { apply Z.nle_gt. intros Hk. apply Hne, (bits_ext 64); [lia|done|unfold in_width; lia|]. intros i Hi.
    change (2 ^ 64 - 1) with (Z.ones 64). rewrite Z.ones_spec_low by lia. apply Hones. lia. }
  split_and!; [lia|lia|done|]. specialize (Ho Hk). rewrite Z.lnot_spec in Ho by lia. by apply negb_true_iff.
Qed.

(** Adding one to a value whose first clear bit is [k] leaves the bits above [k] alone. *)
Lemma succ_above M k i :
  0 <= k < i -> (forall j, 0 <= j < k -> Z.testbit M j = true) -> Z.testbit M k = false ->
  Z.testbit (M + 1) i = Z.testbit M i.
Proof.
  intros Hki Hones Hk.
  assert (Hlow : M mod 2 ^ k = Z.ones k).
  { apply Z.bits_inj'. intros j Hj. fold (wrap k M). rewrite testbit_wrap, Z.testbit_ones_nonneg by lia.
    destruct (Z.ltb_spec j k); [|done]. by rewrite Hones by lia. }
  pose proof (Z.div_mod M (2 ^ k) ltac:(apply Z.pow_nonzero; lia)) as E. rewrite Hlow, Z.ones_equiv in E.
  assert (E1 : M + 1 = Z.shiftl (Z.shiftr M k + 1) k) by (rewrite Z.shiftl_mul_pow2, Z.shiftr_div_pow2 by lia; lia).
  rewrite E1, Z.shiftl_spec by lia. replace i with (i - k + k) at 2 by lia. rewrite <- Z.shiftr_spec by lia.
  assert (H0 : Z.testbit (Z.shiftr M k) 0 = false) by (rewrite Z.shiftr_spec by lia; by rewrite Z.add_0_l).
  set (q := Z.shiftr M k) in *. rewrite (Z.div2_odd q). rewrite <- Z.bit0_odd, H0. cbn [Z.b2z]. rewrite Z.add_0_r.
  replace (i - k) with (Z.succ (i - k - 1)) by lia. rewrite Z.testbit_odd_succ, Z.testbit_even_succ by lia. done.
Qed.

Lemma low_run M :
  in_width 64 M -> M <> 0 -> M <> 2 ^ 64 - 1 -> Z.land M (u64 (M + 1)) = 0 ->
  is_run M 0 (countr_one 64 M - 1).
Proof.
  intros HM H0 H1 Hl. destruct (countr_one_spec M HM H1) as (Hk & Hones & Hz). set (k := countr_one 64 M) in *.
  assert (Habove : forall i, k < i < 64 -> Z.testbit M i = false).
  { intros i Hi. destruct (Z.testbit M i) eqn:Hb; [|done]. exfalso. assert (Hc : Z.testbit (Z.land M (u64 (M + 1))) i = true).
    - unfold u64. rewrite Z.land_spec, testbit_wrap, (succ_above M k), Hb by (done || lia). by rewrite (proj2 (Z.ltb_lt i 64)) by lia.
    - by rewrite Hl, Z.bits_0 in Hc. }
  assert (Hb : forall i, 0 <= i < 64 -> Z.testbit M i = (i <? k)).
  { intros i Hi. destruct (Z.ltb_spec i k); [apply Hones; lia|]. destruct (decide (i = k)) as [->|]; [done|]. apply Habove. lia. }
  assert (0 < k). { apply Z.nle_gt. intros Hk0. apply H0, (bits_ext 64); [lia|done|unfold in_width; lia|]. intros i Hi. rewrite Hb, Z.bits_0 by lia. lia. }
  split_and!; [lia|lia|lia|]. intros i Hi. rewrite Hb by lia. lia.
Qed.

Lemma IsRun64_run V :
  in_width 64 V -> IsRun64 V = true -> is_run V (countr_zero 64 V) (63 - countl_zero 64 V).
Proof.
  intros HV Hr. unfold IsRun64 in Hr. apply andb_true_iff in Hr as [H0 Hp]. apply Z.eqb_eq in Hp. apply negb_true_iff, Z.eqb_neq in H0.
  destruct (countr_zero_split V HV H0) as [Hlo _]. destruct (countl_zero_spec 64 V) as (Hhi & _).
  pose proof (fun j => run_bits 64 V j Hp) as Hb. change (Z.of_nat 64) with 64 in *.
  assert (Hle : countr_zero 64 V + countl_zero 64 V < 64).
  { apply Z.nle_gt. intros Hc. apply H0, (bits_ext 64); [lia|done|unfold in_width; lia|]. intros i Hi. rewrite Hb, Z.bits_0 by lia. lia. }
  split_and!; [lia|lia|lia|]. intros i Hi. rewrite Hb by lia. f_equal. lia.
Qed.

Lemma run_counts V lo hi : is_run V lo hi -> countr_zero 64 V = lo /\ countl_zero 64 V = 63 - hi /\ popcount 64 V = hi - lo + 1.
Proof.
  intros (Hl & Hh & Hb). unfold countr_zero. destruct (countr_from_spec 64 0 V) as (Hr & Hrz & Hro), (countl_zero_spec 64 V) as (Hc & Hcz & Hco).
  change (Z.of_nat 64) with 64 in *. split_and!.
  - set (c := countr_from 64 0 V) in *. destruct (Z.lt_trichotomy c lo) as [H|[H|H]]; [|done|].
    + specialize (Hro ltac:(lia)). rewrite Hb in Hro by lia. lia.
    + specialize (Hrz lo ltac:(lia)). rewrite Hb in Hrz by lia. lia.
  - set (c := countl_zero 64 V) in *. destruct (Z.lt_trichotomy c (63 - hi)) as [H|[H|H]]; [|done|].
    + specialize (Hco ltac:(lia)). rewrite Hb in Hco by lia. lia.
    + specialize (Hcz hi ltac:(lia)). rewrite Hb in Hcz by lia. lia.
  - rewrite popcount_count. replace (hi - lo + 1) with ((hi + 1) - lo) by lia. rewrite <- (count_interval 64) by lia.
    apply Z.le_antisymm; apply count_le; intros j Hj; change (Z.of_nat 64) with 64 in Hj; rewrite Hb by lia; lia.
Qed.

Lemma run_IsRun64 V lo hi : is_run V lo hi -> IsRun64 V = true.
Proof.
  intros Hr. destruct (run_counts V lo hi Hr) as (E1 & E2 & E3). unfold IsRun64. rewrite E1, E2, E3. destruct Hr as (Hl & Hh & Hb).
  apply andb_true_iff. split; [|lia]. apply negb_true_iff, Z.eqb_neq. intros ->. specialize (Hb lo ltac:(lia)). rewrite Z.bits_0 in Hb. lia.
Qed.

Lemma IsRun32_run V :
  in_width 32 V -> IsRun32 V = true -> is_run V (countr_zero 32 V) (31 - countl_zero 32 V) /\ 31 - countl_zero 32 V <= 31.
Proof.
  intros HV Hr. unfold IsRun32 in Hr. apply andb_true_iff in Hr as [H0 Hp]. apply Z.eqb_eq in Hp. apply negb_true_iff, Z.eqb_neq in H0.
  unfold countr_zero in *. destruct (countr_from_spec 32 0 V) as (Hlo & _), (countl_zero_spec 32 V) as (Hhi & _).
  pose proof (fun j => run_bits 32 V j Hp) as Hb. unfold countr_zero in Hb. change (Z.of_nat 32) with 32 in *.
  set (lo := countr_from 32 0 V) in *. set (c := countl_zero 32 V) in *.
  assert (Hle : lo + c < 32).
  { apply Z.nle_gt. intros Hc. apply H0, (bits_ext 32); [lia|done|unfold in_width; lia|]. intros i Hi. rewrite Hb, Z.bits_0 by lia. lia. }
  split_and!; [|lia]. split_and!; [lia|lia|lia|]. intros i Hi. destruct (decide (i < 32)).
  - rewrite Hb by lia. f_equal. lia.
  - rewrite (testbit_above 32) by (done || lia). lia.
Qed.

(** The mask a form stands for, by the instructions' definition of MASK. *)
Definition form_mask (f : AndMaskForm) : option Z :=
  match Kind f with
  | None_ => None
  | Zero => Some 0
  | Move => Some (2 ^ 64 - 1)
  | ClearLeft => Some (MASK (MB f) 63)
  | ClearRight => Some (MASK 0 (ME f))
  | Word => Some (MASK (MB f + 32) (ME f + 32))
  | InsertZeroField => Some (not64 (MASK (MB f) (63 - SH f)))
  | ClearBoth => Some (Z.land (MASK (MB f) 63) (MASK 0 (ME f)))
  end.

(** Every field fits the instruction's and the word form does not wrap. *)
Definition form_fields (f : AndMaskForm) : Prop :=
  0 <= MB f < 64 /\ 0 <= ME f < 64 /\ 0 <= SH f < 64 /\ MB f + SH f <= 63 /\ (Kind f = Word -> MB f <= ME f < 32).

Lemma run_MASK M lo hi : in_width 64 M -> is_run M lo hi -> M = MASK (63 - hi) (63 - lo).
Proof.
  intros HM (Hl & Hh & Hb). apply (bits_ext 64); [lia|done|apply MASK_range|]. intros i Hi. rewrite Hb, testbit_MASK by lia. f_equal; lia.
Qed.

Lemma land_MASKs mb me : 0 <= mb <= me -> me < 64 -> Z.land (MASK mb 63) (MASK 0 me) = MASK mb me.
Proof.
  intros H1 H2. apply (bits_ext 64); [lia|apply in_width_land; [lia|apply MASK_range..]|apply MASK_range|]. intros i Hi.
  rewrite Z.land_spec, !testbit_MASK by lia. lia.
Qed.

Lemma not64_not64 M : in_width 64 M -> not64 (not64 M) = M.
Proof.
  intros HM. apply (bits_ext 64); [lia|apply not64_range|done|]. intros i Hi. rewrite !testbit_not64 by lia. apply negb_involutive.
Qed.

Lemma not64_zero M : in_width 64 M -> not64 M = 0 -> M = 2 ^ 64 - 1.
Proof. intros HM H. rewrite <- (not64_not64 M HM), H. done. Qed.

Lemma not_run M lo hi : in_width 64 M -> is_run (not64 M) lo hi -> M = not64 (MASK (63 - hi) (63 - lo)).
Proof. intros HM Hr. rewrite <- (not64_not64 M HM) at 1. f_equal. apply run_MASK; [apply not64_range|done]. Qed.

(** A run of zeros from bit 0 is a mask up to the top. *)
Lemma high_run_MASK M k : in_width 64 M -> 0 <= k < 63 -> is_run (not64 M) 0 k -> M = MASK 0 (62 - k).
Proof.
  intros HM Hk (_ & _ & Hb). apply (bits_ext 64); [lia|done|apply MASK_range|]. intros i Hi. rewrite testbit_MASK by lia.
  specialize (Hb i Hi). rewrite testbit_not64 in Hb by lia. apply (f_equal negb) in Hb. rewrite negb_involutive in Hb. rewrite Hb. lia.
Qed.

Lemma classify64_mask M AllowWord (f := ClassifyAndMask64 M AllowWord) :
  in_width 64 M -> Kind f <> None_ -> form_mask f = Some M /\ form_fields f.
Proof.
  intros HM. subst f. unfold ClassifyAndMask64. destruct (Z.eqb_spec M 0) as [->|H0]; [done|].
  destruct (Z.eqb_spec M (2 ^ 64 - 1)) as [->|H1]; [done|].
  assert (Hn0 : not64 M <> 0) by (by intros H; apply H1, not64_zero). assert (Hn1 : not64 M <> 2 ^ 64 - 1) by (by intros H; apply H0, not64_all).
  destruct (Z.eqb_spec (Z.land M (u64 (M + 1))) 0) as [Hl|Hl].
  { pose proof (low_run M HM H0 H1 Hl) as Hr. pose proof Hr as (Hk & Hk' & _). intros _. unfold form_mask, form_fields. cbn [Kind MB ME SH].
    split; [|split_and!; (lia || done)]. f_equal. symmetry. rewrite (run_MASK _ _ _ HM Hr) at 1. f_equal; lia. }
  cbn zeta. fold (not64 M). destruct (Z.eqb_spec (Z.land (not64 M) (u64 (not64 M + 1))) 0) as [Hh|Hh].
  { pose proof (low_run _ (not64_range M) Hn0 Hn1 Hh) as Hr. pose proof Hr as (Hk & Hk' & _). intros _. unfold form_mask, form_fields. cbn [Kind MB ME SH].
    destruct (countr_one_spec _ (not64_range M) Hn1) as (Hc & _).
    split; [|split_and!; (lia || done)]. f_equal. symmetry. rewrite (high_run_MASK M (countr_one 64 (not64 M) - 1) HM) at 1; [f_equal; lia|lia|done]. }
  case_if Hw.
  { apply andb_true_iff in Hw as [Hw Hr]. apply andb_true_iff in Hw as [_ Hw]. assert (HW : in_width 32 M) by (unfold in_width in *; lia).
    unfold u32 in *. rewrite (wrap_small 32 M HW) in *. destruct (IsRun32_run M HW Hr) as [Hrun H31].
    pose proof Hrun as (Hl1 & Hh1 & _). intros _. unfold form_mask, form_fields. cbn [Kind MB ME SH].
    split; [|split_and!; (lia || done)]. f_equal. symmetry. rewrite (run_MASK _ _ _ HM Hrun) at 1. f_equal; lia. }
  case_if Hz; [|case_if Hm; [|done]]; intros _; unfold form_mask, form_fields; cbn [Kind MB ME SH].
  - pose proof (IsRun64_run _ (not64_range M) Hz) as Hr. pose proof Hr as (Hl1 & Hh1 & _).
    split; [|split_and!; (lia || done)]. f_equal. symmetry. by apply not_run.
  - pose proof (IsRun64_run _ HM Hm) as Hr. pose proof Hr as (Hl1 & Hh1 & _).
    split; [|split_and!; (lia || done)]. f_equal. rewrite land_MASKs by lia. symmetry. by apply run_MASK.
Qed.

(** ** The lowering *)

Lemma rldicl_and v mb : in_width 64 v -> Z.land (ROTL64 v 0) (MASK mb 63) = Z.land v (MASK mb 63).
Proof. intros Hv. by rewrite ROTL64_0. Qed.

Lemma rlwinm_and v mb me :
  in_width 64 v -> 0 <= mb <= me -> me < 32 -> Z.land (ROTL32 v 0) (MASK (mb + 32) (me + 32)) = Z.land v (MASK (mb + 32) (me + 32)).
Proof.
  intros Hv Hm Hme. apply (bits_ext 64); [lia|apply in_width_land; [lia|exact (of_bits_range 64 _)|apply MASK_range]|apply in_width_land; [lia|done|apply MASK_range]|].
  intros i Hi. rewrite !Z.land_spec, testbit_MASK by lia. unfold ROTL32. rewrite testbit_of_bits. change (Z.of_nat 64) with 64.
  rewrite (proj2 (Z.leb_le 0 i)), (proj2 (Z.ltb_lt i 64)) by lia. cbn [andb]. destruct (decide (i < 32)).
  - by rewrite Z.sub_0_r, Z.mod_small by lia.
  - replace (i <=? 63 - (mb + 32)) with false by lia. by rewrite !andb_false_r.
Qed.

(** Inserting zeros over a field clears it. *)
Lemma rldimi_and v mb sh : 0 <= v < 2 ^ 64 -> Z.lor (Z.land (ROTL64 0 sh) (MASK mb (63 - sh))) (Z.ldiff v (MASK mb (63 - sh))) = Z.land v (not64 (MASK mb (63 - sh))).
Proof.
  intros Hv. apply (bits_ext 64); [lia| | |].
  - apply in_width_lor; [lia|apply in_width_land; [lia|apply ROTL64_range|apply MASK_range]|apply in_width_ldiff; [lia|done]].
  - apply in_width_land; [lia|done|apply not64_range].
  - intros i Hi. rewrite Z.lor_spec, !Z.land_spec, Z.ldiff_spec, testbit_not64, testbit_ROTL64, Z.bits_0 by lia. done.
Qed.

(** [l] puts [v] into [Dst], keeps every other register and is [n] instructions at most. *)
Definition masks (l : list insn) (s : regfile) (Dst : GPR) (v : Z) : Prop :=
  runs s l Dst = v /\ forall r, r <> Dst -> runs s l r = s r.

Lemma masks_one i s Dst v : run s i = set Dst v s -> masks [i] s Dst v.
Proof. intros H. unfold masks, runs. cbn [foldl]. rewrite H. split; [apply set_eq|]. intros r Hr. by apply set_ne. Qed.

Lemma masks_copy (Dst S1 : GPR) s : masks (if Nat.eqb Dst S1 then [] else [mr Dst S1]) s Dst (s S1).
Proof. destruct (Nat.eqb_spec Dst S1) as [->|]; [done|]. by apply masks_one. Qed.

Lemma masks_snoc l i s Dst v w :
  masks l s Dst v -> (forall s', s' Dst = v -> (forall r, r <> Dst -> s' r = s r) -> run s' i = set Dst w s') -> masks (l ++ [i]) s Dst w.
Proof.
  intros [Hv Ho] Hi. unfold masks, runs in *. rewrite foldl_app. cbn [foldl]. rewrite Hi by done. split; [apply set_eq|].
  intros r Hr. rewrite set_ne by done. by apply Ho.
Qed.

(** At 32 bits the classified mask only has to agree on the low word. *)
Lemma classify_mask M Is32Bit (f := ClassifyAndMask M Is32Bit) :
  in_width 64 M -> Kind f <> None_ ->
  exists M', form_mask f = Some M' /\ form_fields f /\ in_width 64 M' /\
    wrap (if Is32Bit then 32 else 64) M' = wrap (if Is32Bit then 32 else 64) M.
Proof.
  intros HM. subst f. unfold ClassifyAndMask. destruct Is32Bit; cbn [negb]; [|intros H; exists M; by destruct (classify64_mask M false HM H)].
  change 0xFFFFFFFF00000000 with (Z.shiftl (Z.ones 32) 32). change 0xFFFFFFFF with (Z.ones 32).
  assert (H1 : in_width 64 (Z.land M (Z.ones 32))) by (apply in_width_land; [lia|done|by vm_compute]).
  assert (H2 : in_width 64 (Z.lor M (Z.shiftl (Z.ones 32) 32))) by (apply in_width_lor; [lia|done|by apply in_widthb_spec]).
  case_if Hc; intros H.
  - exists (Z.lor M (Z.shiftl (Z.ones 32) 32)). destruct (classify64_mask _ _ H2 H). split_and!; [done..|].
    apply (bits_ext 32); [lia|apply wrap_range; lia..|]. intros i Hi. rewrite !testbit_wrap, Z.lor_spec, Z.shiftl_spec by lia.
    by rewrite (Z.testbit_neg_r _ (i - 32)), orb_false_r by lia.
  - exists (Z.land M (Z.ones 32)). destruct (classify64_mask _ _ H1 H). split_and!; [done..|].
    rewrite land_wrap by lia. by rewrite wrap_wrap by lia.
Qed.

(** The instructions of a form compute the AND with its mask. *)
Lemma emit_form (Dst S1 : GPR) Mask Is32Bit M' s l :
  let Form := ClassifyAndMask Mask Is32Bit in
  form_mask Form = Some M' -> form_fields Form -> in_width 64 (s S1) -> s 0%nat = 0 -> Dst <> 0%nat ->
  EmitAndMask true Dst S1 Mask Is32Bit = Some l ->
  masks l s Dst (Z.land (s S1) M') /\ Z.of_nat (length l) <= AndMaskCost (Kind Form).
Proof.
  intros Form Hm (HMB & HME & HSH & Hsum & HW) HS H0 HD. unfold EmitAndMask. fold Form. cbn [negb].
  unfold form_mask in Hm. destruct (Kind Form); intros [= <-]; injection Hm as <-.
  - split; [|done]. apply masks_one. cbn [run]. by rewrite Z.land_0_r.
  - split; [|by destruct (Nat.eqb Dst S1)]. change (2 ^ 64 - 1) with (Z.ones 64). rewrite land_wrap, wrap_small by (done || lia). apply masks_copy.
  - split; [|done]. apply masks_one. cbn [run]. by rewrite ROTL64_0.
  - split; [|done]. apply masks_one. cbn [run]. by rewrite ROTL64_0.
  - split; [|done]. apply masks_one. cbn [run]. specialize (HW eq_refl). by rewrite rlwinm_and by (done || lia).
  - split; [|rewrite length_app; by destruct (Nat.eqb Dst S1)]. eapply masks_snoc; [apply masks_copy|]. intros s' Hs' Ho. cbn [run].
    by rewrite Ho, H0, Hs', rldimi_and by done.
  - split; [|done]. eapply (masks_snoc [_]); [apply masks_one; cbn [run]; by rewrite ROTL64_0 by done|]. intros s' Hs' Ho. cbn [run].
    rewrite Hs', ROTL64_0, <- Z.land_assoc; [done|]. apply in_width_land; [lia|done|apply MASK_range].
Qed.

(** when [EmitAndMask] accepts a mask, its instructions leave the AND of the source with the mask in the destination (the low word of it for a 32-bit operation), change no other register and cost at most what [AndMaskCost] says. The zero register r0 must hold 0 and not be the destination. *)
Lemma and_mask_spec (Dst S1 : GPR) (Mask : Z) (Is32Bit : bool) (s : regfile) (l : list insn) (N := if Is32Bit then 32 else 64) :
  in_width 64 Mask -> in_width 64 (s S1) -> s 0%nat = 0 -> Dst <> 0%nat ->
  EmitAndMask true Dst S1 Mask Is32Bit = Some l ->
  wrap N (runs s l Dst) = wrap N (Z.land (s S1) Mask) /\ in_width 64 (runs s l Dst) /\ (forall r, r <> Dst -> runs s l r = s r) /\
  Z.of_nat (length l) <= AndMaskCost (Kind (ClassifyAndMask Mask Is32Bit)) <= 2.
Proof.
  intros HM HS H0 HD He.
  assert (Hk : Kind (ClassifyAndMask Mask Is32Bit) <> None_) by (intros Hk; unfold EmitAndMask in He; cbn [negb] in He; by rewrite Hk in He).
  destruct (classify_mask Mask Is32Bit HM Hk) as (M' & Hf & Hfields & HM' & HN).
  destruct (emit_form _ _ _ _ _ s l Hf Hfields HS H0 HD He) as [[Hv Ho] Hc].
  split_and!; [|rewrite Hv; apply in_width_land; [lia|done|apply HM']|done|done|by destruct (Kind _)].
  rewrite Hv. fold N in HN. assert (0 <= N) by (destruct Is32Bit; subst N; lia).
  apply (bits_ext N); [done|by apply wrap_range..|]. intros i Hi. rewrite !testbit_wrap, !Z.land_spec by lia.
  f_equal. f_equal. apply (f_equal (fun z => Z.testbit z i)) in HN. rewrite !testbit_wrap in HN by lia.
  by rewrite (proj2 (Z.ltb_lt i N)) in HN by lia.
Qed.

(** C11. The classification is complete: a 64-bit mask is refused exactly when it is neither empty nor full and neither it nor its complement is one run of ones. *)
Theorem classify_complete (M : Z) (AllowWord : bool) :
  in_width 64 M ->
  Kind (ClassifyAndMask64 M AllowWord) = None_ <->
  M <> 0 /\ M <> 2 ^ 64 - 1 /\ forall lo hi, ~ is_run M lo hi /\ ~ is_run (not64 M) lo hi.
Proof.
  intros HM. split.
  - unfold ClassifyAndMask64. destruct (Z.eqb_spec M 0), (Z.eqb_spec M (2 ^ 64 - 1)); try done.
    case_if Hl; [done|]. cbn zeta. fold (not64 M). case_if Hh; [done|]. case_if Hw; [done|]. case_if Hz; [done|]. case_if Hr; [done|].
    intros _. split_and!; [done..|]. intros lo hi. split; intros H; apply run_IsRun64 in H; congruence.
  - intros (H0 & H1 & Hn). unfold ClassifyAndMask64. rewrite !(proj2 (Z.eqb_neq M _)) by done.
    assert (Hn0 : not64 M <> 0) by (by intros H; apply H1, not64_zero). assert (Hn1 : not64 M <> 2 ^ 64 - 1) by (by intros H; apply H0, not64_all).
    cbn zeta. fold (not64 M). repeat (case_if Hb; [exfalso|]); [..|done].
    + apply Z.eqb_eq in Hb. exact (proj1 (Hn _ _) (low_run M HM H0 H1 Hb)).
    + apply Z.eqb_eq in Hb0. exact (proj2 (Hn _ _) (low_run _ (not64_range M) Hn0 Hn1 Hb0)).
    + apply andb_true_iff in Hb1 as [Hw Hr]. apply andb_true_iff in Hw as [_ Hw]. assert (HW : in_width 32 M) by (unfold in_width in *; lia).
      unfold u32 in Hr. rewrite wrap_small in Hr by done. exact (proj1 (Hn _ _) (proj1 (IsRun32_run M HW Hr))).
    + exact (proj2 (Hn _ _) (IsRun64_run _ (not64_range M) Hb2)).
    + exact (proj1 (Hn _ _) (IsRun64_run M HM Hb3)).
Qed.

Lemma classify_complete_witness : Kind (ClassifyAndMask64 0x5 false) = None_ /\ forall lo hi, ~ is_run 0x5 lo hi.
Proof.
  split; [reflexivity|]. intros lo hi. apply (classify_complete 0x5 false); [by apply in_widthb_spec|reflexivity].
Defined.

(** Splitting an addend for addis/addi: the two halves are signed 16-bit values that rebuild the addend, and the split is refused exactly when no such halves exist. *)
Theorem split_addis_addi (V : Z) :
  - 2 ^ 63 <= V < 2 ^ 63 ->
  match SplitAddisAddi V with
  | Some (Hi, Lo) => V = Hi * 65536 + Lo /\ -32768 <= Hi <= 32767 /\ -32768 <= Lo <= 32767
  | None => forall Hi Lo, -32768 <= Hi <= 32767 -> -32768 <= Lo <= 32767 -> V <> Hi * 65536 + Lo
  end.
Proof.
  intros HV. unfold SplitAddisAddi. pose proof (sgn_range 16 V ltac:(lia)) as HL. change (2 ^ (16 - 1)) with 32768 in HL.
  assert (Hm : (V - sgn 16 V) mod 2 ^ 16 = 0).
  { unfold sgn. destruct (_ <? _); [rewrite Zminus_mod_idemp_r; by rewrite Z.sub_diag|].
    replace (V - (V mod 2 ^ 16 - 2 ^ 16)) with (V - V mod 2 ^ 16 + 1 * 2 ^ 16) by lia. rewrite Z.mod_add by lia.
    rewrite Zminus_mod_idemp_r. by rewrite Z.sub_diag. }
  rewrite Z.shiftr_div_pow2 by lia. pose proof (Z.div_mod (V - sgn 16 V) (2 ^ 16) ltac:(lia)) as E. rewrite Hm in E.
  change (2 ^ 16) with 65536 in *. set (H := (V - sgn 16 V) / 65536) in *. case_if Hr; [|lia].
  intros Hi Lo HHi HLo HE. assert (Lo = sgn 16 V) as ->; [|lia].
  rewrite <- (sgn_id 16 Lo) by lia. unfold sgn. replace (V mod 2 ^ 16) with (Lo mod 2 ^ 16); [done|].
  rewrite HE, Z.add_comm. change 65536 with (2 ^ 16). by rewrite Z.mod_add by lia.
Qed.

