(* ===== verification/PPC64Encode.v ===== *)
(** The encodings of [PPC64]: an instruction word holds the fields where the
    Power ISA puts them, and every instruction the constant and mask lowerings
    emit has encodable fields. *)
From S2P Require Import Prelude PPC64 PPC64Spec.

(** ** Reading a word *)

Definition field (x lsb w : Z) : Z := wrap w (Z.shiftr x lsb).

Definition greg (z : Z) : GPR := Z.to_nat z.

(** The Power ISA's decoding of the instructions of [insn]. *)
Definition decode (x : Z) : option insn :=
  let rt := greg (field x 21 5) in
  let ra := greg (field x 16 5) in
  let d := field x 0 16 in
  let sh := field x 11 5 + 32 * field x 1 1 in
  let m := field x 6 5 + 32 * field x 5 1 in
  match field x 26 6 with
  | 14 => if Nat.eqb ra 0 then Some (li rt d) else None
  | 15 => if Nat.eqb ra 0 then Some (lis rt d) else None
  | 24 => Some (ori ra rt d)
  | 25 => Some (oris ra rt d)
  | 21 => if field x 0 1 =? 0 then Some (rlwinm ra rt (field x 11 5) (field x 6 5) (field x 1 5)) else None
  | 30 =>
      if field x 0 1 =? 0 then
        match field x 2 3 with
        | 0 => Some (rldicl ra rt sh m)
        | 1 => Some (rldicr ra rt sh m)
        | 2 => Some (rldic ra rt sh m)
        | 3 => Some (rldimi ra rt sh m)
        | _ => None
        end
      else None
  | 31 =>
      if (field x 0 1 =? 0) && (field x 1 10 =? 444) && (field x 11 5 =? field x 21 5) then Some (mr ra rt) else None
  | _ => None
  end.

(** Every operand fits its field. *)
Definition reg_ok (r : GPR) : Prop := (r < 32)%nat.
Definition insn_ok (i : insn) : Prop :=
  match i with
  | li rt si | lis rt si => reg_ok rt /\ in_width 16 si
  | ori ra rs ui | oris ra rs ui => reg_ok ra /\ reg_ok rs /\ in_width 16 ui
  | mr ra rs => reg_ok ra /\ reg_ok rs
  | rldicl ra rs sh m | rldicr ra rs sh m | rldic ra rs sh m | rldimi ra rs sh m =>
      reg_ok ra /\ reg_ok rs /\ in_width 6 sh /\ in_width 6 m
  | rlwinm ra rs sh mb me => reg_ok ra /\ reg_ok rs /\ in_width 5 sh /\ in_width 5 mb /\ in_width 5 me
  end.

(** ** Fields of a concatenation *)

Lemma testbit_field x lsb w i : 0 <= w -> 0 <= lsb -> 0 <= i -> Z.testbit (field x lsb w) i = (i <? w) && Z.testbit x (i + lsb).
Proof. intros Hw Hl Hi. unfold field. by rewrite testbit_wrap, Z.shiftr_spec by lia. Qed.

Lemma field_lor a b lsb w : 0 <= w -> 0 <= lsb -> field (Z.lor a b) lsb w = Z.lor (field a lsb w) (field b lsb w).
Proof.
  intros Hw Hl. apply Z.bits_inj'. intros i Hi. rewrite Z.lor_spec, !testbit_field, Z.lor_spec by lia. by destruct (i <? w).
Qed.

Lemma field_u32 x lsb w : 0 <= w -> 0 <= lsb -> lsb + w <= 32 -> field (u32 x) lsb w = field x lsb w.
Proof.
  intros Hw Hl H32. apply Z.bits_inj'. intros i Hi. unfold u32. rewrite !testbit_field, testbit_wrap by lia.
  destruct (Z.ltb_spec i w); [|done]. by rewrite (proj2 (Z.ltb_lt _ 32)) by lia.
Qed.

Lemma field_same b n w : 0 <= n -> in_width w b -> field (Z.shiftl b n) n w = b.
Proof. intros Hn Hb. unfold field. rewrite Z.shiftr_shiftl_l, Z.sub_diag, Z.shiftl_0_r by lia. by apply wrap_small. Qed.

Lemma field_above b n lsb w : 0 <= w -> 0 <= lsb -> lsb + w <= n -> field (Z.shiftl b n) lsb w = 0.
Proof.
  intros Hw Hl Hn. apply Z.bits_inj'. intros i Hi. rewrite testbit_field, Z.bits_0, Z.shiftl_spec by lia.
  destruct (Z.ltb_spec i w); [|done]. by rewrite Z.testbit_neg_r by lia.
Qed.

Lemma field_below b n v lsb w : 0 <= w -> 0 <= n -> 0 <= v -> in_width v b -> n + v <= lsb -> field (Z.shiftl b n) lsb w = 0.
Proof.
  intros Hw Hn Hv Hb Hl. apply Z.bits_inj'. intros i Hi. rewrite testbit_field, Z.bits_0, Z.shiftl_spec by lia.
  by rewrite (testbit_above v b), andb_false_r by (done || lia).
Qed.

(** Computes the fields of a word built by [Z.lor] and [Z.shiftl], the width
    of each operand being a hypothesis. *)
Ltac fields :=
  rewrite field_u32 by lia; rewrite ?field_lor by lia;
  repeat match goal with
  | H : in_width ?v ?b |- context [field (Z.shiftl ?b ?n) ?l ?w] =>
      first [ constr_eq n l; constr_eq v w; rewrite (field_same b n w) by (lia || exact H)
            | rewrite (field_above b n l w) by lia
            | rewrite (field_below b n v l w) by (lia || exact H) ]
  end;
  rewrite ?Z.lor_0_r, ?Z.lor_0_l; try reflexivity.

Lemma unshifted x : x = Z.shiftl x 0.
Proof. by rewrite Z.shiftl_0_r. Qed.

Lemma EmitD_fields op rt ra d (x := EmitD op rt ra d) :
  in_width 6 op -> in_width 5 rt -> in_width 5 ra -> in_width 16 d ->
  field x 26 6 = op /\ field x 21 5 = rt /\ field x 16 5 = ra /\ field x 0 16 = d.
Proof. intros Hop Hrt Hra Hd. subst x. unfold EmitD. rewrite (unshifted d) at 1 2 3 4. split_and!; fields. Qed.

Lemma EmitX_fields op rs ra rb xo rc (x := EmitX op rs ra rb xo rc) :
  in_width 6 op -> in_width 5 rs -> in_width 5 ra -> in_width 5 rb -> in_width 10 xo -> in_width 1 rc ->
  field x 26 6 = op /\ field x 21 5 = rs /\ field x 16 5 = ra /\ field x 11 5 = rb /\ field x 1 10 = xo /\ field x 0 1 = rc.
Proof. intros Hop Hrs Hra Hrb Hxo Hrc. subst x. unfold EmitX. rewrite (unshifted rc) at 1 2 3 4 5 6. split_and!; fields. Qed.

Lemma EmitM_fields op rs ra sh mb me rc :
  in_width 6 op -> in_width 5 rs -> in_width 5 ra -> in_width 5 sh -> in_width 5 mb -> in_width 5 me -> in_width 1 rc ->
  exists x, EmitM op rs ra sh mb me rc = Some x /\ in_width 32 x /\
  field x 26 6 = op /\ field x 21 5 = rs /\ field x 16 5 = ra /\ field x 11 5 = sh /\ field x 6 5 = mb /\ field x 1 5 = me /\ field x 0 1 = rc.
Proof.
  intros Hop Hrs Hra Hsh Hmb Hme Hrc. unfold EmitM. unfold in_width in Hsh, Hmb, Hme.
  rewrite !(proj2 (Z.ltb_lt _ 32)) by lia. cbn [negb]. eexists. split; [reflexivity|]. split; [apply wrap_range; lia|].
  rewrite (unshifted rc) at 1 2 3 4 5 6 7.
  fold (in_width 5 sh) in Hsh. fold (in_width 5 mb) in Hmb. fold (in_width 5 me) in Hme. split_and!; fields.
Qed.

(** A six-bit operand is split in its low five bits and its top one. *)
Lemma split_field m (lo := Z.land m 0x1F) (hi := Z.land (Z.shiftr m 5) 1) :
  in_width 6 m -> in_width 5 lo /\ in_width 1 hi /\ lo + 32 * hi = m.
Proof.
  intros Hm. subst lo hi. change 0x1F with (Z.ones 5). change 1 with (Z.ones 1). rewrite !land_wrap by lia.
  split; [apply wrap_range; lia|]. split; [apply wrap_range; lia|]. rewrite Z.shiftr_div_pow2 by lia. unfold wrap, in_width in *.
  pose proof (Z.div_mod m (2 ^ 5)). assert (0 <= m / 2 ^ 5 < 2) by (split; [apply Z.div_pos; lia|apply Z.div_lt_upper_bound; lia]).
  rewrite (Z.mod_small (m / 2 ^ 5)) by lia. lia.
Qed.

Definition MD_word (rs ra sl ml mh xo sg rc : Z) : Z :=
  u32 (Z.lor (Z.lor (Z.lor (Z.lor (Z.lor (Z.lor (Z.lor (Z.lor (Z.shiftl 30 26) (Z.shiftl rs 21)) (Z.shiftl ra 16)) (Z.shiftl sl 11))
    (Z.shiftl ml 6)) (Z.shiftl mh 5)) (Z.shiftl xo 2)) (Z.shiftl sg 1)) (Z.shiftl rc 0)).

Lemma MD_word_fields rs ra sl ml mh xo sg rc (x := MD_word rs ra sl ml mh xo sg rc) :
  in_width 5 rs -> in_width 5 ra -> in_width 5 sl -> in_width 5 ml -> in_width 1 mh -> in_width 3 xo -> in_width 1 sg -> in_width 1 rc ->
  field x 26 6 = 30 /\ field x 21 5 = rs /\ field x 16 5 = ra /\ field x 2 3 = xo /\ field x 0 1 = rc /\
  field x 11 5 = sl /\ field x 1 1 = sg /\ field x 6 5 = ml /\ field x 5 1 = mh.
Proof.
  intros Hrs Hra Hsl Hml Hmh Hxo Hsg Hrc. subst x. unfold MD_word. assert (H30 : in_width 6 30) by (by apply in_widthb_spec).
  split_and!; fields.
Qed.

Lemma EmitMD_fields rs ra sh m xo rc (x := EmitMD rs ra sh m xo rc) :
  in_width 5 rs -> in_width 5 ra -> in_width 6 sh -> in_width 6 m -> in_width 3 xo -> in_width 1 rc ->
  field x 26 6 = 30 /\ field x 21 5 = rs /\ field x 16 5 = ra /\ field x 2 3 = xo /\ field x 0 1 = rc /\
  field x 11 5 + 32 * field x 1 1 = sh /\ field x 6 5 + 32 * field x 5 1 = m.
Proof.
  intros Hrs Hra Hsh Hm Hxo Hrc. destruct (split_field sh Hsh) as (Hs1 & Hs2 & Es), (split_field m Hm) as (Hm1 & Hm2 & Em).
  assert (E : x = MD_word rs ra (Z.land sh 0x1F) (Z.land m 0x1F) (Z.land (Z.shiftr m 5) 1) xo (Z.land (Z.shiftr sh 5) 1) rc)
    by (subst x; unfold EmitMD, MD_word; by rewrite Z.shiftl_0_r).
  rewrite E. destruct (MD_word_fields rs ra _ _ _ xo _ rc Hrs Hra Hs1 Hm1 Hm2 Hxo Hs2 Hrc) as (-> & -> & -> & -> & -> & -> & -> & -> & ->).
  by split_and!.
Qed.

Lemma idx_width r : reg_ok r -> in_width 5 (idx r).
Proof. unfold reg_ok, idx, in_width. lia. Qed.

Lemma greg_idx r : greg (idx r) = r.
Proof. apply Nat2Z.id. Qed.

(** [x] is a 32-bit word that reads back as [i]. *)
Definition encodes (i : insn) : Prop := exists x, encode i = Some x /\ in_width 32 x /\ decode x = Some i.

Ltac const_width := by apply in_widthb_spec.

Lemma encodes_D op rt ra d i :
  encode i = Some (EmitD op (idx rt) (idx ra) d) -> in_width 6 op -> reg_ok rt -> reg_ok ra -> in_width 16 d ->
  (forall x, field x 26 6 = op -> field x 21 5 = idx rt -> field x 16 5 = idx ra -> field x 0 16 = d -> decode x = Some i) -> encodes i.
Proof.
  intros He Hop Hrt Hra Hd Hdec. exists (EmitD op (idx rt) (idx ra) d). split; [done|]. split; [apply wrap_range; lia|].
  destruct (EmitD_fields op (idx rt) (idx ra) d) as (H1 & H2 & H3 & H4); [done|by apply idx_width..|done|]. by apply Hdec.
Qed.

Lemma encodes_MD rs ra sh m xo i :
  encode i = Some (EmitMD (idx rs) (idx ra) sh m xo 0) -> reg_ok rs -> reg_ok ra -> in_width 6 sh -> in_width 6 m -> in_width 3 xo ->
  (forall x, field x 26 6 = 30 -> field x 21 5 = idx rs -> field x 16 5 = idx ra -> field x 2 3 = xo -> field x 0 1 = 0 ->
     field x 11 5 + 32 * field x 1 1 = sh -> field x 6 5 + 32 * field x 5 1 = m -> decode x = Some i) -> encodes i.
Proof.
  intros He Hrs Hra Hsh Hm Hxo Hdec. exists (EmitMD (idx rs) (idx ra) sh m xo 0). split; [done|]. split; [apply wrap_range; lia|].
  destruct (EmitMD_fields (idx rs) (idx ra) sh m xo 0) as (H1 & H2 & H3 & H4 & H5 & H6 & H7); [by apply idx_width..|done|done|done|const_width|].
  by apply Hdec.
Qed.

(** Reads the fields of a decoded word off the hypotheses. *)
Ltac read_fields :=
  intros; unfold decode;
  repeat match goal with H : field _ _ _ = _ |- _ => rewrite H; clear H end;
  repeat match goal with H : field _ _ _ + 32 * field _ _ _ = _ |- _ => rewrite H; clear H end;
  rewrite ?greg_idx; try reflexivity.

Lemma insn_encodes i : insn_ok i -> encodes i.
Proof.
  assert (H0 : reg_ok 0) by (unfold reg_ok; lia).
  destruct i as [rt si|rt si|ra rs ui|ra rs ui|ra rs|ra rs sh m|ra rs sh m|ra rs sh m|ra rs sh m|ra rs sh mb me]; cbn [insn_ok]; intros Hok; destruct_and! Hok.
  - apply (encodes_D 14 rt 0 (u16 si)); [done|const_width|done|done|apply wrap_range; lia|]. unfold u16. rewrite wrap_small by done. read_fields.
  - apply (encodes_D 15 rt 0 (u16 si)); [done|const_width|done|done|apply wrap_range; lia|]. unfold u16. rewrite wrap_small by done. read_fields.
  - apply (encodes_D 24 rs ra ui); [done|const_width|done|done|done|]. read_fields.
  - apply (encodes_D 25 rs ra ui); [done|const_width|done|done|done|]. read_fields.
  - exists (EmitX 31 (idx rs) (idx ra) (idx rs) 444 0). split; [done|]. split; [apply wrap_range; lia|].
    destruct (EmitX_fields 31 (idx rs) (idx ra) (idx rs) 444 0) as (F1 & F2 & F3 & F4 & F5 & F6); [const_width|by apply idx_width..|const_width|const_width|].
    unfold decode. rewrite F1, F2, F3, F4, F5, F6, !Z.eqb_refl, !greg_idx. done.
  - apply (encodes_MD rs ra sh m 0); [done..|const_width|]. read_fields.
  - apply (encodes_MD rs ra sh m 1); [done..|const_width|]. read_fields.
  - apply (encodes_MD rs ra sh m 2); [done..|const_width|]. read_fields.
  - apply (encodes_MD rs ra sh m 3); [done..|const_width|]. read_fields.
  - destruct (EmitM_fields 21 (idx rs) (idx ra) sh mb me 0) as (x & Hx & Hw & F1 & F2 & F3 & F4 & F5 & F6 & F7); [const_width|by apply idx_width..|done|done|done|const_width|].
    exists x. split; [done|]. split; [done|]. unfold decode. rewrite F1, F2, F3, F4, F5, F6, F7, !greg_idx. done.
Qed.

(** The code of a sequence reads back as the sequence. *)
Definition codes (l : list insn) (words : list Z) : Prop :=
  mapM encode l = Some words /\ mapM decode words = Some l /\ Forall (in_width 32) words.

Lemma sequence_codes l : Forall insn_ok l -> exists words, codes l words /\ length words = length l.
Proof.
  induction 1 as [|i l Hi _ (ws & (H1 & H2 & H3) & H4)]; [by exists []|].
  destruct (insn_encodes i Hi) as (x & He & Hw & Hd). exists (x :: ws). split; [|cbn; lia]. split_and!; [..|by constructor].
  - cbn [mapM]. rewrite He. cbn. by rewrite H1.
  - cbn [mapM]. rewrite Hd. cbn. by rewrite H2.
Qed.

(** ** The emitted instructions are encodable *)

Lemma half_high x : in_width 32 x -> in_width 16 (Z.shiftr x 16).
Proof.
  unfold in_width. rewrite Z.shiftr_div_pow2 by lia. intros H. split; [apply Z.div_pos; lia|apply Z.div_lt_upper_bound; lia].
Qed.

Lemma half_low x : in_width 16 (Z.land x 0xFFFF).
Proof. change 0xFFFF with (Z.ones 16). rewrite land_wrap by lia. apply wrap_range. lia. Qed.

#[local] Hint Resolve half_high half_low high_word_range : width.
#[local] Hint Extern 1 (in_width 16 (u16 _)) => (apply wrap_range; lia) : width.
#[local] Hint Extern 1 (in_width 32 (u32 _)) => (apply wrap_range; lia) : width.

(** The instructions of a list whose parts depend on tests. *)
Ltac insns_ok :=
  repeat match goal with |- context [if ?b then _ else _] => let H := fresh "Hb" in destruct b eqn:H end;
  rewrite ?Forall_app, ?Forall_cons; cbn [insn_ok sldi clrldi app]; split_and?; try done; auto with width; try (unfold in_width in *; lia).

Lemma imm32_ok rt imm : reg_ok rt -> in_width 32 imm -> Forall insn_ok (LoadImm32 rt imm).
Proof. intros Hrt Hi. unfold LoadImm32. insns_ok. Qed.

Lemma sldi_ok rt n : reg_ok rt -> 0 <= n < 64 -> insn_ok (sldi rt rt n).
Proof. intros Hrt Hn. unfold sldi. cbn [insn_ok]. unfold in_width. split_and!; (done || lia). Qed.

Lemma word_ok rt hi :
  reg_ok rt -> in_width 32 hi ->
  Forall insn_ok (lis rt (Z.shiftr hi 16) :: (if negb (Z.land hi 0xFFFF =? 0) then [ori rt rt (Z.land hi 0xFFFF)] else [])).
Proof. intros Hrt Hi. insns_ok. Qed.

Lemma countl_zero_lt x : in_width 64 x -> x <> 0 -> 0 <= countl_zero 64 x < 64.
Proof.
  intros Hx Hne. destruct (countl_zero_spec 64 x) as (Hr & Hz & _). change (Z.of_nat 64) with 64 in *.
  split; [lia|]. apply Z.nle_gt. intros Hc. apply Hne, (bits_ext 64); [lia|done|unfold in_width; lia|]. intros i Hi. rewrite Z.bits_0. apply Hz. lia.
Qed.

Lemma imm64_ok Disable rt imm : reg_ok rt -> in_width 64 imm -> Forall insn_ok (LoadImm64 Disable rt imm).
Proof.
  intros Hrt Hi. unfold LoadImm64. destruct (Z.eqb_spec imm 0) as [|H0]; [insns_ok|].
  destruct (countr_zero_split imm Hi H0) as [Htz _]. pose proof (countl_zero_lt imm Hi H0) as Hlz.
  assert (Hu : forall x, Forall insn_ok (LoadImm32 rt (u32 x))) by (intros x; apply imm32_ok; auto with width).
  case_if H1; [done|]. case_if H2; [apply Forall_app; split; [done|insns_ok]|].
  case_if H3; [rewrite !Forall_cons; split; [split; [exact Hrt|apply wrap_range; lia]|]; split; [apply sldi_ok; assumption|constructor]|].
  case_if H4; [rewrite !Forall_cons; split_and!; [split; [exact Hrt|apply wrap_range; lia]|cbn [insn_ok]; unfold in_width; split_and!; (assumption || lia)|constructor]|].
  case_if H5; [apply Forall_app; split; [apply Hu|]; apply Forall_cons; split; [apply sldi_ok; assumption|constructor]|].
  pose proof (high_word_range imm Hi) as Hh. rewrite !Forall_app. split_and!.
  - case_if H6; [|insns_ok]. case_if H7; [|by apply word_ok]. apply Forall_cons. split; [|done]. cbn [insn_ok]. split; [done|]. unfold in_width in *; lia.
  - apply Forall_cons. split; [apply sldi_ok; (done || lia)|done].
  - insns_ok.
  - insns_ok.
Qed.

Lemma imm64_fixed_ok rt imm : reg_ok rt -> in_width 64 imm -> Forall insn_ok (LoadImm64Fixed rt imm).
Proof.
  intros Hrt Hi. unfold LoadImm64Fixed. pose proof (high_word_range imm Hi). rewrite !Forall_cons.
  split_and!; [..|apply sldi_ok; (done || lia)| | |done]; cbn [insn_ok]; auto with width.
Qed.

Lemma and_mask_ok Dst S1 Mask Is32Bit l :
  in_width 64 Mask -> reg_ok Dst -> reg_ok S1 -> EmitAndMask true Dst S1 Mask Is32Bit = Some l -> Forall insn_ok l.
Proof.
  intros HM HD HS He. unfold EmitAndMask in He. cbn [negb] in He.
  assert (Hk : Kind (ClassifyAndMask Mask Is32Bit) <> None_) by (intros Hk; by rewrite Hk in He).
  destruct (classify_mask Mask Is32Bit HM Hk) as (M' & _ & (HMB & HME & HSH & _ & HW) & _).
  assert (Hc : Forall insn_ok (if Nat.eqb Dst S1 then [] else [mr Dst S1])) by (destruct (Nat.eqb Dst S1); [done|]; by rewrite Forall_cons).
  destruct (Kind (ClassifyAndMask Mask Is32Bit)); inversion He; subst l; try done;
    rewrite ?Forall_app, !Forall_cons; cbn [insn_ok]; unfold in_width; split_and!; (done || lia || (specialize (HW eq_refl); lia) || (unfold reg_ok; lia)).
Qed.

(** ** The code *)

(** C9. Constant materialisation: for every 64-bit immediate, with the shifted form enabled or disabled, the words [LoadImm64] writes decode by the Power ISA's instruction formats to a sequence that leaves the immediate in [rt] and changes no other register, in at most five instructions. *)
Theorem load_imm64_correct (Disable : bool) (rt : GPR) (imm : Z) :
  reg_ok rt -> in_width 64 imm ->
  exists words code, mapM encode (LoadImm64 Disable rt imm) = Some words /\ Forall (in_width 32) words /\
    mapM decode words = Some code /\ loads code rt imm /\ (length words <= 5)%nat.
Proof.
  intros Hrt Hi. destruct (load_imm64_spec Disable rt imm Hi) as [Hl Hn].
  destruct (sequence_codes _ (imm64_ok Disable rt imm Hrt Hi)) as (ws & (H1 & H2 & H3) & H4).
  exists ws, (LoadImm64 Disable rt imm). split_and!; (done || lia).
Qed.

Lemma load_imm64_correct_witness :
  mapM encode (LoadImm64 false 5 0xFFFFFFFF00000000) = Some [0x38A0FFFF; 0x78A507C6] /\
  exists code, mapM decode [0x38A0FFFF; 0x78A507C6] = Some code /\ loads code 5 0xFFFFFFFF00000000.
Proof.
  destruct (load_imm64_correct false 5 0xFFFFFFFF00000000) as (ws & code & H1 & _ & H2 & H3 & _); [unfold reg_ok; lia|by apply in_widthb_spec|].
  assert (E : mapM encode (LoadImm64 false 5 0xFFFFFFFF00000000) = Some [0x38A0FFFF; 0x78A507C6]) by (vm_compute; reflexivity).
  rewrite E in H1. injection H1 as <-. split; [exact E|]. exists code. split; [exact H2|exact H3].
Defined.

(** The relocation window: [LoadImm64Fixed] writes exactly five words whatever the value, and they decode to a sequence that loads the value and changes no other register. *)
Theorem load_imm64_fixed (rt : GPR) (imm : Z) :
  reg_ok rt -> in_width 64 imm ->
  exists words code, mapM encode (LoadImm64Fixed rt imm) = Some words /\ Forall (in_width 32) words /\
    mapM decode words = Some code /\ loads code rt imm /\ length words = 5%nat.
Proof.
  intros Hrt Hi. destruct (load_imm64_fixed_spec rt imm Hi) as [Hl Hn].
  destruct (sequence_codes _ (imm64_fixed_ok rt imm Hrt Hi)) as (ws & (H1 & H2 & H3) & H4).
  exists ws, (LoadImm64Fixed rt imm). split_and!; (done || lia).
Qed.

(** C10. AND lowering: when [EmitAndMask] accepts a mask, the words it writes decode to instructions that leave the AND of the source with the mask in the destination (the low word of it for a 32-bit operation), change no other register and are at most as many as [AndMaskCost] says. The zero register r0 must hold 0 and not be the destination. *)
Theorem and_mask_exact (Dst S1 : GPR) (Mask : Z) (Is32Bit : bool) (s : regfile) (l : list insn) (N := if Is32Bit then 32 else 64) :
  in_width 64 Mask -> in_width 64 (s S1) -> s 0%nat = 0 -> Dst <> 0%nat -> reg_ok Dst -> reg_ok S1 ->
  EmitAndMask true Dst S1 Mask Is32Bit = Some l ->
  exists words code, mapM encode l = Some words /\ mapM decode words = Some code /\
    wrap N (runs s code Dst) = wrap N (Z.land (s S1) Mask) /\ (forall r, r <> Dst -> runs s code r = s r) /\
    Z.of_nat (length words) <= AndMaskCost (Kind (ClassifyAndMask Mask Is32Bit)) <= 2.
Proof.
  intros HM HS H0 HD HDok HSok He. destruct (and_mask_spec Dst S1 Mask Is32Bit s l HM HS H0 HD He) as (Hv & _ & Ho & Hc).
  destruct (sequence_codes _ (and_mask_ok Dst S1 Mask Is32Bit l HM HDok HSok He)) as (ws & (H1 & H2 & _) & H4).
  exists ws, l. rewrite H4. split_and!; try done; apply Hc.
Qed.

Lemma and_mask_exact_witness :
  exists code, mapM decode [0x7C832378; 0x7803262C] = Some code /\
    wrap 64 (runs (set 4%nat 0xABCDEF (fun _ => 0)) code 3%nat) = wrap 64 (Z.land 0xABCDEF 0xFFFFFFFFFFFFFF0F).
Proof.
  destruct (and_mask_exact 3 4 0xFFFFFFFFFFFFFF0F false (set 4 0xABCDEF (fun _ => 0)) [mr 3 4; rldimi 3 0 4 56]) as (ws & code & H1 & H2 & H3 & _).
  - by apply in_widthb_spec.
  - by apply in_widthb_spec.
  - reflexivity.
  - lia.
  - unfold reg_ok; lia.
  - unfold reg_ok; lia.
  - reflexivity.
  - assert (E : mapM encode [mr 3 4; rldimi 3 0 4 56] = Some [0x7C832378; 0x7803262C]) by (vm_compute; reflexivity).
    rewrite E in H1. injection H1 as <-. exists code. split; [exact H2|exact H3].
Defined.
