(* ===== verification/VMA.v ===== *)
(** Guest memory areas: SyscallsVMATracking.h and .cpp
    (Source/Tools/LinuxEmulation/LinuxSyscalls).  The ordered map from base
    address to [VMAEntry], the intrusive list of the areas of one
    [MappedResource] (a pointer to an entry is its base address, the key of its
    map node), and the memo of MarkGuestExecutableRange with its generation.

    An assertion that fails, a dereference of a null or dangling pointer and
    ERROR_AND_DIE are [None]. *)
From S2P Require Import Prelude.
From stdpp Require Import gmap.
Open Scope Z_scope.

Module VMA.

Record VMAProt := mkProt { Readable : bool; Writable : bool; Executable : bool }.
#[export] Instance VMAProt_eq_dec : EqDecision VMAProt.
Proof. solve_decision. Defined.

Definition PROT_READ : Z := 1.
Definition PROT_WRITE : Z := 2.
Definition PROT_EXEC : Z := 4.
Definition SHM_RDONLY : Z := 0x1000.
Definition SHM_EXEC : Z := 0x8000.
Definition MAP_SHARED : Z := 1.

Definition fromProt (Prot : Z) : VMAProt :=
  mkProt (negb (Z.land Prot PROT_READ =? 0)) (negb (Z.land Prot PROT_WRITE =? 0)) (negb (Z.land Prot PROT_EXEC =? 0)).
Definition fromSHM (SHMFlg : Z) : VMAProt :=
  mkProt true (if negb (Z.land SHMFlg SHM_RDONLY =? 0) then false else true) (if negb (Z.land SHMFlg SHM_EXEC =? 0) then true else false).

(** [VMAFlags]: the [Shared] bit. *)
Definition fromFlags (Flags : Z) : bool := negb (Z.land Flags MAP_SHARED =? 0).

(** A resource is named by its node of [MappedResources]. *)
Abbreviation ResourceId := nat (only parsing).

Record VMAEntry := mkVMA {
  Resource : option ResourceId; ResourcePrevVMA : option Z; ResourceNextVMA : option Z;
  Base : Z; Offset : Z; Length : Z; Shared : bool; Prot : VMAProt }.

Record MRID := mkMRID { dev : Z; mid : Z }.
Definition SpecialDev_SHM : Z := 0x200000000.

Record MappedResource := mkResource { Mrid : MRID; FirstVMA : option Z; RLength : Z }.

Record VMATracking := mkTracking {
  VMAs : gmap Z VMAEntry; MappedResources : gmap ResourceId MappedResource;
  Generation : Z; MarkNoOpCache : list Z }.

(** ** Updates of one field *)

Definition set_VMAs (f : gmap Z VMAEntry -> gmap Z VMAEntry) (s : VMATracking) : VMATracking :=
  mkTracking (f (VMAs s)) (MappedResources s) (Generation s) (MarkNoOpCache s).
Definition set_resources (f : gmap ResourceId MappedResource -> gmap ResourceId MappedResource) (s : VMATracking) : VMATracking :=
  mkTracking (VMAs s) (f (MappedResources s)) (Generation s) (MarkNoOpCache s).

Definition with_prev (p : option Z) (e : VMAEntry) : VMAEntry :=
  mkVMA (Resource e) p (ResourceNextVMA e) (Base e) (Offset e) (Length e) (Shared e) (Prot e).
Definition with_next (n : option Z) (e : VMAEntry) : VMAEntry :=
  mkVMA (Resource e) (ResourcePrevVMA e) n (Base e) (Offset e) (Length e) (Shared e) (Prot e).
Definition with_length (l : Z) (e : VMAEntry) : VMAEntry :=
  mkVMA (Resource e) (ResourcePrevVMA e) (ResourceNextVMA e) (Base e) (Offset e) l (Shared e) (Prot e).
Definition with_prot (p : VMAProt) (e : VMAEntry) : VMAEntry :=
  mkVMA (Resource e) (ResourcePrevVMA e) (ResourceNextVMA e) (Base e) (Offset e) (Length e) (Shared e) p.
Definition with_first (f : option Z) (r : MappedResource) : MappedResource := mkResource (Mrid r) f (RLength r).

Definition set_prev (b : Z) (p : option Z) : VMATracking -> VMATracking := set_VMAs (alter (with_prev p) b).
Definition set_next (b : Z) (n : option Z) : VMATracking -> VMATracking := set_VMAs (alter (with_next n) b).
Definition set_first (r : ResourceId) (f : option Z) : VMATracking -> VMATracking := set_resources (alter (with_first f) r).

(** [LOGMAN_THROW_A_FMT]. *)
Definition throw_unless (P : Prop) `{Decision P} : option unit := if decide P then Some tt else None.

(** ** List operations *)

Definition ListCheckVMALinks (b : option Z) (s : VMATracking) : option unit :=
  match b with
  | None => Some tt
  | Some b =>
      e ← VMAs s !! b;
      throw_unless (ResourceNextVMA e <> Some b);; throw_unless (ResourcePrevVMA e <> Some b)
  end.

(** The result says whether the list is now empty. *)
Definition ListRemove (b : Z) (s : VMATracking) : option (bool * VMATracking) :=
  e ← VMAs s !! b;
  r ← Resource e;
  R ← MappedResources s !! r;
  s ← match ResourcePrevVMA e with
      | Some p => P ← VMAs s !! p; throw_unless (ResourceNextVMA P = Some b);; Some (set_next p (ResourceNextVMA e) s)
      | None => throw_unless (FirstVMA R = Some b);; Some s
      end;
  s ← match ResourceNextVMA e with
      | Some n => N ← VMAs s !! n; throw_unless (ResourcePrevVMA N = Some b);; Some (set_prev n (ResourcePrevVMA e) s)
      | None => Some s
      end;
  s ← (if decide (FirstVMA R = Some b) then
         match ResourceNextVMA e with
         | Some n => N ← VMAs s !! n; throw_unless (ResourcePrevVMA N = None)
         | None => Some tt
         end;; Some (set_first r (ResourceNextVMA e) s)
       else Some s);
  ListCheckVMALinks (Some b) s;; ListCheckVMALinks (ResourceNextVMA e) s;; ListCheckVMALinks (ResourcePrevVMA e) s;;
  R ← MappedResources s !! r;
  Some (bool_decide (FirstVMA R = None), s).

Definition ListReplace (b n : Z) (s : VMATracking) : option VMATracking :=
  e ← VMAs s !! b;
  e' ← VMAs s !! n;
  r ← Resource e;
  throw_unless (Resource e' = Some r);;
  throw_unless (ResourcePrevVMA e' = ResourcePrevVMA e);;
  throw_unless (ResourceNextVMA e' = ResourceNextVMA e);;
  R ← MappedResources s !! r;
  s ← match ResourcePrevVMA e with
      | Some p =>
          throw_unless (FirstVMA R <> Some b);;
          P ← VMAs s !! p; throw_unless (ResourceNextVMA P = Some b);; Some (set_next p (Some n) s)
      | None => throw_unless (FirstVMA R = Some b);; Some (set_first r (Some n) s)
      end;
  s ← match ResourceNextVMA e with
      | Some x => N ← VMAs s !! x; throw_unless (ResourcePrevVMA N = Some b);; Some (set_prev x (Some n) s)
      | None => Some s
      end;
  ListCheckVMALinks (Some b) s;; ListCheckVMALinks (Some n) s;;
  ListCheckVMALinks (ResourceNextVMA e) s;; ListCheckVMALinks (ResourcePrevVMA e) s;;
  Some s.

Definition ListInsertAfter (a n : Z) (s : VMATracking) : option VMATracking :=
  e' ← VMAs s !! n;
  r ← Resource e';
  e ← VMAs s !! a;
  throw_unless (Resource e = Some r);;
  throw_unless (ResourcePrevVMA e' = Some a);;
  throw_unless (ResourceNextVMA e' = ResourceNextVMA e);;
  s ← match ResourceNextVMA e with
      | Some x => N ← VMAs s !! x; throw_unless (ResourcePrevVMA N = Some a);; Some (set_prev x (Some n) s)
      | None => Some s
      end;
  let s := set_next a (Some n) s in
  e ← VMAs s !! a;
  ListCheckVMALinks (Some a) s;; ListCheckVMALinks (Some n) s;;
  ListCheckVMALinks (ResourceNextVMA e) s;; ListCheckVMALinks (ResourcePrevVMA e) s;;
  Some s.

Definition ListPrepend (r : ResourceId) (n : Z) (s : VMATracking) : option VMATracking :=
  R ← MappedResources s !! r;
  e' ← VMAs s !! n;
  throw_unless (Resource e' = Some r);;
  throw_unless (ResourcePrevVMA e' = None);;
  throw_unless (ResourceNextVMA e' = FirstVMA R);;
  s ← match FirstVMA R with
      | Some x => N ← VMAs s !! x; throw_unless (ResourcePrevVMA N = None);; Some (set_prev x (Some n) s)
      | None => Some s
      end;
  let s := set_first r (Some n) s in
  ListCheckVMALinks (Some n) s;; ListCheckVMALinks (ResourceNextVMA e') s;; ListCheckVMALinks (ResourcePrevVMA e') s;;
  Some s.

(** ** Walking the ordered map *)

(** The element before the position of key [p] ([--it] there), and the first
    one at or after it ([lower_bound]). *)
Definition prev_key {A} (m : gmap Z A) (p : Z) : option Z :=
  map_fold (fun k _ acc => if k <? p then Some (match acc with Some a => Z.max a k | None => k end) else acc) None m.
Definition lower_bound {A} (m : gmap Z A) (p : Z) : option Z :=
  map_fold (fun k _ acc => if p <=? k then Some (match acc with Some a => Z.min a k | None => k end) else acc) None m.

(** [upper_bound], then one back. *)
Definition FindVMAEntry (GuestAddr : Z) (s : VMATracking) : option (Z * VMAEntry) :=
  k ← prev_key (VMAs s) (GuestAddr + 1);
  e ← VMAs s !! k;
  if (k <=? GuestAddr) && (u64 (k + Length e) >? GuestAddr) then Some (k, e) else None.

(** ** The memo of MarkGuestExecutableRange *)

Definition MarkNoOpIndexBits : Z := 9.
Definition MarkNoOpEntries : nat := 512.
Definition MarkNoOpGenBits : Z := 32.
Definition MarkNoOpGenMask : Z := 2 ^ MarkNoOpGenBits - 1.
Definition FEX_GUEST_PAGE_SHIFT : Z := 12.

Definition set_memo (g : Z) (c : list Z) (s : VMATracking) : VMATracking := mkTracking (VMAs s) (MappedResources s) g c.

Definition BumpGeneration (s : VMATracking) : VMATracking :=
  let New := u64 (Generation s + 1) in
  if Z.land New MarkNoOpGenMask =? 0 then set_memo (u64 (New + 1)) (replicate (length (MarkNoOpCache s)) 0) s
  else set_memo New (MarkNoOpCache s) s.

Definition MarkNoOpIndex (PageBase : Z) : nat :=
  Z.to_nat (Z.land (Z.shiftr PageBase FEX_GUEST_PAGE_SHIFT) (Z.of_nat MarkNoOpEntries - 1)).

Definition EncodeMarkNoOp (PageBase Gen : Z) : option Z :=
  let Tag := Z.shiftr (Z.shiftr PageBase FEX_GUEST_PAGE_SHIFT) MarkNoOpIndexBits in
  if negb (Z.shiftr Tag (64 - MarkNoOpGenBits) =? 0) then None
  else
    let Entry := Z.lor (u64 (Z.shiftl Tag MarkNoOpGenBits)) (Z.land Gen MarkNoOpGenMask) in
    if Entry =? 0 then None else Some Entry.

Definition IsMarkNoOp (PageBase Gen : Z) (s : VMATracking) : bool :=
  match EncodeMarkNoOp PageBase Gen with
  | None => false
  | Some Entry => bool_decide (MarkNoOpCache s !! MarkNoOpIndex PageBase = Some Entry)
  end.

Definition RecordMarkNoOp (PageBase Gen : Z) (s : VMATracking) : VMATracking :=
  match EncodeMarkNoOp PageBase Gen with
  | None => s
  | Some Entry => set_memo (Generation s) (<[MarkNoOpIndex PageBase := Entry]> (MarkNoOpCache s)) s
  end.

(** ** Removing a range *)

(** The body of the loop of [DeleteVMARange], for the entry at [k]. *)
Definition delete_one (Lo Top : Z) (Preserved : option ResourceId) (k : Z) (s : VMATracking) : option VMATracking :=
  Current ← VMAs s !! k;
  let MapBase := Base Current in
  let MapTop := u64 (MapBase + Length Current) in
  let OffsetDiff := u64 (Offset Current - MapBase) in
  let HasFirstPart := MapBase <? Lo in
  let HasTrailingPart := MapTop >? Top in
  if negb HasFirstPart && negb HasTrailingPart then
    s ← (if Resource Current is Some _ then
           '(Empty, s) ← ListRemove k s;
           Some (if Empty && negb (bool_decide (Resource Current = Preserved))
                 then set_resources (match Resource Current with Some r => delete r | None => id end) s else s)
         else Some s);
    Some (set_VMAs (delete k) s)
  else
    let s := if HasFirstPart then set_VMAs (alter (with_length (u64 (Lo - MapBase))) k) s else s in
    let ReplaceAndErase := negb HasFirstPart in
    s ← (if HasTrailingPart then
           let NewOffset := u64 (OffsetDiff + Top) in
           let NewLength := u64 (MapTop - Top) in
           throw_unless (VMAs s !! Top = None);;
           let s := set_VMAs (insert Top (mkVMA (Resource Current)
                      (if ReplaceAndErase then ResourcePrevVMA Current else Some k) (ResourceNextVMA Current)
                      Top NewOffset NewLength (Shared Current) (Prot Current))) s in
           if Resource Current is Some _ then if ReplaceAndErase then ListReplace k Top s else ListInsertAfter k Top s
           else Some s
         else Some s);
    Some (if ReplaceAndErase then set_VMAs (delete k) s else s).

(** The loop; [p] is the position, whose predecessor is looked at next.  A
    removed entry gives its position to its successor, so that the next step
    back meets the entry before it. *)
Fixpoint delete_loop (fuel : nat) (Lo Top : Z) (Preserved : option ResourceId) (p : Z) (s : VMATracking) : option VMATracking :=
  match fuel with
  | O => None
  | S fuel =>
      match prev_key (VMAs s) p with
      | None => Some s
      | Some k =>
          Current ← VMAs s !! k;
          if u64 (Base Current + Length Current) <=? Lo then Some s
          else s ← delete_one Lo Top Preserved k s; delete_loop fuel Lo Top Preserved k s
      end
  end.

Definition DeleteVMARange (Lo Len : Z) (Preserved : option ResourceId) (s : VMATracking) : option VMATracking :=
  let s := BumpGeneration s in
  let Top := u64 (Lo + Len) in
  delete_loop (S (size (VMAs s))) Lo Top Preserved Top s.

(** ** Adding a range *)

(** The walk along the resource's list to the place of [Lo]. *)
Fixpoint find_place (fuel : nat) (s : VMATracking) (Lo : Z) (PrevRes NextRes : option Z) : option (option Z * option Z) :=
  match fuel with
  | O => None
  | S fuel =>
      match NextRes with
      | None => Some (PrevRes, NextRes)
      | Some n =>
          N ← VMAs s !! n;
          if Base N <? Lo then find_place fuel s Lo (Some n) (ResourceNextVMA N) else Some (PrevRes, NextRes)
      end
  end.

Definition TrackVMARange (R : option ResourceId) (Lo Off Len : Z) (Sh : bool) (P : VMAProt) (s : VMATracking) : option VMATracking :=
  let s := BumpGeneration s in
  s ← DeleteVMARange Lo Len R s;
  First ← match R with Some r => FirstVMA <$> MappedResources s !! r | None => Some None end;
  '(PrevRes, NextRes) ← match First with
      | None => Some (None, None)
      | Some f =>
          F ← VMAs s !! f;
          Some (if Base F >? Lo then (None, Some f) else (Some f, ResourceNextVMA F))
      end;
  '(PrevRes, NextRes) ← find_place (S (size (VMAs s))) s Lo PrevRes NextRes;
  throw_unless (VMAs s !! Lo = None);;
  let s := set_VMAs (insert Lo (mkVMA R PrevRes NextRes Lo Off Len Sh P)) s in
  match R, PrevRes with
  | Some r, None => ListPrepend r Lo s
  | Some r, Some p => ListInsertAfter p Lo s
  | None, _ => Some s
  end.

(** ** Changing the protection of a range *)

(** [emplace] of a part of [Current] at [At], linked after the entry at [k]. *)
Definition insert_part (k : Z) (Current : VMAEntry) (Next : option Z) (At Off Len : Z) (P : VMAProt) (s : VMATracking) : option VMATracking :=
  throw_unless (VMAs s !! At = None);;
  let s := set_VMAs (insert At (mkVMA (Resource Current) (Some k) Next At Off Len (Shared Current) P)) s in
  if Resource Current is Some _ then ListInsertAfter k At s else Some s.

(** The loop: the entries that start inside the range and reach its end, from
    the last one down.  The result is the position it stops at and the end of
    what is left of the range. *)
Fixpoint protect_loop (fuel : nat) (Lo Top : Z) (NewProt : VMAProt) (p : Z) (s : VMATracking) : option (option Z * Z * VMATracking) :=
  match fuel with
  | O => None
  | S fuel =>
      match prev_key (VMAs s) p with
      | None => Some (lower_bound (VMAs s) 0, Top, s)
      | Some k =>
          Current ← VMAs s !! k;
          let CurrentTop := u64 (Base Current + Length Current) in
          if (Base Current <=? Lo) || (CurrentTop <? Top) then Some (Some k, Top, s)
          else
            let CurrentBase := Base Current in
            let OffsetDiff := u64 (Offset Current - CurrentBase) in
            s ← (if CurrentTop >? Top then
                   insert_part k Current (ResourceNextVMA Current) Top (u64 (OffsetDiff + CurrentBase)) (u64 (CurrentTop - Top)) (Prot Current) s
                 else Some s);
            let s := set_VMAs (alter (with_prot NewProt) k) s in
            let s := set_VMAs (alter (with_length (u64 (Top - CurrentBase))) k) s in
            protect_loop fuel Lo (u64 (Lo + u64 (CurrentBase - Lo))) NewProt k s
      end
  end.

(** The entry the loop stops at. *)
Definition protect_last (Lo Top : Z) (NewProt : VMAProt) (k : Z) (s : VMATracking) : option VMATracking :=
  Current ← VMAs s !! k;
  let CurrentBase := Base Current in
  let CurrentTop := u64 (CurrentBase + Length Current) in
  let OffsetDiff := u64 (Offset Current - CurrentBase) in
  if CurrentTop <=? Lo then Some s
  else if (CurrentBase =? Lo) && (CurrentTop =? Top) then Some (set_VMAs (alter (with_prot NewProt) k) s)
  else if (CurrentBase =? Lo) && (CurrentTop >? Top) then
    let s := set_VMAs (alter (with_prot NewProt) k) s in
    let s := set_VMAs (alter (with_length (u64 (Top - CurrentBase))) k) s in
    insert_part k Current (ResourceNextVMA Current) Top (u64 (OffsetDiff + Top)) (u64 (CurrentTop - Top)) (Prot Current) s
  else if (CurrentBase <? Lo) && (CurrentTop >=? Top) then
    let s := set_VMAs (alter (with_length (u64 (Lo - CurrentBase))) k) s in
    s ← insert_part k Current (ResourceNextVMA Current) Lo (u64 (OffsetDiff + Lo)) (u64 (Top - Lo)) NewProt s;
    if CurrentTop >? Top then
      Now ← VMAs s !! k;
      insert_part k Current (ResourceNextVMA Now) Top (u64 (OffsetDiff + Top)) (u64 (CurrentTop - Top)) (Prot Current) s
    else Some s
  else None.

Definition ChangeProtectionFlags (Lo Len : Z) (NewProt : VMAProt) (s : VMATracking) : option VMATracking :=
  let s := BumpGeneration s in
  if Len =? 0 then Some s
  else
    let Top := u64 (Lo + Len) in
    '(k, Top, s) ← protect_loop (S (size (VMAs s))) Lo Top NewProt Top s;
    k ← k;
    protect_last Lo Top NewProt k s.

(** ** Detaching shared memory *)

Definition is_shm (e : VMAEntry) (s : VMATracking) : bool :=
  match Resource e with
  | Some r => match MappedResources s !! r with Some R => dev (Mrid R) =? SpecialDev_SHM | None => false end
  | None => false
  end.

(** The first entry at or after [p] that is the attachment at [Lo]. *)
Fixpoint find_shm (fuel : nat) (Lo p : Z) (s : VMATracking) : option (option Z) :=
  match fuel with
  | O => None
  | S fuel =>
      match lower_bound (VMAs s) p with
      | None => Some None
      | Some k =>
          e ← VMAs s !! k;
          throw_unless (Base e >= Lo);;
          if (u64 (Base e - Lo) =? Offset e) && is_shm e s then Some (Some k) else find_shm fuel Lo (k + 1) s
      end
  end.

(** One entry erased, or left, by the loop. *)
Definition shm_erase (r : nat) (k : Z) (e : VMAEntry) (s : VMATracking) : option VMATracking :=
  if bool_decide (Resource e = Some r) then
    '(Empty, s) ← ListRemove k s;
    let s := if (Empty : bool) then set_resources (delete r) s else s in
    Some (set_VMAs (delete k) s)
  else Some s.

(** The do-while loop from the entry at [k]; the position after an entry is
    that of the next one, erased or not. *)
Fixpoint shm_loop (fuel : nat) (Lo ShmLength : Z) (r : ResourceId) (k : Z) (s : VMATracking) : option VMATracking :=
  match fuel with
  | O => None
  | S fuel =>
      e ← VMAs s !! k;
      s ← shm_erase r k e s;
      match lower_bound (VMAs s) (k + 1) with
      | None => Some s
      | Some n =>
          N ← VMAs s !! n;
          if u64 (u64 (Base N + Length N) - Lo) <=? ShmLength then shm_loop fuel Lo ShmLength r n s else Some s
      end
  end.

Definition DeleteSHMRegion (Lo : Z) (s : VMATracking) : option (Z * VMATracking) :=
  let s := BumpGeneration s in
  k ← find_shm (S (size (VMAs s))) Lo Lo s;
  match k with
  | None => Some (0, s)
  | Some k =>
      e ← VMAs s !! k;
      r ← Resource e;
      R ← MappedResources s !! r;
      s ← shm_loop (S (size (VMAs s))) Lo (RLength R) r k s;
      Some (RLength R, s)
  end.

(** [InsertMappedResource], with an unused name. *)
Definition InsertMappedResource (R : MappedResource) (s : VMATracking) : ResourceId * VMATracking :=
  let r := fresh (dom (MappedResources s)) in (r, set_resources (insert r R) s).

(** ** What the decoder asks *)

(** [ReadImpliesExec]: the thread's personality has READ_IMPLIES_EXEC. *)
Definition QueryGuestExecutableRange (ReadImpliesExec : bool) (Address : Z) (s : VMATracking) : Z * Z * bool :=
  match FindVMAEntry Address s with
  | None => (0, 0, false)
  | Some (k, e) =>
      if negb (Executable (Prot e)) && (negb ReadImpliesExec || negb (Readable (Prot e))) then (0, 0, false)
      else (k, Length e, Writable (Prot e))
  end.
End VMA.
