(* ===== verification/VMALinks.v ===== *)
(** The resource lists of [VMA]: a doubly linked segment of map entries, and
    what the four list operations do to it.  No assertion of theirs fails on a
    well-linked list. *)
From S2P Require Import Prelude VMA.
From stdpp Require Import gmap.
Open Scope Z_scope.
Import VMA.

(** ** Segments *)

(** The first element of [l], or what follows it; the last, or what precedes. *)
Definition hd_or (n : option Z) (l : list Z) : option Z := match l with [] => n | x :: _ => Some x end.
Fixpoint last_or (p : option Z) (l : list Z) : option Z := match l with [] => p | x :: l => last_or (Some x) l end.

(** The entries [l] of resource [r] are linked, after [p] and before [n]. *)
Fixpoint seg (m : gmap Z VMAEntry) (r : nat) (p : option Z) (l : list Z) (n : option Z) : Prop :=
  match l with
  | [] => True
  | k :: l =>
      (exists e, m !! k = Some e /\ Resource e = Some r /\ ResourcePrevVMA e = p /\ ResourceNextVMA e = hd_or n l) /\
      seg m r (Some k) l n
  end.

Lemma seg_app m r p l1 l2 n : seg m r p (l1 ++ l2) n <-> seg m r p l1 (hd_or n l2) /\ seg m r (last_or p l1) l2 n.
Proof.
  revert p. induction l1 as [|k l1 IH]; intros p; cbn [app seg last_or]; [tauto|]. rewrite IH.
  replace (hd_or n (l1 ++ l2)) with (hd_or (hd_or n l2) l1) by (by destruct l1). tauto.
Qed.

Lemma seg_frame m m' r p l n : (forall k, k ∈ l -> m' !! k = m !! k) -> seg m r p l n -> seg m' r p l n.
Proof.
  revert p. induction l as [|k l IH]; intros p Hf; cbn [seg]; [done|]. intros [(e & He & Hr) Hs]. split.
  - exists e. rewrite Hf by apply list_elem_of_here. done.
  - apply IH; [|done]. intros k' Hk'. apply Hf. by apply list_elem_of_further.
Qed.

Lemma seg_elem m r p l n k : seg m r p l n -> k ∈ l -> exists e, m !! k = Some e /\ Resource e = Some r.
Proof.
  revert p. induction l as [|x l IH]; intros p; cbn [seg]; [by rewrite elem_of_nil|].
  intros [(e & He & Hr & _) Hs] [->|Hk]%elem_of_cons; [by exists e|by eapply IH].
Qed.

Lemma list_snoc_cases (l : list Z) : l = [] \/ exists k l', l = l' ++ [k].
Proof. induction l as [|k l _] using rev_ind; [by left|right; eauto]. Qed.

Lemma last_or_snoc p l k : last_or p (l ++ [k]) = Some k.
Proof. revert p. by induction l as [|x l IH]; intros p; cbn; [|apply IH]. Qed.

Lemma last_or_some p l k : last_or (Some p) l = Some k -> k ∈ p :: l.
Proof.
  revert p. induction l as [|x l IH]; intros p; cbn [last_or]; [intros [= ->]; apply list_elem_of_here|].
  intros H. apply list_elem_of_further, IH, H.
Qed.

(** Relinking the end and the start of a segment. *)
Lemma seg_set_last m r p l k n n' :
  k ∉ l -> seg m r p (l ++ [k]) n -> seg (alter (with_next n') k m) r p (l ++ [k]) n'.
Proof.
  intros Hk. rewrite !seg_app. intros [Hl [(e & He & Hr & Hp & Hn) _]]. split.
  - eapply seg_frame; [|exact Hl]. intros x Hx. apply lookup_alter_ne. set_solver.
  - split; [|done]. exists (with_next n' e). by rewrite lookup_alter_eq, He.
Qed.

Lemma seg_set_first m r p p' k l n :
  k ∉ l -> seg m r p (k :: l) n -> seg (alter (with_prev p') k m) r p' (k :: l) n.
Proof.
  intros Hk [(e & He & Hr & Hp & Hn) Hl]. split.
  - exists (with_prev p' e). by rewrite lookup_alter_eq, He.
  - eapply seg_frame; [|exact Hl]. intros x Hx. apply lookup_alter_ne. set_solver.
Qed.

(** ** The list of a resource *)

Record chain (s : VMATracking) (r : nat) (l : list Z) : Prop := {
  chain_res : exists R, MappedResources s !! r = Some R /\ FirstVMA R = hd_or None l;
  chain_seg : seg (VMAs s) r None l None;
  chain_nodup : NoDup l }.

(** The attributes without the links. *)
Definition shape (e : VMAEntry) : VMAEntry := with_prev None (with_next None e).

(** [s'] is [s] with links of resource [r] changed, of the entries [l] only. *)
Record relink (r : nat) (l : list Z) (s s' : VMATracking) : Prop := {
  relink_shape k : shape <$> VMAs s' !! k = shape <$> VMAs s !! k;
  relink_frame k : k ∉ l -> VMAs s' !! k = VMAs s !! k;
  relink_other r' : r' <> r -> MappedResources s' !! r' = MappedResources s !! r';
  relink_res : with_first None <$> MappedResources s' !! r = with_first None <$> MappedResources s !! r;
  relink_gen : Generation s' = Generation s /\ MarkNoOpCache s' = MarkNoOpCache s }.

Lemma relink_refl r l s : relink r l s s.
Proof. by split. Qed.

Lemma relink_trans r l s1 s2 s3 : relink r l s1 s2 -> relink r l s2 s3 -> relink r l s1 s3.
Proof.
  intros [A1 B1 C1 D1 E1] [A2 B2 C2 D2 E2]. split.
  - intros k. by rewrite A2, A1.
  - intros k Hk. by rewrite B2, B1.
  - intros r' Hr. by rewrite C2, C1.
  - by rewrite D2, D1.
  - destruct E1 as [-> ->] in E2. done.
Qed.

Lemma relink_prev r l b p s : b ∈ l -> relink r l s (set_prev b p s).
Proof.
  intros Hb. split; try done; intros k.
  - cbn. destruct (decide (k = b)) as [->|]; [rewrite lookup_alter_eq; by destruct (VMAs s !! b)|by rewrite lookup_alter_ne].
  - intros Hk. cbn. apply lookup_alter_ne. set_solver.
Qed.

Lemma relink_next r l b n s : b ∈ l -> relink r l s (set_next b n s).
Proof.
  intros Hb. split; try done; intros k.
  - cbn. destruct (decide (k = b)) as [->|]; [rewrite lookup_alter_eq; by destruct (VMAs s !! b)|by rewrite lookup_alter_ne].
  - intros Hk. cbn. apply lookup_alter_ne. set_solver.
Qed.

Lemma relink_first r l f s : relink r l s (set_first r f s).
Proof.
  split; try done; cbn.
  - intros r' Hr. by apply lookup_alter_ne.
  - rewrite lookup_alter_eq. by destruct (MappedResources s !! r).
Qed.

Lemma set_VMAs_ext f s s' : VMAs s' = VMAs s -> VMAs (set_VMAs f s') = VMAs (set_VMAs f s).
Proof. cbn. by intros ->. Qed.

(** ** The operations *)

Lemma throw_ok (P : Prop) `{Decision P} : P -> throw_unless P = Some tt.
Proof. intros HP. unfold throw_unless. by rewrite decide_True. Qed.

Lemma seg_at m r l1 k l2 :
  seg m r None (l1 ++ k :: l2) None ->
  exists e, m !! k = Some e /\ Resource e = Some r /\ ResourcePrevVMA e = last_or None l1 /\ ResourceNextVMA e = hd_or None l2.
Proof. rewrite seg_app. by intros [_ [H _]]. Qed.

Lemma last_or_none_some l k : last_or None l = Some k -> k ∈ l.
Proof. destruct l as [|x l]; [done|]. apply last_or_some. Qed.

Lemma hd_or_none_some l k : hd_or None l = Some k -> k ∈ l.
Proof. destruct l as [|x l]; [done|]. intros [= ->]. apply list_elem_of_here. Qed.

Lemma check_entry s k e :
  VMAs s !! k = Some e -> ResourceNextVMA e <> Some k -> ResourcePrevVMA e <> Some k -> ListCheckVMALinks (Some k) s = Some tt.
Proof. intros He Hn Hp. unfold ListCheckVMALinks. rewrite He. cbn. by rewrite !throw_ok. Qed.

(** No entry of a list points at itself. *)
Lemma check_elem s r l k : seg (VMAs s) r None l None -> NoDup l -> k ∈ l -> ListCheckVMALinks (Some k) s = Some tt.
Proof.
  intros Hs Hnd Hk. apply list_elem_of_split in Hk as (l1 & l2 & ->). destruct (seg_at _ _ _ _ _ Hs) as (e & He & _ & Hp & Hn).
  apply NoDup_app in Hnd as (_ & H1 & H2). apply NoDup_cons in H2 as [H2 _]. apply (check_entry _ _ _ He).
  - rewrite Hn. by intros Hl%hd_or_none_some.
  - rewrite Hp. intros Hl%last_or_none_some. by apply (H1 k Hl), list_elem_of_here.
Qed.

Lemma check_option s r l x :
  seg (VMAs s) r None l None -> NoDup l -> (forall k, x = Some k -> k ∈ l) -> ListCheckVMALinks x s = Some tt.
Proof. intros Hs Hnd Hx. destruct x as [k|]; [|done]. eapply check_elem; [done|done|by apply Hx]. Qed.

(** Relinking around the place between [l1] and [l2]: its left neighbour (or
    the resource) points right to [x], its right neighbour left to [y]. *)
Definition link_right (r : nat) (l1 : list Z) (x : option Z) (s : VMATracking) : VMATracking :=
  match last_or None l1 with Some p => set_next p x s | None => set_first r x s end.
Definition link_left (l2 : list Z) (y : option Z) (s : VMATracking) : VMATracking :=
  match hd_or None l2 with Some n => set_prev n y s | None => s end.

Lemma VMAs_link_right r l1 x s k : k ∉ l1 -> VMAs (link_right r l1 x s) !! k = VMAs s !! k.
Proof.
  intros Hk. unfold link_right. destruct (last_or None l1) as [p|] eqn:Hp; [|done]. cbn. apply lookup_alter_ne.
  intros ->. by apply Hk, last_or_none_some.
Qed.

Lemma VMAs_link_left l2 y s k : k ∉ l2 -> VMAs (link_left l2 y s) !! k = VMAs s !! k.
Proof.
  intros Hk. unfold link_left. destruct (hd_or None l2) as [p|] eqn:Hp; [|done]. cbn. apply lookup_alter_ne.
  intros ->. by apply Hk, hd_or_none_some.
Qed.

Lemma seg_link_right r p l1 x s n : NoDup l1 -> p = None -> seg (VMAs s) r p l1 n -> seg (VMAs (link_right r l1 x s)) r p l1 x.
Proof.
  intros Hnd -> Hs. destruct (list_snoc_cases l1) as [->|(k & l1' & ->)]; [done|]. unfold link_right. rewrite last_or_snoc.
  apply NoDup_app in Hnd as (_ & Hd & _). eapply seg_set_last; [|exact Hs]. intros Hk. by apply (Hd k Hk), list_elem_of_here.
Qed.

Lemma seg_link_left r p y l2 s : NoDup l2 -> seg (VMAs s) r p l2 None -> seg (VMAs (link_left l2 y s)) r y l2 None.
Proof.
  intros Hnd Hs. destruct l2 as [|k l2]; [done|]. unfold link_left. cbn [hd_or]. apply NoDup_cons in Hnd as [Hk _].
  eapply seg_set_first; [done|exact Hs].
Qed.

Lemma relink_link_right r l1 x s l : l1 ⊆ l -> relink r l s (link_right r l1 x s).
Proof.
  intros Hl. unfold link_right. destruct (last_or None l1) as [p|] eqn:Hp; [|apply relink_first].
  apply relink_next, Hl, last_or_none_some, Hp.
Qed.

Lemma relink_link_left r l2 y s l : l2 ⊆ l -> relink r l s (link_left l2 y s).
Proof.
  intros Hl. unfold link_left. destruct (hd_or None l2) as [p|] eqn:Hp; [|apply relink_refl].
  apply relink_prev, Hl, hd_or_none_some, Hp.
Qed.

(** The list after relinking, with [mid] between the two parts. *)
Lemma chain_link s r l1 mid l2 n1 p2 :
  NoDup (l1 ++ mid ++ l2) -> is_Some (MappedResources s !! r) ->
  seg (VMAs s) r None l1 n1 -> seg (VMAs s) r p2 l2 None -> seg (VMAs s) r (last_or None l1) mid (hd_or None l2) ->
  (l1 <> [] -> FirstVMA <$> MappedResources s !! r = Some (hd_or None l1)) ->
  chain (link_left l2 (last_or (last_or None l1) mid) (link_right r l1 (hd_or None (mid ++ l2)) s)) r (l1 ++ mid ++ l2).
Proof.
  intros Hnd [R HR] H1 H2 Hm Hf. pose proof Hnd as Hnd0. apply NoDup_app in Hnd as (N1 & N12 & N2). apply NoDup_app in N2 as (Nm & Nm2 & N2).
  split; [| |done].
  - unfold link_left, link_right. destruct (last_or None l1) as [p|] eqn:Hp.
    + assert (l1 <> []) as Hne by (by intros ->). exists R. specialize (Hf Hne). rewrite HR in Hf. injection Hf as Hf.
      split; [by destruct (hd_or None l2)|]. rewrite Hf. by destruct l1.
    + assert (l1 = []) as -> by (destruct (list_snoc_cases l1) as [->|(k & l1' & ->)]; [done|by rewrite last_or_snoc in Hp]).
      exists (with_first (hd_or None (mid ++ l2)) R). split; [|done].
      destruct (hd_or None l2); cbn; by rewrite lookup_alter_eq, HR.
  - rewrite !seg_app. split_and!.
    + eapply seg_frame; [|eapply seg_link_right; [done|done|exact H1]]. intros k Hk. apply VMAs_link_left.
      intros Hk2. apply (N12 k Hk). apply elem_of_app. by right.
    + eapply seg_frame; [|exact Hm]. intros k Hk. rewrite VMAs_link_left by (intros Hk2; by apply (Nm2 k Hk)).
      apply VMAs_link_right. intros Hk1. apply (N12 k Hk1). apply elem_of_app. by left.
    + eapply seg_link_left; [done|]. eapply seg_frame; [|exact H2]. intros k Hk. apply VMAs_link_right.
      intros Hk1. apply (N12 k Hk1). apply elem_of_app. by right.
Qed.

(** The resource record a list hangs on. *)
Lemma chain_first s r l : chain s r l -> FirstVMA <$> MappedResources s !! r = Some (hd_or None l) /\ is_Some (MappedResources s !! r).
Proof. intros [(R & HR & Hf) _ _]. rewrite HR. cbn. by rewrite Hf. Qed.

Lemma hd_or_app l1 l2 : l1 <> [] -> hd_or None (l1 ++ l2) = hd_or None l1.
Proof. by destruct l1. Qed.

Lemma NoDup_middle (l1 : list Z) b l2 : NoDup (l1 ++ b :: l2) -> NoDup (l1 ++ l2).
Proof. rewrite !NoDup_app, NoDup_cons. intros (H1 & H12 & _ & H2). split_and!; [done| |done]. intros x Hx Hx2. apply (H12 x Hx). by apply list_elem_of_further. Qed.

Lemma chain_removed s r l1 b l2 :
  chain s r (l1 ++ b :: l2) -> chain (link_left l2 (last_or None l1) (link_right r l1 (hd_or None l2) s)) r (l1 ++ l2).
Proof.
  intros Hc. destruct (chain_first _ _ _ Hc) as [Hf Hr]. destruct Hc as [_ Hs Hnd]. rewrite seg_app in Hs. destruct Hs as [H1 [_ H2]].
  apply (chain_link s r l1 [] l2 (hd_or None (b :: l2)) (Some b)); [|done|done|done|done|].
  - by apply NoDup_middle in Hnd.
  - intros Hne. by rewrite Hf, hd_or_app.
Qed.

(** The neighbours of an entry of a list. *)
Lemma prev_entry m r l1 b l2 p :
  seg m r None (l1 ++ b :: l2) None -> last_or None l1 = Some p ->
  exists P, m !! p = Some P /\ Resource P = Some r /\ ResourceNextVMA P = Some b.
Proof.
  intros Hs Hl. destruct (list_snoc_cases l1) as [->|(k & l1' & ->)]; [done|]. rewrite last_or_snoc in Hl. injection Hl as ->.
  rewrite <- app_assoc in Hs. destruct (seg_at _ _ _ _ _ Hs) as (P & HP & Hr & _ & Hn). by exists P.
Qed.

Lemma next_entry m r l1 b l2 n :
  seg m r None (l1 ++ b :: l2) None -> hd_or None l2 = Some n ->
  exists N, m !! n = Some N /\ Resource N = Some r /\ ResourcePrevVMA N = Some b.
Proof.
  intros Hs Hl. destruct l2 as [|k l2]; [done|]. injection Hl as ->. rewrite cons_middle, app_assoc in Hs.
  destruct (seg_at _ _ _ _ _ Hs) as (N & HN & Hr & Hp & _). exists N. by rewrite last_or_snoc in Hp.
Qed.

Lemma first_is_head s r R l1 b l2 :
  MappedResources s !! r = Some R -> FirstVMA R = hd_or None (l1 ++ b :: l2) -> NoDup (l1 ++ b :: l2) ->
  FirstVMA R = Some b <-> last_or None l1 = None.
Proof.
  intros HR -> Hnd. destruct l1 as [|x l1]; [done|]. cbn [hd_or app]. split.
  - intros [= ->]. cbn in Hnd. apply NoDup_cons in Hnd as [H _]. destruct H. apply elem_of_app. right. apply list_elem_of_here.
  - intros H. cbn [last_or] in H. destruct (list_snoc_cases l1) as [->|(k & l' & ->)]; [done|by rewrite last_or_snoc in H].
Qed.

(** Evaluates the next statement of a list operation. *)
Ltac eval_step :=
  first [ rewrite throw_ok by (congruence || done)
        | match goal with H : ?m !! ?k = Some _ |- context [?m !! ?k] => rewrite H end ]; cbn [mbind option_bind].

(** The right neighbour pointed back at [q]. *)
Lemma step_left s l2 q y :
  (forall n, hd_or None l2 = Some n -> exists N, VMAs s !! n = Some N /\ ResourcePrevVMA N = q) ->
  match hd_or None l2 with
  | Some n => N ← VMAs s !! n; throw_unless (ResourcePrevVMA N = q);; Some (set_prev n y s)
  | None => Some s
  end = Some (link_left l2 y s).
Proof.
  intros H. unfold link_left. destruct (hd_or None l2) as [n|]; [|done]. destruct (H n eq_refl) as (N & HN & Hp).
  rewrite HN. cbn [mbind option_bind]. by rewrite throw_ok.
Qed.

(** The same where it was the first. *)
Lemma step_left_first s l2 y :
  (forall n, hd_or None l2 = Some n -> exists N, VMAs s !! n = Some N /\ ResourcePrevVMA N = None) ->
  match hd_or None l2 with
  | Some n => N ← VMAs s !! n; throw_unless (ResourcePrevVMA N = None);; Some (set_prev n y s)
  | None => Some s
  end = Some (link_left l2 y s).
Proof.
  intros H. unfold link_left. destruct (hd_or None l2) as [n|]; [|done]. destruct (H n eq_refl) as (N & HN & Hp).
  rewrite HN. cbn [mbind option_bind]. by rewrite throw_ok.
Qed.

Lemma ListRemove_spec s r l1 b l2 (s' := link_left l2 (last_or None l1) (link_right r l1 (hd_or None l2) s)) :
  chain s r (l1 ++ b :: l2) ->
  ListRemove b s = Some (bool_decide (l1 ++ l2 = []), s') /\ chain s' r (l1 ++ l2) /\ relink r (l1 ++ l2) s s'.
Proof.
  intros Hc. pose proof (chain_removed _ _ _ _ _ Hc) as Hc'. fold s' in Hc'.
  assert (Hrl : relink r (l1 ++ l2) s s').
  { eapply relink_trans; [apply relink_link_right|apply relink_link_left]; set_solver. }
  split; [|done]. destruct Hc as [(R & HR & Hf) Hs Hnd]. destruct (seg_at _ _ _ _ _ Hs) as (e & He & Hr & Hp & Hn).
  pose proof (first_is_head _ _ _ _ _ _ HR Hf Hnd) as Hfirst.
  pose proof Hnd as Hnd0. apply NoDup_app in Hnd0 as (N1 & N12 & N2). apply NoDup_cons in N2 as [Nb N2].
  assert (Hb1 : b ∉ l1) by (intros H; apply (N12 b H), list_elem_of_here).
  assert (Htail : (ListCheckVMALinks (Some b) s';; ListCheckVMALinks (hd_or None l2) s';; ListCheckVMALinks (last_or None l1) s';;
                   R0 ← MappedResources s' !! r; Some (bool_decide (FirstVMA R0 = None), s')) = Some (bool_decide (l1 ++ l2 = []), s')).
  { destruct Hc' as [(R' & HR' & Hf') Hs' Hnd']. assert (He' : VMAs s' !! b = Some e).
    { rewrite <- He. apply (relink_frame _ _ _ _ Hrl). set_solver. }
    rewrite (check_entry _ _ _ He'); cbn [mbind option_bind]; [|rewrite Hn; by intros H%hd_or_none_some|rewrite Hp; by intros H%last_or_none_some].
    rewrite (check_option _ _ _ (hd_or None l2) Hs' Hnd'); cbn [mbind option_bind]; [|intros k Hk%hd_or_none_some; set_solver].
    rewrite (check_option _ _ _ (last_or None l1) Hs' Hnd'); cbn [mbind option_bind]; [|intros k Hk%last_or_none_some; set_solver].
    rewrite HR'. cbn. f_equal. f_equal. apply bool_decide_ext. rewrite Hf'. by destruct (l1 ++ l2). }
  unfold ListRemove. rewrite He. cbn [mbind option_bind]. rewrite Hr. cbn [mbind option_bind]. rewrite HR. cbn [mbind option_bind].
  rewrite Hp, Hn. unfold s', link_right in *. clear Hc' Hrl.
  assert (Hnext : forall n, hd_or None l2 = Some n -> exists N, VMAs s !! n = Some N /\ ResourcePrevVMA N = Some b).
  { intros n Hl. destruct (next_entry _ _ _ _ _ _ Hs Hl) as (N & HN & _ & HNp). by exists N. }
  destruct (last_or None l1) as [p|] eqn:Hpl.
  - destruct (prev_entry _ _ _ _ _ _ Hs Hpl) as (P & HP & _ & HPn). repeat eval_step.
    rewrite (step_left _ _ (Some b)); cbn [mbind option_bind].
    + rewrite decide_False by (rewrite Hfirst; done). cbn [mbind option_bind]. exact Htail.
    + intros n Hl. destruct (Hnext n Hl) as (N & HN & HNp). exists N. split; [|done]. cbn. rewrite lookup_alter_ne; [done|].
      intros ->. apply (N12 n); [by apply last_or_none_some|]. apply list_elem_of_further. by apply hd_or_none_some.
  - rewrite throw_ok by (by apply Hfirst). cbn [mbind option_bind]. rewrite (step_left _ _ (Some b) _ Hnext). cbn [mbind option_bind].
    rewrite decide_True by (by apply Hfirst).
    assert (Hthrow : match hd_or None l2 with Some n => N ← VMAs (link_left l2 None s) !! n; throw_unless (ResourcePrevVMA N = None) | None => Some () end = Some ()).
    { unfold link_left. destruct (hd_or None l2) as [n|]; [|done]. destruct (Hnext n eq_refl) as (N & HN & _). cbn.
      rewrite lookup_alter_eq, HN. cbn. by rewrite throw_ok. }
    rewrite Hthrow. cbn [mbind option_bind]. rewrite <- Htail. unfold link_left. by destruct (hd_or None l2).
Qed.

Lemma set_next_link_left a x l2 y s : a ∉ l2 -> set_next a x (link_left l2 y s) = link_left l2 y (set_next a x s).
Proof.
  intros Ha. unfold link_left. destruct (hd_or None l2) as [n|] eqn:Hn; [|done]. unfold set_next, set_prev, set_VMAs. cbn. f_equal.
  apply alter_alter_ne. intros ->. by apply Ha, hd_or_none_some.
Qed.

Lemma ListInsertAfter_spec s r l1 a l2 n e' (s' := link_left l2 (Some n) (set_next a (Some n) s)) :
  chain s r (l1 ++ a :: l2) -> n ∉ l1 ++ a :: l2 -> VMAs s !! n = Some e' -> Resource e' = Some r ->
  ResourcePrevVMA e' = Some a -> ResourceNextVMA e' = hd_or None l2 ->
  ListInsertAfter a n s = Some s' /\ chain s' r (l1 ++ a :: n :: l2) /\ relink r (l1 ++ a :: l2) s s'.
Proof.
  intros Hc Hn He' Hr' Hp' Hn'. destruct (chain_first _ _ _ Hc) as [Hf HR]. destruct Hc as [_ Hs Hnd].
  destruct (seg_at _ _ _ _ _ Hs) as (e & He & Hr & Hp & Hnx).
  pose proof Hnd as Hnd0. apply NoDup_app in Hnd0 as (N1 & N12 & N2). apply NoDup_cons in N2 as [Na N2].
  assert (Hchain : chain s' r (l1 ++ a :: n :: l2)).
  { pose proof Hs as Hs0. rewrite (cons_middle a), app_assoc, seg_app, last_or_snoc in Hs0. destruct Hs0 as [H1 H2].
    pose proof (chain_link s r (l1 ++ [a]) [n] l2 (hd_or None l2) (Some a)) as Hl. unfold link_right in Hl. rewrite last_or_snoc in Hl. cbn [last_or hd_or app] in Hl.
    rewrite (cons_middle a), app_assoc. apply Hl; [|done|done|done| |].
    - rewrite <- app_assoc. cbn [app]. apply NoDup_app. split_and!; [done| |].
      + intros x Hx Hx'. apply elem_of_cons in Hx' as [->|[->|Hx']%elem_of_cons]; [by apply (N12 a Hx), list_elem_of_here|set_solver|].
        apply (N12 x Hx). by apply list_elem_of_further.
      + apply NoDup_cons. split; [set_solver|]. apply NoDup_cons. split; [set_solver|done].
    - split; [|done]. by exists e'.
    - intros _. rewrite Hf. by destruct l1. }
  assert (Hrl : relink r (l1 ++ a :: l2) s s').
  { eapply relink_trans; [apply relink_next|apply relink_link_left]; set_solver. }
  split; [|done]. unfold ListInsertAfter. rewrite He'. cbn [mbind option_bind]. rewrite Hr'. cbn [mbind option_bind]. rewrite He. cbn [mbind option_bind].
  rewrite !throw_ok by (congruence || done). cbn [mbind option_bind]. rewrite Hnx, (step_left _ _ (Some a)); cbn [mbind option_bind].
  - rewrite set_next_link_left by done. fold s'. destruct Hchain as [_ Hs' Hnd'].
    destruct (seg_at _ _ _ _ _ Hs') as (ea & Hea & _ & Hpa & Hna). rewrite Hea. cbn [mbind option_bind]. rewrite Hpa, Hna.
    rewrite !(check_option _ _ _ _ Hs' Hnd'); [done|..]; intros k.
    + intros [= <-]. set_solver.
    + intros [= <-]. set_solver.
    + intros [= <-]. set_solver.
    + intros Hk%last_or_none_some. set_solver.
  - intros x Hx. destruct (next_entry _ _ _ _ _ _ Hs Hx) as (N & HN & _ & HNp). by exists N.
Qed.

Lemma ListPrepend_spec s r l n e' (s' := link_left l (Some n) (set_first r (Some n) s)) :
  chain s r l -> n ∉ l -> VMAs s !! n = Some e' -> Resource e' = Some r ->
  ResourcePrevVMA e' = None -> ResourceNextVMA e' = hd_or None l ->
  ListPrepend r n s = Some s' /\ chain s' r (n :: l) /\ relink r l s s'.
Proof.
  intros Hc Hn He' Hr' Hp' Hn'. destruct Hc as [(R & HR & Hf) Hs Hnd].
  assert (Hchain : chain s' r (n :: l)).
  { apply (chain_link s r [] [n] l None None); [by apply NoDup_cons|eauto|done|done| |done]. split; [|done]. by exists e'. }
  assert (Hrl : relink r l s s') by (eapply relink_trans; [apply relink_first|apply relink_link_left; set_solver]).
  split; [|done]. unfold ListPrepend. rewrite HR. cbn [mbind option_bind]. rewrite He'. cbn [mbind option_bind].
  rewrite !throw_ok by congruence. cbn [mbind option_bind]. rewrite Hf, step_left_first; cbn [mbind option_bind].
  - replace (set_first r (Some n) (link_left l (Some n) s)) with s' by (unfold s', link_left; by destruct (hd_or None l)).
    destruct Hchain as [_ Hs' Hnd']. rewrite Hn', Hp'. rewrite !(check_option _ _ _ _ Hs' Hnd'); [done|..]; intros k.
    + intros [= <-]. set_solver.
    + intros Hk%hd_or_none_some. set_solver.
    + done.
  - intros x Hx. destruct l as [|y l]; [done|]. injection Hx as ->. destruct Hs as [(N & HN & _ & HNp & _) _]. by exists N.
Qed.

Lemma ListReplace_spec s r l1 b l2 n e' (s' := link_left l2 (Some n) (link_right r l1 (Some n) s)) :
  chain s r (l1 ++ b :: l2) -> n ∉ l1 ++ b :: l2 -> VMAs s !! n = Some e' -> Resource e' = Some r ->
  ResourcePrevVMA e' = last_or None l1 -> ResourceNextVMA e' = hd_or None l2 ->
  ListReplace b n s = Some s' /\ chain s' r (l1 ++ n :: l2) /\ relink r (l1 ++ l2) s s'.
Proof.
  intros Hc Hn He' Hr' Hp' Hn'. destruct (chain_first _ _ _ Hc) as [Hf0 HR0]. destruct Hc as [(R & HR & Hf) Hs Hnd].
  destruct (seg_at _ _ _ _ _ Hs) as (e & He & Hr & Hp & Hnx). pose proof (first_is_head _ _ _ _ _ _ HR Hf Hnd) as Hfirst.
  pose proof Hnd as Hnd0. apply NoDup_app in Hnd0 as (N1 & N12 & N2). apply NoDup_cons in N2 as [Nb N2].
  assert (Hchain : chain s' r (l1 ++ n :: l2)).
  { pose proof Hs as Hs0. rewrite seg_app in Hs0. destruct Hs0 as [H1 [_ H2]].
    apply (chain_link s r l1 [n] l2 (Some b) (Some b)); [|done|done|done| |].
    - cbn [app]. apply NoDup_app. split_and!; [done| |apply NoDup_cons; split; [set_solver|done]].
      intros x Hx [->|Hx2]%elem_of_cons; [set_solver|]. apply (N12 x Hx). by apply list_elem_of_further.
    - split; [|done]. by exists e'.
    - intros Hne. by rewrite Hf0, hd_or_app. }
  assert (Hrl : relink r (l1 ++ l2) s s').
  { eapply relink_trans; [apply relink_link_right|apply relink_link_left]; set_solver. }
  split; [|done]. unfold ListReplace. rewrite He. cbn [mbind option_bind]. rewrite He'. cbn [mbind option_bind]. rewrite Hr. cbn [mbind option_bind].
  rewrite !throw_ok by congruence. cbn [mbind option_bind]. rewrite HR. cbn [mbind option_bind]. rewrite Hp, Hnx.
  assert (Hright : match last_or None l1 with
    | Some p => throw_unless (FirstVMA R <> Some b);; P ← VMAs s !! p; throw_unless (ResourceNextVMA P = Some b);; Some (set_next p (Some n) s)
    | None => throw_unless (FirstVMA R = Some b);; Some (set_first r (Some n) s) end = Some (link_right r l1 (Some n) s)).
  { unfold link_right. destruct (last_or None l1) as [p|] eqn:Hpl; [|by rewrite throw_ok by (by apply Hfirst)].
    rewrite throw_ok by (by rewrite Hfirst). cbn [mbind option_bind].
    destruct (prev_entry _ _ _ _ _ _ Hs Hpl) as (P & HP & _ & HPn). rewrite HP. cbn [mbind option_bind]. by rewrite throw_ok. }
  rewrite Hright. cbn [mbind option_bind]. rewrite (step_left _ _ (Some b)); cbn [mbind option_bind].
  - fold s'. destruct Hchain as [_ Hs' Hnd']. assert (Heb : VMAs s' !! b = Some e).
    { rewrite <- He. apply (relink_frame _ _ _ _ Hrl). intros [H|H]%elem_of_app; [|done]. by apply (N12 b H), list_elem_of_here. }
    rewrite (check_entry _ _ _ Heb); cbn [mbind option_bind].
    + rewrite !(check_option _ _ _ _ Hs' Hnd'); [done|..]; intros k.
      * intros [= <-]. set_solver.
      * intros Hk%hd_or_none_some. set_solver.
      * intros Hk%last_or_none_some. set_solver.
    + rewrite Hnx. by intros Hk%hd_or_none_some.
    + rewrite Hp. intros Hk%last_or_none_some. by apply (N12 b Hk), list_elem_of_here.
  - intros x Hx. destruct (next_entry _ _ _ _ _ _ Hs Hx) as (N & HN & _ & HNp). exists N. split; [|done].
    rewrite VMAs_link_right; [done|]. intros Hx1. apply (N12 x Hx1). apply list_elem_of_further. by apply hd_or_none_some.
Qed.
