(* ===== verification/VMASpec.v ===== *)
(** Correctness of the memory-area tracking of [VMA]: the areas are disjoint,
    every operation has the effect of the system call it follows on the
    attributes of each address, the resource lists stay linked (so no
    assertion fails), and what is recorded in the memo is what is found. *)
From S2P Require Import Prelude VMA VMALinks.
From stdpp Require Import gmap.
Open Scope Z_scope.
Import VMA.

(** ** Positions in the ordered map *)

Lemma prev_key_spec {A} (m : gmap Z A) p :
  match prev_key m p with
  | Some k => k < p /\ is_Some (m !! k) /\ forall k', is_Some (m !! k') -> k' < p -> k' <= k
  | None => forall k', is_Some (m !! k') -> p <= k'
  end.
Proof.
  unfold prev_key.
  apply (map_fold_weak_ind (fun r m => match r with
    | Some k => k < p /\ is_Some (m !! k) /\ forall k', is_Some (m !! k') -> k' < p -> k' <= k
    | None => forall k', is_Some (m !! k') -> p <= k' end)).
  - intros k' [? H]. by rewrite lookup_empty in H.
  - intros i x m' r Hi IH. assert (Hk : forall k', is_Some (<[i:=x]> m' !! k') -> k' = i \/ is_Some (m' !! k')).
    { intros k'. rewrite lookup_insert_is_Some. naive_solver. }
    destruct (Z.ltb_spec i p) as [Hip|Hip].
    + destruct r as [a|].
      * destruct IH as (Ha & Hs & Hmax). split; [lia|]. split.
        -- destruct (Z.max_spec a i) as [[_ ->]|[_ ->]]; [rewrite lookup_insert_eq; eauto|].
           apply lookup_insert_is_Some. destruct (decide (i = a)); [by left|by right].
        -- intros k' [->|H]%Hk Hlt; [lia|]. specialize (Hmax _ H Hlt). lia.
      * split; [lia|]. split; [rewrite lookup_insert_eq; eauto|]. intros k' [->|H]%Hk Hlt; [lia|]. specialize (IH _ H). lia.
    + destruct r as [a|].
      * destruct IH as (Ha & Hs & Hmax). split; [lia|]. split; [|intros k' [->|H]%Hk Hlt; [lia|by apply Hmax]].
        apply lookup_insert_is_Some. destruct (decide (i = a)); [lia|by right].
      * intros k' [->|H]%Hk; [lia|by apply IH].
Qed.

Lemma lower_bound_spec {A} (m : gmap Z A) p :
  match lower_bound m p with
  | Some k => p <= k /\ is_Some (m !! k) /\ forall k', is_Some (m !! k') -> p <= k' -> k <= k'
  | None => forall k', is_Some (m !! k') -> k' < p
  end.
Proof.
  unfold lower_bound.
  apply (map_fold_weak_ind (fun r m => match r with
    | Some k => p <= k /\ is_Some (m !! k) /\ forall k', is_Some (m !! k') -> p <= k' -> k <= k'
    | None => forall k', is_Some (m !! k') -> k' < p end)).
  - intros k' [? H]. by rewrite lookup_empty in H.
  - intros i x m' r Hi IH. assert (Hk : forall k', is_Some (<[i:=x]> m' !! k') -> k' = i \/ is_Some (m' !! k')).
    { intros k'. rewrite lookup_insert_is_Some. naive_solver. }
    destruct (Z.leb_spec p i) as [Hip|Hip].
    + destruct r as [a|].
      * destruct IH as (Ha & Hs & Hmin). split; [lia|]. split.
        -- destruct (Z.min_spec a i) as [[_ ->]|[_ ->]]; [|rewrite lookup_insert_eq; eauto].
           apply lookup_insert_is_Some. destruct (decide (i = a)); [by left|by right].
        -- intros k' [->|H]%Hk Hlt; [lia|]. specialize (Hmin _ H Hlt). lia.
      * split; [lia|]. split; [rewrite lookup_insert_eq; eauto|]. intros k' [->|H]%Hk Hlt; [lia|]. specialize (IH _ H). lia.
    + destruct r as [a|].
      * destruct IH as (Ha & Hs & Hmin). split; [lia|]. split; [|intros k' [->|H]%Hk Hlt; [lia|by apply Hmin]].
        apply lookup_insert_is_Some. destruct (decide (i = a)); [lia|by right].
      * intros k' [->|H]%Hk; [lia|by apply IH].
Qed.

(** ** The areas *)

(** Every entry is under its base, not empty, below the end of the address
    space, and ends before the next one. *)
Record area_ok (m : gmap Z VMAEntry) : Prop := {
  area_entry k e : m !! k = Some e -> Base e = k /\ 0 <= k /\ 0 < Length e /\ k + Length e < 2 ^ 64;
  area_disjoint k1 e1 k2 e2 : m !! k1 = Some e1 -> m !! k2 = Some e2 -> k1 < k2 -> k1 + Length e1 <= k2 }.

(** The attributes of an address. *)
Definition attr : Type := option nat * Z * bool * VMAProt.
Definition attr_of (k : Z) (e : VMAEntry) (a : Z) : attr := (Resource e, u64 (Offset e + (a - k)), Shared e, Prot e).
Definition view (s : VMATracking) (a : Z) : option attr := (fun '(k, e) => attr_of k e a) <$> FindVMAEntry a s.

Lemma find_spec s a k e :
  area_ok (VMAs s) -> FindVMAEntry a s = Some (k, e) <-> VMAs s !! k = Some e /\ k <= a < k + Length e.
Proof.
  intros Hok. unfold FindVMAEntry. pose proof (prev_key_spec (VMAs s) (a + 1)) as Hp. split.
  - destruct (prev_key _ _) as [k'|] eqn:Hk'; cbn; [|done]. destruct (VMAs s !! k') as [e'|] eqn:He; cbn; [|done].
    destruct (area_entry _ Hok _ _ He) as (_ & H0 & Hl & Ht). unfold u64. rewrite wrap_small by (unfold in_width; lia).
    case_if Hc; intros [= <- <-]. split; [done|lia].
  - intros [He Ha]. destruct (prev_key _ _) as [k'|]; cbn; [|specialize (Hp k ltac:(eauto)); lia].
    destruct Hp as (Hlt & [e' He'] & Hmax). rewrite He'. cbn. specialize (Hmax k ltac:(eauto) ltac:(lia)).
    assert (k' = k) as ->.
    { destruct (decide (k' = k)); [done|]. pose proof (area_disjoint _ Hok _ _ _ _ He He' ltac:(lia)). lia. }
    rewrite He in He'. injection He' as <-. destruct (area_entry _ Hok _ _ He) as (_ & H0 & Hl & Ht).
    unfold u64. rewrite wrap_small by (unfold in_width; lia). rewrite (proj2 (Z.leb_le k a)), (proj2 (Z.gtb_lt _ a)) by lia. done.
Qed.

Lemma view_spec s a x :
  area_ok (VMAs s) -> view s a = Some x <-> exists k e, VMAs s !! k = Some e /\ k <= a < k + Length e /\ x = attr_of k e a.
Proof.
  intros Hok. unfold view. rewrite fmap_Some. split.
  - intros ([k e] & Hf & ->). apply find_spec in Hf as [He Ha]; [|done]. eauto.
  - intros (k & e & He & Ha & ->). exists (k, e). split; [|done]. by apply find_spec.
Qed.

Lemma view_none s a :
  area_ok (VMAs s) -> (forall k e, VMAs s !! k = Some e -> ~ (k <= a < k + Length e)) -> view s a = None.
Proof.
  intros Hok Hn. destruct (view s a) as [x|] eqn:Hv; [|done]. apply view_spec in Hv as (k & e & He & Ha & _); [|done]. by destruct (Hn k e He).
Qed.

(** Two states have the same attribute where the same entries cover. *)
Lemma view_eq s s' a (f : attr -> attr) :
  area_ok (VMAs s) -> area_ok (VMAs s') ->
  (forall k e, VMAs s !! k = Some e -> k <= a < k + Length e ->
     exists k' e', VMAs s' !! k' = Some e' /\ k' <= a < k' + Length e' /\ attr_of k' e' a = f (attr_of k e a)) ->
  (forall k' e', VMAs s' !! k' = Some e' -> k' <= a < k' + Length e' -> exists k e, VMAs s !! k = Some e /\ k <= a < k + Length e) ->
  view s' a = f <$> view s a.
Proof.
  intros Hok Hok' H1 H2. destruct (view s a) as [x|] eqn:Hv.
  - apply view_spec in Hv as (k & e & He & Ha & ->); [|done]. destruct (H1 _ _ He Ha) as (k' & e' & He' & Ha' & Hx).
    apply view_spec; [done|]. exists k', e'. done.
  - cbn. apply view_none; [done|]. intros k' e' He' Ha'. destruct (H2 _ _ He' Ha') as (k & e & He & Ha).
    assert (view s a = Some (attr_of k e a)) as Hs by (apply view_spec; eauto). congruence.
Qed.

(** ** States that differ in their links *)

Lemma shape_fields e e' :
  shape e = shape e' -> Resource e = Resource e' /\ Base e = Base e' /\ Offset e = Offset e' /\ Length e = Length e' /\ Shared e = Shared e' /\ Prot e = Prot e'.
Proof. destruct e, e'. cbn. intros [=]. by subst. Qed.

Definition same_shape (m m' : gmap Z VMAEntry) : Prop := forall k, shape <$> m' !! k = shape <$> m !! k.

Lemma same_shape_sym m m' : same_shape m m' -> same_shape m' m.
Proof. intros H k. by rewrite H. Qed.

Lemma same_shape_trans m1 m2 m3 : same_shape m1 m2 -> same_shape m2 m3 -> same_shape m1 m3.
Proof. intros H1 H2 k. by rewrite H2, H1. Qed.

Lemma same_shape_lookup m m' k e :
  same_shape m m' -> m !! k = Some e -> exists e', m' !! k = Some e' /\ shape e' = shape e.
Proof. intros H He. specialize (H k). rewrite He in H. destruct (m' !! k) as [e'|]; [|done]. assert (shape e' = shape e) by (cbn in H; congruence). eauto. Qed.

Lemma area_ok_shape m m' : same_shape m m' -> area_ok m -> area_ok m'.
Proof.
  intros Hs%same_shape_sym [H1 H2]. split.
  - intros k e He. destruct (same_shape_lookup _ _ _ _ Hs He) as (e0 & He0 & Hf). apply shape_fields in Hf as (_ & HB & _ & HL & _).
    rewrite <- HB, <- HL. by apply H1.
  - intros k1 e1 k2 e2 E1 E2. destruct (same_shape_lookup _ _ _ _ Hs E1) as (x1 & X1 & F1), (same_shape_lookup _ _ _ _ Hs E2) as (x2 & X2 & F2).
    apply shape_fields in F1 as (_ & _ & _ & <- & _). by eapply H2.
Qed.

Lemma view_shape s s' a : same_shape (VMAs s) (VMAs s') -> area_ok (VMAs s) -> view s' a = view s a.
Proof.
  intros Hs Hok. pose proof (area_ok_shape _ _ Hs Hok) as Hok'. rewrite <- (option_fmap_id (view s a)). apply view_eq; [done|done| |].
  - intros k e He Ha. destruct (same_shape_lookup _ _ _ _ Hs He) as (e' & He' & Hf). exists k, e'. apply shape_fields in Hf as (HR & _ & HO & HL & HS & HP).
    unfold attr_of. rewrite HR, HO, HL, HS, HP. done.
  - intros k e He Ha. destruct (same_shape_lookup _ _ _ _ (same_shape_sym _ _ Hs) He) as (e' & He' & Hf). exists k, e'.
    apply shape_fields in Hf as (_ & _ & _ & HL & _). rewrite HL. done.
Qed.

(** ** The lists of all resources *)

Definition members (s : VMATracking) (r : nat) (l : list Z) : Prop :=
  forall k, k ∈ l <-> exists e, VMAs s !! k = Some e /\ Resource e = Some r.

(** Resource [r] is gone with its entries, or its list is linked and is all of
    its entries. *)
Definition good (s : VMATracking) (r : nat) : Prop :=
  (MappedResources s !! r = None /\ forall k e, VMAs s !! k = Some e -> Resource e <> Some r) \/
  exists l, chain s r l /\ members s r l.

Definition links (s : VMATracking) : Prop := forall r, good s r.

Lemma chain_frame s s' r l :
  (forall k, k ∈ l -> VMAs s' !! k = VMAs s !! k) -> MappedResources s' !! r = MappedResources s !! r -> chain s r l -> chain s' r l.
Proof.
  intros Hf HR [(R & H1 & H2) Hs Hnd]. split; [|by eapply seg_frame|done]. exists R. by rewrite HR.
Qed.

(** A step that changes entries and the record of one resource (or none). *)
Lemma links_step (ro : option nat) s s' :
  links s ->
  (forall r, Some r <> ro -> MappedResources s' !! r = MappedResources s !! r /\
     forall k e, VMAs s !! k = Some e \/ VMAs s' !! k = Some e -> Resource e = Some r -> VMAs s' !! k = VMAs s !! k) ->
  (forall r, ro = Some r -> good s' r) -> links s'.
Proof.
  intros Hl Hf Hr r. destruct (decide (ro = Some r)) as [->|Hne]; [by apply Hr|]. destruct (Hf r) as [HR Hk]; [congruence|].
  destruct (Hl r) as [[Hn He]|(l & Hc & Hm)].
  - left. split; [by rewrite HR|]. intros k e Hke Hre. specialize (Hk k e (or_intror Hke) Hre). rewrite Hke in Hk. by apply (He k e).
  - right. exists l. split.
    + eapply chain_frame; [|exact HR|exact Hc]. intros k Hkl. apply Hm in Hkl as (e & Hke & Hre). by eapply Hk; eauto.
    + intros k. rewrite (Hm k). split; intros (e & Hke & Hre); exists e; (split; [|done]).
      * rewrite (Hk k e); eauto.
      * rewrite <- (Hk k e); eauto.
Qed.

(** *** Changing the attributes of an entry *)

Definition keeps_links (f : VMAEntry -> VMAEntry) : Prop :=
  forall e, Resource (f e) = Resource e /\ ResourcePrevVMA (f e) = ResourcePrevVMA e /\ ResourceNextVMA (f e) = ResourceNextVMA e.

Lemma keeps_length l : keeps_links (with_length l).
Proof. done. Qed.
Lemma keeps_prot p : keeps_links (with_prot p).
Proof. done. Qed.

Lemma lookup_alter_keeps f (m : gmap Z VMAEntry) k x e :
  keeps_links f -> m !! x = Some e ->
  exists e', alter f k m !! x = Some e' /\ Resource e' = Resource e /\ ResourcePrevVMA e' = ResourcePrevVMA e /\ ResourceNextVMA e' = ResourceNextVMA e.
Proof.
  intros Hf He. destruct (decide (k = x)) as [->|].
  - exists (f e). rewrite lookup_alter_eq, He. split; [done|]. apply Hf.
  - exists e. by rewrite lookup_alter_ne.
Qed.

Lemma seg_alter f (m : gmap Z VMAEntry) k r p l n : keeps_links f -> seg m r p l n -> seg (alter f k m) r p l n.
Proof.
  intros Hf. revert p. induction l as [|x l IH]; intros p; cbn [seg]; [done|]. intros [(e & He & H1 & H2 & H3) Hl]. split; [|by apply IH].
  destruct (lookup_alter_keeps f m k x e Hf He) as (e' & He' & E1 & E2 & E3). exists e'. rewrite E1, E2, E3. done.
Qed.

Lemma links_attr f k s : keeps_links f -> links s -> links (set_VMAs (alter f k) s).
Proof.
  intros Hf Hl r.
  assert (Hback : forall x e, alter f k (VMAs s) !! x = Some e -> exists e0, VMAs s !! x = Some e0 /\ Resource e0 = Resource e).
  { intros x e. destruct (decide (k = x)) as [->|]; [|rewrite lookup_alter_ne by done; eauto].
    rewrite lookup_alter_eq. destruct (VMAs s !! x) as [e0|]; [|done]. intros [= <-]. exists e0. split; [done|]. symmetry. apply Hf. }
  destruct (Hl r) as [[Hn He]|(l & [(R & HR & HF) Hs Hnd] & Hm)].
  - left. split; [done|]. intros x e (e0 & He0 & <-)%Hback. by eapply He.
  - right. exists l. split; [split; [by exists R|by apply seg_alter|done]|]. intros x. rewrite (Hm x). cbn. split.
    + intros (e & He & Hr). destruct (lookup_alter_keeps f _ k x e Hf He) as (e' & He' & E1 & _). exists e'. by rewrite E1.
    + intros (e & (e0 & He0 & Hr)%Hback & Hre). exists e0. by rewrite Hr.
Qed.

(** *** Adding and removing entries *)

Lemma good_chain s k e r : links s -> VMAs s !! k = Some e -> Resource e = Some r -> exists l1 l2, chain s r (l1 ++ k :: l2) /\ members s r (l1 ++ k :: l2).
Proof.
  intros Hl He Hr. destruct (Hl r) as [[_ Hn]|(l & Hc & Hm)]; [by destruct (Hn _ _ He)|].
  assert (Hk : k ∈ l) by (apply Hm; eauto). apply list_elem_of_split in Hk as (l1 & l2 & ->). eauto.
Qed.

Lemma not_member s r l k : members s r l -> VMAs s !! k = None -> k ∉ l.
Proof. intros Hm Hk Hin. apply Hm in Hin as (e & He & _). congruence. Qed.

(** What a list operation on [r] leaves of another resource. *)
Lemma relink_frame_other s s' r l k e r' :
  relink r l s s' -> members s r l -> r' <> r -> VMAs s !! k = Some e \/ VMAs s' !! k = Some e -> Resource e = Some r' -> VMAs s' !! k = VMAs s !! k.
Proof.
  intros Hrl Hm Hne Hk Hr. apply (relink_frame _ _ _ _ Hrl). intros (e0 & He0 & Hr0)%Hm. destruct Hk as [Hk|Hk]; [congruence|].
  pose proof (relink_shape _ _ _ _ Hrl k) as Hs. rewrite Hk, He0 in Hs. assert (shape e = shape e0) as Hf by (cbn in Hs; congruence).
  apply shape_fields in Hf as (Hf & _). congruence.
Qed.

Lemma relink_members s s' r l l' : relink r l s s' -> members s r l' -> members s' r l'.
Proof.
  intros Hrl Hm k. rewrite (Hm k). pose proof (relink_shape _ _ _ _ Hrl : same_shape _ _) as Hs. split; intros (e & He & Hr).
  - destruct (same_shape_lookup _ _ _ _ Hs He) as (e' & He' & Hf). apply shape_fields in Hf as (Hf & _). exists e'. by rewrite Hf.
  - destruct (same_shape_lookup _ _ _ _ (same_shape_sym _ _ Hs) He) as (e' & He' & Hf). apply shape_fields in Hf as (Hf & _). exists e'. by rewrite Hf.
Qed.

(** An entry of no resource. *)
Lemma links_insert_none s k e : links s -> VMAs s !! k = None -> Resource e = None -> links (set_VMAs (insert k e) s).
Proof.
  intros Hl Hk He. apply (links_step None s); [done| |done]. intros r _. split; [done|]. intros x e' Hx Hr. cbn in *.
  destruct (decide (k = x)) as [->|]; [|by rewrite lookup_insert_ne]. rewrite lookup_insert_eq in Hx. destruct Hx; congruence.
Qed.

Lemma links_delete_none s k e : links s -> VMAs s !! k = Some e -> Resource e = None -> links (set_VMAs (delete k) s).
Proof.
  intros Hl Hk He. apply (links_step None s); [done| |done]. intros r _. split; [done|]. intros x e' Hx Hr. cbn in *.
  destruct (decide (k = x)) as [->|]; [|by rewrite lookup_delete_ne]. rewrite lookup_delete_eq in Hx. destruct Hx; congruence.
Qed.

(** The parts of the state the list operations leave alone. *)
Definition same_memo (s s' : VMATracking) : Prop := Generation s' = Generation s /\ MarkNoOpCache s' = MarkNoOpCache s.

(** The resources of [X] are still there. *)
Definition keeps_res (X : nat -> Prop) (s s' : VMATracking) : Prop :=
  forall r, X r -> is_Some (MappedResources s !! r) -> is_Some (MappedResources s' !! r).

Lemma relink_keeps X r l s s' : relink r l s s' -> keeps_res X s s'.
Proof.
  intros Hrl r' _ H. destruct (decide (r' = r)) as [->|]; [|by rewrite (relink_other _ _ _ _ Hrl)].
  pose proof (relink_res _ _ _ _ Hrl) as Hr. destruct H as [R HR]. rewrite HR in Hr. by destruct (MappedResources s' !! r).
Qed.

Lemma chain_insert s r l k e : k ∉ l -> chain s r l -> chain (set_VMAs (insert k e) s) r l.
Proof. intros Hk. apply chain_frame; [|done]. intros x Hx. cbn. apply lookup_insert_ne. set_solver. Qed.

Lemma members_insert s r l1 l2 k e :
  VMAs s !! k = None -> Resource e = Some r -> members s r (l1 ++ l2) -> members (set_VMAs (insert k e) s) r (l1 ++ k :: l2).
Proof.
  intros Hk He Hm x. cbn. rewrite elem_of_app, elem_of_cons. specialize (Hm x). rewrite elem_of_app in Hm.
  destruct (decide (k = x)) as [->|Hne].
  - rewrite lookup_insert_eq. split; [eauto|tauto].
  - rewrite lookup_insert_ne by done. rewrite <- Hm. naive_solver.
Qed.

(** An entry of [r] added and linked. *)
Lemma links_inserted s s' r l l' At n' :
  links s -> VMAs s !! At = None -> Resource n' = Some r -> members s r l -> relink r l (set_VMAs (insert At n') s) s' ->
  chain s' r l' -> members (set_VMAs (insert At n') s) r l' -> links s'.
Proof.
  intros Hl HAt Hr Hm Hrl Hc' Hm'. apply (links_step (Some r) s); [done| |].
  - intros r' Hne. split; [rewrite (relink_other _ _ _ _ Hrl) by congruence; done|]. intros x e Hx Hre.
    assert (Hsame : forall e1, VMAs (set_VMAs (insert At n') s) !! x = Some e1 -> VMAs s' !! x = Some e -> Resource e1 = Some r').
    { intros e1 He1 Hx1. pose proof (relink_shape _ _ _ _ Hrl x) as Hsh. rewrite Hx1, He1 in Hsh.
      assert (shape e = shape e1) as Hf by (cbn in Hsh; congruence). apply shape_fields in Hf as (Hf & _). congruence. }
    cbn in Hsame. assert (HxAt : At <> x).
    { intros ->. destruct Hx as [Hx|Hx]; [congruence|]. specialize (Hsame n'). rewrite lookup_insert_eq in Hsame. specialize (Hsame eq_refl Hx). congruence. }
    rewrite lookup_insert_ne in Hsame by done.
    rewrite (relink_frame _ _ _ _ Hrl); [cbn; by rewrite lookup_insert_ne|]. intros (e1 & He1 & Hr1)%Hm. destruct Hx as [Hx|Hx]; [congruence|].
    specialize (Hsame e1 He1 Hx). congruence.
  - intros r' [= <-]. right. exists l'. split; [done|]. by eapply relink_members.
Qed.

(** [emplace] and [ListInsertAfter]. *)
Lemma links_insert_after s k At n' r l1 l2 :
  links s -> VMAs s !! At = None -> chain s r (l1 ++ k :: l2) -> members s r (l1 ++ k :: l2) ->
  Resource n' = Some r -> ResourcePrevVMA n' = Some k -> ResourceNextVMA n' = hd_or None l2 ->
  exists s', ListInsertAfter k At (set_VMAs (insert At n') s) = Some s' /\ links s' /\
    same_shape (<[At := n']> (VMAs s)) (VMAs s') /\ same_memo s s' /\ keeps_res (fun _ => True) s s'.
Proof.
  intros Hl HAt Hc Hm Hr Hp Hn. pose proof (not_member _ _ _ _ Hm HAt) as HAtl.
  destruct (ListInsertAfter_spec (set_VMAs (insert At n') s) r l1 k l2 At n') as (Heq & Hc' & Hrl);
    [by apply chain_insert|done|by cbn; rewrite lookup_insert_eq|done..|].
  eexists. split; [exact Heq|]. split_and!; [|exact (relink_shape _ _ _ _ Hrl)|apply (relink_gen _ _ _ _ Hrl)|exact (relink_keeps _ _ _ _ _ Hrl)].
  eapply links_inserted; [done|done|done|exact Hm|exact Hrl|exact Hc'|].
  rewrite cons_middle, app_assoc. apply members_insert; [done|done|]. by rewrite <- app_assoc.
Qed.

(** [emplace] and [ListPrepend]. *)
Lemma links_prepend s At n' r l :
  links s -> VMAs s !! At = None -> chain s r l -> members s r l ->
  Resource n' = Some r -> ResourcePrevVMA n' = None -> ResourceNextVMA n' = hd_or None l ->
  exists s', ListPrepend r At (set_VMAs (insert At n') s) = Some s' /\ links s' /\
    same_shape (<[At := n']> (VMAs s)) (VMAs s') /\ same_memo s s' /\ keeps_res (fun _ => True) s s'.
Proof.
  intros Hl HAt Hc Hm Hr Hp Hn. pose proof (not_member _ _ _ _ Hm HAt) as HAtl.
  destruct (ListPrepend_spec (set_VMAs (insert At n') s) r l At n') as (Heq & Hc' & Hrl);
    [by apply chain_insert|done|by cbn; rewrite lookup_insert_eq|done..|].
  eexists. split; [exact Heq|]. split_and!; [|exact (relink_shape _ _ _ _ Hrl)|apply (relink_gen _ _ _ _ Hrl)|exact (relink_keeps _ _ _ _ _ Hrl)].
  eapply links_inserted; [done|done|done|exact Hm|exact Hrl|exact Hc'|]. by apply (members_insert s r [] l).
Qed.

(** A part of an entry, inserted and linked after it. *)
Lemma insert_part_spec s k Current e0 Next At Off Len P :
  links s -> VMAs s !! k = Some e0 -> VMAs s !! At = None -> Resource e0 = Resource Current -> Next = ResourceNextVMA e0 ->
  exists s', insert_part k Current Next At Off Len P s = Some s' /\ links s' /\
    same_shape (<[At := mkVMA (Resource Current) None None At Off Len (Shared Current) P]> (VMAs s)) (VMAs s') /\ same_memo s s' /\ keeps_res (fun _ => True) s s'.
Proof.
  intros Hl He0 HAt HR ->. unfold insert_part. rewrite throw_ok by done. cbn [mbind option_bind].
  assert (Hshape : forall n', shape n' = shape (mkVMA (Resource Current) None None At Off Len (Shared Current) P) ->
            same_shape (<[At := mkVMA (Resource Current) None None At Off Len (Shared Current) P]> (VMAs s)) (<[At := n']> (VMAs s))).
  { intros n' Hn' x. destruct (decide (At = x)) as [->|]; [rewrite !lookup_insert_eq; cbn; congruence|by rewrite !lookup_insert_ne]. }
  destruct (Resource Current) as [r|] eqn:Hr.
  - destruct (good_chain s k e0 r Hl He0 HR) as (l1 & l2 & Hc & Hm).
    destruct (seg_at _ _ _ _ _ (chain_seg _ _ _ Hc)) as (e1 & He1 & _ & _ & Hn). rewrite He0 in He1. injection He1 as <-.
    destruct (links_insert_after s k At (mkVMA (Some r) (Some k) (ResourceNextVMA e0) At Off Len (Shared Current) P) r l1 l2)
      as (s' & Heq & Hl' & Hsh & Hmemo & Hres); [done..|].
    exists s'. split; [exact Heq|]. split; [done|]. split; [|by split]. eapply same_shape_trans; [|exact Hsh]. by apply Hshape.
  - eexists. split; [reflexivity|]. split; [by apply links_insert_none|]. split; [by apply Hshape|]. split; [done|by intros r].
Qed.

Lemma same_shape_delete m m' k : same_shape m m' -> same_shape (delete k m) (delete k m').
Proof. intros H x. destruct (decide (k = x)) as [->|]; [by rewrite !lookup_delete_eq|by rewrite !lookup_delete_ne]. Qed.

Lemma members_delete s r l1 k l2 :
  NoDup (l1 ++ k :: l2) -> members s r (l1 ++ k :: l2) -> members (set_VMAs (delete k) s) r (l1 ++ l2).
Proof.
  intros Hnd Hm x. cbn. specialize (Hm x). rewrite elem_of_app in Hm |- *. rewrite elem_of_cons in Hm.
  apply NoDup_app in Hnd as (_ & H12 & [Hk _]%NoDup_cons). destruct (decide (k = x)) as [->|Hne].
  - rewrite lookup_delete_eq. split; [|by intros (e & ? & _)]. intros [H|H]; [|done]. destruct (H12 x H). apply list_elem_of_here.
  - rewrite lookup_delete_ne by done. rewrite <- Hm. naive_solver.
Qed.

(** The frame of a change to the list of [r] that also deletes the entry [k]. *)
Lemma delete_frame s s1 r l k e r' x e' :
  relink r l s s1 -> members s r l -> VMAs s !! k = Some e -> Resource e = Some r -> r' <> r ->
  VMAs s !! x = Some e' \/ delete k (VMAs s1) !! x = Some e' -> Resource e' = Some r' -> delete k (VMAs s1) !! x = VMAs s !! x.
Proof.
  intros Hrl Hm He Hr Hne Hx Hr'. destruct (decide (k = x)) as [->|Hkx].
  - rewrite lookup_delete_eq in Hx. destruct Hx; congruence.
  - rewrite lookup_delete_ne in * by done. by eapply relink_frame_other.
Qed.

(** [ListRemove], the resource freed when [drop] says so and it is empty, and
    the entry erased. *)
Lemma links_remove s k e r (drop : bool -> bool) :
  links s -> VMAs s !! k = Some e -> Resource e = Some r -> drop false = false ->
  exists b s1, ListRemove k s = Some (b, s1) /\ same_memo s s1 /\
    let s2 := set_VMAs (delete k) (if drop b then set_resources (delete r) s1 else s1) in
    links s2 /\ same_shape (delete k (VMAs s)) (VMAs s2) /\ same_memo s s2 /\ keeps_res (fun r' => r' <> r \/ drop b = false) s s2.
Proof.
  intros Hl He Hr Hdrop. destruct (good_chain s k e r Hl He Hr) as (l1 & l2 & Hc & Hm).
  destruct (ListRemove_spec s r l1 k l2 Hc) as (Heq & Hc' & Hrl). set (s1 := link_left _ _ _) in *.
  exists (bool_decide (l1 ++ l2 = [])), s1. split; [exact Heq|]. split; [apply (relink_gen _ _ _ _ Hrl)|].
  assert (Hrl' : relink r (l1 ++ k :: l2) s s1).
  { destruct Hrl as [A B C D E]. split; [done| |done..]. intros x Hx. apply B. set_solver. }
  pose proof (members_delete s1 r l1 k l2 (chain_nodup _ _ _ Hc) (relink_members _ _ _ _ _ Hrl' Hm)) as Hm1. cbn zeta.
  set (s2 := set_VMAs (delete k) _). assert (HV : VMAs s2 = delete k (VMAs s1)) by (subst s2; by destruct (drop (bool_decide (l1 ++ l2 = [])))).
  assert (HR : MappedResources s2 = if drop (bool_decide (l1 ++ l2 = [])) then delete r (MappedResources s1) else MappedResources s1)
    by (subst s2; by destruct (drop (bool_decide (l1 ++ l2 = [])))).
  assert (Hmemo : same_memo s s2) by (subst s2; destruct (drop (bool_decide (l1 ++ l2 = []))); apply (relink_gen _ _ _ _ Hrl)).
  clearbody s2.
  assert (Hkl : k ∉ l1 ++ l2).
  { pose proof (chain_nodup _ _ _ Hc) as (_ & H12 & [Hk _]%NoDup_cons)%NoDup_app. intros [H|H]%elem_of_app; [|done]. destruct (H12 k H). apply list_elem_of_here. }
  split_and!; [|rewrite HV; exact (same_shape_delete _ _ k (relink_shape _ _ _ _ Hrl))|exact Hmemo|].
  2: { intros r' Hr' Hs. pose proof (relink_keeps (fun _ => True) _ _ _ _ Hrl r' I Hs) as Hs1. rewrite HR. destruct (drop (bool_decide (l1 ++ l2 = []))); [|done].
       rewrite lookup_delete_ne; [done|]. destruct Hr'; congruence. }
  apply (links_step (Some r) s); [done| |].
  - intros r' Hne. split.
    + rewrite HR, <- (relink_other _ _ _ _ Hrl) by congruence. destruct (drop (bool_decide (l1 ++ l2 = []))); [|done]. apply lookup_delete_ne. congruence.
    + intros x e' Hx Hre. rewrite HV in *. eapply (delete_frame _ _ _ _ _ _ r'); [exact Hrl'|exact Hm|exact He|done|congruence|done|done].
  - intros r' [= <-]. destruct (drop (bool_decide (l1 ++ l2 = []))) eqn:Hd in HR.
    + left. assert (Hnil : l1 ++ l2 = []) by (destruct (bool_decide_reflect (l1 ++ l2 = [])); [done|by rewrite Hdrop in Hd]).
      split; [rewrite HR; by rewrite lookup_delete_eq|]. intros x e' Hx Hre. rewrite HV in Hx.
      assert (x ∈ l1 ++ l2) as Hin by (apply Hm1; by exists e'). rewrite Hnil in Hin. by apply elem_of_nil in Hin.
    + right. exists (l1 ++ l2). split; [|intros x; rewrite HV; exact (Hm1 x)]. eapply chain_frame; [|by rewrite HR|exact Hc'].
      intros x Hx. rewrite HV. apply lookup_delete_ne. set_solver.
Qed.

(** [emplace] of the trailing part, [ListReplace], and the entry erased. *)
Lemma links_replace s k e At n' r :
  links s -> VMAs s !! k = Some e -> Resource e = Some r -> VMAs s !! At = None ->
  Resource n' = Some r -> ResourcePrevVMA n' = ResourcePrevVMA e -> ResourceNextVMA n' = ResourceNextVMA e ->
  exists s', ListReplace k At (set_VMAs (insert At n') s) = Some s' /\
    let s2 := set_VMAs (delete k) s' in links s2 /\ same_shape (delete k (<[At := n']> (VMAs s))) (VMAs s2) /\ same_memo s s2 /\ keeps_res (fun _ => True) s s2.
Proof.
  intros Hl He Hr HAt Hr' Hp Hn. destruct (good_chain s k e r Hl He Hr) as (l1 & l2 & Hc & Hm).
  destruct (seg_at _ _ _ _ _ (chain_seg _ _ _ Hc)) as (e1 & He1 & _ & Hp1 & Hn1). rewrite He in He1. injection He1 as <-.
  pose proof (not_member _ _ _ _ Hm HAt) as HAtl. assert (HkAt : At <> k) by congruence.
  set (s0 := set_VMAs (insert At n') s) in *.
  destruct (ListReplace_spec s0 r l1 k l2 At n') as (Heq & Hc' & Hrl);
    [by apply chain_insert|done|by cbn; rewrite lookup_insert_eq|done|congruence|congruence|].
  set (s1 := link_left _ _ _) in *. exists s1. split; [done|]. cbn zeta.
  assert (Hkl : k ∉ l1 ++ At :: l2).
  { pose proof (chain_nodup _ _ _ Hc) as (_ & H12 & [Hk _]%NoDup_cons)%NoDup_app.
    intros [H|[H|H]%elem_of_cons]%elem_of_app; [|congruence|done]. destruct (H12 k H). apply list_elem_of_here. }
  assert (He0 : VMAs s0 !! k = Some e) by (cbn; by rewrite lookup_insert_ne).
  assert (Hm0 : members s0 r (l1 ++ At :: k :: l2)) by (by apply members_insert).
  assert (Hrl' : relink r (l1 ++ At :: k :: l2) s0 s1).
  { destruct Hrl as [A B C D E]. split; [done| |done..]. intros x Hx. apply B. set_solver. }
  split_and!; [|exact (same_shape_delete _ _ k (relink_shape _ _ _ _ Hrl))|apply (relink_gen _ _ _ _ Hrl)|exact (relink_keeps _ _ _ _ _ Hrl)].
  apply (links_step (Some r) s); [done| |].
  - intros r' Hne. split; [cbn; rewrite (relink_other _ _ _ _ Hrl) by congruence; done|]. intros x e' Hx Hre. cbn in Hx |- *.
    assert (HxAt : VMAs s0 !! x = VMAs s !! x).
    { cbn. apply lookup_insert_ne. intros ->. destruct Hx as [Hx|Hx]; [congruence|]. rewrite lookup_delete_ne in Hx by congruence.
      pose proof (relink_shape _ _ _ _ Hrl x) as Hsh. rewrite Hx in Hsh. cbn in Hsh. rewrite lookup_insert_eq in Hsh.
      assert (shape e' = shape n') as Hf by (cbn in Hsh; congruence). apply shape_fields in Hf as (Hf & _). congruence. }
    rewrite <- HxAt. rewrite <- HxAt in Hx. eapply (delete_frame s0 s1 r (l1 ++ At :: k :: l2) k e r'); [exact Hrl'|exact Hm0|exact He0|exact Hr|congruence|exact Hx|exact Hre].
  - intros r' [= <-]. right. exists (l1 ++ At :: l2). split.
    + apply (chain_frame s1); [|done|exact Hc']. intros x Hx. cbn. apply lookup_delete_ne. set_solver.
    + rewrite cons_middle, app_assoc. apply members_delete.
      * pose proof (chain_nodup _ _ _ Hc') as Hnd. rewrite <- app_assoc. cbn [app].
        apply NoDup_app in Hnd as (H1 & H12 & [HA H2]%NoDup_cons). apply NoDup_app. split_and!; [done| |].
        -- intros x Hx [->|[->|Hx2]%elem_of_cons]%elem_of_cons; [by apply (H12 At Hx), list_elem_of_here|set_solver|].
           apply (H12 x Hx). by apply list_elem_of_further.
        -- apply NoDup_cons. split; [set_solver|]. apply NoDup_cons. split; [set_solver|done].
      * rewrite <- app_assoc. eapply relink_members; [exact Hrl'|done].
Qed.
