(* ===== verification/VMAOps.v ===== *)
(** The operations of [VMA] against the system calls they follow: what
    [DeleteVMARange], [TrackVMARange] and [ChangeProtectionFlags] do to the
    attributes of every address, that they never fail on a consistent state,
    and where the protection change departs from its intent. *)
From S2P Require Import Prelude VMA VMALinks VMASpec.
From stdpp Require Import gmap.
Open Scope Z_scope.
Import VMA.

(** A consistent state. *)
Record ok (s : VMATracking) : Prop := { ok_area : area_ok (VMAs s); ok_links : links s }.

(** ** Removing a range from one entry *)

(** What is left of the entry [e] at [k] outside [Lo, Top). *)
Definition carve (Lo Top k : Z) (e : VMAEntry) (m : gmap Z VMAEntry) : gmap Z VMAEntry :=
  let m := if k <? Lo then <[k := with_length (Lo - k) e]> m else delete k m in
  if Top <? k + Length e
  then <[Top := mkVMA (Resource e) None None Top (u64 (Offset e + (Top - k))) (k + Length e - Top) (Shared e) (Prot e)]> m
  else m.

Section Carve.
Context (m : gmap Z VMAEntry) (Lo Top k : Z) (e : VMAEntry).
Hypothesis (Hok : area_ok m) (He : m !! k = Some e) (HTop : k < Top) (HLo : Lo < k + Length e) (Hr : 0 <= Lo <= Top) (HT : Top < 2 ^ 64).
#[local] Set Default Proof Using "Type*".

(** Where an entry of the result comes from: another entry, or a part of [e]. *)
Lemma carve_inv x e' :
  carve Lo Top k e m !! x = Some e' ->
  (m !! x = Some e' /\ x <> k /\ (x = Top -> k + Length e <= Top)) \/
  (x = k /\ k < Lo /\ e' = with_length (Lo - k) e) \/
  (x = Top /\ Top < k + Length e /\ e' = mkVMA (Resource e) None None Top (u64 (Offset e + (Top - k))) (k + Length e - Top) (Shared e) (Prot e)).
Proof.
  unfold carve. destruct (Z.ltb_spec Top (k + Length e)).
  - destruct (decide (Top = x)) as [->|]; [rewrite lookup_insert_eq; intros [= <-]; right; right; done|]. rewrite lookup_insert_ne by done.
    destruct (Z.ltb_spec k Lo); (destruct (decide (k = x)) as [->|]; [rewrite ?lookup_insert_eq, ?lookup_delete_eq|rewrite ?lookup_insert_ne, ?lookup_delete_ne by done]).
    + intros [= <-]. right; left. done.
    + intros Hx. left. split_and!; [done|congruence|congruence].
    + done.
    + intros Hx. left. split_and!; [done|congruence|congruence].
  - destruct (Z.ltb_spec k Lo); (destruct (decide (k = x)) as [->|]; [rewrite ?lookup_insert_eq, ?lookup_delete_eq|rewrite ?lookup_insert_ne, ?lookup_delete_ne by done]).
    + intros [= <-]. right; left. done.
    + intros Hx. left. split_and!; [done|congruence|lia].
    + done.
    + intros Hx. left. split_and!; [done|congruence|lia].
Qed.

Lemma carve_head : k < Lo -> carve Lo Top k e m !! k = Some (with_length (Lo - k) e).
Proof.
  intros Hk. unfold carve. rewrite (proj2 (Z.ltb_lt k Lo)) by done. destruct (_ <? _); [rewrite lookup_insert_ne by lia|]; by rewrite lookup_insert_eq.
Qed.

Lemma carve_tail : Top < k + Length e ->
  carve Lo Top k e m !! Top = Some (mkVMA (Resource e) None None Top (u64 (Offset e + (Top - k))) (k + Length e - Top) (Shared e) (Prot e)).
Proof. intros Ht. unfold carve. rewrite (proj2 (Z.ltb_lt Top _)) by done. by rewrite lookup_insert_eq. Qed.

(** No other entry starts at the end of the range when [e] goes past it. *)
Lemma carve_top_free : Top < k + Length e -> m !! Top = None.
Proof.
  intros Ht. destruct (m !! Top) as [e1|] eqn:E; [|done]. pose proof (area_disjoint _ Hok _ _ _ _ He E HTop). lia.
Qed.

Lemma carve_other x e' : x <> k -> m !! x = Some e' -> carve Lo Top k e m !! x = Some e'.
Proof.
  intros Hx Hm. unfold carve. assert (Hin : (if k <? Lo then <[k := with_length (Lo - k) e]> m else delete k m) !! x = Some e').
  { destruct (k <? Lo); [by rewrite lookup_insert_ne|by rewrite lookup_delete_ne]. }
  destruct (Z.ltb_spec Top (k + Length e)) as [Ht|]; [|done]. rewrite lookup_insert_ne; [done|]. intros Heq. by rewrite <- Heq, carve_top_free in Hm.
Qed.

Lemma carve_ok : area_ok (carve Lo Top k e m).
Proof.
  destruct (area_entry _ Hok _ _ He) as (HB & Hk0 & Hl & Hlt). split.
  - intros x e' [(Hx & _)|[(-> & Hlo & ->)|(-> & Ht & ->)]]%carve_inv; [by apply (area_entry _ Hok)|cbn; lia|cbn; lia].
  - intros k1 e1 k2 e2 H1 H2 Hlt12. apply carve_inv in H1, H2.
    destruct H1 as [(X1 & N1 & T1)|[(-> & L1 & ->)|(-> & L1 & ->)]], H2 as [(X2 & N2 & T2)|[(-> & L2 & ->)|(-> & L2 & ->)]]; cbn; try lia.
    + by eapply (area_disjoint _ Hok).
    + by eapply (area_disjoint _ Hok).
    + destruct (decide (k1 < k)); [pose proof (area_disjoint _ Hok _ _ _ _ X1 He ltac:(lia)); lia|].
      pose proof (area_disjoint _ Hok _ _ _ _ He X1 ltac:(lia)). lia.
    + pose proof (area_disjoint _ Hok _ _ _ _ He X2 Hlt12). lia.
    + destruct (decide (k2 < k)); [lia|]. pose proof (area_disjoint _ Hok _ _ _ _ He X2 ltac:(lia)). lia.
Qed.

End Carve.

Lemma attr_tail e k Top a P n :
  attr_of Top (mkVMA (Resource e) None None Top (u64 (Offset e + (Top - k))) n (Shared e) P) a =
  (Resource e, u64 (Offset e + (a - k)), Shared e, P).
Proof.
  unfold attr_of. cbn. unfold u64, wrap. rewrite Zplus_mod_idemp_l. by replace (Offset e + (Top - k) + (a - Top)) with (Offset e + (a - k)) by lia.
Qed.

Definition in_range (Lo Top a : Z) : bool := (Lo <=? a) && (a <? Top).

Lemma carve_view s s' Lo Top k e a :
  area_ok (VMAs s) -> VMAs s !! k = Some e -> k < Top -> Lo < k + Length e -> 0 <= Lo <= Top -> Top < 2 ^ 64 ->
  same_shape (carve Lo Top k e (VMAs s)) (VMAs s') ->
  view s' a = if in_range Lo Top a && in_range k (k + Length e) a then None else view s a.
Proof.
  intros Hok He HT HL Hr HT64 Hs. pose proof (carve_ok _ Lo Top k e Hok He HT HL Hr HT64) as Hcok.
  set (s1 := set_VMAs (fun _ => carve Lo Top k e (VMAs s)) s).
  rewrite (view_shape s1 s'); [|done|done]. destruct (area_entry _ Hok _ _ He) as (HB & Hk0 & Hl & Hlt).
  assert (Hcov : forall x e', VMAs s !! x = Some e' -> x <= a < x + Length e' -> k <= a < k + Length e -> x = k).
  { intros x e' Hx Ha Hka. destruct (Z.lt_trichotomy x k) as [H|[H|H]]; [|done|].
    - pose proof (area_disjoint _ Hok _ _ _ _ Hx He H). lia.
    - pose proof (area_disjoint _ Hok _ _ _ _ He Hx H). lia. }
  pose proof (carve_inv (VMAs s) Lo Top k e Hok He HT HL Hr HT64) as Hinv.
  unfold in_range. destruct (Z.leb_spec k a), (Z.ltb_spec a (k + Length e)); cbn [andb].
  2,3,4: rewrite !andb_false_r; rewrite <- (option_fmap_id (view s a)); apply view_eq; [done|done| |];
    [intros x e' Hx Ha; exists x, e'; split; [apply carve_other; try done; intros ->; rewrite He in Hx; injection Hx as <-; lia|done]
    |intros x e' Hx Ha; apply Hinv in Hx as [(Hx & _)|[(-> & Hlo & ->)|(-> & Ht & ->)]]; [eauto|cbn in Ha; lia|cbn in Ha; lia]].
  assert (Hve : view s a = Some (attr_of k e a)) by (apply view_spec; [done|]; exists k, e; split_and!; (done || lia)).
  rewrite andb_true_r. destruct (Z.leb_spec Lo a), (Z.ltb_spec a Top); cbn [andb].
  - apply view_none; [done|]. intros x e' Hx Ha. apply Hinv in Hx as [(Hx & Hne & _)|[(-> & Hlo & ->)|(-> & Ht & ->)]]; [|cbn in Ha; lia..].
    apply Hne. by eapply Hcov.
  - rewrite Hve. apply view_spec; [done|]. exists Top. eexists. split; [apply carve_tail; (done || lia)|].
    split; [cbn; lia|]. symmetry. apply attr_tail.
  - rewrite Hve. apply view_spec; [done|]. exists k. eexists. split; [apply carve_head; (done || lia)|].
    split; [cbn; lia|]. done.
  - lia.
Qed.

Lemma offset_diff o k x : u64 (u64 (o - k) + x) = u64 (o + (x - k)).
Proof. unfold u64, wrap. rewrite Zplus_mod_idemp_l. by replace (o - k + x) with (o + (x - k)) by lia. Qed.

Lemma delete_one_spec s Lo Top P k e :
  ok s -> VMAs s !! k = Some e -> k < Top -> Lo < k + Length e -> 0 <= Lo <= Top -> Top < 2 ^ 64 ->
  exists s', delete_one Lo Top P k s = Some s' /\ links s' /\ same_shape (carve Lo Top k e (VMAs s)) (VMAs s') /\ same_memo s s' /\
    keeps_res (fun r => P = Some r) s s'.
Proof.
  intros [Hok Hlk] He HT HL Hr HT64. destruct (area_entry _ Hok _ _ He) as (HB & Hk0 & Hl & Hlt).
  unfold delete_one. rewrite He. cbn [mbind option_bind]. rewrite HB.
  rewrite (u64_small (k + Length e)) by lia. unfold carve. rewrite Z.gtb_ltb.
  destruct (Z.ltb_spec k Lo) as [Hkl|Hkl], (Z.ltb_spec Top (k + Length e)) as [Ht|Ht]; cbn [negb andb].
  - pose proof (carve_top_free _ Lo Top k e Hok He HT HL Hr HT64 Ht) as Hfree.
    rewrite (u64_small (Lo - k)) by lia. set (s1 := set_VMAs (alter (with_length (Lo - k)) k) s).
    destruct (insert_part_spec s1 k e (with_length (Lo - k) e) (ResourceNextVMA e) Top (u64 (u64 (Offset e - k) + Top)) (u64 (k + Length e - Top)) (Prot e))
      as (s' & Heq & Hl' & Hsh & Hm & Hres); [by apply links_attr|cbn; by rewrite lookup_alter_eq, He|cbn; by rewrite lookup_alter_ne by lia|done|done|].
    exists s'. split; [unfold insert_part in Heq; by rewrite Heq|]. split; [done|]. split; [|split; [exact Hm|intros r _; by apply Hres]].
    rewrite offset_diff, (u64_small (k + Length e - Top)) in Hsh by lia. cbn [s1 VMAs set_VMAs] in Hsh. by rewrite (alter_alt_Some _ _ _ _ He) in Hsh.
  - eexists. split; [reflexivity|]. split; [by apply links_attr|]. split; [|split; [done|by intros r]]. rewrite (u64_small (Lo - k)) by lia. cbn [VMAs set_VMAs].
    by rewrite (alter_alt_Some _ _ _ _ He).
  - pose proof (carve_top_free _ Lo Top k e Hok He HT HL Hr HT64 Ht) as Hfree. rewrite throw_ok by done. cbn [mbind option_bind].
    rewrite offset_diff, (u64_small (k + Length e - Top)) by lia. set (n' := mkVMA _ _ _ _ _ _ _ _).
    assert (Hsh : same_shape (<[Top := mkVMA (Resource e) None None Top (u64 (Offset e + (Top - k))) (k + Length e - Top) (Shared e) (Prot e)]> (delete k (VMAs s)))
                    (delete k (<[Top := n']> (VMAs s)))).
    { intros x. rewrite delete_insert_ne by lia. destruct (decide (Top = x)) as [->|]; [by rewrite !lookup_insert_eq|by rewrite !lookup_insert_ne]. }
    destruct (Resource e) as [r|] eqn:HR.
    + destruct (links_replace s k e Top n' r) as (s' & Heq & Hl' & Hs' & Hm & Hres); [done..|]. rewrite Heq. cbn [mbind option_bind]. eexists. split; [reflexivity|].
      split; [done|]. split; [by eapply same_shape_trans|]. split; [done|]. intros r' _. by apply Hres.
    + cbn [mbind option_bind]. eexists. split; [reflexivity|]. split; [|split; [exact Hsh|split; [done|by intros r]]].
      eapply links_delete_none; [by apply links_insert_none|cbn; by rewrite lookup_insert_ne by lia|done].
  - destruct (Resource e) as [r|] eqn:HR.
    + destruct (links_remove s k e r (fun b => b && negb (bool_decide (Some r = P))) Hlk He HR eq_refl) as (b & s1 & Heq & Hm1 & Hl' & Hs' & Hm & Hres).
      rewrite Heq. cbn [mbind option_bind]. eexists. split; [reflexivity|]. split; [exact Hl'|]. split; [exact Hs'|]. split; [exact Hm|].
      intros r' Hr'. apply Hres. destruct (decide (r' = r)) as [->|]; [right|by left]. rewrite bool_decide_eq_true_2 by done. apply andb_false_r.
    + cbn [mbind option_bind]. eexists. split; [reflexivity|]. split; [by eapply links_delete_none|]. split; [done|]. split; [done|by intros r].
Qed.

(** ** Removing a range *)

(** The entries before a position, the measure of the loops. *)
Definition before (m : gmap Z VMAEntry) (p : Z) : nat := size (filter (fun k => k < p) (dom m)).

Lemma before_lt m m' k p :
  k < p -> is_Some (m !! k) -> (forall x, x < k -> is_Some (m' !! x) -> is_Some (m !! x)) -> (before m' k < before m p)%nat.
Proof.
  intros Hk Hin Hsub. apply subset_size. split.
  - intros x. rewrite !elem_of_filter, !elem_of_dom. intros [Hx Hx']. split; [lia|]. by apply Hsub.
  - intros H. specialize (H k). rewrite !elem_of_filter, !elem_of_dom in H. destruct H; [done|lia].
Qed.

Lemma before_le m p : (before m p <= size m)%nat.
Proof. unfold before. rewrite <- size_dom. apply subseteq_size. intros x. rewrite elem_of_filter. tauto. Qed.

(** No entry meets the range. *)
Lemma view_clear s Lo Top a :
  area_ok (VMAs s) -> (forall k e, VMAs s !! k = Some e -> k + Length e <= Lo \/ Top <= k) ->
  view s a = if in_range Lo Top a then None else view s a.
Proof.
  intros Hok H. unfold in_range. destruct (Z.leb_spec Lo a), (Z.ltb_spec a Top); cbn [andb]; try done.
  apply view_none; [done|]. intros k e He. specialize (H k e He). lia.
Qed.

Lemma delete_loop_spec fuel Lo Top P p s :
  ok s -> 0 <= Lo <= Top -> Top < 2 ^ 64 -> p <= Top ->
  (forall k e, VMAs s !! k = Some e -> p <= k -> k + Length e <= Lo \/ Top <= k) -> (before (VMAs s) p < fuel)%nat ->
  exists s', delete_loop fuel Lo Top P p s = Some s' /\ ok s' /\
    (forall a, view s' a = if in_range Lo Top a then None else view s a) /\ same_memo s s' /\ keeps_res (fun r => P = Some r) s s'.
Proof.
  revert p s. induction fuel as [|fuel IH]; intros p s Hs Hr HT Hp Hdone Hfuel; [lia|]. destruct Hs as [Hok Hlk].
  cbn [delete_loop]. pose proof (prev_key_spec (VMAs s) p) as Hk. destruct (prev_key (VMAs s) p) as [k|].
  2: { exists s. split; [done|]. split; [done|]. split; [|split; [done|by intros r]]. intros a. apply view_clear; [done|]. intros k e He. apply (Hdone k e He), Hk; eauto. }
  destruct Hk as (Hkp & [e He] & Hmax). rewrite He. cbn [mbind option_bind]. destruct (area_entry _ Hok _ _ He) as (HB & Hk0 & Hl & Hlt).
  rewrite HB, u64_small by lia. destruct (Z.leb_spec (k + Length e) Lo) as [Hend|Hend].
  { exists s. split; [done|]. split; [done|]. split; [|split; [done|by intros r]]. intros a. apply view_clear; [done|]. intros k' e' He'.
    destruct (decide (p <= k')) as [|Hlt']; [by apply (Hdone k' e')|left]. specialize (Hmax k' ltac:(eauto) ltac:(lia)).
    destruct (decide (k' = k)) as [->|]; [rewrite He in He'; injection He' as <-; lia|].
    pose proof (area_disjoint _ Hok _ _ _ _ He' He ltac:(lia)). lia. }
  destruct (delete_one_spec s Lo Top P k e) as (s1 & Heq & Hl1 & Hsh & Hm1 & Hres1); [done|done|lia|done|done|done|].
  pose proof (carve_ok _ Lo Top k e Hok He ltac:(lia) Hend Hr HT) as Hcok. pose proof (carve_inv _ Lo Top k e Hok He ltac:(lia) Hend Hr HT) as Hinv.
  rewrite Heq. cbn [mbind option_bind]. destruct (IH k s1) as (s' & Heq' & Hok' & Hv' & Hm' & Hres'); [split; [by eapply area_ok_shape|done]|done|done|lia| | |].
  - intros x e' Hx Hkx. destruct (same_shape_lookup _ _ _ _ (same_shape_sym _ _ Hsh) Hx) as (e0 & He0 & Hf).
    apply shape_fields in Hf as (_ & _ & _ & <- & _). apply Hinv in He0 as [(Hx0 & Hne & _)|[(-> & Hlo & ->)|(-> & _ & _)]]; [|cbn; lia|lia].
    apply (Hdone x e0 Hx0). destruct (decide (p <= x)); [done|]. specialize (Hmax x ltac:(eauto) ltac:(lia)). lia.
  - assert (before (VMAs s1) k < before (VMAs s) p)%nat; [|lia]. apply before_lt; [done|eauto|]. intros x Hx [e' Hx'].
    destruct (same_shape_lookup _ _ _ _ (same_shape_sym _ _ Hsh) Hx') as (e0 & He0 & _). apply Hinv in He0 as [(Hx0 & _)|[(-> & _)|(-> & _)]]; [eauto|lia|lia].
  - exists s'. split; [done|]. split; [done|]. split; [|split; [destruct Hm1 as [A1 B1], Hm' as [A2 B2]; split; congruence|intros r Hr' Hs'; by apply Hres', Hres1]].
    intros a. rewrite Hv', (carve_view s s1 Lo Top k e a Hok He ltac:(lia) Hend Hr HT Hsh). destruct (in_range Lo Top a); [done|]. done.
Qed.

Lemma bump_ok s : ok s -> ok (BumpGeneration s) /\ forall a, view (BumpGeneration s) a = view s a.
Proof.
  intros [Ha Hl]. unfold BumpGeneration. assert (Hset : forall g c, ok (set_memo g c s)).
  { intros g c. split; [done|]. intros r. destruct (Hl r) as [H|(l & [A B C] & Hm)]; [by left|right; by exists l]. }
  by destruct (_ =? 0).
Qed.

Lemma delete_range_spec s Lo Len P :
  ok s -> 0 <= Lo -> 0 <= Len -> Lo + Len < 2 ^ 64 ->
  exists s', DeleteVMARange Lo Len P s = Some s' /\ ok s' /\
    (forall a, view s' a = if in_range Lo (Lo + Len) a then None else view s a) /\ same_memo (BumpGeneration s) s' /\ keeps_res (fun r => P = Some r) s s'.
Proof.
  intros Hs HLo HLen HT. destruct (bump_ok s Hs) as [Hb Hv]. unfold DeleteVMARange. rewrite u64_small by lia.
  destruct (delete_loop_spec (S (size (VMAs (BumpGeneration s)))) Lo (Lo + Len) P (Lo + Len) (BumpGeneration s)) as (s' & Heq & Hok' & Hv' & Hm & Hres);
    [done|lia|lia|lia|intros k e _ Hk; by right| |].
  - pose proof (before_le (VMAs (BumpGeneration s)) (Lo + Len)). lia.
  - exists s'. split; [done|]. split; [done|]. split; [intros a; by rewrite Hv', Hv|]. split; [done|].
    intros r Hr Hs'. apply Hres; [done|]. unfold BumpGeneration. by destruct (_ =? 0).
Qed.

(** ** Adding a range *)

(** The place found is between two neighbours of the list. *)
Lemma find_place_spec fuel s r Lo l1 l2 :
  chain s r (l1 ++ l2) -> (length l2 < fuel)%nat ->
  exists l1' l2', l1 ++ l2 = l1' ++ l2' /\ find_place fuel s Lo (last_or None l1) (hd_or None l2) = Some (last_or None l1', hd_or None l2').
Proof.
  revert l1 l2. induction fuel as [|fuel IH]; intros l1 l2 Hc Hf; [lia|]. cbn [find_place]. destruct l2 as [|n l2]; cbn [hd_or]; [by exists l1, []|].
  destruct (seg_at _ _ _ _ _ (chain_seg _ _ _ Hc)) as (N & HN & _ & _ & Hnx). rewrite HN. cbn [mbind option_bind].
  destruct (Base N <? Lo); [|by exists l1, (n :: l2)]. rewrite Hnx. cbn [length] in Hf.
  destruct (IH (l1 ++ [n]) l2) as (l1' & l2' & He & Hfp); [by rewrite <- app_assoc|lia|]. rewrite last_or_snoc in Hfp.
  exists l1', l2'. split; [by rewrite <- He, <- app_assoc|done].
Qed.

(** Where the walk starts. *)
Lemma start_place s r Lo l :
  chain s r l ->
  exists l1 l2, l = l1 ++ l2 /\
    match hd_or None l with
    | None => Some (None, None)
    | Some f => F ← VMAs s !! f; Some (if Base F >? Lo then (None, Some f) else (Some f, ResourceNextVMA F))
    end = Some (last_or None l1, hd_or None l2).
Proof.
  intros Hc. destruct l as [|f l]; [by exists [], []|]. cbn [hd_or].
  destruct (seg_at _ _ [] _ _ (chain_seg _ _ _ Hc)) as (F & HF & _ & _ & Hn). rewrite HF. cbn [mbind option_bind].
  destruct (Base F >? Lo); [by exists [], (f :: l)|]. rewrite Hn. by exists [f], l.
Qed.

Lemma chain_length s r l : chain s r l -> (length l <= size (VMAs s))%nat.
Proof.
  intros [_ Hs Hnd]. rewrite <- size_dom, <- (size_list_to_set (C := gset Z) l Hnd). apply subseteq_size. intros k Hk.
  apply elem_of_list_to_set in Hk. destruct (seg_elem _ _ _ _ _ _ Hs Hk) as (e & He & _). apply elem_of_dom. eauto.
Qed.

(** A new entry in a free range. *)
Lemma insert_area m Lo e :
  area_ok m -> Base e = Lo -> 0 <= Lo -> 0 < Length e -> Lo + Length e < 2 ^ 64 ->
  (forall k x, m !! k = Some x -> k + Length x <= Lo \/ Lo + Length e <= k) -> area_ok (<[Lo := e]> m).
Proof.
  intros Hok HB H0 Hl Ht Hfree. split.
  - intros k x. destruct (decide (Lo = k)) as [->|]; [rewrite lookup_insert_eq; intros [= <-]; lia|rewrite lookup_insert_ne by done; apply (area_entry _ Hok)].
  - intros k1 e1 k2 e2. destruct (decide (Lo = k1)) as [->|]; [rewrite lookup_insert_eq; intros [= <-]|rewrite lookup_insert_ne by done; intros H1];
    (destruct (decide (k1 = k2)) as [->|]; [intros _ ?; lia|]).
    + rewrite lookup_insert_ne by done. intros H2 Hlt. destruct (area_entry _ Hok _ _ H2) as (_ & _ & Hl2 & _). specialize (Hfree _ _ H2). lia.
    + destruct (decide (Lo = k2)) as [->|]; [rewrite lookup_insert_eq; intros [= <-] Hlt; specialize (Hfree _ _ H1); destruct (area_entry _ Hok _ _ H1); lia|].
      rewrite lookup_insert_ne by done. intros H2. by apply (area_disjoint _ Hok _ _ _ _ H1 H2).
Qed.

Lemma insert_view s s' Lo e a :
  area_ok (VMAs s) -> area_ok (<[Lo := e]> (VMAs s)) -> VMAs s !! Lo = None -> same_shape (<[Lo := e]> (VMAs s)) (VMAs s') ->
  view s' a = if in_range Lo (Lo + Length e) a then Some (attr_of Lo e a) else view s a.
Proof.
  intros Hok Hok1 HLo Hsh. set (s1 := set_VMAs (insert Lo e) s). rewrite (view_shape s1 s') by done.
  assert (Hin : VMAs s1 !! Lo = Some e) by (cbn; by rewrite lookup_insert_eq). unfold in_range.
  destruct (Z.leb_spec Lo a), (Z.ltb_spec a (Lo + Length e)); cbn [andb].
  { apply view_spec; [done|]. exists Lo, e. split_and!; (done || lia). }
  all: rewrite <- (option_fmap_id (view s a)); apply view_eq; [done|done| |];
    [intros k x Hk Ha; exists k, x; split; [cbn; rewrite lookup_insert_ne by congruence; done|done]
    |intros k x Hk Ha; cbn in Hk; destruct (decide (Lo = k)) as [->|]; [rewrite lookup_insert_eq in Hk; injection Hk as <-; lia|rewrite lookup_insert_ne in Hk by done; eauto]].
Qed.

(** A cleared range holds no entry. *)
Lemma clear_range s Lo Len :
  area_ok (VMAs s) -> 0 < Len -> (forall a, in_range Lo (Lo + Len) a = true -> view s a = None) ->
  forall k x, VMAs s !! k = Some x -> k + Length x <= Lo \/ Lo + Len <= k.
Proof.
  intros Hok HLen Hv k x Hx. destruct (area_entry _ Hok _ _ Hx) as (_ & _ & Hl & _).
  destruct (decide (k + Length x <= Lo \/ Lo + Len <= k)) as [|Hn]; [done|exfalso].
  assert (Ha : view s (Z.max Lo k) = Some (attr_of k x (Z.max Lo k))) by (apply view_spec; [done|]; exists k, x; split_and!; (done || lia)).
  rewrite Hv in Ha; [done|]. unfold in_range. lia.
Qed.

Lemma track_range_spec s R Lo Off Len Sh P :
  ok s -> (forall r, R = Some r -> is_Some (MappedResources s !! r)) -> 0 <= Lo -> 0 < Len -> Lo + Len < 2 ^ 64 ->
  exists s', TrackVMARange R Lo Off Len Sh P s = Some s' /\ ok s' /\
    (forall a, view s' a = if in_range Lo (Lo + Len) a then Some (R, u64 (Off + (a - Lo)), Sh, P) else view s a).
Proof.
  intros Hs HR HLo HLen HT. destruct (bump_ok s Hs) as [Hb Hbv]. unfold TrackVMARange.
  destruct (delete_range_spec (BumpGeneration s) Lo Len R) as (s1 & Heq1 & [Hok1 Hlk1] & Hv1 & _ & Hres1); [done|lia|lia|lia|]. rewrite Heq1. cbn [mbind option_bind].
  assert (Hfree : forall k x, VMAs s1 !! k = Some x -> k + Length x <= Lo \/ Lo + Len <= k).
  { apply clear_range; [done|done|]. intros a Ha. by rewrite Hv1, Ha. }
  assert (Hnone : VMAs s1 !! Lo = None).
  { destruct (VMAs s1 !! Lo) as [x|] eqn:Hx; [|done]. pose proof (Hfree _ _ Hx). destruct (area_entry _ Hok1 _ _ Hx). lia. }
  assert (Hfin : forall PrevRes NextRes s', links s' -> same_shape (<[Lo := mkVMA R PrevRes NextRes Lo Off Len Sh P]> (VMAs s1)) (VMAs s') ->
    ok s' /\ forall a, view s' a = if in_range Lo (Lo + Len) a then Some (R, u64 (Off + (a - Lo)), Sh, P) else view s a).
  { intros PrevRes NextRes s' Hl' Hsh. set (e := mkVMA R PrevRes NextRes Lo Off Len Sh P) in *.
    assert (Hok' : area_ok (<[Lo := e]> (VMAs s1))) by (apply insert_area; done).
    split; [split; [by eapply area_ok_shape|done]|]. intros a. rewrite (insert_view s1 s' Lo e a Hok1 Hok' Hnone Hsh).
    change (Length e) with Len. destruct (in_range Lo (Lo + Len) a) eqn:Hin; [done|]. by rewrite Hv1, Hin, Hbv. }
  destruct R as [r|].
  - assert (is_Some (MappedResources s1 !! r)) as HR1.
    { apply Hres1; [done|]. unfold BumpGeneration. destruct (_ =? 0); by apply HR. }
    destruct (Hlk1 r) as [[Hn _]|(l & Hc & Hm)]; [rewrite Hn in HR1; by destruct HR1|]. rewrite (proj1 (chain_first _ _ _ Hc)). cbn [mbind option_bind].
    destruct (start_place s1 r Lo l Hc) as (l1 & l2 & -> & Hstart). rewrite Hstart. cbn [mbind option_bind].
    pose proof (chain_length _ _ _ Hc) as Hlen. rewrite length_app in Hlen.
    destruct (find_place_spec (S (size (VMAs s1))) s1 r Lo l1 l2 Hc ltac:(lia)) as (l1' & l2' & He & Hfp). rewrite Hfp. cbn [mbind option_bind].
    rewrite throw_ok by done. cbn [mbind option_bind]. rewrite He in Hc, Hm. set (n' := mkVMA _ _ _ _ _ _ _ _).
    destruct (list_snoc_cases l1') as [->|(p & l1'' & ->)].
    + destruct (links_prepend s1 Lo n' r l2') as (s' & Hs' & Hl' & Hsh & _); [done..|]. exists s'. split; [exact Hs'|]. by eapply Hfin.
    + rewrite <- app_assoc in Hc, Hm. subst n'. rewrite last_or_snoc. set (n' := mkVMA _ _ _ _ _ _ _ _).
      destruct (links_insert_after s1 p Lo n' r l1'' l2') as (s' & Hs' & Hl' & Hsh & _); [done..|]. exists s'. split; [exact Hs'|]. by eapply Hfin.
  - cbn [mbind option_bind find_place]. rewrite throw_ok by done. cbn [mbind option_bind]. eexists. split; [reflexivity|].
    eapply Hfin; [by apply links_insert_none|done].
Qed.

(** ** Changing the protection of a range *)

Definition set_prot (P : VMAProt) (x : attr) : attr := let '(r, o, sh, _) := x in (r, o, sh, P).

(** An entry replaced by one of the same extent. *)
Lemma replace_view s s' k e e' a :
  area_ok (VMAs s) -> VMAs s !! k = Some e -> Base e' = Base e -> Length e' = Length e -> same_shape (<[k := e']> (VMAs s)) (VMAs s') ->
  area_ok (VMAs s') /\ view s' a = if in_range k (k + Length e) a then Some (attr_of k e' a) else view s a.
Proof.
  intros Hok He HB HL Hsh. assert (Hlk : forall x y, <[k := e']> (VMAs s) !! x = Some y -> exists y0, VMAs s !! x = Some y0 /\ Base y = Base y0 /\ Length y = Length y0).
  { intros x y. destruct (decide (k = x)) as [->|]; [rewrite lookup_insert_eq; intros [= <-]; eauto|rewrite lookup_insert_ne by done; eauto]. }
  assert (Hok1 : area_ok (<[k := e']> (VMAs s))).
  { split.
    - intros x y (y0 & Hy0 & -> & ->)%Hlk. by apply (area_entry _ Hok).
    - intros k1 e1 k2 e2 (y1 & H1 & _ & ->)%Hlk (y2 & H2 & _)%Hlk. by apply (area_disjoint _ Hok _ _ _ _ H1 H2). }
  split; [by eapply area_ok_shape|]. set (s1 := set_VMAs (insert k e') s). rewrite (view_shape s1 s') by done.
  assert (Hin : VMAs s1 !! k = Some e') by (cbn; by rewrite lookup_insert_eq). unfold in_range.
  destruct (Z.leb_spec k a), (Z.ltb_spec a (k + Length e)); cbn [andb].
  { apply view_spec; [done|]. exists k, e'. split_and!; (done || lia). }
  all: rewrite <- (option_fmap_id (view s a)); apply view_eq; [done|done| |];
    [intros x y Hx Ha; exists x, y; split; [cbn; rewrite lookup_insert_ne; [done|intros ->; rewrite He in Hx; injection Hx as <-; lia]|done]
    |intros x y Hx Ha; cbn in Hx; destruct (Hlk _ _ Hx) as (y0 & Hy0 & _ & Hl); exists x, y0; rewrite <- Hl; done].
Qed.

(** An entry cut at [c]: the first part in [e1], the rest as [e2]. *)
Lemma cut_view s s' k e c e1 e2 a :
  area_ok (VMAs s) -> VMAs s !! k = Some e -> k < c < k + Length e ->
  Base e1 = k -> Length e1 = c - k -> Base e2 = c -> Length e2 = k + Length e - c ->
  same_shape (<[c := e2]> (<[k := e1]> (VMAs s))) (VMAs s') ->
  area_ok (VMAs s') /\ view s' a = if in_range k c a then Some (attr_of k e1 a) else if in_range c (k + Length e) a then Some (attr_of c e2 a) else view s a.
Proof.
  intros Hok He Hc HB1 HL1 HB2 HL2 Hsh. destruct (area_entry _ Hok _ _ He) as (HB & Hk0 & Hl & Hlt).
  pose proof (carve_ok _ c (k + Length e) k e Hok He ltac:(lia) ltac:(lia) ltac:(lia) ltac:(lia)) as Hok1.
  set (sc := set_VMAs (fun _ => carve c (k + Length e) k e (VMAs s)) s).
  assert (Hcarve : carve c (k + Length e) k e (VMAs s) = <[k := with_length (c - k) e]> (VMAs s)).
  { unfold carve. rewrite (proj2 (Z.ltb_lt k c)), Z.ltb_irrefl by lia. done. }
  pose proof (carve_view s sc c (k + Length e) k e a Hok He ltac:(lia) ltac:(lia) ltac:(lia) ltac:(lia) ltac:(done)) as Hv1.
  assert (Hk1 : VMAs sc !! k = Some (with_length (c - k) e)) by (cbn; rewrite Hcarve; by rewrite lookup_insert_eq).
  set (s1 := set_VMAs (insert k e1) sc).
  destruct (replace_view sc s1 k (with_length (c - k) e) e1 a Hok1 Hk1) as [Hok2 Hv2]; [cbn; congruence|cbn; congruence|done|].
  assert (Hfree : forall x y, VMAs s1 !! x = Some y -> x + Length y <= c \/ k + Length e <= x).
  { intros x y. cbn. rewrite Hcarve. destruct (decide (k = x)) as [->|]; [rewrite lookup_insert_eq; intros [= <-]; lia|]. rewrite !lookup_insert_ne by done. intros Hy.
    destruct (decide (x < k)); [pose proof (area_disjoint _ Hok _ _ _ _ Hy He ltac:(lia)); lia|]. pose proof (area_disjoint _ Hok _ _ _ _ He Hy ltac:(lia)). lia. }
  assert (Hnone : VMAs s1 !! c = None).
  { destruct (VMAs s1 !! c) as [y|] eqn:Hy; [|done]. pose proof (Hfree _ _ Hy). destruct (area_entry _ Hok2 _ _ Hy). lia. }
  assert (Hok3 : area_ok (<[c := e2]> (VMAs s1))).
  { apply insert_area; [done|done|lia|lia|lia|]. intros x y Hy. specialize (Hfree x y Hy). lia. }
  assert (Heq : <[c := e2]> (VMAs s1) = <[c := e2]> (<[k := e1]> (VMAs s))) by (cbn; rewrite Hcarve; by rewrite insert_insert_eq).
  split; [eapply area_ok_shape; [exact Hsh|by rewrite <- Heq]|]. rewrite (insert_view s1 s' c e2 a Hok2 Hok3 Hnone); [|by rewrite Heq].
  rewrite Hv2, Hv1, HL2. cbn [Length with_length]. unfold in_range. replace (c + (k + Length e - c)) with (k + Length e) by lia. replace (k + (c - k)) with c by lia.
  destruct (Z.leb_spec k a), (Z.ltb_spec a c), (Z.leb_spec c a), (Z.ltb_spec a (k + Length e)); cbn [andb]; try done; lia.
Qed.

Definition covered (s : VMATracking) (Lo Top : Z) : Prop := forall a, Lo <= a < Top -> is_Some (view s a).

(** The last entry that starts before the end of a mapped range reaches it. *)
Lemma covered_last s Lo Top :
  area_ok (VMAs s) -> Lo < Top -> covered s Lo Top ->
  exists k e, prev_key (VMAs s) Top = Some k /\ VMAs s !! k = Some e /\ k < Top <= k + Length e.
Proof.
  intros Hok HT Hc. destruct (Hc (Top - 1)) as [x Hx]; [lia|]. apply view_spec in Hx as (k & e & He & Ha & _); [|done].
  pose proof (prev_key_spec (VMAs s) Top) as Hp. destruct (prev_key (VMAs s) Top) as [k'|]; [|specialize (Hp k ltac:(eauto)); lia].
  destruct Hp as (Hk' & [e' He'] & Hmax). specialize (Hmax k ltac:(eauto) ltac:(lia)). destruct (decide (k' = k)) as [->|].
  - exists k, e. split_and!; (done || lia).
  - pose proof (area_disjoint _ Hok _ _ _ _ He He' ltac:(lia)). lia.
Qed.

(** The protection of [k] changed, without links. *)
Lemma set_prot_spec s k e P L :
  ok s -> VMAs s !! k = Some e -> L = Length e ->
  let s' := set_VMAs (alter (with_length L) k) (set_VMAs (alter (with_prot P) k) s) in
  ok s' /\ (forall a, view s' a = if in_range k (k + Length e) a then set_prot P <$> view s a else view s a) /\
  (forall x, is_Some (VMAs s' !! x) <-> is_Some (VMAs s !! x)).
Proof.
  intros [Hok Hl] He -> s'.
  assert (Hm : VMAs s' = <[k := with_prot P e]> (VMAs s)).
  { subst s'. cbn. rewrite (alter_alt_Some (with_prot P) _ _ _ He). rewrite alter_insert_eq. destruct e; done. }
  assert (Hv : forall a, area_ok (VMAs s') /\ view s' a = if in_range k (k + Length e) a then Some (attr_of k (with_prot P e) a) else view s a).
  { intros a. apply (replace_view s s' k e (with_prot P e)); [done|done|done|done|by rewrite Hm]. }
  split; [split; [apply (Hv 0)|by apply links_attr, links_attr]|]. split.
  - intros a. rewrite (proj2 (Hv a)). destruct (in_range k (k + Length e) a) eqn:Hin; [|done]. unfold in_range in Hin.
    assert (view s a = Some (attr_of k e a)) as ->; [|done]. apply view_spec; [done|]. exists k, e. split_and!; (done || lia).
  - intros x. rewrite Hm. rewrite lookup_insert_is_Some. destruct (decide (k = x)) as [->|]; [|naive_solver]. split; [eauto|by left].
Qed.

(** The loop when no entry crosses the end of the range. *)
Lemma protect_loop_spec fuel Lo Top P s :
  ok s -> 0 <= Lo < Top -> Top < 2 ^ 64 -> covered s Lo Top ->
  (forall k e, VMAs s !! k = Some e -> k < Top -> k + Length e <= Top) -> (before (VMAs s) Top < fuel)%nat ->
  exists k e T s', protect_loop fuel Lo Top P Top s = Some (Some k, T, s') /\ ok s' /\ VMAs s' !! k = Some e /\ k <= Lo < T /\ T <= Top /\ k + Length e = T /\
    forall a, view s' a = if in_range T Top a then set_prot P <$> view s a else view s a.
Proof.
  revert Top s. induction fuel as [|fuel IH]; intros Top s Hs HLo HT Hc Hx Hf; [lia|]. pose proof Hs as [Hok Hlk].
  destruct (covered_last s Lo Top Hok ltac:(lia) Hc) as (k & e & Hk & He & Hr). cbn [protect_loop]. rewrite Hk, He. cbn [mbind option_bind].
  destruct (area_entry _ Hok _ _ He) as (HB & Hk0 & Hl & Hlt). rewrite HB, u64_small by lia. specialize (Hx k e He ltac:(lia)) as HTop.
  rewrite (proj2 (Z.ltb_ge (k + Length e) Top)), orb_false_r by lia. destruct (Z.leb_spec k Lo) as [Hkl|Hkl].
  - exists k, e, Top, s. split_and!; try (done || lia). intros a. unfold in_range. destruct (Z.leb_spec Top a), (Z.ltb_spec a Top); try done; lia.
  - rewrite Z.gtb_ltb, (proj2 (Z.ltb_ge Top (k + Length e))) by lia. cbn [mbind option_bind]. rewrite (u64_small (Top - k)), (u64_small (k - Lo)), (u64_small (Lo + (k - Lo))) by lia.
    replace (Lo + (k - Lo)) with k by lia. destruct (set_prot_spec s k e P (Top - k) Hs He ltac:(lia)) as (Hs1 & Hv1 & Hd1). set (s1 := set_VMAs _ _) in *.
    assert (Hx1 : forall x y, VMAs s1 !! x = Some y -> x < k -> x + Length y <= k).
    { intros x y Hy Hlt'. assert (is_Some (VMAs s1 !! k)) as [ek Hek] by (apply Hd1; eauto). by eapply (area_disjoint _ (ok_area _ Hs1)). }
    destruct (IH k s1 Hs1 ltac:(lia) ltac:(lia)) as (k2 & e2 & T & s' & Heq & Hs' & He2 & Hk2 & HT2 & Hend & Hv').
    + intros a Ha. rewrite Hv1. unfold in_range. rewrite (proj2 (Z.leb_gt k a)) by lia. apply Hc. lia.
    + done.
    + assert (before (VMAs s1) k < before (VMAs s) Top)%nat; [|lia]. apply before_lt; [lia|eauto|]. intros x _. apply Hd1.
    + exists k2, e2, T, s'. split_and!; try (done || lia). intros a. rewrite Hv', Hv1. replace (k + Length e) with Top by lia. unfold in_range.
      destruct (Z.leb_spec T a), (Z.ltb_spec a k), (Z.leb_spec k a), (Z.ltb_spec a Top); cbn [andb]; try done; lia.
Qed.

(** A piece of [e], from [At] for [L] bytes, with protection [P]. *)
Definition piece (e : VMAEntry) (k At L : Z) (P : VMAProt) : VMAEntry :=
  mkVMA (Resource e) None None At (u64 (Offset e + (At - k))) L (Shared e) P.

Lemma attr_piece e k At L P a : attr_of At (piece e k At L P) a = set_prot P (attr_of k e a).
Proof. unfold piece. by rewrite attr_tail. Qed.

Lemma view_in s k e a : area_ok (VMAs s) -> VMAs s !! k = Some e -> in_range k (k + Length e) a = true -> view s a = Some (attr_of k e a).
Proof. intros Hok He Hin. unfold in_range in Hin. apply view_spec; [done|]. exists k, e. split_and!; (done || lia). Qed.

Lemma in_range_split a x y z : x <= y <= z -> in_range x z a = in_range x y a || in_range y z a.
Proof. intros H. unfold in_range. lia. Qed.

(** Strategy 2, and 4 with a tail of offset [o]: the first part of [e] gets the
    protection, the rest stays. *)
Lemma cut_head_view s s' k e c o P :
  area_ok (VMAs s) -> VMAs s !! k = Some e -> k < c < k + Length e ->
  same_shape (<[c := mkVMA (Resource e) None None c o (k + Length e - c) (Shared e) (Prot e)]> (<[k := with_length (c - k) (with_prot P e)]> (VMAs s))) (VMAs s') ->
  area_ok (VMAs s') /\
  forall a, view s' a = if in_range k c a then set_prot P <$> view s a
                        else if in_range c (k + Length e) a then Some (Resource e, u64 (o + (a - c)), Shared e, Prot e) else view s a.
Proof.
  intros Hok He Hc Hsh. pose proof (area_entry _ Hok _ _ He) as (HB & _).
  assert (H : forall a, area_ok (VMAs s') /\ view s' a = if in_range k c a then Some (attr_of k (with_length (c - k) (with_prot P e)) a)
    else if in_range c (k + Length e) a then Some (Resource e, u64 (o + (a - c)), Shared e, Prot e) else view s a).
  { intros a. by apply (cut_view s s' k e c (with_length (c - k) (with_prot P e)) (mkVMA (Resource e) None None c o (k + Length e - c) (Shared e) (Prot e)) a). }
  split; [apply (H 0)|]. intros a. rewrite (proj2 (H a)). destruct (in_range k c a) eqn:Hin; [|done].
  rewrite (view_in s k e a Hok He); [done|]. rewrite (in_range_split a k c) by lia. by rewrite Hin.
Qed.

(** Strategy 3: the part from [Lo] to [Top] gets the protection, what is before
    and after it stays. *)
Lemma cut_middle_view s s' k e Lo Top P :
  area_ok (VMAs s) -> VMAs s !! k = Some e -> k < Lo < Top -> Top <= k + Length e ->
  same_shape (let m := <[Lo := piece e k Lo (Top - Lo) P]> (<[k := with_length (Lo - k) e]> (VMAs s)) in
              if Top <? k + Length e then <[Top := piece e k Top (k + Length e - Top) (Prot e)]> m else m) (VMAs s') ->
  area_ok (VMAs s') /\ forall a, view s' a = if in_range Lo Top a then set_prot P <$> view s a else view s a.
Proof.
  intros Hok He Hk HT Hsh. pose proof (area_entry _ Hok _ _ He) as (HB & _). set (h := with_length (Lo - k) e) in *.
  assert (Hin : forall a, in_range Lo (k + Length e) a = true -> view s a = Some (attr_of k e a)).
  { intros a Ha. apply view_in; [done|done|]. unfold in_range in *. lia. }
  destruct (Z.ltb_spec Top (k + Length e)) as [Ht|Ht].
  - set (R := piece e k Lo (k + Length e - Lo) (Prot e)). set (sA := set_VMAs (fun _ => <[Lo := R]> (<[k := h]> (VMAs s))) s).
    assert (HA : forall a, area_ok (VMAs sA) /\ view sA a = if in_range k Lo a then Some (attr_of k h a) else if in_range Lo (k + Length e) a then Some (attr_of Lo R a) else view s a)
      by (intros a; apply (cut_view s sA k e Lo h R a); (done || lia || by intros x)).
    assert (HR : VMAs sA !! Lo = Some R) by (cbn; by rewrite lookup_insert_eq).
    assert (Hsh' : same_shape (<[Top := piece e k Top (k + Length e - Top) (Prot e)]> (<[Lo := piece e k Lo (Top - Lo) P]> (VMAs sA))) (VMAs s')).
    { cbn. by rewrite insert_insert_eq. }
    assert (HB' : forall a, area_ok (VMAs s') /\ view s' a = if in_range Lo Top a then Some (attr_of Lo (piece e k Lo (Top - Lo) P) a)
              else if in_range Top (Lo + Length R) a then Some (attr_of Top (piece e k Top (k + Length e - Top) (Prot e)) a) else view sA a).
    { intros a. apply (cut_view sA s' Lo R Top (piece e k Lo (Top - Lo) P) (piece e k Top (k + Length e - Top) (Prot e)) a);
        [apply (HA 0)|done|cbn; lia|done|cbn; lia|done|cbn; lia|done]. }
    split; [apply (HB' 0)|]. intros a. rewrite (proj2 (HB' a)), (proj2 (HA a)), !attr_piece. subst R. rewrite attr_piece.
    replace (Lo + Length (piece e k Lo (k + Length e - Lo) (Prot e))) with (k + Length e) by (cbn; lia).
    destruct (in_range Lo Top a) eqn:E1; [rewrite Hin by (rewrite (in_range_split a Lo Top), E1 by lia; done); done|].
    destruct (in_range Top (k + Length e) a) eqn:E2; [rewrite Hin by (rewrite (in_range_split a Lo Top), E2, orb_true_r by lia; done); done|].
    rewrite (in_range_split a Lo Top (k + Length e)), E1, E2 by lia. cbn [orb]. destruct (in_range k Lo a) eqn:E3; [|done].
    change (attr_of k h a) with (attr_of k e a). symmetry. apply view_in; [done|done|]. unfold in_range in *. lia.
  - assert (HA : forall a, area_ok (VMAs s') /\ view s' a = if in_range k Lo a then Some (attr_of k h a)
              else if in_range Lo (k + Length e) a then Some (attr_of Lo (piece e k Lo (Top - Lo) P) a) else view s a).
    { intros a. apply (cut_view s s' k e Lo h (piece e k Lo (Top - Lo) P) a); [done|done|lia|done|done|done|cbn; lia|done]. }
    split; [apply (HA 0)|]. intros a. rewrite (proj2 (HA a)), attr_piece. replace (k + Length e) with Top by lia.
    destruct (in_range k Lo a) eqn:E3.
    + replace (in_range Lo Top a) with false by (unfold in_range in *; lia). change (attr_of k h a) with (attr_of k e a). symmetry. apply view_in; [done|done|]. unfold in_range in *. lia.
    + destruct (in_range Lo Top a) eqn:E1; [|done]. rewrite Hin; [done|]. by replace (k + Length e) with Top by lia.
Qed.

Lemma protect_last_spec s k e Lo Top P :
  ok s -> VMAs s !! k = Some e -> k <= Lo < Top -> Top <= k + Length e -> 0 <= Lo ->
  exists s', protect_last Lo Top P k s = Some s' /\ ok s' /\ forall a, view s' a = if in_range Lo Top a then set_prot P <$> view s a else view s a.
Proof.
  intros Hs He Hk HT HLo. pose proof Hs as [Hok Hlk]. destruct (area_entry _ Hok _ _ He) as (HB & Hk0 & Hl & Hlt).
  unfold protect_last. rewrite He. cbn [mbind option_bind]. rewrite HB, (u64_small (k + Length e)) by lia. rewrite (proj2 (Z.leb_gt _ Lo)) by lia.
  assert (Hfree : forall c, k < c < k + Length e -> VMAs s !! c = None).
  { intros c Hc. destruct (VMAs s !! c) as [y|] eqn:Hy; [|done]. pose proof (area_disjoint _ Hok _ _ _ _ He Hy ltac:(lia)). lia. }
  destruct (Z.eqb_spec k Lo) as [->|Hne]; cbn [andb].
  - destruct (Z.eqb_spec (Lo + Length e) Top) as [<-|HneT].
    + eexists. split; [reflexivity|]. destruct (set_prot_spec s Lo e P (Length e) Hs He eq_refl) as (Hs1 & Hv1 & _).
      assert (Heq : set_VMAs (alter (with_length (Length e)) Lo) (set_VMAs (alter (with_prot P) Lo) s) = set_VMAs (alter (with_prot P) Lo) s).
      { unfold set_VMAs. cbn. f_equal. rewrite (alter_alt_Some (with_prot P) _ _ _ He), alter_insert_eq. by destruct e. }
      rewrite Heq in *. done.
    + rewrite Z.gtb_ltb, (proj2 (Z.ltb_lt Top _)) by lia. rewrite (u64_small (Top - Lo)), (u64_small (Lo + Length e - Top)), offset_diff by lia.
      set (s1 := set_VMAs (alter (with_length (Top - Lo)) Lo) (set_VMAs (alter (with_prot P) Lo) s)).
      assert (Hm1 : VMAs s1 = <[Lo := with_length (Top - Lo) (with_prot P e)]> (VMAs s)).
      { subst s1. cbn. by rewrite (alter_alt_Some (with_prot P) _ _ _ He), alter_insert_eq. }
      destruct (insert_part_spec s1 Lo e (with_length (Top - Lo) (with_prot P e)) (ResourceNextVMA e) Top (u64 (Offset e + (Top - Lo))) (Lo + Length e - Top) (Prot e))
        as (s' & Heq & Hl' & Hsh & _); [by apply links_attr, links_attr|by rewrite Hm1, lookup_insert_eq|rewrite Hm1, lookup_insert_ne by lia; apply Hfree; lia|done|done|].
      exists s'. split; [exact Heq|]. rewrite Hm1 in Hsh. destruct (cut_head_view s s' Lo e Top _ P Hok He ltac:(lia) Hsh) as [Hok' Hv'].
      split; [by split|]. intros a. rewrite Hv'. destruct (in_range Lo Top a) eqn:Hin; [done|]. destruct (in_range Top (Lo + Length e) a) eqn:Hin2; [|done].
      rewrite (view_in s Lo e a Hok He); [|by rewrite (in_range_split a Lo Top), Hin, Hin2 by lia]. f_equal. exact (attr_tail e Lo Top a (Prot e) 0).
  - rewrite (proj2 (Z.ltb_lt k Lo)), (proj2 (Z.geb_le (k + Length e) Top)) by lia. cbn [andb].
    rewrite (u64_small (Lo - k)), (u64_small (Top - Lo)), !offset_diff by lia.
    set (s1 := set_VMAs (alter (with_length (Lo - k)) k) s).
    assert (Hm1 : VMAs s1 = <[k := with_length (Lo - k) e]> (VMAs s)) by (cbn; by rewrite (alter_alt_Some _ _ _ _ He)).
    destruct (insert_part_spec s1 k e (with_length (Lo - k) e) (ResourceNextVMA e) Lo (u64 (Offset e + (Lo - k))) (Top - Lo) P)
      as (s2 & Heq2 & Hl2 & Hsh2 & _); [by apply links_attr|by rewrite Hm1, lookup_insert_eq|rewrite Hm1, lookup_insert_ne by lia; apply Hfree; lia|done|done|].
    rewrite Heq2. cbn [mbind option_bind]. fold (piece e k Lo (Top - Lo) P) in Hsh2. rewrite Hm1 in Hsh2.
    pose proof (cut_middle_view s) as Hcut. rewrite Z.gtb_ltb. destruct (Z.ltb_spec Top (k + Length e)) as [Ht|Ht].
    + destruct (same_shape_lookup _ _ k (with_length (Lo - k) e) Hsh2) as (Now & HNow & Hf); [by rewrite lookup_insert_ne, lookup_insert_eq by lia|].
      rewrite HNow. cbn [mbind option_bind]. rewrite (u64_small (k + Length e - Top)) by lia. apply shape_fields in Hf as (Hf & _).
      destruct (insert_part_spec s2 k e Now (ResourceNextVMA Now) Top (u64 (Offset e + (Top - k))) (k + Length e - Top) (Prot e))
        as (s3 & Heq3 & Hl3 & Hsh3 & _); [done|done| |done|done|].
      * pose proof (Hsh2 Top) as HT2. rewrite !lookup_insert_ne, Hfree in HT2 by lia. by destruct (VMAs s2 !! Top).
      * exists s3. split; [done|]. destruct (Hcut s3 k e Lo Top P Hok He ltac:(lia) ltac:(lia)) as [Hok3 Hv3]; [|by split].
        rewrite (proj2 (Z.ltb_lt Top _)) by lia. intros x. rewrite Hsh3. fold (piece e k Top (k + Length e - Top) (Prot e)).
        destruct (decide (Top = x)) as [->|]; [by rewrite !lookup_insert_eq|]. rewrite !(lookup_insert_ne _ Top) by done. apply Hsh2.
    + exists s2. split; [done|]. destruct (Hcut s2 k e Lo Top P Hok He ltac:(lia) ltac:(lia)) as [Hok3 Hv3]; [|by split].
      rewrite (proj2 (Z.ltb_ge Top _)) by lia. exact Hsh2.
Qed.
