(* ===== verification/VMACorrect.v ===== *)
(** What the memory tracker promises: mmap, munmap and mprotect as updates of
    the attributes of single addresses, the lookup of an address, and the memo
    of pages that are already marked.  The last section has two places where
    [ChangeProtectionFlags] leaves its contract. *)
From S2P Require Import Prelude VMA VMALinks VMASpec VMAOps.
From stdpp Require Import gmap.
Open Scope Z_scope.
Import VMA.

(** ** The protection change *)

(** How far the offset recorded for [a] falls back when the range from [Lo] to
    [Top] changes its protection: only in an entry that starts inside the range
    and reaches past its end. *)
Definition tail_shift (s : VMATracking) (Lo Top a : Z) : Z :=
  match FindVMAEntry a s with
  | Some (k, _) => if (Lo <? k) && (k <? Top) then Top - k else 0
  | None => 0
  end.
Definition lower_offset (d : Z) (x : attr) : attr := let '(r, o, sh, p) := x in (r, u64 (o - d), sh, p).

Lemma shift_at s Lo Top k e a :
  area_ok (VMAs s) -> VMAs s !! k = Some e -> k <= a < k + Length e -> Lo < k < Top ->
  lower_offset (tail_shift s Lo Top a) <$> view s a = Some (Resource e, u64 (Offset e + (a - Top)), Shared e, Prot e).
Proof.
  intros Hok He Ha Hk. assert (Hf : FindVMAEntry a s = Some (k, e)) by by apply find_spec.
  unfold view, tail_shift. rewrite Hf. cbn. rewrite (proj2 (Z.ltb_lt Lo k)), (proj2 (Z.ltb_lt k Top)) by lia. cbn.
  unfold u64, wrap. rewrite Zminus_mod_idemp_l. by replace (Offset e + (a - k) - (Top - k)) with (Offset e + (a - Top)) by lia.
Qed.

Lemma shift_zero s Lo Top a :
  area_ok (VMAs s) -> (forall k e, VMAs s !! k = Some e -> k <= a < k + Length e -> ~ Lo < k < Top) ->
  lower_offset (tail_shift s Lo Top a) <$> view s a = view s a.
Proof.
  intros Hok Hn. unfold view, tail_shift. destruct (FindVMAEntry a s) as [[k e]|] eqn:Hf; [|done]. apply find_spec in Hf as [He Ha]; [|done].
  specialize (Hn k e He Ha). replace ((Lo <? k) && (k <? Top)) with false by lia. cbn. unfold u64. by rewrite Z.sub_0_r, wrap_wrap.
Qed.

Lemma shift_below s Lo Top a : area_ok (VMAs s) -> a <= Lo -> lower_offset (tail_shift s Lo Top a) <$> view s a = view s a.
Proof. intros Hok Ha. apply shift_zero; [done|]. intros k e _ Hk. lia. Qed.

Lemma same_shape_alter f g m m' k :
  (forall e, shape (f e) = g (shape e)) -> same_shape m m' -> same_shape (alter f k m) (alter f k m').
Proof.
  intros Hf Hs x. specialize (Hs x). destruct (decide (k = x)) as [->|]; [|by rewrite !lookup_alter_ne]. rewrite !lookup_alter_eq.
  destruct (m !! x) as [e|], (m' !! x) as [e'|]; try done. cbn in *. rewrite !Hf. congruence.
Qed.

(** The step for an entry that starts inside the range and crosses its end. *)
Lemma protect_cross fuel Lo Top P s k e :
  ok s -> 0 <= Lo < k -> k < Top < k + Length e -> prev_key (VMAs s) Top = Some k -> VMAs s !! k = Some e ->
  exists s1, protect_loop (S fuel) Lo Top P Top s = protect_loop fuel Lo k P k s1 /\ ok s1 /\
    (forall x, x < Top -> is_Some (VMAs s1 !! x) <-> is_Some (VMAs s !! x)) /\
    forall a, view s1 a = if in_range k Top a then set_prot P <$> view s a
                          else if in_range Top (k + Length e) a then Some (Resource e, u64 (Offset e + (a - Top)), Shared e, Prot e) else view s a.
Proof.
  intros [Hok Hlk] HLo Hk Hpk He. destruct (area_entry _ Hok _ _ He) as (HB & Hk0 & Hl & Hlt). cbn [protect_loop].
  rewrite Hpk, He. cbn [mbind option_bind]. rewrite HB, u64_small by lia.
  rewrite (proj2 (Z.leb_gt k Lo)), (proj2 (Z.ltb_ge (k + Length e) Top)), Z.gtb_ltb, (proj2 (Z.ltb_lt Top _)) by lia. cbn [orb].
  assert (HTop : VMAs s !! Top = None).
  { destruct (VMAs s !! Top) as [y|] eqn:Hy; [|done]. pose proof (area_disjoint _ Hok _ _ _ _ He Hy ltac:(lia)). lia. }
  destruct (insert_part_spec s k e e (ResourceNextVMA e) Top (u64 (u64 (Offset e - k) + k)) (u64 (k + Length e - Top)) (Prot e))
    as (s1 & Heq & Hl1 & Hsh & _); [done..|]. rewrite Heq. cbn [mbind option_bind].
  rewrite (u64_small (k - Lo)), (u64_small (Lo + (k - Lo))), (u64_small (Top - k)) by lia. replace (Lo + (k - Lo)) with k by lia.
  rewrite (u64_small (k + Length e - Top)), offset_diff in Hsh by lia. replace (Offset e + (k - k)) with (Offset e) in Hsh by lia.
  eexists. split; [reflexivity|]. set (s2 := set_VMAs _ _).
  assert (Hsh2 : same_shape (<[Top := mkVMA (Resource e) None None Top (u64 (Offset e)) (k + Length e - Top) (Shared e) (Prot e)]>
                              (<[k := with_length (Top - k) (with_prot P e)]> (VMAs s))) (VMAs s2)).
  { eapply same_shape_trans;
      [|apply (same_shape_alter _ (with_length (Top - k))); [done|]; apply (same_shape_alter _ (with_prot P)); [done|exact Hsh]].
    intros x. destruct (decide (Top = x)) as [<-|Hx]; [by rewrite !lookup_alter_ne, !lookup_insert_eq by lia|]. destruct (decide (k = x)) as [<-|Hx'].
    - by rewrite !lookup_alter_eq, !(lookup_insert_ne _ Top), lookup_insert_eq, He by lia.
    - by rewrite !lookup_alter_ne, !lookup_insert_ne by lia. }
  destruct (cut_head_view s s2 k e Top (u64 (Offset e)) P Hok He Hk Hsh2) as [Hok2 Hv2].
  split; [split; [done|by apply links_attr, links_attr]|]. split.
  - intros x Hx. specialize (Hsh2 x). rewrite lookup_insert_ne in Hsh2 by lia.
    destruct (decide (k = x)) as [<-|]; [rewrite lookup_insert_eq in Hsh2; rewrite He; destruct (VMAs s2 !! k); [split; eauto|done]|].
    rewrite lookup_insert_ne in Hsh2 by done. destruct (VMAs s2 !! x), (VMAs s !! x); try done; split; eauto.
  - intros a. rewrite Hv2. unfold u64, wrap. by rewrite Zplus_mod_idemp_l.
Qed.

(** The loop stops at the entry that holds the start of the range, with the
    part above it done. *)
Lemma protect_loop_full fuel Lo Top P s :
  ok s -> 0 <= Lo < Top -> Top < 2 ^ 64 -> covered s Lo Top -> (size (VMAs s) < fuel)%nat ->
  exists k e T s', protect_loop fuel Lo Top P Top s = Some (Some k, T, s') /\ ok s' /\ VMAs s' !! k = Some e /\ k <= Lo < T /\ T <= Top /\ T <= k + Length e /\
    forall a, view s' a = if in_range T Top a then set_prot P <$> view s a
                          else if Top <=? a then lower_offset (tail_shift s Lo Top a) <$> view s a else view s a.
Proof.
  intros Hs HLo HT Hc Hf. pose proof Hs as [Hok Hlk]. destruct (covered_last s Lo Top Hok ltac:(lia) Hc) as (k & e & Hpk & He & Hk).
  pose proof (before_le (VMAs s) Top) as Hb. destruct (area_entry _ Hok _ _ He) as (HB & Hk0 & Hl & Hlt).
  assert (Hsame : forall x y a, VMAs s !! x = Some y -> x <= a < x + Length y -> Top <= a -> k < x < Top -> False).
  { intros x y a Hy Hx Ha Hr. pose proof (area_disjoint _ Hok _ _ _ _ He Hy ltac:(lia)). lia. }
  destruct fuel as [|fuel]; [lia|]. destruct (Z.leb_spec k Lo) as [Hkl|Hkl].
  - exists k, e, Top, s. cbn [protect_loop]. rewrite Hpk, He. cbn [mbind option_bind]. rewrite HB, (proj2 (Z.leb_le k Lo)) by lia. cbn [orb].
    split_and!; try (done || lia). intros a. replace (in_range Top Top a) with false by (unfold in_range; lia).
    destruct (Z.leb_spec Top a) as [Ha|]; [|done]. symmetry. apply shift_zero; [done|]. intros x y Hy Hx Hr. by apply (Hsame x y a); [..|lia].
  - destruct (decide (k + Length e = Top)) as [HkT|HkT].
    + assert (Hno : forall x y, VMAs s !! x = Some y -> x < Top -> x + Length y <= Top).
      { intros x y Hy Hx. destruct (decide (x = k)) as [->|]; [rewrite He in Hy; injection Hy as <-; lia|].
        destruct (decide (x < k)); [pose proof (area_disjoint _ Hok _ _ _ _ Hy He ltac:(lia)); lia|].
        pose proof (area_disjoint _ Hok _ _ _ _ He Hy ltac:(lia)). lia. }
      destruct (protect_loop_spec (S fuel) Lo Top P s Hs HLo HT Hc Hno ltac:(lia)) as (k' & e' & T & s' & Heq & Hs' & He' & Hk' & HT' & Hend & Hv).
      exists k', e', T, s'. split_and!; try (done || lia). intros a. rewrite Hv. destruct (in_range T Top a); [done|].
      destruct (Z.leb_spec Top a) as [Ha|]; [|done]. symmetry. apply shift_zero; [done|]. intros x y Hy Hx Hr. specialize (Hno x y Hy ltac:(lia)). lia.
    + destruct (protect_cross fuel Lo Top P s k e Hs ltac:(lia) ltac:(lia) Hpk He) as (s1 & Heq1 & Hs1 & Hd1 & Hv1).
      destruct (protect_loop_spec fuel Lo k P s1) as (k' & e' & T & s' & Heq & Hs' & He' & Hk' & HT' & Hend & Hv); [done|lia|lia| | | |].
      * intros a Ha. rewrite Hv1. unfold in_range. rewrite !(proj2 (Z.leb_gt _ a)) by lia. cbn. apply Hc. lia.
      * intros x y Hy Hx. assert (is_Some (VMAs s1 !! k)) as [y' Hy'] by (apply Hd1; [lia|eauto]). by eapply (area_disjoint _ (ok_area _ Hs1)).
      * assert (before (VMAs s1) k < before (VMAs s) Top)%nat; [|lia]. apply before_lt; [lia|eauto|]. intros x Hx. apply Hd1. lia.
      * exists k', e', T, s'. rewrite Heq1. split_and!; try (done || lia). intros a. rewrite Hv, !Hv1.
        destruct (Z.leb_spec Top a) as [Ha|Ha].
        -- replace (in_range T k a) with false by (unfold in_range; lia). replace (in_range k Top a) with false by (unfold in_range; lia).
           replace (in_range T Top a) with false by (unfold in_range; lia). destruct (in_range Top (k + Length e) a) eqn:Hin; unfold in_range in Hin.
           ++ symmetry. apply (shift_at s Lo Top k e a); [done|done|lia|lia].
           ++ symmetry. apply shift_zero; [done|]. intros x y Hy Hx Hr. destruct (decide (x = k)) as [->|].
              ** rewrite He in Hy. injection Hy as <-. lia.
              ** destruct (decide (x < k)); [pose proof (area_disjoint _ Hok _ _ _ _ Hy He ltac:(lia)); lia|by apply (Hsame x y a); [..|lia]].
        -- replace (in_range Top (k + Length e) a) with false by (unfold in_range; lia). rewrite (in_range_split a T k Top) by lia.
           destruct (in_range T k a) eqn:H1; [|done]. replace (in_range k Top a) with false by (unfold in_range in *; lia). done.
Qed.

Lemma change_protection_spec s Lo Len P :
  ok s -> 0 <= Lo -> 0 < Len -> Lo + Len < 2 ^ 64 -> covered s Lo (Lo + Len) ->
  exists s', ChangeProtectionFlags Lo Len P s = Some s' /\ ok s' /\
    forall a, view s' a = if in_range Lo (Lo + Len) a then set_prot P <$> view s a else lower_offset (tail_shift s Lo (Lo + Len) a) <$> view s a.
Proof.
  intros Hs HLo HLen HT Hc. destruct (bump_ok s Hs) as [Hb Hbv].
  assert (HV : VMAs (BumpGeneration s) = VMAs s) by (unfold BumpGeneration; by destruct (_ =? 0)).
  unfold ChangeProtectionFlags. rewrite (proj2 (Z.eqb_neq Len 0)), u64_small by lia.
  destruct (protect_loop_full (S (size (VMAs (BumpGeneration s)))) Lo (Lo + Len) P (BumpGeneration s)) as (k & e & T & s1 & Heq & Hs1 & He & Hk & HT1 & HT2 & Hv1);
    [done|lia|lia|by intros a Ha; rewrite Hbv; apply Hc|lia|]. rewrite Heq. cbn [mbind option_bind].
  destruct (protect_last_spec s1 k e Lo T P) as (s' & Heq' & Hs' & Hv'); [done|done|lia|lia|lia|]. exists s'. split; [done|]. split; [done|].
  intros a. rewrite Hv', Hv1, Hbv. assert (tail_shift (BumpGeneration s) Lo (Lo + Len) a = tail_shift s Lo (Lo + Len) a) as ->.
  { unfold tail_shift, FindVMAEntry. by rewrite HV. }
  rewrite (in_range_split a Lo T (Lo + Len)) by lia. destruct (in_range Lo T a) eqn:H1; cbn [orb].
  - replace (in_range T (Lo + Len) a) with false by (unfold in_range in *; lia). replace (Lo + Len <=? a) with false by (unfold in_range in *; lia). done.
  - destruct (in_range T (Lo + Len) a) eqn:H2; [done|]. destruct (Z.leb_spec (Lo + Len) a); [done|]. symmetry. apply shift_below; [apply Hs|]. unfold in_range in *. lia.
Qed.

(** ** Detaching shared memory *)

(** The entries for which [g] does not hold. *)
Definition keep (g : Z -> VMAEntry -> bool) (m : gmap Z VMAEntry) : gmap Z VMAEntry := filter (fun x => g x.1 x.2 = false) m.

Lemma keep_lookup g m x : keep g m !! x = match m !! x with Some y => if g x y then None else Some y | None => None end.
Proof.
  unfold keep. rewrite map_lookup_filter. destruct (m !! x) as [y|]; [|done]. cbn. by destruct (g x y) eqn:Hg; case_guard; simplify_eq.
Qed.

Lemma keep_view s s' g a :
  area_ok (VMAs s) -> same_shape (keep g (VMAs s)) (VMAs s') ->
  area_ok (VMAs s') /\ view s' a = match FindVMAEntry a s with Some (k, e) => if g k e then None else Some (attr_of k e a) | None => None end.
Proof.
  intros Hok Hs. assert (Hsub : forall x y, keep g (VMAs s) !! x = Some y -> VMAs s !! x = Some y /\ g x y = false).
  { intros x y. rewrite keep_lookup. destruct (VMAs s !! x) as [y'|]; [|done]. destruct (g x y') eqn:Hg; intros [= <-]. done. }
  assert (Hok1 : area_ok (keep g (VMAs s))).
  { split; [intros x y [Hy _]%Hsub; by apply (area_entry _ Hok)|]. intros k1 e1 k2 e2 [H1 _]%Hsub [H2 _]%Hsub. by apply (area_disjoint _ Hok _ _ _ _ H1 H2). }
  split; [by eapply area_ok_shape|]. rewrite (view_shape (set_VMAs (keep g) s) s') by done.
  destruct (FindVMAEntry a s) as [[k e]|] eqn:Hf.
  - apply find_spec in Hf as [He Ha]; [|done]. destruct (g k e) eqn:Hg.
    + apply view_none; [done|]. intros x y [Hy Hg']%Hsub Hx. assert (x = k) as ->; [|congruence]. destruct (decide (x < k)).
      * pose proof (area_disjoint _ Hok _ _ _ _ Hy He ltac:(lia)). lia.
      * destruct (decide (x = k)); [done|]. pose proof (area_disjoint _ Hok _ _ _ _ He Hy ltac:(lia)). lia.
    + apply view_spec; [done|]. exists k, e. split; [|done]. cbn. by rewrite keep_lookup, He, Hg.
  - apply view_none; [done|]. intros x y [Hy _]%Hsub Hx. assert (FindVMAEntry a s = Some (x, y)) by (by apply find_spec). congruence.
Qed.

(** The entries the loop erases: those of [r] from [k] on, the first one and
    those inside the attachment. *)
Definition detached (r : nat) (Lo L k x : Z) (y : VMAEntry) : bool :=
  bool_decide (Resource y = Some r) && (k <=? x) && ((x =? k) || (x + Length y - Lo <=? L)).

Definition from (m : gmap Z VMAEntry) (p : Z) : nat := size (filter (fun k => p <= k) (dom m)).

Lemma from_lt m m' k p :
  p <= k -> is_Some (m !! k) -> (forall x, is_Some (m' !! x) -> is_Some (m !! x)) -> (from m' (k + 1) < from m p)%nat.
Proof.
  intros Hk Hin Hsub. apply subset_size. split.
  - intros x. rewrite !elem_of_filter, !elem_of_dom. intros [Hx Hx']. split; [lia|]. by apply Hsub.
  - intros H. specialize (H k). rewrite !elem_of_filter, !elem_of_dom in H. destruct H; [done|lia].
Qed.

Lemma from_le m p : (from m p <= size m)%nat.
Proof. unfold from. rewrite <- size_dom. apply subseteq_size. set_solver. Qed.

(** One entry of the loop. *)
Lemma shm_erase_spec r k e s :
  links s -> VMAs s !! k = Some e ->
  exists s', shm_erase r k e s = Some s' /\ links s' /\ same_shape (keep (fun x y => (x =? k) && bool_decide (Resource y = Some r)) (VMAs s)) (VMAs s').
Proof.
  intros Hl He. unfold shm_erase. destruct (decide (Resource e = Some r)) as [Hr|Hr].
  - rewrite bool_decide_true by done. destruct (links_remove s k e r id Hl He Hr eq_refl) as (b & s1 & Heq & _ & Hl2 & Hsh & _).
    rewrite Heq. cbn [mbind option_bind]. eexists. split; [reflexivity|]. split; [done|]. eapply same_shape_trans; [|exact Hsh].
    intros x. rewrite keep_lookup. destruct (decide (k = x)) as [<-|]; [rewrite lookup_delete_eq, He, Z.eqb_refl, bool_decide_true by done; done|].
    rewrite lookup_delete_ne by done. rewrite (proj2 (Z.eqb_neq x k)) by done. by destruct (VMAs s !! x).
  - rewrite bool_decide_false by done. exists s. split; [done|]. split; [done|]. intros x. rewrite keep_lookup.
    destruct (VMAs s !! x) as [y|] eqn:Hy; [|done]. destruct (Z.eqb_spec x k) as [->|]; [|done]. rewrite He in Hy. injection Hy as <-. by rewrite bool_decide_false.
Qed.

Lemma shm_loop_spec fuel Lo L r k e s :
  ok s -> 0 <= Lo <= k -> VMAs s !! k = Some e -> (from (VMAs s) k < fuel)%nat ->
  exists s', shm_loop fuel Lo L r k s = Some s' /\ links s' /\ same_shape (keep (detached r Lo L k) (VMAs s)) (VMAs s').
Proof.
  revert k e s. induction fuel as [|fuel IH]; intros k e s [Hok Hlk] HLo He Hf; [lia|]. cbn [shm_loop]. rewrite He. cbn [mbind option_bind].
  destruct (shm_erase_spec r k e s Hlk He) as (s1 & Heq1 & Hl1 & Hsh1). rewrite Heq1. cbn [mbind option_bind].
  destruct (keep_view s s1 _ 0 Hok Hsh1) as [Hok1 _].
  assert (Hup : forall x y, VMAs s1 !! x = Some y -> exists y0, VMAs s !! x = Some y0 /\ shape y = shape y0).
  { intros x y Hy. specialize (Hsh1 x). rewrite Hy, keep_lookup in Hsh1. destruct (VMAs s !! x) as [y0|]; [|done]. exists y0. destruct (_ && _); cbn in Hsh1; [done|]. split; congruence. }
  assert (Hdown : forall x y, VMAs s !! x = Some y -> k < x -> exists y1, VMAs s1 !! x = Some y1 /\ shape y1 = shape y).
  { intros x y Hy Hx. specialize (Hsh1 x). rewrite keep_lookup, Hy, (proj2 (Z.eqb_neq x k)) in Hsh1 by lia. cbn in Hsh1. destruct (VMAs s1 !! x) as [y1|]; [|done]. exists y1. cbn in Hsh1. split; congruence. }
  assert (Hstop : (forall x y, VMAs s !! x = Some y -> k < x -> L < x + Length y - Lo) ->
    exists s', Some s1 = Some s' /\ links s' /\ same_shape (keep (detached r Lo L k) (VMAs s)) (VMAs s')).
  { intros Hno. exists s1. split; [done|]. split; [done|]. eapply same_shape_trans; [|exact Hsh1]. intros x. rewrite !keep_lookup.
    destruct (VMAs s !! x) as [y|] eqn:Hy; [|done]. unfold detached. destruct (Z.eqb_spec x k) as [->|Hx].
    - rewrite Z.leb_refl, andb_true_r. by destruct (bool_decide _).
    - replace (bool_decide (Resource y = Some r) && (k <=? x) && (false || (x + Length y - Lo <=? L))) with false; [done|].
      destruct (Z.leb_spec k x); [|by rewrite andb_false_r]. specialize (Hno x y Hy ltac:(lia)). cbn. by rewrite (proj2 (Z.leb_gt _ L)), andb_false_r by lia. }
  pose proof (lower_bound_spec (VMAs s1) (k + 1)) as Hlb. destruct (lower_bound (VMAs s1) (k + 1)) as [n|].
  - destruct Hlb as (Hn & [N HN] & Hmin). rewrite HN. cbn [mbind option_bind]. destruct (area_entry _ Hok1 _ _ HN) as (HB & Hn0 & HlN & HtN).
    rewrite HB, (u64_small (n + Length N)), (u64_small (n + Length N - Lo)) by lia. destruct (Z.leb_spec (n + Length N - Lo) L) as [Hfit|Hfit].
    + destruct (IH n N s1 (Build_ok _ Hok1 Hl1) ltac:(lia) HN) as (s' & Heq & Hl' & Hsh').
      { assert (from (VMAs s1) (k + 1) < from (VMAs s) k)%nat.
        { apply from_lt; [lia|eauto|]. intros x [y Hy]. destruct (Hup x y Hy) as (y0 & H0 & _). eauto. }
        assert (from (VMAs s1) n <= from (VMAs s1) (k + 1))%nat; [|lia]. apply subseteq_size. intros x. rewrite !elem_of_filter. intros [? ?]. split; [lia|done]. }
      exists s'. split; [done|]. split; [done|]. eapply same_shape_trans; [|exact Hsh']. intros x. rewrite !keep_lookup. specialize (Hsh1 x). rewrite keep_lookup in Hsh1.
      destruct (VMAs s !! x) as [y|] eqn:Hy; [|by destruct (VMAs s1 !! x)]. unfold detached at 2. destruct (Z.eqb_spec x k) as [->|Hx].
      * rewrite Z.leb_refl, andb_true_r. cbn in Hsh1. destruct (bool_decide (Resource y = Some r)); cbn in *; [by destruct (VMAs s1 !! k)|].
        destruct (VMAs s1 !! k) as [y1|]; [|done]. unfold detached. rewrite (proj2 (Z.leb_gt n k)), andb_false_r by lia. exact Hsh1.
      * cbn in Hsh1. destruct (VMAs s1 !! x) as [y1|] eqn:Hy1; [|done]. cbn in Hsh1. assert (Hf1 : shape y1 = shape y) by congruence.
        pose proof (shape_fields _ _ Hf1) as (HR & _ & _ & HL & _). unfold detached. rewrite HR, HL.
        assert (Hge : k <= x -> n <= x) by (intros; apply Hmin; [eauto|lia]).
        destruct (Z.leb_spec k x), (Z.leb_spec n x); try lia; rewrite ?andb_false_r; cbn; [|by rewrite Hf1].
        assert ((x =? n) || (x + Length y - Lo <=? L) = (x + Length y - Lo <=? L)) as ->.
        { destruct (Z.eqb_spec x n) as [->|]; [|done]. rewrite HN in Hy1. injection Hy1 as <-. symmetry. apply Z.leb_le. lia. }
        destruct (_ && _); [done|]. cbn. by rewrite Hf1.
    + apply Hstop. intros x y Hy Hx. destruct (Hdown x y Hy Hx) as (y1 & Hy1 & Hs1). apply shape_fields in Hs1 as (_ & _ & _ & <- & _).
      specialize (Hmin x ltac:(eauto) ltac:(lia)). destruct (decide (n = x)) as [<-|]; [rewrite HN in Hy1; injection Hy1 as <-; lia|].
      pose proof (area_disjoint _ Hok1 _ _ _ _ HN Hy1 ltac:(lia)). destruct (area_entry _ Hok1 _ _ Hy1) as (_ & _ & Hpos & _). lia.
  - apply Hstop. intros x y Hy Hx. destruct (Hdown x y Hy Hx) as (y1 & Hy1 & _). specialize (Hlb x ltac:(eauto)). lia.
Qed.

(** The attachment [shmdt] looks for. *)
Definition attachment (Lo : Z) (s : VMATracking) (x : Z) (y : VMAEntry) : bool := (u64 (x - Lo) =? Offset y) && is_shm y s.

Lemma find_shm_spec fuel Lo p s :
  area_ok (VMAs s) -> 0 <= Lo <= p -> (from (VMAs s) p < fuel)%nat ->
  match find_shm fuel Lo p s with
  | Some (Some k) => exists e, VMAs s !! k = Some e /\ p <= k /\ attachment Lo s k e = true /\
      forall x y, VMAs s !! x = Some y -> p <= x < k -> attachment Lo s x y = false
  | Some None => forall x y, VMAs s !! x = Some y -> p <= x -> attachment Lo s x y = false
  | None => False
  end.
Proof.
  intros Hok. revert p. induction fuel as [|fuel IH]; intros p HLo Hf; [lia|]. cbn [find_shm]. pose proof (lower_bound_spec (VMAs s) p) as Hlb.
  destruct (lower_bound (VMAs s) p) as [k|]; [|intros x y Hy Hx; specialize (Hlb x ltac:(eauto)); lia].
  destruct Hlb as (Hk & [e He] & Hmin). rewrite He. cbn [mbind option_bind]. destruct (area_entry _ Hok _ _ He) as (HB & _).
  rewrite throw_ok by lia. cbn [mbind option_bind]. rewrite HB. fold (attachment Lo s k e). destruct (attachment Lo s k e) eqn:Ha.
  { exists e. split_and!; try done. intros x y Hy Hx. specialize (Hmin x ltac:(eauto) ltac:(lia)). lia. }
  assert (Hskip : forall x y, VMAs s !! x = Some y -> p <= x -> x < k + 1 -> attachment Lo s x y = false).
  { intros x y Hy Hp Hx. specialize (Hmin x ltac:(eauto) Hp). assert (x = k) as -> by lia. rewrite He in Hy. by injection Hy as <-. }
  specialize (IH (k + 1) ltac:(lia)). destruct (find_shm fuel Lo (k + 1) s) as [[k'|]|]; [| |apply IH].
  - destruct IH as (e' & He' & Hk' & Ha' & Hno); [pose proof (from_lt (VMAs s) (VMAs s) k p Hk ltac:(eauto) ltac:(eauto)); lia|].
    exists e'. split_and!; try (done || lia). intros x y Hy Hx. destruct (decide (x < k + 1)); [by apply (Hskip x y); [..|lia|lia]|by apply (Hno x y); [..|lia]].
  - intros x y Hy Hx. destruct (decide (x < k + 1)); [by apply (Hskip x y)|]. apply IH; [|done|lia]. pose proof (from_lt (VMAs s) (VMAs s) k p Hk ltac:(eauto) ltac:(eauto)). lia.
  - pose proof (from_lt (VMAs s) (VMAs s) k p Hk ltac:(eauto) ltac:(eauto)). lia.
Qed.

Lemma links_resource s k e r : links s -> VMAs s !! k = Some e -> Resource e = Some r -> is_Some (MappedResources s !! r).
Proof. intros Hl He Hr. destruct (good_chain s k e r Hl He Hr) as (l1 & l2 & [(R & HR & _) _ _] & _). eauto. Qed.

(** ** Histories *)

(** Who backs an address, whether it is shared, and its protection. *)
Definition backing (x : attr) : option nat * bool * VMAProt := let '(r, _, sh, p) := x in (r, sh, p).

Definition initial : VMATracking := mkTracking ∅ ∅ 1 (replicate MarkNoOpEntries 0).

(** [reach s f]: a history of mappings, unmappings and protection changes of
    mapped ranges leads to [s]; [f] is what it did to each address. *)
Inductive reach : VMATracking -> (Z -> option (option nat * bool * VMAProt)) -> Prop :=
| reach_start : reach initial (fun _ => None)
| reach_resource s f R : reach s f -> FirstVMA R = None -> reach (InsertMappedResource R s).2 f
| reach_mmap s f s' R Lo Off Len Sh P :
    reach s f -> (forall r, R = Some r -> is_Some (MappedResources s !! r)) -> 0 <= Lo -> 0 < Len -> Lo + Len < 2 ^ 64 ->
    TrackVMARange R Lo Off Len Sh P s = Some s' -> reach s' (fun a => if in_range Lo (Lo + Len) a then Some (R, Sh, P) else f a)
| reach_munmap s f s' Lo Len :
    reach s f -> 0 <= Lo -> 0 < Len -> Lo + Len < 2 ^ 64 ->
    DeleteVMARange Lo Len None s = Some s' -> reach s' (fun a => if in_range Lo (Lo + Len) a then None else f a)
| reach_mprotect s f s' Lo Len P :
    reach s f -> 0 <= Lo -> 0 < Len -> Lo + Len < 2 ^ 64 -> covered s Lo (Lo + Len) ->
    ChangeProtectionFlags Lo Len P s = Some s' ->
    reach s' (fun a => if in_range Lo (Lo + Len) a then (fun '(r, sh, _) => (r, sh, P)) <$> f a else f a).

Lemma ok_initial : ok initial.
Proof.
  assert (Hn : forall k e, ~ VMAs initial !! k = Some e) by (intros k e; cbn; by rewrite lookup_empty).
  split; [split; [by intros k e H%Hn|by intros k1 e1 k2 e2 H%Hn]|]. intros r. left. split; [done|]. by intros k e H%Hn.
Qed.

Lemma ok_resource s R : ok s -> FirstVMA R = None -> ok (InsertMappedResource R s).2.
Proof.
  intros [Hok Hl] HR. split; [done|]. unfold InsertMappedResource. cbn. pose proof (is_fresh (dom (MappedResources s))) as Hfr.
  set (r := fresh _) in *. assert (Hn : MappedResources s !! r = None) by (by apply not_elem_of_dom).
  apply (links_step (Some r) s); [done| |].
  - intros r' Hr'. split; [|done]. cbn. rewrite lookup_insert_ne; [done|congruence].
  - intros r' [= <-]. right. exists []. destruct (Hl r) as [[_ Hno]|(l & [(R' & HR' & _) _ _] & _)]; [|congruence]. split.
    + split; [|done|constructor]. exists R. cbn. by rewrite lookup_insert_eq.
    + intros k. split; [by intros ?%not_elem_of_nil|]. intros (e & He & Hr). by destruct (Hno k e).
Qed.

Lemma backing_lower d x : backing (lower_offset d x) = backing x.
Proof. by destruct x as [[[r o] sh] p]. Qed.

Lemma reach_view s f : reach s f -> ok s /\ forall a, backing <$> view s a = f a.
Proof.
  induction 1 as [|s f R _ [IH IHv] HR|s f s' R Lo Off Len Sh P _ [IH IHv] HR H0 H1 H2 Heq|s f s' Lo Len _ [IH IHv] H0 H1 H2 Heq|s f s' Lo Len P _ [IH IHv] H0 H1 H2 Hc Heq].
  - split; [apply ok_initial|done].
  - split; [by apply ok_resource|done].
  - destruct (track_range_spec s R Lo Off Len Sh P IH HR H0 H1 H2) as (s1 & Heq1 & Hs1 & Hv). rewrite Heq in Heq1. injection Heq1 as <-.
    split; [done|]. intros a. rewrite Hv. by destruct (in_range _ _ a).
  - destruct (delete_range_spec s Lo Len None IH H0 ltac:(lia) H2) as (s1 & Heq1 & Hs1 & Hv & _). rewrite Heq in Heq1. injection Heq1 as <-.
    split; [done|]. intros a. rewrite Hv. by destruct (in_range _ _ a).
  - destruct (change_protection_spec s Lo Len P IH H0 H1 H2 Hc) as (s1 & Heq1 & Hs1 & Hv). rewrite Heq in Heq1. injection Heq1 as <-.
    split; [done|]. intros a. rewrite Hv, <- IHv. destruct (in_range _ _ a); destruct (view s a) as [x|]; cbn; try done.
    + by destruct x as [[[r o] sh] p].
    + by rewrite backing_lower.
Qed.

(** ** What the tracker promises *)

(** C25. Along any history of mappings, unmappings and protection changes of
    mapped ranges the tracker never fails (no assertion, no dangling link), its
    areas stay disjoint and its resource lists linked, and the lookup of every
    address finds exactly the resource, sharing and protection the history gave
    it. *)
Theorem tracking_refines s f :
  reach s f ->
  ok s /\ (forall a, backing <$> view s a = f a) /\
  (forall R Lo Off Len Sh P, (forall r, R = Some r -> is_Some (MappedResources s !! r)) -> 0 <= Lo -> 0 < Len -> Lo + Len < 2 ^ 64 ->
     is_Some (TrackVMARange R Lo Off Len Sh P s)) /\
  (forall Lo Len P, 0 <= Lo -> 0 <= Len -> Lo + Len < 2 ^ 64 -> is_Some (DeleteVMARange Lo Len P s)) /\
  (forall Lo Len P, 0 <= Lo -> 0 < Len -> Lo + Len < 2 ^ 64 -> (forall a, Lo <= a < Lo + Len -> is_Some (f a)) -> is_Some (ChangeProtectionFlags Lo Len P s)).
Proof.
  intros [Hs Hv]%reach_view. split_and!; try done.
  - intros R Lo Off Len Sh P HR H0 H1 H2. destruct (track_range_spec s R Lo Off Len Sh P Hs HR H0 H1 H2) as (s' & -> & _). eauto.
  - intros Lo Len P H0 H1 H2. destruct (delete_range_spec s Lo Len P Hs H0 H1 H2) as (s' & -> & _). eauto.
  - intros Lo Len P H0 H1 H2 Hf. destruct (change_protection_spec s Lo Len P Hs H0 H1 H2) as (s' & -> & _); [|eauto].
    intros a Ha. specialize (Hf a Ha). rewrite <- Hv in Hf. by apply fmap_is_Some in Hf.
Qed.

(** C26. munmap clears the attributes of the range and mmap gives every address
    of it the resource, the offset counted from the start of the mapping, the
    sharing and the protection; no other address changes. *)
Theorem map_unmap_exact s R Lo Off Len Sh P :
  ok s -> (forall r, R = Some r -> is_Some (MappedResources s !! r)) -> 0 <= Lo -> 0 < Len -> Lo + Len < 2 ^ 64 ->
  (exists s', DeleteVMARange Lo Len None s = Some s' /\ ok s' /\ forall a, view s' a = if in_range Lo (Lo + Len) a then None else view s a) /\
  (exists s', TrackVMARange R Lo Off Len Sh P s = Some s' /\ ok s' /\
     forall a, view s' a = if in_range Lo (Lo + Len) a then Some (R, u64 (Off + (a - Lo)), Sh, P) else view s a).
Proof.
  intros Hs HR H0 H1 H2. split; [|by apply track_range_spec].
  destruct (delete_range_spec s Lo Len None Hs H0 ltac:(lia) H2) as (s' & Heq & Hs' & Hv & _). eauto.
Qed.

(** C27. mprotect of a mapped range changes the protection of exactly the
    addresses of the range.  Resources and sharing stay everywhere, and offsets
    too, except after the end of the range in an area that starts inside it:
    there the recorded offset falls back by the distance from the start of the
    area to the end of the range. *)
Theorem mprotect_exact s Lo Len P :
  ok s -> 0 <= Lo -> 0 < Len -> Lo + Len < 2 ^ 64 -> (forall a, Lo <= a < Lo + Len -> is_Some (view s a)) ->
  exists s', ChangeProtectionFlags Lo Len P s = Some s' /\ ok s' /\
    (forall a, view s' a = if in_range Lo (Lo + Len) a then set_prot P <$> view s a else lower_offset (tail_shift s Lo (Lo + Len) a) <$> view s a) /\
    ((forall k e, VMAs s !! k = Some e -> Lo < k < Lo + Len -> k + Length e <= Lo + Len) ->
     forall a, view s' a = if in_range Lo (Lo + Len) a then set_prot P <$> view s a else view s a).
Proof.
  intros Hs H0 H1 H2 Hc. destruct (change_protection_spec s Lo Len P Hs H0 H1 H2 Hc) as (s' & Heq & Hs' & Hv).
  exists s'. split_and!; try done. intros Hno a. rewrite Hv. destruct (in_range Lo (Lo + Len) a) eqn:Hin; [done|].
  apply shift_zero; [apply Hs|]. intros k e He Ha Hk. specialize (Hno k e He Hk). unfold in_range in Hin. lia.
Qed.

(** C29. shmdt looks for the first area at or after the address that belongs to
    a shared memory segment attached there.  Without one it returns 0 and no
    area changes.  Otherwise it returns the length of the segment and unmaps
    exactly the areas of that segment from the one found to the end of the
    attachment. *)
Theorem shmdt_exact s Lo :
  ok s -> 0 <= Lo ->
  (exists s', DeleteSHMRegion Lo s = Some (0, s') /\ VMAs s' = VMAs s /\ forall x y, VMAs s !! x = Some y -> Lo <= x -> attachment Lo s x y = false) \/
  (exists k e r R s', VMAs s !! k = Some e /\ Lo <= k /\ attachment Lo s k e = true /\ Resource e = Some r /\ MappedResources s !! r = Some R /\
     (forall x y, VMAs s !! x = Some y -> Lo <= x < k -> attachment Lo s x y = false) /\
     DeleteSHMRegion Lo s = Some (RLength R, s') /\ ok s' /\
     forall a, view s' a = match FindVMAEntry a s with
                           | Some (x, y) => if detached r Lo (RLength R) k x y then None else Some (attr_of x y a)
                           | None => None
                           end).
Proof.
  intros Hs HLo. destruct (bump_ok s Hs) as [Hb Hbv]. assert (HV : VMAs (BumpGeneration s) = VMAs s) by (unfold BumpGeneration; by destruct (_ =? 0)).
  assert (HM : MappedResources (BumpGeneration s) = MappedResources s) by (unfold BumpGeneration; by destruct (_ =? 0)).
  assert (Hatt : forall x y, attachment Lo (BumpGeneration s) x y = attachment Lo s x y) by (intros x y; unfold attachment, is_shm; by rewrite HM).
  unfold DeleteSHMRegion. pose proof (find_shm_spec (S (size (VMAs (BumpGeneration s)))) Lo Lo (BumpGeneration s) (ok_area _ Hb) ltac:(lia)) as Hf.
  specialize (Hf ltac:(pose proof (from_le (VMAs (BumpGeneration s)) Lo); lia)).
  destruct (find_shm _ Lo Lo _) as [[k|]|]; [| |done]; cbn [mbind option_bind]; rewrite HV in Hf.
  - destruct Hf as (e & He & Hk & Ha & Hno). right. rewrite HV, He. cbn [mbind option_bind]. rewrite Hatt in Ha.
    assert (exists r, Resource e = Some r) as [r Hr] by (unfold attachment, is_shm in Ha; destruct (Resource e); [eauto|by rewrite andb_false_r in Ha]).
    destruct (links_resource s k e r (ok_links _ Hs) He Hr) as [R HR]. rewrite Hr. cbn [mbind option_bind]. rewrite HM, HR. cbn [mbind option_bind].
    destruct (shm_loop_spec (S (size (VMAs s))) Lo (RLength R) r k e (BumpGeneration s)) as (s' & Heq & Hl' & Hsh);
      [done|lia|by rewrite HV|rewrite HV; pose proof (from_le (VMAs s) k); lia|]. rewrite HV in Hsh.
    rewrite Heq. cbn [mbind option_bind]. exists k, e, r, R, s'. split_and!; try done.
    + intros x y Hy Hx. rewrite <- Hatt. by eapply Hno.
    + split; [apply (keep_view s s' _ 0 (ok_area _ Hs) Hsh)|done].
    + intros a. apply (keep_view s s' _ a (ok_area _ Hs) Hsh).
  - left. eexists. split; [done|]. split; [done|]. intros x y Hy Hx. rewrite <- Hatt. by eapply Hf.
Qed.

(** Whether an address with these attributes can be executed. *)
Definition executes (RIE : bool) (p : VMAProt) : bool := Executable p || (RIE && Readable p).

Lemma query_range s RIE Address Base' Size W :
  ok s -> QueryGuestExecutableRange RIE Address s = (Base', Size, W) ->
  (Size = 0 /\ Base' = 0 /\ forall r o sh p, view s Address = Some (r, o, sh, p) -> executes RIE p = false) \/
  (0 <= Base' <= Address /\ Address < Base' + Size < 2 ^ 64 /\
   forall a, Base' <= a < Base' + Size -> exists r o sh p, view s a = Some (r, o, sh, p) /\ executes RIE p = true /\ Writable p = W).
Proof.
  intros [Hok _]. unfold QueryGuestExecutableRange, view at 1. destruct (FindVMAEntry Address s) as [[k e]|] eqn:Hf; [|intros [= <- <- <-]; by left].
  pose proof Hf as Hf'. apply find_spec in Hf' as [He Ha]; [|done]. destruct (area_entry _ Hok _ _ He) as (_ & H0 & Hl & Ht).
  assert (Hx : executes RIE (Prot e) = negb (negb (Executable (Prot e)) && (negb RIE || negb (Readable (Prot e))))).
  { unfold executes. by destruct (Executable (Prot e)), RIE, (Readable (Prot e)). }
  destruct (negb (Executable (Prot e)) && _); cbn [negb] in Hx; intros [= <- <- <-]; [left|right].
  - split; [done|]. split; [done|]. by intros r o sh p [= <- <- <- <-].
  - split; [lia|]. split; [lia|]. intros a Ha'. exists (Resource e), (u64 (Offset e + (a - k))), (Shared e), (Prot e). split; [|done].
    apply view_spec; [done|]. by exists k, e.
Qed.

(** C28. QueryGuestExecutableRange answers an empty range exactly when the
    address is not mapped executable (or readable under READ_IMPLIES_EXEC);
    otherwise the range it answers holds the address, and every address of the
    range is executable and has the reported writability. *)
Theorem query_executable_exact s RIE Address Base' Size W :
  ok s -> QueryGuestExecutableRange RIE Address s = (Base', Size, W) ->
  (Size = 0 <-> forall r o sh p, view s Address = Some (r, o, sh, p) -> executes RIE p = false) /\
  (Size <> 0 -> Base' <= Address < Base' + Size /\ Base' + Size < 2 ^ 64 /\
   forall a, Base' <= a < Base' + Size -> exists r o sh p, view s a = Some (r, o, sh, p) /\ executes RIE p = true /\ Writable p = W).
Proof.
  intros Hs Hq. destruct (query_range s RIE Address Base' Size W Hs Hq) as [(-> & _ & Hno)|(HB & HT & Hall)]; [done|].
  split; [|intros _; split; [lia|split; [lia|done]]]. split; [lia|]. intros Hno. destruct (Hall Address ltac:(lia)) as (r & o & sh & p & Hv & Hx & _).
  rewrite (Hno _ _ _ _ Hv) in Hx. done.
Qed.

(** ** A small address space *)

(** A shared memory segment of three pages attached at 0x1000 by two mappings. *)
Definition rx : VMAProt := fromProt 5.
Definition rwx : VMAProt := fromProt 7.
Definition segment : MappedResource := mkResource (mkMRID SpecialDev_SHM 7) None 0x3000.
Definition demo : VMATracking :=
  default initial (s ← TrackVMARange (Some 0%nat) 0x1000 0 0x1000 false rx (InsertMappedResource segment initial).2;
                   TrackVMARange (Some 0%nat) 0x2000 0x1000 0x2000 false rx s).
Definition demo_map (a : Z) : option (option nat * bool * VMAProt) :=
  if in_range 0x2000 (0x2000 + 0x2000) a then Some (Some 0%nat, false, rx)
  else if in_range 0x1000 (0x1000 + 0x1000) a then Some (Some 0%nat, false, rx) else None.

Lemma demo_reach : reach demo demo_map.
Proof.
  assert (HR : forall s, bool_decide (is_Some (MappedResources s !! 0%nat)) = true -> forall r, Some 0%nat = Some r -> is_Some (MappedResources s !! r))
    by (intros s Hb r [= <-]; exact (bool_decide_eq_true_1 _ Hb)).
  eapply (reach_mmap (default initial (TrackVMARange (Some 0%nat) 0x1000 0 0x1000 false rx (InsertMappedResource segment initial).2)) _ _ (Some 0%nat) 0x2000 0x1000 0x2000);
    [|apply HR; reflexivity|lia..|reflexivity].
  eapply reach_mmap; [apply (reach_resource initial _ segment reach_start eq_refl)|apply HR; reflexivity|lia..|reflexivity].
Qed.

Lemma demo_ok : ok demo.
Proof. exact (proj1 (reach_view _ _ demo_reach)). Qed.

Lemma demo_resource r : Some 0%nat = Some r -> is_Some (MappedResources demo !! r).
Proof. intros [= <-]. eexists. reflexivity. Qed.

Lemma demo_covered a : 0x1000 <= a < 0x1000 + 0x2000 -> is_Some (view demo a).
Proof.
  intros Ha. apply (fmap_is_Some backing). rewrite (proj2 (reach_view _ _ demo_reach)). unfold demo_map.
  destruct (in_range 0x2000 _ a) eqn:H; [eauto|]. replace (in_range 0x1000 (0x1000 + 0x1000) a) with true; [eauto|]. unfold in_range in *. lia.
Qed.

Lemma tracking_refines_witness : backing <$> view demo 0x2abc = Some (Some 0%nat, false, rx).
Proof. exact (proj1 (proj2 (tracking_refines demo demo_map demo_reach)) 0x2abc). Defined.

Lemma map_unmap_exact_witness :
  exists s', TrackVMARange (Some 0%nat) 0x1800 0x100 0x1000 true rwx demo = Some s' /\ view s' 0x2700 = Some (Some 0%nat, 0x1000, true, rwx) /\ view s' 0x2800 = view demo 0x2800.
Proof.
  destruct (map_unmap_exact demo (Some 0%nat) 0x1800 0x100 0x1000 true rwx demo_ok demo_resource) as (_ & s' & Heq & _ & Hv); [lia..|].
  exists s'. split; [exact Heq|]. split; [exact (Hv 0x2700)|exact (Hv 0x2800)].
Defined.

Lemma mprotect_exact_witness : exists s', ChangeProtectionFlags 0x1000 0x2000 rwx demo = Some s' /\ view s' 0x2abc = Some (Some 0%nat, 0x1abc, false, rwx).
Proof.
  destruct (mprotect_exact demo 0x1000 0x2000 rwx demo_ok) as (s' & Heq & _ & Hv & _); [lia..|exact demo_covered|].
  exists s'. split; [exact Heq|]. rewrite Hv. reflexivity.
Defined.

Lemma shmdt_exact_witness : exists n s', DeleteSHMRegion 0x1000 demo = Some (n, s') /\ n = 0x3000.
Proof.
  destruct (shmdt_exact demo 0x1000 demo_ok ltac:(lia)) as [(s' & Heq & _)|(k & e & r & R & s' & He & Hk & Ha & Hr & HR & _ & Heq & _)].
  - vm_compute in Heq. discriminate Heq.
  - exists (RLength R), s'. split; [exact Heq|]. vm_compute in Heq. by injection Heq.
Defined.

Lemma query_executable_exact_witness : 0x2000 <= 0x2abc < 0x2000 + 0x2000.
Proof. exact (proj1 (proj2 (query_executable_exact demo false 0x2abc 0x2000 0x2000 false demo_ok eq_refl) ltac:(lia))). Defined.

(** ** Where the protection change leaves its contract *)

(** Two departures of the protection change from its contract.  mprotect of
    the first two pages of a segment mapped in two pieces records the page it
    leaves alone with the offset of the page at 0x2000.  mprotect of the middle
    page of one mapping leaves the list of the resource out of address order:
    when the first page is then unmapped the list starts at 0x3000 although
    0x2000 belongs to it. *)
Example mprotect_departs :
  (option_map (fun s => view s 0x3000) (ChangeProtectionFlags 0x1000 0x2000 rwx demo) = Some (Some (Some 0%nat, 0x1000, false, rx)) /\
   view demo 0x3000 = Some (Some 0%nat, 0x2000, false, rx)) /\
  (s ← TrackVMARange (Some 0%nat) 0x1000 0 0x3000 false rx (InsertMappedResource segment initial).2;
   s ← ChangeProtectionFlags 0x2000 0x1000 rwx s;
   s ← DeleteVMARange 0x1000 0x1000 None s;
   R ← MappedResources s !! 0%nat; e ← VMAs s !! 0x3000; Some (FirstVMA R, ResourceNextVMA e)) = Some (Some 0x3000, Some 0x2000).
Proof. split; [split; reflexivity|reflexivity]. Qed.
