(* ===== verification/VMAMemo.v ===== *)
(** The memo of MarkGuestExecutableRange (SyscallsVMATracking.h): a hit for a
    sampled generation is for a page recorded with the same sample, whenever
    samples and records come in any order between two wraps of the stamp; and
    what happens to a record whose stamp was sampled before a wrap. *)
From S2P Require Import Prelude VMA.
From stdpp Require Import gmap.
Open Scope Z_scope.
Import VMA.

Definition page (p : Z) : Z := Z.shiftr p FEX_GUEST_PAGE_SHIFT.

Lemma low_gen g : Z.land g MarkNoOpGenMask = wrap 32 g.
Proof. unfold MarkNoOpGenMask, MarkNoOpGenBits. rewrite pow2_pred_ones. by apply land_wrap. Qed.

(** The table word: the tag in the upper half, the stamp in the lower. *)
Lemma encode_spec p g w :
  0 <= p -> EncodeMarkNoOp p g = Some w -> w <> 0 /\ Z.shiftr w 32 = Z.shiftr (page p) MarkNoOpIndexBits /\ wrap 32 w = wrap 32 g.
Proof.
  intros Hp. unfold EncodeMarkNoOp. fold (page p). set (T := Z.shiftr (page p) _). rewrite low_gen. change (64 - MarkNoOpGenBits) with 32.
  destruct (Z.eqb_spec (Z.shiftr T 32) 0) as [HT|]; cbn [negb]; [|done]. assert (HT0 : 0 <= T) by (unfold T, page; rewrite !Z.shiftr_nonneg; lia).
  assert (HTw : in_width 32 T).
  { split; [done|]. rewrite Z.shiftr_div_pow2 in HT by lia. apply Z.div_small_iff in HT; lia. }
  assert (Hu : u64 (Z.shiftl T MarkNoOpGenBits) = Z.shiftl T 32).
  { apply wrap_small. unfold MarkNoOpGenBits. rewrite Z.shiftl_mul_pow2 by lia. destruct HTw. unfold in_width. lia. }
  pose proof (wrap_range 32 g ltac:(lia)) as Hg. rewrite Hu, Z.lor_comm, (lor_field_add 32 _ _ ltac:(lia) Hg).
  destruct (Z.eqb_spec (wrap 32 g + T * 2 ^ 32) 0); [done|]. intros [= <-]. split; [done|].
  split; [by apply shiftr_field|by apply wrap_field].
Qed.

Lemma index_page p q : 0 <= p -> 0 <= q -> MarkNoOpIndex p = MarkNoOpIndex q -> wrap 9 (page p) = wrap 9 (page q).
Proof.
  intros Hp Hq. unfold MarkNoOpIndex. fold (page p) (page q). change (Z.of_nat MarkNoOpEntries - 1) with (Z.ones 9). rewrite !land_wrap by lia. intros H.
  pose proof (wrap_range 9 (page p) ltac:(lia)) as [H1 _]. pose proof (wrap_range 9 (page q) ltac:(lia)) as [H2 _]. by apply Z2Nat.inj in H.
Qed.

(** A slot and its word determine the page. *)
Lemma encode_page p q g h w :
  0 <= p -> 0 <= q -> MarkNoOpIndex p = MarkNoOpIndex q -> EncodeMarkNoOp p g = Some w -> EncodeMarkNoOp q h = Some w -> page p = page q.
Proof.
  intros Hp Hq Hi (_ & H1 & _)%encode_spec (_ & H2 & _)%encode_spec; try done. apply index_page in Hi; try done.
  unfold MarkNoOpIndexBits in *. rewrite H1 in H2. rewrite !Z.shiftr_div_pow2 in H2 by lia. unfold wrap in Hi.
  rewrite (Z.div_mod (page p) (2 ^ 9)), (Z.div_mod (page q) (2 ^ 9)) by lia. congruence.
Qed.

(** Histories of the memo since the last time the table was emptied: [b] is the
    generation from which on it is counted, [l] has the pages recorded, each
    with the generation sampled for it. MarkGuestExecutableRange samples before
    it takes the lock, so a record may be of any generation since [b]. *)
Definition wraps (s : VMATracking) : bool := wrap 32 (u64 (Generation s + 1)) =? 0.

Inductive memo_run : VMATracking -> list (Z * Z) -> Z -> Prop :=
| run_start s : Generation s = 1 -> MarkNoOpCache s = replicate MarkNoOpEntries 0 -> memo_run s [] 1
| run_bump s l b : memo_run s l b -> wraps s = false -> memo_run (BumpGeneration s) l b
| run_wrap s l b : memo_run s l b -> wraps s = true -> memo_run (BumpGeneration s) [] (Generation (BumpGeneration s))
| run_record s l b p g : memo_run s l b -> 0 <= p < 2 ^ 64 -> b <= g <= Generation s -> memo_run (RecordMarkNoOp p g s) ((p, g) :: l) b.

(** The live generation and [b] have the same upper half, and every word of the
    table is that of a record. *)
Record memo_ok (s : VMATracking) (l : list (Z * Z)) (b : Z) : Prop := {
  memo_gen : 0 <= b <= Generation s /\ Generation s < 2 ^ 64 /\ Generation s / 2 ^ 32 = b / 2 ^ 32;
  memo_pages p g : (p, g) ∈ l -> 0 <= p < 2 ^ 64 /\ b <= g <= Generation s;
  memo_slots i w : MarkNoOpCache s !! i = Some w -> w <> 0 ->
    exists q g, (q, g) ∈ l /\ MarkNoOpIndex q = i /\ EncodeMarkNoOp q g = Some w }.

(** Between two wraps the counter adds up and keeps its upper half. *)
Lemma no_wrap g : 0 <= g < 2 ^ 64 -> wrap 32 (u64 (g + 1)) <> 0 -> u64 (g + 1) = g + 1 /\ g + 1 < 2 ^ 64 /\ (g + 1) / 2 ^ 32 = g / 2 ^ 32.
Proof.
  intros Hg Hw. assert (Hg' : g + 1 < 2 ^ 64).
  { destruct (Z.eq_dec (g + 1) (2 ^ 64)) as [He|]; [|lia]. by rewrite He in Hw. }
  unfold u64 in *. rewrite (wrap_small 64) in * by (unfold in_width; lia). split_and!; [done|done|]. unfold wrap in Hw.
  pose proof (Z.div_mod g (2 ^ 32) ltac:(lia)). pose proof (Z.mod_pos_bound g (2 ^ 32) ltac:(lia)).
  pose proof (Z.div_mod (g + 1) (2 ^ 32) ltac:(lia)). pose proof (Z.mod_pos_bound (g + 1) (2 ^ 32) ltac:(lia)). lia.
Qed.

(** The stamps of the generations with one upper half are different. *)
Lemma stamp_inj b g h n : b / 2 ^ 32 = n / 2 ^ 32 -> b <= g <= n -> b <= h <= n -> wrap 32 g = wrap 32 h -> g = h.
Proof.
  intros Hb Hg Hh He. unfold wrap in He.
  assert (Hu : forall k, b <= k <= n -> k / 2 ^ 32 = b / 2 ^ 32).
  { intros k Hk. pose proof (Z.div_le_mono b k (2 ^ 32) ltac:(lia) ltac:(lia)). pose proof (Z.div_le_mono k n (2 ^ 32) ltac:(lia) ltac:(lia)). lia. }
  rewrite (Z.div_mod g (2 ^ 32)), (Z.div_mod h (2 ^ 32)), He, (Hu g), (Hu h) by lia. done.
Qed.

Lemma memo_run_ok s l b : memo_run s l b -> memo_ok s l b.
Proof.
  induction 1 as [s HG HC|s l b _ [HG Hp Hs] Hw|s l b _ [HG Hp Hs] Hw|s l b p g _ [HG Hp Hs] Hp' Hg].
  - split; [rewrite HG; done|by intros ? ? ?%elem_of_nil|]. intros i w. rewrite HC. intros (-> & _)%lookup_replicate. done.
  - unfold wraps in Hw. apply Z.eqb_neq in Hw. destruct (no_wrap (Generation s) ltac:(lia) Hw) as (Hu & Hu' & Hd). unfold BumpGeneration.
    rewrite low_gen, (proj2 (Z.eqb_neq _ _) Hw), Hu. split; cbn [set_memo Generation MarkNoOpCache]; [lia| |exact Hs].
    intros p g Hin. specialize (Hp p g Hin). lia.
  - unfold wraps in Hw. unfold BumpGeneration. rewrite low_gen, Hw. cbn [set_memo Generation MarkNoOpCache].
    pose proof (wrap_range 64 (u64 (Generation s + 1) + 1) ltac:(lia)) as Hr. split; cbn [set_memo Generation MarkNoOpCache].
    + fold (u64 (u64 (Generation s + 1) + 1)) in Hr. destruct Hr. lia.
    + by intros ? ? ?%elem_of_nil.
    + intros i w (-> & _)%lookup_replicate. done.
  - assert (Hl : forall q h, (q, h) ∈ (p, g) :: l -> 0 <= q < 2 ^ 64 /\ b <= h <= Generation s).
    { intros q h [[= -> ->]|Hin]%elem_of_cons; [done|by apply Hp]. }
    unfold RecordMarkNoOp. destruct (EncodeMarkNoOp p g) as [w'|] eqn:He; split; cbn [set_memo Generation MarkNoOpCache]; try done; intros i w Hi Hw.
    + apply list_lookup_insert_Some in Hi as [(<- & -> & _)|[Hne Hi]]; [exists p, g; split; [apply list_elem_of_here|done]|].
      destruct (Hs i w Hi Hw) as (q & h & Hin & Hq). exists q, h. split; [by apply list_elem_of_further|done].
    + destruct (Hs i w Hi Hw) as (q & h & Hin & Hq). exists q, h. split; [by apply list_elem_of_further|done].
Qed.

(** C30. A memo hit for a generation sampled since the table was last emptied is
    for a page that was recorded with that very sample, so the walk behind the
    record and the hit saw the map of the same generation. Samples may be older
    than the live generation, as MarkGuestExecutableRange takes them before the
    lock, but no wrap of the 32-bit stamp may lie between a sample and its use;
    a wrap empties the table, also when the 64-bit counter wraps with it. *)
Theorem memo_sound s l b p g :
  memo_run s l b -> 0 <= p < 2 ^ 64 -> b <= g <= Generation s -> IsMarkNoOp p g s = true -> exists q, (q, g) ∈ l /\ page q = page p.
Proof.
  intros [HG Hp Hs]%memo_run_ok Hp' Hg. unfold IsMarkNoOp. destruct (EncodeMarkNoOp p g) as [w|] eqn:He; [|done].
  intros Hc%bool_decide_eq_true. destruct (encode_spec p _ _ (proj1 Hp') He) as (Hw & _ & Hst). destruct (Hs _ _ Hc Hw) as (q & h & Hin & Hi & Heq).
  destruct (Hp q h Hin) as [Hq Hh]. destruct (encode_spec q _ _ (proj1 Hq) Heq) as (_ & _ & Hst').
  assert (g = h) as -> by (apply (stamp_inj b _ _ (Generation s)); lia || congruence).
  exists q. split; [done|]. exact (encode_page q p _ _ w (proj1 Hq) (proj1 Hp') Hi Heq He).
Qed.

Definition memo_start : VMATracking := mkTracking ∅ ∅ 1 (replicate MarkNoOpEntries 0).

(** A page recorded with an old sample, and one with the live generation. *)
Lemma memo_sound_witness : exists q, (q, 2) ∈ [(0x5000, 2); (0x7000, 1)] /\ page q = page 0x5123.
Proof.
  apply (memo_sound (RecordMarkNoOp 0x5000 2 (RecordMarkNoOp 0x7000 1 (BumpGeneration memo_start))) [(0x5000, 2); (0x7000, 1)] 1 0x5123 2).
  - apply run_record; [|lia|done]. apply run_record; [|lia|done]. apply run_bump; [|done]. by apply run_start.
  - lia.
  - done.
  - reflexivity.
Defined.

(** Generations between two wraps leave the table alone. *)
Lemma bump_iter n s :
  in_width 64 (Generation s) -> Generation s + Z.of_nat n < 2 ^ 64 -> wrap 32 (Generation s) + Z.of_nat n < 2 ^ 32 ->
  Nat.iter n BumpGeneration s = set_memo (Generation s + Z.of_nat n) (MarkNoOpCache s) s.
Proof.
  intros [HG _]. induction n as [|n IH]; intros H1 H2; [destruct s; unfold set_memo; cbn; by rewrite Z.add_0_r|]. cbn [Nat.iter nat_rect].
  change (nat_rect _ s (fun _ => BumpGeneration) n) with (Nat.iter n BumpGeneration s). rewrite IH by lia. unfold BumpGeneration. cbn [set_memo Generation MarkNoOpCache VMAs MappedResources].
  assert (Hw : wrap 32 (u64 (Generation s + Z.of_nat n + 1)) = wrap 32 (Generation s) + Z.of_nat n + 1).
  { unfold u64. rewrite (wrap_small 64) by (unfold in_width; lia). unfold wrap in *. rewrite <- Z.add_assoc, <- Zplus_mod_idemp_l.
    pose proof (Z.mod_pos_bound (Generation s) (2 ^ 32) ltac:(lia)). rewrite Z.mod_small; lia. }
  rewrite low_gen, Hw. pose proof (wrap_range 32 (Generation s) ltac:(lia)) as [? _]. rewrite (proj2 (Z.eqb_neq _ 0)) by lia.
  unfold u64. rewrite wrap_small by (unfold in_width; lia). unfold set_memo. cbn. f_equal. lia.
Qed.

(** A stamp sampled before a wrap and stored after it stays in the table until
    the counter comes round: a hit although the map changed 2^32 - 1 times
    since the sample. *)
Lemma memo_stale_hit :
  let s0 := set_memo (2 ^ 32 - 1) (replicate MarkNoOpEntries 0) memo_start in
  let s1 := RecordMarkNoOp 0x5000 (Generation s0) (BumpGeneration s0) in
  let s2 := Nat.iter (Z.to_nat (2 ^ 32 - 2)) BumpGeneration s1 in
  IsMarkNoOp 0x5000 (Generation s2) s2 = true /\ Generation s2 <> Generation s0.
Proof.
  intros s0 s1 s2. assert (HG : Generation s1 = 2 ^ 32 + 1) by reflexivity.
  assert (Hs2 : s2 = set_memo (2 ^ 33 - 1) (MarkNoOpCache s1) s1).
  { subst s2. rewrite bump_iter; rewrite HG, ?Z2Nat.id by lia; [by f_equal|unfold in_width; lia|lia|]. change (wrap 32 (2 ^ 32 + 1)) with 1. lia. }
  rewrite Hs2. clearbody s2. split; [reflexivity|done].
Qed.
