(* ===== verification/Decoder.v ===== *)
(** The guest block decoder: A64Frontend/Decoder.cpp and Decoder.h.  A compile
    unit is discovered from its entry over a window of instruction slots that
    are stamped with the compile's generation, laid out as blocks, and given
    the census of predecessors.

    Reading guest memory, the query for executable memory and the lookup of a
    word are parameters.  An access to a vector out of its range is [None]. *)
From S2P Require Import Prelude A64Common Frontend.
From stdpp Require Import list.
Open Scope Z_scope.

Module Decoder.

Definition INSTRUCTION_SIZE : Z := 4.
Definition DEFAULT_MAX_INSTRUCTIONS : Z := 1024.
Definition HLT_IMM16 (Imm : Z) : Z := Z.lor 0xD4400000 (u32 (Z.shiftl Imm 5)).
Definition THUNK_MARKER_WORD : Z := HLT_IMM16 0x0F3F.
Definition THUNK_HASH_SIZE : Z := 32.
Definition FEX_GUEST_PAGE_SIZE : Z := 4096.
Definition PageOf (Addr : Z) : Z := Z.ldiff Addr (FEX_GUEST_PAGE_SIZE - 1).

Inductive DecodedBlockStatus := SUCCESS | NOEXEC_INST | UNALIGNED_PC.

(** [DecodedInstructions]: the position in the instruction buffer. *)
Record DecodedBlocks := mkBlock {
  BEntry : Z; BSize : Z; NumInstructions : nat; DecodedInstructions : nat;
  BlockStatus : DecodedBlockStatus; IsEntryPoint : bool; PredCount : Z; SolePredEntry : Z }.

Record DecodedBlockInformation := mkInfo {
  TotalInstructionCount : Z; Blocks : list DecodedBlocks; EntryPoints : list Z; CodePages : list Z;
  DecodedMinAddress : Z; DecodedMaxAddress : Z }.

Fixpoint InsertSorted (V : list Z) (Value : Z) : list Z :=
  match V with
  | [] => [Value]
  | x :: V' => if x <? Value then x :: InsertSorted V' Value else if x =? Value then V else Value :: V
  end.

(** [AddPeekWitnessRange]; the loop over the pages takes fuel. *)
Fixpoint add_pages (fuel : nat) (Page End : Z) (V : list Z) : option (list Z) :=
  match fuel with
  | O => None
  | S fuel => if Page <? End then add_pages fuel (u64 (Page + FEX_GUEST_PAGE_SIZE)) End (InsertSorted V Page) else Some V
  end.
Definition AddPeekWitnessRange (Start End : Z) (i : DecodedBlockInformation) : option DecodedBlockInformation :=
  if Start >=? End then Some i
  else
    Pages ← add_pages (Z.to_nat ((End - Start) / FEX_GUEST_PAGE_SIZE) + 3) (PageOf Start) End (CodePages i);
    Some (mkInfo (TotalInstructionCount i) (Blocks i) (EntryPoints i) Pages
            (Z.min (DecodedMinAddress i) Start) (Z.max (DecodedMaxAddress i) End)).

(** ** Executable memory *)

(** The loop of [CheckRangeExecutable]; [Query] answers base and size of the
    executable range around an address, [c] is the cached range. *)
Fixpoint check_loop (fuel : nat) (Query : Z -> Z * Z) (c : Z * Z) (Address Size : Z) : option (bool * (Z * Z)) :=
  match fuel with
  | O => None
  | S fuel =>
      if (Address <? c.1) || (u64 (Address + Size) >? c.2) then
        let '(Base, RSize) := Query Address in
        let c := (Base, u64 (Base + RSize)) in
        if RSize =? 0 then Some (false, c)
        else
          let RangeRemainingSize := u64 (c.2 - Address) in
          if Size >? RangeRemainingSize then check_loop fuel Query c (u64 (Address + RangeRemainingSize)) (u64 (Size - RangeRemainingSize))
          else check_loop fuel Query c Address Size
      else Some (true, c)
  end.

(** No [Query]: there is no syscall handler. *)
Definition CheckRangeExecutable (Query : option (Z -> Z * Z)) (c : Z * Z) (Address Size : Z) : option (bool * (Z * Z)) :=
  match Query with
  | None => Some (true, c)
  | Some Query => check_loop (Z.to_nat Size + 2) Query c Address Size
  end.

(** ** Instruction words *)

Definition IsISB (Word : Z) : bool := Z.land Word 0xFFFFF0FF =? 0xD50330DF.

Definition EndsBlock (Word : Z) (ISBEndsBlock : bool) : bool :=
  (ISBEndsBlock && IsISB Word)
  || (Z.land Word 0x7C000000 =? 0x14000000)
  || (Z.land Word 0x7C000000 =? 0x34000000)
  || (Z.land Word 0xFE000000 =? 0x54000000)
  || (Z.land Word 0xFF000000 =? 0xD4000000)
  || (Z.land Word 0xFE000000 =? 0xD6000000).

(** The [Count] targets. *)
Definition SignExtendImm (Value Width : Z) : Z := Z.shiftr (sgn 64 (u64 (Z.shiftl Value (64 - Width)))) (64 - Width).
Definition GetDirectSuccessors (Word PC : Z) : list Z :=
  let imm19 := SignExtendImm (Z.land (Z.shiftr Word 5) 0x7FFFF) 19 in
  if Z.land Word 0xFC000000 =? 0x14000000 then [u64 (PC + SignExtendImm (Z.land Word 0x03FFFFFF) 26 * 4)]
  else if (Z.land Word 0x7E000000 =? 0x34000000) || (Z.land Word 0x7E000000 =? 0x36000000) then
    let IsTest := Z.land Word 0x7E000000 =? 0x36000000 in
    [u64 (PC + (if IsTest then SignExtendImm (Z.land (Z.shiftr Word 5) 0x3FFF) 14 else imm19) * 4); u64 (PC + INSTRUCTION_SIZE)]
  else if Z.land Word 0xFE000000 =? 0x54000000 then
    u64 (PC + imm19 * 4) :: (if Z.land Word 0xF <? 0xE then [u64 (PC + INSTRUCTION_SIZE)] else [])
  else [].

(** ** Slots *)

Record Slots := mkSlots { SlotStamp : list Z; SlotWord : list Z; SlotMatcher : list (option InstMatcher) }.

Definition DecodedBit : Z := 2 ^ 31.
Definition LeaderBit : Z := 2 ^ 30.
Definition StopBit : Z := 2 ^ 29.
Definition GenMask : Z := StopBit - 1.
Definition has (F Bit : Z) : bool := negb (Z.land F Bit =? 0).

(** A pointer that is not null. *)
Definition present {A} (o : option A) : bool := match o with Some _ => true | None => false end.

(** [l[i] = x]. *)
Definition store {A} (i : nat) (x : A) (l : list A) : option (list A) :=
  if (i <? length l)%nat then Some (<[i := x]> l) else None.

Section Window.
Context (WindowLow WindowHigh Gen : Z).

Definition SlotOf (Addr : Z) : nat := Z.to_nat (u64 (Addr - WindowLow) / INSTRUCTION_SIZE).
Definition InWindow (Addr : Z) : bool := (Addr >=? WindowLow) && (Addr <=? WindowHigh) && (Z.land Addr (INSTRUCTION_SIZE - 1) =? 0).

Definition Flags (sl : Slots) (Addr : Z) : option Z :=
  S ← SlotStamp sl !! SlotOf Addr;
  Some (if Z.land S GenMask =? Gen then Z.ldiff S GenMask else 0).
Definition SetFlag (Addr Flag : Z) (sl : Slots) : option Slots :=
  S ← SlotStamp sl !! SlotOf Addr;
  st ← store (SlotOf Addr) (Z.lor (if Z.land S GenMask =? Gen then S else Gen) Flag) (SlotStamp sl);
  Some (mkSlots st (SlotWord sl) (SlotMatcher sl)).
Definition SetWord (Addr Word : Z) (sl : Slots) : option Slots :=
  w ← store (SlotOf Addr) Word (SlotWord sl); Some (mkSlots (SlotStamp sl) w (SlotMatcher sl)).
Definition SetMatcher (Addr : Z) (M : option InstMatcher) (sl : Slots) : option Slots :=
  m ← store (SlotOf Addr) M (SlotMatcher sl); Some (mkSlots (SlotStamp sl) (SlotWord sl) m).

(** [Matcher && Matcher->Handler]. *)
Definition handled (M : option InstMatcher) : bool :=
  match M with Some m => match Handler m with Some _ => true | None => false end | None => false end.

(** ** Discovery *)

(** The last element of the worklist is the head of [Worklist]. *)
Record Disc := mkDisc { Cache : Z * Z; DSlots : Slots; Leaders : list Z; Worklist : list Z; Decoded : Z }.

Context (Query : option (Z -> Z * Z)) (Memory : Z -> Z) (DecodeInstruction : Z -> option InstMatcher)
        (PC Cap RegionWindow MaxLeaders : Z) (FollowBranches ISBEndsBlock : bool).

(** The loop over the successors of the branch at [InstPC]. *)
Fixpoint follow (InstPC : Z) (Targets : list Z) (d : Disc) : option Disc :=
  match Targets with
  | [] => Some d
  | T :: Targets =>
      let Distance := if T >? InstPC then T - InstPC else InstPC - T in
      if (Distance >? RegionWindow) || negb (InWindow T) then follow InstPC Targets d
      else
        F ← Flags (DSlots d) T;
        if has F LeaderBit || (Z.of_nat (length (Leaders d)) >=? MaxLeaders) then follow InstPC Targets d
        else
          sl ← SetFlag T LeaderBit (DSlots d);
          follow InstPC Targets (mkDisc (Cache d) sl (Leaders d ++ [T]) (T :: Worklist d) (Decoded d))
  end.

(** One instruction of a run; the flag says that the run goes on. *)
Definition decode_one (InstPC : Z) (d : Disc) : option (bool * Disc) :=
  if negb (InWindow InstPC) then Some (false, d)
  else
    F ← Flags (DSlots d) InstPC;
    if has F DecodedBit then Some (false, d)
    else
      '(Exec, c) ← (if InstPC =? PC then Some (true, Cache d) else CheckRangeExecutable Query (Cache d) InstPC INSTRUCTION_SIZE);
      if negb Exec then Some (false, mkDisc c (DSlots d) (Leaders d) (Worklist d) (Decoded d))
      else
        let Word := Memory InstPC in
        sl ← SetWord InstPC Word (DSlots d);
        sl ← SetFlag InstPC DecodedBit sl;
        '(Hash, c) ← (if Word =? THUNK_MARKER_WORD then CheckRangeExecutable Query c (u64 (InstPC + INSTRUCTION_SIZE)) THUNK_HASH_SIZE else Some (true, c));
        let Matcher := if Hash : bool then DecodeInstruction Word else None in
        sl ← SetMatcher InstPC Matcher sl;
        let Ends := EndsBlock Word ISBEndsBlock in
        if negb (handled Matcher) then
          sl ← SetFlag InstPC StopBit sl;
          Some (false, mkDisc c sl (Leaders d) (Worklist d) (Decoded d + 1))
        else if Ends then
          sl ← SetFlag InstPC StopBit sl;
          let d := mkDisc c sl (Leaders d) (Worklist d) (Decoded d + 1) in
          d ← (if FollowBranches then follow InstPC (GetDirectSuccessors Word InstPC) d else Some d);
          Some (false, d)
        else Some (true, mkDisc c sl (Leaders d) (Worklist d) (Decoded d + 1)).

Fixpoint decode_run (fuel : nat) (InstPC : Z) (d : Disc) : option Disc :=
  match fuel with
  | O => None
  | S fuel =>
      if Decoded d <? Cap then
        '(More, d) ← decode_one InstPC d;
        if More : bool then decode_run fuel (u64 (InstPC + INSTRUCTION_SIZE)) d else Some d
      else Some d
  end.

Definition pop (d : Disc) (w : list Z) : Disc := mkDisc (Cache d) (DSlots d) (Leaders d) w (Decoded d).

Fixpoint discover (fuel : nat) (d : Disc) : option Disc :=
  match fuel with
  | O => None
  | S fuel =>
      match Worklist d with
      | InstPC :: Rest =>
          if Decoded d <? Cap then d ← decode_run (Z.to_nat Cap + 1) InstPC (pop d Rest); discover fuel d else Some d
      | [] => Some d
      end
  end.

(** ** Layout *)

Record Layout := mkLayout {
  Buffer : list DecodedInst; Used : nat; LastPage : Z; Pages : list Z; MinAddr : Z; MaxAddr : Z; Total : Z; LBlocks : list DecodedBlocks }.

Definition note_page (Page : Z) (l : Layout) : Layout :=
  if negb (Page =? LastPage l)
  then mkLayout (Buffer l) (Used l) Page (InsertSorted (Pages l) Page) (MinAddr l) (MaxAddr l) (Total l) (LBlocks l) else l.

Definition grow (b : DecodedBlocks) : DecodedBlocks :=
  mkBlock (BEntry b) (BSize b + INSTRUCTION_SIZE) (S (NumInstructions b)) (DecodedInstructions b) (BlockStatus b) (IsEntryPoint b) (PredCount b) (SolePredEntry b).

(** The instructions of the block of [Leader], from [InstPC]; the second result
    is [DecodedEnd]. *)
Fixpoint layout_run (fuel : nat) (sl : Slots) (Leader InstPC DecodedEnd : Z) (Block : DecodedBlocks) (l : Layout) : option (DecodedBlocks * Z * Layout) :=
  match fuel with
  | O => None
  | S fuel =>
      if InWindow InstPC then
        F ← Flags sl InstPC;
        if negb (has F DecodedBit) || (negb (InstPC =? Leader) && has F LeaderBit) then Some (Block, DecodedEnd, l)
        else
          Word ← SlotWord sl !! SlotOf InstPC;
          M ← SlotMatcher sl !! SlotOf InstPC;
          buf ← store (Used l) (mkInst InstPC Word M) (Buffer l);
          let l := note_page (PageOf InstPC) (mkLayout buf (S (Used l)) (LastPage l) (Pages l) (MinAddr l) (MaxAddr l) (Total l) (LBlocks l)) in
          let Block := grow Block in
          let Next := u64 (InstPC + INSTRUCTION_SIZE) in
          let '(DecodedEnd, l) :=
            if (Word =? THUNK_MARKER_WORD) && present M
            then let E := u64 (Next + THUNK_HASH_SIZE) in (E, note_page (PageOf (u64 (E - 1))) l)
            else (Next, l) in
          if has F StopBit then Some (Block, DecodedEnd, l) else layout_run fuel sl Leader Next DecodedEnd Block l
      else Some (Block, DecodedEnd, l)
  end.

(** The number of slots bounds the length of a run. *)
Definition layout_block (sl : Slots) (Leader : Z) (l : Layout) : option Layout :=
  F ← Flags sl Leader;
  if negb (has F DecodedBit) then Some l
  else
    let Block := mkBlock Leader 0 0 (Used l) SUCCESS (Leader =? PC) 0 0 in
    '(Block, DecodedEnd, l) ← layout_run (length (SlotStamp sl) + 2) sl Leader Leader Leader Block l;
    Some (mkLayout (Buffer l) (Used l) (LastPage l) (Pages l) (Z.min (MinAddr l) Leader) (Z.max (MaxAddr l) DecodedEnd)
            (Total l + Z.of_nat (NumInstructions Block)) (LBlocks l ++ [Block])).

Fixpoint layout_all (sl : Slots) (Leaders : list Z) (l : Layout) : option Layout :=
  match Leaders with
  | [] => Some l
  | L :: Leaders => l ← layout_block sl L l; layout_all sl Leaders l
  end.
End Window.

(** ** The census of predecessors *)

(** The first block whose entry is [Target]. *)
Fixpoint note_pred (Target From : Z) (Bs : list DecodedBlocks) : list DecodedBlocks :=
  match Bs with
  | [] => []
  | To :: Bs =>
      if negb (BEntry To =? Target) then To :: note_pred Target From Bs
      else
        let n := if PredCount To <? 2 then PredCount To + 1 else PredCount To in
        mkBlock (BEntry To) (BSize To) (NumInstructions To) (DecodedInstructions To) (BlockStatus To) (IsEntryPoint To) n (if n =? 1 then From else 0) :: Bs
  end.

Definition IsSuccess (s : DecodedBlockStatus) : bool := match s with SUCCESS => true | _ => false end.

(** The targets counted for a block. *)
Definition edges (buf : list DecodedInst) (From : DecodedBlocks) : option (list Z) :=
  if (NumInstructions From =? 0)%nat then Some []
  else
    Last ← buf !! (DecodedInstructions From + NumInstructions From - 1)%nat;
    let Succ := if IsSuccess (BlockStatus From) && handled (Matcher Last) then GetDirectSuccessors (Word Last) (IPC Last) else [] in
    Some (match Succ with [] => [u64 (BEntry From + BSize From)] | _ => Succ end).

(** The loop reads none of the fields it writes, so it is over the blocks as
    laid out. *)
Fixpoint census (buf : list DecodedInst) (Froms Bs : list DecodedBlocks) : option (list DecodedBlocks) :=
  match Froms with
  | [] => Some Bs
  | From :: Froms =>
      Ts ← edges buf From;
      census buf Froms (foldl (fun Bs T => note_pred T (BEntry From) Bs) Bs Ts)
  end.

(** ** The decoder *)

Record Config := mkConfig { MaxInstPerBlock : Z; Multiblock : bool; SMCICache : bool; RegionWindow : Z; MaxLeaders : Z }.

Record t := mkDecoder {
  ExecutableRange : Z * Z; DecodedBuffer : list DecodedInst; DecSlots : Slots; Generation : Z; BlockInfo : DecodedBlockInformation }.

(** [resize], when it grows. *)
Definition resize {A} (n : nat) (x : A) (l : list A) : list A := l ++ replicate (n - length l) x.

Definition cap (cfg : Config) (MaxInst : Z) : Z :=
  let Cap := if negb (MaxInst =? 0) then MaxInst else MaxInstPerBlock cfg in
  if (Cap =? 0) || (Cap >? DEFAULT_MAX_INSTRUCTIONS) then DEFAULT_MAX_INSTRUCTIONS else Cap.

Definition blank : DecodedInst := mkInst 0 0 None.

(** A unit of one block without instruction bytes. *)
Definition single (PC : Z) (M : option InstMatcher) (st : DecodedBlockStatus) (c : Z * Z) (buf : list DecodedInst) (sl : Slots) (g : Z)
    (mn mx : Z) (pages : list Z) : option t :=
  buf ← store 0 (mkInst PC 0 M) buf;
  Some (mkDecoder c buf sl g (mkInfo 1 [mkBlock PC 0 1 0 st true 0 0] [PC] pages mn mx)).

(** The slots and the generation for this compile. *)
Definition prepare (NumSlots : nat) (sl : Slots) (g : Z) : Slots * Z :=
  let '(sl, g) := if (length (SlotStamp sl) <? NumSlots)%nat
    then (mkSlots (replicate NumSlots 0) (resize NumSlots 0 (SlotWord sl)) (resize NumSlots None (SlotMatcher sl)), 0) else (sl, g) in
  let g := u32 (g + 1) in
  if g =? 0 then (mkSlots (replicate (length (SlotStamp sl)) 0) (SlotWord sl) (SlotMatcher sl), 1) else (sl, g).

Section Decode.
Context (cfg : Config) (Query : option (Z -> Z * Z)) (Memory : Z -> Z) (DecodeInstruction : Z -> option InstMatcher).

Definition DecodeInstructionsAtEntry (PC MaxInst : Z) (dec : t) : option t :=
  let Cap := cap cfg MaxInst in
  let buf := resize (Z.to_nat Cap) blank (DecodedBuffer dec) in
  if negb (Z.land PC (INSTRUCTION_SIZE - 1) =? 0) then
    single PC None UNALIGNED_PC (ExecutableRange dec) buf (DecSlots dec) (Generation dec) PC PC [PageOf PC]
  else
    '(Exec, c) ← CheckRangeExecutable Query (ExecutableRange dec) PC INSTRUCTION_SIZE;
    if negb Exec then single PC (DecodeInstruction 0) NOEXEC_INST c buf (DecSlots dec) (Generation dec) PC PC [PageOf PC]
    else
      let RW := RegionWindow cfg in
      let FollowBranches := Multiblock cfg && (Cap >? 1) && (MaxLeaders cfg >? 1) in
      let WindowLow := if PC >=? RW then PC - RW else 0 in
      let WindowHigh := u64 (PC + Cap * INSTRUCTION_SIZE + RW) in
      let NumSlots := (Z.to_nat (u64 (WindowHigh - WindowLow) / INSTRUCTION_SIZE) + 1)%nat in
      let '(sl, g) := prepare NumSlots (DecSlots dec) (Generation dec) in
      let Gen := Z.land g GenMask in
      sl ← SetFlag WindowLow Gen PC LeaderBit sl;
      d ← discover WindowLow WindowHigh Gen Query Memory DecodeInstruction PC Cap RW (MaxLeaders cfg) FollowBranches (SMCICache cfg)
            (Z.to_nat (MaxLeaders cfg) + 2) (mkDisc c sl [PC] [PC] 0);
      let buf := resize (Z.to_nat (Decoded d)) blank buf in
      let Ls := match Leaders d with [] => [] | L :: Ls => L :: merge_sort Z.le Ls end in
      l ← layout_all WindowLow WindowHigh Gen PC (DSlots d) Ls (mkLayout buf 0 (PageOf PC) [PageOf PC] PC PC 0 []);
      Bs ← census (Buffer l) (LBlocks l) (LBlocks l);
      match Bs with
      | [] => single PC None NOEXEC_INST (Cache d) (Buffer l) (DSlots d) g (MinAddr l) (MaxAddr l) (Pages l)
      | _ => Some (mkDecoder (Cache d) (Buffer l) (DSlots d) g (mkInfo (Total l) Bs [PC] (Pages l) (MinAddr l) (MaxAddr l)))
      end.
End Decode.

Definition ResetExecutableRangeCache (d : t) : t := mkDecoder (0, 0) (DecodedBuffer d) (DecSlots d) (Generation d) (BlockInfo d).
End Decoder.
