(* ===== verification/DecoderSlots.v ===== *)
(** The slots of [Decoder] as flags of single addresses, and the check for
    executable memory against the contract of the query. *)
From S2P Require Import Prelude A64Common Frontend Decoder.
From stdpp Require Import list.
Open Scope Z_scope.
Import Decoder.

Lemma has_testbit F k : 0 <= k -> has F (2 ^ k) = Z.testbit F k.
Proof.
  intros Hk. unfold has. destruct (Z.testbit F k) eqn:Hb.
  - destruct (Z.eqb_spec (Z.land F (2 ^ k)) 0) as [H|]; [|done].
    assert (Hc : Z.testbit (Z.land F (2 ^ k)) k = true) by (rewrite Z.land_spec, Hb, Z.pow2_bits_true by done; done). by rewrite H, Z.bits_0 in Hc.
  - rewrite (proj2 (Z.eqb_eq _ 0)); [done|]. apply Z.bits_inj'. intros i Hi. rewrite Z.land_spec, Z.bits_0, Z.pow2_bits_eqb by done.
    destruct (Z.eqb_spec k i) as [<-|]; [by rewrite Hb|by rewrite andb_false_r].
Qed.

Lemma store_in_range {A} i (x : A) l : (i < length l)%nat -> store i x l = Some (<[i := x]> l).
Proof. intros H. unfold store. by rewrite (proj2 (Nat.ltb_lt _ _)). Qed.

(** ** Executable memory *)

(** What the decoder needs of the query: a range that is not empty holds the
    address and is executable [now], and an empty one means that the address is
    not. The cached range may be older, so what the decoder takes for executable
    is only in [executable], a set around [now]: what was executable at some time
    since the cached range was last reset. *)
Class ExecutableQuery (Query : option (Z -> Z * Z)) (now executable : Z -> Prop) : Prop := {
  query_sub a : now a -> executable a;
  query_none : Query = None -> forall a, now a;
  query_some q a B S : Query = Some q -> 0 <= a < 2 ^ 64 -> q a = (B, S) ->
    (S = 0 /\ 0 <= B /\ ~ now a) \/ (0 < S /\ 0 <= B <= a /\ a < B + S < 2 ^ 64 /\ forall x, B <= x < B + S -> now x) }.

Definition range_executable (executable : Z -> Prop) (a n : Z) : Prop := forall x, a <= x < a + n -> executable x.
Definition cache_ok (executable : Z -> Prop) (c : Z * Z) : Prop := forall x, c.1 <= x < c.2 -> executable x.

Section Check.
Context (Query : option (Z -> Z * Z)) (now executable : Z -> Prop) `{HQ : ExecutableQuery Query now executable}.
#[local] Set Default Proof Using "Type*".

Lemma check_loop_spec fuel q c a n :
  Query = Some q -> cache_ok executable c -> 0 <= a -> 0 < n -> a + n < 2 ^ 64 -> (Z.to_nat n + 2 <= fuel)%nat ->
  exists b c', check_loop fuel q c a n = Some (b, c') /\ cache_ok executable c' /\
    if (b : bool) then range_executable executable a n else ~ range_executable now a n.
Proof.
  intros Hq. revert c a n. induction fuel as [|fuel IH]; intros c a n Hc Ha Hn Ht Hf; [lia|]. cbn [check_loop].
  assert (Hu : u64 (a + n) = a + n) by (apply wrap_small; unfold in_width; lia). rewrite Hu.
  destruct ((a <? c.1) || (a + n >? c.2)) eqn:Hcond; [|exists true, c; split; [done|]; split; [done|]; intros x Hx; apply Hc; lia].
  destruct (q a) as [B S] eqn:Hqa. destruct (query_some q a B S Hq ltac:(lia) Hqa) as [(-> & HB & Hno)|(HS & HB & HT & Hex)].
  - rewrite Z.eqb_refl. eexists _, _. split; [reflexivity|]. split; [|intros Hr; apply Hno, Hr; lia].
    intros x Hx. cbn in Hx. rewrite Z.add_0_r in Hx. pose proof (Z.mod_le B (2 ^ 64) HB ltac:(lia)). unfold u64, wrap in Hx. lia.
  - rewrite (proj2 (Z.eqb_neq S 0)) by lia. cbn [fst snd]. rewrite (u64_small (B + S)), (u64_small (B + S - a)) by lia.
    assert (Hc' : cache_ok executable (B, B + S)) by (intros x Hx; by apply query_sub, Hex).
    destruct (Z.gtb_spec n (B + S - a)) as [Hlt|Hge].
    + rewrite !u64_small by lia. replace (a + (B + S - a)) with (B + S) by lia.
      destruct (IH (B, B + S) (B + S) (n - (B + S - a)) Hc' ltac:(lia) ltac:(lia) ltac:(lia) ltac:(lia)) as (b & c' & Heq & Hc2 & Hb).
      exists b, c'. split; [done|]. split; [done|]. destruct b.
      * intros x Hx. destruct (decide (x < B + S)); [apply query_sub, Hex; lia|apply Hb; lia].
      * intros Hr. apply Hb. intros x Hx. apply Hr. lia.
    + destruct fuel as [|fuel]; [lia|]. cbn [check_loop fst snd]. rewrite Hu, (proj2 (Z.ltb_ge a B)), Z.gtb_ltb, (proj2 (Z.ltb_ge (B + S) (a + n))) by lia.
      exists true, (B, B + S). split; [done|]. split; [done|]. intros x Hx. apply query_sub, Hex. lia.
Qed.

Lemma check_spec c a n :
  cache_ok executable c -> 0 <= a -> 0 < n -> a + n < 2 ^ 64 ->
  exists b c', CheckRangeExecutable Query c a n = Some (b, c') /\ cache_ok executable c' /\
    if (b : bool) then range_executable executable a n else ~ range_executable now a n.
Proof.
  intros Hc Ha Hn Ht. unfold CheckRangeExecutable. pose proof check_loop_spec as Hs. pose proof query_none as Hn'. pose proof query_sub as Hsub. clear HQ.
  destruct Query as [q|]; [by apply Hs|]. exists true, c. split; [done|]. split; [done|]. intros x _. by apply Hsub, Hn'.
Qed.
End Check.

(** ** Slots *)

(** The flags as bits. *)
Definition dec_bit : Z := 31.
Definition lead_bit : Z := 30.
Definition stop_bit : Z := 29.

Record window_ok (Low High Gen : Z) : Prop := {
  win_low : 0 <= Low; win_high : Low <= High; win_top : High + 64 < 2 ^ 64; win_gen : in_width 29 Gen }.

Section Slots.
Context (Low High Gen : Z) (Hwin : window_ok Low High Gen).
#[local] Set Default Proof Using "Type*".

Definition slot_count : nat := Z.to_nat ((High - Low) / 4) + 1.

Record slots_ok (sl : Slots) : Prop := {
  stamps_len : (slot_count <= length (SlotStamp sl))%nat;
  words_len : (slot_count <= length (SlotWord sl))%nat;
  matchers_len : (slot_count <= length (SlotMatcher sl))%nat }.

Definition lens (sl : Slots) : nat * nat * nat := (length (SlotStamp sl), length (SlotWord sl), length (SlotMatcher sl)).

Lemma in_window a : InWindow Low High a = true <-> Low <= a <= High /\ a mod 4 = 0.
Proof.
  unfold InWindow. change (INSTRUCTION_SIZE - 1) with (Z.ones 2). rewrite land_wrap by lia. unfold wrap. change (2 ^ 2) with 4. lia.
Qed.

Lemma slot_of a : Low <= a <= High -> SlotOf Low a = Z.to_nat ((a - Low) / 4).
Proof. intros Ha. unfold SlotOf. destruct Hwin. by rewrite u64_small by lia. Qed.

Lemma slot_lt a : InWindow Low High a = true -> (SlotOf Low a < slot_count)%nat.
Proof.
  intros [Ha _]%in_window. rewrite slot_of by done. unfold slot_count. pose proof (Z.div_le_mono (a - Low) (High - Low) 4). 
  pose proof (Z.div_pos (a - Low) 4). lia.
Qed.

Lemma slot_inj a b : InWindow Low High a = true -> InWindow Low High b = true -> SlotOf Low a = SlotOf Low b -> a = b.
Proof.
  intros [Ha Ha4]%in_window [Hb Hb4]%in_window. rewrite !slot_of by done. intros H. apply Z2Nat.inj in H; [|apply Z.div_pos; lia..].
  pose proof (Z.div_mod (a - Low) 4). pose proof (Z.div_mod (b - Low) 4). pose proof (Z.mod_pos_bound (a - Low) 4). pose proof (Z.mod_pos_bound (b - Low) 4).
  pose proof (Z.div_mod a 4). pose proof (Z.div_mod b 4). lia.
Qed.

(** The bit [k] of the flags of [a]. *)
Definition flag (k : Z) (sl : Slots) (a : Z) : bool := match Flags Low Gen sl a with Some F => Z.testbit F k | None => false end.
Definition word_at (sl : Slots) (a : Z) : option Z := SlotWord sl !! SlotOf Low a.
Definition matcher_at (sl : Slots) (a : Z) : option (option InstMatcher) := SlotMatcher sl !! SlotOf Low a.

Lemma flags_some sl a : slots_ok sl -> InWindow Low High a = true -> exists F, Flags Low Gen sl a = Some F /\ (forall k, 0 <= k -> has F (2 ^ k) = flag k sl a).
Proof.
  intros Hs Ha. pose proof (slot_lt a Ha). destruct (lookup_lt_is_Some_2 (SlotStamp sl) (SlotOf Low a)) as [S HS]; [destruct Hs; lia|].
  unfold flag, Flags. rewrite HS. cbn. eexists. split; [reflexivity|]. intros k Hk. by apply has_testbit.
Qed.

(** A stamp with a flag of the upper three bits. *)
Lemma stamp_flag S k :
  29 <= k <= 31 ->
  let S' := Z.lor (if Z.land S GenMask =? Gen then S else Gen) (2 ^ k) in
  Z.land S' GenMask = Gen /\
  forall i, Z.testbit (Z.ldiff S' GenMask) i = Z.testbit (if Z.land S GenMask =? Gen then Z.ldiff S GenMask else 0) i || (k =? i).
Proof.
  intros Hk S'. assert (HG : forall i, 0 <= i -> Z.testbit GenMask i = (i <? 29)).
  { intros i Hi. change GenMask with (Z.ones 29). rewrite Z.testbit_ones by lia. lia. }
  destruct (win_gen _ _ _ Hwin) as [HG0 HG1]. assert (HGen : forall i, 29 <= i -> Z.testbit Gen i = false) by (intros i Hi; by apply (testbit_above 29)).
  split.
  - apply Z.bits_inj'. intros i Hi. rewrite Z.land_spec, HG by done. unfold S'. rewrite Z.lor_spec, Z.pow2_bits_eqb by lia.
    destruct (Z.ltb_spec i 29); [|rewrite andb_false_r; symmetry; by apply HGen]. rewrite (proj2 (Z.eqb_neq k i)), orb_false_r, andb_true_r by lia.
    destruct (Z.eqb_spec (Z.land S GenMask) Gen) as [<-|]; [|done]. rewrite Z.land_spec, HG by done. by rewrite (proj2 (Z.ltb_lt i 29)), andb_true_r.
  - intros i. destruct (Z.ltb_spec i 0) as [Hneg|Hi].
    { rewrite !Z.testbit_neg_r by done. symmetry. cbn. lia. }
    rewrite Z.ldiff_spec, HG by done. unfold S'. rewrite Z.lor_spec, Z.pow2_bits_eqb by lia. destruct (Z.eqb_spec (Z.land S GenMask) Gen) as [HS|HS].
    + rewrite Z.ldiff_spec, HG by done. destruct (Z.ltb_spec i 29); cbn [negb]; rewrite ?andb_false_r, ?andb_true_r; [symmetry; cbn; lia|done].
    + rewrite Z.bits_0. destruct (Z.ltb_spec i 29); cbn [negb]; rewrite ?andb_false_r, ?andb_true_r; [symmetry; cbn; lia|]. by rewrite HGen.
Qed.

Lemma set_flag_spec sl a k :
  slots_ok sl -> InWindow Low High a = true -> 29 <= k <= 31 ->
  exists sl', SetFlag Low Gen a (2 ^ k) sl = Some sl' /\ slots_ok sl' /\ lens sl' = lens sl /\
    SlotWord sl' = SlotWord sl /\ SlotMatcher sl' = SlotMatcher sl /\
    (forall S, S ∈ SlotStamp sl' -> S ∈ SlotStamp sl \/ Z.land S GenMask = Gen) /\
    forall b i, InWindow Low High b = true -> flag i sl' b = flag i sl b || (bool_decide (b = a) && (i =? k)).
Proof.
  intros Hs Ha Hk. pose proof (slot_lt a Ha) as Hlt. destruct (lookup_lt_is_Some_2 (SlotStamp sl) (SlotOf Low a)) as [S HS]; [destruct Hs; lia|].
  unfold SetFlag. rewrite HS. cbn [mbind option_bind]. rewrite store_in_range by (destruct Hs; lia). cbn [mbind option_bind].
  destruct (stamp_flag S k Hk) as [Hg Hb]. set (S' := Z.lor _ _) in *. eexists. split; [reflexivity|]. cbn [SlotStamp SlotWord SlotMatcher].
  split; [destruct Hs; split; cbn; by rewrite ?length_insert|]. split; [unfold lens; cbn; by rewrite length_insert|]. split; [done|]. split; [done|]. split.
  - intros X [i HX]%list_elem_of_lookup. apply list_lookup_insert_Some in HX as [(_ & <- & _)|[_ HX]]; [by right|left]. by eapply list_elem_of_lookup_2.
  - intros b i Hb'. unfold flag, Flags. cbn [SlotStamp]. destruct (decide (b = a)) as [->|Hne].
    + rewrite list_lookup_insert_eq by (destruct Hs; lia). rewrite HS. cbn. rewrite Hg, Z.eqb_refl, Hb. by rewrite (Z.eqb_sym k i), bool_decide_true.
    + rewrite list_lookup_insert_ne by (intros He; by apply Hne, slot_inj). by rewrite bool_decide_false, orb_false_r.
Qed.

Lemma flag_stamps sl sl' k a : SlotStamp sl' = SlotStamp sl -> flag k sl' a = flag k sl a.
Proof. intros H. unfold flag, Flags. by rewrite H. Qed.

Lemma set_word_spec sl a w :
  slots_ok sl -> InWindow Low High a = true ->
  exists sl', SetWord Low a w sl = Some sl' /\ slots_ok sl' /\ lens sl' = lens sl /\ SlotStamp sl' = SlotStamp sl /\ SlotMatcher sl' = SlotMatcher sl /\
    forall b, InWindow Low High b = true -> word_at sl' b = if decide (b = a) then Some w else word_at sl b.
Proof.
  intros Hs Ha. pose proof (slot_lt a Ha) as Hlt. unfold SetWord. rewrite store_in_range by (destruct Hs; lia). cbn [mbind option_bind].
  eexists. split; [reflexivity|]. split; [destruct Hs; split; cbn; by rewrite ?length_insert|]. split; [unfold lens; cbn; by rewrite length_insert|].
  split; [done|]. split; [done|]. intros b Hb. unfold word_at. cbn. destruct (decide (b = a)) as [->|Hne].
  - apply list_lookup_insert_eq. destruct Hs; lia.
  - apply list_lookup_insert_ne. intros He. by apply Hne, slot_inj.
Qed.

Lemma set_matcher_spec sl a m :
  slots_ok sl -> InWindow Low High a = true ->
  exists sl', SetMatcher Low a m sl = Some sl' /\ slots_ok sl' /\ lens sl' = lens sl /\ SlotStamp sl' = SlotStamp sl /\ SlotWord sl' = SlotWord sl /\
    forall b, InWindow Low High b = true -> matcher_at sl' b = if decide (b = a) then Some m else matcher_at sl b.
Proof.
  intros Hs Ha. pose proof (slot_lt a Ha) as Hlt. unfold SetMatcher. rewrite store_in_range by (destruct Hs; lia). cbn [mbind option_bind].
  eexists. split; [reflexivity|]. split; [destruct Hs; split; cbn; by rewrite ?length_insert|]. split; [unfold lens; cbn; by rewrite length_insert|].
  split; [done|]. split; [done|]. intros b Hb. unfold matcher_at. cbn. destruct (decide (b = a)) as [->|Hne].
  - apply list_lookup_insert_eq. destruct Hs; lia.
  - apply list_lookup_insert_ne. intros He. by apply Hne, slot_inj.
Qed.
End Slots.
