(* ===== verification/DecoderDiscover.v ===== *)
(** Region discovery: what [discover] leaves in the slots.  The ghost list [D]
    has the addresses decoded so far. *)
From S2P Require Import Prelude A64Common Frontend Decoder DecoderSlots.
From stdpp Require Import list.
Open Scope Z_scope.
Import Decoder.

Section Discover.
Context (Low High Gen : Z) (Hwin : window_ok Low High Gen)
        (Query : option (Z -> Z * Z)) (now executable : Z -> Prop) (HQ : ExecutableQuery Query now executable)
        (Memory : Z -> Z) (DecodeInstruction : Z -> option InstMatcher)
        (PC Cap RegionWindow MaxLeaders : Z) (FollowBranches ISBEndsBlock : bool)
        (HPC : InWindow Low High PC = true) (HexecPC : range_executable executable PC 4) (HCap : 0 < Cap)
        (lens0 : nat * nat * nat) (stamps0 : list Z).
#[local] Set Default Proof Using "Type*".

Abbreviation flag := (flag Low Gen).
Abbreviation word_at := (word_at Low).
Abbreviation matcher_at := (matcher_at Low).
Abbreviation inw := (InWindow Low High).
Abbreviation decode_one := (decode_one Low High Gen Query Memory DecodeInstruction PC RegionWindow MaxLeaders FollowBranches ISBEndsBlock).

(** The matcher recorded for [a]: that of its word, and none for a thunk marker
    whose hash is not executable now. *)
Definition matched (a : Z) (m : option InstMatcher) : Prop :=
  if Memory a =? THUNK_MARKER_WORD
  then (range_executable executable (a + 4) 32 /\ m = DecodeInstruction (Memory a)) \/ (~ range_executable now (a + 4) 32 /\ m = None)
  else m = DecodeInstruction (Memory a).

Definition stops (a : Z) (m : option InstMatcher) : bool := negb (handled m) || EndsBlock (Memory a) ISBEndsBlock.

Definition decoded_ok (sl : Slots) (a : Z) : Prop :=
  range_executable executable a 4 /\ word_at sl a = Some (Memory a) /\
  exists m, matcher_at sl a = Some m /\ matched a m /\ flag stop_bit sl a = stops a m.

Definition room : nat := Nat.max 1 (Z.to_nat MaxLeaders).
Definition budget (d : Disc) : nat := length (Worklist d) + (room - length (Leaders d)).

Record dinv (d : Disc) (D : list Z) : Prop := {
  d_slots : slots_ok Low High (DSlots d);
  d_lens : lens (DSlots d) = lens0;
  d_stamps S : S ∈ SlotStamp (DSlots d) -> S ∈ stamps0 \/ Z.land S GenMask = Gen;
  d_nodup : NoDup D;
  d_mem a : a ∈ D <-> inw a = true /\ flag dec_bit (DSlots d) a = true;
  d_count : Decoded d = Z.of_nat (length D);
  d_cap : Decoded d <= Cap;
  d_lead_nodup : NoDup (Leaders d);
  d_lead a : a ∈ Leaders d <-> inw a = true /\ flag lead_bit (DSlots d) a = true;
  d_head : exists Ls, Leaders d = PC :: Ls;
  d_room : (length (Leaders d) <= room)%nat;
  d_ok a : a ∈ D -> decoded_ok (DSlots d) a;
  d_stop a : inw a = true -> flag stop_bit (DSlots d) a = true -> flag dec_bit (DSlots d) a = true;
  d_cache : cache_ok executable (Cache d) }.

Lemma dinv_pop d D w : dinv d D -> dinv (pop d w) D.
Proof. by intros []; split. Qed.

Lemma dinv_cache d D c : dinv d D -> cache_ok executable c -> dinv (mkDisc c (DSlots d) (Leaders d) (Worklist d) (Decoded d)) D.
Proof. by intros [] Hc; split. Qed.

(** ** Following branches *)

Lemma follow_spec InstPC Ts d D :
  dinv d D -> exists d', follow Low High Gen RegionWindow MaxLeaders InstPC Ts d = Some d' /\ dinv d' D /\ budget d' = budget d /\ Decoded d' = Decoded d.
Proof.
  revert d. induction Ts as [|T Ts IH]; intros d Hd; [by exists d|]. cbn [follow].
  destruct ((_ >? RegionWindow) || negb (inw T)) eqn:Hc; [by apply IH|]. apply orb_false_iff in Hc as [_ HT%negb_false_iff].
  destruct (flags_some Low High Gen Hwin (DSlots d) T (d_slots _ _ Hd) HT) as (F & HF & Hbit). rewrite HF. cbn [mbind option_bind].
  change LeaderBit with (2 ^ lead_bit). rewrite (Hbit lead_bit) by (unfold lead_bit; lia).
  destruct (flag lead_bit (DSlots d) T || _) eqn:Hc; [by apply IH|]. apply orb_false_iff in Hc as [Hl Hn].
  destruct (set_flag_spec Low High Gen Hwin (DSlots d) T lead_bit (d_slots _ _ Hd) HT ltac:(unfold lead_bit; lia)) as (sl & Heq & Hs & Hlen & Hw & Hm & Hst & Hfl).
  rewrite Heq. cbn [mbind option_bind].
  destruct (IH (mkDisc (Cache d) sl (Leaders d ++ [T]) (T :: Worklist d) (Decoded d))) as (d' & Heq' & Hd' & Hb' & Hdec).
  - destruct Hd as [H1 H2 H3 H4 H5 H6 H7 H8 H9 H10 H11 H12 H13 H14]. split; cbn [DSlots Leaders Worklist Decoded Cache]; try done.
    + congruence.
    + intros S [HS|HS]%Hst; [by apply H3|by right].
    + intros a. rewrite H5. split; intros [Ha Hf]; (split; [done|]); rewrite Hfl in *; try done; rewrite ?Hf; try done.
      by rewrite (proj2 (Z.eqb_neq dec_bit lead_bit)), andb_false_r, orb_false_r in Hf.
    + apply NoDup_app. split; [done|]. split; [|apply NoDup_singleton]. intros x Hx ->%list_elem_of_singleton. apply H9 in Hx as [_ Hx]. congruence.
    + intros a. rewrite elem_of_app, list_elem_of_singleton, H9. split.
      * intros [[Ha Hf]| ->]; (split; [done|]); rewrite Hfl by done; [by rewrite Hf|by rewrite bool_decide_true, orb_true_r].
      * intros [Ha Hf]. rewrite Hfl in Hf by done. destruct (decide (a = T)); [by right|left]. rewrite bool_decide_false, orb_false_r in Hf by done. done.
    + destruct H10 as [Ls ->]. by exists (Ls ++ [T]).
    + rewrite length_app. cbn. unfold room in *. lia.
    + intros a Ha. destruct (H12 a Ha) as (He & Hwa & m & Hma & Hmt & Hsp). split; [done|]. unfold word_at, matcher_at. rewrite Hw, Hm. split; [done|]. exists m.
      split; [done|]. split; [done|]. rewrite Hfl by (by apply H5 in Ha as [? _]). by rewrite (proj2 (Z.eqb_neq stop_bit lead_bit)), andb_false_r, orb_false_r.
    + intros a Ha. rewrite !Hfl by done. rewrite (proj2 (Z.eqb_neq stop_bit lead_bit)), andb_false_r, orb_false_r by done. intros Hs'. by rewrite (H13 a Ha Hs').
  - exists d'. split; [done|]. split; [done|]. split; [|done]. rewrite Hb'. unfold budget. cbn. rewrite length_app. cbn. pose proof (d_room _ _ Hd). unfold room in *. lia.
Qed.

(** ** One instruction *)

(** [sl'] is [sl] with [a] recorded: its word, its matcher [m], and the stop
    flag when [st]. *)
Record recorded (sl : Slots) (a : Z) (m : option InstMatcher) (st : bool) (sl' : Slots) : Prop := {
  rec_slots : slots_ok Low High sl';
  rec_lens : lens sl' = lens sl;
  rec_stamps S : S ∈ SlotStamp sl' -> S ∈ SlotStamp sl \/ Z.land S GenMask = Gen;
  rec_flag b i : inw b = true -> flag i sl' b = flag i sl b || (bool_decide (b = a) && ((i =? dec_bit) || ((i =? stop_bit) && st)));
  rec_word b : inw b = true -> word_at sl' b = if decide (b = a) then Some (Memory a) else word_at sl b;
  rec_matcher b : inw b = true -> matcher_at sl' b = if decide (b = a) then Some m else matcher_at sl b }.

Lemma record_slots sl a :
  slots_ok Low High sl -> inw a = true ->
  exists sl1 sl2, SetWord Low a (Memory a) sl = Some sl1 /\ SetFlag Low Gen a DecodedBit sl1 = Some sl2 /\
    forall m, exists sl3, SetMatcher Low a m sl2 = Some sl3 /\ recorded sl a m false sl3 /\
      exists sl4, SetFlag Low Gen a StopBit sl3 = Some sl4 /\ recorded sl a m true sl4.
Proof.
  intros Hs Ha. destruct (set_word_spec Low High Gen Hwin sl a (Memory a) Hs Ha) as (sl1 & E1 & Hs1 & Hl1 & Ht1 & Hm1 & Hw1).
  destruct (set_flag_spec Low High Gen Hwin sl1 a dec_bit Hs1 Ha ltac:(unfold dec_bit; lia)) as (sl2 & E2 & Hs2 & Hl2 & Hw2 & Hm2 & Ht2 & Hf2).
  exists sl1, sl2. split; [done|]. split; [done|]. intros m.
  destruct (set_matcher_spec Low High Gen Hwin sl2 a m Hs2 Ha) as (sl3 & E3 & Hs3 & Hl3 & Ht3 & Hw3 & Hm3).
  assert (Hf3 : forall b i, inw b = true -> flag i sl3 b = flag i sl b || (bool_decide (b = a) && (i =? dec_bit))).
  { intros b i Hb. rewrite (flag_stamps Low High Gen Hwin sl2 sl3) by done. rewrite Hf2 by done. by rewrite (flag_stamps Low High Gen Hwin sl sl1). }
  assert (Hst3 : forall S, S ∈ SlotStamp sl3 -> S ∈ SlotStamp sl \/ Z.land S GenMask = Gen).
  { intros S. rewrite Ht3. intros [HS|HS]%Ht2; [left; by rewrite <- Ht1|by right]. }
  assert (Hwd3 : forall b, inw b = true -> word_at sl3 b = if decide (b = a) then Some (Memory a) else word_at sl b).
  { intros b Hb. unfold DecoderSlots.word_at. rewrite Hw3, Hw2. by apply Hw1. }
  assert (Hmt3 : forall b, inw b = true -> matcher_at sl3 b = if decide (b = a) then Some m else matcher_at sl b).
  { intros b Hb. rewrite Hm3 by done. destruct (decide (b = a)); [done|]. unfold DecoderSlots.matcher_at. by rewrite Hm2, Hm1. }
  destruct (set_flag_spec Low High Gen Hwin sl3 a stop_bit Hs3 Ha ltac:(unfold stop_bit; lia)) as (sl4 & E4 & Hs4 & Hl4 & Hw4 & Hm4 & Ht4 & Hf4).
  exists sl3. split; [done|]. split.
  - split; try done; [congruence|]. intros b i Hb. by rewrite Hf3, andb_false_r, orb_false_r.
  - exists sl4. split; [done|]. split; [done|congruence| | | |].
    + intros S [HS|HS]%Ht4; [by apply Hst3|by right].
    + intros b i Hb. rewrite Hf4, Hf3, andb_true_r by done. destruct (bool_decide (b = a)); cbn; [|by rewrite !orb_false_r]. by rewrite orb_assoc.
    + intros b Hb. rewrite <- Hwd3 by done. unfold DecoderSlots.word_at. by rewrite Hw4.
    + intros b Hb. rewrite <- Hmt3 by done. unfold DecoderSlots.matcher_at. by rewrite Hm4.
Qed.

Lemma dinv_record d D a m sl c :
  dinv d D -> inw a = true -> a ∉ D -> Decoded d < Cap -> cache_ok executable c -> range_executable executable a 4 -> matched a m ->
  recorded (DSlots d) a m (stops a m) sl -> dinv (mkDisc c sl (Leaders d) (Worklist d) (Decoded d + 1)) (a :: D).
Proof.
  intros [H1 H2 H3 H4 H5 H6 H7 H8 H9 H10 H11 H12 H13 H14] Ha HaD Hcap Hc Hex Hm [R1 R2 R3 R4 R5 R6].
  assert (Hnd : flag dec_bit (DSlots d) a = false) by (destruct (flag dec_bit (DSlots d) a) eqn:E; [exfalso; apply HaD, H5; done|done]).
  assert (Hns : flag stop_bit (DSlots d) a = false) by (destruct (flag stop_bit (DSlots d) a) eqn:E; [apply H13 in E; [congruence|done]|done]).
  assert (Hother : forall b i, inw b = true -> b <> a -> flag i sl b = flag i (DSlots d) b).
  { intros b i Hb Hne. rewrite R4 by done. by rewrite bool_decide_false, orb_false_r. }
  split; cbn [DSlots Leaders Worklist Decoded Cache]; try done.
  - congruence.
  - intros S [HS|HS]%R3; [by apply H3|by right].
  - by constructor.
  - intros b. rewrite elem_of_cons. destruct (decide (b = a)) as [->|Hne].
    + split; [|by left]. intros _. split; [done|]. by rewrite R4, bool_decide_true, Z.eqb_refl, orb_true_r.
    + rewrite H5. split; [intros [->|[Hb Hf]]; [done|]|intros [Hb Hf]; right]; (split; [done|]); rewrite Hother in *; done.
  - rewrite H6. cbn. lia.
  - lia.
  - intros b. rewrite H9. split; intros [Hb Hf]; (split; [done|]); rewrite R4 in *; try done; [by rewrite Hf|].
    by rewrite (proj2 (Z.eqb_neq lead_bit dec_bit)), (proj2 (Z.eqb_neq lead_bit stop_bit)), andb_false_r, orb_false_r in Hf.
  - intros b. rewrite elem_of_cons. destruct (decide (b = a)) as [->|Hne].
    + intros _. split; [done|]. rewrite R5, decide_True by done. split; [done|]. exists m. rewrite R6, decide_True by done. split; [done|]. split; [done|].
      rewrite R4, Hns, bool_decide_true by done. done.
    + intros [->|Hb]; [done|]. destruct (H12 b Hb) as (He & Hwa & m' & Hma & Hmt & Hsp). apply H5 in Hb as [Hb _]. split; [done|].
      rewrite R5, decide_False by done. split; [done|]. exists m'. rewrite R6, decide_False by done. by rewrite Hother.
  - intros b Hb. destruct (decide (b = a)) as [->|Hne]; [by rewrite (R4 a dec_bit), bool_decide_true, orb_true_r|]. rewrite !Hother by done. by apply H13.
Qed.

Lemma window_bounds a : inw a = true -> 0 <= a /\ a + 64 < 2 ^ 64.
Proof. intros [Ha _]%(in_window Low High Gen Hwin). destruct Hwin. lia. Qed.

(** The matcher of a word, with the check of a thunk's hash. *)
Lemma matcher_spec a c :
  inw a = true -> cache_ok executable c ->
  exists h c', (if Memory a =? THUNK_MARKER_WORD then CheckRangeExecutable Query c (u64 (a + INSTRUCTION_SIZE)) THUNK_HASH_SIZE else Some (true, c)) = Some (h, c') /\
    cache_ok executable c' /\ matched a (if (h : bool) then DecodeInstruction (Memory a) else None).
Proof.
  intros Ha Hc. apply window_bounds in Ha as [H0 H1]. unfold matched. destruct (Memory a =? THUNK_MARKER_WORD); [|by exists true, c].
  unfold INSTRUCTION_SIZE, THUNK_HASH_SIZE. rewrite u64_small by lia.
  destruct (check_spec Query now executable c (a + 4) 32 Hc ltac:(lia) ltac:(lia) ltac:(lia)) as (h & c' & Heq & Hc' & Hb). exists h, c'.
  split; [done|]. split; [done|]. destruct h; [by left|by right].
Qed.

Lemma decode_one_spec a d D :
  dinv d D -> Decoded d < Cap ->
  exists m d' D', decode_one a d = Some (m, d') /\ dinv d' D' /\ D ⊆ D' /\ budget d' = budget d /\ (m = true -> Decoded d' = Decoded d + 1) /\ (a = PC -> a ∈ D').
Proof.
  intros Hd Hcap. pose proof Hd as [H1 H2 H3 H4 H5 H6 H7 H8 H9 H10 H11 H12 H13 H14]. unfold Decoder.decode_one.
  destruct (inw a) eqn:Ha; cbn [negb]; [|exists false, d, D; split_and!; try done; intros ->; congruence].
  destruct (flags_some Low High Gen Hwin (DSlots d) a H1 Ha) as (F & HF & Hbit). rewrite HF. cbn [mbind option_bind].
  change DecodedBit with (2 ^ dec_bit). rewrite (Hbit dec_bit) by (unfold dec_bit; lia).
  destruct (flag dec_bit (DSlots d) a) eqn:Hdec; [exists false, d, D; split_and!; try done; intros _; by apply H5|].
  assert (HaD : a ∉ D) by (intros [_ Hf]%H5; congruence). pose proof (window_bounds a Ha) as [Ha0 Ha1].
  assert (Hex : exists b c, (if a =? PC then Some (true, Cache d) else CheckRangeExecutable Query (Cache d) a INSTRUCTION_SIZE) = Some (b, c) /\ cache_ok executable c /\
                  (if (b : bool) then range_executable executable a 4 else a <> PC)).
  { destruct (Z.eqb_spec a PC) as [->|Hne]; [by exists true, (Cache d)|]. unfold INSTRUCTION_SIZE.
    destruct (check_spec Query now executable (Cache d) a 4 H14 ltac:(lia) ltac:(lia) ltac:(lia)) as (b & c & Heq & Hc & Hb). exists b, c. by destruct b. }
  destruct Hex as (b & c & -> & Hc & Hb). cbn [mbind option_bind]. destruct b; cbn [negb];
    [|exists false, (mkDisc c (DSlots d) (Leaders d) (Worklist d) (Decoded d)), D; split_and!; try done; by apply dinv_cache].
  destruct (record_slots (DSlots d) a H1 Ha) as (sl1 & sl2 & E1 & E2 & Hrec). change (2 ^ dec_bit) with DecodedBit. rewrite E1. cbn [mbind option_bind]. rewrite E2. cbn [mbind option_bind].
  destruct (matcher_spec a c Ha Hc) as (h & c' & -> & Hc' & Hm). cbn [mbind option_bind]. set (m := if h then _ else None) in *.
  destruct (Hrec m) as (sl3 & E3 & R3 & sl4 & E4 & R4). rewrite E3. cbn [mbind option_bind]. rewrite E4. cbn [mbind option_bind].
  assert (Hstop : stops a m = true -> dinv (mkDisc c' sl4 (Leaders d) (Worklist d) (Decoded d + 1)) (a :: D))
    by (intros Hs; apply (dinv_record d D a m sl4 c'); try done; by rewrite Hs).
  assert (Hsub : D ⊆ a :: D) by (by apply list_subseteq_cons). assert (Hin : a = PC -> a ∈ a :: D) by (intros _; apply list_elem_of_here).
  destruct (handled m) eqn:Hh; cbn [negb].
  - destruct (EndsBlock (Memory a) ISBEndsBlock) eqn:He.
    + assert (Hs : stops a m = true) by (unfold stops; by rewrite Hh, He).
      assert (exists d', (if FollowBranches then follow Low High Gen RegionWindow MaxLeaders a (GetDirectSuccessors (Memory a) a)
        (mkDisc c' sl4 (Leaders d) (Worklist d) (Decoded d + 1)) else Some (mkDisc c' sl4 (Leaders d) (Worklist d) (Decoded d + 1))) = Some d' /\ dinv d' (a :: D) /\ budget d' = budget d) as (d' & -> & Hd' & Hb').
      { destruct FollowBranches; [|eexists; split; [done|]; split; [by apply Hstop|done]].
        destruct (follow_spec a (GetDirectSuccessors (Memory a) a) _ _ (Hstop Hs)) as (d2 & Heq & Hd2 & Hb2 & _). by exists d2. }
      cbn [mbind option_bind]. by exists false, d', (a :: D).
    + exists true, (mkDisc c' sl3 (Leaders d) (Worklist d) (Decoded d + 1)), (a :: D). split_and!; try done.
      apply (dinv_record d D a m sl3 c'); try done. unfold stops. by rewrite Hh, He.
  - exists false, (mkDisc c' sl4 (Leaders d) (Worklist d) (Decoded d + 1)), (a :: D). split_and!; try done. apply Hstop. unfold stops. by rewrite Hh.
Qed.

Lemma decode_run_spec fuel a d D :
  dinv d D -> (Z.to_nat (Cap - Decoded d) < fuel)%nat ->
  exists d' D', decode_run Low High Gen Query Memory DecodeInstruction PC Cap RegionWindow MaxLeaders FollowBranches ISBEndsBlock fuel a d = Some d' /\
    dinv d' D' /\ D ⊆ D' /\ budget d' = budget d /\ (a = PC -> Decoded d < Cap -> a ∈ D').
Proof.
  revert a d D. induction fuel as [|fuel IH]; intros a d D Hd Hf; [lia|]. cbn [decode_run]. destruct (Z.ltb_spec (Decoded d) Cap) as [Hc|Hc].
  - destruct (decode_one_spec a d D Hd Hc) as (m & d1 & D1 & Heq & Hd1 & Hsub & Hb & Hdec & Hin). rewrite Heq. cbn [mbind option_bind]. destruct m.
    + specialize (Hdec eq_refl). destruct (IH (u64 (a + INSTRUCTION_SIZE)) d1 D1 Hd1 ltac:(lia)) as (d2 & D2 & -> & Hd2 & Hsub2 & Hb2 & _).
      exists d2, D2. split_and!; try done; [by etrans|congruence|]. intros Ha _. by apply Hsub2, Hin.
    + exists d1, D1. split_and!; try done. intros Ha _. by apply Hin.
  - exists d, D. split_and!; try done. lia.
Qed.

(** ** The whole discovery *)

Lemma discover_spec fuel d D :
  dinv d D -> (budget d < fuel)%nat ->
  exists d' D', discover Low High Gen Query Memory DecodeInstruction PC Cap RegionWindow MaxLeaders FollowBranches ISBEndsBlock fuel d = Some d' /\
    dinv d' D' /\ D ⊆ D' /\ (hd_error (Worklist d) = Some PC -> Decoded d < Cap -> PC ∈ D').
Proof.
  revert d D. induction fuel as [|fuel IH]; intros d D Hd Hf; [lia|]. cbn [discover]. destruct (Worklist d) as [|a w] eqn:Hw; [by exists d, D|].
  destruct (Z.ltb_spec (Decoded d) Cap) as [Hc|Hc]; [|exists d, D; split_and!; try done; lia].
  destruct (decode_run_spec (Z.to_nat Cap + 1) a (pop d w) D (dinv_pop _ _ _ Hd)) as (d1 & D1 & Heq & Hd1 & Hsub & Hb & Hin).
  { cbn. pose proof (d_count _ _ Hd). lia. }
  rewrite Heq. cbn [mbind option_bind]. destruct (IH d1 D1 Hd1) as (d2 & D2 & -> & Hd2 & Hsub2 & _).
  { rewrite Hb. unfold budget in *. rewrite Hw in Hf. cbn in *. lia. }
  exists d2, D2. split_and!; try done; [by etrans|]. cbn. intros [= ->] _. by apply Hsub2, Hin.
Qed.

(** The state discovery starts in: no flag set but the leader's at [PC]. *)
Lemma discover_start c sl :
  slots_ok Low High sl -> lens sl = lens0 -> SlotStamp sl = stamps0 -> cache_ok executable c ->
  (forall a i, inw a = true -> flag i sl a = false) ->
  exists sl', SetFlag Low Gen PC LeaderBit sl = Some sl' /\ dinv (mkDisc c sl' [PC] [PC] 0) [] /\ (budget (mkDisc c sl' [PC] [PC] 0) < Z.to_nat MaxLeaders + 2)%nat.
Proof.
  intros Hs Hl Ht Hc Hclean. destruct (set_flag_spec Low High Gen Hwin sl PC lead_bit Hs HPC ltac:(unfold lead_bit; lia)) as (sl' & Heq & Hs' & Hl' & Hw & Hm & Hst & Hfl).
  exists sl'. split; [done|]. split; [|unfold budget, room; cbn; lia].
  assert (Hf : forall a i, inw a = true -> flag i sl' a = bool_decide (a = PC) && (i =? lead_bit)) by (intros a i Ha; by rewrite Hfl, Hclean).
  split; cbn [DSlots Leaders Worklist Decoded Cache]; try done.
  - congruence.
  - intros S HS%Hst. by rewrite <- Ht.
  - constructor.
  - intros a. split; [by intros ?%not_elem_of_nil|]. intros [Ha Hd]. rewrite Hf in Hd by done. by rewrite (proj2 (Z.eqb_neq dec_bit lead_bit)), andb_false_r in Hd.
  - lia.
  - apply NoDup_singleton.
  - intros a. rewrite list_elem_of_singleton. split.
    + intros ->. split; [done|]. by rewrite Hf, bool_decide_true.
    + intros [Ha Hd]. rewrite Hf in Hd by done. by apply andb_true_iff in Hd as [Hd%bool_decide_eq_true _].
  - by exists [].
  - unfold room. cbn. lia.
  - by intros a ?%not_elem_of_nil.
  - intros a Ha. rewrite !Hf by done. by rewrite (proj2 (Z.eqb_neq stop_bit lead_bit)), andb_false_r.
Qed.
End Discover.
