(* ===== verification/DecoderLayout.v ===== *)
(** Layout: the blocks [layout_all] makes of the discovered slots.  Blocks are
    disjoint runs of decoded instructions, so that the writes stay inside the
    instruction buffer; and the census of their predecessors. *)
From S2P Require Import Prelude A64Common Frontend Decoder DecoderSlots.
From stdpp Require Import list sorting.
Open Scope Z_scope.
Import Decoder.

(** ** Pages *)

Lemma page_of a : PageOf a = a / 4096 * 4096.
Proof.
  unfold PageOf. change (FEX_GUEST_PAGE_SIZE - 1) with (Z.ones 12). rewrite Z.ldiff_ones_r by lia.
  rewrite Z.shiftl_mul_pow2, Z.shiftr_div_pow2 by lia. done.
Qed.

(** A range shorter than a page touches the pages of its ends. *)
Lemma page_between a b x : a <= x <= b -> b < a + 4096 -> PageOf x = PageOf a \/ PageOf x = PageOf b.
Proof.
  intros Hx Hb. rewrite !page_of. pose proof (Z.div_mod a 4096). pose proof (Z.div_mod b 4096). pose proof (Z.div_mod x 4096).
  pose proof (Z.mod_pos_bound a 4096). pose proof (Z.mod_pos_bound b 4096). pose proof (Z.mod_pos_bound x 4096). lia.
Qed.

Lemma page_word a x : a mod 4 = 0 -> a <= x < a + 4 -> PageOf x = PageOf a.
Proof.
  intros Ha Hx. rewrite !page_of. pose proof (Z.div_mod a 4096). pose proof (Z.div_mod x 4096).
  pose proof (Z.mod_pos_bound a 4096). pose proof (Z.mod_pos_bound x 4096). pose proof (Z.div_mod a 4). lia.
Qed.

Lemma insert_sorted_elem V v x : x ∈ InsertSorted V v <-> x = v \/ x ∈ V.
Proof.
  induction V as [|y V IH]; cbn; [by rewrite list_elem_of_singleton, elem_of_nil; naive_solver|].
  destruct (Z.ltb_spec y v); [rewrite !elem_of_cons, IH; naive_solver|]. destruct (Z.eqb_spec y v) as [->|]; rewrite !elem_of_cons; naive_solver.
Qed.

Lemma insert_sorted_sorted V v : StronglySorted Z.lt V -> StronglySorted Z.lt (InsertSorted V v).
Proof.
  induction 1 as [|y V HV IH Hy]; cbn; [by repeat constructor|]. destruct (Z.ltb_spec y v).
  - constructor; [done|]. apply Forall_forall. intros x [->|Hx]%insert_sorted_elem; [done|]. rewrite Forall_forall in Hy. by apply Hy.
  - destruct (Z.eqb_spec y v); [by constructor|]. constructor; [by constructor|]. constructor; [lia|]. eapply Forall_impl; [exact Hy|]. cbn. lia.
Qed.

(** ** Runs *)

Definition run (L : Z) (n : nat) : list Z := (fun i => L + 4 * Z.of_nat i) <$> seq 0 n.

Lemma elem_of_run L n a : a ∈ run L n <-> exists i, (i < n)%nat /\ a = L + 4 * Z.of_nat i.
Proof. unfold run. rewrite list_elem_of_fmap. setoid_rewrite elem_of_seq. split; intros (i & H); exists i; lia. Qed.

Lemma run_snoc L n : run L (S n) = run L n ++ [L + 4 * Z.of_nat n].
Proof. unfold run. by rewrite seq_S, fmap_app. Qed.

Lemma length_run L n : length (run L n) = n.
Proof. unfold run. by rewrite length_fmap, length_seq. Qed.

Lemma nodup_run L n : NoDup (run L n).
Proof. apply NoDup_fmap_2; [intros i j; lia|apply NoDup_seq]. Qed.

Section Layout.
Context (Low High Gen : Z) (Hwin : window_ok Low High Gen) (Memory : Z -> Z) (PC : Z).
Context (sl : Slots) (D Ls : list Z).
#[local] Set Default Proof Using "Type*".

Abbreviation inw := (InWindow Low High).
Abbreviation layout_run := (layout_run Low High Gen).

(** The matcher the slot of [a] holds. *)
Definition matcher_of (a : Z) : option InstMatcher := default None (matcher_at Low sl a).
Definition stop (a : Z) : bool := flag Low Gen stop_bit sl a.
Definition inst_of (a : Z) : DecodedInst := mkInst a (Memory a) (matcher_of a).

(** The end of the bytes the translation of [a] depends on. *)
Definition foot (a : Z) : Z := if (Memory a =? THUNK_MARKER_WORD) && present (matcher_of a) then a + 36 else a + 4.

(** What discovery leaves. *)
Record found : Prop := {
  f_slots : slots_ok Low High sl;
  f_nodup : NoDup D;
  f_mem a : a ∈ D <-> inw a = true /\ flag Low Gen dec_bit sl a = true;
  f_lead a : a ∈ Ls <-> inw a = true /\ flag Low Gen lead_bit sl a = true;
  f_word a : a ∈ D -> word_at Low sl a = Some (Memory a) /\ exists m, matcher_at Low sl a = Some m;
  f_thunk a : a ∈ D -> foot a <> a + 4 -> stop a = true }.

Context (Hf : found).

(** A block of [n] instructions at [L]: decoded, not entered in the middle, and
    stopped by nothing before its end. *)
Record block_run (L : Z) (n : nat) : Prop := {
  br_in a : a ∈ run L n -> a ∈ D;
  br_lead a : a ∈ run L n -> a <> L -> a ∉ Ls;
  br_stop a : a ∈ run L n -> a + 4 <> L + 4 * Z.of_nat n -> stop a = false }.

(** Why it ends there. *)
Definition block_end (L : Z) (n : nat) : Prop :=
  let e := L + 4 * Z.of_nat n in stop (e - 4) = true \/ e ∉ D \/ e ∈ Ls.

(** The pages recorded for the instructions [W]. *)
Record pages_ok (W : list Z) (l : Layout) : Prop := {
  pg_sorted : StronglySorted Z.lt (Pages l);
  pg_last : LastPage l ∈ Pages l;
  pg_cover a x : a ∈ W -> a <= x < foot a -> PageOf x ∈ Pages l;
  pg_exact p : p ∈ Pages l -> p = PageOf PC \/ exists a x, a ∈ W /\ a <= x < foot a /\ p = PageOf x }.

Record filled (W : list Z) (l : Layout) : Prop := {
  fl_nodup : NoDup W;
  fl_in : W ⊆ D;
  fl_used : Used l = length W;
  fl_room : (length D <= length (Buffer l))%nat;
  fl_buf : take (length W) (Buffer l) = inst_of <$> W;
  fl_pages : pages_ok W l }.

(** The fields the run of a block leaves alone. *)
Definition frame (l l' : Layout) : Prop := MinAddr l' = MinAddr l /\ MaxAddr l' = MaxAddr l /\ Total l' = Total l /\ LBlocks l' = LBlocks l.

Lemma note_page_elem p l x : LastPage l ∈ Pages l -> x ∈ Pages (note_page p l) <-> x = p \/ x ∈ Pages l.
Proof.
  intros Hl. unfold note_page. destruct (Z.eqb_spec p (LastPage l)) as [->|]; cbn; [naive_solver|apply insert_sorted_elem].
Qed.

Lemma note_page_ok p l : StronglySorted Z.lt (Pages l) -> LastPage l ∈ Pages l -> StronglySorted Z.lt (Pages (note_page p l)) /\ LastPage (note_page p l) ∈ Pages (note_page p l).
Proof.
  intros Hs Hl. unfold note_page. destruct (Z.eqb_spec p (LastPage l)); cbn; [done|]. split; [by apply insert_sorted_sorted|]. apply insert_sorted_elem. by left.
Qed.

Lemma note_page_frame p l : Buffer (note_page p l) = Buffer l /\ Used (note_page p l) = Used l /\ frame l (note_page p l).
Proof. unfold note_page, frame. by destruct (negb _). Qed.

(** The pages of one more instruction. *)
Lemma pages_step W l l1 l2 a :
  pages_ok W l -> a mod 4 = 0 -> Pages l1 = Pages l -> LastPage l1 = LastPage l ->
  l2 = note_page (PageOf a) l1 \/ l2 = note_page (PageOf (foot a - 1)) (note_page (PageOf a) l1) -> (foot a <> a + 4 -> l2 = note_page (PageOf (foot a - 1)) (note_page (PageOf a) l1)) ->
  pages_ok (W ++ [a]) l2.
Proof.
  intros [H1 H2 H3 H4] Ha HP HL Hl2 Hth. rewrite <- HP in *. rewrite <- HL in H2. destruct (note_page_ok (PageOf a) l1 H1 H2) as [Hs1 Hl1].
  assert (Hfoot : a + 4 <= foot a <= a + 36) by (unfold foot; destruct (_ && _); lia).
  assert (Hin : forall p, p ∈ Pages l2 <-> p = PageOf a \/ p = PageOf (foot a - 1) \/ p ∈ Pages l1).
  { intros p. destruct (decide (foot a = a + 4)) as [Hfa|Hfa].
    - assert (PageOf (foot a - 1) = PageOf a) as Hpe by (apply page_word; [done|lia]). rewrite Hpe in *.
      destruct Hl2 as [->| ->]; rewrite ?note_page_elem by done; naive_solver.
    - rewrite (Hth Hfa), !note_page_elem by done. naive_solver. }
  split.
  - destruct Hl2 as [->| ->]; [done|]. by apply note_page_ok.
  - destruct Hl2 as [->| ->]; [done|]. by apply note_page_ok.
  - intros b x [Hb| ->%list_elem_of_singleton]%elem_of_app Hx; apply Hin; [right; right; by apply (H3 b)|].
    destruct (page_between a (foot a - 1) x); [lia|lia|by left|by right; left].
  - intros p [->|[ ->|Hp]]%Hin.
    + right. exists a, a. split; [apply elem_of_app; right; by apply list_elem_of_singleton|]. split; [lia|done].
    + right. exists a, (foot a - 1). split; [apply elem_of_app; right; by apply list_elem_of_singleton|]. split; [lia|done].
    + destruct (H4 p Hp) as [->|(b & x & Hb & Hx & ->)]; [by left|right]. exists b, x. split; [apply elem_of_app; by left|done].
Qed.

Lemma nodup_length (A B : list Z) : NoDup A -> A ⊆ B -> (length A <= length B)%nat.
Proof. intros HA Hs. by apply submseteq_length, NoDup_submseteq. Qed.

(** One more instruction written. *)
Lemma filled_step W l l2 a :
  filled W l -> a ∈ D -> a ∉ W -> Buffer l2 = <[length W := inst_of a]> (Buffer l) -> Used l2 = S (Used l) -> pages_ok (W ++ [a]) l2 -> filled (W ++ [a]) l2.
Proof.
  intros [H1 H2 H3 H4 H5 H6] Ha HW HB HU HP. assert (Hnd : NoDup (W ++ [a])).
  { apply NoDup_app. split; [done|]. split; [|apply NoDup_singleton]. by intros x Hx ->%list_elem_of_singleton. }
  assert (Hsub : W ++ [a] ⊆ D) by (intros x [Hx| ->%list_elem_of_singleton]%elem_of_app; [by apply H2|done]).
  pose proof (nodup_length _ _ Hnd Hsub) as Hlen. rewrite length_app in Hlen. cbn in Hlen. split; try done.
  - rewrite HU, H3, length_app. cbn. lia.
  - by rewrite HB, length_insert.
  - rewrite length_app, HB. cbn [length]. rewrite Nat.add_1_r, fmap_app. rewrite (take_S_r _ _ (inst_of a)); [|apply list_lookup_insert_eq; lia].
    rewrite take_insert_ge by lia. by rewrite H5.
Qed.

(** The instruction at [a] written and its pages noted. *)
Lemma write_step W l a :
  filled W l -> a ∈ D -> a ∉ W -> a mod 4 = 0 ->
  let l1 := mkLayout (<[Used l := inst_of a]> (Buffer l)) (S (Used l)) (LastPage l) (Pages l) (MinAddr l) (MaxAddr l) (Total l) (LBlocks l) in
  exists l2, (if (Memory a =? THUNK_MARKER_WORD) && present (matcher_of a) then (a + 4 + 32, note_page (PageOf (a + 4 + 32 - 1)) (note_page (PageOf a) l1))
              else (a + 4, note_page (PageOf a) l1)) = (foot a, l2) /\ filled (W ++ [a]) l2 /\ frame l l2.
Proof.
  intros Hfill Ha HW Ha4 l1. pose proof (fl_used _ _ Hfill) as Hu. destruct (note_page_frame (PageOf a) l1) as (HB & HU & HF).
  assert (HB1 : Buffer l1 = <[length W := inst_of a]> (Buffer l)) by (cbn; by rewrite Hu).
  destruct ((Memory a =? THUNK_MARKER_WORD) && present (matcher_of a)) eqn:Hth; eexists; (split; [unfold foot; rewrite Hth; f_equal; lia|]).
  - destruct (note_page_frame (PageOf (a + 4 + 32 - 1)) (note_page (PageOf a) l1)) as (HB2 & HU2 & HF2).
    split; [|destruct HF as (F1 & F2 & F3 & F4), HF2 as (F5 & F6 & F7 & F8); split_and!; etrans; done].
    apply (filled_step W l); try done; [by rewrite HB2, HB|by rewrite HU2, HU|].
    assert (Hft : foot a - 1 = a + 4 + 32 - 1) by (unfold foot; rewrite Hth; lia).
    apply (pages_step W l l1 _ a (fl_pages _ _ Hfill)); try done; rewrite Hft; [by right|done].
  - split; [|done]. apply (filled_step W l); try done; [by rewrite HB|].
    apply (pages_step W l l1 _ a (fl_pages _ _ Hfill)); try done; [by left|]. unfold foot. by rewrite Hth.
Qed.

(** The block of [L] has [n] instructions so far and goes on. *)
Record running (L : Z) (W0 : list Z) (n : nat) (B : DecodedBlocks) (l : Layout) : Prop := {
  run_so_far a : a ∈ run L n -> a ∈ D /\ (a <> L -> a ∉ Ls) /\ stop a = false;
  run_filled : filled (W0 ++ run L n) l;
  run_num : NumInstructions B = n;
  run_size : BSize B = 4 * Z.of_nat n }.

(** The outcome of the loop: the finished block of [n'] instructions. *)
Definition run_result (L : Z) (W0 : list Z) (n : nat) (End : Z) (B : DecodedBlocks) (l : Layout) (r : option (DecodedBlocks * Z * Layout)) : Prop :=
  exists n' End' l', r = Some (mkBlock (BEntry B) (4 * Z.of_nat n') n' (DecodedInstructions B) (BlockStatus B) (IsEntryPoint B) (PredCount B) (SolePredEntry B), End', l') /\
    (n <= n')%nat /\ (0 < n')%nat /\ block_run L n' /\ block_end L n' /\ filled (W0 ++ run L n') l' /\ frame l l' /\
    (End' = if (n <? n')%nat then foot (L + 4 * Z.of_nat n' - 4) else End).

(** A run is shorter than the window. *)
Lemma running_short L W0 n B l : L ∈ D -> running L W0 n B l -> (n < length (SlotStamp sl) + 2)%nat.
Proof.
  intros HL [Hrun _ _ _]. destruct n as [|n]; [lia|]. destruct (Hrun (L + 4 * Z.of_nat n)) as [Hin _]; [apply elem_of_run; exists n; lia|].
  apply (f_mem Hf) in Hin as [[Hw _]%(in_window Low High Gen Hwin) _]. apply (f_mem Hf) in HL as [[Hw' _]%(in_window Low High Gen Hwin) _].
  pose proof (stamps_len _ _ _ (f_slots Hf)) as Hlen. unfold slot_count in Hlen.
  pose proof (Z.div_le_mono (4 * Z.of_nat n) (High - Low) 4 ltac:(lia) ltac:(lia)) as Hd. rewrite Z.mul_comm, Z.div_mul in Hd by lia. lia.
Qed.

(** The run ends before the next address. *)
Lemma run_done L W0 n End B l :
  L ∈ D -> L + 4 * Z.of_nat n ∉ D \/ (L + 4 * Z.of_nat n <> L /\ L + 4 * Z.of_nat n ∈ Ls) -> running L W0 n B l -> run_result L W0 n End B l (Some (B, End, l)).
Proof.
  intros HL Hend [Hrun Hfill HN HS]. assert (Hn : (0 < n)%nat).
  { destruct n; [|lia]. replace (L + 4 * Z.of_nat 0) with L in Hend by lia. by destruct Hend as [?|[? _]]. }
  exists n, End, l. split; [destruct B; cbn in *; congruence|]. rewrite Nat.ltb_irrefl. split_and!; try (done || lia).
  - split; intros x Hx; apply Hrun in Hx as (? & ? & ?); done.
  - right. by destruct Hend as [?|[_ ?]]; [left|right].
Qed.

(** The address after the run is not in an earlier block, and there is room. *)
Lemma run_fresh L W0 n B l (a := L + 4 * Z.of_nat n) :
  (forall k, (forall a, a ∈ run L (S k) -> a <> L -> a ∉ Ls) -> L + 4 * Z.of_nat k ∉ W0) -> a ∈ D -> (a <> L -> a ∉ Ls) -> running L W0 n B l ->
  a ∉ W0 ++ run L n /\ (Used l < length (Buffer l))%nat.
Proof.
  intros Hsep HaD HaL [Hrun [G1 G2 G3 G4 G5 G6] _ _]. assert (HaW : a ∉ W0 ++ run L n).
  { rewrite elem_of_app. intros [Hx|Hx]; [|apply elem_of_run in Hx as (i & Hi & Hx); lia]. revert Hx. apply Hsep. intros x. rewrite run_snoc.
    intros [Hx| ->%list_elem_of_singleton]%elem_of_app; [by apply Hrun|done]. }
  split; [done|]. assert (Hlen : (length ((W0 ++ run L n) ++ [a]) <= length D)%nat); [apply nodup_length|rewrite length_app in Hlen; cbn [length] in Hlen; lia].
  - apply NoDup_app. split; [done|]. split; [|apply NoDup_singleton]. by intros x Hx ->%list_elem_of_singleton.
  - intros x [Hx| ->%list_elem_of_singleton]%elem_of_app; [by apply G2|done].
Qed.

(** The instruction just written stops the run, or the run goes on. *)
Lemma run_stop L W0 n B l l2 (a := L + 4 * Z.of_nat n) :
  running L W0 n B l -> a ∈ D -> (a <> L -> a ∉ Ls) -> filled (W0 ++ run L (S n)) l2 -> frame l l2 -> stop a = true -> forall End, run_result L W0 n End B l (Some (grow B, foot a, l2)).
Proof.
  intros [Hrun _ HN HS] HaD HaL Hfill Hfr Hst End. exists (S n), (foot a), l2. split; [unfold grow; rewrite HN, HS; do 4 f_equal; unfold INSTRUCTION_SIZE; lia|].
  rewrite (proj2 (Nat.ltb_lt n (S n))) by lia. split_and!; try (done || lia).
  - split; intros x; rewrite run_snoc; (intros [Hx| ->%list_elem_of_singleton]%elem_of_app; [apply Hrun in Hx as (? & ? & ?); done|]); [done|done|lia].
  - left. by replace (L + 4 * Z.of_nat (S n) - 4) with a by lia.
  - f_equal. lia.
Qed.

Lemma run_more L W0 n B l l2 r End (a := L + 4 * Z.of_nat n) :
  frame l l2 -> run_result L W0 (S n) (foot a) (grow B) l2 r -> run_result L W0 n End B l r.
Proof.
  intros (F1 & F2 & F3 & F4) (n' & End' & l' & Heq & Hn' & Hn0' & Hbr & Hbe & Hfl' & (F5 & F6 & F7 & F8) & HE).
  exists n', End', l'. split; [exact Heq|]. rewrite (proj2 (Nat.ltb_lt n n')) by lia. split_and!; try (done || lia); [split_and!; congruence|].
  rewrite HE. destruct (Nat.ltb_spec (S n) n'); [done|]. f_equal. lia.
Qed.

Lemma layout_run_spec fuel L W0 n End B l :
  (forall k, (forall a, a ∈ run L (S k) -> a <> L -> a ∉ Ls) -> L + 4 * Z.of_nat k ∉ W0) -> L ∈ D ->
  running L W0 n B l -> (length (SlotStamp sl) + 2 <= n + fuel)%nat ->
  run_result L W0 n End B l (layout_run fuel sl L (L + 4 * Z.of_nat n) End B l).
Proof.
  intros Hsep HL. revert n End B l. induction fuel as [|fuel IH]; intros n End B l Hrun Hfuel; [pose proof (running_short _ _ _ _ _ HL Hrun); lia|].
  set (a := L + 4 * Z.of_nat n). cbn [Decoder.layout_run].
  destruct (inw a) eqn:Ha; [|apply run_done; [done|left; intros [? _]%(f_mem Hf); subst a; congruence|done]].
  destruct (flags_some Low High Gen Hwin sl a (f_slots Hf) Ha) as (F & HF & Hbit). rewrite HF. cbn [mbind option_bind].
  change DecodedBit with (2 ^ dec_bit). change LeaderBit with (2 ^ lead_bit). change StopBit with (2 ^ stop_bit).
  rewrite !Hbit by (unfold dec_bit, lead_bit, stop_bit; lia). fold (stop a).
  destruct (negb (flag Low Gen dec_bit sl a) || (negb (a =? L) && flag Low Gen lead_bit sl a)) eqn:Hc.
  { apply run_done; [done| |done]. apply orb_true_iff in Hc as [Hc%negb_true_iff|[Hne%negb_true_iff Hc]%andb_true_iff].
    - left. intros [_ ?]%(f_mem Hf). subst a. congruence.
    - right. split; [subst a; lia|]. by apply (f_lead Hf). }
  apply orb_false_iff in Hc as [Hdec%negb_false_iff Hlead]. assert (HaD : a ∈ D) by (by apply (f_mem Hf)).
  assert (HaL : a <> L -> a ∉ Ls) by (intros Hne [_ Hl]%(f_lead Hf); rewrite Hl, andb_true_r in Hlead; lia).
  destruct (f_word Hf a HaD) as (Hword & m & Hm). unfold word_at, matcher_at in *. rewrite Hword. cbn [mbind option_bind]. rewrite Hm. cbn [mbind option_bind].
  assert (Hmo : matcher_of a = m) by (unfold matcher_of, matcher_at; by rewrite Hm). destruct (run_fresh L W0 n B l Hsep HaD HaL Hrun) as [HaW Hused].
  rewrite store_in_range by done. cbn [mbind option_bind].
  pose proof Ha as [Hawin Ha4]%(in_window Low High Gen Hwin). pose proof (win_low _ _ _ Hwin). pose proof (win_top _ _ _ Hwin).
  unfold INSTRUCTION_SIZE, THUNK_HASH_SIZE. rewrite (u64_small (a + 4)), (u64_small (a + 4 + 32)), (u64_small (a + 4 + 32 - 1)) by lia.
  destruct (write_step (W0 ++ run L n) l a (run_filled _ _ _ _ _ Hrun) HaD HaW Ha4) as (l2 & Heq2 & Hfill2 & Hfr2). unfold inst_of in Heq2. rewrite Hmo in Heq2.
  rewrite Heq2. rewrite <- app_assoc in Hfill2. unfold a in Hfill2 at 1. rewrite <- run_snoc in Hfill2.
  destruct (stop a) eqn:Hst; [by apply (run_stop L W0 n B l l2)|]. apply (run_more L W0 n B l l2); [done|].
  replace (a + 4) with (L + 4 * Z.of_nat (S n)) by lia. apply IH; [|lia]. destruct Hrun as [Hso _ HN HS]. split; [|done|cbn; lia|cbn; unfold INSTRUCTION_SIZE; lia].
  intros x. rewrite run_snoc. intros [Hx| ->%list_elem_of_singleton]%elem_of_app; [by apply Hso|done].
Qed.

(** ** Blocks *)

Definition addrs (b : DecodedBlocks) : list Z := run (BEntry b) (NumInstructions b).

Record block_ok (b : DecodedBlocks) : Prop := {
  b_lead : BEntry b ∈ Ls;
  b_some : (0 < NumInstructions b)%nat;
  b_size : BSize b = 4 * Z.of_nat (NumInstructions b);
  b_status : BlockStatus b = SUCCESS;
  b_entry : IsEntryPoint b = (BEntry b =? PC);
  b_preds : PredCount b = 0 /\ SolePredEntry b = 0;
  b_run : block_run (BEntry b) (NumInstructions b);
  b_end : block_end (BEntry b) (NumInstructions b) }.

(** All instructions written so far. *)
Definition written (l : Layout) : list Z := concat (addrs <$> LBlocks l).

Record laid (l : Layout) : Prop := {
  l_filled : filled (written l) l;
  l_blocks : Forall block_ok (LBlocks l);
  l_offset i b : LBlocks l !! i = Some b -> DecodedInstructions b = length (concat (addrs <$> take i (LBlocks l)));
  l_total : Total l = Z.of_nat (length (written l));
  l_hull : MinAddr l <= PC <= MaxAddr l /\ forall a, a ∈ written l -> MinAddr l <= a /\ foot a <= MaxAddr l }.

(** A run from another leader meets no earlier block. *)
Lemma blocks_apart Bs L :
  Forall block_ok Bs -> L ∈ Ls -> L ∉ (BEntry <$> Bs) ->
  forall k, (forall a, a ∈ run L (S k) -> a <> L -> a ∉ Ls) -> L + 4 * Z.of_nat k ∉ concat (addrs <$> Bs).
Proof.
  intros HB HL Hne k Hk. rewrite list_elem_of_In, in_concat. intros (x & Hx & Hin). apply list_elem_of_In, list_elem_of_fmap in Hx as (b & -> & Hb).
  apply list_elem_of_In, elem_of_run in Hin as (i & Hi & Heq). rewrite Forall_forall in HB. specialize (HB b Hb).
  assert (Hneq : BEntry b <> L) by (intros <-; apply Hne; by apply list_elem_of_fmap_2). destruct (decide (k <= i)%nat).
  - apply (br_lead _ _ (b_run _ HB) L); [apply elem_of_run; exists (i - k)%nat; lia|congruence|done].
  - apply (Hk (BEntry b)); [apply elem_of_run; exists (k - i)%nat; lia|done|apply HB].
Qed.

Lemma foot_ge a : a + 4 <= foot a.
Proof. unfold foot. destruct (_ && _); lia. Qed.

(** Inside a block only the last instruction has a hash behind it. *)
Lemma block_foot L n a : block_run L n -> (0 < n)%nat -> a ∈ run L n -> L <= a /\ foot a <= foot (L + 4 * Z.of_nat n - 4).
Proof.
  intros Hb Hn Ha. pose proof (br_in _ _ Hb a Ha) as HaD. pose proof (br_stop _ _ Hb a Ha) as Hs. apply elem_of_run in Ha as (i & Hi & Heq). split; [lia|].
  destruct (decide (a + 4 = L + 4 * Z.of_nat n)) as [He|He]; [replace (L + 4 * Z.of_nat n - 4) with a by lia; lia|].
  specialize (Hs He). destruct (decide (foot a = a + 4)) as [->|Hf4]; [pose proof (foot_ge (L + 4 * Z.of_nat n - 4)); lia|].
  pose proof (f_thunk Hf a HaD Hf4). congruence.
Qed.

Lemma layout_block_spec L l :
  laid l -> L ∈ Ls -> L ∉ (BEntry <$> LBlocks l) ->
  exists l', layout_block Low High Gen PC sl L l = Some l' /\ laid l' /\
    (BEntry <$> LBlocks l') = (BEntry <$> LBlocks l) ++ (if decide (L ∈ D) then [L] else []).
Proof.
  intros [H1 H2 H3 H4 H5] HL Hnew. pose proof (proj1 (f_lead Hf L) HL) as [Hw _].
  destruct (flags_some Low High Gen Hwin sl L (f_slots Hf) Hw) as (F & HF & Hbit). unfold layout_block. rewrite HF. cbn [mbind option_bind].
  change DecodedBit with (2 ^ dec_bit). rewrite Hbit by (unfold dec_bit; lia). destruct (flag Low Gen dec_bit sl L) eqn:Hd; cbn [negb].
  - assert (HLD : L ∈ D) by (by apply (f_mem Hf)). rewrite decide_True by done.
    destruct (layout_run_spec (length (SlotStamp sl) + 2) L (written l) 0 L (mkBlock L 0 0 (Used l) SUCCESS (L =? PC) 0 0) l) as (n & E & l' & Heq & _ & Hn & Hbr & Hbe & Hfl & (F1 & F2 & F3 & F4) & HE).
    + by apply blocks_apart.
    + done.
    + split; [by intros a ?%elem_of_nil| |done|done]. cbn [run seq fmap list_fmap]. by rewrite app_nil_r.
    + lia.
    + replace (L + 4 * Z.of_nat 0) with L in Heq by lia. rewrite Heq. cbn [mbind option_bind]. eexists. split; [reflexivity|].
      rewrite (proj2 (Nat.ltb_lt 0 n)) in HE by done. cbn [BEntry DecodedInstructions BlockStatus IsEntryPoint PredCount SolePredEntry NumInstructions].
      set (b := mkBlock L (4 * Z.of_nat n) n (Used l) SUCCESS (L =? PC) 0 0). set (l2 := mkLayout _ _ _ _ _ _ _ _).
      assert (HW : written l2 = written l ++ run L n).
      { unfold written. cbn [l2 LBlocks]. rewrite F4, fmap_app, concat_app. cbn. by rewrite app_nil_r. }
      split; [|cbn [l2 LBlocks]; by rewrite F4, fmap_app].
      split.
      * rewrite HW. destruct Hfl as [G1 G2 G3 G4 G5 [G6 G7 G8 G9]]. by split.
      * cbn [l2 LBlocks]. rewrite F4. apply Forall_app. split; [done|]. constructor; [|constructor]. by split.
      * cbn [l2 LBlocks]. rewrite F4. intros i b' Hi. apply lookup_app_Some in Hi as [Hi|[Hi Hb']].
        -- rewrite take_app_le by (apply lookup_lt_Some in Hi; lia). by apply H3.
        -- apply list_lookup_singleton_Some in Hb' as [Hz <-]. rewrite take_app_le, firstn_all2 by lia. cbn. apply (fl_used _ _ H1).
      * rewrite HW, length_app, length_run. cbn [l2 Total]. rewrite F3, H4. lia.
      * destruct H5 as [Hpc Hall]. cbn [l2 MinAddr MaxAddr]. rewrite F1, F2, HE. split; [lia|]. intros a. rewrite HW. intros [Ha|Ha]%elem_of_app.
        -- specialize (Hall a Ha). lia.
        -- destruct (block_foot L n a Hbr Hn Ha). lia.
  - exists l. split; [done|]. rewrite decide_False by (intros [_ ?]%(f_mem Hf); congruence). by rewrite app_nil_r.
Qed.

Lemma layout_all_spec Lst l :
  laid l -> Lst ⊆ Ls -> NoDup ((BEntry <$> LBlocks l) ++ Lst) ->
  exists l', layout_all Low High Gen PC sl Lst l = Some l' /\ laid l' /\ (BEntry <$> LBlocks l') = (BEntry <$> LBlocks l) ++ filter (fun a => a ∈ D) Lst.
Proof.
  revert l. induction Lst as [|L Lst IH]; intros l Hl Hsub Hnd; [exists l; by rewrite app_nil_r|]. cbn [layout_all].
  apply NoDup_app in Hnd as (Hnd1 & Hnd2 & Hnd3). apply NoDup_cons in Hnd3 as [HLn Hnd3].
  destruct (layout_block_spec L l Hl) as (l1 & -> & Hl1 & He1); [apply Hsub, list_elem_of_here|intros H; by apply (Hnd2 L H), list_elem_of_here|].
  cbn [mbind option_bind]. destruct (IH l1 Hl1) as (l2 & -> & Hl2 & He2).
  - intros x Hx. by apply Hsub, list_elem_of_further.
  - rewrite He1. apply NoDup_app. split; [|split; [|done]].
    + apply NoDup_app. split; [done|]. destruct (decide (L ∈ D)); [|split; [by intros x _ ?%elem_of_nil|constructor]].
      split; [intros x Hx ->%list_elem_of_singleton; by apply (Hnd2 L Hx), list_elem_of_here|apply NoDup_singleton].
    + intros x [Hx|Hx]%elem_of_app Hx'; [by apply (Hnd2 x Hx), list_elem_of_further|]. destruct (decide (L ∈ D)); [|by apply elem_of_nil in Hx].
      apply list_elem_of_singleton in Hx as ->. done.
  - exists l2. split; [done|]. split; [done|]. rewrite He2, He1, <- app_assoc. f_equal. rewrite filter_cons. by destruct (decide (L ∈ D)).
Qed.

(** Where the instructions of a block are. *)
Lemma laid_lookup l i b j :
  laid l -> LBlocks l !! i = Some b -> (j < NumInstructions b)%nat -> Buffer l !! (DecodedInstructions b + j)%nat = Some (inst_of (BEntry b + 4 * Z.of_nat j)).
Proof.
  intros [H1 _ H3 _ _] Hi Hj. rewrite (H3 i b Hi).
  assert (HW : written l = concat (addrs <$> take i (LBlocks l)) ++ addrs b ++ concat (addrs <$> drop (S i) (LBlocks l))).
  { unfold written. rewrite <- (take_drop_middle (LBlocks l) i b Hi) at 1. by rewrite fmap_app, concat_app. }
  set (k := length (concat (addrs <$> take i (LBlocks l)))) in *.
  assert (Hlook : written l !! (k + j)%nat = Some (BEntry b + 4 * Z.of_nat j)).
  { rewrite HW, lookup_app_r by lia. replace (k + j - length (concat (addrs <$> take i (LBlocks l))))%nat with j by lia.
    rewrite lookup_app_l by (unfold addrs; by rewrite length_run). unfold addrs, run. by rewrite list_lookup_fmap, lookup_seq_lt. }
  rewrite <- (lookup_take_lt _ (length (written l))) by (by apply lookup_lt_Some in Hlook). by rewrite (fl_buf _ _ H1), list_lookup_fmap, Hlook.
Qed.

Lemma laid_start buf :
  (length D <= length buf)%nat -> laid (mkLayout buf 0 (PageOf PC) [PageOf PC] PC PC 0 []).
Proof.
  intros Hb. split; cbn; try done.
  - split; cbn; try done; [constructor|by intros x ?%elem_of_nil|]. split; cbn; [by repeat constructor|apply list_elem_of_here|by intros a x ?%elem_of_nil|].
    intros p ->%list_elem_of_singleton. by left.
  - split; [lia|]. by intros a ?%elem_of_nil.
Qed.
End Layout.

(** ** The census of predecessors

    Each block ends up with the number of edges to it (up to two) and, when there
    is one, its source. *)

(** One more predecessor. *)
Definition bump (From : Z) (To : DecodedBlocks) : DecodedBlocks :=
  let n := if PredCount To <? 2 then PredCount To + 1 else PredCount To in
  mkBlock (BEntry To) (BSize To) (NumInstructions To) (DecodedInstructions To) (BlockStatus To) (IsEntryPoint To) n (if n =? 1 then From else 0).

Definition arrive (To : DecodedBlocks) (e : Z * Z) : DecodedBlocks := if BEntry To =? e.2 then bump e.1 To else To.

Lemma arrive_entry To e : BEntry (arrive To e) = BEntry To.
Proof. unfold arrive. by destruct (_ =? _). Qed.

Lemma note_pred_map T f Bs : NoDup (BEntry <$> Bs) -> note_pred T f Bs = (fun To => arrive To (f, T)) <$> Bs.
Proof.
  induction Bs as [|b Bs IH]; intros Hnd; [done|]. cbn in Hnd. apply NoDup_cons in Hnd as [Hb Hnd]. cbn. unfold arrive at 1. cbn. destruct (Z.eqb_spec (BEntry b) T) as [<-|Hne]; cbn [negb].
  - f_equal. clear IH Hnd. induction Bs as [|c Bs IH]; [done|]. cbn in *. apply not_elem_of_cons in Hb as [Hc Hb]. unfold arrive at 1. cbn.
    rewrite (proj2 (Z.eqb_neq _ _)) by congruence. f_equal. by apply IH.
  - f_equal. by apply IH.
Qed.

Lemma arrive_entries E (Bs : list DecodedBlocks) : (BEntry <$> ((fun To => foldl arrive To E) <$> Bs)) = (BEntry <$> Bs).
Proof.
  rewrite <- list_fmap_compose. apply list_fmap_ext. intros i b _. cbn. revert b. induction E as [|e E IH]; intros b; [done|]. cbn. by rewrite IH, arrive_entry.
Qed.

Lemma note_preds_map f Ts Bs :
  NoDup (BEntry <$> Bs) -> foldl (fun Bs T => note_pred T f Bs) Bs Ts = (fun To => foldl arrive To (pair f <$> Ts)) <$> Bs.
Proof.
  revert Bs. induction Ts as [|T Ts IH]; intros Bs Hnd; [cbn; by rewrite list_fmap_id|]. cbn [foldl fmap list_fmap]. rewrite note_pred_map by done. rewrite IH.
  - by rewrite <- list_fmap_compose.
  - change (NoDup (BEntry <$> ((fun To => foldl arrive To [(f, T)]) <$> Bs))). by rewrite arrive_entries.
Qed.

(** The edges of the blocks [Froms], with the targets [targets] gives. *)
Definition all_edges (targets : DecodedBlocks -> list Z) (Froms : list DecodedBlocks) : list (Z * Z) := concat ((fun b => pair (BEntry b) <$> targets b) <$> Froms).

Lemma census_map targets buf Froms Bs :
  NoDup (BEntry <$> Bs) -> Forall (fun b => edges buf b = Some (targets b)) Froms ->
  census buf Froms Bs = Some ((fun To => foldl arrive To (all_edges targets Froms)) <$> Bs).
Proof.
  intros Hnd HF. revert Bs Hnd. induction HF as [|b Froms Hb HF IH]; intros Bs Hnd; [cbn; by rewrite list_fmap_id|]. cbn [census]. rewrite Hb. cbn [mbind option_bind].
  rewrite note_preds_map by done. rewrite IH by (by rewrite arrive_entries). f_equal. rewrite <- list_fmap_compose. apply list_fmap_ext. intros i c _. cbn.
  unfold all_edges. cbn. by rewrite foldl_app.
Qed.

(** The sources of the edges to [T]. *)
Definition sources (E : list (Z * Z)) (T : Z) : list Z := fst <$> filter (fun e => e.2 = T) E.

Definition with_preds (b : DecodedBlocks) (n s : Z) : DecodedBlocks :=
  mkBlock (BEntry b) (BSize b) (NumInstructions b) (DecodedInstructions b) (BlockStatus b) (IsEntryPoint b) n s.

Definition counted (E : list (Z * Z)) (b : DecodedBlocks) : DecodedBlocks :=
  with_preds b (Z.min 2 (Z.of_nat (length (sources E (BEntry b))))) (match sources E (BEntry b) with [f] => f | _ => 0 end).

Lemma arrive_counted E b : PredCount b = 0 -> SolePredEntry b = 0 -> foldl arrive b E = counted E b.
Proof.
  intros H1 H2. induction E as [|[f T] E IH] using rev_ind; [destruct b; cbn in *; unfold counted, with_preds; cbn; by subst|].
  rewrite foldl_app, IH. cbn [foldl]. unfold arrive. change (BEntry (counted E b)) with (BEntry b). cbn [snd fst].
  assert (HS : sources (E ++ [(f, T)]) (BEntry b) = sources E (BEntry b) ++ (if decide (T = BEntry b) then [f] else [])).
  { unfold sources. rewrite filter_app, fmap_app, filter_cons. cbn. by destruct (decide (T = BEntry b)). }
  unfold counted. rewrite HS. destruct (Z.eqb_spec (BEntry b) T) as [<-|Hne].
  - rewrite decide_True by done. rewrite length_app. unfold bump, counted, with_preds. cbn. destruct (sources E (BEntry b)) as [|x [|y l]]; cbn; [done|done|].
    replace (2 `min` Z.of_nat (S (S (length l)))) with 2 by lia. replace (2 `min` Z.of_nat (S (S (length l + 1)))) with 2 by lia. done.
  - rewrite decide_False by congruence. by rewrite app_nil_r.
Qed.
