(* ===== verification/DecoderSpec.v ===== *)
(** The compile unit [DecodeInstructionsAtEntry] produces: its blocks, the
    memory it depends on and the census, from any state earlier compiles leave;
    the same over the memory tracker; and the reuse of stamps after 2^29
    compiles. *)
From S2P Require Import Prelude A64Common Frontend VMA VMASpec VMAOps VMACorrect Decoder DecoderSlots DecoderDiscover DecoderLayout.
From stdpp Require Import list sorting gmap.
Open Scope Z_scope.
Import Decoder.

(** ** Preparing the slots *)

Lemma gen_mask g : 0 <= g < 2 ^ 29 -> Z.land g GenMask = g.
Proof. intros Hg. change GenMask with (Z.ones 29). rewrite land_wrap by lia. by apply wrap_small. Qed.

Lemma length_resize {A} n (x : A) l : length (resize n x l) = Nat.max n (length l).
Proof. unfold resize. rewrite length_app, length_replicate. lia. Qed.

(** Stamps of earlier compiles, and as many words and matchers. *)
Definition stamps_below (g : Z) (sl : Slots) : Prop := forall S, S ∈ SlotStamp sl -> Z.land S GenMask < g.
Definition lens_ok (sl : Slots) : Prop := (length (SlotStamp sl) <= length (SlotWord sl))%nat /\ (length (SlotStamp sl) <= length (SlotMatcher sl))%nat.

Lemma prepare_spec N sl g :
  0 <= g -> g + 1 < 2 ^ 29 -> stamps_below (g + 1) sl -> lens_ok sl ->
  let '(sl', g') := prepare N sl g in 1 <= g' <= g + 1 /\ stamps_below g' sl' /\ lens_ok sl' /\ (N <= length (SlotStamp sl'))%nat.
Proof.
  intros Hg0 Hg Hst [Hw Hm]. assert (Hu : forall z, 0 <= z < 2 ^ 32 -> u32 z = z) by (intros z Hz; by apply wrap_small). unfold prepare.
  destruct (Nat.ltb_spec (length (SlotStamp sl)) N) as [HN|HN].
  - rewrite Hu by lia. cbn [Z.add Z.eqb]. split; [lia|]. split; [intros S (-> & _)%elem_of_replicate; done|]. unfold lens_ok. cbn. rewrite !length_resize, length_replicate. lia.
  - rewrite Hu by lia. rewrite (proj2 (Z.eqb_neq (g + 1) 0)) by lia. split; [lia|]. done.
Qed.

Lemma clean_flag Low High g sl a i :
  window_ok Low High g -> slots_ok Low High sl -> stamps_below g sl -> InWindow Low High a = true -> flag Low g i sl a = false.
Proof.
  intros Hwin Hs Hst Ha. unfold flag, Flags. pose proof (slot_lt Low High g Hwin a Ha). destruct (lookup_lt_is_Some_2 (SlotStamp sl) (SlotOf Low a)) as [S HS]; [destruct Hs; lia|].
  rewrite HS. cbn. specialize (Hst S ltac:(by eapply list_elem_of_lookup_2)). rewrite (proj2 (Z.eqb_neq _ g)) by lia. apply Z.bits_0.
Qed.

Lemma thunk_ends b : EndsBlock THUNK_MARKER_WORD b = true.
Proof. by destruct b. Qed.

Lemma cap_range cfg MaxInst : 0 <= MaxInst -> 0 <= MaxInstPerBlock cfg -> 0 < cap cfg MaxInst <= 1024.
Proof. intros H1 H2. unfold cap, DEFAULT_MAX_INSTRUCTIONS. destruct (Z.eqb_spec MaxInst 0); cbn [negb]; repeat case_match; lia. Qed.

(** ** The order of the leaders *)

Lemma sorted_lt (l : list Z) : StronglySorted Z.le l -> NoDup l -> StronglySorted Z.lt l.
Proof.
  induction 1 as [|x l Hl IH Hx]; intros Hnd; [constructor|]. apply NoDup_cons in Hnd as [Hn Hnd]. constructor; [by apply IH|].
  rewrite Forall_forall in *. intros y Hy. specialize (Hx y Hy). destruct (decide (x = y)) as [->|]; [done|lia].
Qed.

Lemma sorted_filter (P : Z -> Prop) `{forall x, Decision (P x)} (l : list Z) : StronglySorted Z.lt l -> StronglySorted Z.lt (filter P l).
Proof.
  induction 1 as [|x l Hl IH Hx]; [constructor|]. rewrite filter_cons. destruct (decide (P x)); [|done]. constructor; [done|].
  rewrite Forall_forall in *. intros y [_ Hy]%list_elem_of_filter. by apply Hx.
Qed.

Section Unit.
Context (cfg : Config) (Query : option (Z -> Z * Z)) (now executable : Z -> Prop) (HQ : ExecutableQuery Query now executable)
        (Memory : Z -> Z) (DecodeInstruction : Z -> option InstMatcher).
#[local] Set Default Proof Using "Type*".

Abbreviation decode := (DecodeInstructionsAtEntry cfg Query Memory DecodeInstruction).
Abbreviation matched := (matched now executable Memory DecodeInstruction).
Abbreviation stops := (stops Memory (SMCICache cfg)).

(** A decoder between compiles. *)
Record decoder_ok (dec : t) : Prop := {
  o_gen : 0 <= Generation dec;
  o_stamps : stamps_below (Generation dec + 1) (DecSlots dec);
  o_lens : lens_ok (DecSlots dec);
  o_cache : cache_ok executable (ExecutableRange dec) }.

(** The instruction at position [j] of block [b]. *)
Definition inst_at (buf : list DecodedInst) (b : DecodedBlocks) (j : nat) : option DecodedInst := buf !! (DecodedInstructions b + j)%nat.

(** The end of the bytes the translation of an instruction depends on. *)
Definition extent (i : DecodedInst) : Z := if (Word i =? THUNK_MARKER_WORD) && present (Matcher i) then IPC i + 36 else IPC i + 4.

(** The edges out of [b]: the direct successors of its last instruction if it
    has any, otherwise the fallthrough. *)
Definition targets (buf : list DecodedInst) (b : DecodedBlocks) : list Z :=
  match inst_at buf b (NumInstructions b - 1) with
  | Some i => match (if handled (Matcher i) then GetDirectSuccessors (Word i) (IPC i) else []) with [] => [BEntry b + BSize b] | Ts => Ts end
  | None => []
  end.

(** A unit of blocks. *)
Record unit_ok (PC Cap : Z) (buf : list DecodedInst) (i : DecodedBlockInformation) : Prop := {
  u_first : exists b Bs, Blocks i = b :: Bs /\ BEntry b = PC /\ StronglySorted Z.lt (BEntry <$> Bs);
  u_entry b : b ∈ Blocks i -> IsEntryPoint b = (BEntry b =? PC);
  u_shape b : b ∈ Blocks i -> BlockStatus b = SUCCESS /\ (0 < NumInstructions b)%nat /\ BSize b = 4 * Z.of_nat (NumInstructions b);
  u_inst b j : b ∈ Blocks i -> (j < NumInstructions b)%nat ->
    let a := BEntry b + 4 * Z.of_nat j in
    exists m, inst_at buf b j = Some (mkInst a (Memory a) m) /\ range_executable executable a 4 /\ matched a m /\ (stops a m = true -> S j = NumInstructions b);
  u_disjoint : NoDup (concat (addrs <$> Blocks i));
  u_count : TotalInstructionCount i = Z.of_nat (length (concat (addrs <$> Blocks i))) /\ TotalInstructionCount i <= Cap;
  u_pages : StronglySorted Z.lt (CodePages i);
  u_cover b j x y : b ∈ Blocks i -> (j < NumInstructions b)%nat -> inst_at buf b j = Some x -> IPC x <= y < extent x ->
    PageOf y ∈ CodePages i /\ DecodedMinAddress i <= y < DecodedMaxAddress i;
  u_exact p : p ∈ CodePages i -> p = PageOf PC \/ exists b j x y, b ∈ Blocks i /\ (j < NumInstructions b)%nat /\ inst_at buf b j = Some x /\ IPC x <= y < extent x /\ p = PageOf y;
  u_census b : b ∈ Blocks i -> let from := sources (all_edges (targets buf) (Blocks i)) (BEntry b) in
    PredCount b = Z.min 2 (Z.of_nat (length from)) /\ SolePredEntry b = match from with [f] => f | _ => 0 end;
  u_room b j : b ∈ Blocks i -> (j < NumInstructions b)%nat -> 0 <= BEntry b + 4 * Z.of_nat j /\ BEntry b + 4 * Z.of_nat j + 64 < 2 ^ 64 }.

(** ** From a layout to a unit *)

Section Laid.
Context (Low High Gen PC Cap : Z) (Hwin : window_ok Low High Gen) (sl : Slots) (D Ls : list Z) (Hf : found Low High Gen Memory sl D Ls)
        (Hdec : forall a, a ∈ D -> decoded_ok Low Gen now executable Memory DecodeInstruction (SMCICache cfg) sl a) (HD : Z.of_nat (length D) <= Cap)
        (l : Layout) (Hl : laid Low Gen Memory PC sl D Ls l).

Abbreviation inst_of := (inst_of Low Memory sl).

Lemma laid_inst b j : b ∈ LBlocks l -> (j < NumInstructions b)%nat -> inst_at (Buffer l) b j = Some (inst_of (BEntry b + 4 * Z.of_nat j)).
Proof. intros [i Hi]%list_elem_of_lookup Hj. unfold inst_at. by apply (laid_lookup Low High Gen Hwin Memory PC sl D Ls Hf l i b j). Qed.

Lemma laid_block b : b ∈ LBlocks l -> block_ok Low Gen PC sl D Ls b.
Proof. intros Hb. pose proof (l_blocks _ _ _ _ _ _ _ _ Hl) as H. rewrite Forall_forall in H. by apply H. Qed.

Lemma laid_in b j : b ∈ LBlocks l -> (j < NumInstructions b)%nat -> BEntry b + 4 * Z.of_nat j ∈ D.
Proof. intros Hb Hj. apply (br_in _ _ _ _ _ _ _ (b_run _ _ _ _ _ _ _ (laid_block b Hb))). apply elem_of_run. eauto. Qed.

Lemma laid_written a : a ∈ written l <-> exists b j, b ∈ LBlocks l /\ (j < NumInstructions b)%nat /\ a = BEntry b + 4 * Z.of_nat j.
Proof.
  unfold written. rewrite list_elem_of_In, in_concat. split.
  - intros (x & Hx & Ha). apply list_elem_of_In, list_elem_of_fmap in Hx as (b & -> & Hb). apply list_elem_of_In, elem_of_run in Ha as (j & Hj & ->). eauto.
  - intros (b & j & Hb & Hj & ->). exists (addrs b). split; [apply list_elem_of_In, list_elem_of_fmap; eauto|]. apply list_elem_of_In, elem_of_run. eauto.
Qed.

Lemma laid_edges b : b ∈ LBlocks l -> edges (Buffer l) b = Some (targets (Buffer l) b).
Proof.
  intros Hb. destruct (laid_block b Hb) as [_ Hn Hs Hst _ _ _ _]. unfold edges, targets. rewrite (proj2 (Nat.eqb_neq _ 0)) by lia.
  replace (DecodedInstructions b + NumInstructions b - 1)%nat with (DecodedInstructions b + (NumInstructions b - 1))%nat by lia.
  fold (inst_at (Buffer l) b (NumInstructions b - 1)). rewrite laid_inst by (done || lia). cbn [mbind option_bind Matcher Word IPC DecoderLayout.inst_of]. rewrite Hst. cbn [IsSuccess andb].
  pose proof (laid_in b (NumInstructions b - 1) Hb ltac:(lia)) as Hin. apply (f_mem _ _ _ _ _ _ _ Hf) in Hin as [[Hw _]%(in_window Low High Gen Hwin) _].
  pose proof (win_low _ _ _ Hwin). pose proof (win_top _ _ _ Hwin). pose proof (laid_in b 0 Hb ltac:(lia)) as Hin0. apply (f_mem _ _ _ _ _ _ _ Hf) in Hin0 as [[Hw0 _]%(in_window Low High Gen Hwin) _].
  f_equal. destruct (if handled _ then _ else _); [|done]. by rewrite u64_small by lia.
Qed.

Lemma laid_unit Es :
  (BEntry <$> LBlocks l) = PC :: Es -> NoDup (PC :: Es) -> StronglySorted Z.lt Es ->
  exists b Bs, census (Buffer l) (LBlocks l) (LBlocks l) = Some (b :: Bs) /\ unit_ok PC Cap (Buffer l) (mkInfo (Total l) (b :: Bs) [PC] (Pages l) (MinAddr l) (MaxAddr l)).
Proof.
  intros HE Hnd Hsort. set (E := all_edges (targets (Buffer l)) (LBlocks l)).
  assert (Hcen : census (Buffer l) (LBlocks l) (LBlocks l) = Some (counted E <$> LBlocks l)).
  { rewrite (census_map (targets (Buffer l))); [|by rewrite HE|apply Forall_forall; by apply laid_edges]. f_equal. apply list_fmap_ext. intros i b Hi.
    pose proof (laid_block b ltac:(by eapply list_elem_of_lookup_2)) as [_ _ _ _ _ [H1 H2] _ _]. by apply arrive_counted. }
  assert (HE' : (BEntry <$> (counted E <$> LBlocks l)) = PC :: Es) by (by rewrite <- list_fmap_compose).
  assert (Ha : concat (addrs <$> (counted E <$> LBlocks l)) = written l) by (unfold written; by rewrite <- list_fmap_compose).
  assert (HEE : all_edges (targets (Buffer l)) (counted E <$> LBlocks l) = E) by (unfold E at 2, all_edges; by rewrite <- list_fmap_compose).
  assert (Hmem : forall b, b ∈ counted E <$> LBlocks l -> exists b0, b0 ∈ LBlocks l /\ b = counted E b0) by (intros b (b0 & -> & Hb0)%list_elem_of_fmap; eauto).
  assert (Hmem2 : forall c, c ∈ LBlocks l -> counted E c ∈ counted E <$> LBlocks l) by (intros c Hc; by apply list_elem_of_fmap_2).
  pose proof Hl as [[L1 L2 L3 L4 L5 [P1 P2 P3 P4]] L6 L7 L8 [L9 L10]]. set (Bs := counted E <$> LBlocks l) in *. clearbody Bs. destruct Bs as [|b0 Bs0] eqn:HBs; [done|].
  exists b0, Bs0. split; [done|]. rewrite <- HBs in *. split; cbn [Blocks TotalInstructionCount CodePages DecodedMinAddress DecodedMaxAddress].
  - exists b0, Bs0. split; [done|]. rewrite HBs in HE'. injection HE' as Hb0 HBs0. split; [done|]. by rewrite (HBs0 : (BEntry <$> Bs0) = Es).
  - intros b (c & Hc & ->)%Hmem. apply (laid_block c Hc).
  - intros b (c & Hc & ->)%Hmem. destruct (laid_block c Hc). done.
  - intros b j (c & Hc & ->)%Hmem Hj. cbn in *. pose proof (laid_in c j Hc Hj) as Hin. destruct (Hdec _ Hin) as (Hx & _ & m & Hm & Hmat & Hst).
    exists m. unfold inst_at. cbn. fold (inst_at (Buffer l) c j). rewrite laid_inst by done. unfold DecoderLayout.inst_of, matcher_of. rewrite Hm. split_and!; try done.
    intros Hstop. rewrite Hstop in Hst. destruct (decide (S j = NumInstructions c)) as [|Hne]; [done|].
    pose proof (br_stop _ _ _ _ _ _ _ (b_run _ _ _ _ _ _ _ (laid_block c Hc)) (BEntry c + 4 * Z.of_nat j)) as Hno.
    unfold stop in Hno. rewrite Hno in Hst; [done|apply elem_of_run; eauto|lia].
  - by rewrite Ha.
  - rewrite Ha. split; [done|]. rewrite L8. pose proof (nodup_length _ _ L1 L2). lia.
  - done.
  - intros b j x y (c & Hc & ->)%Hmem Hj. cbn in Hj. unfold inst_at. cbn. fold (inst_at (Buffer l) c j). rewrite laid_inst by done. intros [= <-] Hy. cbn [IPC DecoderLayout.inst_of] in Hy.
    assert (HaW : BEntry c + 4 * Z.of_nat j ∈ written l) by (apply laid_written; eauto). split; [by apply (P3 _ y HaW)|]. destruct (L10 _ HaW) as [Hmin Hmax].
    unfold extent in Hy. cbn in Hy. fold (foot Low Memory sl (BEntry c + 4 * Z.of_nat j)) in Hy. lia.
  - intros p [->|(a & x & Hx & Hax & ->)]%P4; [by left|right]. apply laid_written in Hx as (c & j & Hc & Hj & ->).
    exists (counted E c), j, (inst_of (BEntry c + 4 * Z.of_nat j)), x. split; [by apply Hmem2|]. split; [done|]. split; [exact (laid_inst c j Hc Hj)|]. done.
  - intros b (c & Hc & ->)%Hmem. rewrite HEE. done.
  - intros b j (c & Hc & ->)%Hmem Hj. cbn in *. pose proof (laid_in c j Hc Hj) as Hin. apply (f_mem _ _ _ _ _ _ _ Hf) in Hin as [[Hwa _]%(in_window Low High Gen Hwin) _].
    destruct Hwin. lia.
Qed.
End Laid.

(** ** One compile *)

(** The window of a compile is below the end of the address space. *)
Definition entry_ok (PC : Z) : Prop := 0 <= PC /\ 0 <= RegionWindow cfg /\ PC + 4 * 1024 + RegionWindow cfg + 64 < 2 ^ 64.

Lemma dinv_found Low High Gen PC Cap ML lens0 stamps0 d D :
  dinv Low High Gen now executable Memory DecodeInstruction PC Cap ML (SMCICache cfg) lens0 stamps0 d D -> found Low High Gen Memory (DSlots d) D (Leaders d).
Proof.
  intros [H1 H2 H3 H4 H5 H6 H7 H8 H9 H10 H11 H12 H13 H14]. split; try done.
  - intros a Ha. destruct (H12 a Ha) as (_ & Hw & m & Hm & _). eauto.
  - intros a Ha. destruct (H12 a Ha) as (_ & _ & m & Hm & _ & Hst). unfold foot, matcher_of, stop. rewrite Hm. cbn. destruct (Z.eqb_spec (Memory a) THUNK_MARKER_WORD) as [Ht|]; [|done].
    intros _. rewrite Hst. unfold DecoderDiscover.stops. by rewrite Ht, thunk_ends, orb_true_r.
Qed.

(** The blocks are those of the entry and of the decoded leaders in order. *)
Lemma leaders_order PC Ls (D : list Z) :
  NoDup (PC :: Ls) -> PC ∈ D ->
  exists Es, filter (fun a => a ∈ D) (PC :: merge_sort Z.le Ls) = PC :: Es /\ NoDup (PC :: merge_sort Z.le Ls) /\ (PC :: merge_sort Z.le Ls) ⊆ PC :: Ls /\ StronglySorted Z.lt Es /\ NoDup (PC :: Es).
Proof.
  intros Hnd HPC. pose proof (merge_sort_Permutation Z.le Ls) as Hp. assert (Hp' : PC :: merge_sort Z.le Ls ≡ₚ PC :: Ls) by (by constructor).
  assert (Hnd' : NoDup (PC :: merge_sort Z.le Ls)) by (by rewrite Hp'). exists (filter (fun a => a ∈ D) (merge_sort Z.le Ls)). rewrite filter_cons_True by done.
  split; [done|]. split; [done|]. split; [intros x Hx; by rewrite <- Hp'|]. apply NoDup_cons in Hnd' as [Hn Hnd'].
  split; [apply sorted_filter, sorted_lt; [apply StronglySorted_merge_sort; [intros x y; lia|apply _]|done]|].
  constructor; [by intros [_ ?]%list_elem_of_filter|by apply NoDup_filter].
Qed.

(** The check of the entry. *)
Lemma entry_check PC dec :
  decoder_ok dec -> entry_ok PC ->
  exists b c, CheckRangeExecutable Query (ExecutableRange dec) PC INSTRUCTION_SIZE = Some (b, c) /\
    if (b : bool) then range_executable executable PC 4 else ~ range_executable now PC 4.
Proof.
  intros [_ _ _ O4] (HP0 & HR0 & HPT). unfold INSTRUCTION_SIZE.
  destruct (check_spec Query now executable (ExecutableRange dec) PC 4 O4) as (b & c & Heq & _ & Hb); [lia..|]. by exists b, c.
Qed.

Lemma decode_unit PC MaxInst dec c :
  decoder_ok dec -> Generation dec + 1 < 2 ^ 29 -> entry_ok PC -> 0 <= MaxInst -> 0 <= MaxInstPerBlock cfg ->
  PC mod 4 = 0 -> CheckRangeExecutable Query (ExecutableRange dec) PC INSTRUCTION_SIZE = Some (true, c) ->
  exists dec', decode PC MaxInst dec = Some dec' /\ decoder_ok dec' /\ Generation dec' <= Generation dec + 1 /\
    unit_ok PC (cap cfg MaxInst) (DecodedBuffer dec') (BlockInfo dec').
Proof.
  intros [O1 O2 O3 O4] HG (HP0 & HR0 & HPT) HM HMI HP4 Heq. pose proof (cap_range cfg MaxInst HM HMI) as Hcap. unfold DecodeInstructionsAtEntry.
  change (INSTRUCTION_SIZE - 1) with (Z.ones 2). rewrite land_wrap by lia. unfold wrap at 1. change (2 ^ 2) with 4. rewrite HP4. cbn [Z.eqb negb].
  assert (Hchk : cache_ok executable c /\ range_executable executable PC 4).
  { destruct (check_spec Query now executable (ExecutableRange dec) PC INSTRUCTION_SIZE O4) as (b & c' & Heq' & Hc & Hb); [unfold INSTRUCTION_SIZE; lia..|].
    rewrite Heq in Heq'. by injection Heq' as <- <-. }
  destruct Hchk as [Hc Hex]. rewrite Heq. cbn [mbind option_bind negb]. set (Cap := cap cfg MaxInst) in *. set (RW := RegionWindow cfg) in *.
  set (Low := if PC >=? RW then PC - RW else 0). unfold INSTRUCTION_SIZE. set (High := u64 (PC + Cap * 4 + RW)).
  assert (HHigh : High = PC + Cap * 4 + RW) by (apply u64_small; lia). assert (HLow : 0 <= Low <= PC) by (unfold Low; destruct (Z.geb_spec PC RW); lia).
  rewrite (u64_small (High - Low)) by lia. set (N := (Z.to_nat ((High - Low) / 4) + 1)%nat). pose proof (prepare_spec N (DecSlots dec) (Generation dec) O1 HG O2 O3) as Hprep.
  destruct (prepare N (DecSlots dec) (Generation dec)) as [sl g]. destruct Hprep as (Hg & Hst & [Hlw Hlm] & HN). rewrite (gen_mask g) by lia.
  assert (Hwin : window_ok Low High g) by (split; [lia|lia|lia|split; lia]).
  assert (HPC : InWindow Low High PC = true) by (apply (in_window Low High g Hwin); split; [lia|done]).
  assert (Hsl : slots_ok Low High sl) by (split; unfold slot_count; fold N; lia).
  destruct (discover_start Low High g Hwin Query now executable HQ Memory DecodeInstruction PC Cap (MaxLeaders cfg) (SMCICache cfg) HPC Hex ltac:(lia) (lens sl) (SlotStamp sl) c sl
              Hsl eq_refl eq_refl Hc (fun a i => clean_flag Low High g sl a i Hwin Hsl Hst)) as (sl' & -> & Hd0 & Hfuel).
  cbn [mbind option_bind]. set (FB := Multiblock cfg && _ && _).
  destruct (discover_spec Low High g Hwin Query now executable HQ Memory DecodeInstruction PC Cap RW (MaxLeaders cfg) FB (SMCICache cfg) HPC Hex ltac:(lia) _ _ _ _ _ Hd0 Hfuel)
    as (d & D & -> & Hd & _ & HPD). cbn [mbind option_bind]. specialize (HPD eq_refl ltac:(cbn; lia)). pose proof (dinv_found _ _ _ _ _ _ _ _ _ _ Hd) as Hf.
  pose proof Hd as [H1 H2 H3 H4 H5 H6 H7 H8 H9 [Ls HLs] H11 H12 H13 H14]. rewrite HLs in H8. destruct (leaders_order PC Ls D H8 HPD) as (Es & HEs & Hnd & Hsub & Hsort & HndE).
  rewrite HLs in Hf. rewrite HLs. set (buf := resize (Z.to_nat (Decoded d)) blank _).
  assert (Hbuf : (length D <= length buf)%nat) by (unfold buf; rewrite length_resize; lia).
  destruct (layout_all_spec Low High g Hwin Memory PC (DSlots d) D (PC :: Ls) Hf (PC :: merge_sort Z.le Ls) _ (laid_start Low High g Hwin Memory PC (DSlots d) D (PC :: Ls) Hf buf Hbuf) Hsub Hnd)
    as (l & -> & Hl & HlE). cbn [mbind option_bind]. cbn [LBlocks fmap list_fmap app] in HlE. rewrite HEs in HlE.
  destruct (laid_unit Low High g PC Cap Hwin (DSlots d) D (PC :: Ls) Hf H12 ltac:(lia) l Hl Es HlE HndE Hsort) as (b & Bs & -> & Hu). cbn [mbind option_bind].
  eexists. split; [reflexivity|]. split; [|split; [cbn; lia|exact Hu]]. split; cbn [Generation DecSlots ExecutableRange].
  - lia.
  - intros S [HS|HS]%H3; [specialize (Hst S HS); lia|lia].
  - unfold lens in H2. unfold lens_ok. injection H2 as HA HB HC. lia.
  - done.
Qed.

(** An entry that raises a signal: one block without bytes, and the slots are
    as before. *)
Definition fault_unit (PC : Z) (st : DecodedBlockStatus) (dec dec' : t) : Prop :=
  BlockInfo dec' = mkInfo 1 [mkBlock PC 0 1 0 st true 0 0] [PC] [PageOf PC] PC PC /\ (exists m, DecodedBuffer dec' !! 0%nat = Some (mkInst PC 0 m)) /\
  DecSlots dec' = DecSlots dec /\ Generation dec' = Generation dec.

Lemma decode_fault PC MaxInst dec :
  decoder_ok dec -> entry_ok PC -> 0 <= MaxInst -> 0 <= MaxInstPerBlock cfg -> (PC mod 4 = 0 -> exists c, CheckRangeExecutable Query (ExecutableRange dec) PC INSTRUCTION_SIZE = Some (false, c)) ->
  exists dec', decode PC MaxInst dec = Some dec' /\ decoder_ok dec' /\ fault_unit PC (if PC mod 4 =? 0 then NOEXEC_INST else UNALIGNED_PC) dec dec'.
Proof.
  intros [O1 O2 O3 O4] (HP0 & HR0 & HPT) HM HMI Hno. pose proof (cap_range cfg MaxInst HM HMI) as Hcap. unfold DecodeInstructionsAtEntry, single.
  change (INSTRUCTION_SIZE - 1) with (Z.ones 2). rewrite land_wrap by lia. unfold wrap at 1. change (2 ^ 2) with 4.
  assert (Hlen : (0 < length (resize (Z.to_nat (cap cfg MaxInst)) blank (DecodedBuffer dec)))%nat) by (rewrite length_resize; lia).
  assert (Hbuf : forall x, store 0 x (resize (Z.to_nat (cap cfg MaxInst)) blank (DecodedBuffer dec)) = Some (<[0%nat := x]> (resize (Z.to_nat (cap cfg MaxInst)) blank (DecodedBuffer dec)))) by (intros x; by apply store_in_range).
  destruct (Z.eqb_spec (PC mod 4) 0) as [H4|H4]; cbn [negb].
  - destruct (check_spec Query now executable (ExecutableRange dec) PC INSTRUCTION_SIZE O4) as (b & c & Heq & Hc & _); [unfold INSTRUCTION_SIZE; lia..|].
    destruct (Hno H4) as [c' Hf]. rewrite Heq in Hf. injection Hf as -> ->. rewrite Heq. cbn [mbind option_bind negb]. rewrite Hbuf. cbn [mbind option_bind]. eexists. split; [reflexivity|].
    split; [by split|]. split_and!; try done. eexists. by apply list_lookup_insert_eq.
  - rewrite Hbuf. cbn [mbind option_bind]. eexists. split; [reflexivity|]. split; [by split|]. split_and!; try done. eexists. by apply list_lookup_insert_eq.
Qed.
End Unit.

(** ** Histories of one thread's decoder *)

Definition initial_decoder : t := mkDecoder (0, 0) [] (mkSlots [] [] []) 0 (mkInfo 0 [] [] [] 0 0).

(** What the entry's check decides: a unit, or the block of a fault. *)
Lemma decode_any cfg Query now ex Memory DI PC MaxInst d :
  ExecutableQuery Query now ex -> decoder_ok ex d -> Generation d + 1 < 2 ^ 29 -> entry_ok cfg PC -> 0 <= MaxInst -> 0 <= MaxInstPerBlock cfg ->
  exists d', DecodeInstructionsAtEntry cfg Query Memory DI PC MaxInst d = Some d' /\ decoder_ok ex d' /\ Generation d' <= Generation d + 1 /\
    (PC mod 4 = 0 /\ range_executable ex PC 4 /\ unit_ok cfg now ex Memory DI PC (cap cfg MaxInst) (DecodedBuffer d') (BlockInfo d') \/
     (PC mod 4 = 0 -> ~ range_executable now PC 4) /\ fault_unit PC (if PC mod 4 =? 0 then NOEXEC_INST else UNALIGNED_PC) d d').
Proof.
  intros HQ Hd HG He HM HMI. destruct (entry_check cfg Query now ex HQ PC d Hd He) as (b & c & Hc & Hb).
  destruct (decide (PC mod 4 = 0)) as [H4|H4]; [destruct b|].
  - destruct (decode_unit cfg Query now ex HQ Memory DI PC MaxInst d c Hd HG He HM HMI H4 Hc) as (d' & H1 & H2 & H3 & H5). exists d'. split_and!; try done. by left.
  - destruct (decode_fault cfg Query now ex HQ Memory DI PC MaxInst d Hd He HM HMI (fun _ => ex_intro _ c Hc)) as (d' & H1 & H2 & H3).
    exists d'. split; [done|]. split; [done|]. split; [destruct H3 as (_ & _ & _ & ->); lia|]. by right.
  - destruct (decode_fault cfg Query now ex HQ Memory DI PC MaxInst d Hd He HM HMI) as (d' & H1 & H2 & H3); [done|].
    exists d'. split; [done|]. split; [done|]. split; [destruct H3 as (_ & _ & _ & ->); lia|]. by right.
Qed.

(** [history ex n d]: after [n] compiles, each with its own memory and
    configuration, the decoder is [d] and [ex] holds what was executable at some
    time since the cached range was last reset. What is executable may change
    without a reset: with SMCChecks=icache an mprotect that takes PROT_EXEC away,
    or gives it to pages that had it before, does not reach
    ResetExecutableRangeCache. *)
Inductive history : (Z -> Prop) -> nat -> t -> Prop :=
| history_start ex : history ex 0 initial_decoder
| history_remap ex ex' n d : history ex n d -> history ex' n (ResetExecutableRangeCache d)
| history_grow ex ex' n d : history ex n d -> (forall a, ex a -> ex' a) -> history ex' n d
| history_compile ex n d d' now cfg Query Memory DecodeInstruction PC MaxInst :
    history ex n d -> ExecutableQuery Query now ex -> entry_ok cfg PC -> 0 <= MaxInst -> 0 <= MaxInstPerBlock cfg ->
    DecodeInstructionsAtEntry cfg Query Memory DecodeInstruction PC MaxInst d = Some d' -> history ex (S n) d'.

Lemma decoder_ok_initial ex : decoder_ok ex initial_decoder.
Proof. split; cbn; [lia|by intros S ?%elem_of_nil|done|]. intros x Hx. cbn in Hx. lia. Qed.

Lemma history_ok ex n d : history ex n d -> Z.of_nat n < 2 ^ 29 -> decoder_ok ex d /\ Generation d <= Z.of_nat n.
Proof.
  induction 1 as [ex|ex ex' n d _ IH|ex ex' n d _ IH Hsub|ex n d d' now cfg Q M DI PC MI _ IH HQ He HM HMI Heq]; intros Hn.
  - split; [apply decoder_ok_initial|done].
  - destruct (IH Hn) as [[O1 O2 O3 O4] HG]. split; [|done]. split; try done. intros x Hx. cbn in Hx. lia.
  - destruct (IH Hn) as [[O1 O2 O3 O4] HG]. split; [|done]. split; try done. intros x Hx. by apply Hsub, O4.
  - destruct (IH ltac:(lia)) as [Hd HG]. destruct (decode_any cfg Q now ex M DI PC MI d HQ Hd ltac:(lia) He HM HMI) as (d1 & Heq1 & Hd1 & HG1 & _).
    rewrite Heq in Heq1. injection Heq1 as <-. split; [done|lia].
Qed.

(** ** What a compile produces *)

Section Compile.
Context (cfg : Config) (Query : option (Z -> Z * Z)) (now ex : Z -> Prop) (HQ : ExecutableQuery Query now ex)
        (Memory : Z -> Z) (DecodeInstruction : Z -> option InstMatcher) (PC MaxInst : Z) (n : nat) (d : t)
        (Hh : history ex n d) (Hn : Z.of_nat n + 1 < 2 ^ 29) (He : entry_ok cfg PC) (HM : 0 <= MaxInst) (HMI : 0 <= MaxInstPerBlock cfg).
#[local] Set Default Proof Using "Type*".

Abbreviation result := (DecodeInstructionsAtEntry cfg Query Memory DecodeInstruction PC MaxInst d).

Lemma compile_any :
  exists d', result = Some d' /\ history ex (S n) d' /\
    (PC mod 4 = 0 /\ range_executable ex PC 4 /\ unit_ok cfg now ex Memory DecodeInstruction PC (cap cfg MaxInst) (DecodedBuffer d') (BlockInfo d') \/
     (PC mod 4 = 0 -> ~ range_executable now PC 4) /\ fault_unit PC (if PC mod 4 =? 0 then NOEXEC_INST else UNALIGNED_PC) d d').
Proof.
  destruct (history_ok ex n d Hh ltac:(lia)) as [Hd HG].
  destruct (decode_any cfg Query now ex Memory DecodeInstruction PC MaxInst d HQ Hd ltac:(lia) He HM HMI) as (d' & Heq & _ & _ & Hu).
  exists d'. split; [done|]. split; [|done]. by apply (history_compile ex n d d' now cfg Query Memory DecodeInstruction PC MaxInst).
Qed.

Lemma compile_unit :
  PC mod 4 = 0 -> range_executable now PC 4 ->
  exists d', result = Some d' /\ history ex (S n) d' /\ unit_ok cfg now ex Memory DecodeInstruction PC (cap cfg MaxInst) (DecodedBuffer d') (BlockInfo d').
Proof.
  intros H4 Hex. destruct compile_any as (d' & Heq & Hh' & [(_ & _ & Hu)|[Hno _]]); [by exists d'|]. by destruct (Hno H4).
Qed.

(** C12. Up to 2^29 compiles into the life of a thread's decoder, a compile at an
    aligned and executable entry that keeps away from the top of the address
    space ([entry_ok]) returns: its loops end and no vector is
    accessed out of range.  The unit starts with the entry's block, the others
    follow in address order; the blocks are disjoint runs of consecutive words
    read from memory that is executable or was since the cached range was last
    reset ([ex]), each with its own matcher, only the last
    instruction of a block ends it, and there are at most [Cap] instructions. *)
Theorem decode_blocks :
  PC mod 4 = 0 -> range_executable now PC 4 ->
  exists d', result = Some d' /\ history ex (S n) d' /\ let Bs := Blocks (BlockInfo d') in
    (exists b Rest, Bs = b :: Rest /\ BEntry b = PC /\ StronglySorted Z.lt (BEntry <$> Rest)) /\
    (forall b, b ∈ Bs -> BlockStatus b = SUCCESS /\ IsEntryPoint b = (BEntry b =? PC) /\ (0 < NumInstructions b)%nat /\ BSize b = 4 * Z.of_nat (NumInstructions b)) /\
    (forall b j, b ∈ Bs -> (j < NumInstructions b)%nat -> let a := BEntry b + 4 * Z.of_nat j in
       exists m, inst_at (DecodedBuffer d') b j = Some (mkInst a (Memory a) m) /\ range_executable ex a 4 /\ matched now ex Memory DecodeInstruction a m /\
         (negb (handled m) || EndsBlock (Memory a) (SMCICache cfg) = true -> S j = NumInstructions b)) /\
    NoDup (concat (addrs <$> Bs)) /\
    TotalInstructionCount (BlockInfo d') = Z.of_nat (length (concat (addrs <$> Bs))) /\ TotalInstructionCount (BlockInfo d') <= cap cfg MaxInst.
Proof.
  intros H4 Hex. destruct (compile_unit H4 Hex) as (d' & Heq & Hh' & [U1 U2 U3 U4 U5 [U6 U7] _ _ _ _ _]).
  exists d'. split; [done|]. split; [done|]. split_and!; try done. intros b Hb. destruct (U3 b Hb) as (A & B & C). split_and!; try done. by apply U2.
Qed.

(** C14. The footprint of a unit: CodePages is strictly sorted, has the page of
    every byte of every instruction and of the hash behind a thunk marker, and
    only those and the entry's; the decoded range encloses those bytes. *)
Theorem decode_footprint :
  PC mod 4 = 0 -> range_executable now PC 4 ->
  exists d', result = Some d' /\ let i := BlockInfo d' in
    StronglySorted Z.lt (CodePages i) /\
    (forall b j x y, b ∈ Blocks i -> (j < NumInstructions b)%nat -> inst_at (DecodedBuffer d') b j = Some x -> IPC x <= y < extent x ->
       PageOf y ∈ CodePages i /\ DecodedMinAddress i <= y < DecodedMaxAddress i) /\
    (forall p, p ∈ CodePages i -> p = PageOf PC \/
       exists b j x y, b ∈ Blocks i /\ (j < NumInstructions b)%nat /\ inst_at (DecodedBuffer d') b j = Some x /\ IPC x <= y < extent x /\ p = PageOf y).
Proof.
  intros H4 Hex. destruct (compile_unit H4 Hex) as (d' & Heq & _ & [_ _ _ _ _ _ U1 U2 U3 _ _]). by exists d'.
Qed.

(** C15. The predecessor census is exact: PredCount is the number of edges into
    the block from blocks of the unit, up to two, and SolePredEntry the source
    when there is one.  The edges of a block are the direct successors of a
    branch at its end, and otherwise its fallthrough. *)
Theorem decode_census :
  PC mod 4 = 0 -> range_executable now PC 4 ->
  exists d', result = Some d' /\
    forall b, b ∈ Blocks (BlockInfo d') -> let from := sources (all_edges (targets (DecodedBuffer d')) (Blocks (BlockInfo d'))) (BEntry b) in
      PredCount b = Z.min 2 (Z.of_nat (length from)) /\ SolePredEntry b = match from with [f] => f | _ => 0 end.
Proof.
  intros H4 Hex. destruct (compile_unit H4 Hex) as (d' & Heq & _ & [_ _ _ _ _ _ _ _ _ U _]). by exists d'.
Qed.

(** A misaligned entry, and an aligned one that is not executable, give a
    unit of one empty block with the status the translator turns into SIGBUS or
    SIGSEGV; the slots and the generation do not change. *)
Theorem decode_faults :
  (PC mod 4 = 0 -> ~ range_executable ex PC 4) ->
  exists d', result = Some d' /\ history ex (S n) d' /\ fault_unit PC (if PC mod 4 =? 0 then NOEXEC_INST else UNALIGNED_PC) d d'.
Proof.
  intros Hno. destruct compile_any as (d' & Heq & Hh' & [(H4 & Hex & _)|[_ Hf]]); [by destruct (Hno H4)|by exists d'].
Qed.
End Compile.

(** ** Peeked words *)

Lemma add_pages_spec fuel Page End V :
  0 <= Page -> End + 4096 < 2 ^ 64 -> StronglySorted Z.lt V -> (0 < fuel)%nat -> End - Page <= 4096 * (Z.of_nat fuel - 1) ->
  exists V', add_pages fuel Page End V = Some V' /\ StronglySorted Z.lt V' /\ forall x, x ∈ V' <-> x ∈ V \/ exists j, 0 <= j /\ x = Page + 4096 * j /\ x < End.
Proof.
  revert Page V. induction fuel as [|fuel IH]; intros Page V HP HE Hs H0 Hf; [lia|]. cbn [add_pages]. destruct (Z.ltb_spec Page End) as [Hlt|Hge].
  - unfold FEX_GUEST_PAGE_SIZE. rewrite u64_small by lia.
    destruct (IH (Page + 4096) (InsertSorted V Page)) as (V' & -> & Hs' & Hin); [lia|lia|by apply insert_sorted_sorted|lia|lia|].
    exists V'. split; [done|]. split; [done|]. intros x. rewrite Hin, insert_sorted_elem. split.
    + intros [[->|Hx]|(j & Hj & -> & Hx)]; [right; exists 0; lia|by left|right; exists (j + 1); lia].
    + intros [Hx|(j & Hj & -> & Hx)]; [by left; right|]. destruct (decide (j = 0)) as [->|]; [left; left; lia|right; exists (j - 1); lia].
  - exists V. split; [done|]. split; [done|]. intros x. split; [by left|]. intros [Hx|(j & Hj & -> & Hx)]; [done|lia].
Qed.

(** The pages of a peeked range join the footprint, and nothing else does. *)
Lemma peek_footprint Start End i :
  0 <= Start < End -> End + 4096 < 2 ^ 64 -> StronglySorted Z.lt (CodePages i) ->
  exists i', AddPeekWitnessRange Start End i = Some i' /\ Blocks i' = Blocks i /\ StronglySorted Z.lt (CodePages i') /\
    (forall p, p ∈ CodePages i' <-> p ∈ CodePages i \/ exists x, Start <= x < End /\ p = PageOf x) /\
    DecodedMinAddress i' = Z.min (DecodedMinAddress i) Start /\ DecodedMaxAddress i' = Z.max (DecodedMaxAddress i) End.
Proof.
  intros HS HE Hs. unfold AddPeekWitnessRange, FEX_GUEST_PAGE_SIZE. rewrite Z.geb_leb, (proj2 (Z.leb_gt End Start)) by lia.
  pose proof (page_of Start) as HpS. pose proof (Z.div_mod Start 4096). pose proof (Z.mod_pos_bound Start 4096). pose proof (Z.div_mod (End - Start) 4096). pose proof (Z.mod_pos_bound (End - Start) 4096).
  pose proof (Z.div_pos (End - Start) 4096). pose proof (Z.div_pos Start 4096).
  destruct (add_pages_spec (Z.to_nat ((End - Start) / 4096) + 3) (PageOf Start) End (CodePages i)) as (V & -> & HsV & Hin); [lia|lia|done|lia|lia|].
  cbn [mbind option_bind]. eexists. split; [done|]. split; [done|]. split; [done|]. split; [|done]. cbn. intros p. rewrite Hin.
  assert (Heq : (exists j, 0 <= j /\ p = PageOf Start + 4096 * j /\ p < End) <-> exists x, Start <= x < End /\ p = PageOf x); [|by rewrite Heq]. split.
  - intros (j & Hj & -> & Hlt). exists (Z.max Start (PageOf Start + 4096 * j)). split; [lia|]. rewrite !page_of in *.
    destruct (Z.max_spec Start (Start / 4096 * 4096 + 4096 * j)) as [[_ ->]|[Hle ->]].
    + replace (Start / 4096 * 4096 + 4096 * j) with ((Start / 4096 + j) * 4096) by lia. by rewrite Z.div_mul by lia.
    + assert (j = 0) by lia. subst j. lia.
  - intros (x & Hx & ->). exists ((x / 4096) - (Start / 4096)). rewrite !page_of. pose proof (Z.div_le_mono Start x 4096). pose proof (Z.div_mod x 4096). pose proof (Z.mod_pos_bound x 4096). lia.
Qed.

(** ** A small program *)

(** add x0, x0, #1; cbz x0, back; b.eq over the ret; ret; a word without
    handler; a thunk marker. *)
Definition sample_memory (a : Z) : Z :=
  nth (Z.to_nat ((a - 0x10000) / 4)) [0x91000400; 0xB4FFFFE0; 0x54000060; 0xD65F03C0; 0; THUNK_MARKER_WORD] 0.
Definition sample_decode (w : Z) : option InstMatcher :=
  if w =? 0 then None else Some (mkMatcher String.EmptyString 0 0 (Some (fun _ => IR.ret true)) 0).
Definition sample_config : Config := mkConfig 0 true false 128 8.
Definition sample_query (a : Z) : Z * Z := if (0x10000 <=? a) && (a <? 0x11000) then (0x10000, 0x1000) else (0, 0).

#[export] Instance sample_contract : ExecutableQuery (Some sample_query) (fun a => 0x10000 <= a < 0x11000) (fun a => 0x10000 <= a < 0x11000).
Proof.
  split; [done|done|]. intros q a B S [= <-] Ha. unfold sample_query. destruct ((0x10000 <=? a) && (a <? 0x11000)) eqn:Hc; intros [= <- <-]; [right|left].
  - split; [lia|]. split; [lia|]. split; [lia|]. intros x Hx. lia.
  - split; [done|]. split; [lia|]. lia.
Qed.

Definition sample_unit : option t := DecodeInstructionsAtEntry sample_config (Some sample_query) sample_memory sample_decode 0x10000 0 initial_decoder.

Lemma sample_entry : entry_ok sample_config 0x10000 /\ entry_ok sample_config 0x20002.
Proof. unfold entry_ok, sample_config. cbn. lia. Qed.

Lemma sample_executable : range_executable (fun a => 0x10000 <= a < 0x11000) 0x10000 4.
Proof. intros x Hx. lia. Qed.

Lemma decode_blocks_witness : exists d', sample_unit = Some d' /\ TotalInstructionCount (BlockInfo d') <= 1024.
Proof.
  destruct (decode_blocks sample_config (Some sample_query) _ _ sample_contract sample_memory sample_decode 0x10000 0 0 initial_decoder
              (history_start _) ltac:(lia) (proj1 sample_entry) ltac:(lia) ltac:(done) eq_refl sample_executable) as (d' & Heq & _ & _ & _ & _ & _ & _ & H).
  exists d'. split; [exact Heq|exact H].
Defined.

Lemma decode_footprint_witness : exists d', sample_unit = Some d' /\ StronglySorted Z.lt (CodePages (BlockInfo d')).
Proof.
  destruct (decode_footprint sample_config (Some sample_query) _ _ sample_contract sample_memory sample_decode 0x10000 0 0 initial_decoder
              (history_start _) ltac:(lia) (proj1 sample_entry) ltac:(lia) ltac:(done) eq_refl sample_executable) as (d' & Heq & H & _).
  exists d'. split; [exact Heq|exact H].
Defined.

Lemma decode_census_witness : exists d', sample_unit = Some d' /\ forall b, b ∈ Blocks (BlockInfo d') -> PredCount b <= 2.
Proof.
  destruct (decode_census sample_config (Some sample_query) _ _ sample_contract sample_memory sample_decode 0x10000 0 0 initial_decoder
              (history_start _) ltac:(lia) (proj1 sample_entry) ltac:(lia) ltac:(done) eq_refl sample_executable) as (d' & Heq & H).
  exists d'. split; [exact Heq|]. intros b Hb. destruct (H b Hb) as [-> _]. lia.
Defined.

(** The unit itself: four blocks, each with one predecessor. *)
Example sample_blocks :
  option_map (fun d => (fun b => (BEntry b, NumInstructions b, PredCount b, SolePredEntry b)) <$> Blocks (BlockInfo d)) sample_unit =
  Some [(0x10000, 2%nat, 1, 0x10000); (0x10008, 1%nat, 1, 0x10000); (0x1000C, 1%nat, 1, 0x10008); (0x10014, 1%nat, 1, 0x10008)].
Proof. vm_compute. reflexivity. Qed.

(** ** Reused stamps *)

(** The generation has 32 bits and a stamp keeps 29 of them: with a slot
    decoded by compile 1 and 2^29 compiles later, the decoder takes the word it
    read then and not the word in memory. *)
Example stale_stamp :
  let cfg := mkConfig 2 false false 0 1 in
  let d := mkDecoder (0, 0) [] (mkSlots [0; Z.lor 1 DecodedBit; 0] [0; 0xD65F03C0; 0] [None; sample_decode 0xD65F03C0; None]) (2 ^ 29) (mkInfo 0 [] [] [] 0 0) in
  option_map (fun d' => Word <$> take 2 (DecodedBuffer d')) (DecodeInstructionsAtEntry cfg None (fun _ => 0x91000400) sample_decode 0x10000 0 d) = Some [0x91000400; 0xD65F03C0].
Proof. vm_compute. reflexivity. Qed.

(** ** The memory tracker

    [QueryGuestExecutableRange] of [VMA] discharges the decoder's contract. A compile reads what the history of
    mmap, munmap and mprotect made executable, now or at some time since the cached range was last reset. *)
Import VMA.

(** The query as the decoder uses it. *)
Definition tracker_query (RIE : bool) (s : VMATracking) (a : Z) : Z * Z := let '(B, Size, _) := QueryGuestExecutableRange RIE a s in (B, Size).

(** What a history of the tracker makes executable. *)
Definition history_executes (RIE : bool) (f : Z -> option (option nat * bool * VMAProt)) (a : Z) : Prop :=
  match f a with Some (_, _, p) => executes RIE p = true | None => False end.

#[export] Instance tracker_contract RIE s f ever :
  reach s f -> (forall a, history_executes RIE f a -> ever a) -> ExecutableQuery (Some (tracker_query RIE s)) (history_executes RIE f) ever.
Proof.
  intros Hr Hsub. destruct (reach_view s f Hr) as [Hs Hv]. split; [done|done|]. intros q a B S [= <-] Ha. unfold tracker_query.
  destruct (QueryGuestExecutableRange RIE a s) as [[B' S'] W] eqn:Hq. intros [= -> ->].
  assert (Hx : forall x r o sh p, view s x = Some (r, o, sh, p) -> executes RIE p = true -> history_executes RIE f x).
  { intros x r o sh p Hx Hp. unfold history_executes. rewrite <- Hv, Hx. done. }
  destruct (query_range s RIE a B S W Hs Hq) as [(-> & -> & Hno)|(HB & HT & Hall)]; [left|right].
  - split; [done|]. split; [lia|]. unfold history_executes. rewrite <- Hv. destruct (view s a) as [[[[r o] sh] p]|] eqn:Hva; cbn; [|by intros []].
    rewrite (Hno _ _ _ _ eq_refl). done.
  - split; [lia|]. split; [lia|]. split; [lia|]. intros x Hx'. destruct (Hall x Hx') as (r & o & sh & p & Hvx & Hp & _). by eapply Hx.
Qed.

(** A thread's decoder over the tracker: [s] has the areas, whose history is
    [f], and [ever] what was executable at some time since the last reset. The
    reset is a step of its own, as not every change of the areas reaches it. *)
Inductive tracked (RIE : bool) : VMATracking -> (Z -> option (option nat * bool * VMAProt)) -> (Z -> Prop) -> nat -> Decoder.t -> Prop :=
| tracked_start s f : reach s f -> tracked RIE s f (history_executes RIE f) 0 initial_decoder
| tracked_change s f s' f' ever n d : tracked RIE s f ever n d -> reach s' f' -> tracked RIE s' f' (fun a => ever a \/ history_executes RIE f' a) n d
| tracked_reset s f ever n d : tracked RIE s f ever n d -> tracked RIE s f (history_executes RIE f) n (Decoder.ResetExecutableRangeCache d)
| tracked_compile s f ever n d d' cfg Memory DI PC MaxInst :
    tracked RIE s f ever n d -> entry_ok cfg PC -> 0 <= MaxInst -> 0 <= Decoder.MaxInstPerBlock cfg ->
    Decoder.DecodeInstructionsAtEntry cfg (Some (tracker_query RIE s)) Memory DI PC MaxInst d = Some d' -> tracked RIE s f ever (S n) d'.

Lemma tracked_history RIE s f ever n d :
  tracked RIE s f ever n d -> reach s f /\ (forall a, history_executes RIE f a -> ever a) /\ history ever n d.
Proof.
  induction 1 as [s f Hr|s f s' f' ever n d _ (Hr & Hs & Hh) Hr'|s f ever n d _ (Hr & Hs & Hh)|s f ever n d d' cfg M DI PC MI _ (Hr & Hs & Hh) He HM HMI Heq].
  - split; [done|]. split; [done|]. apply history_start.
  - split; [done|]. split; [by right|]. apply (history_grow ever); [done|by left].
  - split; [done|]. split; [done|]. by apply (history_remap ever).
  - split; [done|]. split; [done|]. by apply (history_compile ever n d d' (history_executes RIE f) cfg (Some (tracker_query RIE s)) M DI PC MI Hh (tracker_contract RIE s f ever Hr Hs)).
Qed.

(** C13. Up to 2^29 compiles into the life of a thread's decoder, over any history
    of mmap, munmap, mprotect and resets of the cached range, a compile at an
    aligned entry within the bounds of [entry_ok] returns. It gives a unit when
    the four bytes at the entry are executable, and the block that raises SIGSEGV
    when one of them was not executable since the last reset; in between the
    cached range decides. Every instruction of a unit holds the word in memory at
    its address, and its bytes are executable or were since the last reset. *)
Theorem decode_tracked cfg RIE s f ever Memory DI PC MaxInst n d :
  tracked RIE s f ever n d -> Z.of_nat n + 1 < 2 ^ 29 -> entry_ok cfg PC -> 0 <= MaxInst -> 0 <= Decoder.MaxInstPerBlock cfg -> PC mod 4 = 0 ->
  exists d', Decoder.DecodeInstructionsAtEntry cfg (Some (tracker_query RIE s)) Memory DI PC MaxInst d = Some d' /\ tracked RIE s f ever (S n) d' /\
    let fault := Decoder.Blocks (Decoder.BlockInfo d') = [Decoder.mkBlock PC 0 1 0 Decoder.NOEXEC_INST true 0 0] in
    let unit := forall b, b ∈ Decoder.Blocks (Decoder.BlockInfo d') -> Decoder.BlockStatus b = Decoder.SUCCESS /\
      forall j, (j < Decoder.NumInstructions b)%nat -> exists i, inst_at (Decoder.DecodedBuffer d') b j = Some i /\
        IPC i = Decoder.BEntry b + 4 * Z.of_nat j /\ Word i = Memory (IPC i) /\ range_executable ever (IPC i) 4 in
    (fault \/ unit) /\ (range_executable (history_executes RIE f) PC 4 -> unit) /\ (~ range_executable ever PC 4 -> fault).
Proof.
  intros Ht Hn He HM HMI H4. destruct (tracked_history _ _ _ _ _ _ Ht) as (Hr & Hs & Hh).
  destruct (compile_any cfg _ _ _ (tracker_contract RIE s f ever Hr Hs) Memory DI PC MaxInst n d Hh Hn He HM HMI) as (d' & Heq & _ & Hu).
  exists d'. split; [done|]. split; [by apply (tracked_compile RIE s f ever n d d' cfg Memory DI PC MaxInst)|]. intros fault unit.
  destruct Hu as [(_ & Hex & Hu)|[Hno Hf]].
  - assert (HU : unit).
    { intros b Hb. split; [by apply (u_shape _ _ _ _ _ _ _ _ _ Hu)|]. intros j Hj. destruct (u_inst _ _ _ _ _ _ _ _ _ Hu b j Hb Hj) as (m & Hm & Hx & _).
      eexists. split; [exact Hm|]. done. }
    split; [by right|]. split; [done|]. intros Hne. by destruct Hne.
  - assert (HF : fault) by (destruct Hf as (HB & _); unfold fault; by rewrite HB, H4).
    split; [by left|]. split; [|done]. intros Hyes. by destruct (Hno H4).
Qed.

(** The segment of [demo] holds the code. *)
Lemma decode_tracked_witness :
  exists d', Decoder.DecodeInstructionsAtEntry sample_config (Some (tracker_query false demo)) (fun _ => 0xD65F03C0) sample_decode 0x2000 0 initial_decoder = Some d' /\
    forall b, b ∈ Decoder.Blocks (Decoder.BlockInfo d') -> Decoder.BlockStatus b = Decoder.SUCCESS.
Proof.
  destruct (decode_tracked sample_config false demo demo_map _ (fun _ => 0xD65F03C0) sample_decode 0x2000 0 0 initial_decoder (tracked_start false demo demo_map demo_reach) ltac:(lia)
              ltac:(unfold entry_ok, sample_config; cbn; lia) ltac:(lia) ltac:(done) eq_refl) as (d' & Heq & _ & _ & Hall & _).
  exists d'. split; [exact Heq|]. intros b Hb. refine (proj1 (Hall _ b Hb)). intros a Ha. unfold history_executes, demo_map.
  replace (in_range 0x2000 (0x2000 + 0x2000) a) with true by (unfold in_range; lia). reflexivity.
Defined.

(** An mprotect to PROT_READ without a reset: the entry is no longer executable,
    and the decoder, whose cached range is older, decodes it; after a reset it
    raises SIGSEGV. *)
Example stale_range :
  let compile s := Decoder.DecodeInstructionsAtEntry sample_config (Some (tracker_query false s)) (fun _ => 0xD65F03C0) sample_decode 0x2000 0 in
  let d := default initial_decoder (compile demo initial_decoder) in
  let s := default demo (ChangeProtectionFlags 0x2000 0x1000 (mkProt true false false) demo) in
  let statuses d := Decoder.BlockStatus <$> Decoder.Blocks (Decoder.BlockInfo d) in
  (QueryGuestExecutableRange false 0x2000 s).1.2 = 0 /\
  option_map statuses (compile s d) = Some [Decoder.SUCCESS] /\
  option_map statuses (compile s (Decoder.ResetExecutableRangeCache d)) = Some [Decoder.NOEXEC_INST].
Proof. vm_compute. done. Qed.
