(* ===== verification/GenerateIR.v ===== *)
(** The IR of a compile unit: the loop of [ContextImpl::GenerateIR] (Core.cpp)
    over the decoded blocks and their instructions, with the block bookkeeping of
    IRBuilder.cpp.

    Left out of the loop: the validation of guest bytes before each instruction
    (SMCChecks=full), the gate of a redirected memory routine at the entry, and
    the fusions of whole loops, which match instructions that are not modelled. *)
From S2P Require Import Prelude A64Common IR BlockBuilder Branch Frontend Decoder.
Open Scope Z_scope.
Import Decoder.

(** ** Starting a unit *)

(** The builder of a thread is used for one unit after the other; [b0] is what
    the last one left. *)
Definition ResetWorkingList (b0 : Builder) : Builder := mkBuilder [] (CurrentPC b0) (Entry b0) empty_cache 0 0 [] 0 false empty_unit.

Definition set_entry (b : Builder) (PC : Z) : Builder :=
  mkBuilder (Ops b) (CurrentPC b) PC (GPRCache b) (CacheBlock b) (CurrentBlock b) (Constants b) (NrConstants b) (BlockSetPC b) (Unit b).

Definition try_emplace (PC : Z) (t : JumpTargetInfo) : M unit := fun b =>
  (tt, match find_target PC (JumpTargets (Unit b)) with
       | Some _ => b
       | None => set_unit b (with_targets (Unit b) (JumpTargets (Unit b) ++ [(PC, t)]))
       end).

Fixpoint create_blocks (Blocks : list DecodedBlocks) : M unit :=
  match Blocks with
  | [] => ret tt
  | Target :: Blocks =>
      K <- CreateNewCodeBlock ;;
      let SolePred := negb (SolePredEntry Target =? 0) && negb (IsEntryPoint Target) in
      try_emplace (BEntry Target) (mkTarget K false (IsEntryPoint Target) SolePred None) ;;;
      create_blocks Blocks
  end.

Definition BeginFunction (PC : Z) (Blocks : list DecodedBlocks) : M unit :=
  (fun b => (tt, set_entry b PC)) ;;;
  create_blocks Blocks ;;;
  fun b =>
    (match find_target PC (JumpTargets (Unit b)) with
     | Some t => SetCurrentCodeBlock (BlockEntry t)
     | None => K <- CreateNewCodeBlock ;; try_emplace PC (mkTarget K false true false None) ;;; SetCurrentCodeBlock K
     end) b.

Section Config.
(** [FEX_NOREGIONCACHE]. *)
Context (NoRegionCache : bool).

(** ** Entering a block *)

Definition in_window (PC : Z) (x : option (Ref * Z)) : bool :=
  match x with Some (_, pc) => (PC >=? pc) && (PC - pc <=? GPR_CACHE_WINDOW) | None => false end.

Definition CacheSurvivesEdge (Target : JumpTargetInfo) (PC : Z) (b : Builder) : bool :=
  if NoRegionCache then false
  else
    match PredBlock Target with
    | Some p => SolePred Target && Nat.eqb p (CacheBlock b) && existsb (in_window PC) (GPRCache b)
    | None => false
    end.

Definition set_region (K P : nat) : M unit := fun b =>
  let u := Unit b in
  (tt, set_unit b (mkUnit (JumpTargets u) (Segments u) (TrueBlock u) (FalseBlock u) ((K, P) :: RegionPred u) (NextBlock u) (ISBExitTargets u))).

Definition SetNewBlockIfChanged (PC : Z) : M unit := fun b =>
  match find_target PC (JumpTargets (Unit b)) with
  | None => (tt, b)
  | Some t =>
      let b := set_unit b (with_targets (Unit b) (update_target PC set_emitted (JumpTargets (Unit b)))) in
      if Nat.eqb (CurrentBlock b) (BlockEntry t) then (tt, b)
      else
        let Carry := CacheSurvivesEdge t PC b in
        ((match PredBlock t with
          | Some P => if Carry then set_region (BlockEntry t) P else ret tt
          | None => ret tt
          end) ;;;
         SetCurrentCodeBlock (BlockEntry t) ;;;
         fun b => (tt, if Carry then set_cache b (GPRCache b) (CurrentBlock b) else b)) b
  end.

Definition StartNewBlock : M unit := SetBlockSetPC false.

(** ** The instructions of a block *)

(** [l]: the instructions from the current one to the last; at each, a marker,
    the two fusions of pairs, and else its translator.  The counters of
    instructions and bytes are statistics of the compile. *)
Fixpoint translate_insts (l : list DecodedInst) : M unit :=
  match l with
  | [] => ret tt
  | Inst :: rest => fun b =>
      let after (Fused : nat) (k : M unit) : M unit :=
        Left <- FinishOp (u64 (IPC Inst + Z.of_nat Fused * INSTRUCTION_SIZE)) (Nat.eqb Fused (length l)) ;;
        if Left : bool then ret tt else k in
      let rest' := match rest with _ :: rest' => translate_insts rest' | [] => ret tt end in
      (emit (OGuestOpcode (IPC Inst - Entry b)) ;;;
       Fused <- TryFuseRbitClz l 0 ;;
       if (0 <? Fused)%nat then after Fused rest'
       else
       Fused <- TryFuseMemRev l 0 ;;
       if (0 <? Fused)%nat then after Fused rest'
       else
         TranslateInstruction Inst ;;;
         after 1%nat (translate_insts rest)) b
  end.

(** An entry that cannot be decoded: its signal is the whole translation. *)
Definition entry_fault (Status : DecodedBlockStatus) (Inst : DecodedInst) : M unit := fun b =>
  (emit (OGuestOpcode (IPC Inst - Entry b)) ;;;
   match Status with UNALIGNED_PC => UnalignedPCInstruction (IPC Inst) | _ => NoExecInstruction (IPC Inst) end) b.

(** [Block.DecodedInstructions], in the decoder's buffer. *)
Definition block_insts (Buffer : list DecodedInst) (Block : DecodedBlocks) : list DecodedInst :=
  take (NumInstructions Block) (drop (DecodedInstructions Block) Buffer).

Definition generate_block (Buffer : list DecodedInst) (Block : DecodedBlocks) : M unit :=
  SetNewBlockIfChanged (BEntry Block) ;;;
  StartNewBlock ;;;
  (if (NumInstructions Block =? 0)%nat then pc <- InlineEntrypointOffset (BEntry Block) ;; ExitFunction pc HintNone ;;; ret tt else ret tt) ;;;
  match BlockStatus Block, block_insts Buffer Block with
  | SUCCESS, l => translate_insts l
  | st, Inst :: _ => entry_fault st Inst
  | _, [] => ret tt
  end.

Fixpoint generate_blocks (Buffer : list DecodedInst) (Blocks : list DecodedBlocks) : M unit :=
  match Blocks with
  | [] => ret tt
  | Block :: Blocks => generate_block Buffer Block ;;; generate_blocks Buffer Blocks
  end.

(** Blocks without instructions of their own exit at their entry. *)
Fixpoint finalize (Targets : list (Z * JumpTargetInfo)) : M unit :=
  match Targets with
  | [] => ret tt
  | (PC, t) :: Targets =>
      (if HaveEmitted t then ret tt
       else SetCurrentCodeBlock (BlockEntry t) ;;; pc <- InlineEntrypointOffset PC ;; ExitFunction pc HintNone ;;; ret tt) ;;;
      finalize Targets
  end.
Definition Finalize : M unit := fun b => finalize (JumpTargets (Unit b)) b.

Definition GenerateIR (PC : Z) (Buffer : list DecodedInst) (Blocks : list DecodedBlocks) (b0 : Builder) : Builder :=
  ((BeginFunction PC Blocks ;;; generate_blocks Buffer Blocks ;;; Finalize) (ResetWorkingList b0)).2.
End Config.
