(* ===== verification/UnitExec.v ===== *)
(** Executing a compile unit: its blocks, the jumps between them and the ways
    out.  The operations of a block are those emitted between the position where
    the cursor was set to it and the next such position; a value of another
    block is only defined in a block that continues the region of its
    predecessor, when it was entered from there. *)
From S2P Require Import Prelude A64Common IR BlockBuilder.
From stdpp Require Import sorting.

(** The first and the last position of block [K]; [n]: the operations so far. *)
Fixpoint segment (n : nat) (l : list (nat * nat)) (K : nat) : option (nat * nat) :=
  match l with
  | [] => None
  | (k, s) :: l => if Nat.eqb k K then Some (s, match l with (_, e) :: _ => e | [] => n end) else segment n l K
  end.

Fixpoint assoc (k : nat) (l : list (nat * nat)) : option nat :=
  match l with
  | [] => None
  | (k', v) :: l => if Nat.eqb k' k then Some v else assoc k l
  end.

Definition resume (g : Guest) : Guest := mkGuest (Regs g) (Flags g) (PCSlot g) (Mem g) (Marker g) None.

(** A unit at the head of a block that was entered from [Prev] with the values
    [Values]; outside of it; or stopped by a signal or a fault. *)
Inductive UnitPoint :=
  | AtBlock (K : nat) (Prev : option nat) (Values : list Z) (g : Guest)
  | Outside (PC : Z) (Hint : BranchHint) (g : Guest)
  | Trapped (g : Guest).

Section Unit.
Context (b : Builder).
Abbreviation u := (Unit b).

(** The values at the head of a block that starts at position [s]. *)
Definition head_values (junk : nat -> Z) (s : nat) (K : nat) (Prev : option nat) (Values : list Z) : list Z :=
  let old := if bool_decide (assoc K (RegionPred u) = Prev) && match Prev with Some _ => true | None => false end then take s Values else [] in
  old ++ map (fun i => u64 (junk i)) (seq (length old) (s - length old)).

Definition run_block (junk : nat -> Z) (K : nat) (Prev : option nat) (Values : list Z) (g : Guest) : option Machine :=
  '(s, e) ← segment (length (Ops b)) (Segments u) K;
  Some (exec junk (Entry b) (mkMachine (head_values junk s K Prev Values) g) (take (e - s) (drop s (Ops b)))).

(** Where a block that stopped goes; a block that runs past its last operation
    or into one that does not exist is stuck. *)
Definition after_block (K : nat) (m : Machine) : option UnitPoint :=
  let g := resume (G m) in
  match Stop (G m) with
  | Some (SJump K') => Some (AtBlock K' (Some K) (Env m) g)
  | Some (SCond r t) => K' ← assoc r (if t then TrueBlock u else FalseBlock u); Some (AtBlock K' (Some K) (Env m) g)
  | Some (SExit PC h) => Some (Outside PC h g)
  | Some (SBreak _) | Some (SFault _ _) => Some (Trapped (G m))
  | None => None
  end.

Definition unit_step (junk : nat -> Z) (p : UnitPoint) : option UnitPoint :=
  match p with
  | AtBlock K Prev Values g => m ← run_block junk K Prev Values g; after_block K m
  | _ => Some p
  end.

(** [n] blocks, each with unspecified bits of its own. *)
Fixpoint unit_run (junk : nat -> nat -> Z) (n : nat) (p : UnitPoint) : option UnitPoint :=
  match n with
  | O => Some p
  | S n => p ← unit_run junk n p; unit_step (junk n) p
  end.

(** The dispatcher enters at the entry point, with nothing in the values. *)
Definition unit_entry (g : Guest) : option UnitPoint :=
  t ← find_target (Entry b) (JumpTargets u); Some (AtBlock (BlockEntry t) None [] g).
End Unit.

(** ** The ends of blocks *)

Definition leaving (o : op) : bool := match o with OJump _ | OCondJump _ | OExitFunction _ _ _ | OBreak _ => true | _ => false end.

Abbreviation starts b := ((Segments (Unit b)).*2).

(** The cursor only moved on, and an operation that leaves a block is its last
    one. *)
Record tidy (b : Builder) : Prop := {
  td_sorted : StronglySorted le (starts b);
  td_bound : Forall (fun s => (s <= length (Ops b))%nat) (starts b);
  td_leaving i o : Ops b !! i = Some o -> leaving o = true -> S i ∈ starts b \/ S i = length (Ops b) }.
