(* ===== verification/BlockLogic.v ===== *)
(** How the state of a unit under construction grows, and what stays true of the
    blocks that have been emitted. *)
From S2P Require Import Prelude A64Common IR IRLogic BlockBuilder UnitExec.

(** ** Growth *)

Definition target_blocks (b : Builder) : list (Z * nat) := map (fun p => (p.1, BlockEntry p.2)) (JumpTargets (Unit b)).

(** Blocks are numbered below [NextBlock] and start within the operations; the
    conditional jumps with a target are among the operations. *)
Record unit_wf (b : Builder) : Prop := {
  uw_segments : Forall (fun p => (p.1 < NextBlock (Unit b))%nat /\ (p.2 <= length (Ops b))%nat) (Segments (Unit b));
  uw_targets : Forall (fun p => (p.2 < NextBlock (Unit b))%nat) (target_blocks b);
  uw_true : Forall (fun p => (p.1 < length (Ops b))%nat) (TrueBlock (Unit b));
  uw_false : Forall (fun p => (p.1 < length (Ops b))%nat) (FalseBlock (Unit b)) }.

(** What comes after [b] in the emission of one unit: the operations and the
    segments are appended, no guest address changes its block, and no
    conditional jump its targets. *)
Record later (b b' : Builder) : Prop := {
  lt_ops : Ops b `prefix_of` Ops b';
  lt_entry : Entry b' = Entry b;
  lt_segments : exists S, Segments (Unit b') = Segments (Unit b) ++ S /\ Forall (fun p => (length (Ops b) <= p.2)%nat) S;
  lt_targets : target_blocks b' = target_blocks b;
  lt_true : forall r k, assoc r (TrueBlock (Unit b)) = Some k -> assoc r (TrueBlock (Unit b')) = Some k;
  lt_false : forall r k, assoc r (FalseBlock (Unit b)) = Some k -> assoc r (FalseBlock (Unit b')) = Some k;
  lt_next : (NextBlock (Unit b) <= NextBlock (Unit b'))%nat;
  later_wf : unit_wf b -> unit_wf b' }.

#[export] Instance later_preorder : PreOrder later.
Proof.
  split.
  - intros b. split; try done. exists []. rewrite app_nil_r. split; [done|by apply Forall_nil].
  - intros a b c [A1 A2 (S & A3 & A3') A4 A5 A6 A7 A8] [B1 B2 (S' & B3 & B3') B4 B5 B6 B7 B8].
    pose proof (prefix_length _ _ A1). split; [by etrans|congruence| |congruence|auto|auto|lia|auto].
    exists (S ++ S'). rewrite B3, A3, <- app_assoc. split; [done|]. apply Forall_app. split; [done|].
    eapply Forall_impl; [exact B3'|]. cbn. intros p Hp. lia.
Qed.

Lemma assoc_none l k : Forall (fun p => (p.1 < k)%nat) l -> assoc k l = None.
Proof. induction 1 as [|[k' v] l Hp _ IH]; [done|]. cbn in *. by rewrite (proj2 (Nat.eqb_neq k' k)) by lia. Qed.

(** Operations, and the state of a target that is not its block. *)
Lemma later_same b b' :
  Ops b `prefix_of` Ops b' -> Entry b' = Entry b -> Segments (Unit b') = Segments (Unit b) -> target_blocks b' = target_blocks b ->
  TrueBlock (Unit b') = TrueBlock (Unit b) -> FalseBlock (Unit b') = FalseBlock (Unit b) -> (NextBlock (Unit b) <= NextBlock (Unit b'))%nat -> later b b'.
Proof.
  intros H1 H2 H3 H4 H5 H6 H7. split; rewrite ?H5, ?H6; try done.
  - exists []. rewrite app_nil_r. split; [done|by apply Forall_nil].
  - intros [W1 W2 W3 W4]. pose proof (prefix_length _ _ H1). split; rewrite ?H3, ?H4, ?H5, ?H6; (eapply Forall_impl; [eassumption|]); cbn; intros p Hp; lia.
Qed.

(** ** The code of a block *)

Definition block_code (b : Builder) (K : nat) : option (nat * list op) :=
  '(s, e) ← segment (length (Ops b)) (Segments (Unit b)) K; Some (s, take (e - s) (drop s (Ops b))).

Lemma segment_app n n' l l' K s e :
  segment n l K = Some (s, e) -> (n <= n')%nat -> Forall (fun p => (n <= p.2)%nat) l' ->
  exists e', segment n' (l ++ l') K = Some (s, e') /\ (e <= e')%nat.
Proof.
  intros H Hn Hl. induction l as [|[k x] l IH]; [done|]. cbn [segment app] in *. destruct (Nat.eqb k K); [|by apply IH].
  injection H as <- <-. destruct l as [|[k2 x2] l]; cbn [app]; [|eauto]. destruct l' as [|[k2 x2] l']; [eauto|].
  apply Forall_cons in Hl as [Hx _]. eauto.
Qed.

Lemma take_prefix {A} (n m : nat) (l l' : list A) : l `prefix_of` l' -> (n <= m)%nat -> take n l `prefix_of` take m l'.
Proof.
  intros [k ->] Hn. exists (take (m - n) (drop n l) ++ take (m - length l) k).
  rewrite app_assoc, take_take_drop. replace (n + (m - n))%nat with m by lia. by rewrite take_app.
Qed.

Lemma drop_prefix {A} (n : nat) (l l' : list A) : l `prefix_of` l' -> drop n l `prefix_of` drop n l'.
Proof. intros [k ->]. exists (drop (n - length l) k). by rewrite drop_app. Qed.

(** The code of a block only grows, and not past the point where the next one
    was begun. *)
Lemma later_code b b' K s c :
  later b b' -> block_code b K = Some (s, c) -> exists c', block_code b' K = Some (s, c') /\ c `prefix_of` c'.
Proof.
  intros [A1 _ (S & A3 & A3') _ _ _ _ _] H. unfold block_code in *. destruct (segment _ _ K) as [[s' e]|] eqn:E; [|done]. injection H as <- <-.
  pose proof (prefix_length _ _ A1). rewrite A3.
  destruct (segment_app _ (length (Ops b')) _ S K _ _ E) as (e' & -> & He); [done|done|].
  eexists. split; [done|]. apply take_prefix; [by apply drop_prefix|lia].
Qed.

(** The block that is being emitted: its segment is the last. *)
Definition current (b : Builder) (K s : nat) : Prop :=
  CurrentBlock b = K /\ exists S, Segments (Unit b) = S ++ [(K, s)] /\ Forall (fun p => p.1 <> K) S.

Lemma current_code b K s : current b K s -> block_code b K = Some (s, drop s (Ops b)).
Proof.
  intros (_ & S & HS & HK). unfold block_code. rewrite HS. clear HS.
  assert (Hseg : segment (length (Ops b)) (S ++ [(K, s)]) K = Some (s, length (Ops b))).
  { induction HK as [|[k x] S Hk _ IH]; cbn; [by rewrite Nat.eqb_refl|]. cbn in Hk. by rewrite (proj2 (Nat.eqb_neq k K)). }
  rewrite Hseg. cbn. by rewrite take_ge by (rewrite length_drop; lia).
Qed.

Lemma frame_later b b' : frame b b' -> later b b'.
Proof.
  intros [A1 A2 A3 A4 _ _]. apply later_same; unfold target_blocks; by rewrite ?A3.
Qed.

Lemma frame_current b b' K s : frame b b' -> current b K s -> current b' K s.
Proof. intros [_ A2 A3 _ _ _] [H1 H2]. split; [congruence|by rewrite A3]. Qed.

(** ** Jump targets *)

Lemma find_update PC PC' f l :
  find_target PC (update_target PC' f l) = if PC' =? PC then f <$> find_target PC l else find_target PC l.
Proof.
  induction l as [|[a t] l IH]; [by destruct (PC' =? PC)|]. cbn [update_target find_target].
  destruct (Z.eqb_spec a PC') as [->|Hne]; cbn [find_target].
  - by destruct (PC' =? PC).
  - destruct (Z.eqb_spec a PC) as [->|]; [|exact IH]. by rewrite (proj2 (Z.eqb_neq PC' PC)).
Qed.

Definition block_at (b : Builder) (PC : Z) : option nat := BlockEntry <$> find_target PC (JumpTargets (Unit b)).

Lemma update_blocks PC f l :
  (forall t, BlockEntry (f t) = BlockEntry t) -> map (fun p => (p.1, BlockEntry p.2)) (update_target PC f l) = map (fun p => (p.1, BlockEntry p.2)) l.
Proof. intros Hf. induction l as [|[a t] l IH]; [done|]. cbn. destruct (a =? PC); cbn; [by rewrite Hf|by rewrite IH]. Qed.

(** A change of the targets that keeps their blocks. *)
Lemma later_update b PC f :
  (forall t, BlockEntry (f t) = BlockEntry t) -> later b (set_unit b (with_targets (Unit b) (update_target PC f (JumpTargets (Unit b))))).
Proof. intros Hf. apply later_same; try done. by apply update_blocks. Qed.

Lemma find_blocks PC l : BlockEntry <$> find_target PC l = snd <$> List.find (fun p => p.1 =? PC) (map (fun p => (p.1, BlockEntry p.2)) l).
Proof. induction l as [|[a t] l IH]; [done|]. cbn. by destruct (a =? PC). Qed.

Lemma later_block_at b b' PC : later b b' -> block_at b' PC = block_at b PC.
Proof. intros H. unfold block_at. rewrite !find_blocks. fold (target_blocks b) (target_blocks b'). by rewrite (lt_targets _ _ H). Qed.

Lemma block_at_wf b PC K : unit_wf b -> block_at b PC = Some K -> (K < NextBlock (Unit b))%nat.
Proof.
  intros [_ Hw _ _]. unfold block_at. rewrite find_blocks. fold (target_blocks b). destruct (List.find _ _) as [p|] eqn:E; [|done]. intros [= <-].
  apply find_some in E as [Hin _]. rewrite Forall_forall in Hw. by apply Hw, list_elem_of_In.
Qed.

(** ** The emission of one block

    [advance K Ts b b']: from [b] to [b'] the block [K] was emitted, with the
    blocks of its own exits, and is recorded as the predecessor only of targets
    in [Ts]. *)
Definition same_target (K : nat) (T : Prop) (t t' : JumpTargetInfo) : Prop :=
  HaveEmitted t' = HaveEmitted t /\ SolePred t' = SolePred t /\ (PredBlock t' = PredBlock t \/ (PredBlock t' = Some K /\ T)).

Record advance (K : nat) (Ts : Z -> Prop) (b b' : Builder) : Prop := {
  adv_later : later b b';
  adv_targets : forall PC, option_Forall2 (same_target K (Ts PC)) (find_target PC (JumpTargets (Unit b))) (find_target PC (JumpTargets (Unit b')));
  adv_segments : exists S, Segments (Unit b') = Segments (Unit b) ++ S /\ Forall (fun p => (NextBlock (Unit b) <= p.1)%nat) S;
  adv_current : CurrentBlock b' = CurrentBlock b \/ (NextBlock (Unit b) <= CurrentBlock b')%nat;
  adv_region : RegionPred (Unit b') = RegionPred (Unit b);
  adv_wf : cache_wf (GPRCache b) -> cache_wf (GPRCache b');
  adv_cache : CacheBlock b' = K \/ (CacheBlock b' = CacheBlock b /\ GPRCache b' = GPRCache b) }.

#[export] Instance same_target_refl K T : Reflexive (same_target K T).
Proof. intros t. by repeat split; auto. Qed.

Lemma option_relate_trans {A} (R : A -> A -> Prop) `{!Transitive R} (x y z : option A) : option_Forall2 R x y -> option_Forall2 R y z -> option_Forall2 R x z.
Proof. intros [a b Hab|]; inversion 1; subst; constructor. by etrans. Qed.

#[export] Instance same_target_trans K T : Transitive (same_target K T).
Proof. intros a b c (A1 & A2 & A3) (B1 & B2 & B3). split_and!; [congruence|congruence|]. destruct B3 as [B3|[B3 B4]]; [|by right]. rewrite B3. done. Qed.

#[export] Instance advance_preorder K Ts : PreOrder (advance K Ts).
Proof.
  split.
  - intros b. split; try done; [exists []; rewrite app_nil_r; split; [done|by apply Forall_nil]|by left|by right].
  - intros a b c [A1 A2 (S & A3 & A3') A0 A4 A5 A6] [B1 B2 (S' & B3 & B3') B0 B4 B5 B6]. pose proof (lt_next _ _ A1) as An. split; [by etrans| | | |congruence|auto|].
    + intros PC. by apply (option_relate_trans _ _ _ _ (A2 PC)).
    + exists (S ++ S'). rewrite B3, A3, <- app_assoc. split; [done|]. apply Forall_app. split; [done|]. eapply Forall_impl; [exact B3'|].
      cbn. intros p Hp. lia.
    + destruct B0 as [->|?]; [done|right; lia].
    + destruct B6 as [B6|[B6 B7]]; [by left|]. destruct A6 as [A6|[A6 A7]]; [left|right; split]; congruence.
Qed.

Lemma frame_advance K Ts b b' : CurrentBlock b = K -> frame b b' -> advance K Ts b b'.
Proof.
  intros <- Hf. pose proof (frame_later _ _ Hf) as Hl. destruct Hf as [A1 A2 A3 A4 A5 A6]. split; rewrite ?A3; try done.
  - exists []. rewrite app_nil_r. split; [done|by apply Forall_nil].
  - by left.
Qed.
