(* ===== verification/ExitSpec.v ===== *)
(** The exits of a block: what the plumbing of IRBuilder.cpp emits for them, and
    where their execution goes. *)
From S2P Require Import Prelude A64Common IR ArmSpec IRLogic BlockBuilder UnitExec BlockLogic.

(** ** Where a stop goes *)

(** The block of an exit that leaves the unit for [PC]. *)
Definition leg (b : Builder) (k : nat) (PC : Z) : Prop :=
  exists s c, block_code b k = Some (s, c) /\ [OInlineEntrypointOffset (PC - Entry b); OExitFunction s HintNone None] `prefix_of` c.

Definition goes_to (b : Builder) (k : nat) (PC : Z) : Prop := block_at b PC = Some k \/ (block_at b PC = None /\ leg b k PC).

Definition resolves (b : Builder) (r : StopReason) (PC : Z) : Prop :=
  match r with
  | SJump k => block_at b PC = Some k
  | SCond J t => exists k, assoc J (if t then TrueBlock (Unit b) else FalseBlock (Unit b)) = Some k /\ goes_to b k PC
  | SExit PC' _ => PC' = PC
  | _ => False
  end.

Lemma leg_later b b' k PC : later b b' -> leg b k PC -> leg b' k PC.
Proof.
  intros Hl (s & c & Hc & Hp). destruct (later_code _ _ _ _ _ Hl Hc) as (c' & Hc' & Hp'). exists s, c'.
  rewrite (lt_entry _ _ Hl). split; [done|by etrans].
Qed.

Lemma goes_to_later b b' k PC : later b b' -> goes_to b k PC -> goes_to b' k PC.
Proof.
  intros Hl [H|[H H']]; [left|right]; rewrite (later_block_at _ _ _ Hl); [done|]. split; [done|by eapply leg_later].
Qed.

Lemma resolves_later b b' r PC : later b b' -> resolves b r PC -> resolves b' r PC.
Proof.
  intros Hl. destruct r as [| |k|J t|]; cbn; try done; [by rewrite (later_block_at _ _ _ Hl)|].
  intros (k & Hk & Hg). exists k. split; [|by eapply goes_to_later]. destruct t; [by apply (lt_true _ _ Hl)|by apply (lt_false _ _ Hl)].
Qed.

(** ** Stopping in a block *)

Definition cache_ok (c : list (option (Ref * Z))) (e : list Z) (g : Guest) : Prop :=
  forall i v p, c !! i = Some (Some (v, p)) -> e !! v = Some (reg g i).

(** A jump within the unit. *)
Definition in_unit (r : StopReason) : bool := match r with SJump _ | SCond _ _ => true | _ => false end.

Section Stops.
Context (junk : nat -> Z) (entry : Z) (s0 : Machine).

(** The block [K], entered in [s0], stops with [r]; the cache is right for what
    it leaves. *)
Record stops_with (b : Builder) (K : nat) (r : StopReason) (e : list Z) (g : Guest) : Prop := {
  sw_code : exists c, block_code b K = Some (length (Env s0), c) /\ exec junk entry s0 c = mkMachine e (set_stop g r);
  sw_guest : guest_ok g;
  sw_env : Forall (in_width 64) e;
  sw_len : (length e <= length (Ops b))%nat;
  sw_cache : CacheBlock b = K -> cache_ok (GPRCache b) e g }.

Lemma exec_stopped m c c' : Stop (G (exec junk entry m c)) <> None -> c `prefix_of` c' -> exec junk entry m c' = exec junk entry m c.
Proof. intros Hs [l ->]. unfold exec in *. rewrite foldl_app. by apply run_stopped. Qed.

Lemma stops_grow b b' K r e g :
  later b b' -> (CacheBlock b' = K -> CacheBlock b = K /\ GPRCache b' = GPRCache b) -> stops_with b K r e g -> stops_with b' K r e g.
Proof.
  intros Hl H1 [(c & Hc & He) H4 H5 H6 H7]. pose proof (prefix_length _ _ (lt_ops _ _ Hl)).
  destruct (later_code _ _ _ _ _ Hl Hc) as (c' & Hc' & Hp). split; [|done|done|lia|].
  - exists c'. split; [done|]. by rewrite (exec_stopped s0 c c') by (rewrite ?He; done).
  - intros HK. destruct (H1 HK) as [HK' ->]. by apply H7.
Qed.

Lemma stops_later b b' K r e g :
  later b b' -> CacheBlock b' = CacheBlock b -> GPRCache b' = GPRCache b -> stops_with b K r e g -> stops_with b' K r e g.
Proof. intros Hl H1 H2. apply stops_grow; [done|]. by rewrite H1. Qed.

(** An operation that ends the block. *)
Lemma emit_stops pc b e g o r K :
  inv junk entry pc s0 b e g -> current b K (length (Env s0)) -> step junk entry (mkMachine e g) o = mkMachine (e ++ [0]) (set_stop g r) ->
  stops_with (set_ops b (Ops b ++ [o])) K r (e ++ [0]) g.
Proof.
  intros Hb Hc Hs. pose proof Hc as [HK _]. pose proof (code_app junk entry pc s0 b e g [o] Hb) as Hcode. destruct Hb as [H1 H2 H3 H4 H5 H6 H7 H8 H9 H10 H11].
  split; cbn [Ops CacheBlock GPRCache set_ops]; [|done| | |].
  - eexists. split; [by apply current_code|]. fold (code s0 (set_ops b (Ops b ++ [o]))). rewrite Hcode. unfold exec in *. rewrite foldl_app. cbn [foldl].
    by rewrite H1, run_op_live, Hs.
  - apply Forall_app. split; [done|]. by repeat constructor.
  - rewrite !length_app. cbn. lia.
  - intros <- i v p Hi. apply lookup_app_l_Some. by apply (H7 (eq_sym HK) i v p).
Qed.

(** *** An exit to a known address *)

Lemma inline_value pc b e g T K :
  inv junk entry pc s0 b e g -> current b K (length (Env s0)) -> in_width 64 T ->
  let '(r, b1) := InlineEntrypointOffset T b in inv junk entry pc s0 b1 (e ++ [T]) g /\ r = length e /\ current b1 K (length (Env s0)) /\ frame b b1.
Proof.
  intros Hb Hc HT. unfold InlineEntrypointOffset, emit. split_and!.
  - eapply inv_push; [done| |done|apply (inv_guest _ _ _ _ _ _ _ Hb)|done]. cbn [step push Env G]. rewrite (inv_entry _ _ _ _ _ _ _ Hb).
    unfold u64. by rewrite wrap_small by (replace (entry + (T - entry)) with T by lia; done); replace (entry + (T - entry)) with T by lia.
  - symmetry. by apply (inv_len _ _ _ _ _ _ _ Hb).
  - eapply frame_current; [|done]. apply frame_emit.
  - apply frame_emit.
Qed.

(** What a branch leaves: the block stops, and control goes to [PC], within the
    unit only to targets in [Ts]. *)
Definition left_block (Ts : Z -> Prop) (b : Builder) (K : nat) (PC : Z) (g : Guest) : Prop :=
  exists r e, stops_with b K r e g /\ resolves b r PC /\ (in_unit r = true -> Ts PC).

Lemma left_later Ts b b' K PC g :
  later b b' -> CacheBlock b' = CacheBlock b -> GPRCache b' = GPRCache b -> left_block Ts b K PC g -> left_block Ts b' K PC g.
Proof. intros Hl H1 H2 (r & e & Hs & Hr & HT). exists r, e. split_and!; [by eapply stops_later|by eapply resolves_later|done]. Qed.

(** [ExitFunction] to the value of [n]. *)
Lemma exit_function Ts pc b e g n h ra T K :
  inv junk entry pc s0 b e g -> current b K (length (Env s0)) -> e !! n = Some T ->
  left_block Ts (set_ops b (Ops b ++ [OExitFunction n h ra])) K T g.
Proof.
  intros Hb Hc HT. exists (SExit T h), (e ++ [0]). split_and!; [|done|done]. eapply emit_stops; [done|done|].
  cbn [step push_g Env G]. by rewrite (nth_lookup e), HT.
Qed.

Lemma exit_to_pc (Ts : Z -> Prop) pc b e g T K :
  inv junk entry pc s0 b e g -> current b K (length (Env s0)) -> in_width 64 T ->
  (is_Some (find_target T (JumpTargets (Unit b))) -> Ts T) -> left_block Ts (ExitToPC T b).2 K T g.
Proof.
  intros Hb Hc HT HTs. unfold ExitToPC. destruct (find_target T (JumpTargets (Unit b))) as [t|] eqn:Ht.
  - unfold bind, SetPredBlock, emit, SetBlockSetPC. cbn [snd fst]. set (b1 := set_unit b _).
    assert (Hl : later b b1) by (by apply later_update).
    exists (SJump (BlockEntry t)), (e ++ [0]). split_and!; [|cbn; unfold block_at; cbn [Unit set_left set_ops b1 set_unit JumpTargets with_targets]; by rewrite find_update, Z.eqb_refl, Ht|intros _; by apply HTs].
    assert (Hs : stops_with (set_ops b (Ops b ++ [OJump (BlockEntry t)])) K (SJump (BlockEntry t)) (e ++ [0]) g) by (by eapply emit_stops).
    apply (stops_later (set_ops b (Ops b ++ [OJump (BlockEntry t)]))); [|done|done|exact Hs]. apply later_same; try done. by apply update_blocks.
  - unfold bind. pose proof (inline_value pc b e g T K Hb Hc HT) as Hi. destruct (InlineEntrypointOffset T b) as [r b1]. destruct Hi as (Hi & -> & Hc1 & _).
    unfold ExitFunction, emit, SetBlockSetPC. cbn [snd fst].
    apply (left_later Ts (set_ops b1 (Ops b1 ++ [OExitFunction (length e) HintNone None]))); [by apply later_same|done|done|]. eapply exit_function; [done|done|by apply list_lookup_middle].
Qed.
End Stops.

(** ** The blocks of a conditional exit *)

Definition side (t : bool) (u : UnitState) : list (nat * nat) := if t then TrueBlock u else FalseBlock u.
Definition SetJump (t : bool) (J : Ref) : nat -> M unit := if t then SetTrueJumpTarget J else SetFalseJumpTarget J.

(** What is the same after an exit: its block's cache and the PC. *)
Definition same_cache (b b' : Builder) : Prop := CacheBlock b' = CacheBlock b /\ GPRCache b' = GPRCache b /\ CurrentPC b' = CurrentPC b.

#[export] Instance same_cache_preorder : PreOrder same_cache.
Proof. split; [by intros b|]. intros a b c (A1 & A2 & A3) (B1 & B2 & B3). split_and!; congruence. Qed.

Lemma advance_of_later K Ts b b' :
  later b b' -> same_cache b b' -> (CurrentBlock b' = CurrentBlock b \/ (NextBlock (Unit b) <= CurrentBlock b')%nat) -> RegionPred (Unit b') = RegionPred (Unit b) ->
  (forall PC, option_Forall2 (same_target K (Ts PC)) (find_target PC (JumpTargets (Unit b))) (find_target PC (JumpTargets (Unit b')))) ->
  (exists S, Segments (Unit b') = Segments (Unit b) ++ S /\ Forall (fun p => (NextBlock (Unit b) <= p.1)%nat) S) -> advance K Ts b b'.
Proof. intros H1 (H2 & H3 & _) H0 H4 H5 H6. split; try done; [by rewrite H3|by right]. Qed.

Lemma no_segments (l : list (nat * nat)) (P : nat * nat -> Prop) : exists S, l = l ++ S /\ Forall P S.
Proof. exists []. rewrite app_nil_r. split; [done|by apply Forall_nil]. Qed.

Lemma same_targets K (T : Prop) x : option_Forall2 (same_target K T) x x.
Proof. destruct x; by constructor. Qed.

Lemma pred_targets K (Ts : Z -> Prop) T l PC :
  Ts T -> option_Forall2 (same_target K (Ts PC)) (find_target PC l) (find_target PC (update_target T (set_pred K) l)).
Proof.
  intros HT. rewrite find_update. destruct (Z.eqb_spec T PC) as [->|]; [|apply same_targets].
  destruct (find_target PC l); [|constructor]. constructor. split_and!; [done|done|by right].
Qed.

Lemma exit_advance K Ts T b :
  (is_Some (find_target T (JumpTargets (Unit b))) -> CurrentBlock b = K /\ Ts T) ->
  let b' := (ExitToPC T b).2 in advance K Ts b b' /\ same_cache b b' /\ BlockSetPC b' = true.
Proof.
  intros H. unfold ExitToPC. destruct (find_target T (JumpTargets (Unit b))) as [t|].
  - destruct H as [HK HT]; [done|]. split_and!; [|done|done]. apply advance_of_later; [|done|by left|done| |apply no_segments].
    + apply later_same; try done; [by exists [OJump (BlockEntry t)]|by apply update_blocks].
    + intros PC. cbn. rewrite HK. by apply pred_targets.
  - split_and!; [|done|done]. apply advance_of_later; [|done|by left|done|intros PC; apply same_targets|apply no_segments].
    apply later_same; try done. cbn. rewrite <- app_assoc. by eexists.
Qed.

(** A new target of the jump [J]. *)
Lemma later_jump t J k b : unit_wf b -> (J < length (Ops b))%nat -> assoc J (side t (Unit b)) = None -> later b (SetJump t J k b).2.
Proof.
  intros _ HJ Hn. destruct t; split; cbn; try done; try (apply no_segments).
  - intros r x Hr. destruct (Nat.eqb_spec J r) as [->|]; [|done]. cbn in Hn. by rewrite Hn in Hr.
  - intros [W1 W2 W3 W4]. split; cbn; try done. by constructor.
  - intros r x Hr. destruct (Nat.eqb_spec J r) as [->|]; [|done]. cbn in Hn. by rewrite Hn in Hr.
  - intros [W1 W2 W3 W4]. split; cbn; try done. by constructor.
Qed.

Lemma later_block k b : unit_wf b -> (k < NextBlock (Unit b))%nat -> later b (SetCurrentCodeBlock k b).2.
Proof.
  intros _ Hk. split; cbn; try done.
  - exists [(k, length (Ops b))]. split; [done|]. by repeat constructor.
  - intros [W1 W2 W3 W4]. split; cbn; try done. apply Forall_app. split; [done|]. by repeat constructor.
Qed.

Lemma new_block_current k b : unit_wf b -> (NextBlock (Unit b) <= k)%nat -> current (SetCurrentCodeBlock k b).2 k (length (Ops b)).
Proof.
  intros [W _ _ _] Hk. split; [done|]. exists (Segments (Unit b)). split; [done|]. eapply Forall_impl; [exact W|]. cbn. intros p Hp. lia.
Qed.

(** A new block that leaves the unit. *)
Lemma leg_ok k T b :
  unit_wf b -> (k < NextBlock (Unit b))%nat -> Forall (fun p => p.1 <> k) (Segments (Unit b)) -> find_target T (JumpTargets (Unit b)) = None ->
  let b' := ((SetCurrentCodeBlock k ;;; ExitToPC T) b).2 in
  later b b' /\ same_cache b b' /\ leg b' k T /\ Segments (Unit b') = Segments (Unit b) ++ [(k, length (Ops b))] /\
  JumpTargets (Unit b') = JumpTargets (Unit b) /\ TrueBlock (Unit b') = TrueBlock (Unit b) /\ FalseBlock (Unit b') = FalseBlock (Unit b) /\
  RegionPred (Unit b') = RegionPred (Unit b) /\ CurrentBlock b' = k /\ BlockSetPC b' = true.
Proof.
  intros Hw Hk Hn Hf. pose proof (later_block k b Hw Hk) as L1. unfold bind. destruct (SetCurrentCodeBlock k b) as [[] b1] eqn:E1. cbn [snd] in L1.
  assert (Hc : current b1 k (length (Ops b))) by (injection E1 as <-; split; [done|]; by exists (Segments (Unit b))).
  assert (Hf1 : find_target T (JumpTargets (Unit b1)) = None) by (by injection E1 as <-). unfold ExitToPC. rewrite Hf1. unfold bind, InlineEntrypointOffset, ExitFunction, emit, SetBlockSetPC.
  cbn [snd fst]. set (b' := set_left _ true).
  assert (L2 : later b1 b') by (apply later_same; try done; cbn; rewrite <- app_assoc; by eexists).
  assert (Hops : Ops b1 = Ops b) by (by injection E1 as <-). split_and!; try (by injection E1 as <-); [by etrans|].
  exists (length (Ops b)), (drop (length (Ops b)) (Ops b')). assert (Hc' : current b' k (length (Ops b))) by exact Hc.
  rewrite (current_code _ _ _ Hc'). split; [done|]. cbn. by rewrite Hops, <- app_assoc, drop_app_length.
Qed.

(** One side of a conditional exit: the jump gets its target, a block of the
    unit or a new one that leaves it. *)
Lemma cond_side_ok t J K Ts T b :
  unit_wf b -> (J < length (Ops b))%nat -> assoc J (side t (Unit b)) = None -> Ts T ->
  let b' := (cond_side (SetJump t J) K T b).2 in
  advance K Ts b b' /\ same_cache b b' /\ side (negb t) (Unit b') = side (negb t) (Unit b) /\
  exists k, assoc J (side t (Unit b')) = Some k /\ goes_to b' k T.
Proof.
  intros Hw HJ Hn HT. unfold cond_side. destruct (find_target T (JumpTargets (Unit b))) as [x|] eqn:Hx.
  - unfold bind, SetPredBlock. cbn [snd fst]. set (b1 := set_unit b _). assert (L1 : later b b1) by (by apply later_update).
    pose proof (later_jump t J (BlockEntry x) b1 (later_wf _ _ L1 Hw) HJ ltac:(by destruct t)) as L2. split_and!.
    + apply advance_of_later; [by etrans|by destruct t|left; by destruct t|by destruct t| |destruct t; apply no_segments].
      intros PC. destruct t; cbn; by apply pred_targets.
    + by destruct t.
    + by destruct t.
    + exists (BlockEntry x). split; [destruct t; cbn; by rewrite Nat.eqb_refl|]. left. destruct t; unfold block_at; cbn; by rewrite find_update, Z.eqb_refl, Hx.
  - set (k := NextBlock (Unit b)). set (b1 := (CreateNewCodeBlock b).2).
    assert (L1 : later b b1) by (apply later_same; try done; cbn; lia). pose proof (later_wf _ _ L1 Hw) as W1.
    pose proof (later_jump t J k b1 W1 HJ ltac:(by destruct t)) as L2. destruct (SetJump t J k b1) as [[] b2] eqn:E2. cbn [snd] in *.
    assert (Heq : ((K' <- CreateNewCodeBlock ;; SetJump t J K' ;;; SetCurrentCodeBlock K' ;;; ExitToPC T) b).2 = ((SetCurrentCodeBlock k ;;; ExitToPC T) b2).2)
      by (unfold bind at 1 2, CreateNewCodeBlock; change (SetJump t J _ _) with (SetJump t J k b1); by rewrite E2). rewrite Heq. clear Heq.
    assert (Hu : Segments (Unit b2) = Segments (Unit b) /\ NextBlock (Unit b2) = S k /\ JumpTargets (Unit b2) = JumpTargets (Unit b) /\
                 same_cache b b2 /\ RegionPred (Unit b2) = RegionPred (Unit b) /\ side (negb t) (Unit b2) = side (negb t) (Unit b) /\ assoc J (side t (Unit b2)) = Some k)
      by (destruct t; injection E2 as <-; cbn; by rewrite Nat.eqb_refl). destruct Hu as (U1 & U2 & U3 & U4 & U5 & U6 & U7).
    destruct (leg_ok k T b2 (later_wf _ _ L2 W1)) as (L3 & S3 & Hleg & G1 & G2 & G3 & G4 & G5 & G6 & _); [lia| |by rewrite U3|].
    { rewrite U1. eapply Forall_impl; [exact (uw_segments _ Hw)|]. cbn. unfold k. intros p Hp. lia. }
    set (b' := ((SetCurrentCodeBlock k ;;; ExitToPC T) b2).2) in *. clearbody b'. clear E2. split_and!.
    + apply advance_of_later; [by repeat (etrans; [eassumption|])|by etrans|right; rewrite G6; unfold k; lia|congruence|intros PC; rewrite G2, U3; apply same_targets|].
      exists [(k, length (Ops b2))]. rewrite G1, U1. split; [done|]. by repeat constructor.
    + by etrans.
    + destruct t; cbn in *; congruence.
    + exists k. split; [destruct t; cbn in *; congruence|]. right. split; [|done]. unfold block_at. by rewrite G2, U3, Hx.
Qed.

Lemma cond_exit_ok c K Ts T b (J := length (Ops b)) :
  unit_wf b -> CurrentBlock b = K -> Ts T -> Ts (NextPC b) ->
  let b' := ((j <- emit (OCondJump c) ;; EmitConditionalExit j T) b).2 in
  advance K Ts b b' /\ same_cache b b' /\ BlockSetPC b' = true /\ later (set_ops b (Ops b ++ [OCondJump c])) b' /\
  forall t : bool, exists k, assoc J (side t (Unit b')) = Some k /\ goes_to b' k (if t then T else NextPC b).
Proof.
  intros Hw HK HT HN. unfold bind at 1, emit. set (b1 := set_ops b _). assert (F1 : frame b b1) by apply frame_emit.
  pose proof (frame_later _ _ F1) as L1. pose proof (later_wf _ _ L1 Hw) as W1. unfold EmitConditionalExit. change (CurrentBlock b1) with (CurrentBlock b). rewrite HK. unfold bind.
  assert (HJ : (J < length (Ops b1))%nat) by (unfold b1; cbn; rewrite length_app; cbn; unfold J; lia). destruct Hw as [_ _ Wt Wf].
  destruct (cond_side_ok true J K Ts T b1 W1 HJ (assoc_none _ _ Wt) HT) as (A2 & S2 & N2 & k1 & K1 & G1). cbn [SetJump negb side] in *. fold J.
  destruct (cond_side (SetTrueJumpTarget J) K T b1) as [[] b2]. cbn [snd] in *. pose proof (adv_later _ _ _ _ A2) as L2.
  assert (HNx : NextPC b1 = NextPC b) by done. rewrite HNx.
  destruct (cond_side_ok false J K Ts (NextPC b) b2) as (A3 & S3 & N3 & k2 & K2 & G2);
    [by apply L2|pose proof (prefix_length _ _ (lt_ops _ _ L2)); lia|cbn; rewrite N2; by apply (assoc_none _ _ Wf)|done|].
  cbn [SetJump negb side] in *. destruct (cond_side (SetFalseJumpTarget J) K (NextPC b) b2) as [[] b3]. cbn [snd] in *. pose proof (adv_later _ _ _ _ A3) as L3.
  assert (F4 : later b3 (set_left b3 true)) by (by apply later_same). split_and!.
  - etrans; [by apply frame_advance|]. etrans; [exact A2|]. etrans; [exact A3|]. apply advance_of_later; [done|done|by left|done|intros PC; apply same_targets|apply no_segments].
  - etrans; [|etrans; [exact S2|exact S3]]. done.
  - done.
  - etrans; [exact L2|]. by etrans.
  - intros [|]; [exists k1|exists k2]; (split; [|eapply goes_to_later; [exact F4|]]); [|by eapply goes_to_later|done|done].
    cbn. by apply (lt_true _ _ L3).
Qed.

(** Executing it. *)
Lemma cond_exit_run junk entry s0 (Ts : Z -> Prop) pc c K T b e g :
  inv junk entry pc s0 b e g -> unit_wf b -> current b K (length (Env s0)) -> Ts T -> Ts (NextPC b) ->
  let taken := jump_taken c e (Flags g) (junk (length e)) in
  left_block junk entry s0 Ts ((j <- emit (OCondJump c) ;; EmitConditionalExit j T) b).2 K (if taken then T else NextPC b) g.
Proof.
  intros Hb Hw Hc HT HN taken. destruct (cond_exit_ok c K (fun _ => True) T b Hw (proj1 Hc) I I) as (_ & S & _ & L & HJ).
  set (b' := ((j <- emit (OCondJump c) ;; EmitConditionalExit j T) b).2) in *.
  exists (SCond (length (Ops b)) taken), (e ++ [0]). split_and!; [|exact (HJ taken)|by destruct taken].
  assert (Hs : stops_with junk entry s0 (set_ops b (Ops b ++ [OCondJump c])) K (SCond (length (Ops b)) taken) (e ++ [0]) g).
  { eapply emit_stops; [done|done|]. cbn [step push_g Env G]. by rewrite (inv_ref _ _ _ _ _ _ _ Hb). }
  destruct S as (S1 & S2 & _). by eapply stops_later.
Qed.
