(* ===== verification/BranchSpec.v ===== *)
(** The branch translators: control goes where the pseudocode says, with its
    registers, and what each records about its targets. *)
From S2P Require Import Prelude A64Common IR ArmSpec IRLogic BlockBuilder Branch DataProcessing DataProcessingSpec LogicalBitfieldSpec LoadStore Frontend UnitExec BlockLogic ExitSpec.
From stdpp Require Import strings.
Open Scope Z_scope.

(** ** Stepping through a translator that leaves its block *)

Section Leaves.
Context (junk : nat -> Z) (entry : Z) (s0 : Machine) (Ts : Z -> Prop) (pc : Z) (K : nat).

Definition leaves {A} (m : M A) (e : list Z) (g : Guest) (PC : Z) (g' : Guest) : Prop :=
  forall b, inv junk entry pc s0 b e g -> unit_wf b -> current b K (length (Env s0)) -> left_block junk entry s0 Ts (m b).2 K PC g'.

Lemma leaves_bind {A B} (m : M A) (f : A -> M B) e g PC g' :
  Grows m -> wp junk entry pc s0 m e g (fun a e' g1 => leaves (f a) e' g1 PC g') -> leaves (bind m f) e g PC g'.
Proof.
  intros Hg Hm b Hb Hw Hc. destruct (Hm b Hb) as (e1 & g1 & H1 & HQ). pose proof (Hg b) as Hf. unfold bind. destruct (m b) as [a b1]. cbn [fst snd] in *.
  apply HQ; [done|by apply (later_wf _ _ (frame_later _ _ Hf))|by eapply frame_current].
Qed.

(** What follows the exit leaves the unit as it is. *)
Definition quiet {A} (m : M A) : Prop := forall b, later b (m b).2 /\ CacheBlock (m b).2 = CacheBlock b /\ GPRCache (m b).2 = GPRCache b.

Lemma leaves_then {A B} (m : M A) (f : A -> M B) e g PC g' : (forall a, quiet (f a)) -> leaves m e g PC g' -> leaves (bind m f) e g PC g'.
Proof.
  intros Hq Hm b Hb Hw Hc. specialize (Hm b Hb Hw Hc). unfold bind. destruct (m b) as [a b1]. cbn [snd] in Hm.
  destruct (Hq a b1) as (L & H1 & H2). by eapply left_later.
Qed.

Lemma leaves_exit_to_pc T e g : in_width 64 T -> Ts T -> leaves (ExitToPC T) e g T g.
Proof. intros HT HTs b Hb Hw Hc. by eapply exit_to_pc. Qed.

Lemma leaves_exit n h ra T e g : hasw e i64Bit n T -> leaves (emit (OExitFunction n h ra)) e g T g.
Proof.
  intros (x & Hx & <-) b Hb Hw Hc. pose proof (inv_env _ _ _ _ _ _ _ Hb) as He. eapply Forall_lookup_1 in He; [|exact Hx].
  cbn [bits]. rewrite wrap_small by done. by eapply exit_function.
Qed.

Lemma leaves_cond c T e g (taken : bool) :
  Ts T -> Ts (u64 (pc + 4)) -> (forall j, jump_taken c e (Flags g) j = taken) ->
  leaves (j <- emit (OCondJump c) ;; EmitConditionalExit j T ;;; ret true) e g (if taken then T else u64 (pc + 4)) g.
Proof.
  intros HT HN Ht b Hb Hw Hc. assert (HN' : Ts (NextPC b)) by (unfold NextPC; by rewrite (inv_pc _ _ _ _ _ _ _ Hb)). replace ((j <- emit (OCondJump c) ;; EmitConditionalExit j T ;;; ret true) b).2 with ((j <- emit (OCondJump c) ;; EmitConditionalExit j T) b).2
    by (unfold bind, emit; by destruct (EmitConditionalExit _ T _)).
  pose proof (cond_exit_run junk entry s0 Ts pc c K T b e g Hb Hw Hc HT HN') as H. cbv zeta in H. rewrite Ht in H.
  unfold NextPC in H. by rewrite (inv_pc _ _ _ _ _ _ _ Hb) in H.
Qed.

Lemma wp_inline_pc T e g (Q : Ref -> list Z -> Guest -> Prop) :
  (forall r e', sub e e' -> hasw e' i64Bit r (u64 T) -> Q r e' g) -> wp junk entry pc s0 (InlineEntrypointOffset T) e g Q.
Proof.
  intros HQ b Hb. unfold InlineEntrypointOffset. rewrite (inv_entry _ _ _ _ _ _ _ Hb).
  eapply (wp_sized _ _ _ _ _ e g i64Bit 0 (u64 T)); [|apply wrap_range; simpl; lia|exact HQ|exact Hb].
  cbn [step push Env G res]. by replace (entry + (T - entry)) with T by lia.
Qed.
End Leaves.

#[export] Instance grows_InlineEntrypointOffset T : Grows (InlineEntrypointOffset T).
Proof. intros b. apply frame_emit. Qed.

Lemma quiet_ret {A} (a : A) : quiet (ret a).
Proof. by intros b. Qed.
Lemma quiet_left x : quiet (SetBlockSetPC x).
Proof. intros b. split; [by apply later_same|done]. Qed.
Lemma quiet_isb PC : quiet (note_isb PC).
Proof. intros b. split; [by apply later_same|done]. Qed.
Lemma quiet_bind {A B} (m : M A) (f : A -> M B) : quiet m -> (forall a, quiet (f a)) -> quiet (bind m f).
Proof.
  intros Hm Hf b. unfold bind. destruct (Hm b) as (L & H1 & H2). destruct (m b) as [a b1]. cbn [snd] in *. destruct (Hf a b1) as (L' & H3 & H4).
  split_and!; [by etrans|congruence..].
Qed.
#[export] Hint Resolve quiet_ret quiet_left quiet_isb : core.
#[export] Hint Extern 2 (quiet (bind _ _)) => apply quiet_bind; [|intros ?] : core.

(** ** The branches *)

(** The targets in the word of a branch. *)
Definition branch_targets (n : string) (pc w : Z) : list Z :=
  let next := u64 (pc + 4) in
  let imm26 := branch_target pc (Bits w 25 0) 26 in
  let imm19 := branch_target pc (Bits w 23 5) 19 in
  let imm14 := branch_target pc (Bits w 18 5) 14 in
  if String.eqb n "B_uncond" || String.eqb n "BL" then [imm26]
  else if String.eqb n "CBZ" || String.eqb n "CBNZ" then [imm19; next]
  else if String.eqb n "TBZ" || String.eqb n "TBNZ" then [imm14; next]
  else if String.eqb n "B_cond" then imm19 :: (if Bits w 3 0 >=? 14 then [] else [next])
  else [].


(** [T] is the branch [n]. *)
Definition takes (T : Z -> M bool) (n : string) : Prop :=
  forall junk entry Ts pc s0 K Word e g, in_width 64 pc -> (forall T, T ∈ branch_targets n pc Word -> Ts T) -> exists PC g',
    arm_branch n pc Word g = Some (PC, g') /\ leaves junk entry s0 Ts pc K (T Word) e g PC g'.

(** A translator that reads the PC first. *)
Lemma leaves_pc {A} junk entry s0 Ts pc K (F : Z -> M A) e g PC g' :
  leaves junk entry s0 Ts pc K (F pc) e g PC g' -> leaves junk entry s0 Ts pc K (fun b => F (CurrentPC b) b) e g PC g'.
Proof. intros H b Hb. rewrite (inv_pc _ _ _ _ _ _ _ Hb). by apply H. Qed.

Lemma branch_target_offset pc imm w : 0 < w <= 64 -> branch_target pc imm w = u64 (pc + branch_offset w imm).
Proof. intros Hw. unfold branch_target, branch_offset. rewrite SignExtend_sgn, sgn_times4 by lia. done. Qed.

Lemma target_width pc imm w : in_width 64 (branch_target pc imm w).
Proof. apply wrap_range. lia. Qed.
#[local] Hint Resolve target_width : core.

Lemma b_uncond_takes : takes B_uncond "B_uncond".
Proof.
  intros junk entry Ts pc s0 K Word e g Hpc HTs. eexists _, _. split; [reflexivity|]. rewrite <- branch_target_offset by lia.
  apply (leaves_pc _ _ _ _ _ _ (fun p => ExitToPC (branch_target p (Bits Word 25 0) 26) ;;; ret true)).
  apply leaves_then; [auto|apply leaves_exit_to_pc; [done|apply HTs; member]].
Qed.

Lemma b_cond_takes : takes B_cond "B_cond".
Proof.
  intros junk entry Ts pc s0 K Word e g Hpc HTs. eexists _, _. split; [reflexivity|]. rewrite <- branch_target_offset by lia. unfold B_cond.
  change (branch_targets "B_cond" pc Word) with (branch_target pc (Bits Word 23 5) 19 :: (if Bits Word 3 0 >=? 14 then [] else [u64 (pc + 4)])) in HTs.
  set (F p := if Bits Word 3 0 >=? 14 then ExitToPC (branch_target p (Bits Word 23 5) 19) ;;; ret true
              else (J <- emit (OCondJump (JNZCV (MapCondition (Bits Word 3 0)))) ;; EmitConditionalExit J (branch_target p (Bits Word 23 5) 19)  ;;; ret true)).
  apply (leaves_pc _ _ _ _ _ _ F). unfold F. clear F. pose proof (Bits_range Word 3 0 ltac:(lia)) as Hr. change (2 ^ (3 - 0 + 1)) with 16 in Hr.
  rewrite Z.geb_leb in *. destruct (Z.leb_spec 14 (Bits Word 3 0)).
  - assert (ConditionHolds (Bits Word 3 0) (Flags g) = true) as -> by (assert (Bits Word 3 0 = 14 \/ Bits Word 3 0 = 15) as [-> | ->] by lia; by destruct (Flags g)).
    apply leaves_then; [auto|apply leaves_exit_to_pc; [done|apply HTs; member]].
  - rewrite <- MapCondition_holds by done. apply leaves_cond; [apply HTs; member..|done].
Qed.

Lemma rd_low e sz r v : hasw e i64Bit r v -> rd e sz r = wrap (bits sz) v.
Proof. intros Hv. by apply hasw_rd, hasw_low. Qed.

Lemma compare_takes b : takes (fun w => CompareBranch w b) (if b then "CBNZ" else "CBZ").
Proof.
  intros junk entry Ts pc s0 K Word e g Hpc HTs. set (T := branch_target pc (Bits Word 23 5) 19). set (zero := X (datasize Word) g (Rd Word) =? 0).
  exists (if (if b then negb zero else zero) then T else u64 (pc + 4)), g.
  split; [unfold T; rewrite branch_target_offset by lia; destruct b; unfold arm_branch; cbn [String.eqb Ascii.eqb Bool.eqb]; cbv zeta; fold zero; by destruct zero|].
  unfold CompareBranch.
  set (F p := Value <- LoadX (Bits Word 4 0) ;; z <- Constant 0 ;; J <- emit (OCondJump (JCompare (if b then NEQ else EQ) (SizeFor (Bit Word 31)) Value z)) ;;
    EmitConditionalExit J (branch_target p (Bits Word 23 5) 19) ;;; ret true).
  apply (leaves_pc _ _ _ _ _ _ F). unfold F. clear F. fold T. apply leaves_bind; [apply _|]. apply wp_loadX; [fld|]. intros v e1 _ Hv.
  apply leaves_bind; [apply _|]. apply wp_constant. intros z e2 S2 Hz. lift. apply leaves_cond; [apply HTs; destruct b; cbn; member..|]. intros j. cbn [jump_taken].
  rewrite (rd_low _ _ _ _ Hv), (rd_low _ _ _ _ Hz). unfold zero, X, Rd. rewrite size_datasize.
  change (u64 0) with 0. replace (wrap (datasize Word) 0) with 0 by (by destruct (datasize_cases Word) as [-> | ->]). by destruct b.
Qed.

Lemma bit_number Word : Z.lor (Z.shiftl (Bits Word 31 31) 5) (Bits Word 23 19) = b2z (Bit Word 31) * 32 + Bits Word 23 19.
Proof.
  pose proof (Bits_range Word 23 19 ltac:(lia)) as Hr. change (2 ^ (23 - 19 + 1)) with (2 ^ 5) in Hr.
  rewrite Z.lor_comm, lor_field_add by done. change (2 ^ 5) with 32. rewrite Bit_testbit by lia.
  pose proof (Bits_range Word 31 31 ltac:(lia)) as Hb. change (2 ^ (31 - 31 + 1)) with 2 in Hb.
  replace (Z.testbit Word 31) with (Z.testbit (Bits Word 31 31) 0) by (by rewrite testbit_Bits by lia). assert (Bits Word 31 31 = 0 \/ Bits Word 31 31 = 1) as [-> | ->] by lia; cbn; lia.
Qed.

Lemma test_takes b : takes (fun w => TestBranch w b) (if b then "TBNZ" else "TBZ").
Proof.
  intros junk entry Ts pc s0 K Word e g Hpc HTs. set (T := branch_target pc (Bits Word 18 5) 14). set (n := b2z (Bit Word 31) * 32 + Bits Word 23 19). set (t := Z.testbit (X 64 g (Rd Word)) n).
  exists (if (if b then t else negb t) then T else u64 (pc + 4)), g.
  split; [unfold T; rewrite branch_target_offset by lia; destruct b; unfold arm_branch; cbn [String.eqb Ascii.eqb Bool.eqb]; cbv zeta; fold n; fold t; by destruct t|].
  unfold TestBranch. rewrite bit_number. fold n.
  set (F p := Value <- LoadX (Bits Word 4 0) ;; k <- emit (OInlineConstant n) ;; J <- emit (OCondJump (JTest b Value k)) ;;
    EmitConditionalExit J (branch_target p (Bits Word 18 5) 14) ;;; ret true).
  apply (leaves_pc _ _ _ _ _ _ F). unfold F. clear F. fold T. apply leaves_bind; [apply _|]. apply wp_loadX; [fld|]. intros v e1 _ Hv.
  apply leaves_bind; [apply _|]. apply wp_inline. intros k e2 S2 Hk. lift. intros bb Hb. refine (leaves_cond junk entry s0 Ts pc K (JTest b v k) T e2 g (if b then t else negb t) _ _ _ bb Hb); [apply HTs; destruct b; cbn; member..|]. intros j. cbn [jump_taken].
  pose proof (inv_env _ _ _ _ _ _ _ Hb) as He. rewrite (hasw_nth _ _ _ He Hv), (hasw_nth _ _ _ He Hk).
  pose proof (Bits_range Word 23 19 ltac:(lia)) as Hr. change (2 ^ (23 - 19 + 1)) with 32 in Hr.
  assert (Hn : u64 n = n) by (apply u64_small; unfold n; destruct (Bit Word 31); cbn; lia). rewrite Hn. unfold t, X. rewrite wrap_small by exact (hasw_range _ _ _ _ Hv). done.
Qed.

Lemma br_takes h n : (h = HintNone /\ n = "BR"%string) \/ (h = HintReturn /\ n = "RET"%string) -> takes (fun w => BranchRegister w h) n.
Proof.
  intros Hh junk entry Ts pc s0 K Word e g Hpc HTs. exists (X 64 g (Rn Word)), g. split; [by destruct Hh as [[_ ->]|[_ ->]]|]. unfold BranchRegister.
  assert (H : leaves junk entry s0 Ts pc K (Target <- LoadX (Bits Word 9 5) ;; ExitFunction Target h ;;; SetBlockSetPC true ;;; ret true) e g (X 64 g (Rn Word)) g).
  { apply leaves_bind; [apply _|]. apply wp_loadX; [fld|]. intros v e1 _ Hv. apply leaves_then; [auto|]. unfold ExitFunction, X, Rn.
    rewrite wrap_small by exact (hasw_range _ _ _ _ Hv). by apply leaves_exit. }
  intros b Hb. by destruct Hh as [[-> _]|[-> _]]; apply H.
Qed.

Lemma blr_takes : takes BLR "BLR".
Proof.
  intros junk entry Ts pc s0 K Word e g Hpc HTs. exists (X 64 g (Rn Word)), (wX g 30 (u64 (pc + 4))). split; [done|]. unfold BLR, BranchRegister. intros b Hb.
  unfold NextPC. rewrite (inv_pc _ _ _ _ _ _ _ Hb). revert b Hb.
  set (F := Target <- LoadX (Bits Word 9 5) ;; (ra <- PCValue (u64 (pc + 4)) ;; StoreX 30 ra ;;; r <- InlineEntrypointOffset (u64 (pc + 4)) ;; ExitCall Target r) ;;; SetBlockSetPC true ;;; ret true).
  change (leaves junk entry s0 Ts pc K F e g (X 64 g (Rn Word)) (wX g 30 (u64 (pc + 4)))). unfold F. clear F.
  apply leaves_bind; [apply _|]. apply wp_loadX; [fld|]. intros v e1 _ Hv. apply leaves_then; [auto|].
  apply leaves_bind; [apply _|]. apply wp_pcvalue. intros ra e2 S2 Hra. unfold u64 in Hra. rewrite (wrap_wrap 64) in Hra by lia. lift.
  apply leaves_bind; [apply _|]. eapply wp_storeX; [lia|exact Hra|]. intros e3 S3. lift.
  apply leaves_bind; [apply _|]. apply wp_inline_pc. intros r e4 S4 _. lift. unfold ExitCall, X, Rn. rewrite (wrap_small 64 (rX g (Bits Word 9 5))) by exact (hasw_range _ _ _ _ Hv). by apply leaves_exit.
Qed.

Lemma bl_takes : takes BL "BL".
Proof.
  intros junk entry Ts pc s0 K Word e g Hpc HTs. set (T := branch_target pc (Bits Word 25 0) 26). set (N := u64 (pc + 4)).
  exists T, (wX g 30 N). split; [unfold T; by rewrite branch_target_offset by lia|]. unfold BL. intros b Hb. unfold NextPC. rewrite (inv_pc _ _ _ _ _ _ _ Hb). fold T. change (u64 (pc + INSTRUCTION_SIZE)) with N.
  destruct (find_target T (JumpTargets (Unit b))) as [t|]; revert b Hb;
    match goal with |- forall b, _ -> _ -> _ -> left_block _ _ _ _ (?m b).2 _ _ _ => change (leaves junk entry s0 Ts pc K m e g T (wX g 30 N)) end;
    (apply leaves_bind; [apply _|]; apply wp_pcvalue; intros ra e1 _ Hra; unfold u64, N in Hra; rewrite (wrap_wrap 64) in Hra by lia; fold (u64 (pc + 4)) N in Hra;
     apply leaves_bind; [apply _|]; eapply wp_storeX; [lia|exact Hra|]; intros e2 _).
  - apply leaves_then; [auto|apply leaves_exit_to_pc; [apply target_width|apply HTs; member]].
  - apply leaves_bind; [apply _|]. apply wp_inline_pc. intros p e3 _ Hp. apply leaves_bind; [apply _|]. apply wp_inline_pc. intros r e4 S4 _. lift.
    apply leaves_then; [auto|]. apply leaves_exit. unfold u64 in Hp. by rewrite (wrap_small 64) in Hp by apply target_width.
Qed.

Lemma isb_takes : takes (ISB true) "ISB".
Proof.
  intros junk entry Ts pc s0 K Word e g Hpc HTs. exists (u64 (pc + 4)), g. split; [done|]. unfold ISB. cbn [negb]. intros b Hb. unfold NextPC. rewrite (inv_pc _ _ _ _ _ _ _ Hb). revert b Hb.
  match goal with |- forall b, _ -> _ -> _ -> left_block _ _ _ _ (?m b).2 _ _ _ => change (leaves junk entry s0 Ts pc K m e g (u64 (pc + 4)) g) end.
  apply leaves_bind; [apply _|]. apply wp_inline_pc. intros p e1 _ Hp. unfold u64 in Hp. rewrite (wrap_wrap 64) in Hp by lia. apply leaves_then; [auto|]. by apply leaves_exit.
Qed.

(** Every branch of the table, the ISB of a unit that goes on in its block
    aside. *)
Lemma branch_takes IC n h : (n, h) ∈ HandlerTable_branch IC -> (IC = false /\ n = "ISB"%string) \/ takes h n.
Proof.
  intros Hin. unfold HandlerTable_branch in Hin. repeat (apply elem_of_cons in Hin as [[= -> ->]|Hin]); [..|by apply elem_of_nil in Hin].
  all: try (right; first [exact b_cond_takes|exact b_uncond_takes|exact bl_takes|exact blr_takes|exact (compare_takes true)|exact (compare_takes false)
    |exact (test_takes true)|exact (test_takes false)|apply br_takes; auto]).
  destruct IC; [right; exact isb_takes|by left].
Qed.
