(* ===== verification/BranchEmit.v ===== *)
(** What a branch translator emits, whatever the values at run time: it leaves
    the block, and becomes the predecessor only of the targets in its word. *)
From S2P Require Import Prelude A64Common IR IRLogic BlockBuilder Branch ArmSpec LoadStore SystemSpec Frontend UnitExec BlockLogic ExitSpec BranchSpec.
From stdpp Require Import strings.
Open Scope Z_scope.

(** ** The PC stays *)

Class Keeps {A} (m : M A) : Prop := keeps : forall b, CurrentPC (m b).2 = CurrentPC b.

#[export] Instance keeps_ret {A} (a : A) : Keeps (ret a).
Proof. by intros b. Qed.
#[export] Instance keeps_bind {A B} (m : M A) (f : A -> M B) : Keeps m -> (forall a, Keeps (f a)) -> Keeps (bind m f).
Proof. intros Hm Hf b. unfold bind. specialize (Hm b). destruct (m b) as [a b1]. cbn [snd] in Hm. by rewrite (Hf a b1). Qed.
#[export] Instance keeps_emit o : Keeps (emit o).
Proof. by intros b. Qed.
#[export] Instance keeps_Constant c : Keeps (Constant c).
Proof. intros b. unfold Constant. by destruct (find_constant _ _). Qed.
#[export] Instance keeps_PCValue T : Keeps (PCValue T).
Proof. by intros b. Qed.
#[export] Instance keeps_InlineEntrypointOffset T : Keeps (InlineEntrypointOffset T).
Proof. by intros b. Qed.

Lemma sync_pc b : CurrentPC (SyncGPRCache b).2 = CurrentPC b.
Proof. unfold SyncGPRCache. cbn. by destruct (Nat.eqb _ _). Qed.

#[export] Instance keeps_LoadX n : Keeps (LoadX n).
Proof.
  unfold LoadX. destruct (n =? 31); [apply _|]. intros b. unfold LoadGPRSlot. destruct (GuestRegToSlot _); [done|]. pose proof (sync_pc b) as H.
  destruct (SyncGPRCache b) as [[] b1]. cbn [snd] in H. destruct (nth _ _ None) as [[v p]|]; [destruct (_ && _)|]; exact H.
Qed.

#[export] Instance keeps_StoreX n r : Keeps (StoreX n r).
Proof.
  unfold StoreX. destruct (n =? 31); [apply _|]. intros b. unfold StoreGPRSlot. destruct (GuestRegToSlot _); [done|]. cbn [emit].
  match goal with |- context [SyncGPRCache ?x] => pose proof (sync_pc x) as H; destruct (SyncGPRCache x) as [[] b1] end. exact H.
Qed.

(** ** Leaving *)

Section Emits.
Context (K : nat) (pc : Z) (Ts : Z -> Prop).

Definition emits (m : M bool) : Prop :=
  forall b, unit_wf b -> CurrentBlock b = K -> CurrentPC b = pc -> advance K Ts b (m b).2 /\ BlockSetPC (m b).2 = true /\ (m b).1 = true.

Lemma emits_bind {A} (m : M A) (f : A -> M bool) : Grows m -> Keeps m -> (forall a, emits (f a)) -> emits (bind m f).
Proof.
  intros Hg Hk Hf b Hw HK Hpc. specialize (Hg b). specialize (Hk b). unfold bind. destruct (m b) as [a b1]. cbn [snd] in *.
  destruct (Hf a b1) as (A1 & A2 & A3); [by apply (later_wf _ _ (frame_later _ _ Hg))|by rewrite (frame_block _ _ Hg)|congruence|].
  split_and!; [|done|done]. etrans; [by apply frame_advance|exact A1].
Qed.

Lemma emits_exit T : Ts T -> emits (ExitToPC T ;;; ret true).
Proof.
  intros HT b Hw HK Hpc. destruct (exit_advance K Ts T b (fun _ => conj HK HT)) as (A & _ & B). unfold bind. by destruct (ExitToPC T b).
Qed.

Lemma emits_cond c T : Ts T -> Ts (u64 (pc + 4)) -> emits (j <- emit (OCondJump c) ;; EmitConditionalExit j T ;;; ret true).
Proof.
  intros HT HN b Hw HK Hpc. unfold NextPC in *. destruct (cond_exit_ok c K Ts T b Hw HK HT) as (A & _ & B & _); [unfold NextPC; by rewrite Hpc|].
  unfold bind in A, B |- *. cbn [emit] in *. by destruct (EmitConditionalExit _ T _).
Qed.

Lemma emits_left : emits (SetBlockSetPC true ;;; ret true).
Proof. intros b Hw HK Hpc. split_and!; [|done|done]. apply frame_advance; [done|]. apply (grows_SetBlockSetPC true b). Qed.
End Emits.

Definition emits_branch (h : Z -> M bool) (n : string) : Prop :=
  forall K pc Ts w, (forall T, T ∈ branch_targets n pc w -> Ts T) -> emits K pc Ts (h w).

Lemma emits_read {A} K pc Ts (F : A -> M bool) (f : Builder -> A) :
  (forall b, CurrentPC b = pc -> emits K pc Ts (F (f b))) -> emits K pc Ts (fun b => F (f b) b).
Proof. intros H b Hw HK Hpc. by apply H. Qed.

Lemma emits_direct : emits_branch B_uncond "B_uncond" /\ emits_branch BL "BL" /\ emits_branch B_cond "B_cond".
Proof.
  split_and!; intros K pc Ts w HT.
  - intros b Hw HK Hpc. unfold B_uncond. rewrite Hpc. by apply (emits_exit K pc Ts); [apply HT; member|..].
  - intros b Hw HK Hpc. unfold BL, NextPC. rewrite Hpc. set (T := branch_target _ _ _) in *. assert (Ts T) by (apply HT; member).
    destruct (find_target T (JumpTargets (Unit b))); revert b Hw HK Hpc;
      match goal with |- forall b, _ -> _ -> _ -> advance _ _ _ (?m b).2 /\ _ => change (emits K pc Ts m) end;
      repeat (apply emits_bind; [apply _|apply _|intros ?]); [by apply emits_exit|apply emits_left].
  - intros b Hw HK Hpc. unfold B_cond. rewrite Hpc. change (branch_targets "B_cond" pc w) with (branch_target pc (Bits w 23 5) 19 :: (if Bits w 3 0 >=? 14 then [] else [u64 (pc + 4)])) in HT.
    destruct (Bits w 3 0 >=? 14).
    + refine (emits_exit K pc Ts _ _ b Hw HK Hpc). apply HT. member.
    + refine (emits_cond K pc Ts _ _ _ _ b Hw HK Hpc); apply HT; member.
Qed.

Lemma emits_conditional b : emits_branch (fun w => CompareBranch w b) (if b then "CBNZ" else "CBZ") /\ emits_branch (fun w => TestBranch w b) (if b then "TBNZ" else "TBZ").
Proof.
  split; intros K pc Ts w HT; intros x Hw HK Hpc; [unfold CompareBranch|unfold TestBranch]; rewrite Hpc; revert x Hw HK Hpc;
    match goal with |- forall b, _ -> _ -> _ -> advance _ _ _ (?m b).2 /\ _ => change (emits K pc Ts m) end;
    (apply emits_bind; [apply _|apply _|intros ?]); (apply emits_bind; [apply _|apply _|intros ?]);
    apply emits_cond; apply HT; destruct b; cbn; member.
Qed.

Lemma emits_register h n : emits_branch (fun w => BranchRegister w h) n.
Proof.
  intros K pc Ts w HT x Hw HK Hpc. unfold BranchRegister, NextPC. rewrite Hpc. revert x Hw HK Hpc.
  match goal with |- forall b, _ -> _ -> _ -> advance _ _ _ (?m b).2 /\ _ => change (emits K pc Ts m) end.
  apply emits_bind; [apply _|apply _|intros v]. apply emits_bind; [destruct h; apply _|destruct h; apply _|intros _]. apply emits_left.
Qed.

Lemma emits_isb : emits_branch (ISB true) "ISB".
Proof.
  intros K pc Ts w HT x Hw HK Hpc. unfold ISB. cbn [negb]. unfold NextPC. rewrite Hpc. revert x Hw HK Hpc.
  match goal with |- forall b, _ -> _ -> _ -> advance _ _ _ (?m b).2 /\ _ => change (emits K pc Ts m) end.
  apply emits_bind; [apply _|apply _|intros p]. apply emits_bind; [apply _|apply _|intros _].
  intros b Hw HK Hpc. split_and!; [|done|done]. apply advance_of_later; [by apply later_same|done|by left|done|intros PC; apply same_targets|apply no_segments].
Qed.

Lemma branch_case IC n h : (n, h) ∈ HandlerTable_branch IC -> (IC = false /\ n = "ISB"%string /\ h = ISB IC) \/ (takes h n /\ emits_branch h n).
Proof.
  intros Hin. destruct (branch_takes IC n h Hin) as [[-> ->]|Ht].
  - left. unfold HandlerTable_branch in Hin. by repeat (apply elem_of_cons in Hin as [[= ->]|Hin]); [|apply elem_of_nil in Hin].
  - unfold HandlerTable_branch in Hin. repeat (apply elem_of_cons in Hin as [[= -> ->]|Hin]); [..|by apply elem_of_nil in Hin].
    all: try (right; split; [done|]; first [apply emits_direct|apply (emits_conditional true)|apply (emits_conditional false)|apply emits_register]).
    destruct IC; [right; split; [done|exact emits_isb]|by left].
Qed.
