(* ===== verification/BlockEmit.v ===== *)
(** The emission of the instructions of a block, whatever the values at run time:
    it stays in the block until it leaves it, and makes the block the predecessor
    only of the targets of its branches and of what follows its last
    instruction. *)
From S2P Require Import Prelude A64Common IR IRLogic BlockBuilder Branch ArmSpec LoadStore SystemSpec DecodeTable A64Rows Frontend FrontendSpec InstSpec FusionSpec MemRevSpec.
From S2P Require Import UnitExec BlockLogic ExitSpec BranchSpec BranchEmit GenerateIR.
From stdpp Require Import strings.
Open Scope Z_scope.

#[export] Instance grows_rev_address A r : Grows (rev_address A r).
Proof. unfold rev_address. apply _. Qed.

Lemma TryFuseRbitClz_grows l n : Grows (TryFuseRbitClz l n).
Proof. unfold TryFuseRbitClz. grow. Qed.

Lemma TryFuseMemRev_grows l n : Grows (TryFuseMemRev l n).
Proof. unfold TryFuseMemRev. grow. Qed.

(** ** Instructions that may fall through *)

(** A handled instruction that is no branch, or an ISB that goes on. *)
Definition falls (IC : bool) (i : DecodedInst) : Prop :=
  match Matcher i with
  | Some m => MName m <> "UnallocatedEncoding"%string /\ (is_branch (MName m) = true -> IC = false /\ MName m = "ISB"%string)
  | None => False
  end.

(** The targets that the run of instructions [l], at consecutive addresses from
    [pc], may have. *)
Fixpoint chain (pc : Z) (l : list DecodedInst) : Prop :=
  match l with
  | [] => True
  | i :: l => IPC i = pc /\ chain (u64 (pc + 4)) l
  end.

Fixpoint targets_in (IC : bool) (Ts : Z -> Prop) (l : list DecodedInst) : Prop :=
  match l with
  | [] => True
  | i :: l =>
      (forall m T, Matcher i = Some m -> T ∈ branch_targets (MName m) (IPC i) (Word i) -> Ts T) /\
      (l = [] -> falls IC i -> Ts (u64 (IPC i + 4))) /\ targets_in IC Ts l
  end.

(** A fusion is of two instructions, the second of which falls through. *)
Definition returns_in {A} (m : M A) (P : A -> Prop) : Prop := forall b, P (m b).1.

Lemma returns_in_bind {A B} (m : M A) (f : A -> M B) P : (forall a, returns_in (f a) P) -> returns_in (bind m f) P.
Proof. intros H b. unfold bind. destruct (m b) as [a b']. apply H. Qed.

Lemma returns_in_ret {A} (a : A) (P : A -> Prop) : P a -> returns_in (ret a) P.
Proof. by intros H b. Qed.

Definition pair_or_not (k : nat) : Prop := k = 0%nat \/ k = 2%nat.

Lemma fuse_results First Second A r :
  returns_in (fuse_load_rev First Second A) pair_or_not /\ returns_in (fuse_rev_store First Second A r) pair_or_not.
Proof.
  split; intros b; [unfold fuse_load_rev|unfold fuse_rev_store];
    match goal with |- pair_or_not (?m b).1 => enough (Hm : returns_in m pair_or_not) by apply Hm end;
    repeat (apply returns_in_bind; intros ?); try (apply returns_in_ret; by right).
  match goal with |- context [if ?c then _ else _] => destruct c end; [apply returns_in_ret; by left|].
  repeat (apply returns_in_bind; intros ?). apply returns_in_ret; by right.
Qed.

Lemma valid_falls i IC : Valid (DecodeRevAccess i) = true -> falls IC i.
Proof.
  unfold DecodeRevAccess, falls. destruct (Matcher i) as [m|]; [|done]. destruct (_ || _); [done|]. cbv zeta. destruct (_ || _); [done|].
  repeat case_match_name; try done; intros _; by split.
Qed.

Lemma rev_falls j s IC : RevOfWidth j s = true -> falls IC j.
Proof. unfold RevOfWidth, falls. destruct (Matcher j) as [m|]; [|done]. repeat case_match_name; try done; intros _; by split. Qed.

Lemma fuse_rbit_clz_shape l b IC :
  (0 < (TryFuseRbitClz l 0 b).1)%nat -> (TryFuseRbitClz l 0 b).1 = 2%nat /\ exists i j rest, l = i :: j :: rest /\ falls IC j.
Proof.
  unfold TryFuseRbitClz. destruct (_ <? _)%nat; [cbn; lia|]. destruct l as [|i [|j rest]]; [cbn; lia..|]. cbn [lookup list_lookup].
  destruct (Matcher i) as [mi|] eqn:Ei, (Matcher j) as [mj|] eqn:Ej; try (cbn; lia).
  destruct (String.eqb (MName mi) "RBIT_int"); [|cbn; lia]. destruct (String.eqb_spec (MName mj) "CLZ_int") as [Hj|]; [|cbn; lia]. cbn [negb orb].
  destruct (negb _); [cbn; lia|]. destruct (_ || _); [cbn; lia|]. intros Hk. split; [|exists i, j, rest; split; [done|]; unfold falls; by rewrite Ej, Hj].
  match goal with |- (?m b).1 = _ => assert (Hm : returns_in m (fun k => k = 2%nat)); [|apply Hm] end.
  repeat (apply returns_in_bind; intros ?). by apply returns_in_ret.
Qed.

Lemma fuse_mem_rev_shape l b IC :
  (0 < (TryFuseMemRev l 0 b).1)%nat -> (TryFuseMemRev l 0 b).1 = 2%nat /\ exists i j rest, l = i :: j :: rest /\ falls IC j.
Proof.
  unfold TryFuseMemRev. destruct (_ <? _)%nat; [cbn; lia|]. destruct l as [|i [|j rest]]; [cbn; lia..|]. cbn [lookup list_lookup]. cbv zeta.
  destruct (_ && _) eqn:E1.
  - intros Hk. destruct (proj1 (fuse_results i j (DecodeRevAccess i) false) b) as [H0|H2]; [lia|]. split; [done|]. exists i, j, rest. split; [done|].
    rewrite !andb_true_iff in E1. destruct E1 as [[[_ HR] _] _]. by eapply rev_falls.
  - clear E1. match goal with |- context [if ?c then fuse_rev_store _ _ _ _ else _] => destruct c eqn:E2; [|cbn; lia] end. intros Hk.
    destruct (proj2 (fuse_results i j (DecodeRevAccess j) (is_rev16 i)) b) as [H0|H2]; [lia|]. split; [done|]. exists i, j, rest. split; [done|].
    rewrite !andb_true_iff in E2. destruct E2 as [[[[HV _] _] _] _]. by apply valid_falls.
Qed.

(** ** One instruction *)

Lemma raise_left PC r b : BlockSetPC (RaiseGuestSignal PC r b).2 = true.
Proof. unfold RaiseGuestSignal, bind. destruct (PCValue PC b) as [v b1]. by destruct (emit _ b1) as [r1 b2], (emit _ b2) as [r2 b3]. Qed.

Section Emission.
Context (GP IC : bool) (K : nat) (Ts : Z -> Prop).

Definition branch_in (i : DecodedInst) : Prop := forall m T, Matcher i = Some m -> T ∈ branch_targets (MName m) (IPC i) (Word i) -> Ts T.

(** A handler that takes the word: the rest of the translation is nothing. *)
Lemma translate_taken i m h b : Matcher i = Some m -> Handler m = Some h -> (h (Word i) (set_pc b (IPC i))).1 = true ->
  (TranslateInstruction i b).2 = (h (Word i) (set_pc b (IPC i))).2.
Proof. intros H1 H2 H3. unfold TranslateInstruction, SetCurrentPC, bind. rewrite H1, H2. destruct (h (Word i) _) as [ok b1]. cbn in H3. by subst ok. Qed.

(** A word that is not taken raises the signal. *)
Lemma translate_rejected i b :
  match Matcher i with Some m => match Handler m with Some h => (h (Word i) (set_pc b (IPC i))).1 = false | None => True end | None => True end ->
  BlockSetPC (TranslateInstruction i b).2 = true.
Proof.
  intros H. unfold TranslateInstruction, SetCurrentPC, bind.
  assert (Hr : forall x, BlockSetPC (let '(_, b') := (if negb false then UnimplementedInstruction i else ret tt) x in ret true b').2 = true).
  { intros x. unfold UnimplementedInstruction. pose proof (raise_left (IPC i) (mkBreak 0 SIGILL 0 1) x) as Hx. cbn [negb]. by destruct (RaiseGuestSignal _ _ x). }
  destruct (Matcher i) as [m|]; [destruct (Handler m) as [h|]|]; [destruct (h (Word i) _) as [ok b1]; cbn in H; subst ok; apply Hr|exact (Hr (set_pc b (IPC i)))..].
Qed.

Lemma translate_emits i b :
  resolved GP IC i -> branch_in i -> unit_wf b -> CurrentBlock b = K ->
  let b' := (TranslateInstruction i b).2 in advance K Ts b b' /\ (BlockSetPC b' = true \/ (frame b b' /\ falls IC i)).
Proof.
  intros Hres Hin Hw HK b'. assert (F1 : frame b (set_pc b (IPC i))) by apply (grows_SetCurrentPC (IPC i) b). pose proof (later_wf _ _ (frame_later _ _ F1) Hw) as W1.
  destruct (branches i) eqn:Hb.
  - unfold branches in Hb. destruct (Matcher i) as [m|] eqn:Em; [|done]. pose proof Hres as (_ & _ & Hm). rewrite Em in Hm. destruct Hm as [(h & Hh & Hf) _].
    destruct (branch_case IC _ _ (handler_branch GP IC _ _ Hf Hb)) as [(HIC & Hn & Hh')|[_ He]].
    + assert (Hb' : b' = set_pc b (IPC i)) by (unfold b'; rewrite (translate_taken i m h b Em Hh); subst h; by rewrite HIC). rewrite Hb'.
      split; [by apply frame_advance|]. right. split; [done|]. unfold falls. rewrite Em, Hn. by split.
    + destruct (He K (IPC i) Ts (Word i) (fun T => Hin m T Em) (set_pc b (IPC i)) W1 HK eq_refl) as (A & B & C).
      assert (Hb' : b' = (h (Word i) (set_pc b (IPC i))).2) by (by apply (translate_taken i m h b)). rewrite Hb'. split; [|by left]. etrans; [by apply frame_advance|exact A].
  - pose proof (TranslateInstruction_grows GP IC i Hres Hb b) as F. split; [by apply frame_advance|].
    destruct (Matcher i) as [m|] eqn:Em; [|left; apply translate_rejected; by rewrite Em].
    destruct (String.eqb_spec (MName m) "UnallocatedEncoding") as [Hn|Hn].
    + left. apply translate_rejected. rewrite Em. pose proof Hres as (_ & _ & Hm). rewrite Em in Hm. destruct Hm as [(h & -> & Hf) _].
      rewrite Hn, FindHandler_first in Hf. by injection Hf as <-.
    + right. split; [exact F|]. unfold falls. rewrite Em. split; [done|]. intros Hbr. unfold branches in Hb. by rewrite Em, Hbr in Hb.
Qed.

(** ** The end of an instruction *)

Lemma finish_emits Next last b :
  unit_wf b -> (BlockSetPC b = false -> last = true -> CurrentBlock b = K /\ Ts Next) ->
  let '(fin, b') := FinishOp Next last b in advance K Ts b b' /\ (fin = true \/ (last = false /\ b' = b /\ BlockSetPC b = false)).
Proof.
  intros Hw H. unfold FinishOp. destruct (BlockSetPC b); [|destruct last].
  - split; [|by left]. apply advance_of_later; [by apply later_same|done|by left|done|intros PC; apply same_targets|apply no_segments].
  - destruct (H eq_refl eq_refl) as [HK HT]. destruct (exit_advance K Ts Next b (fun _ => conj HK HT)) as (A & _). unfold bind. destruct (ExitToPC Next b). by split; [|left].
  - split; [done|]. by right.
Qed.

Lemma finish_then Next last (k : M unit) b :
  unit_wf b -> (BlockSetPC b = false -> last = true -> CurrentBlock b = K /\ Ts Next) ->
  (last = false -> BlockSetPC b = false -> advance K Ts b (k b).2) ->
  advance K Ts b ((Left <- FinishOp Next last ;; if Left : bool then ret tt else k) b).2.
Proof.
  intros Hw H Hk. pose proof (finish_emits Next last b Hw H) as Hf. unfold bind. destruct (FinishOp Next last b) as [fin b'].
  destruct Hf as [A [->|(-> & -> & Hb)]]; [done|]. destruct fin; [done|]. by apply Hk.
Qed.

(** ** The instructions of a block *)

Lemma next_pc pc k : u64 (u64 (pc + 4) + k) = u64 (pc + (4 + k)).
Proof. unfold u64, wrap. rewrite Zplus_mod_idemp_l. f_equal. lia. Qed.

(** The rest of the block after a fused pair. *)
Lemma fused_advance i l pc k b b1 :
  (forall l', (length l' < length (i :: l))%nat -> forall pc b, chain pc l' -> targets_in IC Ts l' -> Forall (resolved GP IC) l' -> unit_wf b -> CurrentBlock b = K ->
    advance K Ts b (translate_insts l' b).2) ->
  chain pc (i :: l) -> targets_in IC Ts (i :: l) -> Forall (resolved GP IC) (i :: l) -> unit_wf b -> CurrentBlock b = K -> frame b b1 ->
  k = 2%nat -> (exists i' j rest, i :: l = i' :: j :: rest /\ falls IC j) ->
  advance K Ts b ((Left <- FinishOp (u64 (IPC i + Z.of_nat k * INSTRUCTION_SIZE)) (Nat.eqb k (length (i :: l))) ;;
                   if Left : bool then ret tt else match l with _ :: l' => translate_insts l' | [] => ret tt end) b1).2.
Proof.
  intros IH (Hi & Hc) (_ & _ & Ht) Hl Hw HK F -> (i' & j & rest & [= <- ->] & Hj). destruct Hc as [Hj' Hc]. destruct Ht as (_ & Hend & Ht).
  pose proof (later_wf _ _ (frame_later _ _ F) Hw) as W1. pose proof (frame_block _ _ F) as K1. etrans; [by apply frame_advance|]. apply finish_then; [done| |].
  - intros _ Hlast. apply Nat.eqb_eq in Hlast. cbn [length] in Hlast. split; [congruence|]. specialize (Hend ltac:(by destruct rest; cbn in Hlast) Hj).
    rewrite Hj', next_pc, <- Hi in Hend. exact Hend.
  - intros _ _. apply Forall_cons in Hl as [_ [_ Hl]%Forall_cons]. by apply (IH rest) with (pc := u64 (u64 (pc + 4) + 4)); [cbn; lia|done..|congruence].
Qed.

Lemma translate_insts_advance l pc b :
  chain pc l -> targets_in IC Ts l -> Forall (resolved GP IC) l -> unit_wf b -> CurrentBlock b = K -> advance K Ts b (translate_insts l b).2.
Proof.
  remember (length l) as n eqn:Hn. revert l pc b Hn. induction n as [n IH] using lt_wf_ind. intros [|i rest] pc b Hn Hc Ht Hl Hw HK; [done|].
  assert (IH' : forall l', (length l' < length (i :: rest))%nat -> forall pc b, chain pc l' -> targets_in IC Ts l' -> Forall (resolved GP IC) l' -> unit_wf b -> CurrentBlock b = K ->
    advance K Ts b (translate_insts l' b).2) by (intros l' Hlt pc' b' ? ? ? ? ?; by apply (IH (length l') ltac:(by rewrite Hn) l' pc')).
  clear IH. cbn [translate_insts]. unfold bind at 1. assert (F1 : frame b (emit (OGuestOpcode (IPC i - IR.Entry b)) b).2) by apply frame_emit. destruct (emit _ b) as [r0 b1]. cbn [snd] in F1.
  unfold bind at 1. pose proof (fuse_rbit_clz_shape (i :: rest) b1 IC) as S2. pose proof (TryFuseRbitClz_grows (i :: rest) 0 b1) as F2.
  destruct (TryFuseRbitClz (i :: rest) 0 b1) as [k b2]. cbn [fst snd] in S2, F2.
  destruct (Nat.ltb_spec 0 k) as [Hk|Hk]; [destruct (S2 Hk) as [-> S2']; apply (fused_advance i rest pc); try done; by etrans|].
  unfold bind at 1. pose proof (fuse_mem_rev_shape (i :: rest) b2 IC) as S3. pose proof (TryFuseMemRev_grows (i :: rest) 0 b2) as F3.
  destruct (TryFuseMemRev (i :: rest) 0 b2) as [k' b3]. cbn [fst snd] in S3, F3.
  destruct (Nat.ltb_spec 0 k') as [Hk'|Hk']; [destruct (S3 Hk') as [-> S3']; apply (fused_advance i rest pc); try done; etrans; [exact F1|by etrans]|].
  assert (F : frame b b3) by (etrans; [exact F1|by etrans]). pose proof (later_wf _ _ (frame_later _ _ F) Hw) as W3. pose proof (frame_block _ _ F) as K3. rewrite HK in K3.
  apply Forall_cons in Hl as [Hi Hl]. destruct Hc as [Hpc Hc]. destruct Ht as (Hin & Hend & Ht). clear S2 S3 F1 F2 F3. etrans; [by apply frame_advance|].
  unfold bind at 1. destruct (translate_emits i b3 Hi Hin W3 K3) as [A Hcase]. destruct (TranslateInstruction i b3) as [ok b4]. cbn [snd] in A, Hcase.
  pose proof (later_wf _ _ (adv_later _ _ _ _ A) W3) as W4. etrans; [exact A|]. change (Z.of_nat 1 * INSTRUCTION_SIZE) with 4. apply finish_then; [done| |].
  - intros Ho Hlast. destruct Hcase as [Hs|[F4 Hf]]; [congruence|]. split; [by rewrite (frame_block _ _ F4)|]. apply Hend; [|done].
    destruct rest; [done|]. by apply Nat.eqb_eq in Hlast.
  - intros _ Ho. destruct Hcase as [Hs|[F4 Hf]]; [congruence|]. apply (IH' rest ltac:(cbn; lia) (u64 (pc + 4))); try done. by rewrite (frame_block _ _ F4).
Qed.
End Emission.
