(* ===== verification/BlockSpec.v ===== *)
(** Executing the instructions of a block: the Arm instructions one after the
    other, up to the first that leaves the block or stops the guest. *)
From S2P Require Import Prelude DecodeTable A64Common IR ArmSpec IRLogic BlockBuilder Branch LoadStore SystemSpec A64Rows Frontend FrontendSpec InstSpec FusionSpec MemRevSpec.
From S2P Require Import UnitExec BlockLogic ExitSpec BranchSpec BranchEmit GenerateIR BlockEmit.
From stdpp Require Import strings.
Open Scope Z_scope.

(** ** The Arm machine *)

Section Machine.
(** The instruction at each address. *)
Context (fetch : Z -> DecodedInst).

Definition arm_tick (c : Z * Guest) : Z * Guest := match Stop c.2 with Some _ => c | None => arm_next (fetch c.1) c.2 end.

Fixpoint arm_go (n : nat) (c : Z * Guest) : Z * Guest :=
  match n with O => c | S n => arm_go n (arm_tick c) end.

Lemma arm_go_add n m c : arm_go (n + m) c = arm_go m (arm_go n c).
Proof. revert c. induction n as [|n IH]; intros c; [done|apply IH]. Qed.

Lemma arm_go_one i pc g : fetch pc = i -> Stop g = None -> arm_go 1 (pc, g) = arm_next i g.
Proof. intros Hi Hg. cbn. unfold arm_tick. cbn. by rewrite Hg, Hi. Qed.

Lemma arm_go_stopped n c : Stop c.2 <> None -> arm_go n c = c.
Proof. intros Hs. induction n as [|n IH]; [done|]. cbn. unfold arm_tick. by destruct (Stop c.2). Qed.

Lemma arm_go_two i j pc g :
  fetch pc = i -> fetch (u64 (pc + 4)) = j -> IPC i = pc -> IPC j = u64 (pc + 4) -> branches i = false -> branches j = false -> Stop g = None ->
  exists PC, arm_go 2 (pc, g) = (PC, arm_run [i; j] g) /\ (Stop (arm_run [i; j] g) = None -> PC = u64 (pc + 8)).
Proof.
  intros Fi Fj Hi Hj Bi Bj Hg. change 2%nat with (1 + 1)%nat. rewrite arm_go_add, (arm_go_one i) by done. rewrite arm_next_plain, Hi by done. cbn [arm_run].
  destruct (Stop (arm_step i g)) eqn:E.
  - rewrite arm_go_stopped by (cbn; by rewrite E). eexists. split; [done|]. by rewrite E.
  - rewrite (arm_go_one j), arm_next_plain, Hj, next_pc by done. eexists. destruct (Stop (arm_step j _)); by split.
Qed.
End Machine.

Section Block.
Context (GP IC : bool) (fetch : Z -> DecodedInst) (junk : nat -> Z) (entry : Z) (s0 : Machine) (K : nat) (Ts : Z -> Prop).
Abbreviation ends := (ends junk entry s0).
Abbreviation start := (length (Env s0)).

(** The block stops with a signal or a fault. *)
Definition traps (b : Builder) (g : Guest) : Prop :=
  trapped (Stop g) = true /\ exists c, block_code b K = Some (start, c) /\ G (exec junk entry s0 c) = g.

(** What the rest of a block does from [pc]: [lo] instructions or more, and then
    it is left or stops. *)
Definition finishes (lo : nat) (b : Builder) (pc : Z) (g : Guest) : Prop :=
  exists n PC g', (lo <= n)%nat /\ arm_go fetch n (pc, g) = (PC, g') /\ (left_block junk entry s0 Ts b K PC g' \/ traps b g').

Lemma traps_later b b' g : later b b' -> traps b g -> traps b' g.
Proof.
  intros Hl (Ht & c & Hc & He). split; [done|]. destruct (later_code _ _ _ _ _ Hl Hc) as (c' & Hc' & Hp). exists c'. split; [done|].
  rewrite (exec_stopped _ _ s0 c c'); [done| |done]. rewrite He. by apply trapped_stop.
Qed.

Lemma stopped_traps b g : current b K start -> stopped junk entry s0 b g -> traps b g.
Proof. intros Hc [He Ht]. split; [done|]. exists (code s0 b). split; [by apply current_code|done]. Qed.

Lemma finishes_after b pc g n PC g1 : (0 < n)%nat -> arm_go fetch n (pc, g) = (PC, g1) -> finishes 0 b PC g1 -> finishes 1 b pc g.
Proof. intros Hn H1 (m & PC' & g' & Hm & H2 & H3). exists (n + m)%nat, PC', g'. rewrite arm_go_add, H1. split_and!; [lia|done|done]. Qed.

(** ** One instruction *)

Definition runs (b : Builder) (g : Guest) : Prop := exists pc e, inv junk entry pc s0 b e g.

(** After one instruction: the block goes on, stops, or has been left. *)
Inductive inst_out (b : Builder) (i : DecodedInst) (g : Guest) : Prop :=
  | io_runs g' : runs b g' -> arm_next i g = (u64 (IPC i + 4), g') -> inst_out b i g
  | io_traps g' : stopped junk entry s0 b g' -> current b K start -> (arm_next i g).2 = g' -> inst_out b i g
  | io_left PC g' : BlockSetPC b = true -> left_block junk entry s0 Ts b K PC g' -> arm_next i g = (PC, g') -> inst_out b i g.

Lemma translate_out pc b e g i :
  inv junk entry pc s0 b e (set_marker g (IPC i)) -> resolved GP IC i -> branch_in Ts i -> unit_wf b -> current b K start ->
  inst_out (TranslateInstruction i b).2 i g.
Proof.
  intros Hb Hres Hin Hw Hc. destruct (branches i) eqn:Hbr.
  - unfold branches in Hbr. destruct (Matcher i) as [m|] eqn:Em; [|done]. pose proof Hres as (Hpc & _ & Hm). rewrite Em in Hm. destruct Hm as [(h & Hh & Hf) _].
    pose proof (handler_branch GP IC _ _ Hf Hbr) as Htab. pose proof (inv_set_pc junk entry s0 pc (IPC i) b e _ Hb) as Hb1.
    assert (F1 : frame b (set_pc b (IPC i))) by apply (grows_SetCurrentPC (IPC i) b). pose proof (later_wf _ _ (frame_later _ _ F1) Hw) as W1. pose proof (frame_current _ _ _ _ F1 Hc) as C1.
    destruct (branch_case IC _ _ Htab) as [(HIC & Hn & ->)|[Ht He]].
    + rewrite (translate_taken i m (ISB IC) b Em Hh) by (by rewrite HIC). rewrite HIC. apply (io_runs _ _ _ (set_marker g (IPC i))); [by exists (IPC i), e|].
      unfold arm_next. rewrite Em. cbn [mbind option_bind]. by rewrite Hn.
    + destruct (Ht junk entry Ts (IPC i) s0 K (Word i) e (set_marker g (IPC i)) Hpc (fun T => Hin m T Em)) as (PC & g' & Hsem & Hl).
      destruct (He K (IPC i) Ts (Word i) (fun T => Hin m T Em) (set_pc b (IPC i)) W1 (proj1 C1) eq_refl) as (_ & B & C).
      rewrite (translate_taken i m h b Em Hh C). apply (io_left _ _ _ PC g'); [done|by apply Hl|]. unfold arm_next. rewrite Em. cbn [mbind option_bind]. by rewrite Hsem.
  - pose proof (TranslateInstruction_grows GP IC i Hres Hbr b) as F.
    destruct (translate_exec junk entry s0 GP IC pc b e g i Hb Hres Hbr) as [Hr|Hs].
    + apply (io_runs _ _ _ (arm_step i g)); [exact Hr|by apply arm_next_plain].
    + apply (io_traps _ _ _ (arm_step i g)); [done|by eapply frame_current|by rewrite arm_next_plain].
Qed.

(** ** The end of an instruction *)

Definition tail (Next : Z) (last : bool) (k : M unit) : M unit := Left <- FinishOp Next last ;; if Left : bool then ret tt else k.

Lemma tail_runs Next last k b g :
  runs b g -> current b K start -> in_width 64 Next -> (last = true -> Ts Next) -> (last = false -> finishes 1 (k b).2 Next g) ->
  finishes 0 (tail Next last k b).2 Next g.
Proof.
  intros (pc & e & Hi) Hc HN Hlast Hk. unfold tail, FinishOp, bind. rewrite (inv_open _ _ _ _ _ _ _ Hi). destruct last.
  - pose proof (exit_to_pc junk entry s0 Ts pc b e g Next K Hi Hc HN (fun _ => Hlast eq_refl)) as Hl. destruct (ExitToPC Next b) as [[] b']. exists 0%nat, Next, g.
    split_and!; [lia|done|by left].
  - destruct (Hk eq_refl) as (n & PC & g' & Hn & H). exists n, PC, g'. split; [lia|done].
Qed.

Lemma tail_left Next last k b PC g :
  BlockSetPC b = true -> left_block junk entry s0 Ts b K PC g -> left_block junk entry s0 Ts (tail Next last k b).2 K PC g.
Proof. intros Hb Hl. unfold tail, FinishOp, bind. rewrite Hb. apply (left_later _ _ _ _ b); [by apply later_same|done..]. Qed.

(** ** The instructions of a block *)

Definition at_addresses (l : list DecodedInst) : Prop := Forall (fun i => fetch (IPC i) = i) l.

(** The run of a block's rest, for shorter ones. *)
Definition run_below (n : nat) : Prop := forall l pc b g, (length l < n)%nat -> l <> [] -> chain pc l -> targets_in IC Ts l -> at_addresses l -> Forall (resolved GP IC) l ->
  runs b g -> unit_wf b -> current b K start -> finishes 1 (translate_insts l b).2 pc g.

Lemma resolved_width l pc : Forall (resolved GP IC) l -> chain pc l -> l <> [] -> in_width 64 pc.
Proof. destruct l as [|i l]; [done|]. intros [(Hw & _) _]%Forall_cons [<- _] _. exact Hw. Qed.

Lemma next_width pc k : in_width 64 (u64 (pc + k)).
Proof. apply wrap_range. lia. Qed.

Lemma tail_fused i l pc b b1 g k :
  run_below (length (i :: l)) -> chain pc (i :: l) -> targets_in IC Ts (i :: l) -> at_addresses (i :: l) -> Forall (resolved GP IC) (i :: l) ->
  unit_wf b -> current b K start -> Stop g = None -> frame b b1 -> k = 2%nat ->
  (exists i' j rest, i :: l = i' :: j :: rest /\ branches i' = false /\ branches j = false /\ falls IC j /\
     ((exists pc e, inv junk entry pc s0 b1 e (arm_run [i'; j] g)) \/ stopped junk entry s0 b1 (arm_run [i'; j] g))) ->
  finishes 1 (tail (u64 (IPC i + Z.of_nat k * INSTRUCTION_SIZE)) (Nat.eqb k (length (i :: l))) (match l with _ :: l' => translate_insts l' | [] => ret tt end) b1).2 pc g.
Proof.
  intros IH Hch Ht Ha Hl Hw Hc Hg F -> (i' & j & rest & [= <- ->] & Bi & Bj & Hj & He). pose proof Hch as (Hi & Hj' & Hch').
  pose proof Ha as [Fi [Fj Ha']%Forall_cons]%Forall_cons. rewrite Hi in Fi. rewrite Hj' in Fj. pose proof (frame_current _ _ _ _ F Hc) as C1. pose proof (later_wf _ _ (frame_later _ _ F) Hw) as W1.
  destruct (arm_go_two fetch i j pc g Fi Fj Hi Hj' Bi Bj Hg) as (PC & H2 & HPC).
  assert (HN : u64 (IPC i + Z.of_nat 2 * INSTRUCTION_SIZE) = u64 (pc + 8)) by (by rewrite Hi). set (Next := u64 (IPC i + _)) in *.
  assert (Hend : Nat.eqb 2 (length (i :: j :: rest)) = true -> Ts Next).
  { intros Hlast%Nat.eqb_eq. destruct Ht as (_ & _ & _ & Hend & _). specialize (Hend ltac:(by destruct rest; cbn in Hlast) Hj). rewrite Hj', next_pc in Hend. by rewrite HN. }
  destruct He as [Hr|Hs].
  - destruct Hr as (pc1 & e1 & Hr). pose proof (inv_guest _ _ _ _ _ _ _ Hr) as (_ & _ & Hns). specialize (HPC Hns). subst PC. eapply (finishes_after _ _ _ 2); [lia|exact H2|].
    rewrite <- HN. apply tail_runs; [by exists pc1, e1|done|rewrite HN; apply next_width|done|]. intros Hlast. rewrite HN.
    replace (u64 (pc + 8)) with (u64 (u64 (pc + 4) + 4)) by apply next_pc. apply Forall_cons in Hl as [_ [_ Hl]%Forall_cons]. destruct Ht as (_ & _ & _ & _ & Ht).
    apply IH; [cbn; lia|by intros ->|done..|by exists pc1, e1|done|done].
  - exists 2%nat, PC, (arm_run [i; j] g). split_and!; [lia|done|right]. apply (traps_later b1); [|by apply stopped_traps].
    refine (adv_later K Ts _ _ (fused_advance GP IC K Ts i (j :: rest) pc 2 b1 b1 _ Hch Ht Hl W1 (proj1 C1) ltac:(reflexivity) eq_refl _)); [|by exists i, j, rest].
    intros l' _ pc' b' ? ? ? ? ?. by apply (translate_insts_advance GP IC K Ts l' pc').
Qed.

(** A fusion of a marked instruction, with its shape. *)
Lemma fused_cases i rest b g (r : nat * Builder) (l := i :: rest) :
  fused junk entry s0 l b g r -> ((0 < r.1)%nat -> r.1 = 2%nat /\ exists i' j rest', l = i' :: j :: rest' /\ falls IC j) ->
  r = (0%nat, b) \/ (r.1 = 2%nat /\ exists i' j rest', l = i' :: j :: rest' /\ branches i' = false /\ branches j = false /\ falls IC j /\
    ((exists pc e, inv junk entry pc s0 r.2 e (arm_run [i'; j] g)) \/ stopped junk entry s0 r.2 (arm_run [i'; j] g))).
Proof.
  intros [->|(i' & j & rest' & H2 & Hl & Bi & Bj & He)] Hs; [by left|right]. split; [done|]. destruct Hs as (_ & i2 & j2 & rest2 & Hl2 & Hj); [lia|].
  rewrite Hl in Hl2. injection Hl2 as <- <- <-. by exists i', j, rest'.
Qed.

(** One instruction that is not fused, and the rest. *)
Lemma single_finishes i l pc b e g pc0 :
  run_below (length (i :: l)) -> chain pc (i :: l) -> targets_in IC Ts (i :: l) -> at_addresses (i :: l) -> Forall (resolved GP IC) (i :: l) ->
  inv junk entry pc0 s0 b e (set_marker g (IPC i)) -> unit_wf b -> current b K start ->
  finishes 1 ((TranslateInstruction i ;;; tail (u64 (IPC i + 4)) (Nat.eqb 1 (length (i :: l))) (translate_insts l)) b).2 pc g.
Proof.
  intros IH Hch Ht Ha Hl Hb Hw Hc. pose proof Hch as [Hi Hch']. pose proof Ha as [Fi Ha']%Forall_cons. rewrite Hi in Fi. pose proof Hl as [Hri Hl']%Forall_cons. pose proof Ht as (Hin & Hend & Ht').
  assert (Hg : Stop g = None) by apply (inv_guest _ _ _ _ _ _ _ Hb). pose proof (arm_go_one fetch i pc g Fi Hg) as H1.
  pose proof (translate_out pc0 b e g i Hb Hri Hin Hw Hc) as Ho. destruct (translate_emits GP IC K Ts i b Hri Hin Hw (proj1 Hc)) as [A Hcase]. unfold bind at 1.
  destruct (TranslateInstruction i b) as [ok b4]. cbn [snd] in *. pose proof (later_wf _ _ (adv_later _ _ _ _ A) Hw) as W4.
  assert (Hlast : falls IC i -> Nat.eqb 1 (length (i :: l)) = true -> Ts (u64 (IPC i + 4))) by (intros Hf He; apply Hend; [by destruct l|done]).
  destruct Ho as [g' Hr Hn|g' Hs Hc4 Hn|PC g' HB Hlb Hn].
  - pose proof Hr as (pc4 & e4 & Hr'). destruct Hcase as [HB|[F4 Hf]]; [by rewrite (inv_open _ _ _ _ _ _ _ Hr') in HB|]. pose proof (frame_current _ _ _ _ F4 Hc) as C4.
    eapply (finishes_after _ _ _ 1); [lia|by rewrite H1|]. apply tail_runs; [done|done|apply next_width|by apply Hlast|]. intros Hlen. rewrite Hi in *.
    apply IH; [cbn; lia|by intros ->|done..].
  - destruct (arm_next i g) as [PC g1] eqn:En. cbn in Hn. subst g1. exists 1%nat, PC, g'. split_and!; [lia|by rewrite H1|right]. apply (traps_later b4); [|by apply stopped_traps].
    apply (adv_later K Ts). apply (finish_then K Ts); [done| |].
    + intros HB He. destruct Hcase as [?|[F4 Hf]]; [congruence|]. split; [apply Hc4|by apply Hlast].
    + intros He HB. apply (translate_insts_advance GP IC K Ts l (u64 (pc + 4))); try done. apply Hc4.
  - exists 1%nat, PC, g'. split_and!; [lia|by rewrite H1|left]. by apply tail_left.
Qed.

Lemma insts_finish l pc b g :
  l <> [] -> chain pc l -> targets_in IC Ts l -> at_addresses l -> Forall (resolved GP IC) l -> runs b g -> unit_wf b -> current b K start ->
  finishes 1 (translate_insts l b).2 pc g.
Proof.
  remember (length l) as n eqn:Hn. revert l pc b g Hn. induction n as [n IH] using lt_wf_ind. intros l pc b g Hn Hl0 Hch Ht Ha Hl Hr Hw Hc.
  assert (IH' : run_below n) by (intros l' pc' b' g' Hlt; by apply (IH (length l'))). clear IH. subst n. destruct l as [|i rest]; [done|]. clear Hl0.
  destruct Hr as (pc0 & e & Hb). pose proof (inv_guest _ _ _ _ _ _ _ Hb) as Hg. pose proof Hl as [Hri _]%Forall_cons. cbn [translate_insts]. unfold bind at 1.
  assert (F1 : frame b (emit (OGuestOpcode (IPC i - IR.Entry b)) b).2) by apply frame_emit. rewrite (inv_entry _ _ _ _ _ _ _ Hb) in F1 |- *.
  assert (Hm : wp junk entry pc0 s0 (emit (OGuestOpcode (IPC i - entry))) e g (fun _ _ g' => g' = set_marker g (IPC i))) by (by apply wp_marker; [apply Hri|..]).
  destruct (Hm b Hb) as (e1 & ? & Hb1 & ->). destruct (emit _ b) as [r0 b1]. cbn [snd] in Hb1, F1. unfold bind at 1.
  pose proof (fused_cases i rest b1 g _ (fuse_rbit_clz junk entry s0 GP IC pc0 b1 e1 g i rest Hb1 Hl) (fuse_rbit_clz_shape (i :: rest) b1 IC)) as S2.
  pose proof (TryFuseRbitClz_grows (i :: rest) 0 b1) as F2. destruct (TryFuseRbitClz (i :: rest) 0 b1) as [k b2]. cbn [fst snd] in S2, F2.
  destruct S2 as [[= -> ->]|[-> S2]]; [|apply (tail_fused i rest pc b b2 g 2); try done; [apply Hg|by etrans]]. cbn [Nat.ltb Nat.leb]. unfold bind at 1.
  pose proof (fused_cases i rest b1 g _ (fuse_mem_rev junk entry s0 GP IC pc0 b1 e1 g i rest Hb1 Hl) (fuse_mem_rev_shape (i :: rest) b1 IC)) as S3.
  pose proof (TryFuseMemRev_grows (i :: rest) 0 b1) as F3. destruct (TryFuseMemRev (i :: rest) 0 b1) as [k b3]. cbn [fst snd] in S3, F3.
  destruct S3 as [[= -> ->]|[-> S3]]; [|apply (tail_fused i rest pc b b3 g 2); try done; [apply Hg|by etrans]]. cbn [Nat.ltb Nat.leb].
  apply (single_finishes i rest pc b1 e1 g pc0); try done; [exact (later_wf _ _ (frame_later _ _ F1) Hw)|exact (frame_current _ _ _ _ F1 Hc)].
Qed.
End Block.
