(* ===== verification/UnitEmit.v ===== *)
(** The emission of a unit, block after block: the numbering of its blocks, what
    is known of each block that has been emitted, and of the register caches
    that blocks continue. *)
From S2P Require Import Prelude A64Common IR ArmSpec IRLogic BlockBuilder Branch Frontend FrontendSpec InstSpec Decoder GenerateIR UnitExec BlockLogic ExitSpec BranchSpec BranchEmit BlockEmit BlockSpec.
Open Scope Z_scope.
Import Decoder.

(** ** The blocks of a unit *)

Definition sole (B : DecodedBlocks) : bool := negb (SolePredEntry B =? 0) && negb (IsEntryPoint B).

(** Where a block may go within its unit: the targets of the branch at its end,
    or what follows it. *)
Definition goes (IC : bool) (Buffer : list DecodedInst) (B : DecodedBlocks) (T : Z) : Prop :=
  exists i, last (block_insts Buffer B) = Some i /\
    ((exists m, Matcher i = Some m /\ T ∈ branch_targets (MName m) (IPC i) (Word i)) \/ (falls IC i /\ T = u64 (IPC i + 4))).

Fixpoint number (n : nat) (Bs : list DecodedBlocks) : list (Z * JumpTargetInfo) :=
  match Bs with
  | [] => []
  | B :: Bs => (BEntry B, mkTarget n false (IsEntryPoint B) (sole B) None) :: number (S n) Bs
  end.

Lemma find_target_app a (l l' : list (Z * JumpTargetInfo)) : find_target a (l ++ l') = match find_target a l with Some t => Some t | None => find_target a l' end.
Proof. induction l as [|[x t] l IH]; [done|]. cbn. by destruct (x =? a). Qed.

Lemma create_blocks_ok Bs b (u := Unit b) :
  NoDup (BEntry <$> Bs) -> (forall B, B ∈ Bs -> find_target (BEntry B) (JumpTargets u) = None) ->
  create_blocks Bs b = (tt, set_unit b (mkUnit (JumpTargets u ++ number (NextBlock u) Bs) (Segments u) (TrueBlock u) (FalseBlock u) (RegionPred u)
                                          (NextBlock u + length Bs) (ISBExitTargets u))).
Proof.
  unfold u. clear u. revert b. induction Bs as [|B Bs IH]; intros b Hnd Hf.
  - cbn. rewrite app_nil_r, Nat.add_0_r. by destruct b as [? ? ? ? ? ? ? ? ? []].
  - cbn in Hnd. apply NoDup_cons in Hnd as [HB Hnd]. cbn [create_blocks]. unfold bind, CreateNewCodeBlock, try_emplace. cbn [Unit set_unit JumpTargets].
    rewrite (Hf B) by (by left). rewrite IH; [|done|].
    + cbn. f_equal. unfold set_unit. cbn. do 2 f_equal; [by rewrite <- app_assoc|lia].
    + intros B' HB'. cbn. rewrite find_target_app, Hf by (by right). cbn. destruct (Z.eqb_spec (BEntry B) (BEntry B')) as [He|]; [|done].
      destruct HB. rewrite He. by apply list_elem_of_fmap_2.
Qed.

Lemma find_number n Bs i B : NoDup (BEntry <$> Bs) -> Bs !! i = Some B -> find_target (BEntry B) (number n Bs) = Some (mkTarget (n + i) false (IsEntryPoint B) (sole B) None).
Proof.
  revert n i. induction Bs as [|B' Bs IH]; intros n i Hnd Hi; [done|]. cbn in Hnd. apply NoDup_cons in Hnd as [HB Hnd]. destruct i as [|i]; cbn in Hi |- *.
  - injection Hi as <-. by rewrite Z.eqb_refl, Nat.add_0_r.
  - destruct (Z.eqb_spec (BEntry B') (BEntry B)) as [He|]; [|by rewrite (IH (S n) i) by done; rewrite Nat.add_succ_r].
    destruct HB. rewrite He. by apply list_elem_of_fmap_2, (list_elem_of_lookup_2 _ i).
Qed.

Lemma number_find n Bs a t : find_target a (number n Bs) = Some t -> exists i B, Bs !! i = Some B /\ BEntry B = a /\ t = mkTarget (n + i) false (IsEntryPoint B) (sole B) None.
Proof.
  revert n. induction Bs as [|B Bs IH]; intros n; [done|]. cbn. destruct (Z.eqb_spec (BEntry B) a) as [He|].
  - intros [= <-]. exists 0%nat, B. by rewrite Nat.add_0_r.
  - intros H. destruct (IH _ H) as (i & B' & Hi & HB & ->). exists (S i), B'. by rewrite Nat.add_succ_r.
Qed.

(** What the decoder gives: [fetch] is the program, [Pc] the entry. *)
Record unit_shape (GP IC : bool) (fetch : Z -> DecodedInst) (Buffer : list DecodedInst) (Blocks : list DecodedBlocks) (Pc : Z) : Prop := {
  us_first : exists B Bs, Blocks = B :: Bs /\ BEntry B = Pc /\ IsEntryPoint B = true;
  us_entries : NoDup (BEntry <$> Blocks);
  us_block B (l := block_insts Buffer B) : B ∈ Blocks ->
    BlockStatus B = SUCCESS /\ NumInstructions B <> 0%nat /\ l <> [] /\ chain (BEntry B) l /\ at_addresses fetch l /\ Forall (resolved GP IC) l /\ targets_in IC (goes IC Buffer B) l;
  us_sole A B D : A ∈ Blocks -> B ∈ Blocks -> D ∈ Blocks -> sole D = true -> goes IC Buffer A (BEntry D) -> goes IC Buffer B (BEntry D) -> BEntry A = BEntry B }.

Section Unit.
Context (GP IC NoRegionCache : bool) (fetch : Z -> DecodedInst) (Buffer : list DecodedInst) (Blocks : list DecodedBlocks) (Pc : Z).
Hypothesis (Hshape : unit_shape GP IC fetch Buffer Blocks Pc).
#[local] Set Default Proof Using "Type*".
Abbreviation goes := (goes IC Buffer).

(** The number of the block at [a]. *)
Definition num (a : Z) : nat := default 0%nat (BlockEntry <$> find_target a (number 1 Blocks)).
Abbreviation id B := (num (BEntry B)).

Lemma id_position B : B ∈ Blocks -> exists i, Blocks !! i = Some B /\ id B = S i /\ find_target (BEntry B) (number 1 Blocks) = Some (mkTarget (S i) false (IsEntryPoint B) (sole B) None).
Proof.
  intros (i & Hi)%list_elem_of_lookup_1. exists i. pose proof (find_number 1 Blocks i B (us_entries _ _ _ _ _ _ Hshape) Hi) as H. split; [done|]. unfold num. by rewrite H.
Qed.

Lemma id_inj A B : A ∈ Blocks -> B ∈ Blocks -> id A = id B -> A = B.
Proof. intros HA HB He. destruct (id_position A HA) as (i & Hi & Ei & _), (id_position B HB) as (j & Hj & Ej & _). assert (i = j) by lia. congruence. Qed.

Lemma entry_inj A B : A ∈ Blocks -> B ∈ Blocks -> BEntry A = BEntry B -> A = B.
Proof. intros HA HB He. apply id_inj; [done..|by rewrite He]. Qed.

Lemma id_bound B : B ∈ Blocks -> (0 < id B <= length Blocks)%nat.
Proof. intros HB. destruct (id_position B HB) as (i & Hi & -> & _). apply lookup_lt_Some in Hi. lia. Qed.

(** *** The start *)

Definition begun (b0 : Builder) : Builder := (BeginFunction Pc Blocks (ResetWorkingList b0)).2.

Lemma begun_eq b0 : begun b0 =
  mkBuilder [] (CurrentPC b0) Pc empty_cache 0 1 [] 0 false (mkUnit (number 1 Blocks) [(1%nat, 0%nat)] [] [] [] (S (length Blocks)) []).
Proof.
  destruct (us_first _ _ _ _ _ _ Hshape) as (B & Bs & HBs & HB & _). pose proof (id_position B ltac:(rewrite HBs; by left)) as (i & Hi & _ & Hf).
  assert (i = 0%nat) as ->.
  { destruct i as [|i]; [done|]. pose proof (us_entries _ _ _ _ _ _ Hshape) as Hnd. rewrite HBs in Hi, Hnd. cbn in Hi, Hnd. apply NoDup_cons in Hnd as [Hn _].
    destruct Hn. by apply list_elem_of_fmap_2, (list_elem_of_lookup_2 _ i). }
  unfold begun, BeginFunction, bind. rewrite create_blocks_ok; [|apply Hshape|done]. cbn [set_entry ResetWorkingList Unit empty_unit JumpTargets set_unit app NextBlock Nat.add].
  rewrite HB in Hf. rewrite Hf. reflexivity.
Qed.

Lemma number_blocks n Bs : Forall (fun p => (p.2 < n + length Bs)%nat) (map (fun p => (p.1, BlockEntry p.2)) (number n Bs)).
Proof.
  revert n. induction Bs as [|B Bs IH]; intros n; [by apply Forall_nil|]. cbn. apply Forall_cons. split; [cbn; lia|].
  eapply Forall_impl; [apply IH|]. cbn. intros p Hp. lia.
Qed.

Lemma begun_wf b0 : unit_wf (begun b0).
Proof.
  rewrite begun_eq. destruct (us_first _ _ _ _ _ _ Hshape) as (B & Bs & HBs & _). split; cbn; [|apply (number_blocks 1)|by apply Forall_nil..].
  rewrite HBs. apply Forall_cons. split; [cbn; lia|by apply Forall_nil].
Qed.

(** ** What is known of the blocks emitted so far

    [C K]: the register cache at the head of block [K], empty unless the block
    continues the region of its predecessor. *)
Context (b0 : Builder).
Abbreviation cache := (list (option (Ref * Z))).

(** The caches of the blocks that continue the region of [K] are right. *)
Definition carries (C : nat -> cache) (b : Builder) (K : nat) (e : list Z) (g : Guest) : Prop :=
  forall X, assoc X (RegionPred (Unit b)) = Some K -> cache_ok (C X) e g /\ exists s c, block_code b X = Some (s, c) /\ (length e <= s)%nat.

(** From the head of a block: instructions, until it stops or is left. *)
Definition block_out (C : nat -> cache) (b : Builder) (B : DecodedBlocks) (junk : nat -> Z) (s0 : Machine) : Prop :=
  exists n PC g', (0 < n)%nat /\ arm_go fetch n (BEntry B, G s0) = (PC, g') /\
    (traps junk Pc s0 (id B) b g' \/
     exists r e, stops_with junk Pc s0 b (id B) r e g' /\ resolves b r PC /\ (in_unit r = true -> goes B PC) /\ carries C b (id B) e g').

Definition head_ok (C : nat -> cache) (K : nat) (s0 : Machine) : Prop :=
  Forall (in_width 64) (Env s0) /\ guest_ok (G s0) /\ cache_ok (C K) (Env s0) (G s0).

Definition block_runs (C : nat -> cache) (b : Builder) (B : DecodedBlocks) : Prop :=
  exists s c, block_code b (id B) = Some (s, c) /\ forall junk s0, length (Env s0) = s -> head_ok C (id B) s0 -> block_out C b B junk s0.

Lemma block_runs_later C C' b b' B :
  later b b' -> (CacheBlock b' = id B -> CacheBlock b = id B /\ GPRCache b' = GPRCache b) -> C' (id B) = C (id B) ->
  (forall e g, carries C b (id B) e g -> (CacheBlock b = id B -> cache_ok (GPRCache b) e g) -> (length e <= length (Ops b))%nat -> carries C' b' (id B) e g) ->
  block_runs C b B -> block_runs C' b' B.
Proof.
  intros Hl Hcb HC Hcar (s & c & Hc & Hrun). destruct (later_code _ _ _ _ _ Hl Hc) as (c' & Hc' & _). exists s, c'. split; [done|].
  intros junk s0 Hs (H1 & H2 & H3). rewrite HC in H3. destruct (Hrun junk s0 Hs (conj H1 (conj H2 H3))) as (n & PC & g' & Hn & Hgo & Hout).
  exists n, PC, g'. split_and!; [done|done|]. destruct Hout as [Ht|(r & e & Hst & Hr & HT & Hc2)]; [left; by eapply traps_later|right].
  exists r, e. split_and!; [by eapply stops_grow|by eapply resolves_later|done|]. apply Hcar; [done|apply Hst|apply Hst].
Qed.

Definition among (l : list DecodedBlocks) (K : nat) : Prop := exists B, B ∈ l /\ id B = K.
Definition known (l : list DecodedBlocks) (K : nat) : Prop := among l K \/ (length Blocks < K)%nat.

Definition target_ok (done : list DecodedBlocks) (a : Z) (t : JumpTargetInfo) : Prop :=
  exists B, B ∈ Blocks /\ BEntry B = a /\ BlockEntry t = id B /\ SolePred t = sole B /\ (B ∈ done -> HaveEmitted t = true) /\
    forall P, PredBlock t = Some P -> exists A, A ∈ done /\ id A = P /\ goes A a.

(** [X] continues the region of [P], which may go to it. *)
Definition region_ok (succs preds : list DecodedBlocks) (X P : nat) : Prop :=
  exists D A, D ∈ succs /\ id D = X /\ sole D = true /\ A ∈ preds /\ id A = P /\ goes A (BEntry D).

(** Between the emission of two blocks. *)
Record emitted (done : list DecodedBlocks) (C : nat -> cache) (b : Builder) : Prop := {
  em_later : later (begun b0) b;
  em_targets a t : find_target a (JumpTargets (Unit b)) = Some t -> target_ok done a t;
  em_segments : Forall (fun p => known done p.1) (Segments (Unit b));
  em_current : known done (CurrentBlock b);
  em_region X P : assoc X (RegionPred (Unit b)) = Some P -> region_ok done done X P;
  em_wf : cache_wf (GPRCache b);
  em_cache : CacheBlock b = 0%nat \/ among done (CacheBlock b);
  em_plain B : B ∈ done -> assoc (id B) (RegionPred (Unit b)) = None -> C (id B) = empty_cache;
  em_blocks B : B ∈ done -> block_runs C b B }.

(** At the head of the block [X]. *)
Record started (done : list DecodedBlocks) (X : DecodedBlocks) (C : nat -> cache) (b : Builder) : Prop := {
  st_later : later (begun b0) b;
  st_targets a t : find_target a (JumpTargets (Unit b)) = Some t -> target_ok (done ++ [X]) a t;
  st_segments : Forall (fun p => known (done ++ [X]) p.1) (Segments (Unit b));
  st_current : current b (id X) (length (Ops b));
  st_region Y P : assoc Y (RegionPred (Unit b)) = Some P -> region_ok (done ++ [X]) done Y P;
  st_wf : cache_wf (GPRCache b);
  st_cache : CacheBlock b = 0%nat \/ among (done ++ [X]) (CacheBlock b);
  st_carried : CacheBlock b = id X -> C (id X) = GPRCache b;
  st_plain B : B ∈ done ++ [X] -> assoc (id B) (RegionPred (Unit b)) = None -> C (id B) = empty_cache;
  st_blocks B : B ∈ done -> block_runs C b B;
  st_constants : Constants b = [];
  st_open : BlockSetPC b = false }.

(** The invariant at the head of a block. *)
Lemma started_inv done X C b junk s0 :
  started done X C b -> length (Env s0) = length (Ops b) -> head_ok C (id X) s0 -> inv junk Pc (CurrentPC b) s0 b (Env s0) (G s0).
Proof.
  intros S Hlen (H1 & H2 & H3). destruct (st_wf _ _ _ _ S) as [Hwl Hwd]. split; try done.
  - unfold code. rewrite Hlen, drop_all. by destruct s0.
  - rewrite (st_constants _ _ _ _ S). by apply Forall_nil.
  - rewrite (proj1 (st_current _ _ _ _ S)). intros HC i v p Hi. rewrite <- (st_carried _ _ _ _ S HC) in Hi. by eapply H3.
  - rewrite (lt_entry _ _ (st_later _ _ _ _ S)), begun_eq. done.
  - intros i v p Hi. by eapply Hwd.
  - apply S.
Qed.

(** ** Emitting a block *)

Lemma targets_advance done X b b' :
  advance (id X) (goes X) b b' -> (forall a t, find_target a (JumpTargets (Unit b)) = Some t -> target_ok (done ++ [X]) a t) ->
  forall a t, find_target a (JumpTargets (Unit b')) = Some t -> target_ok (done ++ [X]) a t.
Proof.
  intros A HT a t' Ht'. pose proof (adv_targets _ _ _ _ A a) as H. pose proof (later_block_at _ _ a (adv_later _ _ _ _ A)) as Hb. unfold block_at in Hb. rewrite Ht' in H, Hb.
  destruct (find_target a (JumpTargets (Unit b))) as [t|] eqn:Ht; [|by inversion H]. destruct (HT a t Ht) as (B & H1 & H2 & H3 & H4 & H5 & H6). cbn in Hb. injection Hb as Hb.
  inversion H as [? ? (E1 & E2 & E3)|]; subst. exists B. split_and!; [done|done|congruence|congruence|intros HB; rewrite E1; by apply H5|].
  intros P HP. destruct E3 as [E3|[E3 E4]]; [rewrite E3 in HP; by apply H6|]. rewrite E3 in HP. injection HP as <-. exists X. split_and!; [|done|done]. apply elem_of_app. right. by left.
Qed.

Lemma known_next l K b : later (begun b0) b -> (NextBlock (Unit b) <= K)%nat -> known l K.
Proof. intros Hl HK. right. pose proof (lt_next _ _ Hl) as Hn. rewrite begun_eq in Hn. cbn in Hn. lia. Qed.

Lemma carries_later C b b' K e g : later b b' -> RegionPred (Unit b') = RegionPred (Unit b) -> carries C b K e g -> carries C b' K e g.
Proof.
  intros Hl HR Hc X HX. rewrite HR in HX. destruct (Hc X HX) as (H1 & s & c & H2 & H3). split; [done|]. destruct (later_code _ _ _ _ _ Hl H2) as (c' & H4 & _). by exists s, c'.
Qed.

(** The block itself. *)
Lemma block_emitted done X C b (l := block_insts Buffer X) (b' := (translate_insts l b).2) :
  started done X C b -> X ∈ Blocks -> X ∉ done -> (forall B, B ∈ done -> B ∈ Blocks) -> advance (id X) (goes X) b b' -> block_runs C b' X.
Proof.
  intros S HX Hnew Hin A. destruct (us_block _ _ _ _ _ _ Hshape X HX) as (_ & _ & L1 & L2 & L3 & L4 & L5). fold l in L1, L2, L3, L4, L5.
  pose proof (st_current _ _ _ _ S) as Hc. destruct (later_code _ _ _ _ _ (adv_later _ _ _ _ A) (current_code _ _ _ Hc)) as (c & Hcode & _).
  exists (length (Ops b)), c. split; [exact Hcode|]. intros junk s0 Hlen Hh. pose proof (started_inv _ _ _ _ junk _ S Hlen Hh) as Hi.
  pose proof (later_wf _ _ (st_later _ _ _ _ S)) as Hw. rewrite <- Hlen in Hc.
  destruct (insts_finish GP IC fetch junk Pc s0 (id X) (goes X) l (BEntry X) b (G s0)) as (n & PC & g' & Hn & Hgo & Hout); try done; [by exists (CurrentPC b), (Env s0)|by apply Hw, begun_wf|].
  exists n, PC, g'. split_and!; [lia|done|]. destruct Hout as [(r & e & H1 & H2 & H3)|Ht]; [right|by left]. exists r, e. split_and!; [done..|].
  intros Y HY. rewrite (adv_region _ _ _ _ A) in HY. destruct (st_region _ _ _ _ S _ _ HY) as (D & P & _ & _ & _ & HP & He & _).
  exfalso. apply Hnew. by rewrite <- (id_inj P X (Hin P HP) HX He).
Qed.

Lemma among_app l l' K : among l K -> among (l ++ l') K.
Proof. intros (B & HB & He). exists B. split; [|done]. apply elem_of_app. by left. Qed.

Lemma known_app l l' K : known l K -> known (l ++ l') K.
Proof. intros [H|H]; [left; by apply among_app|by right]. Qed.

Lemma emit_block done X C b (b' := (translate_insts (block_insts Buffer X) b).2) :
  started done X C b -> X ∈ Blocks -> X ∉ done -> (forall B, B ∈ done -> B ∈ Blocks) -> emitted (done ++ [X]) C b'.
Proof.
  intros S HX Hnew Hin. destruct (us_block _ _ _ _ _ _ Hshape X HX) as (_ & _ & L1 & L2 & L3 & L4 & L5). pose proof (st_current _ _ _ _ S) as Hc.
  pose proof (later_wf _ _ (st_later _ _ _ _ S) (begun_wf b0)) as Hw. assert (A : advance (id X) (goes X) b b') by (apply (translate_insts_advance GP IC _ _ _ (BEntry X)); try done; apply Hc).
  assert (HinX : among (done ++ [X]) (id X)) by (exists X; split; [apply elem_of_app; right; by left|done]). split.
  - etrans; [apply S|apply A].
  - apply (targets_advance done X b); [done|apply S].
  - destruct (adv_segments _ _ _ _ A) as (Sg & -> & HS). apply Forall_app. split; [apply S|]. eapply Forall_impl; [exact HS|]. intros p Hp. by apply (known_next _ _ b (st_later _ _ _ _ S)).
  - destruct (adv_current _ _ _ _ A) as [->|Hk]; [left; by rewrite (proj1 Hc)|by apply (known_next _ _ b (st_later _ _ _ _ S))].
  - intros Y P. rewrite (adv_region _ _ _ _ A). intros HY. destruct (st_region _ _ _ _ S Y P HY) as (D & Q & H1 & H2 & H3 & H4 & H5). exists D, Q. split_and!; [done..|apply elem_of_app; by left|apply H5|apply H5].
  - apply (adv_wf _ _ _ _ A), S.
  - destruct (adv_cache _ _ _ _ A) as [->|[-> _]]; [by right|apply S].
  - intros B HB. rewrite (adv_region _ _ _ _ A). by apply (st_plain _ _ _ _ S).
  - intros B [HB|HB%list_elem_of_singleton]%elem_of_app; [|subst B; by apply (block_emitted done X C b)].
    apply (block_runs_later C C b b' B); [apply A| |done| |by apply (st_blocks _ _ _ _ S)].
    + intros HC. destruct (adv_cache _ _ _ _ A) as [He|[<- ->]]; [|done]. rewrite He in HC. exfalso. apply Hnew. by rewrite (id_inj X B HX (Hin B HB) HC).
    + intros e g Hcar _ _. apply (carries_later C b); [apply A|apply (adv_region _ _ _ _ A)|done].
Qed.

(** ** The head of a block *)

Lemma first_started B Bs : Blocks = B :: Bs -> started [] B (fun _ => empty_cache) ((SetNewBlockIfChanged NoRegionCache (BEntry B) ;;; StartNewBlock) (begun b0)).2.
Proof.
  intros HBs. assert (HB : B ∈ Blocks) by (rewrite HBs; by left). assert (Hf : find_target (BEntry B) (number 1 Blocks) = Some (mkTarget 1 false (IsEntryPoint B) (sole B) None)).
  { apply (find_number 1 Blocks 0); [apply Hshape|by rewrite HBs]. }
  assert (Hid : id B = 1%nat) by (unfold num; by rewrite Hf). unfold bind, SetNewBlockIfChanged. rewrite begun_eq. cbn [Unit JumpTargets]. rewrite Hf. cbn [BlockEntry CurrentBlock set_unit Nat.eqb StartNewBlock SetBlockSetPC snd].
  set (b := set_left _ _). assert (L : later (begun b0) b) by (rewrite begun_eq; apply later_same; try done; by apply update_blocks).
  split; try done; cbn.
  - intros a t Ht. rewrite find_update in Ht. pose proof (list_elem_of_here B []) as HBB.
    destruct (Z.eqb_spec (BEntry B) a) as [<-|Hne].
    + rewrite Hf in Ht. injection Ht as <-. exists B. by split_and!.
    + destruct (number_find _ _ _ _ Ht) as (i & D & Hi & HD & ->). exists D. apply list_elem_of_lookup_2 in Hi as HDin. split_and!; try done.
      * destruct (id_position D HDin) as (j & Hj & -> & _). cbn. f_equal. by apply (NoDup_lookup _ _ _ _ (NoDup_fmap_1 _ _ (us_entries _ _ _ _ _ _ Hshape)) Hi Hj).
      * intros ->%list_elem_of_singleton. done.
  - apply Forall_cons. split; [|by apply Forall_nil]. left. exists B. split; [by left|done].
  - split; [done|]. exists []. by rewrite Hid.
  - apply cache_wf_empty.
  - by left.
  - by intros D HD%elem_of_nil.
Qed.

(** A later block [K] at [a], which continues the region of [P] if there is one. *)
Definition entered (b : Builder) (a : Z) (K : nat) (P : option nat) : Builder :=
  let u := Unit b in
  mkBuilder (Ops b) (CurrentPC b) (IR.Entry b) (GPRCache b) (match P with Some _ => K | None => CacheBlock b end) K [] 0 false
    (mkUnit (update_target a set_emitted (JumpTargets u)) (Segments u ++ [(K, length (Ops b))]) (TrueBlock u) (FalseBlock u)
       (match P with Some P => (K, P) :: RegionPred u | None => RegionPred u end) (NextBlock u) (ISBExitTargets u)).

Lemma enter_eq b a t : find_target a (JumpTargets (Unit b)) = Some t -> CurrentBlock b <> BlockEntry t ->
  ((SetNewBlockIfChanged NoRegionCache a ;;; StartNewBlock) b).2 = entered b a (BlockEntry t) (if CacheSurvivesEdge NoRegionCache t a b then PredBlock t else None).
Proof.
  intros Ht Hne. unfold bind at 1, SetNewBlockIfChanged. rewrite Ht. cbn [CurrentBlock set_unit]. rewrite (proj2 (Nat.eqb_neq _ _) Hne).
  change (CacheSurvivesEdge NoRegionCache t a (set_unit b _)) with (CacheSurvivesEdge NoRegionCache t a b). unfold bind.
  destruct (PredBlock t) as [P|] eqn:HP; [destruct (CacheSurvivesEdge NoRegionCache t a b); reflexivity|].
  unfold CacheSurvivesEdge. rewrite HP. by destruct NoRegionCache.
Qed.

Lemma survives_pred t a b P : (if CacheSurvivesEdge NoRegionCache t a b then PredBlock t else None) = Some P -> PredBlock t = Some P /\ SolePred t = true /\ CacheBlock b = P.
Proof.
  unfold CacheSurvivesEdge. destruct NoRegionCache; [done|]. destruct (PredBlock t) as [Q|]; [|done]. destruct (SolePred t && Nat.eqb Q (CacheBlock b) && _) eqn:E; [|done].
  intros [= ->]. rewrite !andb_true_iff, Nat.eqb_eq in E. by destruct E as [[? ->] _].
Qed.

Lemma later_entered b a K P : unit_wf b -> (K < NextBlock (Unit b))%nat -> later b (entered b a K P).
Proof.
  intros _ HK. split; cbn; try done.
  - exists [(K, length (Ops b))]. split; [done|]. by repeat constructor.
  - by apply update_blocks.
  - intros [W1 W2 W3 W4]. split; cbn; try done; [|by unfold target_blocks; cbn; rewrite update_blocks]. apply Forall_app. split; [done|]. by repeat constructor.
Qed.

Section Next.
Context (done : list DecodedBlocks) (X : DecodedBlocks) (C : nat -> cache) (b : Builder) (P : option nat).
Hypothesis (HE : emitted done C b) (HX : X ∈ Blocks) (Hnew : X ∉ done) (Hin : forall B, B ∈ done -> B ∈ Blocks).
Hypothesis (HP : forall p, P = Some p -> CacheBlock b = p /\ sole X = true /\ exists A, A ∈ done /\ id A = p /\ goes A (BEntry X)).
Abbreviation b' := (entered b (BEntry X) (id X) P).
Abbreviation C' := (fun K => if Nat.eqb K (id X) then match P with Some _ => GPRCache b | None => empty_cache end else C K).

Lemma not_among : ~ among done (id X).
Proof. intros (B & HB & He). apply Hnew. by rewrite <- (id_inj B X (Hin B HB) HX He). Qed.

Lemma not_known : ~ known done (id X).
Proof. intros [H|H]; [by apply not_among|]. pose proof (id_bound X HX). lia. Qed.

Lemma next_current : current b' (id X) (length (Ops b)).
Proof.
  split; [done|]. exists (Segments (Unit b)). split; [done|]. eapply Forall_impl; [apply (em_segments _ _ _ HE)|]. cbn. intros p Hp He. apply not_known. by rewrite <- He.
Qed.

Lemma next_later : later b b'.
Proof.
  apply later_entered; [by apply (later_wf _ _ (em_later _ _ _ HE)), begun_wf|]. pose proof (lt_next _ _ (em_later _ _ _ HE)) as Hn. rewrite begun_eq in Hn. cbn in Hn.
  pose proof (id_bound X HX). lia.
Qed.

Lemma next_targets a t : find_target a (JumpTargets (Unit b')) = Some t -> target_ok (done ++ [X]) a t.
Proof.
  cbn. rewrite find_update. intros Ht. assert (Ht' : exists t0, find_target a (JumpTargets (Unit b)) = Some t0 /\ BlockEntry t = BlockEntry t0 /\ SolePred t = SolePred t0 /\
    PredBlock t = PredBlock t0 /\ (HaveEmitted t0 = true -> HaveEmitted t = true) /\ (BEntry X = a -> HaveEmitted t = true)).
  { destruct (Z.eqb_spec (BEntry X) a); [|by exists t]. destruct (find_target a _) as [t0|]; [|done]. injection Ht as <-. by exists t0. }
  destruct Ht' as (t0 & H0 & E1 & E2 & E3 & E4 & E5). destruct (em_targets _ _ _ HE a t0 H0) as (B & H1 & H2 & H3 & H4 & H5 & H6). exists B.
  split_and!; [done..|congruence|congruence| |].
  - intros [HB|HB%list_elem_of_singleton]%elem_of_app; [by apply E4, H5|subst B; by apply E5].
  - intros p Hp. rewrite E3 in Hp. destruct (H6 p Hp) as (A & HA & HA'). exists A. split; [apply elem_of_app; by left|done].
Qed.

Lemma next_region Y p : assoc Y (RegionPred (Unit b')) = Some p -> (Y = id X /\ P = Some p) \/ (Y <> id X /\ assoc Y (RegionPred (Unit b)) = Some p).
Proof.
  cbn. case_eq P; [intros p' EP|intros EP]; cbn [assoc].
  - destruct (Nat.eqb_spec (id X) Y) as [<-|Hne]; [intros [= <-]; by left|]. intros H. right. by split.
  - intros H. right. split; [|done]. intros ->. destruct (em_region _ _ _ HE _ _ H) as (D & _ & HD & He & _). apply not_among. by exists D.
Qed.

Lemma next_blocks B : B ∈ done -> block_runs C' b' B.
Proof.
  intros HB. assert (Hne : id B <> id X) by (intros He; apply not_among; by exists B). apply (block_runs_later C C' b b' B); [apply next_later| | | |by apply (em_blocks _ _ _ HE)].
  - cbn. case P; [|done]. intros p He. by destruct Hne.
  - by rewrite (proj2 (Nat.eqb_neq _ _) Hne).
  - intros e g Hcar Hcache Hlen Y HY. destruct (next_region _ _ HY) as [[-> Hp]|[HYX HY']].
    + rewrite Nat.eqb_refl. replace (match P with Some _ => GPRCache b | None => empty_cache end) with (GPRCache b) by (by rewrite Hp). destruct (HP _ Hp) as (Hcb & _). split; [by apply Hcache|]. exists (length (Ops b)), (drop (length (Ops b)) (Ops b')). split; [|done]. apply current_code, next_current.
    + rewrite (proj2 (Nat.eqb_neq _ _) HYX). destruct (Hcar Y HY') as (H1 & s & c & H2 & H3). split; [done|]. destruct (later_code _ _ _ _ _ next_later H2) as (c' & H4 & _). by exists s, c'.
Qed.

Lemma next_started : started done X C' b'.
Proof.
  split; try done.
  - etrans; [apply (em_later _ _ _ HE)|apply next_later].
  - exact next_targets.
  - cbn. apply Forall_app. split; [|by constructor; [left; exists X; split; [apply elem_of_app; right; by left|]|]].
    eapply Forall_impl; [apply (em_segments _ _ _ HE)|]. intros p. apply known_app.
  - apply next_current.
  - intros Y p HY. destruct (next_region _ _ HY) as [[-> Hp]|[_ HY']].
    + destruct (HP _ Hp) as (_ & Hs & A & H1 & H2 & H3). exists X, A. split_and!; try done. apply elem_of_app. right. by left.
    + destruct (em_region _ _ _ HE _ _ HY') as (D & A & H1 & H2). exists D, A. split; [apply elem_of_app; by left|done].
  - apply (em_wf _ _ _ HE).
  - cbn. case P; [intros p; right; exists X; split; [apply elem_of_app; right; by left|done]|]. destruct (em_cache _ _ _ HE) as [?|?]; [by left|right; by apply among_app].
  - cbn. rewrite Nat.eqb_refl. case P; [done|]. intros Hc. destruct (em_cache _ _ _ HE) as [H|H]; [|by rewrite Hc in H; destruct (not_among H)].
    pose proof (id_bound X HX). lia.
  - intros B [HB|HB%list_elem_of_singleton]%elem_of_app.
    + assert (Hne : id B <> id X) by (intros He; apply not_among; by exists B). rewrite (proj2 (Nat.eqb_neq _ _) Hne). cbn. intros Ha. apply (em_plain _ _ _ HE B HB).
      revert Ha. case P; [|done]. intros p. cbn. by rewrite (proj2 (Nat.eqb_neq (id X) (id B))) by congruence.
    + subst B. rewrite Nat.eqb_refl. cbn. case P; [intros p; cbn; by rewrite Nat.eqb_refl|done].
  - exact next_blocks.
Qed.
End Next.

(** ** The whole unit *)

Lemma generate_block_eq X b : X ∈ Blocks ->
  (generate_block NoRegionCache Buffer X b).2 = (translate_insts (block_insts Buffer X) ((SetNewBlockIfChanged NoRegionCache (BEntry X) ;;; StartNewBlock) b).2).2.
Proof.
  intros HX. destruct (us_block _ _ _ _ _ _ Hshape X HX) as (H1 & H2 & _). unfold generate_block. rewrite (proj2 (Nat.eqb_neq _ _) H2), H1. unfold bind.
  by destruct (SetNewBlockIfChanged NoRegionCache (BEntry X) b).
Qed.

Lemma bind_snd {A B} (m : M A) (f : A -> M B) b : (bind m f b).2 = (f (m b).1 (m b).2).2.
Proof. unfold bind. by destruct (m b). Qed.

(** What the emission of every block keeps. *)
Definition kept (I : Builder -> Prop) : Prop := forall X b P, X ∈ Blocks -> I b -> I (translate_insts (block_insts Buffer X) (entered b (BEntry X) (id X) P)).2.

Lemma emit_rest rest done C b (b' := (generate_blocks NoRegionCache Buffer rest b).2) :
  emitted done C b -> done ++ rest = Blocks -> (exists C', emitted Blocks C' b') /\ forall I, kept I -> I b -> I b'.
Proof.
  unfold b'. clear b'. revert done C b. induction rest as [|X rest IH]; intros done C b HE Heq; [rewrite app_nil_r in Heq; subst; by split; [exists C|]|].
  cbn [generate_blocks]. rewrite bind_snd. assert (HX : X ∈ Blocks) by (rewrite <- Heq; apply elem_of_app; right; by left).
  assert (Hin : forall B, B ∈ done -> B ∈ Blocks) by (intros B HB; rewrite <- Heq; apply elem_of_app; by left).
  assert (Hnew : X ∉ done).
  { pose proof (NoDup_fmap_1 _ _ (us_entries _ _ _ _ _ _ Hshape)) as Hnd. rewrite <- Heq in Hnd. apply NoDup_app in Hnd as (_ & Hnd & _). intros HX'. by apply (Hnd X HX'); left. }
  destruct (id_position X HX) as (i & _ & Hid & Hf). pose proof (later_block_at _ _ (BEntry X) (em_later _ _ _ HE)) as Hb. rewrite begun_eq in Hb. unfold block_at in Hb. cbn [Unit JumpTargets] in Hb.
  rewrite Hf in Hb. destruct (find_target (BEntry X) (JumpTargets (Unit b))) as [t|] eqn:Ht; [|done]. cbn in Hb. injection Hb as Hb.
  destruct (em_targets _ _ _ HE _ _ Ht) as (B & HB1 & HB2 & HB3 & HB4 & _ & HB6). assert (B = X) as -> by (by apply entry_inj).
  pose proof (not_known done X C b None HE HX Hnew Hin ltac:(done)) as Hnk.
  rewrite generate_block_eq, (enter_eq b (BEntry X) t) by (try done; intros Hc; apply Hnk; rewrite <- HB3, <- Hc; apply (em_current _ _ _ HE)). rewrite HB3.
  set (P := if CacheSurvivesEdge NoRegionCache t (BEntry X) b then PredBlock t else None).
  edestruct (IH (done ++ [X])) as [E K]; [|by rewrite <- app_assoc|split; [exact E|intros I HI Hb0; apply K; [done|by apply HI]]].
  eapply emit_block; [|done..]. eapply next_started; try done. intros p Hp. destruct (survives_pred _ _ _ _ Hp) as (H1 & H2 & H3). split; [done|]. split; [congruence|]. by apply HB6.
Qed.

Lemma find_in (l : list (Z * JumpTargetInfo)) a t : NoDup (map fst l) -> (a, t) ∈ l -> find_target a l = Some t.
Proof.
  induction l as [|[x y] l IH]; intros Hnd Hin; [by apply elem_of_nil in Hin|]. cbn in Hnd. apply NoDup_cons in Hnd as [Hx Hnd]. cbn.
  apply elem_of_cons in Hin as [[= -> ->]|Hin]; [by rewrite Z.eqb_refl|]. destruct (Z.eqb_spec x a) as [->|]; [|by apply IH]. destruct Hx. by apply (list_elem_of_fmap_2 fst _ (a, t)).
Qed.

Lemma finalize_none l b : Forall (fun p => HaveEmitted p.2 = true) l -> finalize l b = (tt, b).
Proof. revert b. induction l as [|[a t] l IH]; intros b Hl; [done|]. apply Forall_cons in Hl as [Ht Hl]. cbn in *. unfold bind. rewrite Ht. by apply IH. Qed.

Lemma emitted_finalize C b : emitted Blocks C b -> Finalize b = (tt, b).
Proof.
  intros HE. apply finalize_none, Forall_forall. intros [a t] Hin. assert (Hnd : NoDup (map fst (JumpTargets (Unit b)))).
  { pose proof (f_equal (map fst) (lt_targets _ _ (em_later _ _ _ HE))) as Hk. rewrite begun_eq in Hk. unfold target_blocks in Hk. cbn [Unit JumpTargets] in Hk. rewrite !map_map in Hk. cbn in Hk.
    change (map fst (JumpTargets (Unit b))) with (map (fun x => x.1) (JumpTargets (Unit b))). rewrite Hk. replace (map _ (number 1 Blocks)) with (BEntry <$> Blocks); [apply Hshape|]. generalize 1%nat. clear. induction Blocks as [|B Bs IH]; intros n; [done|]. cbn. f_equal. apply IH. }
  destruct (em_targets _ _ _ HE a t (find_in _ _ _ Hnd Hin)) as (B & HB & _ & _ & _ & H & _). by apply H.
Qed.

(** The head of the unit. *)
Definition at_head (B : DecodedBlocks) : Builder := ((SetNewBlockIfChanged NoRegionCache (BEntry B) ;;; StartNewBlock) (begun b0)).2.

Lemma unit_emission (b := GenerateIR NoRegionCache Pc Buffer Blocks b0) : (exists C, emitted Blocks C b) /\
  forall I, kept I -> (forall B, B ∈ Blocks -> BEntry B = Pc -> I (translate_insts (block_insts Buffer B) (at_head B)).2) -> I b.
Proof.
  unfold b. clear b. destruct (us_first _ _ _ _ _ _ Hshape) as (B & Bs & HBs & HB0 & _). assert (HB : B ∈ Blocks) by (rewrite HBs; by left).
  pose proof (emit_block [] B _ _ (first_started B Bs HBs) HB ltac:(by intros ?%elem_of_nil) ltac:(by intros ? ?%elem_of_nil)) as H1.
  destruct (emit_rest Bs ([] ++ [B]) _ _ H1 ltac:(done)) as ((C & HE) & HK). unfold GenerateIR. rewrite bind_snd. fold (begun b0). rewrite bind_snd.
  assert (Heq : (generate_blocks NoRegionCache Buffer Blocks (begun b0)).2 = (generate_blocks NoRegionCache Buffer Bs (generate_block NoRegionCache Buffer B (begun b0)).2).2)
    by (rewrite HBs; cbn [generate_blocks]; by rewrite (bind_snd (generate_block _ _ _))).
  rewrite Heq, (generate_block_eq B), (emitted_finalize C _ HE) by done. split; [by exists C|]. intros I HI Hh. apply HK; [done|]. by apply Hh.
Qed.

Lemma unit_emitted : exists C, emitted Blocks C (GenerateIR NoRegionCache Pc Buffer Blocks b0).
Proof. exact (proj1 unit_emission). Qed.
End Unit.
