(* ===== verification/BlockEnds.v ===== *)
(** The ends of the blocks of a unit: an operation that leaves its block is the
    last one of it. *)
From S2P Require Import Prelude A64Common IR ArmSpec IRLogic BlockBuilder Branch LoadStore LoadStoreSpec DataProcessing SystemSpec DecodeTable Frontend FrontendSpec InstSpec FusionSpec MemRevSpec Decoder GenerateIR UnitExec.
From S2P Require Import BlockLogic ExitSpec BranchSpec BranchEmit BlockEmit BlockSpec UnitEmit.
From stdpp Require Import strings sorting.
Open Scope Z_scope.
Import Decoder.

(** The current block has not been left. *)
Definition ready (b : Builder) : Prop := tidy b /\ forall i o, Ops b !! i = Some o -> leaving o = true -> S i ∈ starts b.

(** ** Emission that stays in the block *)

Record adds (b b' : Builder) : Prop := {
  add_ops : exists l, Ops b' = Ops b ++ l /\ Forall (fun o => leaving o = false) l;
  add_starts : starts b' = starts b }.

#[export] Instance adds_preorder : PreOrder adds.
Proof.
  split; [intros b; split; [exists []; by rewrite app_nil_r|done]|]. intros x y z [(l & Hl & Fl) A] [(k & Hk & Fk) B]. split; [|congruence].
  exists (l ++ k). split; [by rewrite Hk, Hl, app_assoc|by apply Forall_app].
Qed.

Lemma adds_same b b' : Ops b' = Ops b -> starts b' = starts b -> adds b b'.
Proof. intros Ho Hs. split; [exists []; by rewrite app_nil_r|done]. Qed.

Lemma tidy_same b b' : Ops b' = Ops b -> starts b' = starts b -> tidy b -> tidy b'.
Proof. intros Ho Hs [A B C]. split; rewrite ?Ho, ?Hs; auto. Qed.

Lemma ready_adds b b' : adds b b' -> ready b -> ready b'.
Proof.
  intros [(l & Hl & Fl) Hs] [[A B C] D]. assert (D' : forall i o, Ops b' !! i = Some o -> leaving o = true -> S i ∈ starts b').
  { intros i o Hi Ho. rewrite Hs. rewrite Hl in Hi. apply lookup_app_Some in Hi as [Hi|[_ Hi]]; [by eapply D|]. rewrite (Forall_lookup_1 _ _ _ _ Fl Hi) in Ho. done. }
  split; [split|exact D']; rewrite ?Hs; [done| |].
  - eapply Forall_impl; [exact B|]. intros s H. cbn in H. rewrite Hl, length_app. lia.
  - intros i o Hi Ho. left. rewrite <- Hs. by eapply D'.
Qed.

Lemma ready_tidy b : ready b -> tidy b.
Proof. by intros [H _]. Qed.

Class Straight {A} (m : M A) : Prop := straight : forall b, adds b (m b).2.

#[export] Instance straight_ret {A} (a : A) : Straight (ret a).
Proof. by intros b. Qed.

#[export] Instance straight_bind {A B} (m : M A) (k : A -> M B) : Straight m -> (forall a, Straight (k a)) -> Straight (bind m k).
Proof. intros Hm Hk b. unfold bind. specialize (Hm b). destruct (m b) as [a b1]. cbn [snd] in Hm. etrans; [exact Hm|apply Hk]. Qed.

Lemma adds_emit b o : leaving o = false -> adds b (set_ops b (Ops b ++ [o])).
Proof. intros Ho. split; [|done]. exists [o]. split; [done|]. by repeat constructor. Qed.

Lemma straight_emit o : leaving o = false -> Straight (emit o).
Proof. intros Ho b. by apply adds_emit. Qed.
#[export] Hint Extern 1 (Straight (emit _)) => apply straight_emit; solve [reflexivity|repeat case_match; reflexivity] : typeclass_instances.

#[export] Instance straight_Constant c : Straight (Constant c).
Proof. intros b. unfold Constant. destruct (find_constant _ _); [done|]. etrans; [by apply (adds_emit b (OConstant (u64 c)))|]. by apply adds_same. Qed.

Lemma sync_adds b : adds b (SyncGPRCache b).2.
Proof. unfold SyncGPRCache. destruct (Nat.eqb _ _); [done|]. by apply adds_same. Qed.

#[export] Instance straight_LoadGPRSlot n : Straight (LoadGPRSlot n).
Proof.
  intros b. unfold LoadGPRSlot. destruct (GuestRegToSlot n) eqn:Hn; [by apply adds_emit|]. pose proof (sync_adds b) as Hf.
  destruct (SyncGPRCache b) as [[] b1]. cbn [snd] in *. assert (Hload : adds b (let '(v, b) := emit (OLoadContext n) b1 in (v, set_cache b (<[n := Some (v, CurrentPC b)]> (GPRCache b)) (CacheBlock b))).2).
  { etrans; [exact Hf|]. etrans; [by apply (adds_emit b1 (OLoadContext n))|]. by apply adds_same. }
  destruct (nth n (GPRCache b1) None) as [[v pc]|]; [destruct (_ && _); [|exact Hload]|exact Hload]. etrans; [exact Hf|]. by apply adds_same.
Qed.

#[export] Instance straight_StoreGPRSlot n r : Straight (StoreGPRSlot n r).
Proof.
  intros b. unfold StoreGPRSlot. destruct (GuestRegToSlot n) eqn:Hn; [by apply adds_emit|]. cbn [emit].
  pose proof (adds_emit b (OStoreContext n r) eq_refl) as H0. set (b1 := set_ops b _) in *. pose proof (sync_adds b1) as Hf.
  destruct (SyncGPRCache b1) as [[] b2]. cbn [snd] in *. etrans; [exact H0|]. etrans; [exact Hf|]. by apply adds_same.
Qed.

#[export] Instance straight_SetCurrentPC pc : Straight (SetCurrentPC pc).
Proof. intros b. by apply adds_same. Qed.
#[export] Instance straight_SetBlockSetPC x : Straight (SetBlockSetPC x).
Proof. intros b. by apply adds_same. Qed.
#[export] Instance straight_InlineEntrypointOffset T : Straight (InlineEntrypointOffset T).
Proof. intros b. by apply (adds_emit b). Qed.
#[export] Instance straight_PCValue t : Straight (PCValue t).
Proof. intros b. by apply (adds_emit b). Qed.

(** As [grow]. *)
Ltac straight :=
  lazymatch goal with
  | |- Straight (fun b => _) =>
      let b := fresh "b" in intros b; cbv beta zeta;
      lazymatch goal with |- adds b (?m b).2 => let H := fresh "H" in assert (H : Straight m) by straight; exact (H b) end
  | |- Straight (let x := _ in _) => cbv zeta; straight
  | |- Straight (bind _ _) => apply straight_bind; [straight|intros ?; straight]
  | |- Straight (if ?c then _ else _) => destruct c; straight
  | |- Straight (match ?c with _ => _ end) => destruct c; straight
  | |- _ => first [apply _ | straight_head; straight]
  end
with straight_head := match goal with |- Straight ?m => let f := head_of m in unfold f; cbv beta zeta end
with head_of m := lazymatch m with ?f _ => head_of f | _ => m end.

#[export] Instance straight_LoadX n : Straight (LoadX n).
Proof. straight. Qed.
#[export] Instance straight_LoadXSP n : Straight (LoadXSP n).
Proof. straight. Qed.
#[export] Instance straight_StoreX n r : Straight (StoreX n r).
Proof. straight. Qed.
#[export] Instance straight_StoreXSP n r : Straight (StoreXSP n r).
Proof. straight. Qed.
#[export] Instance straight_StoreReg n b r : Straight (StoreReg n b r).
Proof. straight. Qed.
#[export] Instance straight_StoreRegSP n b r : Straight (StoreRegSP n b r).
Proof. straight. Qed.
#[export] Instance straight_single b n sg Is64 t a off ty k : Straight (LoadStoreSingle b n sg Is64 t a off ty k).
Proof. straight. Qed.
#[export] Instance straight_prefetch GP t a off ty k : Straight (PrefetchHint GP t a off ty k).
Proof. straight. Qed.

Lemma TryFuseRbitClz_straight l n : Straight (TryFuseRbitClz l n).
Proof. straight. Qed.
Lemma TryFuseMemRev_straight l n : Straight (TryFuseMemRev l n).
Proof. straight. Qed.

(** ** Emission that leaves the block *)

Lemma tidy_leave b o : ready b -> tidy (set_ops b (Ops b ++ [o])).
Proof.
  intros [[A B C] D]. split; [done| |].
  - eapply Forall_impl; [exact B|]. intros s H. cbn in *. rewrite length_app. lia.
  - intros i x Hi Hx. cbn in *. apply lookup_app_Some in Hi as [Hi|[Hge Hi]]; [left; by eapply D|]. right. rewrite length_app. cbn. apply list_lookup_singleton_Some in Hi as [Hi _]. lia.
Qed.

Lemma cursor_ready K b : tidy b -> ready (SetCurrentCodeBlock K b).2.
Proof.
  intros [A B C]. unfold SetCurrentCodeBlock. cbn [snd]. set (b' := mkBuilder _ _ _ _ _ _ _ _ _ _).
  assert (Hs : starts b' = starts b ++ [length (Ops b)]) by (cbn; by rewrite fmap_app).
  assert (D : forall i o, Ops b' !! i = Some o -> leaving o = true -> S i ∈ starts b').
  { intros i o Hi Ho. rewrite Hs. apply elem_of_app. destruct (C i o Hi Ho) as [H|H]; [by left|right; rewrite H; by left]. }
  split; [split|exact D]; rewrite ?Hs.
  - apply StronglySorted_app. split_and!; [|done|by repeat constructor]. intros x y Hx ->%list_elem_of_singleton. rewrite Forall_forall in B. by apply B.
  - apply Forall_app. split; [exact B|]. by repeat constructor.
  - intros i o Hi Ho. left. rewrite <- Hs. by eapply D.
Qed.

(** [m] leaves the block, from one that has not been left. *)
Definition seals {A} (m : M A) : Prop := forall b, ready b -> tidy (m b).2 /\ BlockSetPC (m b).2 = true.

Lemma seals_bind {A B} (m : M A) (f : A -> M B) : Straight m -> (forall a, seals (f a)) -> seals (bind m f).
Proof. intros Hm Hf b Hb. unfold bind. specialize (Hm b). destruct (m b) as [a b1]. cbn [snd] in Hm. by apply Hf, (ready_adds b). Qed.

Lemma seals_ret {A B} (m : M A) (a : B) : seals m -> seals (m ;;; ret a).
Proof. intros Hm b Hb. specialize (Hm b Hb). unfold bind. by destruct (m b). Qed.

Lemma seals_op {A} o (k : Ref -> M A) : (forall r b, Ops (k r b).2 = Ops b /\ starts (k r b).2 = starts b /\ BlockSetPC (k r b).2 = true) -> seals (r <- emit o ;; k r).
Proof.
  intros Hk b Hb. unfold bind, emit. destruct (Hk (length (Ops b)) (set_ops b (Ops b ++ [o]))) as (H1 & H2 & H3). split; [|done].
  eapply tidy_same; [exact H1|exact H2|]. by apply tidy_leave.
Qed.

Lemma seals_raise PC r : seals (RaiseGuestSignal PC r).
Proof. unfold RaiseGuestSignal. apply seals_bind; [apply _|intros v]. apply seals_bind; [apply _|intros _]. by apply seals_op. Qed.

Lemma exit_seals T : seals (ExitToPC T).
Proof.
  intros b Hb. unfold ExitToPC. destruct (find_target T _) as [t|].
  - set (b1 := (SetPredBlock T (CurrentBlock b) b).2). assert (H : ready b1) by (apply (ready_adds b); [by apply adds_same|exact Hb]).
    exact (seals_op (OJump (BlockEntry t)) (fun _ => SetBlockSetPC true) (fun _ _ => conj eq_refl (conj eq_refl eq_refl)) b1 H).
  - apply seals_bind; [apply _|intros pc|exact Hb]. unfold ExitFunction. by apply seals_op.
Qed.

(** One side of a conditional exit needs no block of its own, or makes one. *)
Lemma side_tidy Set_ K T b : (forall n b, Ops (Set_ n b).2 = Ops b /\ starts (Set_ n b).2 = starts b) -> tidy b -> tidy (cond_side Set_ K T b).2.
Proof.
  intros HS Hb. unfold cond_side. destruct (find_target T _) as [t|].
  - unfold bind. cbn [SetPredBlock]. destruct (HS (BlockEntry t) (set_unit b (with_targets (Unit b) (update_target T (set_pred K) (JumpTargets (Unit b)))))) as [H1 H2].
    eapply tidy_same; [exact H1|exact H2|]. by eapply tidy_same; [..|exact Hb].
  - unfold bind, CreateNewCodeBlock. set (b1 := set_unit b _). assert (Hb1 : tidy b1) by by eapply tidy_same; [..|exact Hb].
    destruct (HS (NextBlock (Unit b)) b1) as [H1 H2]. destruct (Set_ (NextBlock (Unit b)) b1) as [[] b2]. cbn [snd] in *.
    pose proof (cursor_ready (NextBlock (Unit b)) b2 ltac:(by eapply tidy_same; [exact H1|exact H2|])) as H. destruct (SetCurrentCodeBlock _ b2) as [[] b3]. by apply exit_seals.
Qed.

Lemma cond_seals o T : leaving o = true -> seals (j <- emit o ;; EmitConditionalExit j T).
Proof.
  intros _ b Hb. unfold EmitConditionalExit, bind, emit. set (b1 := set_ops b _). assert (Hb1 : tidy b1) by (by apply tidy_leave).
  pose proof (side_tidy (SetTrueJumpTarget (length (Ops b))) (CurrentBlock b1) T b1 ltac:(done) Hb1) as H2. destruct (cond_side _ _ T b1) as [[] b2]. cbn [snd] in H2.
  pose proof (side_tidy (SetFalseJumpTarget (length (Ops b))) (CurrentBlock b1) (NextPC b1) b2 ltac:(done) H2) as H3. destruct (cond_side _ _ _ b2) as [[] b3]. split; [|done]. by eapply tidy_same; [..|exact H3].
Qed.

(** ** Handlers *)

Definition ends_block (m : M bool) : Prop :=
  forall b, ready b -> let '(r, b') := m b in tidy b' /\ (r = false \/ BlockSetPC b' = false -> ready b').

Lemma ends_straight m : Straight m -> ends_block m.
Proof. intros Hm b Hb. specialize (Hm b). destruct (m b) as [r b']. cbn in Hm. pose proof (ready_adds _ _ Hm Hb) as H. split; [by apply ready_tidy|done]. Qed.

Lemma ends_bind {A} (m : M A) (f : A -> M bool) : Straight m -> (forall a, ends_block (f a)) -> ends_block (bind m f).
Proof. intros Hm Hf b Hb. unfold bind. specialize (Hm b). destruct (m b) as [a b1]. cbn [snd] in Hm. by apply Hf, (ready_adds b). Qed.

Lemma ends_seals {A} (m : M A) : seals m -> ends_block (m ;;; ret true).
Proof. intros Hm b Hb. destruct (Hm b Hb) as [H1 H2]. unfold bind. destruct (m b) as [a b']. cbn in *. split; [done|]. intros [H|H]; congruence. Qed.

(** What a handler reads of the builder before it emits. *)
Ltac read_off t := generalize t; let x := fresh in intros x; match goal with b : Builder |- _ => revert b end; match goal with |- forall b, ready b -> let '(r, b') := @?m b in _ => change (ends_block m) end; revert x.

Lemma ends_if (c : bool) m m' : ends_block m -> ends_block m' -> ends_block (if c then m else m').
Proof. by destruct c. Qed.

Lemma ends_exit o (k : M unit) : leaving o = true -> (forall b, Ops (k b).2 = Ops b /\ starts (k b).2 = starts b) -> ends_block (emit o ;;; k ;;; SetBlockSetPC true ;;; ret true).
Proof.
  intros _ Hk b Hb. unfold bind, emit. destruct (Hk (set_ops b (Ops b ++ [o]))) as [H1 H2]. destruct (k _) as [[] b1]. cbn in *. split; [|by intros [?|?]].
  apply (tidy_same (set_ops b (Ops b ++ [o]))); [exact H1|exact H2|]. by apply tidy_leave.
Qed.

Lemma ends_left o : leaving o = true -> ends_block (emit o ;;; SetBlockSetPC true ;;; ret true).
Proof. intros Ho. apply (ends_exit o (ret tt) Ho). by intros b. Qed.

Lemma ends_cond c T : ends_block (j <- emit (OCondJump c) ;; EmitConditionalExit j T ;;; ret true).
Proof.
  pose proof (ends_seals _ (cond_seals (OCondJump c) T eq_refl)) as H. intros b Hb. specialize (H b Hb). unfold bind in *. by destruct (emit _ b).
Qed.

Lemma ends_compare w z : ends_block (CompareBranch w z).
Proof. intros b. unfold CompareBranch. read_off (branch_target (CurrentPC b) (Bits w 23 5) 19). intros T. do 2 (apply ends_bind; [apply _|intros ?]). apply ends_cond. Qed.

Lemma ends_test w z : ends_block (TestBranch w z).
Proof. intros b. unfold TestBranch. read_off (branch_target (CurrentPC b) (Bits w 18 5) 14). intros T. do 2 (apply ends_bind; [apply _|intros ?]). apply ends_cond. Qed.

Lemma ends_register w h : ends_block (BranchRegister w h).
Proof.
  intros b. unfold BranchRegister. read_off (NextPC b). intros N. apply ends_bind; [apply _|intros T].
  destruct h; try by apply ends_left. intros b Hb.
  assert (H : ends_block (ra <- PCValue N ;; StoreX 30 ra ;;; r <- InlineEntrypointOffset N ;; ExitCall T r ;;; SetBlockSetPC true ;;; ret true)).
  { do 3 (apply ends_bind; [apply _|intros ?]). by apply ends_left. }
  specialize (H b Hb). unfold bind in *. destruct (PCValue N b) as [x b1]. destruct (StoreX 30 x b1) as [[] b2]. destruct (InlineEntrypointOffset N b2). exact H.
Qed.

Lemma branch_ends IC n h : (n, h) ∈ HandlerTable_branch IC -> forall w, ends_block (h w).
Proof.
  intros Hin w. unfold HandlerTable_branch in Hin. repeat (apply elem_of_cons in Hin as [[= -> ->]|Hin]); [..|by apply elem_of_nil in Hin].
  - intros b. unfold B_cond. read_off (branch_target (CurrentPC b) (Bits w 23 5) 19). intros T. apply ends_if; [apply ends_seals, exit_seals|apply ends_cond].
  - intros b. unfold B_uncond. read_off (branch_target (CurrentPC b) (Bits w 25 0) 26). intros T. apply ends_seals, exit_seals.
  - intros b. unfold BL. set (T := branch_target _ _ _). set (N := NextPC b). generalize T N. clear T N. intros T N. destruct (find_target T _); revert b; match goal with |- forall b, ready b -> let '(r, b') := @?m b in _ => change (ends_block m) end; (apply ends_bind; [apply _|intros ra]); (apply ends_bind; [apply _|intros _]).
    + apply ends_seals, exit_seals.
    + do 2 (apply ends_bind; [apply _|intros ?]). by apply ends_left.
  - apply ends_compare.
  - apply ends_compare.
  - apply ends_test.
  - apply ends_test.
  - apply ends_register.
  - apply ends_register.
  - apply ends_register.
  - intros b. unfold ISB. destruct IC; cbn [negb]; [|by apply ends_straight; apply _]. read_off (NextPC b). intros N. apply ends_bind; [apply _|intros pc]. by apply ends_exit.
Qed.

Ltac ends_all := repeat (apply Forall_cons; split; [intros w; cbn [snd]; first [apply ends_straight; straight|intros b; apply ends_seals; apply seals_raise]|]); by apply Forall_nil.

Lemma handlers_end GP IC : Forall (fun p => forall w, ends_block (p.2 w)) (HandlerTable GP IC).
Proof.
  unfold HandlerTable. rewrite !Forall_app. split_and!; [ends_all| |ends_all|ends_all|ends_all].
  apply Forall_forall. intros [n h] Hin. by apply (branch_ends IC n).
Qed.

(** ** Instructions *)

Lemma ends_translate GP IC i : resolved GP IC i -> ends_block (TranslateInstruction i).
Proof.
  intros (_ & _ & Hm) b Hb. unfold TranslateInstruction. set (h := match Matcher i with Some m => _ | None => _ end). assert (Hh : ends_block h).
  { unfold h. destruct (Matcher i) as [m|]; [|by apply ends_straight; apply _]. destruct Hm as [(f & -> & Hf) _]. rewrite FindHandler_first in Hf.
    destruct (List.find _ _) as [p|] eqn:E; [|done]. injection Hf as <-. apply find_some in E as [Hin _]. pose proof (handlers_end GP IC) as H. rewrite List.Forall_forall in H. by apply H. }
  assert (H1 : ready (SetCurrentPC (IPC i) b).2) by (by apply (ready_adds b); [apply (straight_SetCurrentPC (IPC i) b)|]). unfold bind at 1. cbn [SetCurrentPC snd] in *.
  specialize (Hh _ H1). unfold bind. destruct (h _) as [ok b1]. destruct Hh as [Ht Hr]. destruct ok; cbn [negb]; [exact (conj Ht Hr)|].
  destruct (seals_raise (IPC i) (mkBreak 0 SIGILL 0 1) b1 (Hr (or_introl eq_refl))) as [A B]. unfold UnimplementedInstruction. destruct (RaiseGuestSignal _ _ b1) as [[] b2]. cbn in *.
  split; [exact A|]. intros [?|?]; congruence.
Qed.

(** What follows the emission of an instruction. *)
Lemma finish_tidy Next Last (k : M unit) b : tidy b -> (BlockSetPC b = false -> ready b) -> (forall b, ready b -> tidy (k b).2) ->
  tidy ((Left <- FinishOp Next Last ;; if Left : bool then ret tt else k) b).2.
Proof.
  intros Ht Hr Hk. unfold bind, FinishOp. destruct (BlockSetPC b) eqn:E; [by eapply tidy_same; [..|exact Ht]|]. destruct Last; [|by apply Hk, Hr].
  pose proof (proj1 (exit_seals Next b (Hr eq_refl))) as H. unfold bind. by destruct (ExitToPC Next b).
Qed.

Lemma insts_tidy GP IC n l b : (length l <= n)%nat -> Forall (resolved GP IC) l -> ready b -> tidy (translate_insts l b).2.
Proof.
  revert l b. induction n as [|n IH]; intros l b Hn Hl Hb; (destruct l as [|i l]; [by apply ready_tidy|]); [cbn in Hn; lia|].
  pose proof Hl as [Hi Hl']%Forall_cons. cbn [translate_insts]. set (k2 := match l with [] => _ | _ => _ end).
  assert (Hk2 : forall b, ready b -> tidy (k2 b).2).
  { intros b' Hb'. unfold k2. destruct l as [|j l]; [by apply ready_tidy|]. apply IH; [cbn in *; lia|by apply Forall_cons in Hl' as [_ ?]|done]. }
  clearbody k2. unfold bind at 1. assert (H1 : ready (emit (OGuestOpcode (IPC i - IR.Entry b)) b).2) by (apply (ready_adds b); [by apply adds_emit|done]). destruct (emit _ b) as [r b1]. cbn [snd] in H1.
  unfold bind at 1. assert (H2 : ready (TryFuseRbitClz (i :: l) 0 b1).2) by (apply (ready_adds b1); [apply TryFuseRbitClz_straight|done]). destruct (TryFuseRbitClz _ 0 b1) as [F b2]. cbn [snd] in H2.
  destruct (0 <? F)%nat; [by apply finish_tidy; [apply ready_tidy|..]|].
  unfold bind at 1. assert (H3 : ready (TryFuseMemRev (i :: l) 0 b2).2) by (apply (ready_adds b2); [apply TryFuseMemRev_straight|done]). destruct (TryFuseMemRev _ 0 b2) as [F' b3]. cbn [snd] in H3.
  destruct (0 <? F')%nat; [by apply finish_tidy; [apply ready_tidy|..]|].
  unfold bind at 1. pose proof (ends_translate GP IC i Hi b3 H3) as H4. destruct (TranslateInstruction i b3) as [ok b4]. destruct H4 as [A B]. apply finish_tidy; [done|by intros E; apply B; right|].
  intros b' Hb'. apply IH; [cbn in *; lia|done|done].
Qed.

(** ** The unit *)

Lemma begun_ready GP IC fetch Buffer Blocks Pc b0 : unit_shape GP IC fetch Buffer Blocks Pc -> ready (begun Blocks Pc b0).
Proof. intros Hs. rewrite (begun_eq _ _ _ _ _ _ Hs). split; [split|]; cbn; [by repeat constructor|by repeat constructor|by intros i o Hi..]. Qed.

Lemma head_ready NoRegionCache a b : ready b -> ready ((SetNewBlockIfChanged NoRegionCache a ;;; StartNewBlock) b).2.
Proof.
  intros Hb. unfold bind at 1. assert (H : ready (SetNewBlockIfChanged NoRegionCache a b).2).
  { unfold SetNewBlockIfChanged. destruct (find_target a _) as [t|]; [|done]. cbv zeta. set (b1 := set_unit b _). assert (H1 : ready b1) by (by apply (ready_adds b); [apply adds_same|]).
    destruct (Nat.eqb _ _); [done|]. unfold bind.
    assert (Hp : forall m : M unit, (forall b, adds b (m b).2) -> ready (let (_, b') := m b1 in let (_, b'0) := SetCurrentCodeBlock (BlockEntry t) b' in
      (tt, if CacheSurvivesEdge NoRegionCache t a b1 then set_cache b'0 (GPRCache b'0) (CurrentBlock b'0) else b'0)).2).
    { intros m Hm. specialize (Hm b1). destruct (m b1) as [[] b2]. cbn in Hm. pose proof (cursor_ready (BlockEntry t) b2 (ready_tidy _ (ready_adds _ _ Hm H1))) as H2.
      destruct (SetCurrentCodeBlock (BlockEntry t) b2) as [[] b3]. cbn [snd] in *. destruct (CacheSurvivesEdge _ _ _ _); [|done]. by apply (ready_adds b3); [apply adds_same|]. }
    apply (Hp (match PredBlock t with Some P => if CacheSurvivesEdge NoRegionCache t a b1 then set_region (BlockEntry t) P else ret tt | None => ret tt end)).
    intros x. destruct (PredBlock t); [destruct (CacheSurvivesEdge _ _ _ _)|]; [by apply adds_same|done|done]. }
  destruct (SetNewBlockIfChanged _ a b) as [[] b1]. by apply (ready_adds b1); [apply adds_same|].
Qed.

Theorem unit_tidy GP IC NoRegionCache fetch Buffer Blocks Pc b0 : unit_shape GP IC fetch Buffer Blocks Pc -> tidy (GenerateIR NoRegionCache Pc Buffer Blocks b0).
Proof.
  intros Hs. apply (proj2 (unit_emission GP IC NoRegionCache fetch Buffer Blocks Pc Hs b0)).
  - intros X b P HX Hb. destruct (us_block _ _ _ _ _ _ Hs X HX) as (_ & _ & _ & _ & _ & Hr & _). eapply (insts_tidy GP IC); [reflexivity|done|].
    apply (ready_adds (SetCurrentCodeBlock (num Blocks (BEntry X)) b).2); [by apply adds_same|by apply cursor_ready].
  - intros B HB HPc. destruct (us_block _ _ _ _ _ _ Hs B HB) as (_ & _ & _ & _ & _ & Hr & _). eapply (insts_tidy GP IC); [reflexivity|done|].
    apply head_ready. by apply (begun_ready GP IC fetch Buffer).
Qed.

(** Its blocks are numbered from 1. *)
Theorem unit_numbered GP IC NoRegionCache fetch Buffer Blocks Pc b0 : unit_shape GP IC fetch Buffer Blocks Pc ->
  forall K s e, segment (length (Ops (GenerateIR NoRegionCache Pc Buffer Blocks b0))) (Segments (Unit (GenerateIR NoRegionCache Pc Buffer Blocks b0))) K = Some (s, e) ->
  (0 < K < NextBlock (Unit (GenerateIR NoRegionCache Pc Buffer Blocks b0)))%nat.
Proof.
  intros Hs. destruct (unit_emitted GP IC NoRegionCache fetch Buffer Blocks Pc Hs b0) as (C & HE). set (b := GenerateIR _ _ _ _ _) in *. intros K s e HK.
  assert (Hin : K ∈ (Segments (Unit b)).*1).
  { clear -HK. revert HK. generalize (length (Ops b)). intros n. induction (Segments (Unit b)) as [|[k x] l IH]; [done|]. cbn [segment]. destruct (Nat.eqb_spec k K) as [->|_]; [intros _; by left|intros H; right; by apply IH]. }
  apply list_elem_of_fmap in Hin as (p & -> & Hp). split.
  - pose proof (em_segments _ _ _ _ _ _ _ _ _ HE) as H. rewrite Forall_forall in H. destruct (H p Hp) as [(B & HB & <-)|H1]; [|lia].
    pose proof (id_bound GP IC fetch Buffer Blocks Pc Hs B HB). lia.
  - pose proof (later_wf _ _ (em_later _ _ _ _ _ _ _ _ _ HE) (begun_wf GP IC fetch Buffer Blocks Pc Hs b0)) as Hw. pose proof (uw_segments _ Hw) as H. rewrite Forall_forall in H. by apply H.
Qed.

(** The block of the entry. *)
Lemma entry_numbered GP IC NoRegionCache fetch Buffer Blocks Pc b0 g K : unit_shape GP IC fetch Buffer Blocks Pc ->
  unit_entry (GenerateIR NoRegionCache Pc Buffer Blocks b0) g = Some (AtBlock K None [] g) -> (0 < K)%nat.
Proof.
  intros Hs. destruct (unit_emitted GP IC NoRegionCache fetch Buffer Blocks Pc Hs b0) as (C & HE). set (b := GenerateIR _ _ _ _ _) in *. unfold unit_entry.
  destruct (find_target _ _) as [t|] eqn:Ht; [|done]. intros [= <-]. destruct (em_targets _ _ _ _ _ _ _ _ _ HE _ _ Ht) as (B & HB & _ & -> & _).
  pose proof (id_bound GP IC fetch Buffer Blocks Pc Hs B HB). lia.
Qed.
