(* ===== verification/UnitSpec.v ===== *)
(** Executing a compile unit: whatever path it takes through its blocks, it is in
    step with the Arm machine. *)
From S2P Require Import Prelude A64Common IR ArmSpec IRLogic BlockBuilder Branch Frontend FrontendSpec InstSpec Decoder GenerateIR UnitExec BlockLogic ExitSpec BranchSpec BranchEmit BlockEmit BlockSpec UnitEmit.
Open Scope Z_scope.
Import Decoder.

(** ** Where a unit may go *)

Lemma branch_targets_width n pc w T : T ∈ branch_targets n pc w -> in_width 64 T.
Proof.
  unfold branch_targets. cbv zeta. assert (Hu : forall x, in_width 64 (u64 x)) by (intros x; apply wrap_range; lia).
  intros HT. repeat match type of HT with context [if ?c then _ else _] => destruct c end;
    repeat (apply elem_of_cons in HT as [->|HT]; [apply Hu|]); by apply elem_of_nil in HT.
Qed.

Lemma goes_width IC Buffer B T : goes IC Buffer B T -> in_width 64 T.
Proof. intros (i & _ & [(m & _ & HT)|[_ ->]]); [by eapply branch_targets_width|apply wrap_range; lia]. Qed.

Lemma run_block_code b junk K Prev Values g s c :
  block_code b K = Some (s, c) -> run_block b junk K Prev Values g = Some (exec junk (IR.Entry b) (mkMachine (head_values b junk s K Prev Values) g) c).
Proof. unfold block_code, run_block. destruct (segment _ _ K) as [[s' e]|]; [|done]. by intros [= -> <-]. Qed.

Lemma head_length b junk s K Prev Values : length (head_values b junk s K Prev Values) = s.
Proof.
  unfold head_values. rewrite length_app, length_map, length_seq. destruct (_ && _); [rewrite length_take; lia|cbn; lia].
Qed.

Lemma head_width b junk s K Prev Values : Forall (in_width 64) Values -> Forall (in_width 64) (head_values b junk s K Prev Values).
Proof.
  intros HV. apply Forall_app. split; [destruct (_ && _); [by apply Forall_take|by apply Forall_nil]|]. apply Forall_map, Forall_forall. intros i _. cbn. apply wrap_range. lia.
Qed.

Lemma resume_stop g r : Stop g = None -> resume (set_stop g r) = g.
Proof. intros H. destruct g; cbn in *. by subst. Qed.

Section Run.
Context (GP IC NoRegionCache : bool) (fetch : Z -> DecodedInst) (Buffer : list DecodedInst) (Blocks : list DecodedBlocks) (Pc : Z).
Hypothesis (Hshape : unit_shape GP IC fetch Buffer Blocks Pc).
Context (b0 : Builder) (C : nat -> list (option (Ref * Z))) (b : Builder).
Hypothesis (HE : emitted IC fetch Buffer Blocks Pc b0 Blocks C b).
#[local] Set Default Proof Using "Type*".
Abbreviation id B := (num Blocks (BEntry B)).

(** Entering block [K]: if it continues a region, from its predecessor and with
    the values of the region. *)
Definition enters (K : nat) (Prev : option nat) (Values : list Z) (g : Guest) : Prop :=
  forall P, assoc K (RegionPred (Unit b)) = Some P -> Prev = Some P /\ cache_ok (C K) Values g /\ exists s c, block_code b K = Some (s, c) /\ (length Values <= s)%nat.

(** A point of the unit and the Arm machine. *)
Inductive sim : UnitPoint -> Z * Guest -> Prop :=
  | sim_block B Prev Values g : B ∈ Blocks -> guest_ok g -> Forall (in_width 64) Values -> enters (id B) Prev Values g -> sim (AtBlock (id B) Prev Values g) (BEntry B, g)
  | sim_leg K PC Prev Values g : block_at b PC = None -> leg b K PC -> in_width 64 PC -> guest_ok g -> sim (AtBlock K Prev Values g) (PC, g)
  | sim_outside PC h g : sim (Outside PC h g) (PC, g)
  | sim_trapped PC g : trapped (Stop g) = true -> sim (Trapped g) (PC, g).

(** ** One block *)

Lemma block_of PC K : block_at b PC = Some K -> exists B, B ∈ Blocks /\ BEntry B = PC /\ id B = K.
Proof.
  unfold block_at. destruct (find_target PC (JumpTargets (Unit b))) as [t|] eqn:Ht; [|done]. cbn. intros [= <-].
  destruct (em_targets _ _ _ _ _ _ _ _ _ HE PC t Ht) as (B & H1 & H2 & H3 & _). by exists B.
Qed.

(** The values at the head of a block are what its code relies on. *)
Lemma head_runs B junk Prev Values g s c :
  B ∈ Blocks -> guest_ok g -> Forall (in_width 64) Values -> enters (id B) Prev Values g -> block_code b (id B) = Some (s, c) ->
  head_ok C (id B) (mkMachine (head_values b junk s (id B) Prev Values) g).
Proof.
  intros HB Hg HV Hen Hc. split; [by apply head_width|]. split; [done|]. cbn. destruct (assoc (id B) (RegionPred (Unit b))) as [P|] eqn:HR.
  - destruct (Hen P HR) as (-> & Hcache & s' & c' & Hc' & Hlen). rewrite Hc in Hc'. injection Hc' as <- <-. intros i v p Hi.
    unfold head_values. rewrite HR, bool_decide_true by done. cbn [andb]. rewrite take_ge by done. apply lookup_app_l_Some. by eapply Hcache.
  - rewrite (em_plain _ _ _ _ _ _ _ _ _ HE B HB HR). intros i v p Hi. by apply list_elem_of_lookup_2, list_elem_of_In, (repeat_spec 31 None) in Hi.
Qed.

(** Entering the next block from a block that goes to it. *)
Lemma next_enters B D e g : B ∈ Blocks -> D ∈ Blocks -> goes IC Buffer B (BEntry D) -> carries C b (id B) e g -> enters (id D) (Some (id B)) e g.
Proof.
  intros HB HD Hgo Hcar P HP. destruct (em_region _ _ _ _ _ _ _ _ _ HE _ _ HP) as (D' & A & HD' & Hid & Hs & HA & HAP & HgA).
  assert (D' = D) as -> by (by apply (id_inj GP IC fetch Buffer Blocks Pc Hshape)).
  assert (A = B) as -> by (apply (entry_inj GP IC fetch Buffer Blocks Pc Hshape); [done..|]; by apply (us_sole _ _ _ _ _ _ Hshape A B D)). subst P.
  destruct (Hcar _ HP) as (H1 & H2). by split_and!.
Qed.

Lemma block_step junk B Prev Values g :
  B ∈ Blocks -> guest_ok g -> Forall (in_width 64) Values -> enters (id B) Prev Values g ->
  exists p n, unit_step b junk (AtBlock (id B) Prev Values g) = Some p /\ (0 < n)%nat /\ sim p (arm_go fetch n (BEntry B, g)).
Proof.
  intros HB Hg HV Hen. destruct (em_blocks _ _ _ _ _ _ _ _ _ HE B HB) as (s & c & Hc & Hrun). pose proof (head_runs B junk Prev Values g s c HB Hg HV Hen Hc) as Hh.
  destruct (Hrun junk (mkMachine (head_values b junk s (id B) Prev Values) g) (head_length _ _ _ _ _ _) Hh) as (n & PC & g' & Hn & Hgo & Hout). cbn [G] in Hgo. exists (default (Trapped g) (unit_step b junk (AtBlock (id B) Prev Values g))), n.
  cbn [unit_step]. rewrite (run_block_code _ _ _ _ _ _ _ _ Hc). cbn [mbind option_bind]. rewrite (lt_entry _ _ (em_later _ _ _ _ _ _ _ _ _ HE)), (begun_eq GP IC fetch Buffer Blocks Pc Hshape). cbn [IR.Entry]. rewrite Hgo.
  destruct Hout as [(Ht & c' & Hc' & He)|(r & e & [(c' & Hc' & He) Hg' HVe _ _] & Hr & HT & Hcar)].
  - cbn [Env] in Hc'. rewrite head_length, Hc in Hc'. injection Hc' as <-. unfold after_block. rewrite He. destruct (Stop g') as [[| | | |]|] eqn:E; try done; (split; [done|]; split; [done|]; constructor; by rewrite E).
  - cbn [Env] in Hc'. rewrite head_length, Hc in Hc'. injection Hc' as <-. rewrite He. unfold after_block. cbn [G Env Stop set_stop].
    assert (Hres : resume (set_stop g' r) = g') by (apply resume_stop, Hg'). rewrite Hres.
    assert (Hb : forall K', block_at b PC = Some K' -> in_unit r = true -> sim (AtBlock K' (Some (id B)) e g') (PC, g')).
    { intros K' HK' Hu. destruct (block_of PC K' HK') as (D & HD & <- & <-). apply sim_block; [done..|]. apply next_enters; [done|done|by apply HT|done]. }
    destruct r as [| |K'|J t|PC' h]; try done; cbn in Hr.
    + split; [done|]. split; [done|]. by apply Hb.
    + destruct Hr as (k & Hk & Hto). rewrite Hk. cbn. split; [done|]. split; [done|]. destruct Hto as [HK|[Hno Hleg]]; [by apply Hb|]. apply sim_leg; [done|done|by eapply goes_width, HT|done].
    + split; [done|]. split; [done|]. subst PC'. constructor.
Qed.

(** The block of an exit. *)
Lemma leg_step junk K PC Prev Values g : leg b K PC -> in_width 64 PC -> guest_ok g -> exists h, unit_step b junk (AtBlock K Prev Values g) = Some (Outside PC h g).
Proof.
  intros (s & c & Hc & [c' ->]) HPC Hg. exists HintNone. cbn [unit_step]. rewrite (run_block_code _ _ _ _ _ _ _ _ Hc). cbn [mbind option_bind].
  set (vs := head_values b junk s K Prev Values). assert (Hm : length vs = s) by apply head_length. clearbody vs.
  assert (Hx : exec junk (IR.Entry b) (mkMachine vs g) ([OInlineEntrypointOffset (PC - IR.Entry b); OExitFunction s HintNone None] ++ c') = mkMachine ((vs ++ [PC]) ++ [0]) (set_stop g (SExit PC HintNone))).
  { assert (Hu : u64 (IR.Entry b + (PC - IR.Entry b)) = PC) by (replace (IR.Entry b + (PC - IR.Entry b)) with PC by lia; by apply wrap_small).
    assert (H1 : run_op junk (IR.Entry b) (mkMachine vs g) (OInlineEntrypointOffset (PC - IR.Entry b)) = mkMachine (vs ++ [PC]) g) by (rewrite run_op_live by exact Hg; cbn; by rewrite Hu).
    assert (H2 : run_op junk (IR.Entry b) (mkMachine (vs ++ [PC]) g) (OExitFunction s HintNone None) = mkMachine ((vs ++ [PC]) ++ [0]) (set_stop g (SExit PC HintNone))).
    { rewrite run_op_live by exact Hg. cbn. by rewrite (nth_lookup (vs ++ [PC])), <- Hm, list_lookup_middle by done. }
    unfold exec. cbn [foldl app]. rewrite H1, H2. by apply run_stopped. }
  rewrite Hx. unfold after_block. cbn [G Stop set_stop]. by rewrite resume_stop by apply Hg.
Qed.

(** ** A run of the unit *)

Definition running (p : UnitPoint) : Prop := match p with AtBlock _ _ _ _ => True | _ => False end.

Lemma entry_sim g : guest_ok g -> exists p, unit_entry b g = Some p /\ sim p (Pc, g).
Proof.
  intros Hg. destruct (us_first _ _ _ _ _ _ Hshape) as (B & Bs & HBs & HB & HIE). assert (HBin : B ∈ Blocks) by (rewrite HBs; by left).
  pose proof (em_later _ _ _ _ _ _ _ _ _ HE) as Hl. pose proof (later_block_at _ _ (BEntry B) Hl) as Hb. pose proof (lt_entry _ _ Hl) as He.
  rewrite (begun_eq GP IC fetch Buffer Blocks Pc Hshape) in Hb, He. unfold block_at in Hb. cbn [Unit JumpTargets IR.Entry] in Hb, He.
  destruct (id_position GP IC fetch Buffer Blocks Pc Hshape B HBin) as (i & _ & Hid & Hf). rewrite Hf in Hb. unfold unit_entry. rewrite He, <- HB.
  destruct (find_target (BEntry B) (JumpTargets (Unit b))) as [t|]; [|done]. cbn in Hb |- *. injection Hb as ->. rewrite <- Hid. eexists. split; [done|].
  apply sim_block; [done|done|by apply Forall_nil|]. intros P HP. exfalso. destruct (em_region _ _ _ _ _ _ _ _ _ HE _ _ HP) as (D & A & HD & HDid & Hs & _).
  assert (D = B) as -> by (by apply (id_inj GP IC fetch Buffer Blocks Pc Hshape)). unfold sole in Hs. apply andb_true_iff in Hs as [_ Hs]. by rewrite HIE in Hs.
Qed.

Lemma run_sim junk g N p0 : sim p0 (Pc, g) ->
  exists p n, unit_run b junk N p0 = Some p /\ sim p (arm_go fetch n (Pc, g)) /\ (running p -> (N <= n)%nat).
Proof.
  intros H0. induction N as [|N (p & n & Hrun & Hsim & Hn)]; [exists p0, 0%nat; by split_and!|]. cbn [unit_run]. rewrite Hrun. cbn [mbind option_bind].
  inversion Hsim as [B Prev Values g' HB Hg HV Hen Hp Hc|K PC Prev Values g' _ Hleg HPC Hg Hp Hc|PC h g' Hp Hc|PC g' Ht Hp Hc]; subst p.
  - destruct (block_step (junk N) B Prev Values g' HB Hg HV Hen) as (p' & n' & Hs & Hn' & Hsim'). exists p', (n + n')%nat. rewrite arm_go_add, <- Hc. split_and!; [done|done|].
    intros _. specialize (Hn I). lia.
  - destruct (leg_step (junk N) K PC Prev Values g' Hleg HPC Hg) as (h & Hs). exists (Outside PC h g'), n. rewrite <- Hc. split_and!; [done|constructor|done].
  - exists (Outside PC h g'), n. rewrite <- Hc. split_and!; [done|constructor|done].
  - exists (Trapped g'), n. rewrite <- Hc. split_and!; [done|by constructor|done].
Qed.
End Run.

(** ** The unit *)

(** A point of the unit against the PC and the guest of the Arm machine: within
    the unit at the head of a block, outside at the address it left for, and
    with the guest of a signal or fault. *)
Definition agrees (b : Builder) (p : UnitPoint) (c : Z * Guest) : Prop :=
  match p with
  | AtBlock K _ _ g => g = c.2 /\ goes_to b K c.1
  | Outside PC _ g => (PC, g) = c
  | Trapped g => g = c.2 /\ trapped (Stop g) = true
  end.

Lemma unit_runs GP IC NoRegionCache fetch Buffer Blocks Pc b0 junk g (b := GenerateIR NoRegionCache Pc Buffer Blocks b0) :
  unit_shape GP IC fetch Buffer Blocks Pc -> guest_ok g ->
  exists p0, unit_entry b g = Some p0 /\ forall N, exists p n, unit_run b junk N p0 = Some p /\ agrees b p (arm_go fetch n (Pc, g)) /\ (running p -> (N <= n)%nat).
Proof.
  intros Hs Hg. destruct (unit_emitted GP IC NoRegionCache fetch Buffer Blocks Pc Hs b0) as (C & HE). fold b in HE.
  destruct (entry_sim GP IC fetch Buffer Blocks Pc Hs b0 C b HE g Hg) as (p0 & H0 & Hsim0). exists p0. split; [done|]. intros N.
  destruct (run_sim GP IC fetch Buffer Blocks Pc Hs b0 C b HE junk g N p0 Hsim0) as (p & n & Hr & Hsim & Hn). exists p, n. split_and!; [done| |done].
  inversion Hsim as [B Prev Values g' HB _ _ _ Hp Hc|K PC Prev Values g' Hno Hleg _ _ Hp Hc|PC h g' Hp Hc|PC g' Ht Hp Hc]; cbn; try done.
  - split; [done|]. left. cbn. destruct (id_position GP IC fetch Buffer Blocks Pc Hs B HB) as (i & _ & Hid & Hf). rewrite (later_block_at _ _ _ (em_later _ _ _ _ _ _ _ _ _ HE)).
    rewrite (begun_eq GP IC fetch Buffer Blocks Pc Hs). unfold block_at. cbn [Unit JumpTargets]. by rewrite Hf, Hid.
  - split; [done|]. by right.
Qed.
