(* ===== verification/UnitDecode.v ===== *)
(** The units of the decoder have the shape that the emission relies on: the
    names of a64.inc against the decoder's view of branch words, and the census
    of predecessors against the ways between blocks. *)
From S2P Require Import Prelude DecodeTable A64Common IR ArmSpec IRLogic BlockBuilder Branch A64Rows Frontend FrontendSpec InstSpec Decoder DecoderSlots DecoderDiscover DecoderLayout DecoderSpec.
From S2P Require Import GenerateIR UnitExec BlockLogic ExitSpec BranchSpec BranchEmit BlockEmit BlockSpec UnitEmit.
From stdpp Require Import strings.
Open Scope Z_scope.
Import Decoder.

(** ** Rows and the decoder's tests of a word *)

Definition sure_true (p : Pattern) (t : Z * Z) : bool := (Z.land t.1 (PMask p) =? t.1) && (Z.land (PExpect p) t.1 =? t.2).
Definition sure_false (p : Pattern) (t : Z * Z) : bool := negb (Z.land (PExpect p) t.1 =? Z.land t.2 (PMask p)).

Lemma sure_true_ok p t w : fits p w -> sure_true p t = true -> (Z.land w t.1 =? t.2) = true.
Proof.
  intros [_ Hw] Ht. unfold sure_true in Ht. rewrite andb_true_iff, !Z.eqb_eq in Ht. destruct Ht as [H1 H2]. apply Z.eqb_eq.
  rewrite <- H2, <- Hw, <- Z.land_assoc. f_equal. rewrite Z.land_comm. by symmetry.
Qed.

Lemma sure_false_ok p t w : fits p w -> sure_false p t = true -> (Z.land w t.1 =? t.2) = false.
Proof.
  intros [_ Hw] Ht. unfold sure_false in Ht. apply negb_true_iff, Z.eqb_neq in Ht. apply Z.eqb_neq. intros H. apply Ht. rewrite <- H, <- Hw, <- !Z.land_assoc. f_equal. apply Z.land_comm.
Qed.

(** The tests of [GetDirectSuccessors], in its order. *)
Definition test_b : Z * Z := (0xFC000000, 0x14000000).
Definition test_cb : Z * Z := (0x7E000000, 0x34000000).
Definition test_tb : Z * Z := (0x7E000000, 0x36000000).
Definition test_bc : Z * Z := (0xFE000000, 0x54000000).

Definition direct_names : list string := ["B_uncond"; "CBZ"; "CBNZ"; "TBZ"; "TBNZ"; "B_cond"]%string.
Definition is_direct (n : string) : bool := existsb (String.eqb n) direct_names.

Definition row_view (r : string * string) : bool :=
  let p := pattern r.2 in let n := r.1 in
  if String.eqb n "B_uncond" then sure_true p test_b
  else if String.eqb n "CBZ" || String.eqb n "CBNZ" then sure_false p test_b && sure_true p test_cb && sure_false p test_tb
  else if String.eqb n "TBZ" || String.eqb n "TBNZ" then sure_false p test_b && sure_false p test_cb && sure_true p test_tb
  else if String.eqb n "B_cond" then sure_false p test_b && sure_false p test_cb && sure_false p test_tb && sure_true p test_bc
  else sure_false p test_b && sure_false p test_cb && sure_false p test_tb && sure_false p test_bc.

(** A direct branch or a BL ends its block. *)
Definition row_ends (r : string * string) : bool :=
  let p := pattern r.2 in
  negb (is_direct r.1 || String.eqb r.1 "BL") || sure_true p (0x7C000000, 0x14000000) || sure_true p (0x7C000000, 0x34000000) || sure_true p test_bc.

Lemma rows_view : forallb (fun r => row_view r && row_ends r) A64Rows = true.
Proof. by vm_compute. Qed.

Lemma row_checks n w : row_fits n w -> exists bits, fits (pattern bits) w /\ row_view (n, bits) = true /\ row_ends (n, bits) = true.
Proof.
  intros (bits & Hin & Hw). exists bits. pose proof rows_view as H. rewrite forallb_forall in H. apply list_elem_of_In in Hin. specialize (H _ Hin).
  apply andb_true_iff in H as [H1 H2]. by split_and!.
Qed.

(** ** Targets *)

Lemma extend_imm v w : 0 < w <= 64 -> SignExtendImm v w = sgn w v.
Proof.
  intros Hw. rewrite <- SignExtend_sgn by done. unfold SignExtendImm, SignExtend. f_equal. unfold sgn, u64, wrap. by rewrite Z.mod_mod.
Qed.

Lemma target_imm pc v w : 0 < w <= 64 -> u64 (pc + SignExtendImm v w * 4) = branch_target pc v w.
Proof. intros Hw. unfold branch_target. by rewrite extend_imm, SignExtend_sgn. Qed.

Lemma successors_eq w pc :
  GetDirectSuccessors w pc =
  if Z.land w test_b.1 =? test_b.2 then [branch_target pc (Bits w 25 0) 26]
  else if (Z.land w test_cb.1 =? test_cb.2) || (Z.land w test_tb.1 =? test_tb.2)
  then [if Z.land w test_tb.1 =? test_tb.2 then branch_target pc (Bits w 18 5) 14 else branch_target pc (Bits w 23 5) 19; u64 (pc + 4)]
  else if Z.land w test_bc.1 =? test_bc.2 then branch_target pc (Bits w 23 5) 19 :: (if Bits w 3 0 >=? 14 then [] else [u64 (pc + 4)])
  else [].
Proof.
  unfold GetDirectSuccessors, Bits, test_b, test_cb, test_tb, test_bc. cbn [fst snd]. cbv zeta. rewrite !target_imm by lia. rewrite Z.shiftr_0_r.
  change (Z.shiftl 1 (25 - 0 + 1) - 1) with 0x03FFFFFF. change (Z.shiftl 1 (18 - 5 + 1) - 1) with 0x3FFF. change (Z.shiftl 1 (23 - 5 + 1) - 1) with 0x7FFFF. change (Z.shiftl 1 (3 - 0 + 1) - 1) with 0xF.
  destruct (Z.land w 4227858432 =? 335544320); [done|]. destruct ((Z.land w 2113929216 =? 872415232) || (Z.land w 2113929216 =? 905969664)).
  - destruct (Z.land w 2113929216 =? 905969664); by rewrite target_imm by lia.
  - destruct (Z.land w 4261412864 =? 1409286144); [|done]. f_equal. rewrite Z.geb_leb. destruct (Z.ltb_spec (Z.land w 15) 14), (Z.leb_spec 14 (Z.land w 15)); try done; lia.
Qed.

Lemma direct_targets n w pc : row_fits n w -> is_direct n = true -> GetDirectSuccessors w pc = branch_targets n pc w.
Proof.
  intros (bits & Hw & Hv & _)%row_checks Hd. rewrite successors_eq. unfold is_direct, direct_names in Hd. cbn [existsb] in Hd. rewrite !orb_true_iff, !String.eqb_eq in Hd.
  repeat destruct Hd as [Hd|Hd]; try done; subst n; unfold row_view in Hv; cbn [fst snd String.eqb Ascii.eqb Bool.eqb orb] in Hv; rewrite ?andb_true_iff in Hv; destruct_and? Hv;
    repeat match goal with
    | H : sure_true _ _ = true |- _ => rewrite (sure_true_ok _ _ _ Hw H); clear H
    | H : sure_false _ _ = true |- _ => rewrite (sure_false_ok _ _ _ Hw H); clear H
    end; reflexivity.
Qed.

Lemma plain_targets n w pc : row_fits n w -> is_direct n = false -> GetDirectSuccessors w pc = [].
Proof.
  intros (bits & Hw & Hv & _)%row_checks Hd. rewrite successors_eq. unfold is_direct, direct_names in Hd. cbn [existsb] in Hd. rewrite !orb_false_iff in Hd. destruct_and? Hd.
  unfold row_view in Hv. cbn [fst snd] in Hv. repeat match goal with H : String.eqb n _ = false |- _ => rewrite H in Hv end. cbn [orb] in Hv. rewrite !andb_true_iff in Hv. destruct_and? Hv.
  repeat match goal with H : sure_false _ _ = true |- _ => rewrite (sure_false_ok _ _ _ Hw H); clear H end. done.
Qed.

Lemma no_targets n pc w : is_direct n = false -> n <> "BL"%string -> branch_targets n pc w = [].
Proof.
  unfold is_direct, direct_names. cbn [existsb]. rewrite !orb_false_iff. intros Hd Hn. destruct_and? Hd. unfold branch_targets. cbv zeta.
  repeat match goal with H : String.eqb n _ = false |- _ => rewrite H; clear H end. by destruct (String.eqb_spec n "BL").
Qed.

Lemma target_ends n w pc ISBEnds T : row_fits n w -> T ∈ branch_targets n pc w -> EndsBlock w ISBEnds = true.
Proof.
  intros Hr HT. destruct (is_direct n || String.eqb n "BL") eqn:Hn.
  - destruct (row_checks n w Hr) as (bits & Hw & _ & He). unfold row_ends in He. cbn [fst snd] in He. rewrite Hn in He. cbn [negb orb] in He. rewrite !orb_true_iff in He. unfold EndsBlock.
    destruct He as [[He|He]|He]; pose proof (sure_true_ok _ _ _ Hw He) as Ht; cbn [fst snd test_bc] in Ht; rewrite Ht; by rewrite ?orb_true_r.
  - apply orb_false_iff in Hn as [Hd Hb%String.eqb_neq]. rewrite no_targets in HT by done. by apply elem_of_nil in HT.
Qed.

Lemma falls_plain IC i m : Matcher i = Some m -> falls IC i -> is_direct (MName m) = false.
Proof.
  intros Hm Hf. unfold falls in Hf. rewrite Hm in Hf. destruct Hf as [_ Hb]. destruct (is_direct (MName m)) eqn:Hd; [|done]. exfalso.
  unfold is_direct, direct_names in Hd. cbn [existsb] in Hd. rewrite !orb_true_iff, !String.eqb_eq in Hd.
  repeat destruct Hd as [Hd|Hd]; try done; rewrite Hd in Hb; by destruct (Hb eq_refl) as [_ ?].
Qed.

(** ** The shape of a unit *)

Section Shape.
Context (cfg : Config) (now ex : Z -> Prop) (Memory : Z -> Z) (DecodeInstruction : Z -> option InstMatcher) (PC Cap : Z) (Buffer : list DecodedInst) (i : DecodedBlockInformation).
Context (GP : bool).
Abbreviation IC := (SMCICache cfg).
Hypothesis (Hu : unit_ok cfg now ex Memory DecodeInstruction PC Cap Buffer i).
#[local] Set Default Proof Using "Type*".

(** The program. *)
Definition program (a : Z) : DecodedInst := mkInst a (Memory a) (DecodeInstruction (Memory a)).

(** Each word of the unit is modelled, and no marker of a thunk. *)
Definition words_ok : Prop := forall a, a ∈ concat (addrs <$> Blocks i) -> Memory a <> THUNK_MARKER_WORD /\ resolved GP IC (program a).

(** A BL goes to the entry of the unit or leaves it. *)
Definition calls_ok : Prop := forall a m, a ∈ concat (addrs <$> Blocks i) -> DecodeInstruction (Memory a) = Some m -> MName m = "BL"%string ->
  forall D, D ∈ Blocks i -> BEntry D = branch_target a (Bits (Memory a) 25 0) 26 -> BEntry D = PC.

Hypothesis (Hw : words_ok) (Hc : calls_ok).

Definition block_list (b : DecodedBlocks) : list DecodedInst := program <$> addrs b.

Lemma block_word b a : b ∈ Blocks i -> a ∈ addrs b -> a ∈ concat (addrs <$> Blocks i).
Proof. intros Hb Ha. rewrite list_elem_of_In, in_concat. exists (addrs b). split; apply list_elem_of_In; [by apply list_elem_of_fmap_2|done]. Qed.

Lemma block_program b : b ∈ Blocks i -> block_insts Buffer b = block_list b.
Proof.
  intros Hb. apply list_eq. intros j. unfold block_insts, block_list, addrs. rewrite list_lookup_fmap. unfold run. rewrite list_lookup_fmap.
  destruct (decide (j < NumInstructions b)%nat) as [Hj|Hj].
  - rewrite lookup_take_lt by done. rewrite lookup_drop, lookup_seq_lt by done. cbn. destruct (u_inst _ _ _ _ _ _ _ _ _ Hu b j Hb Hj) as (m & Hi & _ & Hm & _). unfold inst_at in Hi. rewrite Hi.
    destruct (Hw (BEntry b + 4 * Z.of_nat j)) as [Ht _]; [apply (block_word b); [done|]; apply elem_of_run; by exists j|]. unfold matched in Hm. rewrite (proj2 (Z.eqb_neq _ _) Ht) in Hm. by subst m.
  - rewrite lookup_take_ge by lia. by rewrite lookup_seq_ge by lia.
Qed.

Lemma run_cons L n : run L (S n) = L :: run (L + 4) n.
Proof. unfold run. cbn. f_equal; [lia|]. rewrite <- fmap_S_seq, <- list_fmap_compose. apply list_fmap_ext. intros k x _. cbn. lia. Qed.

Lemma chain_run n L : (forall j, (j < n)%nat -> 0 <= L + 4 * Z.of_nat j /\ L + 4 * Z.of_nat j + 64 < 2 ^ 64) -> chain L (program <$> run L n).
Proof.
  revert L. induction n as [|n IH]; intros L HL; [done|]. rewrite run_cons. cbn. split; [done|]. pose proof (HL 0%nat ltac:(lia)) as H0. rewrite u64_small by lia.
  apply IH. intros j Hj. specialize (HL (S j) ltac:(lia)). lia.
Qed.

Lemma targets_in_last Ts l :
  (forall k x, l !! k = Some x -> (S k < length l)%nat -> forall m T, Matcher x = Some m -> T ∈ branch_targets (MName m) (IPC x) (Word x) -> False) ->
  (forall x, last l = Some x -> (forall m T, Matcher x = Some m -> T ∈ branch_targets (MName m) (IPC x) (Word x) -> Ts T) /\ (falls IC x -> Ts (u64 (IPC x + 4)))) ->
  targets_in IC Ts l.
Proof.
  induction l as [|x l IH]; intros H1 H2; [done|]. cbn. split; [|split].
  - intros m T Hm HT. destruct l as [|y l]; [by apply (H2 x eq_refl) with m|]. by destruct (H1 0%nat x eq_refl ltac:(cbn; lia) m T).
  - intros -> Hf. by apply (H2 x eq_refl).
  - apply IH; [intros k y Hk Hlt; apply (H1 (S k)); [done|cbn; lia]|]. intros y Hy. apply H2. by destruct l.
Qed.

Lemma entries_nodup Bs : (forall b, b ∈ Bs -> (0 < NumInstructions b)%nat) -> NoDup (concat (addrs <$> Bs)) -> NoDup (BEntry <$> Bs).
Proof.
  induction Bs as [|b Bs IH]; intros Hn Hd; [apply NoDup_nil_2|]. cbn in *. apply NoDup_app in Hd as (_ & Hd & Hd2). apply NoDup_cons. split; [|apply IH; [intros c Hcc; apply Hn; by right|done]].
  assert (Hin : forall c, (0 < NumInstructions c)%nat -> BEntry c ∈ addrs c) by (intros c Hcn; apply elem_of_run; exists 0%nat; lia).
  intros (c & He & Hcin)%list_elem_of_fmap. apply (Hd (BEntry b)); [apply Hin, Hn; by left|]. rewrite He, list_elem_of_In, in_concat. exists (addrs c).
  split; apply list_elem_of_In; [by apply list_elem_of_fmap_2|apply Hin, Hn; by right].
Qed.

(** The last instruction of a block. *)
Lemma block_last b (a := BEntry b + 4 * Z.of_nat (NumInstructions b - 1)) : b ∈ Blocks i ->
  last (block_insts Buffer b) = Some (program a) /\ inst_at Buffer b (NumInstructions b - 1) = Some (program a) /\ a ∈ addrs b /\ u64 (a + 4) = BEntry b + BSize b.
Proof.
  intros Hb. destruct (u_shape _ _ _ _ _ _ _ _ _ Hu b Hb) as (_ & Hn & Hsz). pose proof (u_room _ _ _ _ _ _ _ _ _ Hu b (NumInstructions b - 1) Hb ltac:(lia)) as Hr. fold a in Hr.
  assert (Ha : a ∈ addrs b) by (apply elem_of_run; exists (NumInstructions b - 1)%nat; split; [lia|done]). split_and!; [| |done|rewrite u64_small by lia; unfold a; lia].
  - rewrite (block_program b Hb). unfold block_list, addrs. replace (NumInstructions b) with (S (NumInstructions b - 1)) at 1 by lia.
    rewrite run_snoc, fmap_app. apply last_snoc.
  - destruct (u_inst _ _ _ _ _ _ _ _ _ Hu b (NumInstructions b - 1) Hb ltac:(lia)) as (m & Hi & _ & Hm & _). fold a in Hi, Hm. rewrite Hi.
    destruct (Hw a (block_word b a Hb Ha)) as [Ht _]. unfold matched in Hm. rewrite (proj2 (Z.eqb_neq _ _) Ht) in Hm. by subst m.
Qed.

(** A way from a block to another is one of the edges that the census counts,
    unless it is a BL. *)
Lemma goes_edge A T : A ∈ Blocks i -> goes IC Buffer A T ->
  T ∈ targets Buffer A \/ exists a m, a ∈ addrs A /\ DecodeInstruction (Memory a) = Some m /\ MName m = "BL"%string /\ T = branch_target a (Bits (Memory a) 25 0) 26.
Proof.
  intros HA (x & Hx & Hgo). destruct (block_last A HA) as (Hl & Hi & Ha & Hnext). rewrite Hl in Hx. injection Hx as <-. set (a := BEntry A + _) in *.
  destruct (Hw a (block_word A a HA Ha)) as [_ (_ & _ & Hres)]. unfold targets. rewrite Hi. cbn [Matcher Word IPC program] in *.
  destruct (DecodeInstruction (Memory a)) as [m|] eqn:Em.
  - destruct Hres as [(h & Hh & _) Hrow]. assert (Hhd : handled (Some m) = true) by (cbn; by rewrite Hh). rewrite Hhd.
    destruct Hgo as [(m' & [= <-] & HT)|[Hf ->]].
    + destruct (is_direct (MName m)) eqn:Hd; [|destruct (String.eqb_spec (MName m) "BL") as [Hb|Hb]].
      * left. rewrite (direct_targets _ _ _ Hrow Hd). by destruct (branch_targets (MName m) a (Memory a)); [apply elem_of_nil in HT|].
      * right. exists a, m. split_and!; [done..|]. rewrite Hb in HT. by apply list_elem_of_singleton in HT.
      * rewrite no_targets in HT by done. by apply elem_of_nil in HT.
    + left. pose proof (falls_plain IC (program a) m Em Hf) as Hd. rewrite (plain_targets _ _ _ Hrow Hd). by apply list_elem_of_singleton.
  - destruct Hgo as [(m' & Hm' & _)|[Hf _]]; [done|]. unfold falls in Hf. cbn in Hf. by rewrite Em in Hf.
Qed.

(** The census tells the predecessor of a block with one. *)
Lemma sole_source A D : A ∈ Blocks i -> D ∈ Blocks i -> sole D = true -> goes IC Buffer A (BEntry D) -> BEntry A = SolePredEntry D.
Proof.
  intros HA HD Hs Hgo. unfold sole in Hs. rewrite andb_true_iff, !negb_true_iff, Z.eqb_neq in Hs. destruct Hs as [Hs Hen]. rewrite (u_entry _ _ _ _ _ _ _ _ _ Hu D HD) in Hen.
  destruct (goes_edge A _ HA Hgo) as [HT|(a & m & Ha & Hm & Hb & HT)].
  - destruct (u_census _ _ _ _ _ _ _ _ _ Hu D HD) as [_ Hsrc]. rewrite Hsrc in Hs |- *.
    assert (Hin : BEntry A ∈ sources (all_edges (targets Buffer) (Blocks i)) (BEntry D)).
    { unfold sources. apply list_elem_of_fmap. exists (BEntry A, BEntry D). split; [done|]. apply list_elem_of_filter. split; [done|]. unfold all_edges.
      rewrite list_elem_of_In, in_concat. exists (pair (BEntry A) <$> targets Buffer A). split; apply list_elem_of_In.
      - apply list_elem_of_fmap. by exists A.
      - by apply list_elem_of_fmap_2. }
    destruct (sources _ _) as [|f [|f' l]]; [done| |done]. by apply list_elem_of_singleton in Hin.
  - rewrite (Hc a m (block_word A a HA Ha) Hm Hb D HD HT), Z.eqb_refl in Hen. done.
Qed.

Lemma shape_ok : unit_shape GP IC program Buffer (Blocks i) PC.
Proof.
  destruct (u_first _ _ _ _ _ _ _ _ _ Hu) as (B & Bs & HBs & HB & _). split.
  - exists B, Bs. split_and!; [done..|]. rewrite (u_entry _ _ _ _ _ _ _ _ _ Hu B) by (rewrite HBs; by left). by apply Z.eqb_eq.
  - apply entries_nodup; [intros b Hb; by apply (u_shape _ _ _ _ _ _ _ _ _ Hu b)|apply Hu].
  - intros b l Hb. destruct (u_shape _ _ _ _ _ _ _ _ _ Hu b Hb) as (H1 & H2 & _). unfold l. clear l. destruct (block_last b Hb) as (Hl & _). rewrite (block_program b Hb) in *.
    split_and!; [done|lia|by intros H0; rewrite H0 in Hl| | | |].
    + apply chain_run. intros j Hj. by apply (u_room _ _ _ _ _ _ _ _ _ Hu).
    + apply Forall_fmap, Forall_forall. by intros x _.
    + apply Forall_fmap, Forall_forall. intros x Hx. by apply Hw, (block_word b).
    + apply targets_in_last.
      * intros k x Hx Hk m T Hm HT. unfold block_list, addrs, run in Hx, Hk. rewrite !length_fmap, length_seq in Hk. rewrite !list_lookup_fmap, lookup_seq_lt in Hx by lia. cbn in Hx. injection Hx as <-.
        set (a := BEntry b + 4 * Z.of_nat k) in *. assert (Ha : a ∈ addrs b) by (apply elem_of_run; exists k; split; [lia|done]).
        destruct (u_inst _ _ _ _ _ _ _ _ _ Hu b k Hb ltac:(lia)) as (m' & _ & _ & _ & Hstop). fold a in Hstop. destruct (Hw a (block_word b a Hb Ha)) as [_ (_ & _ & Hres)].
        cbn [program Matcher Word] in Hm, Hres, HT. rewrite Hm in Hres. destruct Hres as [_ Hrow]. unfold stops in Hstop. rewrite (target_ends _ _ a _ T Hrow HT), orb_true_r in Hstop. specialize (Hstop eq_refl). lia.
      * intros x Hx. split; [intros m T Hm HT|intros Hf]; exists x; rewrite (block_program b Hb); (split; [done|]); [left; by exists m|by right].
  - intros A B' D HA HB' HD Hs H1 H2. by rewrite (sole_source A D), (sole_source B' D).
Qed.
End Shape.
