(* ===== verification/DeadFlags.v ===== *)
(** The elimination of dead condition flags and dead values in the IR of a unit
    (IR/Passes/RedundantFlagCalculationElimination.cpp), and how its result runs.

    A node that is removed is unlinked and keeps its number, so the pass works
    on the emitted operations with holes.  The masks of flags have the bits of
    the source.  The fusion of compares into branches, which the pass calls in
    another file and a switch turns off, and the folding of branches are left
    out; there is no LoadNZCV and no operation below 32 bits in the modelled
    units, so the preserve brackets and TestZ have no counterpart. *)
From S2P Require Import Prelude A64Common IR BlockBuilder UnitExec.
Open Scope Z_scope.

(** ** Flags *)

Definition FLAG_V : Z := 1.
Definition FLAG_C : Z := 2.
Definition FLAG_Z : Z := 4.
Definition FLAG_N : Z := 8.
Definition FLAG_NZCV : Z := 15.
Definition FLAG_ALL : Z := FLAG_NZCV.

Definition FlagsForCondClassType (Cond : CondClass) : Z :=
  match Cond with
  | AL => 0
  | MI | PL => FLAG_N
  | EQ | NEQ => FLAG_Z
  | UGE | ULT => FLAG_C
  | VS | VC => FLAG_V
  | UGT | ULE => Z.lor FLAG_Z FLAG_C
  | SGE | SLT => Z.lor FLAG_N FLAG_V
  | SGT | SLE => Z.lor (Z.lor FLAG_N FLAG_Z) FLAG_V
  end.

(** ** Nodes *)

(** The flags-only forms of AndWithFlags, AdcWithFlags and SbbWithFlags are made
    by the pass only. *)
Inductive NoWriteOp := TestNZ | AddNZCV | SubNZCV | AdcNZCV | SbbNZCV.
Inductive node := Keep (o : op) | NoWrite (o : NoWriteOp) (Size : OpSize) (Src1 Src2 : Ref).

Definition flag_of (o : NoWriteOp) : FlagOp :=
  match o with TestNZ => AndWithFlags | AddNZCV => AddWithFlags | SubNZCV => SubWithFlags | AdcNZCV => AdcWithFlags | SbbNZCV => SbbWithFlags end.

(** The SSA arguments. *)
Definition op_args (o : op) : list Ref :=
  match o with
  | OStoreRegister _ v | OStoreContext _ v | OStoreContextPC v => [v]
  | OBin _ _ a b | OFlags _ _ a b | OAddNZCV _ a b | OSubNZCV _ a b | OCondAddNZCV _ a b _ _ | OCondSubNZCV _ a b _ _ => [a; b]
  | OUn _ _ a | OBfe _ _ _ a | OSbfe _ _ _ a => [a]
  | OBfi _ _ _ a b | OBfxil _ _ _ a b | OExtr _ a b _ | OSMull a b | ONZCVSelect _ _ a b => [a; b]
  | OSelect _ _ _ a b c d => [a; b; c; d]
  | OMulAdd _ a b c => [a; b; c]
  | OUDiv _ a b c d | ODiv _ a b c d => [a; b; c; d]
  | OLoadMem _ a r _ _ => a :: option_list r
  | OStoreMem _ v a r _ _ => v :: a :: option_list r
  | OPrefetch _ _ _ a r _ _ => a :: option_list r
  | OLoadMemRev _ a | OCacheLineZero a | OICacheInvalidate a => [a]
  | OStoreMemRev _ a v => [a; v]
  | OCondJump (JCompare _ _ a b) | OCondJump (JTest _ a b) => [a; b]
  | OExitFunction a _ r => a :: option_list r
  | OConstant _ | OEntrypointOffset _ | OLoadRegister _ | OLoadContext _ | OAllocateGPR | OGuestOpcode _ | OBreak _ | OInlineConstant _
  | OFence _ | OInlineEntrypointOffset _ | OJump _ | OCondJump (JNZCV _) => []
  end.
Definition args (n : node) : list Ref := match n with Keep o => op_args o | NoWrite _ _ a b => [a; b] end.

(** [HasSideEffects] of IR.json. *)
Definition op_side_effects (o : op) : bool :=
  match o with
  | OConstant _ | OEntrypointOffset _ | OLoadRegister _ | OLoadContext _ | OBin _ _ _ _ | OUn _ _ _ | OBfe _ _ _ _ | OSbfe _ _ _ _ | OBfi _ _ _ _ _
  | OBfxil _ _ _ _ _ | OExtr _ _ _ _ | OSelect _ _ _ _ _ _ _ | ONZCVSelect _ _ _ _ | OMulAdd _ _ _ _ | OSMull _ _ | OAllocateGPR
  | OLoadMem _ _ _ _ _ | OLoadMemRev _ _ => false
  | _ => true
  end.
Definition HasSideEffects (n : node) : bool := match n with Keep o => op_side_effects o | NoWrite _ _ _ _ => true end.

(** [IREmitter::IsFlagOp], which sets [HasFlags] of the block under emission. *)
Definition IsFlagOp (o : op) : bool :=
  match o with
  | OFlags _ _ _ _ | OAddNZCV _ _ _ | OSubNZCV _ _ _ | OBin Adc _ _ _ | OBin Sbb _ _ _ | ONZCVSelect _ _ _ _ | OUn Neg _ _ | OCondJump _
  | OCondAddNZCV _ _ _ _ _ | OCondSubNZCV _ _ _ _ _ => true
  | _ => false
  end.

(** ** Classification *)

Record FlagInfo := mkFlagInfo {
  Read : Z; Write : Z; CanEliminate : bool; Replacement : option BinOp; ReplacementNoWrite : option NoWriteOp }.
Definition no_flags : FlagInfo := mkFlagInfo 0 0 false None None.

Definition ClassifyConst (o : op) : FlagInfo :=
  match o with
  | OFlags AndWithFlags _ _ _ => mkFlagInfo 0 FLAG_NZCV false (Some And) (Some TestNZ)
  | OFlags AddWithFlags _ _ _ => mkFlagInfo 0 FLAG_NZCV false (Some Add) (Some AddNZCV)
  | OFlags SubWithFlags _ _ _ => mkFlagInfo 0 FLAG_NZCV false (Some Sub) (Some SubNZCV)
  | OFlags AdcWithFlags _ _ _ => mkFlagInfo FLAG_C FLAG_NZCV false (Some Adc) (Some AdcNZCV)
  | OFlags SbbWithFlags _ _ _ => mkFlagInfo FLAG_C FLAG_NZCV false (Some Sbb) (Some SbbNZCV)
  | OAddNZCV _ _ _ | OSubNZCV _ _ _ => mkFlagInfo 0 FLAG_NZCV true None None
  | OBin Adc _ _ _ | OBin Sbb _ _ _ => mkFlagInfo FLAG_C 0 false None None
  | _ => no_flags
  end.

(** With the operations whose answer depends on their fields. *)
Definition Classify (n : node) : FlagInfo :=
  match n with
  | Keep (ONZCVSelect _ c _ _) | Keep (OCondJump (JNZCV c)) => mkFlagInfo (FlagsForCondClassType c) 0 false None None
  | Keep (OUn Neg _ _) => mkFlagInfo (FlagsForCondClassType AL) 0 false None None
  | Keep (OCondAddNZCV _ _ _ c _) | Keep (OCondSubNZCV _ _ _ c _) => mkFlagInfo (FlagsForCondClassType c) FLAG_NZCV true None None
  | Keep o => ClassifyConst o
  | NoWrite TestNZ _ _ _ | NoWrite AddNZCV _ _ _ | NoWrite SubNZCV _ _ _ => mkFlagInfo 0 FLAG_NZCV true None None
  | NoWrite AdcNZCV _ _ _ | NoWrite SbbNZCV _ _ _ => mkFlagInfo FLAG_C FLAG_NZCV true None None
  end.

Definition Trivial (i : FlagInfo) : bool :=
  (Read i =? 0) && (Write i =? 0) && negb (CanEliminate i) && negb (if Replacement i then true else false) && negb (if ReplacementNoWrite i then true else false).

(** The opcode is replaced in place. *)
Definition replace_op (n : node) (o : BinOp) : node := match n with Keep (OFlags _ sz a b) => Keep (OBin o sz a b) | _ => n end.
Definition replace_no_write (n : node) (o : NoWriteOp) : node := match n with Keep (OFlags _ sz a b) => NoWrite o sz a b | _ => n end.

(** ** One node *)

Abbreviation nodes := (list (option node)).

Definition used (l : nodes) (i : nat) : bool :=
  existsb (fun n => match n with Some n => existsb (Nat.eqb i) (args n) | None => false end) l.

Section Pass.
(** The unit; the exits that the peek marked; the switches. *)
Context (b : Builder) (NZCVDeadAtTarget : nat -> bool) (DisableDFCEStoreElim NoWriteArmDisabled : bool).
Abbreviation u := (Unit b).

(** A node against the flags that are read after it: the node that stays, and
    whether a writer of flags was removed. *)
Definition rewrite_flags (F : Z) (Uses : bool) (n : node) : option node * bool :=
  let Info := Classify n in
  if Z.land F (Write Info) =? 0 then
    if (CanEliminate Info || if Replacement Info then true else false) && negb Uses && negb DisableDFCEStoreElim then (None, true)
    else match Replacement Info with Some o => (Some (replace_op n o), false) | None => (Some n, false) end
  else
    match ReplacementNoWrite Info with
    | Some o => if negb Uses && negb NoWriteArmDisabled then (Some (replace_no_write n o), false) else (Some n, false)
    | None => (Some n, false)
    end.

Definition process_node (F : Z) (l : nodes) (i : nat) : Z * nodes :=
  match l !! i with
  | Some (Some n) =>
      if negb (used l i) && negb (HasSideEffects n) then (F, <[i := None]> l)
      else
        let Info := Classify n in
        if Trivial Info then (F, l)
        else
          let '(n', Eliminated) := rewrite_flags F (used l i) n in
          let F := Z.land F (Z.lnot (Write Info)) in
          (if Eliminated then F else Z.lor F (Read Info), <[i := n']> l)
  | _ => (F, l)
  end.

Fixpoint process_nodes (positions : list nat) (F : Z) (l : nodes) : Z * nodes :=
  match positions with
  | [] => (F, l)
  | i :: positions => let '(F, l) := process_node F l i in process_nodes positions F l
  end.

(** ** Blocks *)

(** The positions of a block, the last one first. *)
Definition positions (K : nat) : list nat :=
  match segment (length (Ops b)) (Segments u) K with Some (s, e) => rev (seq s (e - s)) | None => [] end.

Definition HasFlags (K : nat) : bool := existsb (fun i => match Ops b !! i with Some o => IsFlagOp o | None => false end) (positions K).

(** [BlockInfo]; [Node] is the block itself. *)
Record BlockInfo := mkBlockInfo { Predecessors : list nat; BFlags : Z; EntryUndefined : Z; InWorklist : bool }.
Record ControlFlow := mkCFG { Nodes : nodes; BlockMap : list BlockInfo; Worklist : list nat }.

Definition no_block : BlockInfo := mkBlockInfo [] FLAG_ALL 0 true.
(** Blocks are numbered from 1; the entry 0 of [BlockMap] is not used. *)
Definition Get (s : ControlFlow) (K : nat) : BlockInfo := nth K (BlockMap s) no_block.
Definition Put (s : ControlFlow) (K : nat) (f : BlockInfo -> BlockInfo) : ControlFlow :=
  mkCFG (Nodes s) (alter f K (BlockMap s)) (Worklist s).

Definition set_flags_of (F : Z) (i : BlockInfo) : BlockInfo := mkBlockInfo (Predecessors i) F (EntryUndefined i) (InWorklist i).
Definition set_queued (x : bool) (i : BlockInfo) : BlockInfo := mkBlockInfo (Predecessors i) (BFlags i) (EntryUndefined i) x.
Definition set_undefined (F : Z) (i : BlockInfo) : BlockInfo := mkBlockInfo (Predecessors i) (BFlags i) F (InWorklist i).
Definition add_predecessor (P : nat) (i : BlockInfo) : BlockInfo := mkBlockInfo (Predecessors i ++ [P]) (BFlags i) (EntryUndefined i) (InWorklist i).

(** The exit of a block: its last node. *)
Fixpoint exit_node (positions : list nat) (l : nodes) : option (nat * node) :=
  match positions with
  | [] => None
  | i :: positions => match l !! i with Some (Some n) => Some (i, n) | _ => exit_node positions l end
  end.

(** The blocks of the unit that an exit goes to. *)
Definition successors (x : option (nat * node)) : list nat :=
  match x with
  | Some (i, Keep (OCondJump _)) => option_list (assoc i (TrueBlock u)) ++ option_list (assoc i (FalseBlock u))
  | Some (_, Keep (OJump K)) => [K]
  | _ => []
  end.

(** The flags that are read after the exit; a conditional jump has both of its
    targets. *)
Definition exit_flags (Flags : nat -> Z) (x : option (nat * node)) : Z :=
  match x with
  | Some (i, Keep (OCondJump _)) =>
      let at_ K := match K with Some K => Flags K | None => FLAG_ALL end in
      Z.lor (at_ (assoc i (TrueBlock u))) (at_ (assoc i (FalseBlock u)))
  | Some (_, Keep (OJump K)) => Flags K
  | Some (i, Keep (OExitFunction _ _ _)) => if NZCVDeadAtTarget i then 0 else FLAG_ALL
  | _ => FLAG_ALL
  end.
Definition out_flags (s : ControlFlow) (K : nat) : Z := exit_flags (fun K => BFlags (Get s K)) (exit_node (positions K) (Nodes s)).

Definition ProcessBlock (K : nat) (s : ControlFlow) : bool * ControlFlow :=
  let FlagsRead := out_flags s K in
  let '(F, l) := if HasFlags K then process_nodes (positions K) FlagsRead (Nodes s) else (FlagsRead, Nodes s) in
  (negb (BFlags (Get s K) =? F), Put (mkCFG l (BlockMap s) (Worklist s)) K (set_flags_of F)).

(** ** The whole unit *)

Definition AddWorklist (s : ControlFlow) (K : nat) : ControlFlow :=
  if InWorklist (Get s K) then s
  else let s := Put s K (set_queued true) in mkCFG (Nodes s) (BlockMap s) (K :: Worklist s).

(** [Init], for [BlockCount] blocks. *)
Definition BlockCount : nat := NextBlock u - 1.
Definition Init : ControlFlow := mkCFG (map (fun o => Some (Keep o)) (Ops b)) (repeat no_block (NextBlock u)) (seq 1 BlockCount).

(** The edges out of the blocks, in the order of the list of blocks. *)
Fixpoint Gather (Order : list nat) (s : ControlFlow) : ControlFlow :=
  match Order with
  | [] => s
  | K :: Order => Gather Order (foldl (fun s To => Put s To (add_predecessor K)) s (successors (exit_node (positions K) (Nodes s))))
  end.

Fixpoint flow (fuel : nat) (s : ControlFlow) : option ControlFlow :=
  match fuel with
  | O => None
  | S fuel =>
      match last (Worklist s) with
      | None => Some s
      | Some K =>
          let '(Changed, s) := ProcessBlock K (Put s K (set_queued false)) in
          let s := if Changed then foldl AddWorklist s (Predecessors (Get s K)) else s in
          flow fuel (mkCFG (Nodes s) (BlockMap s) (removelast (Worklist s)))
      end
  end.
(** Each round takes a block out of the worklist or lowers the flags of one. *)
Definition flow_fuel : nat := S (S (5 * NextBlock u) * S (NextBlock u)).

(** ** What the pass tells the back end *)

(** The nodes whose lowering may overwrite flags: shifts that may write C, and
    conditional jumps that may write all four. *)
Definition permission (F : Z) (n : node) : bool :=
  match n with
  | Keep (OBin Ashr _ _ _) | Keep (OSbfe _ _ _ _) => Z.land F FLAG_C =? 0
  | Keep (OCondJump _) => Z.land F FLAG_NZCV =? 0
  | _ => false
  end.

Definition live_before (n : option node) (F : Z) : Z :=
  match n with Some n => let Info := Classify n in Z.lor (Z.land F (Z.lnot (Write Info))) (Read Info) | None => F end.

Fixpoint annotate (l : nodes) (positions : list nat) (F : Z) : list nat :=
  match positions with
  | [] => []
  | i :: positions =>
      let n := l !! i ≫= id in
      (if from_option (permission F) false n then [i] else []) ++ annotate l positions (live_before n F)
  end.
Definition AnnotateFlagLiveness (s : ControlFlow) : list nat :=
  concat (map (fun K => annotate (Nodes s) (positions K) (out_flags s K)) (seq 1 BlockCount)).

(** The flags a block reads before it writes them, and those it leaves as they
    were, of the flags [U] that are not written when it is entered. *)
Fixpoint reach_block (l : nodes) (positions : list nat) (LiveIn U : Z) : Z * Z :=
  match positions with
  | [] => (LiveIn, U)
  | i :: positions =>
      match l !! i ≫= id with
      | Some n => let Info := Classify n in reach_block l positions (Z.lor LiveIn (Z.land (Read Info) U)) (Z.land U (Z.lnot (Write Info)))
      | None => reach_block l positions LiveIn U
      end
  end.

Definition Propagate (U : Z) (s : ControlFlow) (K : nat) : ControlFlow :=
  let Merged := Z.lor (EntryUndefined (Get s K)) U in
  if Merged =? EntryUndefined (Get s K) then s else AddWorklist (Put s K (set_undefined Merged)) K.

(** The forward reach from the entry: [LiveIn] are the flags found live at the
    entry of the unit. *)
Fixpoint reach (fuel : nat) (LiveIn : Z) (s : ControlFlow) : option (Z * ControlFlow) :=
  match fuel with
  | O => None
  | S fuel =>
      match last (Worklist s) with
      | None => Some (LiveIn, s)
      | Some K =>
          if negb (Z.land LiveIn FLAG_NZCV =? 0) then Some (LiveIn, s)
          else
            let s := Put (mkCFG (Nodes s) (BlockMap s) (removelast (Worklist s))) K (set_queued false) in
            let '(LiveIn, U) := if HasFlags K then reach_block (Nodes s) (rev (positions K)) LiveIn (EntryUndefined (Get s K)) else (LiveIn, EntryUndefined (Get s K)) in
            let s := if U =? 0 then s else foldl (Propagate U) s (successors (exit_node (positions K) (Nodes s))) in
            reach fuel LiveIn s
      end
  end.

(** [EntryNZCVLiveIn]; [Entry_] is the first block of the unit. *)
Definition EntryNZCVLiveIn (Entry_ : nat) (s : ControlFlow) : option bool :=
  '(LiveIn, _) ← reach flow_fuel 0 (AddWorklist (Put s Entry_ (set_undefined FLAG_NZCV)) Entry_);
  Some (negb (Z.land LiveIn FLAG_NZCV =? 0)).

(** [Order]: the list of blocks. *)
Record Result := mkResult { RNodes : nodes; Permissions : list nat; RLiveIn : bool }.
Definition Run (Order : list nat) : option Result :=
  s ← flow flow_fuel (Gather Order Init);
  LiveIn ← match Order with K :: _ => EntryNZCVLiveIn K s | [] => Some false end;
  Some (mkResult (Nodes s) (AnnotateFlagLiveness s) LiveIn).
End Pass.

(** ** Running the result

    As [UnitExec], over nodes: a node that was removed leaves its value
    undefined, and a lowering that has the permission leaves the flags it may
    write undefined. *)
Section Exec.
Context (b : Builder) (l : nodes) (Permission : nat -> bool) (junk : nat -> Z) (junk_flags : nat -> NZCV).
Abbreviation u := (Unit b).

Definition clobber (i : nat) (o : op) (g : Guest) : Guest :=
  if Permission i then
    match o with
    | OBin Ashr _ _ _ | OSbfe _ _ _ _ => set_flags g (mkNZCV (FN (Flags g)) (FZ (Flags g)) (FC (junk_flags i)) (FV (Flags g)))
    | OCondJump _ => set_flags g (junk_flags i)
    | _ => g
    end
  else g.

Definition step_node (m : Machine) (n : option node) : Machine :=
  let i := length (Env m) in
  match n with
  | None => push m (u64 (junk i))
  | Some (Keep o) => let m' := step junk (Entry b) m o in mkMachine (Env m') (clobber i o (G m'))
  | Some (NoWrite o sz x y) =>
      push_g m (u64 (junk i)) (set_flags (G m) (flag_op (flag_of o) (bits sz) (rd (Env m) sz x) (rd (Env m) sz y) (FC (Flags (G m)))).2)
  end.
Definition run_node (m : Machine) (n : option node) : Machine := match Stop (G m) with Some _ => m | None => step_node m n end.
Definition exec_nodes (m : Machine) (l : nodes) : Machine := foldl run_node m l.

Definition run_block_nodes (K : nat) (Prev : option nat) (Values : list Z) (g : Guest) : option Machine :=
  '(s, e) ← segment (length (Ops b)) (Segments u) K;
  Some (exec_nodes (mkMachine (head_values b junk s K Prev Values) g) (take (e - s) (drop s l))).

Definition step_nodes (p : UnitPoint) : option UnitPoint :=
  match p with
  | AtBlock K Prev Values g => m ← run_block_nodes K Prev Values g; after_block b K m
  | _ => Some p
  end.
End Exec.

Fixpoint run_nodes (b : Builder) (l : nodes) (Permission : nat -> bool) (junk : nat -> nat -> Z) (junk_flags : nat -> nat -> NZCV) (n : nat) (p : UnitPoint) : option UnitPoint :=
  match n with
  | O => Some p
  | S n => p ← run_nodes b l Permission junk junk_flags n p; step_nodes b l Permission (junk n) (junk_flags n) p
  end.
