(* ===== verification/DeadFlagsSpec.v ===== *)
(** The dead-flag pass, node by node: what its flag masks and its arguments say
    about a node at run time, that each rewriting keeps what is read later, and
    the invariant that each node is the emitted one or a rewriting that the flags
    and values read after it allow. *)
From S2P Require Import Prelude A64Common IR IRLogic BlockBuilder UnitExec DeadFlags.
Open Scope Z_scope.

(** ** Flags that agree on a mask *)

Definition flag_bit (f : NZCV) (k : Z) : bool := match k with 0 => FV f | 1 => FC f | 2 => FZ f | 3 => FN f | _ => false end.
Definition agree (F : Z) (f f' : NZCV) : Prop := forall k, Z.testbit F k = true -> flag_bit f k = flag_bit f' k.

#[export] Instance agree_equivalence F : Equivalence (agree F).
Proof. split; [by intros f k|intros f f' H k Hk; by rewrite H|intros f g h H1 H2 k Hk; by rewrite H1, H2]. Qed.

(** [F] has the bits of [F']. *)
Definition covers (F F' : Z) : Prop := forall k, Z.testbit F' k = true -> Z.testbit F k = true.
#[export] Instance covers_preorder : PreOrder covers.
Proof. split; [by intros F k|]. intros A B C H1 H2 k Hk. by apply H1, H2. Qed.

Lemma agree_mono F F' f f' : covers F F' -> agree F f f' -> agree F' f f'.
Proof. intros Hc H k Hk. by apply H, Hc. Qed.

Lemma agree_all f f' : agree FLAG_ALL f f' -> f = f'.
Proof.
  intros H. destruct f, f'. pose proof (H 0 eq_refl). pose proof (H 1 eq_refl). pose proof (H 2 eq_refl). pose proof (H 3 eq_refl). cbn in *. congruence.
Qed.

Lemma covers_lor_l F F' : covers (Z.lor F F') F.
Proof. intros k Hk. by rewrite Z.lor_spec, Hk. Qed.
Lemma covers_lor_r F F' : covers (Z.lor F F') F'.
Proof. intros k Hk. by rewrite Z.lor_spec, Hk, orb_true_r. Qed.

Lemma land_zero F W k : Z.land F W = 0 -> Z.testbit F k = true -> Z.testbit W k = false.
Proof. intros H Hk. assert (Hx : Z.testbit (Z.land F W) k = false) by (rewrite H; apply Z.bits_0). by rewrite Z.land_spec, Hk in Hx. Qed.

Lemma before_bit n F k : Z.testbit (live_before (Some n) F) k = (Z.testbit F k && negb (Z.testbit (Write (Classify n)) k) || Z.testbit (Read (Classify n)) k).
Proof.
  unfold live_before. rewrite Z.lor_spec, Z.land_spec. destruct (Z.ltb_spec k 0) as [Hk|Hk]; [by rewrite !Z.testbit_neg_r by done|]. by rewrite Z.lnot_spec.
Qed.

Lemma live_before_mono n F F' : covers F F' -> covers (live_before n F) (live_before n F').
Proof. intros H k. destruct n as [n|]; [|apply H]. rewrite !before_bit. intros [[H1 H2]%andb_prop|H1]%orb_prop; [by rewrite (H k H1), H2|by rewrite H1, orb_true_r]. Qed.

Lemma agree_read n F f f' : agree (live_before (Some n) F) f f' -> agree (Read (Classify n)) f f'.
Proof. apply agree_mono. intros k Hk. by rewrite before_bit, Hk, orb_true_r. Qed.

Lemma agree_kept n F f f' : Write (Classify n) = 0 -> agree (live_before (Some n) F) f f' -> agree F f f'.
Proof. intros HW. apply agree_mono. intros k Hk. by rewrite before_bit, Hk, HW, Z.bits_0. Qed.

(** What is read after an operation that writes all flags is never what was
    there before. *)
Lemma land_nzcv_bit F k : Z.land F FLAG_NZCV = 0 -> 0 <= k < 4 -> Z.testbit F k = false.
Proof.
  intros H Hk. destruct (Z.testbit F k) eqn:E; [|done]. pose proof (land_zero F FLAG_NZCV k H E) as Hf.
  assert (k = 0 \/ k = 1 \/ k = 2 \/ k = 3) as [->|[->|[->| ->]]] by lia; discriminate Hf.
Qed.

Lemma agree_none F f f' : Z.land F FLAG_NZCV = 0 -> agree F f f'.
Proof.
  intros H k Hk. destruct (decide (0 <= k < 4)) as [Hr|Hr]; [by rewrite land_nzcv_bit in Hk|].
  destruct k as [|p|p]; [lia| |done]. by do 3 (destruct p as [p|p|]; try lia; try done).
Qed.

Lemma cond_agree c f f' : agree (FlagsForCondClassType c) f f' -> nzcv_cond c f = nzcv_cond c f'.
Proof.
  intros H. destruct f as [n z cf v], f' as [n' z' cf' v'].
  assert (Hb : forall k, Z.testbit (FlagsForCondClassType c) k = true -> flag_bit (mkNZCV n z cf v) k = flag_bit (mkNZCV n' z' cf' v') k) by exact H. clear H.
  destruct c; cbn; try (pose proof (Hb 0 eq_refl) as H0; cbn in H0; subst v'); try (pose proof (Hb 1 eq_refl) as H1; cbn in H1; subst cf');
    try (pose proof (Hb 2 eq_refl) as H2; cbn in H2; subst z'); try (pose proof (Hb 3 eq_refl) as H3; cbn in H3; subst n'); done.
Qed.

(** ** Guests that differ in dead flags *)

Definition same_but (F : Z) (g g' : Guest) : Prop := exists f, g' = set_flags g f /\ agree F (Flags g) f.

Lemma same_but_refl F g : same_but F g g.
Proof. exists (Flags g). by destruct g. Qed.

Lemma same_but_mono F F' g g' : covers F F' -> same_but F g g' -> same_but F' g g'.
Proof. intros Hc (f & -> & H). exists f. split; [done|]. by eapply agree_mono. Qed.

Lemma same_but_stop F g g' : same_but F g g' -> Stop g' = Stop g.
Proof. by intros (f & -> & _). Qed.

Lemma same_but_trans F g h k : same_but F g h -> same_but F h k -> same_but F g k.
Proof. intros (f & -> & H1) (f' & -> & H2). exists f'. split; [done|]. by etrans. Qed.

Lemma same_but_all g g' : same_but FLAG_ALL g g' -> g' = g.
Proof. intros (f & -> & H%agree_all). subst f. by destruct g. Qed.

(** ** The step of an operation *)

(** Values that agree where they are used. *)
Definition values_on (P : nat -> Prop) (e e' : list Z) : Prop := length e' = length e /\ forall i, P i -> nth i e' 0 = nth i e 0.

Lemma values_push P e e' v : values_on P e e' -> values_on P (e ++ [v]) (e' ++ [v]).
Proof.
  intros [Hl H]. split; [rewrite !length_app; cbn; lia|]. intros i Hi. destruct (decide (i < length e)%nat) as [Hlt|Hge].
  - rewrite !app_nth1 by lia. by apply H.
  - rewrite !app_nth2 by lia. by rewrite Hl.
Qed.

Lemma values_push_other P e e' v v' : ~ P (length e) -> values_on P e e' -> values_on P (e ++ [v]) (e' ++ [v']).
Proof.
  intros Hn [Hl H]. split; [rewrite !length_app; cbn; lia|]. intros i Hi. destruct (decide (i < length e)%nat) as [Hlt|Hge]; [rewrite !app_nth1 by lia; by apply H|].
  rewrite !app_nth2 by lia. rewrite Hl. destruct (decide (i = length e)) as [->|]; [by destruct Hn|]. destruct (i - length e)%nat as [|[|k]] eqn:E; [lia|done|done].
Qed.

Lemma values_insert P e e' i v : values_on P e e' -> values_on P (<[i := v]> e) (<[i := v]> e').
Proof.
  intros [Hl H]. split; [by rewrite !length_insert|]. intros j Hj. destruct (decide (i = j)) as [->|Hne].
  - destruct (decide (j < length e)%nat) as [Hlt|Hge].
    + rewrite !nth_lookup, !list_lookup_insert_eq by lia. done.
    + rewrite !list_insert_ge by lia. by apply H.
  - rewrite !nth_lookup, !list_lookup_insert_ne by done. rewrite <- !nth_lookup. by apply H.
Qed.

Section Step.
Context (junk : nat -> Z) (entry : Z).

Lemma rd_on P e e' sz a : values_on P e e' -> P a -> rd e' sz a = rd e sz a.
Proof. intros [_ H] Ha. unfold rd. by rewrite H. Qed.

Lemma address_on P e e' a r t k : values_on P e e' -> (forall x, x ∈ a :: option_list r -> P x) -> mem_address e' a r t k = mem_address e a r t k.
Proof.
  intros [_ H] Hx. unfold mem_address. rewrite (H a) by (apply Hx; by left). destruct r as [r|]; [|done]. rewrite (H r) by (apply Hx; right; by left). done.
Qed.

(** The arguments of the two runs. *)
Ltac same_args :=
  repeat match goal with
  | Hv : values_on ?P ?e ?e', Ha : forall a, a ∈ _ -> ?P a |- _ =>
      first [rewrite (rd_on P e e' _ _ Hv) by (apply Ha; member)
            |rewrite (address_on P e e' _ _ _ _ Hv) by (let Hx := fresh in intros ? Hx; apply Ha; first [exact Hx|by apply list_elem_of_further|apply elem_of_cons in Hx as [->|Hx]; [member|by apply elem_of_nil in Hx]])
            |rewrite (proj2 Hv) by (apply Ha; member)
            |rewrite (proj1 Hv)]
  end.

(** An operation that only computes a value, or whose effect does not depend on
    the flags; and one that writes the flags. *)
Ltac pure_op f K := split; [exists f; split; [reflexivity|exact (K eq_refl)]|unfold step, push; cbn [Env G Flags set_flags]; same_args; by apply values_push].
Ltac effect_op f K := unfold step, push_g; cbn [Env G Flags set_flags]; same_args; split; [exists f; split; [reflexivity|exact (K eq_refl)]|by apply values_push].
Ltac flag_op := unfold step, push_g; cbn [Env G Flags set_flags]; same_args; split; [eexists; split; [reflexivity|reflexivity]|by apply values_push].

Ltac div_op f K :=
  unfold step; cbn [Env G Flags set_flags]; same_args; match goal with |- context [if ?c then _ else _] => destruct c end;
  unfold push_div; cbn [Env G]; (split; [exists f; split; [reflexivity|exact (K eq_refl)]|by apply values_push, values_insert, values_insert]).
Ltac mem_op f K :=
  unfold step, push, push_g; cbn [Env G Mem Flags set_flags]; same_args; match goal with |- context [if ?c then _ else _] => destruct c end;
  cbn [Env G]; (split; [exists f; split; [reflexivity|exact (K eq_refl)]|by apply values_push]).

(** The values that an operation computes, with its effect. *)
Lemma node_agree o e e' g g' F P (m := step junk entry (mkMachine e g) o) (m' := step junk entry (mkMachine e' g') o) :
  values_on P e e' -> (forall a, a ∈ op_args o -> P a) -> same_but (live_before (Some (Keep o)) F) g g' ->
  same_but F (G m) (G m') /\ values_on P (Env m) (Env m').
Proof.
  intros Hv Ha (f & -> & Hf). unfold m, m'. clear m m'. pose proof (proj1 Hv) as Hl. pose proof (agree_read _ _ _ _ Hf) as Hr.
  assert (Hkeep : Write (Classify (Keep o)) = 0 -> agree F (Flags g) f) by (intros HW; by apply agree_kept with (Keep o)).
  destruct o as [c|off|s|s v|i|i v|o sz a b|o sz a|o sz a b|sz a b|sz a b|sz a b c k|sz a b c k|sz w lsb a|sz w lsb a|sz w lsb d a|sz w lsb d a|sz x y lsb|rs cs c a b t k|rs c t k|sz a b c|a b| |sz a b q r|sz a b q r
                |off|v|r|c|n a r t k|n v a r t k|n a|n a v|s st l a r t k|fe|a|a|off|k|c|pc h r]; cbn [op_args option_list] in Ha.
  all: try pure_op f Hkeep; try effect_op f Hkeep.
  - assert (Hc : match o with Adc | Sbb => FC f = FC (Flags g) | _ => True end) by (destruct o; try done; exact (eq_sym (Hr 1 eq_refl))).
    destruct o; cbn [op_args] in *; try pure_op f Hkeep; (split; [exists f; split; [reflexivity|exact (Hkeep eq_refl)]|]); unfold step, push; cbn [Env G Flags set_flags]; rewrite Hc; same_args; by apply values_push.
  - destruct o; pure_op f Hkeep.
  - assert (Hc : match o with AdcWithFlags | SbbWithFlags => FC f = FC (Flags g) | _ => True end) by (destruct o; try done; exact (eq_sym (Hr 1 eq_refl))).
    destruct o; cbn [op_args] in *; try flag_op; unfold step, push_g; cbn [Env G Flags set_flags]; rewrite Hc; flag_op.
  - flag_op.
  - flag_op.
  - pose proof (cond_agree _ _ _ Hr) as Hc. unfold step; cbn [Env G Flags set_flags]. rewrite <- Hc. destruct (nzcv_cond c (Flags g)); flag_op.
  - pose proof (cond_agree _ _ _ Hr) as Hc. unfold step; cbn [Env G Flags set_flags]. rewrite <- Hc. destruct (nzcv_cond c (Flags g)); flag_op.
  - pose proof (cond_agree _ _ _ Hr) as Hc. split; [exists f; split; [reflexivity|exact (Hkeep eq_refl)]|]. unfold step, push; cbn [Env G Flags set_flags]. rewrite <- Hc. same_args. by apply values_push.
  - div_op f Hkeep.
  - div_op f Hkeep.
  - mem_op f Hkeep.
  - mem_op f Hkeep.
  - mem_op f Hkeep.
  - mem_op f Hkeep.
  - mem_op f Hkeep.
  - destruct c as [c|c sz a b|nz a b]; cbn [op_args] in Ha; unfold step, push_g, jump_taken; cbn [Env G Flags set_flags].
    + rewrite (cond_agree _ _ _ Hr), Hl. split; [exists f; split; [reflexivity|exact (Hkeep eq_refl)]|by apply values_push].
    + same_args. split; [exists f; split; [reflexivity|exact (Hkeep eq_refl)]|by apply values_push].
    + same_args. split; [exists f; split; [reflexivity|exact (Hkeep eq_refl)]|by apply values_push].
Qed.
End Step.

(** ** Rewritings

    What a node may have become, when [L] is read after it and its value is used
    or not. *)
Inductive refines (Uses : bool) (L : Z) (o : op) : option node -> Prop :=
  | rf_same : refines Uses L o (Some (Keep o))
  | rf_replaced fo sz a b r : o = OFlags fo sz a b -> Replacement (ClassifyConst o) = Some r -> Z.land L FLAG_NZCV = 0 -> refines Uses L o (Some (Keep (OBin r sz a b)))
  | rf_no_write fo sz a b r : o = OFlags fo sz a b -> ReplacementNoWrite (ClassifyConst o) = Some r -> Uses = false -> refines Uses L o (Some (NoWrite r sz a b))
  | rf_value : op_side_effects o = false -> Uses = false -> refines Uses L o None
  | rf_flags : Write (Classify (Keep o)) = FLAG_NZCV -> Z.land L FLAG_NZCV = 0 -> Uses = false -> refines Uses L o None.

Lemma refines_mono U U' L L' o c : (U' = true -> U = true) -> covers L L' -> refines U L o c -> refines U' L' o c.
Proof.
  intros HU HL H. assert (Hu : U = false -> U' = false) by (intros ->; destruct U'; [by discriminate HU|done]).
  assert (Hl : Z.land L FLAG_NZCV = 0 -> Z.land L' FLAG_NZCV = 0).
  { intros H0. apply Z.bits_inj'. intros k Hk. rewrite Z.land_spec, Z.bits_0. destruct (Z.testbit L' k) eqn:E; [|done]. cbn. by apply (land_zero L); [|apply HL]. }
  destruct H; [apply rf_same|by eapply rf_replaced; auto|by eapply rf_no_write; auto|apply rf_value; auto|apply rf_flags; auto].
Qed.

Section Refines.
Context (b : Builder) (junk : nat -> Z).
Abbreviation entry := (Entry b).

Lemma value_step m o : op_side_effects o = false ->
  (exists v, step junk entry m o = push m v) \/ (exists A, G (step junk entry m o) = set_stop (G m) (SFault false A)).
Proof. destruct o; try done; intros _; unfold step; try (left; by eexists); destruct (readable _ _ _); [left; by eexists|right; by eexists|left; by eexists|right; by eexists]. Qed.

(** An operation whose only effect is on the flags. *)
Lemma flags_step m o : Write (Classify (Keep o)) = FLAG_NZCV -> exists v f, step junk entry m o = push_g m v (set_flags (G m) f).
Proof.
  intros H. destruct o; try discriminate H; try (match type of H with context [OBin ?o] => destruct o | context [OUn ?o] => destruct o | context [OCondJump ?c] => destruct c end; discriminate H);
    unfold step; try (by eexists; eexists). destruct (flag_op _ _ _ _ _); by eexists; eexists.
Qed.

Lemma replaced_step m fo sz x y r : Replacement (ClassifyConst (OFlags fo sz x y)) = Some r ->
  exists f, step junk entry m (OFlags fo sz x y) = mkMachine (Env (step junk entry m (OBin r sz x y))) (set_flags (G m) f) /\ G (step junk entry m (OBin r sz x y)) = G m.
Proof. destruct fo; intros [= <-]; unfold step; eexists; by split. Qed.

Lemma no_write_step m fo sz x y r : ReplacementNoWrite (ClassifyConst (OFlags fo sz x y)) = Some r ->
  fo = flag_of r /\ exists v, step junk entry m (OFlags fo sz x y) = push_g m v (set_flags (G m) (flag_op fo (bits sz) (rd (Env m) sz x) (rd (Env m) sz y) (FC (Flags (G m)))).2).
Proof. destruct fo; intros [= <-]; (split; [done|]); unfold step; by eexists. Qed.

Lemma same_but_dead L g g' f : Z.land L FLAG_NZCV = 0 -> same_but L g g' -> same_but L (set_flags g f) g'.
Proof. intros H0 (f' & -> & _). exists f'. split; [done|]. by apply agree_none. Qed.

Context (Permission : nat -> bool) (junk_flags : nat -> NZCV).

Lemma clobber_ok i L o g g' : (Permission i = true -> permission L (Keep o) = true) -> same_but L g g' -> same_but L g (clobber Permission junk_flags i o g').
Proof.
  unfold clobber. intros HP (f & -> & Hf). destruct (Permission i); [|by exists f]. specialize (HP eq_refl). cbn in HP.
  assert (HC : Z.land L FLAG_C =? 0 = true -> same_but L g (set_flags (set_flags g f) (mkNZCV (FN f) (FZ f) (FC (junk_flags i)) (FV f)))).
  { intros H%Z.eqb_eq. eexists. split; [reflexivity|]. intros k Hk. rewrite (Hf k Hk). destruct (decide (k = 1)) as [->|Hne]; [|by destruct k as [|[| |]|]].
    pose proof (land_zero L FLAG_C 1 H Hk) as Hb. discriminate Hb. }
  assert (H0 : same_but L g (set_flags g f)) by by exists f.
  destruct o; try exact H0; [destruct o; try exact H0|..]; try by apply HC.
  apply Z.eqb_eq in HP. eexists. split; [reflexivity|]. by apply agree_none.
Qed.

Lemma refined_step U L o c P m m' :
  let i := length (Env m) in let m1 := step junk entry m o in let m1' := step_node b Permission junk junk_flags m' c in
  refines U L o c -> (U = false -> ~ P i) -> (forall n, c = Some n -> forall a, a ∈ args n -> P a) -> (Permission i = true -> from_option (permission L) false c = true) ->
  values_on P (Env m) (Env m') -> same_but (live_before c L) (G m) (G m') ->
  (same_but L (G m1) (G m1') /\ values_on P (Env m1) (Env m1')) \/ (c = None /\ exists A, G m1 = set_stop (G m) (SFault false A)).
Proof.
  intros i m1 m1' Hr HU Ha HP Hv Hg. pose proof (proj1 Hv) as Hl. unfold step_node in m1'. unfold m1, m1', i in *. clear m1 m1' i. destruct m as [e g], m' as [e' g']. cbn [Env G] in *. rewrite Hl.
  destruct Hr as [|fo sz x y r -> Hr H0|fo sz x y r -> Hr Hu|Hs Hu|Hw H0 Hu].
  - left. cbn [Env G]. destruct (node_agree junk entry o e e' g g' L P Hv (Ha _ eq_refl) Hg) as [A B]. split; [|exact B]. apply clobber_ok; [exact HP|exact A].
  - left. cbn [Env G]. destruct (node_agree junk entry (OBin r sz x y) e e' g g' L P Hv (Ha _ eq_refl) Hg) as [A B].
    destruct (replaced_step (mkMachine e g) fo sz x y r Hr) as (f & -> & HG). cbn [Env G] in *. split; [|exact B].
    apply clobber_ok; [exact HP|]. rewrite HG in A. by apply same_but_dead.
  - left. destruct (no_write_step (mkMachine e g) fo sz x y r Hr) as (Hfo & v & ->). unfold push_g. cbn [Env G].
    destruct Hg as (f & -> & Hf). pose proof (agree_read _ _ _ _ Hf) as Hrd. cbn [Flags set_flags].
    assert (HC : flag_op fo (bits sz) (rd e sz x) (rd e sz y) (FC (Flags g)) = flag_op (flag_of r) (bits sz) (rd e' sz x) (rd e' sz y) (FC f)).
    { rewrite <- Hfo. rewrite !(rd_on P e e' _ _ Hv) by (apply (Ha _ eq_refl); member). destruct fo; injection Hr as <-; try done; by rewrite (Hrd 1 eq_refl : FC (Flags g) = FC f). }
    rewrite HC. split; [eexists; split; [reflexivity|done]|]. apply values_push_other; [by apply HU|done].
  - destruct (value_step (mkMachine e g) o Hs) as [[v ->]|[A HA]]; [left|right; split; [done|by exists A]]. unfold push. cbn [Env G]. split; [done|]. apply values_push_other; [by apply HU|done].
  - left. destruct (flags_step (mkMachine e g) o Hw) as (v & f & ->). unfold push, push_g. cbn [Env G]. split; [by apply same_but_dead|]. apply values_push_other; [by apply HU|done].
Qed.
End Refines.

(** ** Nodes *)

Definition node_at (l : nodes) (i : nat) : option node := l !! i ≫= id.

Lemma node_at_insert l i n j : (i < length l)%nat -> node_at (<[i := n]> l) j = if decide (i = j) then n else node_at l j.
Proof. intros Hi. unfold node_at. destruct (decide (i = j)) as [<-|Hne]; [by rewrite list_lookup_insert_eq by done|by rewrite list_lookup_insert_ne]. Qed.

Lemma used_spec l i : used l i = true <-> exists j n, node_at l j = Some n /\ i ∈ args n.
Proof.
  unfold used. rewrite existsb_exists. split.
  - intros (x & Hx & Hi). destruct x as [n|]; [|done]. apply list_elem_of_In, list_elem_of_lookup_1 in Hx as (j & Hj). exists j, n. unfold node_at. rewrite Hj. split; [done|].
    apply existsb_exists in Hi as (a & Ha & He%Nat.eqb_eq). subst a. by apply list_elem_of_In.
  - intros (j & n & Hj & Ha). exists (Some n). split.
    + unfold node_at in Hj. destruct (l !! j) as [x|] eqn:E; [|done]. cbn in Hj. subst x. by apply list_elem_of_In, list_elem_of_lookup_2 with j.
    + apply existsb_exists. exists i. split; [by apply list_elem_of_In|by apply Nat.eqb_refl].
Qed.

(** A node that is removed or changed to one with the same arguments uses
    nothing new. *)
Lemma used_insert l i n n' j :
  node_at l i = Some n -> (forall m, n' = Some m -> args m = args n) -> used (<[i := n']> l) j = true -> used l j = true.
Proof.
  intros Hn Ha. assert (Hi : (i < length l)%nat) by (unfold node_at in Hn; destruct (l !! i) eqn:E; [by eapply lookup_lt_Some|done]).
  rewrite !used_spec. intros (k & m & Hk & Hj). rewrite node_at_insert in Hk by done. destruct (decide (i = k)) as [<-|]; [|by exists k, m].
  subst n'. exists i, n. split; [done|]. by rewrite <- (Ha m).
Qed.

(** ** Kinds of nodes *)

Inductive kind (n : node) : Prop :=
  | kind_plain : Write (Classify n) = 0 -> CanEliminate (Classify n) = false -> Replacement (Classify n) = None -> ReplacementNoWrite (Classify n) = None -> kind n
  | kind_flags : Write (Classify n) = FLAG_NZCV -> CanEliminate (Classify n) = true -> Replacement (Classify n) = None -> ReplacementNoWrite (Classify n) = None ->
      HasSideEffects n = true -> kind n
  | kind_both fo sz a b r w (R := Read (Classify n)) : n = Keep (OFlags fo sz a b) -> Classify n = mkFlagInfo R FLAG_NZCV false (Some r) (Some w) ->
      Classify (Keep (OBin r sz a b)) = mkFlagInfo R 0 false None None -> Classify (NoWrite w sz a b) = mkFlagInfo R FLAG_NZCV true None None -> kind n.

Lemma kind_of n : kind n.
Proof.
  destruct n as [o|o sz a b]; [|destruct o; by apply kind_flags].
  destruct o; try by apply kind_plain. all: try by apply kind_flags.
  - destruct o; by apply kind_plain.
  - destruct o; by apply kind_plain.
  - destruct o; by eapply kind_both.
  - destruct Cond; by apply kind_plain.
Qed.

Lemma trivial_spec i : Trivial i = true -> Read i = 0 /\ Write i = 0.
Proof. unfold Trivial. rewrite !andb_true_iff. intros [[[[H1%Z.eqb_eq H2%Z.eqb_eq] _] _] _]. done. Qed.

Lemma covers_trivial n F : Trivial (Classify n) = true -> covers F (live_before (Some n) F).
Proof. intros [HR HW]%trivial_spec k. rewrite before_bit, HR, HW, !Z.bits_0, orb_false_r, andb_true_r. done. Qed.

Lemma dead_before n F : Z.land F (Write (Classify n)) = 0 -> covers (live_before (Some n) F) F.
Proof. intros H k Hk. rewrite before_bit, Hk. by rewrite (land_zero _ _ _ H Hk). Qed.

(** ** Processing a node *)

Section Process.
Context (DisableDFCEStoreElim NoWriteArmDisabled : bool).
Abbreviation rewrite_flags := (rewrite_flags DisableDFCEStoreElim NoWriteArmDisabled).
Abbreviation process_node := (process_node DisableDFCEStoreElim NoWriteArmDisabled).

Definition flags_after (Eliminated : bool) (n : node) (F : Z) : Z :=
  let F := Z.land F (Z.lnot (Write (Classify n))) in if Eliminated then F else Z.lor F (Read (Classify n)).

Lemma flags_after_kept n F : flags_after false n F = live_before (Some n) F.
Proof. done. Qed.

Lemma flags_after_covered x n F : covers (live_before (Some n) F) (flags_after x n F).
Proof. destruct x; [apply covers_lor_l|done]. Qed.

(** What is made of a node of an emitted operation. *)
Lemma rewrite_refines U L F o n :
  refines U L o (Some n) -> covers L F ->
  let '(n', x) := rewrite_flags F U n in
  refines U F o n' /\ covers (flags_after x n F) (live_before n' F) /\ (forall m, n' = Some m -> args m = args n).
Proof.
  intros Hr HL. assert (Hsame : refines U F o (Some n) /\ covers (flags_after false n F) (live_before (Some n) F) /\ forall m, Some n = Some m -> args m = args n).
  { split_and!; [by apply (refines_mono U U L)|done|congruence]. }
  assert (Hdead : U = false -> Write (Classify n) = FLAG_NZCV -> Z.land F (Write (Classify n)) = 0 -> refines U F o None /\ covers (flags_after true n F) (live_before None F) /\ forall m, None = Some m -> args m = args n).
  { intros HU HW H0. split_and!; [|intros k Hk; cbn in Hk; unfold flags_after; cbn zeta; rewrite Z.land_spec, Hk|done].
    - rewrite HW in H0. apply rf_flags; [|done|done]. inversion Hr; subst; [done|..]; match goal with fo : FlagOp |- _ => by destruct fo end.
    - destruct (Z.ltb_spec k 0); [by rewrite Z.testbit_neg_r in Hk|]. rewrite Z.lnot_spec by done. by rewrite (land_zero _ _ _ H0 Hk). }
  unfold rewrite_flags, DeadFlags.rewrite_flags. destruct (Z.eqb_spec (Z.land F (Write (Classify n))) 0) as [H0|H0]; destruct (kind_of n) as [HW HC HR HN|HW HC HR HN _|fo sz a b r w R Hn Hi Hb Hw].
  - rewrite HC, HR. exact Hsame.
  - rewrite HC, HR. cbn [orb andb]. destruct U; [exact Hsame|]. destruct DisableDFCEStoreElim; [exact Hsame|]. by apply Hdead.
  - rewrite Hi. cbn [CanEliminate Replacement orb andb]. destruct (negb U && negb DisableDFCEStoreElim) eqn:E.
    + apply andb_prop in E as [->%negb_true_iff _]. apply Hdead; [done|by rewrite Hi|done].
    + rewrite Hn. cbn [replace_op]. rewrite Hi in H0. cbn [Write] in H0.
      assert (Ho : o = OFlags fo sz a b) by (inversion Hr; subst; congruence). split_and!.
      * eapply rf_replaced; [exact Ho| |exact H0]. assert (HR : Replacement (Classify n) = Some r) by (by rewrite Hi). rewrite Hn in HR. rewrite Ho. exact HR.
      * intros k. rewrite <- Hn. unfold flags_after. cbn zeta. rewrite before_bit, Hb, Hi. cbn [Write Read]. rewrite Z.lor_spec, Z.land_spec, Z.bits_0, andb_true_r.
        intros [Hk|Hk]%orb_prop; [|by rewrite Hk, orb_true_r]. rewrite Hk. destruct (Z.ltb_spec k 0); [by rewrite Z.testbit_neg_r in Hk|]. rewrite Z.lnot_spec by done. by rewrite (land_zero _ _ _ H0 Hk).
      * intros m [= <-]. done.
  - rewrite HN. exact Hsame.
  - rewrite HN. exact Hsame.
  - rewrite Hi. cbn [ReplacementNoWrite]. destruct (negb U && negb NoWriteArmDisabled) eqn:E; [|exact Hsame]. apply andb_prop in E as [->%negb_true_iff _].
    rewrite Hn. cbn [replace_no_write]. assert (Ho : o = OFlags fo sz a b) by (inversion Hr; subst; congruence). split_and!.
    + eapply rf_no_write; [exact Ho| |done]. assert (HN : ReplacementNoWrite (Classify n) = Some w) by (by rewrite Hi). rewrite Hn in HN. rewrite Ho. exact HN.
    + intros k. rewrite <- Hn, flags_after_kept, !before_bit, Hi, Hw. done.
    + intros m [= <-]. done.
Qed.

Lemma no_effect_plain n : HasSideEffects n = false -> Write (Classify n) = 0.
Proof. intros H. destruct (kind_of n) as [HW _ _ _|_ _ _ _ HS|fo sz a b r w R -> _ _ _]; [done|congruence|done]. Qed.

Lemma dropped_refines L o n : HasSideEffects n = false -> refines false L o (Some n) -> refines false L o None.
Proof.
  intros Hn Hr. inversion Hr; subst; [by apply rf_value| |done]. apply rf_flags; [by match goal with fo : FlagOp |- _ => destruct fo end|done|done].
Qed.

(** What processing does to the nodes around. *)
Record shrinks (ps : list nat) (l l' : nodes) : Prop := {
  sh_length : length l' = length l;
  sh_other j : j ∉ ps -> node_at l' j = node_at l j;
  sh_used j : used l' j = true -> used l j = true }.

Lemma shrinks_refl ps l : shrinks ps l l.
Proof. by split. Qed.

Lemma shrinks_trans ps qs l l' l'' : shrinks ps l l' -> shrinks qs l' l'' -> shrinks (ps ++ qs) l l''.
Proof.
  intros [A1 A2 A3] [B1 B2 B3]. split; [congruence| |auto]. intros j Hj. rewrite B2 by (intros ?; apply Hj, elem_of_app; by right). apply A2. intros ?; apply Hj, elem_of_app; by left.
Qed.

Lemma shrinks_insert l i n n' : node_at l i = Some n -> (forall m, n' = Some m -> args m = args n) -> shrinks [i] l (<[i := n']> l).
Proof.
  intros Hn Ha. assert (Hi : (i < length l)%nat) by (unfold node_at in Hn; destruct (l !! i) eqn:E; [by eapply lookup_lt_Some|done]).
  split; [by rewrite length_insert| |intros j; by eapply used_insert]. intros j Hj. rewrite node_at_insert by done. destruct (decide (i = j)) as [->|]; [|done]. destruct Hj. by left.
Qed.

Lemma used_le ps l l' i L o c : shrinks ps l l' -> refines (used l i) L o c -> refines (used l' i) L o c.
Proof. intros Hs. by apply refines_mono; [apply (sh_used _ _ _ Hs)|]. Qed.

Lemma process_node_ok l i o L F :
  (i < length l)%nat -> refines (used l i) L o (node_at l i) -> covers L F ->
  let '(F', l') := process_node F l i in
  shrinks [i] l l' /\ refines (used l' i) F o (node_at l' i) /\ covers F' (live_before (node_at l' i) F) /\ covers (live_before (node_at l i) L) F'.
Proof.
  intros Hi Hr HL. unfold DeadFlags.process_node. destruct (l !! i) as [x|] eqn:Ex; [|by apply lookup_ge_None in Ex; lia].
  assert (Hx : node_at l i = x) by (unfold node_at; by rewrite Ex). rewrite Hx in Hr. destruct x as [n|].
  2:{ rewrite Hx. split_and!; [apply shrinks_refl|by apply (refines_mono (used l i) _ L)|done|done]. }
  destruct (negb (used l i) && negb (HasSideEffects n)) eqn:E1.
  { apply andb_prop in E1 as [Hu%negb_true_iff Hs%negb_true_iff]. assert (Hsh : shrinks [i] l (<[i := None]> l)) by (by apply (shrinks_insert l i n)).
    rewrite node_at_insert by done. rewrite decide_True by done. split_and!; [done| |done|].
    - apply (used_le [i] l); [done|]. rewrite Hu in *. apply (refines_mono false _ L); [done|done|]. by apply dropped_refines with n.
    - rewrite Hx. intros k Hk. rewrite before_bit, (no_effect_plain n Hs), Z.bits_0. by rewrite (HL k Hk). }
  cbv zeta. destruct (Trivial (Classify n)) eqn:Et.
  { rewrite Hx. split_and!; [apply shrinks_refl|by apply (refines_mono (used l i) _ L)|by apply covers_trivial|].
    apply trivial_spec in Et as [_ HW]. intros k Hk. rewrite before_bit, HW, Z.bits_0. by rewrite (HL k Hk). }
  pose proof (rewrite_refines (used l i) L F o n Hr HL) as Hw. destruct (rewrite_flags F (used l i) n) as [n' x]. destruct Hw as (W1 & W2 & W3).
  assert (Hsh : shrinks [i] l (<[i := n']> l)) by (by apply (shrinks_insert l i n)). rewrite node_at_insert by done. rewrite decide_True by done.
  change (if x then _ else _) with (flags_after x n F). split_and!; [done|by apply (used_le [i] l)|done|].
  rewrite Hx. etrans; [apply live_before_mono, HL|apply flags_after_covered].
Qed.

(** ** A block

    From the last position to the first: [out] is read after the block, and [H]
    covers what is read at its head. *)
Context (op_at : nat -> op).

Fixpoint ok_from (ps : list nat) (out : Z) (l : nodes) (H : Z) : Prop :=
  match ps with
  | [] => covers H out
  | i :: ps => exists L, covers L out /\ refines (used l i) L (op_at i) (node_at l i) /\ ok_from ps (live_before (node_at l i) L) l H
  end.

Lemma ok_from_mono ps out out' l l' H H' :
  covers out out' -> covers H' H -> (forall i, i ∈ ps -> node_at l' i = node_at l i) -> (forall i, used l' i = true -> used l i = true) -> ok_from ps out l H -> ok_from ps out' l' H'.
Proof.
  intros Ho HH Hn Hu. revert out out' Ho. induction ps as [|i ps IH]; intros out out' Ho; cbn [ok_from]; [intros H0; etrans; [exact HH|]; etrans; [exact H0|exact Ho]|].
  intros (L & H1 & H2 & H3). exists L. rewrite (Hn i) by (by left). split_and!; [etrans; [exact H1|exact Ho]|by apply (refines_mono (used l i) _ L); [apply Hu|..]|].
  eapply IH; [|reflexivity|exact H3]. intros j Hj. apply Hn. by right.
Qed.

Lemma process_nodes_ok ps F out l H :
  NoDup ps -> Forall (fun i => (i < length l)%nat) ps -> covers out F -> ok_from ps out l H ->
  let '(F', l') := process_nodes DisableDFCEStoreElim NoWriteArmDisabled ps F l in shrinks ps l l' /\ ok_from ps F l' F' /\ covers H F'.
Proof.
  revert F out l. induction ps as [|i ps IH]; intros F out l Hnd Hlt Ho Hok; cbn [process_nodes].
  { split_and!; [apply shrinks_refl|cbn; reflexivity|]. cbn in Hok. etrans; [exact Hok|exact Ho]. }
  apply NoDup_cons in Hnd as [Hi Hnd]. apply Forall_cons in Hlt as [Hil Hlt]. destruct Hok as (L & H1 & H2 & H3).
  pose proof (process_node_ok l i (op_at i) L F Hil H2 ltac:(etrans; [exact H1|exact Ho])) as Hp. destruct (process_node F l i) as [F1 l1]. destruct Hp as (P1 & P2 & P3 & P4).
  specialize (IH F1 (live_before (node_at l i) L) l1 Hnd). rewrite (sh_length _ _ _ P1) in IH. specialize (IH Hlt P4).
  assert (Hok1 : ok_from ps (live_before (node_at l i) L) l1 H).
  { apply (ok_from_mono ps (live_before (node_at l i) L) _ l l1 H); [reflexivity|reflexivity| |apply P1|done]. intros j Hj. apply P1. intros ->%list_elem_of_singleton. done. }
  specialize (IH Hok1). destruct (process_nodes _ _ ps F1 l1) as [F2 l2]. destruct IH as (Q1 & Q2 & Q3).
  assert (Hs : shrinks (i :: ps) l l2) by exact (shrinks_trans [i] ps _ _ _ P1 Q1).
  split_and!; [exact Hs| |done]. exists F. split_and!; [done| |].
  - rewrite (sh_other _ _ _ Q1 i Hi). by apply (used_le ps l1).
  - rewrite (sh_other _ _ _ Q1 i Hi). by apply (ok_from_mono ps F1 _ l2 l2 F2); [|reflexivity|..].
Qed.
End Process.
