(* ===== verification/DeadFlagsFlow.v ===== *)
(** The dead-flag pass over a unit: the invariant of all blocks, and the
    worklist. *)
From S2P Require Import Prelude A64Common IR IRLogic BlockBuilder UnitExec DeadFlags DeadFlagsSpec.
Open Scope Z_scope.

(** ** Blocks in order *)

Lemma segment_bounds n l K s e :
  StronglySorted le l.*2 -> Forall (fun s => (s <= n)%nat) l.*2 -> segment n l K = Some (s, e) ->
  (s <= e <= n)%nat /\ Forall (fun t => (t <= s \/ e <= t)%nat) l.*2.
Proof.
  induction l as [|[k x] l IH]; [done|]. intros Hs Hn. cbn in Hs, Hn. inversion Hs as [|? ? Hs' Hx]; subst. apply Forall_cons in Hn as [Hxn Hn]. cbn [segment].
  destruct (Nat.eqb k K).
  - intros [= -> <-]. destruct l as [|[k' y] l]; cbn in *; [split; [lia|by apply Forall_cons; split; [left|apply Forall_nil]]|].
    apply Forall_cons in Hx as [Hxy Hx]. apply Forall_cons in Hn as [Hyn Hn]. inversion Hs' as [|? ? _ Hy]; subst. split; [lia|].
    apply Forall_cons. split; [by left|]. apply Forall_cons. split; [by right|]. eapply Forall_impl; [exact Hy|]. cbn. lia.
  - intros H. destruct (IH Hs' Hn H) as [H1 H2]. split; [done|]. apply Forall_cons. split; [|done]. left.
    assert (Hin : s ∈ l.*2). { clear -H. revert H. induction l as [|[k y] l IH]; [done|]. cbn [segment]. destruct (Nat.eqb k K); [intros [= -> _]; by left|intros H; right; by apply IH]. }
    rewrite Forall_forall in Hx. by apply Hx.
Qed.

Lemma segment_in n l K s e : segment n l K = Some (s, e) -> s ∈ l.*2.
Proof. induction l as [|[k x] l IH]; [done|]. cbn [segment]. destruct (Nat.eqb k K); [intros [= -> _]; by left|intros H; right; by apply IH]. Qed.

Lemma segments_apart n l K K' s e s' e' :
  StronglySorted le l.*2 -> K <> K' -> segment n l K = Some (s, e) -> segment n l K' = Some (s', e') -> (e <= s' \/ e' <= s)%nat.
Proof.
  intros Hs Hne. induction l as [|[k x] l IH]; [done|]. cbn in Hs. inversion Hs as [|? ? Hs' Hx]; subst. cbn [segment].
  assert (Hhead : forall K s e, segment n l K = Some (s, e) -> (match l with (_, y) :: _ => y | [] => n end <= s)%nat).
  { intros K0 s0 e0 H0%segment_in. destruct l as [|[k1 y] l]; [by apply elem_of_nil in H0|]. cbn in H0, Hs'. inversion Hs' as [|? ? _ Hy]; subst.
    apply elem_of_cons in H0 as [->|H0]; [done|]. rewrite Forall_forall in Hy. by apply Hy. }
  destruct (Nat.eqb_spec k K) as [HK|HK], (Nat.eqb_spec k K') as [HK'|HK']; [congruence| | |by apply IH].
  - intros [= -> <-] H. left. by eapply Hhead.
  - intros H [= -> <-]. right. by eapply Hhead.
Qed.

(** ** Masks of four flags *)

Definition weight (F : Z) : nat := length (filter (fun k => Z.testbit F k = true) [0; 1; 2; 3]).

Lemma covers_range F : covers FLAG_ALL F <-> 0 <= F < 16.
Proof.
  split.
  - intros H. assert (He : Z.land F 15 = F).
    { apply Z.bits_inj'. intros k _. rewrite Z.land_spec. destruct (Z.testbit F k) eqn:E; [|done]. exact (H k E). }
    rewrite <- He. change 15 with (Z.ones 4). rewrite Z.land_ones by lia. apply Z.mod_pos_bound. lia.
  - intros H k Hk. assert (Hc : F ∈ Z.of_nat <$> seq 0 16) by (apply list_elem_of_fmap; exists (Z.to_nat F); split; [lia|apply elem_of_seq; lia]).
    destruct (decide (0 <= k < 4)) as [Hr|Hr]; [assert (k = 0 \/ k = 1 \/ k = 2 \/ k = 3) as [->|[->|[->| ->]]] by lia; done|]. exfalso.
    destruct (Z.ltb_spec k 0); [by rewrite Z.testbit_neg_r in Hk|]. rewrite Z.testbit_true in Hk by lia. rewrite Z.div_small in Hk; [done|]. split; [lia|].
    apply Z.lt_le_trans with (2 ^ 4); [lia|]. apply Z.pow_le_mono_r; lia.
Qed.

Lemma weight_le F : (weight F <= 4)%nat.
Proof. unfold weight. etrans; [apply length_filter|done]. Qed.

Lemma weight_check : forallb (fun F => forallb (fun F' => negb (Z.land F F' =? F') || (F =? F') || (weight F' <? weight F)%nat) (map Z.of_nat (seq 0 16))) (map Z.of_nat (seq 0 16)) = true.
Proof. vm_compute. reflexivity. Qed.

Lemma weight_lt F F' : covers FLAG_ALL F -> covers F F' -> F <> F' -> (weight F' < weight F)%nat.
Proof.
  intros HF Hc Hne. assert (HF' : covers FLAG_ALL F') by (etrans; [exact HF|exact Hc]). apply covers_range in HF, HF'. pose proof weight_check as H. rewrite forallb_forall in H.
  assert (Hin : forall x, 0 <= x < 16 -> List.In x (map Z.of_nat (seq 0 16))) by (intros x Hx; apply in_map_iff; exists (Z.to_nat x); split; [lia|apply in_seq; lia]).
  specialize (H F (Hin F HF)). rewrite forallb_forall in H. specialize (H F' (Hin F' HF')). apply orb_prop in H as [[H|H]%orb_prop|H].
  - exfalso. apply negb_true_iff, Z.eqb_neq in H. apply H. apply Z.bits_inj'. intros k _. rewrite Z.land_spec. destruct (Z.testbit F' k) eqn:E; [|by rewrite andb_false_r]. by rewrite (Hc k E).
  - by apply Z.eqb_eq in H.
  - by apply Nat.ltb_lt.
Qed.

Lemma weight_mono F F' : covers FLAG_ALL F -> covers F F' -> (weight F' <= weight F)%nat.
Proof. intros HF Hc. destruct (decide (F = F')) as [->|Hne]; [done|]. by apply Nat.lt_le_incl, weight_lt. Qed.

Lemma sum_with_le {A} (f g : A -> nat) l : (forall x, x ∈ l -> (f x <= g x)%nat) -> (sum_list_with f l <= sum_list_with g l)%nat.
Proof. intros H. induction l as [|x l IH]; [done|]. cbn. pose proof (H x ltac:(by left)). specialize (IH (fun y Hy => H y (list_elem_of_further _ _ _ Hy))). lia. Qed.

Lemma sum_with_lt {A} (f g : A -> nat) l x : (forall x, x ∈ l -> (f x <= g x)%nat) -> x ∈ l -> (f x < g x)%nat -> (sum_list_with f l < sum_list_with g l)%nat.
Proof.
  intros H Hx Hlt. induction l as [|y l IH]; [by apply elem_of_nil in Hx|]. cbn. pose proof (H y ltac:(by left)).
  pose proof (sum_with_le f g l (fun y Hy => H y (list_elem_of_further _ _ _ Hy))). apply elem_of_cons in Hx as [->|Hx]; [lia|].
  specialize (IH (fun y Hy => H y (list_elem_of_further _ _ _ Hy)) Hx). lia.
Qed.

Lemma sum_with_bound {A} (f : A -> nat) l k : (forall x, (f x <= k)%nat) -> (sum_list_with f l <= k * length l)%nat.
Proof. intros H. induction l as [|x l IH]; cbn; [lia|]. specialize (H x). lia. Qed.

(** ** The worklist *)

Definition in_range (s : ControlFlow) (K : nat) : Prop := (K < length (BlockMap s))%nat.

(** [W]: the blocks that are queued; each one once.  The entry 0 stands for no
    block. *)
Record queued (s : ControlFlow) (W : list nat) : Prop := {
  qu_nodup : NoDup W;
  qu_range K : K ∈ W -> in_range s K;
  qu_flag K : K ∈ W -> InWorklist (Get s K) = true;
  qu_exact K : K <> 0%nat -> in_range s K -> InWorklist (Get s K) = true -> K ∈ W;
  qu_preds K P : in_range s K -> P ∈ Predecessors (Get s K) -> in_range s P }.

Lemma Get_Put s K f K' :   Get (Put s K f) K' = if decide (K = K' /\ (K < length (BlockMap s))%nat) then f (Get s K') else Get s K'.
Proof.
  unfold Get, Put. cbn [BlockMap]. rewrite !nth_lookup. destruct (decide _) as [[<- Hl]|Hn].
  - rewrite list_lookup_alter_eq. destruct (lookup_lt_is_Some_2 (BlockMap s) K Hl) as [x ->]. done.
  - destruct (decide (K = K')) as [<-|Hne]; [|by rewrite list_lookup_alter_ne]. rewrite list_lookup_alter_eq. by rewrite (lookup_ge_None_2 (BlockMap s)) by (apply Nat.le_ngt; intros ?; by apply Hn).
Qed.

Lemma Put_length s K f : length (BlockMap (Put s K f)) = length (BlockMap s).
Proof. unfold Put. cbn. by rewrite length_alter. Qed.

Lemma queued_length s W : queued s W -> (length W <= length (BlockMap s))%nat.
Proof.
  intros [H1 H2 _ _ _]. rewrite <- (length_seq (length (BlockMap s)) 0). apply submseteq_length, NoDup_submseteq; [done|]. intros K HK. specialize (H2 K HK). apply elem_of_seq. unfold in_range in H2. lia.
Qed.

(** Changes of the queue only. *)
Definition queue_only (s s' : ControlFlow) : Prop :=
  Nodes s' = Nodes s /\ length (BlockMap s') = length (BlockMap s) /\
  forall K, BFlags (Get s' K) = BFlags (Get s K) /\ Predecessors (Get s' K) = Predecessors (Get s K) /\ EntryUndefined (Get s' K) = EntryUndefined (Get s K).

#[export] Instance queue_only_preorder : PreOrder queue_only.
Proof.
  split; [by repeat split|]. intros x y z (A1 & A2 & A3) (B1 & B2 & B3). split_and!; [congruence|congruence|]. intros K. destruct (A3 K) as (C1 & C2 & C3), (B3 K) as (D1 & D2 & D3). split_and!; congruence.
Qed.

Lemma unqueue_ok s K W : in_range s K -> queued s (W ++ [K]) -> let s' := Put s K (set_queued false) in queue_only s s' /\ queued s' W.
Proof.
  intros HK [H1 H2 H3 H5 H4] s'. apply NoDup_app in H1 as (N1 & N2 & _). assert (Hn : K ∉ W) by (intros Hin; apply (N2 K Hin); by left).
  assert (HG : forall K', Get s' K' = if decide (K = K' /\ (K < length (BlockMap s))%nat) then set_queued false (Get s K') else Get s K') by (intros K'; apply Get_Put).
  assert (HR : forall K', in_range s' K' <-> in_range s K') by (intros K'; unfold in_range, s'; by rewrite Put_length).
  split; [split; [done|split; [apply Put_length|intros K'; rewrite (HG K'); by destruct (decide _)]]|]. split; [done| | | |].
  - intros K' HK'. apply HR, H2, elem_of_app. by left.
  - intros K' HK'. rewrite HG. destruct (decide _) as [[<- _]|Hne]; [done|]. apply H3, elem_of_app. by left.
  - intros K' H0 HK'%HR HF. rewrite HG in HF. destruct (decide _) as [|Hne]; [done|]. destruct (proj1 (elem_of_app _ _ _) (H5 K' H0 HK' HF)) as [Hin|He%list_elem_of_singleton]; [done|]. subst K'. by destruct Hne.
  - intros K' P HK'%HR HP. apply HR. apply (H4 K' P HK'). rewrite HG in HP. by destruct (decide _).
Qed.

Lemma AddWorklist_ok s K W suf : in_range s K -> queued s W -> Worklist s = W ++ suf ->
  exists W', queued (AddWorklist s K) W' /\ Worklist (AddWorklist s K) = W' ++ suf /\ queue_only s (AddWorklist s K).
Proof.
  intros HK HQ HW. unfold AddWorklist. destruct (InWorklist (Get s K)) eqn:E; [by exists W|]. destruct HQ as [H1 H2 H3 H5 H4].
  set (s' := Put s K (set_queued true)). set (s2 := mkCFG _ _ _).
  assert (HG : forall K', Get s2 K' = if decide (K = K' /\ (K < length (BlockMap s))%nat) then set_queued true (Get s K') else Get s K') by (intros K'; apply (Get_Put s)).
  assert (HR : forall K', in_range s2 K' <-> in_range s K') by (intros K'; unfold in_range, s2; cbn [BlockMap]; unfold s'; by rewrite Put_length).
  exists (K :: W). split; [split|split; [unfold s2; cbn; by rewrite HW|split; [done|split; [apply Put_length|intros K'; rewrite (HG K'); by destruct (decide _)]]]].
  - apply NoDup_cons. split; [|done]. intros Hin%H3. congruence.
  - intros K' [->|Hin]%elem_of_cons; apply HR; [done|by apply H2].
  - intros K' HK'. rewrite HG. destruct (decide _) as [[<- _]|Hne]; [done|]. apply elem_of_cons in HK' as [->|HK']; [destruct Hne; by split|by apply H3].
  - intros K' H0 HK'%HR HF. rewrite HG in HF. destruct (decide _) as [[<- _]|Hne]; [by left|]. right. by apply H5.
  - intros K' P HK'%HR HP. apply HR. apply (H4 K' P HK'). rewrite HG in HP. by destruct (decide _).
Qed.

Lemma add_all_ok Ks s W suf : Forall (in_range s) Ks -> queued s W -> Worklist s = W ++ suf ->
  exists W', queued (foldl AddWorklist s Ks) W' /\ Worklist (foldl AddWorklist s Ks) = W' ++ suf /\ queue_only s (foldl AddWorklist s Ks).
Proof.
  revert s W. induction Ks as [|K Ks IH]; intros s W HK HQ HW; [by exists W|]. apply Forall_cons in HK as [HK HKs]. cbn [foldl].
  destruct (AddWorklist_ok s K W suf HK HQ HW) as (W1 & Q1 & E1 & O1). destruct (IH (AddWorklist s K) W1) as (W2 & Q2 & E2 & O2); [|done|done|].
  - eapply Forall_impl; [exact HKs|]. intros x. unfold in_range. by rewrite (proj1 (proj2 O1)).
  - exists W2. split_and!; [done..|by etrans].
Qed.

Abbreviation Undefined s K := (EntryUndefined (Get s K)).

Section Flow.
Context (b : Builder).
Hypothesis Htidy : tidy b.
Context (NZCVDeadAtTarget : nat -> bool) (DisableDFCEStoreElim NoWriteArmDisabled : bool).
Abbreviation positions := (positions b).
Abbreviation exit_flags := (exit_flags b NZCVDeadAtTarget).
#[local] Set Default Proof Using "Htidy".

Definition op_at (i : nat) : op := nth i (Ops b) OAllocateGPR.

Lemma positions_spec K i : i ∈ positions K <-> exists s e, segment (length (Ops b)) (Segments (Unit b)) K = Some (s, e) /\ (s <= i < e)%nat.
Proof.
  unfold DeadFlags.positions. destruct (segment _ _ K) as [[s e]|]; [|split; [by intros ?%elem_of_nil|by intros (? & ? & ? & _)]].
  rewrite list_elem_of_In, <- in_rev, in_seq. split; [intros H; exists s, e; split; [done|lia]|intros (? & ? & [= <- <-] & H); lia].
Qed.

Lemma positions_bound K : Forall (fun i => (i < length (Ops b))%nat) (positions K).
Proof.
  apply Forall_forall. intros i (s & e & Hs & Hi)%positions_spec. destruct (segment_bounds _ _ _ _ _ (td_sorted _ Htidy) (td_bound _ Htidy) Hs). lia.
Qed.

Lemma positions_nodup K : NoDup (positions K).
Proof. unfold DeadFlags.positions. destruct (segment _ _ K) as [[s e]|]; [|by apply NoDup_nil]. apply NoDup_ListNoDup, NoDup_rev, seq_NoDup. Qed.

Lemma positions_disjoint K K' i : i ∈ positions K -> i ∈ positions K' -> K = K'.
Proof.
  intros (s & e & Hs & Hi)%positions_spec (s' & e' & Hs' & Hi')%positions_spec. destruct (decide (K = K')) as [|Hne]; [done|].
  destruct (segments_apart _ _ _ _ _ _ _ _ (td_sorted _ Htidy) Hne Hs Hs'); lia.
Qed.

(** ** The exit of a block stays *)

Definition exit_of (ps : list nat) : option (nat * node) := match ps with i :: _ => if leaving (op_at i) then Some (i, Keep (op_at i)) else None | [] => None end.

Lemma refines_leaves U L o c : leaving o = true -> refines U L o c -> c = Some (Keep o).
Proof. intros Hl Hr. destruct o; try discriminate Hl; inversion Hr as [|? ? ? ? ? H|? ? ? ? ? H|H|H]; subst; try done; try discriminate; destruct Cond; done. Qed.

Definition node_leaves (n : node) : bool := match n with Keep o => leaving o | NoWrite _ _ _ _ => false end.

Lemma refines_stays U L o n : leaving o = false -> refines U L o (Some n) -> node_leaves n = false.
Proof. intros Hl Hr. by inversion Hr; subst. Qed.

Lemma exit_flags_stays Flags x : (forall i n, x = Some (i, n) -> node_leaves n = false) -> exit_flags Flags x = FLAG_ALL.
Proof. intros H. destruct x as [[i [o|]]|]; [|done..]. specialize (H _ _ eq_refl). by destruct o. Qed.

(** Before the last position of a block nothing leaves it. *)
Lemma last_leaves K i ps : positions K = i :: ps -> forall j, j ∈ ps -> leaving (op_at j) = false.
Proof.
  intros Hps j Hj. assert (Hj' : j ∈ positions K) by (rewrite Hps; by right). apply positions_spec in Hj' as (s & e & Hs & Hb).
  destruct (segment_bounds _ _ _ _ _ (td_sorted _ Htidy) (td_bound _ Htidy) Hs) as [Hse Hst]. unfold DeadFlags.positions in Hps. rewrite Hs in Hps.
  assert (Hji : (S j < e)%nat).
  { destruct (e - s)%nat as [|k] eqn:Ek; [done|]. rewrite seq_S, rev_app_distr in Hps. cbn in Hps. injection Hps as <- <-. apply list_elem_of_In, in_rev, in_seq in Hj. lia. }
  destruct (leaving (op_at j)) eqn:E; [|done]. exfalso. unfold op_at in E. destruct (lookup_lt_is_Some_2 (Ops b) j ltac:(lia)) as [o Ho].
  rewrite (nth_lookup_Some _ _ _ _ Ho) in E. destruct (td_leaving _ Htidy j o Ho E) as [Hin|]; [|lia]. rewrite Forall_forall in Hst. specialize (Hst _ Hin). cbn in Hst. lia.
Qed.

Lemma exit_node_in ps l i n : exit_node ps l = Some (i, n) -> i ∈ ps /\ node_at l i = Some n.
Proof.
  induction ps as [|j ps IH]; [done|]. cbn [exit_node]. unfold node_at in *. destruct (l !! j) as [[m|]|] eqn:E.
  - intros [= -> ->]. rewrite E. split; [by left|done].
  - intros H. destruct (IH H) as [H1 H2]. split; [by right|done].
  - intros H. destruct (IH H) as [H1 H2]. split; [by right|done].
Qed.

Lemma ok_from_refines ps out l H i : ok_from op_at ps out l H -> i ∈ ps -> exists L, refines (used l i) L (op_at i) (node_at l i).
Proof.
  revert out. induction ps as [|j ps IH]; intros out Hok Hi; [by apply elem_of_nil in Hi|]. destruct Hok as (L & _ & H2 & H3).
  apply elem_of_cons in Hi as [->|Hi]; [by exists L|]. by eapply IH.
Qed.

Lemma exit_stable K out l H Flags : ok_from op_at (positions K) out l H -> exit_flags Flags (exit_node (positions K) l) = exit_flags Flags (exit_of (positions K)).
Proof.
  intros Hok. destruct (positions K) as [|i ps] eqn:Hps; [done|]. cbn [exit_of]. destruct (leaving (op_at i)) eqn:E.
  - destruct (ok_from_refines _ _ _ _ i Hok ltac:(by left)) as (L & Hr). apply refines_leaves in Hr; [|done]. cbn [exit_node]. unfold node_at in Hr. destruct (l !! i) as [x|]; [|done]. cbn in Hr. by subst x.
  - rewrite exit_flags_stays; [done|]. intros j n Hn. apply exit_node_in in Hn as [Hj Hn]. destruct (ok_from_refines _ _ _ _ j Hok Hj) as (L & Hr). rewrite Hn in Hr.
    eapply refines_stays; [|exact Hr]. apply elem_of_cons in Hj as [->|Hj]; [done|]. by eapply last_leaves.
Qed.

Lemma exit_flags_mono Flags Flags' x : (forall K, covers (Flags K) (Flags' K)) -> covers (exit_flags Flags x) (exit_flags Flags' x).
Proof.
  intros H. destruct x as [[i [o|]]|]; [|done..]. destruct o; try (intros k; done); cbn [DeadFlags.exit_flags]; [apply H|].
  intros k. rewrite !Z.lor_spec, !orb_true_iff. intros [Hk|Hk]; [left|right]; (revert Hk; destruct (assoc _ _); [by apply H|done]).
Qed.

(** ** The invariant *)

Definition block_inv (l : nodes) (Flags : nat -> Z) (K : nat) : Prop := ok_from op_at (positions K) (exit_flags Flags (exit_of (positions K))) l (Flags K).

Lemma plain_node U L i n : IsFlagOp (op_at i) = false -> refines U L (op_at i) (Some n) -> Read (Classify n) = 0 /\ Write (Classify n) = 0.
Proof using.
  intros Hf Hr. inversion Hr; subst; [|by match goal with Ho : _ = OFlags _ _ _ _ |- _ => rewrite Ho in Hf end..]. destruct (op_at i); try done;
    match goal with Hf : IsFlagOp (OBin ?o _ _ _) = false |- _ => by destruct o | Hf : IsFlagOp (OUn ?o _ _) = false |- _ => by destruct o end.
Qed.

Lemma plain_positions K i : HasFlags b K = false -> i ∈ positions K -> IsFlagOp (op_at i) = false.
Proof.
  intros Hf Hi. unfold HasFlags in Hf. pose proof (positions_bound K) as Hb. rewrite Forall_forall in Hb. specialize (Hb i Hi). destruct (lookup_lt_is_Some_2 (Ops b) i Hb) as [o Hio].
  unfold op_at. rewrite (nth_lookup_Some _ _ _ _ Hio). destruct (IsFlagOp o) eqn:E; [|done]. rewrite <- Hf. symmetry. apply existsb_exists. exists i. rewrite Hio. split; [by apply list_elem_of_In|done].
Qed.

(** A block without flag operations passes through what is read after it. *)
Lemma plain_pass ps out l H :
  (forall i, i ∈ ps -> IsFlagOp (op_at i) = false) -> ok_from op_at ps out l H -> covers H out /\ ok_from op_at ps out l out.
Proof.
  revert out H. induction ps as [|i ps IH]; intros out H Hf Hok; [split; [exact Hok|cbn; reflexivity]|]. destruct Hok as (L & H1 & H2 & H3).
  assert (Ht : forall F, covers F (live_before (node_at l i) F) /\ covers (live_before (node_at l i) F) F).
  { intros F. specialize (Hf i ltac:(by left)). destruct (node_at l i) as [n|]; [|done].
    destruct (plain_node _ _ _ _ Hf H2) as [HR HW]. split; intros k; rewrite before_bit, HR, HW, !Z.bits_0, orb_false_r, andb_true_r; done. }
  assert (Hok : ok_from op_at ps (live_before (node_at l i) out) l H).
  { apply (ok_from_mono op_at ps (live_before (node_at l i) L) _ l l H); [by apply live_before_mono|reflexivity|done|done|done]. }
  destruct (IH _ _ (fun j Hj => Hf j (list_elem_of_further _ _ _ Hj)) Hok) as [C1 C2]. destruct (Ht out) as [T1 T2]. split; [etrans; [exact C1|exact T2]|].
  exists out. split_and!; [done|by apply (refines_mono (used l i) _ L)|].
  apply (ok_from_mono op_at ps (live_before (node_at l i) out) _ l l (live_before (node_at l i) out)); [reflexivity|exact T1|done|done|done].
Qed.

(** ** One block *)

Definition Flags (s : ControlFlow) (K : nat) : Z := BFlags (Get s K).

Record good (s : ControlFlow) : Prop := {
  gd_length : length (Nodes s) = length (Ops b);
  gd_blocks K : block_inv (Nodes s) (Flags s) K;
  gd_range K : covers FLAG_ALL (Flags s K) }.

Lemma flow_same s s' : Nodes s' = Nodes s -> (forall K, Flags s' K = Flags s K) -> good s -> good s'.
Proof.
  intros Hn Hf [A1 A2 A3]. split; [by rewrite Hn| |intros K; by rewrite Hf]. intros K. rewrite Hn. specialize (A2 K). unfold block_inv in *. rewrite Hf.
  eapply ok_from_mono; [apply (exit_flags_mono (Flags s) (Flags s')); intros K'; by rewrite Hf|reflexivity|done|done|exact A2].
Qed.

(** What processing block [K] leaves alone. *)
Record processed (K : nat) (s s' : ControlFlow) : Prop := {
  pr_worklist : Worklist s' = Worklist s;
  pr_blocks : length (BlockMap s') = length (BlockMap s);
  pr_flags K' : covers (Flags s K') (Flags s' K');
  pr_other K' : K' <> K -> Flags s' K' = Flags s K';
  pr_info K' : InWorklist (Get s' K') = InWorklist (Get s K') /\ Predecessors (Get s' K') = Predecessors (Get s K') /\ EntryUndefined (Get s' K') = EntryUndefined (Get s K') }.

Lemma block_processed s K : good s ->
  let out := out_flags b NZCVDeadAtTarget s K in
  let '(F, l) := if HasFlags b K then process_nodes DisableDFCEStoreElim NoWriteArmDisabled (positions K) out (Nodes s) else (out, Nodes s) in
  shrinks (positions K) (Nodes s) l /\ ok_from op_at (positions K) (exit_flags (Flags s) (exit_of (positions K))) l F /\ covers (Flags s K) F.
Proof.
  intros [A1 A2 A3] out. pose proof (A2 K) as HB. unfold block_inv in HB. pose proof (exit_stable K _ _ _ (Flags s) HB) as Ho.
  assert (Hout : out = exit_flags (Flags s) (exit_of (positions K))) by exact Ho. clearbody out. rewrite <- Hout in HB |- *. clear Ho Hout. destruct (HasFlags b K) eqn:Hf.
  - pose proof (process_nodes_ok DisableDFCEStoreElim NoWriteArmDisabled op_at (positions K) out out (Nodes s) (Flags s K) (positions_nodup K)) as H. rewrite A1 in H.
    exact (H (positions_bound K) (reflexivity _) HB).
  - destruct (plain_pass (positions K) out (Nodes s) (Flags s K)) with (2 := HB) as [H1 H2]; [|split_and!; [apply shrinks_refl|exact H2|exact H1]].
    intros i. by apply plain_positions.
Qed.

Lemma ProcessBlock_ok s K : good s ->
  let '(Changed, s') := ProcessBlock b NZCVDeadAtTarget DisableDFCEStoreElim NoWriteArmDisabled K s in
  good s' /\ processed K s s' /\ (Changed = true -> in_range s K -> Flags s' K <> Flags s K).
Proof.
  intros Hg. pose proof (block_processed s K Hg) as H. unfold ProcessBlock. cbv zeta in H. destruct (if HasFlags b K then _ else _) as [F l]. destruct H as (H1 & H2 & H3).
  set (s' := Put _ K (set_flags_of F)). assert (HG : forall K', Get s' K' = if decide (K = K' /\ (K < length (BlockMap s))%nat) then set_flags_of F (Get s K') else Get s K').
  { intros K'. unfold s'. by rewrite Get_Put. }
  assert (HP : processed K s s').
  { split; [done|by unfold s'; cbn; rewrite length_alter| | |].
    - intros K'. unfold Flags at 2. rewrite HG. destruct (decide _) as [[<- _]|]; [exact H3|done].
    - intros K' Hne. unfold Flags. rewrite HG. by rewrite decide_False by (intros [? _]; congruence).
    - intros K'. rewrite HG. by destruct (decide _). }
  split_and!; [|exact HP|].
  - destruct Hg as [A1 A2 A3]. split.
    + unfold s'. cbn. by rewrite (sh_length _ _ _ H1).
    + intros K'. unfold block_inv. change (Nodes s') with l. destruct (decide (K' = K)) as [->|Hne].
      * eapply ok_from_mono; [apply exit_flags_mono, (pr_flags _ _ _ HP)| |done|done|exact H2]. unfold Flags. rewrite HG. destruct (decide _); [cbn; reflexivity|exact H3].
      * rewrite (pr_other _ _ _ HP K' Hne). eapply ok_from_mono; [apply exit_flags_mono, (pr_flags _ _ _ HP)|reflexivity| |apply (sh_used _ _ _ H1)|exact (A2 K')].
        intros i Hi. apply (sh_other _ _ _ H1). intros Hi'. by destruct (positions_disjoint _ _ _ Hi Hi').
    + intros K'. etrans; [apply A3|apply HP].
  - intros HC%negb_true_iff%Z.eqb_neq Hl. unfold Flags at 1. rewrite HG. rewrite decide_True by done. cbn. intros He. by apply HC.
Qed.

(** ** The worklist empties *)

Definition total (s : ControlFlow) : nat := sum_list_with (fun K => weight (Flags s K)) (seq 0 (length (BlockMap s))).

Lemma total_mono s s' : good s -> length (BlockMap s') = length (BlockMap s) -> (forall K, covers (Flags s K) (Flags s' K)) ->
  (total s' <= total s)%nat /\ forall K, in_range s K -> Flags s' K <> Flags s K -> (total s' < total s)%nat.
Proof.
  intros Hg Hl Hc. unfold total. rewrite Hl. assert (Hle : forall K, K ∈ seq 0 (length (BlockMap s)) -> (weight (Flags s' K) <= weight (Flags s K))%nat).
  { intros K HK%elem_of_seq. apply weight_mono; [apply Hg|apply Hc]. }
  split; [by apply sum_with_le|]. intros K HK Hne. apply (sum_with_lt _ _ _ K Hle); [apply elem_of_seq; unfold in_range in HK; lia|].
  apply weight_lt; [apply Hg|apply Hc|congruence].
Qed.

Lemma queue_only_good s s' : queue_only s s' -> (forall K, Flags s' K = Flags s K) -> good s -> good s'.
Proof. intros (Hn & _) Hf. by apply flow_same. Qed.

Lemma queue_only_flags s s' K : queue_only s s' -> Flags s' K = Flags s K.
Proof. intros (_ & _ & H). apply H. Qed.

Lemma processed_queued K s s' W : processed K s s' -> queued s W -> queued s' W.
Proof.
  intros [P1 P2 _ _ P5] [Q1 Q2 Q3 Q5 Q4]. assert (HR : forall K', in_range s' K' <-> in_range s K') by (intros K'; unfold in_range; by rewrite P2). split; [done| | | |].
  - intros K' HK'. by apply HR, Q2.
  - intros K' HK'. rewrite (proj1 (P5 K')). by apply Q3.
  - intros K' H0 HK'%HR. rewrite (proj1 (P5 K')). by apply Q5.
  - intros K' P HK'%HR HP. apply HR. rewrite (proj1 (proj2 (P5 K'))) in HP. by eapply Q4.
Qed.

(** One round. *)
Lemma round_ok s K W : good s -> queued s (W ++ [K]) -> Worklist s = W ++ [K] ->
  let '(Changed, s2) := ProcessBlock b NZCVDeadAtTarget DisableDFCEStoreElim NoWriteArmDisabled K (Put s K (set_queued false)) in
  let s3 := if Changed then foldl AddWorklist s2 (Predecessors (Get s2 K)) else s2 in
  exists W', good s3 /\ queued s3 W' /\ Worklist s3 = W' ++ [K] /\ length (BlockMap s3) = length (BlockMap s) /\
    (forall K', EntryUndefined (Get s3 K') = EntryUndefined (Get s K')) /\ (total s3 * S (length (BlockMap s)) + length W' < total s * S (length (BlockMap s)) + length (W ++ [K]))%nat.
Proof.
  intros Hg HQ HW. assert (HK : in_range s K) by (apply (qu_range _ _ HQ), elem_of_app; right; by left).
  destruct (unqueue_ok s K W HK HQ) as [O1 Q1]. set (s1 := Put s K (set_queued false)) in *. assert (G1 : good s1) by (apply (queue_only_good s); [done|by intros; apply queue_only_flags|done]).
  pose proof (ProcessBlock_ok s1 K G1) as HP. destruct (ProcessBlock _ _ _ _ K s1) as [ch s2]. destruct HP as (G2 & P2 & HC).
  pose proof (processed_queued _ _ _ _ P2 Q1) as Q2. assert (L1 : length (BlockMap s1) = length (BlockMap s)) by apply O1. assert (L2 : length (BlockMap s2) = length (BlockMap s)) by (by rewrite (pr_blocks _ _ _ P2)).
  assert (W2 : Worklist s2 = W ++ [K]) by (rewrite (pr_worklist _ _ _ P2); exact HW). assert (HR2 : in_range s2 K) by (unfold in_range in *; lia).
  set (s3 := if ch then _ else _). assert (H3 : exists W', queued s3 W' /\ Worklist s3 = W' ++ [K] /\ queue_only s2 s3 /\ (ch = false -> W' = W)).
  { unfold s3. destruct ch; [|by exists W]. destruct (add_all_ok (Predecessors (Get s2 K)) s2 W [K]) as (W' & A1 & A2 & A3); [|done|done|by exists W'].
    apply Forall_forall. intros P HP. by apply (qu_preds _ _ Q2 K). }
  destruct H3 as (W' & Q3 & W3 & O3 & Hch). assert (L3 : length (BlockMap s3) = length (BlockMap s)) by (rewrite (proj1 (proj2 O3)); exact L2).
  assert (F3 : forall K', covers (Flags s K') (Flags s3 K') /\ Flags s3 K' = Flags s2 K').
  { intros K'. rewrite (queue_only_flags s2 s3 K' O3), <- (queue_only_flags s s1 K' O1). split; [apply P2|done]. }
  destruct (total_mono s s3 Hg L3 (fun K' => proj1 (F3 K'))) as [T1 T2]. exists W'. split_and!; [|done|done|done| |].
  - apply (queue_only_good s2); [done|intros K'; apply F3|done].
  - intros K'. rewrite (proj2 (proj2 (proj2 (proj2 O3) K'))), (proj2 (proj2 (pr_info _ _ _ P2 K'))). apply O1.
  - rewrite length_app. cbn [length]. pose proof (queued_length _ _ Q3) as HL. rewrite L3 in HL. destruct ch.
    + assert (Hlt : (total s3 < total s)%nat). { apply (T2 K HK). rewrite (proj2 (F3 K)), <- (queue_only_flags s s1 K O1). apply HC; [done|]. unfold in_range. rewrite L1. apply HK. } nia.
    + rewrite (Hch eq_refl). nia.
Qed.

Lemma flow_ok fuel s : good s -> queued s (Worklist s) -> (total s * S (length (BlockMap s)) + length (Worklist s) < fuel)%nat ->
  exists s', flow b NZCVDeadAtTarget DisableDFCEStoreElim NoWriteArmDisabled fuel s = Some s' /\ good s' /\ Worklist s' = [] /\ queued s' [] /\
    length (BlockMap s') = length (BlockMap s) /\ forall K, EntryUndefined (Get s' K) = EntryUndefined (Get s K).
Proof.
  revert s. induction fuel as [|fuel IH]; intros s Hg HQ HM; [lia|]. cbn [flow]. destruct (last (Worklist s)) as [K|] eqn:EW.
  - apply last_Some in EW as [W HW]. rewrite HW in HQ, HM. pose proof (round_ok s K W Hg HQ HW) as HR. destruct (ProcessBlock _ _ _ _ K _) as [ch s2].
    cbv zeta in HR. set (s3 := if ch then _ else _) in *. destruct HR as (W' & G3 & Q3 & W3 & L3 & U3 & M3). rewrite W3, removelast_last.
    destruct (IH (mkCFG (Nodes s3) (BlockMap s3) W')) as (s' & E' & G' & N' & Q' & L' & U'); [by apply (flow_same s3)|by destruct Q3; split|cbn [Worklist BlockMap]; change (total _) with (total s3); lia|].
    exists s'. split_and!; [done|done|done|done|by rewrite L', <- L3|]. intros X. rewrite (U' X). by apply U3.
  - apply last_None in EW. exists s. rewrite EW in *. by split_and!.
Qed.

(** ** The start *)

Lemma read_range n : covers FLAG_ALL (Read (Classify n)).
Proof.
  apply covers_range. destruct n as [o|o sz x y]; [|by destruct o]. destruct o; try done; try (by destruct o); try (by destruct Cond).
  destruct Cond as [c| |]; [|done..]. by destruct c.
Qed.

Lemma before_range n F : covers FLAG_ALL F -> covers FLAG_ALL (live_before n F).
Proof. intros H k. destruct n as [n|]; [|apply H]. rewrite before_bit. intros [[Hk _]%andb_prop|Hk]%orb_prop; [by apply H|by apply (read_range n)]. Qed.

Lemma emitted_node i : (i < length (Ops b))%nat -> node_at (map (fun o => Some (Keep o)) (Ops b)) i = Some (Keep (op_at i)).
Proof.
  intros Hi. unfold node_at, op_at. change (map ?f ?l) with (f <$> l). rewrite list_lookup_fmap. destruct (lookup_lt_is_Some_2 _ _ Hi) as [o Ho]. rewrite Ho, (nth_lookup_Some _ _ _ _ Ho). done.
Qed.

Lemma start_ok ps out l : Forall (fun i => (i < length (Ops b))%nat) ps -> covers FLAG_ALL out -> (forall i, (i < length (Ops b))%nat -> node_at l i = Some (Keep (op_at i))) -> ok_from op_at ps out l FLAG_ALL.
Proof.
  intros Hps Ho Hl. revert out Ho. induction ps as [|i ps IH]; intros out Ho; [done|]. apply Forall_cons in Hps as [Hi Hps]. exists FLAG_ALL. split_and!; [done|rewrite (Hl i Hi); by constructor|].
  apply IH; [done|]. by apply before_range.
Qed.

Lemma exit_range x : covers FLAG_ALL (exit_flags (fun _ => FLAG_ALL) x).
Proof.
  destruct x as [[i [o|]]|]; [|done..]. destruct o; try done; cbn [DeadFlags.exit_flags]; [|destruct (NZCVDeadAtTarget i); intros k; by rewrite ?Z.bits_0].
  by destruct (assoc _ _), (assoc _ _).
Qed.

Lemma Init_ok : good (Init b) /\ queued (Init b) (Worklist (Init b)).
Proof.
  assert (HG : forall K, Get (Init b) K = no_block).
  { intros K. unfold Get, Init. cbn [BlockMap]. apply nth_repeat. }
  assert (HF : forall K, Flags (Init b) K = FLAG_ALL) by (intros K; unfold Flags; by rewrite HG). split; split.
  - unfold Init. cbn. by rewrite length_map.
  - intros K. unfold block_inv. rewrite HF. apply start_ok; [apply positions_bound| |exact emitted_node].
    etrans; [apply (exit_range (exit_of (positions K)))|]. apply exit_flags_mono. intros K'. by rewrite HF.
  - intros K. by rewrite HF.
  - apply NoDup_ListNoDup, seq_NoDup.
  - intros K HK%elem_of_seq. unfold in_range, Init, BlockCount in *. cbn. rewrite repeat_length. lia.
  - intros K _. by rewrite HG.
  - intros K H0 HK _. apply elem_of_seq. unfold in_range, Init, BlockCount in *. cbn in HK. rewrite repeat_length in HK. lia.
  - intros K P _. rewrite HG. by intros ?%elem_of_nil.
Qed.

(** Gathering the edges changes nothing else. *)
Record gathered (s s' : ControlFlow) : Prop := {
  ga_nodes : Nodes s' = Nodes s;
  ga_worklist : Worklist s' = Worklist s;
  ga_length : length (BlockMap s') = length (BlockMap s);
  ga_info K : BFlags (Get s' K) = BFlags (Get s K) /\ InWorklist (Get s' K) = InWorklist (Get s K) /\ EntryUndefined (Get s' K) = EntryUndefined (Get s K) }.

#[export] Instance gathered_preorder : PreOrder gathered.
Proof.
  split; [by intros s; split|]. intros x y z [A1 A2 A3 A4] [B1 B2 B3 B4]. split; [congruence..|]. intros K. destruct (A4 K) as (? & ? & ?), (B4 K) as (? & ? & ?). split_and!; congruence.
Qed.

Lemma add_predecessor_ok s K To : in_range s K -> gathered s (Put s To (add_predecessor K)) /\
  ((forall X P, P ∈ Predecessors (Get s X) -> in_range s P) -> forall X P, P ∈ Predecessors (Get (Put s To (add_predecessor K)) X) -> in_range s P).
Proof.
  intros HK. split; [split; [done|done|apply Put_length|intros X; rewrite Get_Put; by destruct (decide _)]|].
  intros H X P. rewrite Get_Put. destruct (decide _); [|by apply H]. cbn. intros [HP|HP%list_elem_of_singleton]%elem_of_app; [by eapply H|by subst].
Qed.

Lemma Gather_ok Order s : Forall (in_range s) Order -> (forall X P, P ∈ Predecessors (Get s X) -> in_range s P) ->
  gathered s (Gather b Order s) /\ forall X P, P ∈ Predecessors (Get (Gather b Order s) X) -> in_range s P.
Proof.
  revert s. induction Order as [|K Order IH]; intros s HO HP; [by split|]. apply Forall_cons in HO as [HK HO]. cbn [Gather].
  set (Tos := successors _ _). assert (H1 : gathered s (foldl (fun s To => Put s To (add_predecessor K)) s Tos) /\ forall X P, P ∈ Predecessors (Get (foldl (fun s To => Put s To (add_predecessor K)) s Tos) X) -> in_range s P).
  { clearbody Tos. clear HO IH. revert s HK HP. induction Tos as [|To Tos IH]; intros s HK HP; [by split|]. cbn [foldl]. destruct (add_predecessor_ok s K To HK) as [G1 P1].
    assert (HR : forall X, in_range (Put s To (add_predecessor K)) X <-> in_range s X) by (intros X; unfold in_range; by rewrite Put_length).
    destruct (IH (Put s To (add_predecessor K))) as [G2 P2]; [by apply HR|intros X P HX; apply HR; by eapply P1|]. split; [by etrans|]. intros X P HX. apply HR. by eapply P2. }
  destruct H1 as [G1 P1]. assert (HR : forall X, in_range (foldl (fun s To => Put s To (add_predecessor K)) s Tos) X <-> in_range s X) by (intros X; unfold in_range; by rewrite (ga_length _ _ G1)).
  destruct (IH (foldl (fun s To => Put s To (add_predecessor K)) s Tos)) as [G2 P2]; [eapply Forall_impl; [exact HO|]; intros X; apply HR|intros X P HX; apply HR; by eapply P1|].
  split; [by etrans|]. intros X P HX. apply HR. by eapply P2.
Qed.

Definition order_ok (Order : list nat) : Prop := Forall (fun K => (K < NextBlock (Unit b))%nat) Order.

(** The first phase of the pass returns. *)
Lemma flow_returns Order : order_ok Order ->
  exists s, flow b NZCVDeadAtTarget DisableDFCEStoreElim NoWriteArmDisabled (flow_fuel b) (Gather b Order (Init b)) = Some s /\
    good s /\ Worklist s = [] /\ queued s [] /\ length (BlockMap s) = NextBlock (Unit b) /\ forall K, EntryUndefined (Get s K) = 0.
Proof.
  intros HO. destruct Init_ok as [G0 Q0]. assert (HG : forall K, Get (Init b) K = no_block) by (intros K; unfold Get, Init; cbn [BlockMap]; apply nth_repeat).
  assert (HL : length (BlockMap (Init b)) = NextBlock (Unit b)) by apply repeat_length.
  destruct (Gather_ok Order (Init b)) as [[A1 A2 A3 A4] HP]; [eapply Forall_impl; [exact HO|]; intros K; unfold in_range; by rewrite HL|intros X P; rewrite HG; by intros ?%elem_of_nil|].
  set (s := Gather b Order (Init b)) in *. assert (Gs : good s) by (apply (flow_same (Init b)); [done|intros K; apply A4|done]).
  assert (Qs : queued s (Worklist s)).
  { rewrite A2. destruct Q0 as [Q1 Q2 Q3 Q5 Q4]. split; [done| | | |].
    - intros K HK. unfold in_range. rewrite A3. by apply Q2.
    - intros K HK. rewrite (proj1 (proj2 (A4 K))). by apply Q3.
    - intros K H0 HK. rewrite (proj1 (proj2 (A4 K))). apply Q5; [done|]. unfold in_range in *. by rewrite <- A3.
    - intros K P _ HX. unfold in_range. rewrite A3. by eapply HP. }
  destruct (flow_ok (flow_fuel b) s Gs Qs) as (s' & E & G' & W' & Q' & L' & U').
  - pose proof (queued_length _ _ Qs) as HW. rewrite A3, HL in HW |- *. unfold flow_fuel. pose proof (sum_with_bound (fun K => weight (Flags s K)) (seq 0 (NextBlock (Unit b))) 4 (fun K => weight_le _)) as HT.
    rewrite length_seq in HT. unfold total. rewrite A3, HL. nia.
  - exists s'. split_and!; [done..|by rewrite L', A3|]. intros K. rewrite U', (proj2 (proj2 (A4 K))), HG. done.
Qed.

(** ** The second phase *)

Definition undefined_range (s : ControlFlow) : Prop := forall K, covers FLAG_ALL (Undefined s K).
Definition deficit (s : ControlFlow) : nat := sum_list_with (fun K => 4 - weight (Undefined s K))%nat (seq 0 (length (BlockMap s))).

Lemma queue_only_undefined s s' : queue_only s s' -> undefined_range s -> undefined_range s' /\ deficit s' = deficit s.
Proof using.
  intros (_ & Hl & H) Hr. assert (He : forall K, Undefined s' K = Undefined s K) by (intros K; apply H). split; [intros K; by rewrite He|].
  unfold deficit. rewrite Hl. apply Nat.le_antisymm; apply sum_with_le; intros K _; by rewrite He.
Qed.

Lemma put_undefined s K F W (s' := Put s K (set_undefined F)) :
  queued s W -> undefined_range s -> covers FLAG_ALL F -> covers F (Undefined s K) -> F <> Undefined s K -> in_range s K ->
  queued s' W /\ undefined_range s' /\ (deficit s' < deficit s)%nat.
Proof using.
  intros [Q1 Q2 Q3 Q5 Q4] Hr HF Hc Hne HK. assert (HG : forall K', Get s' K' = if decide (K = K' /\ (K < length (BlockMap s))%nat) then set_undefined F (Get s K') else Get s K') by (intros K'; apply Get_Put).
  assert (HU : forall K', Undefined s' K' = if decide (K = K') then F else Undefined s K').
  { intros K'. rewrite HG. destruct (decide (K = K')) as [He|]; [rewrite decide_True by done; done|by rewrite decide_False by (by intros [? _])]. }
  assert (HR : forall K', in_range s' K' <-> in_range s K') by (intros K'; unfold in_range, s'; by rewrite Put_length). split_and!.
  - split; [done|intros K' HK'; by apply HR, Q2|intros K' HK'; rewrite HG; destruct (decide _); by apply Q3|intros K' H0 HK'%HR; rewrite HG; destruct (decide _); by apply Q5|].
    intros K' P HK'%HR HP. apply HR. apply (Q4 K' P HK'). rewrite HG in HP. by destruct (decide _).
  - intros K'. rewrite HU. destruct (decide _); [done|apply Hr].
  - unfold deficit. assert (HL : length (BlockMap s') = length (BlockMap s)) by apply Put_length. rewrite HL. pose proof (weight_lt F (Undefined s K) HF Hc Hne) as Hw. pose proof (weight_le F) as H4.
    apply (sum_with_lt _ _ _ K); [|apply elem_of_seq; unfold in_range in HK; lia|rewrite HU, decide_True by done; lia].
    intros K' _. rewrite HU. destruct (decide _) as [<-|]; [lia|done].
Qed.

(** There is nothing beyond the last block. *)
Lemma put_out s K f : ~ (K < length (BlockMap s))%nat -> Put s K f = s.
Proof using.
  intros HK. unfold Put. destruct s as [n m w]. cbn in *. f_equal. apply list_eq. intros i. destruct (decide (K = i)) as [->|Hi]; [|by rewrite list_lookup_alter_ne].
  rewrite list_lookup_alter_eq, (lookup_ge_None_2 m) by lia. done.
Qed.

Lemma add_out s K : ~ (K < length (BlockMap s))%nat -> AddWorklist s K = s.
Proof using. intros HK. unfold AddWorklist, Get. by rewrite nth_overflow by lia. Qed.

Lemma Propagate_ok U s K W : queued s W -> Worklist s = W -> undefined_range s -> covers FLAG_ALL U ->
  let s' := Propagate U s K in s' = s \/ (exists W', queued s' W' /\ Worklist s' = W' /\ undefined_range s' /\ length (BlockMap s') = length (BlockMap s) /\ (deficit s' < deficit s)%nat).
Proof using.
  intros HQ HW Hr HU s'. unfold s', Propagate. clear s'. cbv zeta. destruct (Z.eqb_spec (Z.lor (Undefined s K) U) (Undefined s K)) as [He|Hne]; [by left|].
  assert (Hcov : covers FLAG_ALL (Z.lor (Undefined s K) U)). { intros k. rewrite Z.lor_spec. intros [Hk|Hk]%orb_prop; [by apply (Hr K)|by apply HU]. }
  destruct (decide (K < length (BlockMap s))%nat) as [HK|HK].
  - right. destruct (put_undefined s K (Z.lor (Undefined s K) U) W HQ Hr Hcov (covers_lor_l _ _) Hne HK) as (Q & R & D). set (s1 := Put s K _) in *.
    assert (L1 : length (BlockMap s1) = length (BlockMap s)) by apply Put_length.
    destruct (AddWorklist_ok s1 K W []) as (W' & Q' & E' & O'); [unfold in_range; by rewrite L1|done|by rewrite app_nil_r|].
    destruct (queue_only_undefined _ _ O' R) as [R' D']. exists W'. rewrite app_nil_r in E'. split_and!; [done..| |by rewrite D']. destruct O' as (_ & Ho & _). by rewrite Ho.
  - left. rewrite put_out by done. by apply add_out.
Qed.

Lemma propagate_all U s Ks W : queued s W -> Worklist s = W -> undefined_range s -> covers FLAG_ALL U ->
  let s' := foldl (Propagate U) s Ks in s' = s \/ (exists W', queued s' W' /\ Worklist s' = W' /\ undefined_range s' /\ length (BlockMap s') = length (BlockMap s) /\ (deficit s' < deficit s)%nat).
Proof using.
  revert s W. induction Ks as [|K Ks IH]; intros s W HQ HW Hr HU; [by left|]. cbn [foldl]. destruct (Propagate_ok U s K W HQ HW Hr HU) as [->|(W1 & Q1 & E1 & R1 & L1 & D1)]; [by eapply IH|].
  right. destruct (IH _ W1 Q1 E1 R1 HU) as [->|(W2 & Q2 & E2 & R2 & L2 & D2)]; [by exists W1|]. exists W2. split_and!; [done..|congruence|lia].
Qed.

Lemma reach_block_range l ps LiveIn U : covers FLAG_ALL U -> covers FLAG_ALL (reach_block l ps LiveIn U).2.
Proof using.
  revert LiveIn U. induction ps as [|i ps IH]; intros LiveIn U HU; [done|]. cbn [reach_block]. destruct (l !! i ≫= id); [|by apply IH]. apply IH. intros k. rewrite Z.land_spec. intros [Hk _]%andb_prop. by apply HU.
Qed.

Lemma reach_returns fuel LiveIn s : queued s (Worklist s) -> undefined_range s -> (deficit s * S (length (BlockMap s)) + length (Worklist s) < fuel)%nat -> exists r, reach b fuel LiveIn s = Some r.
Proof using.
  revert LiveIn s. induction fuel as [|fuel IH]; intros LiveIn s HQ Hr HM; [lia|]. cbn [reach]. destruct (last (Worklist s)) as [K|] eqn:EW; [|by eexists].
  apply last_Some in EW as [W HW]. destruct (negb _); [by eexists|]. rewrite HW, removelast_last. rewrite HW in HQ, HM. rewrite length_app in HM. cbn [length] in HM.
  assert (HK : in_range s K) by (apply (qu_range _ _ HQ), elem_of_app; right; by left).
  destruct (unqueue_ok s K W HK HQ) as [O1 Q1]. set (s1 := Put (mkCFG (Nodes s) (BlockMap s) W) K (set_queued false)).
  destruct (queue_only_undefined s s1 O1 Hr) as [R1 D1]. assert (L1 : length (BlockMap s1) = length (BlockMap s)) by apply O1. assert (Q1' : queued s1 W) by (by destruct Q1; split).
  set (x := if HasFlags b K then _ else _). assert (Hx : covers FLAG_ALL x.2) by (unfold x; destruct (HasFlags b K); [apply reach_block_range|]; apply R1). destruct x as [LiveIn' U]. cbn [snd] in Hx.
  set (s2 := if U =? 0 then s1 else _). assert (H2 : s2 = s1 \/ (exists W', queued s2 W' /\ Worklist s2 = W' /\ undefined_range s2 /\ length (BlockMap s2) = length (BlockMap s1) /\ (deficit s2 < deficit s1)%nat)).
  { unfold s2. destruct (U =? 0); [by left|]. by apply (propagate_all U s1 _ W). }
  destruct H2 as [->|(W2 & Q2 & E2 & R2 & L2 & D2)]; apply IH; try done.
  - rewrite L1, D1. change (Worklist s1) with W. lia.
  - by rewrite E2.
  - rewrite E2, L2, L1. pose proof (queued_length _ _ Q2) as HL. rewrite L2, L1 in HL. rewrite D1 in D2. nia.
Qed.

(** ** The pass returns *)

Theorem Run_returns Order : order_ok Order -> exists s r, Run b NZCVDeadAtTarget DisableDFCEStoreElim NoWriteArmDisabled Order = Some r /\
  good s /\ RNodes r = Nodes s /\ Permissions r = AnnotateFlagLiveness b NZCVDeadAtTarget s /\
  Worklist s = [] /\ queued s [] /\ length (BlockMap s) = NextBlock (Unit b) /\ (forall K, Undefined s K = 0) /\
  forall K Order', Order = K :: Order' -> EntryNZCVLiveIn b K s = Some (RLiveIn r).
Proof.
  intros HO. destruct (flow_returns Order HO) as (s & Hf & Hg & HW & HQ & HL & HU). exists s. unfold Run. rewrite Hf. cbn [mbind option_bind].
  assert (Hlive : exists x, match Order with K :: _ => EntryNZCVLiveIn b K s | [] => Some false end = Some x).
  { destruct Order as [|K Order]; [by eexists|]. apply Forall_cons in HO as [HK _]. unfold EntryNZCVLiveIn.
    assert (Hr : undefined_range s) by (intros k; rewrite HU; intros j; by rewrite Z.bits_0).
    set (s1 := Put s K (set_undefined FLAG_NZCV)). assert (H1 : queued s1 [] /\ undefined_range s1).
    { destruct (put_undefined s K FLAG_NZCV [] HQ Hr) as (A & B & _); [done|rewrite HU; intros j; by rewrite Z.bits_0|by rewrite HU|unfold in_range; by rewrite HL|by split]. }
    destruct H1 as [Q1 R1]. assert (L1 : length (BlockMap s1) = NextBlock (Unit b)) by (unfold s1; by rewrite Put_length).
    destruct (AddWorklist_ok s1 K [] []) as (W2 & Q2 & E2 & O2); [unfold in_range; by rewrite L1|done|exact HW|]. destruct (queue_only_undefined _ _ O2 R1) as [R2 D2].
    rewrite app_nil_r in E2. destruct (reach_returns (flow_fuel b) 0 (AddWorklist s1 K)) as [[L s2] ->]; [by rewrite E2|done| |by eexists].
    destruct O2 as (_ & LO & _). rewrite E2, LO, L1. pose proof (queued_length _ _ Q2) as HB. rewrite LO, L1 in HB. unfold flow_fuel.
    pose proof (sum_with_bound (fun X => 4 - weight (Undefined (AddWorklist s1 K) X))%nat (seq 0 (NextBlock (Unit b))) 4 ltac:(intros ?; cbv beta; apply Nat.le_sub_l)) as HT. rewrite length_seq in HT.
    unfold deficit. rewrite LO, L1.
    apply Nat.le_lt_trans with (4 * NextBlock (Unit b) * S (NextBlock (Unit b)) + NextBlock (Unit b))%nat; [apply Nat.add_le_mono; [apply Nat.mul_le_mono_r; exact HT|exact HB]|nia]. }
  destruct Hlive as [x Hx]. rewrite Hx. eexists. split; [reflexivity|]. split_and!; [done..|]. intros K Order' ->. exact Hx.
Qed.
End Flow.
