(* ===== verification/DeadFlagsSim.v ===== *)
(** Running a unit after the dead-flag pass against the unit as it was emitted. *)
From S2P Require Import Prelude A64Common IR IRLogic BlockBuilder UnitExec DeadFlags DeadFlagsSpec DeadFlagsFlow.
Open Scope Z_scope.

(** ** Stops *)

(** The stop of an operation at position [i]. *)
Definition stop_of (o : op) (i : nat) (r : StopReason) : Prop :=
  match r with
  | SJump K => o = OJump K
  | SCond j _ => j = i /\ exists c, o = OCondJump c
  | SExit _ _ => exists x h c, o = OExitFunction x h c
  | SBreak x => o = OBreak x
  | SFault _ _ => True
  end.

Lemma step_stop_of junk entry m o r : Stop (G m) = None -> Stop (G (step junk entry m o)) = Some r -> stop_of o (length (Env m)) r.
Proof.
  intros Hm. destruct o; unfold step, push, push_g, push_div; cbn [G]; cbv zeta;
    repeat (match goal with |- context [if ?c then _ else _] => destruct c end); cbn [G Stop set_stop set_reg set_flags set_pcslot set_mem set_marker set_trap];
    try (by rewrite Hm); try (destruct (flag_op _ _ _ _ _); cbn; by rewrite Hm); intros [= <-]; cbn; eauto.
Qed.

Lemma flow_stopped junk entry m l r : Stop (G m) = Some r -> exec junk entry m l = m.
Proof. intros H. induction l as [|o l IH]; [done|]. unfold exec in *. cbn [foldl]. unfold run_op at 2. by rewrite H. Qed.

Section Nodes.
Context {b : Builder} {Perm : nat -> bool} {junk : nat -> Z} {junk_flags : nat -> NZCV}.
Abbreviation exec_nodes := (exec_nodes b Perm junk junk_flags).

Lemma nodes_cons m n ns : exec_nodes m (n :: ns) = exec_nodes (match Stop (G m) with Some _ => m | None => step_node b Perm junk junk_flags m n end) ns.
Proof. done. Qed.

Lemma exec_stopped_nodes m ns r : Stop (G m) = Some r -> exec_nodes m ns = m.
Proof. intros H. induction ns as [|n ns IH]; [done|]. by rewrite nodes_cons, H. Qed.
End Nodes.

Definition is_load (o : op) : bool := match o with OLoadMem _ _ _ _ _ | OLoadMemRev _ _ => true | _ => false end.

Section Sim.
Context (b : Builder).
Hypothesis Htidy : tidy b.
Context (NZCVDeadAtTarget : nat -> bool) (s : ControlFlow).
Hypothesis Hgood : good b NZCVDeadAtTarget s.
Abbreviation l := (Nodes s).
Abbreviation Fl := (Flags s).
Abbreviation op_at := (op_at b).
Abbreviation positions := (positions b).
Abbreviation exit_flags := (exit_flags b NZCVDeadAtTarget).
#[local] Set Default Proof Using "Htidy Hgood".

Definition is_used (i : nat) : Prop := used l i = true.

(** The flags read before the positions [ps], when [out] is read after them. *)
Definition live_through (ps : list nat) (out : Z) : Z := foldl (fun F i => live_before (node_at l i) F) out ps.

Lemma live_through_mono ps out out' : covers out out' -> covers (live_through ps out) (live_through ps out').
Proof. revert out out'. induction ps as [|i ps IH]; intros out out' H; [done|]. cbn. by apply IH, live_before_mono. Qed.

Lemma ok_exact ps out H : ok_from op_at ps out l H ->
  covers H (live_through ps out) /\ forall pre i post, ps = pre ++ i :: post -> refines (used l i) (live_through pre out) (op_at i) (node_at l i).
Proof.
  revert out. induction ps as [|j ps IH]; intros out Hok; [split; [exact Hok|by intros [] ? ? ?]|]. destruct Hok as (L & H1 & H2 & H3).
  assert (H3' : ok_from op_at ps (live_before (node_at l j) out) l H) by (eapply ok_from_mono; [by apply live_before_mono|reflexivity|done|done|exact H3]).
  destruct (IH _ H3') as [C1 C2]. split; [exact C1|]. intros [|x pre] i post He; cbn in He.
  - injection He as <- <-. by apply (refines_mono (used l j) _ L).
  - injection He as <- ->. exact (C2 pre i post eq_refl).
Qed.

(** ** Permissions *)

Definition Permission (i : nat) : bool := existsb (Nat.eqb i) (AnnotateFlagLiveness b NZCVDeadAtTarget s).

Lemma annotate_in ps out i : i ∈ annotate l ps out -> exists pre post, ps = pre ++ i :: post /\ from_option (permission (live_through pre out)) false (node_at l i) = true.
Proof.
  revert out. induction ps as [|j ps IH]; intros out; [by intros ?%elem_of_nil|]. cbn [annotate]. fold (node_at l j). intros [Hi|Hi]%elem_of_app.
  - destruct (from_option _ _ _) eqn:E; [|by apply elem_of_nil in Hi]. apply list_elem_of_singleton in Hi as ->. by exists [], ps.
  - destruct (IH _ Hi) as (pre & post & -> & H). by exists (j :: pre), post.
Qed.

Lemma split_unique (i : nat) pre post pre' post' : NoDup (pre ++ i :: post) -> pre ++ i :: post = pre' ++ i :: post' -> pre = pre'.
Proof.
  revert pre'. induction pre as [|x pre IH]; intros [|y pre'] Hnd He; cbn in *; [done| | |].
  - injection He as -> ->. apply NoDup_cons in Hnd as [Hn _]. destruct Hn. apply elem_of_app. right. by left.
  - injection He as -> He. apply NoDup_cons in Hnd as [Hn _]. destruct Hn. apply elem_of_app. right. by left.
  - injection He as -> He. apply NoDup_cons in Hnd as [_ Hnd]. f_equal. by eapply IH.
Qed.

Definition out_of (K : nat) : Z := exit_flags Fl (exit_of b (positions K)).

Lemma permission_ok K pre i post : positions K = pre ++ i :: post -> Permission i = true -> from_option (permission (live_through pre (out_of K))) false (node_at l i) = true.
Proof.
  intros Hp (j & Hj & He%Nat.eqb_eq)%existsb_exists. subst j. apply in_concat in Hj as (x & Hx & Hi). apply in_map_iff in Hx as (K' & <- & _).
  apply list_elem_of_In, annotate_in in Hi as (pre' & post' & Hp' & H). assert (K' = K) as -> by (apply (positions_disjoint b Htidy K' K i); [rewrite Hp'|rewrite Hp]; apply elem_of_app; right; by left).
  assert (Hout : out_flags b NZCVDeadAtTarget s K = out_of K) by (unfold out_flags, out_of; by eapply exit_stable, (gd_blocks _ _ _ Hgood)). rewrite Hout in H.
  pose proof (positions_nodup b Htidy K) as Hnd. rewrite Hp in Hnd, Hp'. by rewrite (split_unique i pre post pre' post' Hnd Hp').
Qed.

(** ** One node *)

Lemma args_used i n : node_at l i = Some n -> forall a, a ∈ args n -> is_used a.
Proof. intros Hn a Ha. apply used_spec. by exists i, n. Qed.

Context (junk : nat -> Z) (junk_flags : nat -> NZCV).
Abbreviation entry := (Entry b).
Abbreviation step_node := (step_node b Permission junk junk_flags).
Abbreviation run_node := (run_node b Permission junk junk_flags).
Abbreviation exec_nodes := (exec_nodes b Permission junk junk_flags).

(** A load that was removed has faulted. *)
Definition lost (g : Guest) : Prop := exists A i, Stop g = Some (SFault false A) /\ node_at l i = None /\ is_load (op_at i) = true.

Lemma load_faults m o r : op_side_effects o = false -> Stop (G m) = None -> Stop (G (step junk entry m o)) = Some r -> is_load o = true.
Proof using. destruct o; try done; intros _ Hm; unfold step, push; cbn [G]; by rewrite Hm. Qed.

Lemma node_step K pre i post m m' :
  positions K = pre ++ i :: post -> length (Env m) = i -> Stop (G m) = None ->
  refines (used l i) (live_through pre (out_of K)) (op_at i) (node_at l i) ->
  values_on is_used (Env m) (Env m') -> same_but (live_through (pre ++ [i]) (out_of K)) (G m) (G m') ->
  let m1 := step junk entry m (op_at i) in let m1' := step_node m' (node_at l i) in
  (same_but (live_through pre (out_of K)) (G m1) (G m1') /\ values_on is_used (Env m1) (Env m1')) \/ lost (G m1).
Proof.
  intros Hp Hi Hm Hr Hv Hg m1 m1'. rewrite <- Hi in Hr. unfold live_through in Hg. rewrite foldl_app in Hg. cbn [foldl] in Hg. fold (live_through pre (out_of K)) in Hg. rewrite <- Hi in Hg.
  pose proof (refined_step b junk Permission junk_flags (used l (length (Env m))) (live_through pre (out_of K)) _ _ is_used m m' Hr) as H.
  destruct H as [H|(Hc & A & HA)].
  - intros Hu Hx. unfold is_used in Hx. congruence.
  - intros n Hn. by apply args_used with (length (Env m)).
  - intros HP. rewrite Hi in HP |- *. by apply permission_ok with post.
  - exact Hv.
  - exact Hg.
  - left. unfold m1, m1'. rewrite <- Hi. exact H.
  - right. unfold m1. rewrite Hi in Hc, HA, Hr. exists A, i. rewrite HA, Hc in *. split; [done|]. split; [done|].
    destruct (op_side_effects (op_at i)) eqn:E; [|apply (load_faults m _ (SFault false A)); [done|done|by rewrite HA]]. exfalso. inversion Hr; subst; [congruence|]. 
    match goal with Hw : Write _ = _ |- _ => destruct (flags_step b junk m _ Hw) as (v & f & He) end. rewrite He in HA. cbn in HA. apply (f_equal Stop) in HA. cbn in HA. congruence.
Qed.

Lemma step_env m o : length (Env (step junk entry m o)) = S (length (Env m)).
Proof using.
  destruct o; cbn [step]; cbv zeta; unfold push, push_g, push_div; repeat case_match; cbn [Env]; rewrite ?length_app, ?length_insert; cbn [length]; lia.
Qed.

(** ** The operations of a block from position [i] *)

(** Where a block is left: by a fault, or by its last operation. *)
Definition left_by (K : nat) (M : Machine) (L : Z) (r : StopReason) : Prop :=
  (exists w A, r = SFault w A) \/ (exists i ps, positions K = i :: ps /\ stop_of (op_at i) i r /\ leaving (op_at i) = true /\ L = out_of K).

Definition block_end (K : nat) (M M' : Machine) : Prop :=
  values_on is_used (Env M) (Env M') /\ exists L, same_but L (G M) (G M') /\ forall r, Stop (G M) = Some r -> left_by K M L r.

Lemma stop_leaves o i r : stop_of o i r -> (exists w A, r = SFault w A) \/ leaving o = true.
Proof using. destruct r; cbn; [intros ->; by right|left; eauto|intros ->; by right|intros (_ & c & ->); by right|intros (x & h & c & ->); by right]. Qed.

Lemma positions_suffix K n i : (exists s0 e, segment (length (Ops b)) (Segments (Unit b)) K = Some (s0, e) /\ (s0 <= i)%nat /\ (i + S n)%nat = e) ->
  exists post, positions K = rev (seq (S i) n) ++ i :: post.
Proof using.
  intros (s0 & e & Hs & H1 & H2). exists (rev (seq s0 (i - s0))). unfold DeadFlags.positions. rewrite Hs. subst e.
  replace (i + S n - s0)%nat with ((i - s0) + S n)%nat by lia. rewrite seq_app, rev_app_distr. replace (s0 + (i - s0))%nat with i by lia. cbn [seq rev]. by rewrite <- app_assoc.
Qed.

Lemma exec_cons m o ops : exec junk entry m (o :: ops) = exec junk entry (match Stop (G m) with Some _ => m | None => step junk entry m o end) ops.
Proof using. done. Qed.
Lemma block_sim K n i m m' :
  (exists s0 e, segment (length (Ops b)) (Segments (Unit b)) K = Some (s0, e) /\ (s0 <= i)%nat /\ (i + n)%nat = e /\ (e <= length (Ops b))%nat) ->
  length (Env m) = i -> Stop (G m) = None -> values_on is_used (Env m) (Env m') -> same_but (live_through (rev (seq i n)) (out_of K)) (G m) (G m') ->
  let M := exec junk entry m (take n (drop i (Ops b))) in let M' := exec_nodes m' (take n (drop i l)) in
  block_end K M M' \/ lost (G M).
Proof.
  revert i m m'. induction n as [|n IH]; intros i m m' (s0 & e & Hs & H1 & H2 & H3) Hi Hm Hv Hg; cbv zeta.
  { left. cbn [take]. unfold exec, DeadFlags.exec_nodes. cbn [foldl]. split; [done|]. eexists. split; [exact Hg|]. intros r Hr. change (Stop (G m) = Some r) in Hr. by rewrite Hm in Hr. }
  destruct (lookup_lt_is_Some_2 (Ops b) i ltac:(lia)) as [o Ho]. destruct (lookup_lt_is_Some_2 l i ltac:(rewrite (gd_length _ _ _ Hgood); lia)) as [x Hx].
  rewrite (drop_S _ _ _ Ho), (drop_S _ _ _ Hx). cbn [take]. rewrite exec_cons, nodes_cons, Hm, (same_but_stop _ _ _ Hg), Hm.
  assert (Hop : op_at i = o) by (unfold DeadFlagsFlow.op_at; by apply nth_lookup_Some). assert (Hnode : node_at l i = x) by (unfold node_at; by rewrite Hx).
  destruct (positions_suffix K n i ltac:(eauto)) as [post Hp]. pose proof (gd_blocks _ _ _ Hgood K) as HB. apply ok_exact in HB as [_ HB]. specialize (HB _ _ _ Hp).
  cbn [seq rev] in Hg.
  destruct (node_step K _ i post m m' Hp Hi Hm HB Hv Hg) as [[Hg1 Hv1]|Hl]; rewrite Hop, ?Hnode in *.
  2:{ right. destruct Hl as (A & j & HA & Hl). rewrite (flow_stopped _ _ _ _ _ HA). by exists A, j. }
  destruct (Stop (G (step junk entry m o))) as [r|] eqn:Er.
  - left. rewrite (flow_stopped _ _ _ _ _ Er).
    rewrite (exec_stopped_nodes _ _ r) by (by rewrite (same_but_stop _ _ _ Hg1)). split; [done|]. eexists. split; [exact Hg1|]. intros r' Hr. rewrite Er in Hr. injection Hr as <-.
    pose proof (step_stop_of _ _ _ _ _ Hm Er) as Hst. rewrite Hi in Hst. destruct (stop_leaves _ _ _ Hst) as [Hf|Hlv]; [by left|]. right.
    assert (n = 0)%nat as ->.
    { destruct n as [|k]; [done|]. exfalso. rewrite seq_S, rev_app_distr in Hp. cbn in Hp. pose proof (last_leaves b Htidy K _ _ Hp i) as Hx1.
      rewrite Hop, Hlv in Hx1. specialize (Hx1 ltac:(apply elem_of_app; right; by left)). done. }
    exists i, post. rewrite Hop. by split_and!.
  - apply (IH (S i)); [exists s0, e; split_and!; [done|lia|lia|done]|by rewrite step_env, Hi|done|done|exact Hg1].
Qed.

(** ** Points of the two runs

    At the head of a block the values that are used and the flags that are read
    agree; at an exit everything does, but the flags where the peek found them
    dead; at a fault everything but the flags. *)
Inductive sim : UnitPoint -> UnitPoint -> Prop :=
  | sim_block K Prev V V' g g' : Stop g = None -> values_on is_used V V' -> same_but (Fl K) g g' -> sim (AtBlock K Prev V g) (AtBlock K Prev V' g')
  | sim_exit PC h g g' i x h' c : op_at i = OExitFunction x h' c -> same_but (if NZCVDeadAtTarget i then 0 else FLAG_ALL) g g' -> sim (Outside PC h g) (Outside PC h g')
  | sim_fault w A g g' : Stop g = Some (SFault w A) -> same_but 0 g g' -> sim (Trapped g) (Trapped g')
  | sim_break r g : Stop g = Some (SBreak r) -> sim (Trapped g) (Trapped g).

Lemma same_but_resume F g g' : same_but F g g' -> same_but F (resume g) (resume g').
Proof using. intros (f & -> & H). by exists f. Qed.

Lemma same_but_zero F g g' : same_but F g g' -> same_but 0 g g'.
Proof using. apply same_but_mono. intros k. by rewrite Z.bits_0. Qed.

Lemma exit_of_leaves K i ps : positions K = i :: ps -> leaving (op_at i) = true -> out_of K = exit_flags Fl (Some (i, Keep (op_at i))).
Proof using. intros Hp Hl. unfold out_of, exit_of. by rewrite Hp, Hl. Qed.

Lemma after_sim K M M' p : block_end K M M' -> after_block b K M = Some p -> exists p', after_block b K M' = Some p' /\ sim p p'.
Proof using.
  intros (Hv & L & Hg & HL). unfold after_block. rewrite (same_but_stop _ _ _ Hg). destruct (Stop (G M)) as [r|] eqn:Er; [|done]. specialize (HL r eq_refl).
  destruct HL as [(w & A & ->)|(i & ps & Hp & Hst & Hl & ->)]; [intros [= <-]; eexists; split; [reflexivity|]; eapply sim_fault; [exact Er|by eapply same_but_zero]|].
  pose proof (exit_of_leaves K i ps Hp Hl) as Ho. rewrite Ho in Hg. apply same_but_resume in Hg as Hr. clear Ho.
  destruct r as [r|w A|K'|j t|PC h]; cbn [stop_of] in Hst.
  - rewrite Hst in Hg. cbn [DeadFlags.exit_flags] in Hg. apply same_but_all in Hg. rewrite Hg. intros [= <-]. eexists. split; [reflexivity|]. by eapply sim_break.
  - intros [= <-]. eexists. split; [reflexivity|]. eapply sim_fault; [exact Er|by eapply same_but_zero].
  - rewrite Hst in Hr. intros [= <-]. eexists. split; [reflexivity|]. by apply sim_block.
  - destruct Hst as (-> & c & Hc). rewrite Hc in Hr. cbn [DeadFlags.exit_flags] in Hr. destruct t; cbn [mbind option_bind].
    + destruct (assoc i (TrueBlock (Unit b))) as [K'|]; [|done]. intros [= <-]. eexists. split; [reflexivity|]. apply sim_block; [done..|]. eapply same_but_mono; [|exact Hr]. apply covers_lor_l.
    + destruct (assoc i (FalseBlock (Unit b))) as [K'|]; [|done]. intros [= <-]. eexists. split; [reflexivity|]. apply sim_block; [done..|]. eapply same_but_mono; [|exact Hr]. apply covers_lor_r.
  - destruct Hst as (x & h' & c & Hx). rewrite Hx in Hr. intros [= <-]. eexists. split; [reflexivity|]. by eapply sim_exit.
Qed.

Lemma head_values_on s0 K Prev V V' : values_on is_used V V' -> values_on is_used (head_values b junk s0 K Prev V) (head_values b junk s0 K Prev V').
Proof using.
  intros [Hl H]. unfold head_values. destruct (_ && _); [|done]. assert (Hl' : length (take s0 V') = length (take s0 V)) by (rewrite !length_take; lia). rewrite Hl'.
  split; [by rewrite !length_app, Hl'|]. intros i Hi. destruct (decide (i < length (take s0 V))%nat) as [Hlt|Hge].
  - rewrite !app_nth1 by lia. rewrite length_take in Hlt. rewrite !nth_lookup, !lookup_take_lt by lia. rewrite <- !nth_lookup. by apply H.
  - rewrite !app_nth2 by lia. by rewrite Hl'.
Qed.

Lemma head_values_length s0 K Prev V : length (head_values b junk s0 K Prev V) = s0.
Proof using. unfold head_values. destruct (_ && _); rewrite length_app, length_map, length_seq, ?length_take; cbn [length]; lia. Qed.

(** The reference run ended in a load that was removed. *)
Definition lost_point (p : UnitPoint) : Prop := exists g, p = Trapped g /\ lost g.

Lemma step_sim p p' q : sim p p' -> unit_step b junk p = Some q -> (exists q', step_nodes b l Permission junk junk_flags p' = Some q' /\ sim q q') \/ lost_point q.
Proof.
  intros Hs. destruct Hs as [K Prev V V' g g' Hg Hv Hf|PC h g g' i x h' c Hop Hf|w A g g' HA Hf|r g HA]; cbn [unit_step step_nodes]; [|by intros [= <-]; left; eexists; split; [reflexivity|]; by econstructor..].
  unfold run_block, run_block_nodes. destruct (segment _ _ K) as [[s0 e]|] eqn:Es; [|done]. cbn [mbind option_bind].
  destruct (segment_bounds _ _ _ _ _ (td_sorted _ Htidy) (td_bound _ Htidy) Es) as [Hb _]. intros Hq. pose proof (gd_blocks _ _ _ Hgood K) as HB. apply ok_exact in HB as [HB _].
  assert (Hps : positions K = rev (seq s0 (e - s0))) by (unfold DeadFlags.positions; by rewrite Es). rewrite Hps in HB. fold (exit_flags Fl) in HB.
  destruct (block_sim K (e - s0) s0 (mkMachine (head_values b junk s0 K Prev V) g) (mkMachine (head_values b junk s0 K Prev V') g')) as [H|H].
  - exists s0, e. split_and!; [done|lia..].
  - apply head_values_length.
  - done.
  - by apply head_values_on.
  - eapply same_but_mono; [|exact Hf]. unfold out_of. rewrite Hps. exact HB.
  - left. by eapply after_sim.
  - right. destruct H as (A & i & HA & Hi). unfold after_block in Hq. rewrite HA in Hq. injection Hq as <-. eexists. split; [reflexivity|]. by exists A, i.
Qed.
End Sim.

(** ** The run of the result *)
Section Runs.
Context (b : Builder).
Hypothesis Htidy : tidy b.
Context (NZCVDeadAtTarget : nat -> bool) (s : ControlFlow).
Hypothesis Hgood : good b NZCVDeadAtTarget s.

Lemma lost_stays junk p q : lost_point b s p -> unit_step b junk p = Some q -> lost_point b s q.
Proof using. intros (g & -> & H) [= <-]. by exists g. Qed.

Lemma runs_sim junk junk_flags n p p' q :
  sim b NZCVDeadAtTarget s p p' -> unit_run b junk n p = Some q ->
  (exists q', run_nodes b (Nodes s) (Permission b NZCVDeadAtTarget s) junk junk_flags n p' = Some q' /\ sim b NZCVDeadAtTarget s q q') \/ lost_point b s q.
Proof using Htidy Hgood.
  intros Hs. revert q. induction n as [|n IH]; intros q Hq; [injection Hq as <-; left; by exists p'|]. cbn [unit_run] in Hq. apply bind_Some in Hq as (r & Hr & Hq).
  destruct (IH r Hr) as [(r' & Hr' & Hsr)|Hl]; [|right; by eapply lost_stays].
  destruct (step_sim b Htidy NZCVDeadAtTarget s Hgood (junk n) (junk_flags n) r r' q Hsr Hq) as [(q' & Hq' & Hsq)|Hl]; [left|by right].
  exists q'. cbn [run_nodes]. rewrite Hr'. by split.
Qed.
End Runs.

(** ** What the result of the pass does *)

(** Both runs are at the same place with the same registers and memory, and at a
    guest signal and at an exit whose flags the peek did not find dead with the
    same flags. *)
Inductive follows (b : Builder) (NZCVDeadAtTarget : nat -> bool) : UnitPoint -> UnitPoint -> Prop :=
  | follows_block K Prev V V' g f : follows b NZCVDeadAtTarget (AtBlock K Prev V g) (AtBlock K Prev V' (set_flags g f))
  | follows_exit PC h g f i x h' c : Ops b !! i = Some (OExitFunction x h' c) -> (NZCVDeadAtTarget i = false -> f = IR.Flags g) ->
      follows b NZCVDeadAtTarget (Outside PC h g) (Outside PC h (set_flags g f))
  | follows_fault w A g f : Stop g = Some (SFault w A) -> follows b NZCVDeadAtTarget (Trapped g) (Trapped (set_flags g f))
  | follows_break r g : Stop g = Some (SBreak r) -> follows b NZCVDeadAtTarget (Trapped g) (Trapped g).

(** The fault of a load that the pass removed. *)
Definition lost_load (b : Builder) (r : Result) (p : UnitPoint) : Prop :=
  exists g A i o, p = Trapped g /\ Stop g = Some (SFault false A) /\ Ops b !! i = Some o /\ is_load o = true /\ RNodes r !! i = Some None.

Definition permits (r : Result) (i : nat) : bool := existsb (Nat.eqb i) (Permissions r).

Lemma sim_follows b D s p p' : sim b D s p p' -> follows b D p p'.
Proof.
  intros [K Prev V V' g g' _ _ (f & -> & _)|PC h g g' i x h' c Hop (f & -> & Hf)|w A g g' HA (f & -> & _)|r g Hr]; [by constructor| |by eapply follows_fault|by eapply follows_break].
  apply (follows_exit b D PC h g f i x h' c).
  - unfold op_at in Hop. destruct (Ops b !! i) as [o|] eqn:E; [by rewrite (nth_lookup_Some _ _ _ _ E) in Hop; rewrite Hop|]. rewrite nth_lookup, E in Hop. done.
  - intros HD. rewrite HD in Hf. by apply agree_all in Hf.
Qed.

(** The pass returns, whatever the order of the blocks, and its result follows
    the unit as it was emitted until that ends in the fault of a load that was
    removed. *)
Theorem Run_follows b NZCVDeadAtTarget DisableDFCEStoreElim NoWriteArmDisabled Order :
  tidy b -> order_ok b Order -> exists r, Run b NZCVDeadAtTarget DisableDFCEStoreElim NoWriteArmDisabled Order = Some r /\
  forall junk junk_flags g p0 N p, unit_entry b g = Some p0 -> Stop g = None -> unit_run b junk N p0 = Some p ->
    (exists p', run_nodes b (RNodes r) (permits r) junk junk_flags N p0 = Some p' /\ follows b NZCVDeadAtTarget p p') \/ lost_load b r p.
Proof.
  intros Ht HO. destruct (Run_returns b Ht NZCVDeadAtTarget DisableDFCEStoreElim NoWriteArmDisabled Order HO) as (s & r & Hr & Hg & HN & HP & _). exists r. split; [done|].
  intros junk junk_flags g p0 N p He Hs Hp. assert (H0 : sim b NZCVDeadAtTarget s p0 p0).
  { unfold unit_entry in He. destruct (find_target _ _); [|done]. injection He as <-. apply sim_block; [done|done|apply same_but_refl]. }
  assert (Hperm : forall i, permits r i = Permission b NZCVDeadAtTarget s i) by (intros i; unfold permits, Permission; by rewrite HP).
  destruct (runs_sim b Ht NZCVDeadAtTarget s Hg junk junk_flags N p0 p0 p H0 Hp) as [(p' & Hp' & Hsim)|(g' & -> & A & i & HA & Hi & Hl)]; [left|right].
  - exists p'. split; [rewrite HN; unfold permits; rewrite HP; exact Hp'|by eapply sim_follows].
  - unfold op_at in Hl. destruct (Ops b !! i) as [o|] eqn:E; [|by rewrite nth_lookup, E in Hl]. rewrite (nth_lookup_Some _ _ _ _ E) in Hl. exists g', A, i, o. split_and!; try done.
    rewrite HN. destruct (lookup_lt_is_Some_2 (Nodes s) i) as [x Hx]; [rewrite (gd_length _ _ _ Hg); by eapply lookup_lt_Some|]. rewrite Hx. unfold node_at in Hi. rewrite Hx in Hi. cbn in Hi. by subst x.
Qed.
