(* ===== verification/DeadFlagsReach.v ===== *)
(** The flags a unit reads from its entry ([EntryNZCVLiveIn]): a unit that the
    pass finds to read none runs the same whatever they are. *)
From S2P Require Import Prelude A64Common IR IRLogic BlockBuilder UnitExec DeadFlags DeadFlagsSpec DeadFlagsFlow DeadFlagsSim.
Open Scope Z_scope.

(** ** The forward reach *)

(** Block by block. *)
Definition through (b : Builder) (l : nodes) (K : nat) (U : Z) : Z * Z := if HasFlags b K then reach_block l (rev (positions b K)) 0 U else (0, U).

Lemma reach_block_live l ps LiveIn U : reach_block l ps LiveIn U = (Z.lor LiveIn (reach_block l ps 0 U).1, (reach_block l ps 0 U).2).
Proof.
  revert LiveIn U. induction ps as [|i ps IH]; intros LiveIn U; cbn [reach_block]; [by rewrite Z.lor_0_r|]. destruct (l !! i ≫= id) as [n|]; [|apply IH].
  rewrite IH. rewrite (IH (Z.lor 0 _)). cbn [fst snd]. by rewrite Z.lor_0_l, Z.lor_assoc.
Qed.

Section Reach.
Context (b : Builder).

(** A block whose reach is known to its successors. *)
Definition settled (s : ControlFlow) (K : nat) : Prop :=
  let x := through b (Nodes s) K (Undefined s K) in
  Z.land x.1 FLAG_NZCV = 0 /\ forall K', K' ∈ successors b (exit_node (positions b K) (Nodes s)) -> in_range s K' -> covers (Undefined s K') x.2.

Definition reached (s : ControlFlow) : Prop := forall K, K <> 0%nat -> in_range s K -> K ∈ Worklist s \/ settled s K.

(** More flags of more blocks, which are queued. *)
Record spreads (s s' : ControlFlow) : Prop := {
  sp_nodes : Nodes s' = Nodes s;
  sp_length : length (BlockMap s') = length (BlockMap s);
  sp_queued : queued s' (Worklist s');
  sp_range : undefined_range s';
  sp_more K : covers (Undefined s' K) (Undefined s K);
  sp_kept K : K ∈ Worklist s -> K ∈ Worklist s';
  sp_new K : K <> 0%nat -> in_range s K -> Undefined s' K = Undefined s K \/ K ∈ Worklist s' }.

Lemma spreads_refl s : queued s (Worklist s) -> undefined_range s -> spreads s s.
Proof. intros HQ HR. split; try done. by left. Qed.

Lemma spreads_trans s s' s'' : spreads s s' -> spreads s' s'' -> spreads s s''.
Proof.
  intros [A1 A2 A3 A4 A5 A6 A7] [B1 B2 B3 B4 B5 B6 B7]. split; try congruence; auto.
  - intros K. etrans; [apply B5|apply A5].
  - intros K H0 HK. destruct (B7 K H0) as [He|?]; [unfold in_range in *; by rewrite A2| |by right]. destruct (A7 K H0 HK) as [He'|?]; [left; congruence|right; auto].
Qed.

Lemma queue_add s K : queued s (Worklist s) -> in_range s K ->
  let s' := AddWorklist s K in queued s' (Worklist s') /\ queue_only s s' /\ (forall X, X ∈ Worklist s -> X ∈ Worklist s') /\ (K <> 0%nat -> K ∈ Worklist s').
Proof.
  intros HQ HK s'. destruct (AddWorklist_ok s K (Worklist s) [] HK HQ ltac:(by rewrite app_nil_r)) as (W' & Q & E & O). rewrite app_nil_r in E. rewrite <- E in Q.
  split; [exact Q|]. split; [exact O|]. unfold s', AddWorklist. destruct (InWorklist (Get s K)) eqn:EK.
  - split; [done|]. intros H0. by apply (qu_exact _ _ HQ).
  - cbn [Worklist]. split; [intros X HX; by right|by left].
Qed.

Lemma spreads_one U s K : queued s (Worklist s) -> undefined_range s -> covers FLAG_ALL U ->
  spreads s (Propagate U s K) /\ (in_range s K -> covers (Undefined (Propagate U s K) K) U).
Proof.
  intros HQ HR HU. destruct (decide (K < length (BlockMap s))%nat) as [HK|HK].
  2:{ split; [|by intros ?]. unfold Propagate. cbv zeta. destruct (_ =? _); [by apply spreads_refl|].
      rewrite put_out, add_out by done. by apply spreads_refl. }
  change (in_range s K) in HK.
  unfold Propagate. cbv zeta. destruct (Z.eqb_spec (Z.lor (Undefined s K) U) (Undefined s K)) as [He|Hne].
  { split; [by apply spreads_refl|]. intros _. rewrite <- He. apply covers_lor_r. }
  assert (Hcov : covers FLAG_ALL (Z.lor (Undefined s K) U)). { intros k. rewrite Z.lor_spec. intros [Hk|Hk]%orb_prop; [by apply (HR K)|by apply HU]. }
  destruct (put_undefined s K (Z.lor (Undefined s K) U) (Worklist s) HQ HR Hcov (covers_lor_l _ _) Hne HK) as (Q & R & _). set (s1 := Put s K _) in *.
  assert (L1 : length (BlockMap s1) = length (BlockMap s)) by apply Put_length.
  assert (HG : forall X, Undefined s1 X = if decide (K = X) then Z.lor (Undefined s K) U else Undefined s X).
  { intros X. unfold s1. rewrite Get_Put. destruct (decide (K = X)) as [<-|Hn]; [by rewrite decide_True by (split; [done|exact HK])|by rewrite decide_False by (by intros [? _])]. }
  assert (HK1 : in_range s1 K) by (unfold in_range; by rewrite L1). destruct (queue_add s1 K Q HK1) as (Q2 & O2 & W2 & I2). cbv zeta in *.
  destruct (queue_only_undefined _ _ O2 R) as [R2 _]. assert (HU2 : forall X, Undefined (AddWorklist s1 K) X = Undefined s1 X) by (intros X; apply O2). split.
  - split; [apply O2|destruct O2 as (_ & O2 & _); congruence|exact Q2|exact R2|..].
    + intros X. rewrite HU2, HG. destruct (decide (K = X)) as [<-|]; [apply covers_lor_l|done].
    + exact W2.
    + intros X H0 _. rewrite HU2, HG. destruct (decide (K = X)) as [<-|]; [right; by apply I2|by left].
  - intros _. rewrite HU2, HG, decide_True by done. apply covers_lor_r.
Qed.

Lemma spreads_all U s Ks : queued s (Worklist s) -> undefined_range s -> covers FLAG_ALL U -> let s' := foldl (Propagate U) s Ks in
  spreads s s' /\ forall K, K ∈ Ks -> in_range s K -> covers (Undefined s' K) U.
Proof.
  intros HQ HR HU. revert s HQ HR. induction Ks as [|K Ks IH]; intros s HQ HR; cbn [foldl]; [split; [by apply spreads_refl|by intros K ?%elem_of_nil]|].
  destruct (spreads_one U s K HQ HR HU) as [S1 C1]. destruct (IH (Propagate U s K) (sp_queued _ _ S1) (sp_range _ _ S1)) as [S2 C2]. split; [by eapply spreads_trans|].
  intros X [->|HX]%elem_of_cons Hin; [etrans; [apply (sp_more _ _ S2)|by apply C1]|]. apply C2; [done|]. unfold in_range in *. by rewrite (sp_length _ _ S1).
Qed.

Lemma through_more l K LiveIn U : (if HasFlags b K then reach_block l (rev (positions b K)) LiveIn U else (LiveIn, U)) = (Z.lor LiveIn (through b l K U).1, (through b l K U).2).
Proof. unfold through. destruct (HasFlags b K); [apply reach_block_live|by rewrite Z.lor_0_r]. Qed.

Lemma through_range l K U : covers FLAG_ALL U -> covers FLAG_ALL (through b l K U).2.
Proof. intros HU. unfold through. destruct (HasFlags b K); [by apply reach_block_range|done]. Qed.

Lemma settled_spreads s s' K : spreads s s' -> in_range s K -> Undefined s' K = Undefined s K -> settled s K -> settled s' K.
Proof.
  intros S HK He [H1 H2]. unfold settled. rewrite (sp_nodes _ _ S), He. split; [exact H1|]. intros K' HK' Hin. etrans; [apply (sp_more _ _ S)|]. apply H2; [done|]. unfold in_range in *. by rewrite <- (sp_length _ _ S).
Qed.

Lemma no_live A B : Z.land (Z.lor A B) FLAG_NZCV = 0 -> Z.land A FLAG_NZCV = 0 /\ Z.land B FLAG_NZCV = 0.
Proof. rewrite Z.land_lor_distr_l. intros H. by apply Z.lor_eq_0_iff in H. Qed.

Lemma reach_live fuel LiveIn s r : reach b fuel LiveIn s = Some r -> Z.land r.1 FLAG_NZCV = 0 -> Z.land LiveIn FLAG_NZCV = 0.
Proof.
  revert LiveIn s. induction fuel as [|fuel IH]; intros LiveIn s; [done|]. cbn [reach]. destruct (last (Worklist s)) as [K|]; [|by intros [= <-]]. destruct (negb _); [by intros [= <-]|].
  rewrite through_more. intros Hr H0. by apply (no_live _ _ (IH _ _ Hr H0)).
Qed.

(** When it ends without a flag that is live, every block is settled. *)
Lemma reach_settles fuel LiveIn s Lf s' :
  queued s (Worklist s) -> undefined_range s -> reached s -> reach b fuel LiveIn s = Some (Lf, s') -> Z.land Lf FLAG_NZCV = 0 ->
  Z.land LiveIn FLAG_NZCV = 0 /\ Nodes s' = Nodes s /\ length (BlockMap s') = length (BlockMap s) /\ undefined_range s' /\ (forall K, covers (Undefined s' K) (Undefined s K)) /\
  forall K, K <> 0%nat -> in_range s K -> settled s' K.
Proof.
  revert LiveIn s. induction fuel as [|fuel IH]; intros LiveIn s HQ HR HI; [done|]. cbn [reach]. destruct (last (Worklist s)) as [K|] eqn:EW.
  2:{ apply last_None in EW. intros [= <- <-] H0. split_and!; [done..|]. intros K HK Hin. destruct (HI K HK Hin) as [H|H]; [by rewrite EW in H; apply elem_of_nil in H|done]. }
  apply last_Some in EW as [W HW]. destruct (negb _) eqn:EL; [intros [= <- <-] H0; by rewrite H0 in EL|]. apply negb_false_iff, Z.eqb_eq in EL.
  rewrite HW, removelast_last. assert (HQ' := HQ). rewrite HW in HQ'. assert (HK : in_range s K) by (apply (qu_range _ _ HQ'), elem_of_app; right; by left).
  destruct (unqueue_ok s K W HK HQ') as [O1 Q1]. set (s1 := Put (mkCFG (Nodes s) (BlockMap s) W) K (set_queued false)).
  destruct (queue_only_undefined s s1 O1 HR) as [R1 _]. assert (L1 : length (BlockMap s1) = length (BlockMap s)) by apply O1.
  assert (N1 : Nodes s1 = Nodes s) by done. assert (U1 : forall X, Undefined s1 X = Undefined s X) by (intros X; apply O1). assert (Q1' : queued s1 (Worklist s1)) by (by destruct Q1; split).
  rewrite through_more. set (x := through b (Nodes s1) K (Undefined s1 K)).
  set (s2 := if x.2 =? 0 then s1 else _). assert (H2 : spreads s1 s2 /\ forall K', K' ∈ successors b (exit_node (positions b K) (Nodes s1)) -> in_range s1 K' -> covers (Undefined s2 K') x.2).
  { unfold s2. destruct (Z.eqb_spec x.2 0) as [->|_]; [split; [by apply spreads_refl|intros; intros k; by rewrite Z.bits_0]|]. apply spreads_all; [done|done|]. by apply through_range. }
  destruct H2 as [S2 C2]. intros Hr H0. assert (L2 : length (BlockMap s2) = length (BlockMap s1)) by apply S2.
  destruct (IH (Z.lor LiveIn x.1) s2 (sp_queued _ _ S2) (sp_range _ _ S2)) as (E1 & E2 & E3 & E6 & E4 & E5); [|exact Hr|done|].
  - intros X HX Hin. assert (Hin1 : in_range s1 X) by (unfold in_range in *; congruence). destruct (sp_new _ _ S2 X HX Hin1) as [HU|]; [|by left].
    destruct (decide (X = K)) as [->|Hne].
    + right. unfold settled. rewrite (sp_nodes _ _ S2), HU. fold x. split; [by apply (no_live LiveIn), (reach_live _ _ _ _ Hr)|]. intros K' HK' Hin'. apply C2; [done|]. unfold in_range in *. congruence.
    + destruct (HI X HX) as [H|H]; [unfold in_range in *; congruence| |].
      * rewrite HW in H. apply elem_of_app in H as [H|H%list_elem_of_singleton]; [left; by apply (sp_kept _ _ S2)|done].
      * right. apply (settled_spreads s1); [done|done|done|]. unfold settled in *. rewrite N1, U1. destruct H as [H1 H2]. split; [exact H1|]. intros K' HK' Hin'. rewrite U1. apply H2; [done|]. unfold in_range in *. congruence.
  - split_and!; [by apply (no_live _ x.1)|by rewrite E2, (sp_nodes _ _ S2)|congruence|done|intros X; etrans; [apply E4|]; rewrite <- U1; apply S2|].
    intros X HX Hin. apply E5; [done|]. unfold in_range in *. congruence.
Qed.
End Reach.

(** ** Two runs from different flags *)

(** The segments are those of blocks. *)
Definition numbered (b : Builder) : Prop := forall K s e, segment (length (Ops b)) (Segments (Unit b)) K = Some (s, e) -> (0 < K < NextBlock (Unit b))%nat.

Section Apart.
Context (b : Builder).
Hypothesis Htidy : tidy b.
Context (NZCVDeadAtTarget : nat -> bool) (s s' : ControlFlow).
Hypothesis Hgood : good b NZCVDeadAtTarget s.
Hypothesis (Hnodes : Nodes s' = Nodes s) (Hrange : undefined_range s') (Hset : forall K, K <> 0%nat -> in_range s' K -> settled b s' K).
Abbreviation l := (Nodes s).
Abbreviation op_at := (op_at b).
Abbreviation positions := (positions b).
Context (Perm : nat -> bool) (junk : nat -> Z) (junk_flags : nat -> NZCV).
Abbreviation step_node := (step_node b Perm junk junk_flags).
Abbreviation exec_nodes := (exec_nodes b Perm junk junk_flags).

(** The same but for flags that have not been written since the entry. *)
Definition apart (U : Z) (g g' : Guest) : Prop := same_but (Z.lnot U) g g'.

Lemma clobber_same F i o g g' : same_but F g g' -> same_but F (clobber Perm junk_flags i o g) (clobber Perm junk_flags i o g').
Proof using.
  intros (f & -> & Hf). unfold clobber. destruct (Perm i); [|by exists f].
  assert (HC : same_but F (set_flags g (mkNZCV (FN (IR.Flags g)) (FZ (IR.Flags g)) (FC (junk_flags i)) (FV (IR.Flags g)))) (set_flags (set_flags g f) (mkNZCV (FN f) (FZ f) (FC (junk_flags i)) (FV f)))).
  { eexists. split; [reflexivity|]. intros k Hk. specialize (Hf k Hk). cbn in *. by destruct k as [|[[]|[]|]|]. }
  destruct o; try (by exists f); [destruct o; try (by exists f); exact HC|exact HC|eexists; by split].
Qed.

Lemma unread n U : covers FLAG_ALL U -> Z.land (Z.land (Read (Classify n)) U) FLAG_NZCV = 0 -> covers (Z.lnot U) (live_before (Some n) (Z.lnot (Z.land U (Z.lnot (Write (Classify n)))))).
Proof using.
  intros HU H k Hk. destruct (Z.ltb_spec k 0) as [Hneg|Hpos]; [by rewrite Z.testbit_neg_r in Hk|]. rewrite before_bit, Z.lnot_spec, Z.land_spec, Z.lnot_spec in Hk by done. rewrite Z.lnot_spec by done.
  destruct (Z.testbit U k) eqn:EU; [|done]. exfalso. cbn in Hk. destruct (Z.testbit (Write (Classify n)) k); cbn in Hk; [|rewrite ?andb_false_r in Hk; cbn in Hk];
    (assert (Hb : Z.testbit (Z.land (Z.land (Read (Classify n)) U) FLAG_NZCV) k = true) by (rewrite !Z.land_spec, Hk, EU; exact (HU k EU)); by rewrite H, Z.bits_0 in Hb).
Qed.

Lemma node_apart c e g g' U (x := reach_block [c] [0%nat] 0 U) :
  covers FLAG_ALL U -> Z.land x.1 FLAG_NZCV = 0 -> apart U g g' ->
  let m := step_node (mkMachine e g) c in let m' := step_node (mkMachine e g') c in Env m' = Env m /\ apart x.2 (G m) (G m').
Proof using.
  intros HU HL Hg. unfold x in *. cbn in HL |- *. destruct c as [n|]; cbn in HL |- *; [|by split]. unfold apart in *.
  apply (same_but_mono _ _ _ _ (unread n U HU ltac:(by rewrite Z.lor_0_l in HL))) in Hg. destruct n as [o|o sz a c].
  - cbn [DeadFlags.step_node]. assert (Hv : values_on (fun _ => True) e e) by done. destruct (node_agree junk (Entry b) o e e g g' _ _ Hv ltac:(done) Hg) as [A [B1 B2]]. cbn [Env G]. split.
    + apply list_eq_same_length with (length (Env (step junk (Entry b) (mkMachine e g) o))); [done|done|]. intros i v w _ Hx Hy. specialize (B2 i I). rewrite !nth_lookup, Hx, Hy in B2. by cbn in B2.
    + by apply clobber_same.
  - destruct Hg as (f & -> & Hf). cbn. split; [done|]. pose proof (agree_read _ _ _ _ Hf) as Hrd. eexists. split; [reflexivity|]. destruct o; try done; by rewrite (Hrd 1 eq_refl : FC (IR.Flags g) = FC f).
Qed.

Lemma clobber_stop i o g : Stop (clobber Perm junk_flags i o g) = Stop g.
Proof using. unfold clobber. destruct (Perm i); [|done]. destruct o; try done. by destruct o. Qed.

Lemma node_env m c : length (Env (step_node m c)) = S (length (Env m)).
Proof using. destruct c as [[o|o sz x y]|]; cbn; [apply step_env|rewrite length_app; cbn; lia..]. Qed.

Lemma node_stop m c r : Stop (G m) = None -> Stop (G (step_node m c)) = Some r -> exists o, c = Some (Keep o) /\ stop_of o (length (Env m)) r.
Proof using.
  intros Hm. destruct c as [[o|o sz x y]|]; cbn; [|by rewrite Hm..]. rewrite clobber_stop. intros Hr. exists o. split; [done|]. by eapply step_stop_of.
Qed.

(** Where a block is left in both runs. *)
Definition left_at (K : nat) (U V : Z) (r : StopReason) : Prop :=
  (exists w A, r = SFault w A) \/
  (exists i ps, positions K = i :: ps /\ node_at l i = Some (Keep (op_at i)) /\ stop_of (op_at i) i r /\ leaving (op_at i) = true /\ V = U).

Lemma exec_apart K n i e g g' U (x := reach_block l (seq i n) 0 U) :
  (exists s0 t, segment (length (Ops b)) (Segments (Unit b)) K = Some (s0, t) /\ (s0 <= i)%nat /\ (i + n)%nat = t /\ (t <= length (Ops b))%nat) ->
  length e = i -> Stop g = None -> covers FLAG_ALL U -> apart U g g' -> Z.land x.1 FLAG_NZCV = 0 ->
  let M := exec_nodes (mkMachine e g) (take n (drop i l)) in let M' := exec_nodes (mkMachine e g') (take n (drop i l)) in
  Env M' = Env M /\ exists V, apart V (G M) (G M') /\ forall r, Stop (G M) = Some r -> left_at K x.2 V r.
Proof using Htidy Hgood.
  unfold x. clear x. revert i e g g' U. induction n as [|n IH]; intros i e g g' U (s0 & t & Hs & H1 & H2 & H3) Hi Hm HU Hg HL; cbv zeta.
  { cbn [take]. split; [done|]. exists U. split; [done|]. intros r Hr. change (Stop g = Some r) in Hr. by rewrite Hm in Hr. }
  destruct (lookup_lt_is_Some_2 l i ltac:(rewrite (gd_length _ _ _ Hgood); lia)) as [c Hx]. rewrite (drop_S _ _ _ Hx). cbn [take]. rewrite !nodes_cons. cbn [G]. rewrite (same_but_stop _ _ _ Hg), Hm.
  cbn [seq reach_block] in HL |- *. rewrite Hx in HL |- *. cbn [mbind option_bind id] in HL |- *.
  assert (HR : match c with Some n0 => reach_block l (seq (S i) n) (Z.lor 0 (Z.land (Read (Classify n0)) U)) (Z.land U (Z.lnot (Write (Classify n0)))) | None => reach_block l (seq (S i) n) 0 U end =
    let y := reach_block [c] [0%nat] 0 U in (Z.lor y.1 (reach_block l (seq (S i) n) 0 y.2).1, (reach_block l (seq (S i) n) 0 y.2).2)).
  { cbn. destruct c as [n0|]; cbn; [apply reach_block_live|by rewrite reach_block_live]. }
  set (y := reach_block [c] [0%nat] 0 U) in *. unfold id in HL |- *. rewrite HR in HL |- *. cbv zeta in HL |- *. cbn [fst snd] in HL |- *. apply no_live in HL as [HL1 HL2].
  destruct (node_apart c e g g' U HU HL1 Hg) as [E1 A1]. fold y in A1. assert (HU2 : covers FLAG_ALL y.2) by (by apply (reach_block_range [c] [0%nat] 0 U)).
  pose proof (node_env (mkMachine e g) c) as HE. cbn [Env] in HE. rewrite Hi in HE.
  assert (Hst : forall r, Stop (G (step_node (mkMachine e g) c)) = Some r -> exists o, c = Some (Keep o) /\ stop_of o i r) by (intros r Hr; rewrite <- Hi; by apply (node_stop (mkMachine e g))).
  destruct (step_node (mkMachine e g) c) as [e1 g1]. destruct (step_node (mkMachine e g') c) as [e1' g1']. cbn [Env G] in *. subst e1'.
  destruct (Stop g1) as [r|] eqn:Er.
  - rewrite !(exec_stopped_nodes _ _ r) by (try done; cbn [G]; by rewrite (same_but_stop _ _ _ A1)). split; [done|]. exists y.2. split; [done|]. intros r' Hr. cbn [G] in Hr. rewrite Er in Hr. injection Hr as <-.
    destruct (Hst r eq_refl) as (o & Hc & Hso). destruct (stop_leaves _ _ _ Hso) as [Hf|Hlv]; [by left|]. right.
    destruct (positions_suffix b K n i ltac:(by exists s0, t)) as [post Hp].
    assert (Hnode : node_at l i = Some (Keep o)) by (unfold node_at; by rewrite Hx, Hc). assert (Hop : op_at i = o).
    { pose proof (gd_blocks _ _ _ Hgood K) as HB. destruct (ok_from_refines b Htidy _ _ _ _ i HB) as (L & Hr); [rewrite Hp; apply elem_of_app; right; by left|].
      rewrite Hnode in Hr. inversion Hr; subst; [done|discriminate Hlv]. }
    assert (n = 0)%nat as ->.
    { destruct n as [|k]; [done|]. exfalso. rewrite seq_S, rev_app_distr in Hp. cbn in Hp. pose proof (last_leaves b Htidy K _ _ Hp i) as Hx1.
      rewrite Hop, Hlv in Hx1. specialize (Hx1 ltac:(apply elem_of_app; right; by left)). done. }
    exists i, post. rewrite Hop. by split_and!.
  - apply (IH (S i)); [exists s0, t; split_and!; [done|lia|lia|done]|done|done|done|done|done].
Qed.

(** ** Blocks *)

Hypothesis (Hnum : numbered b) (Hlen : length (BlockMap s') = NextBlock (Unit b)).

Lemma plain_reach K ps U : HasFlags b K = false -> (forall i, i ∈ ps -> i ∈ positions K) -> reach_block l ps 0 U = (0, U).
Proof using Htidy Hgood.
  intros Hf. induction ps as [|i ps IH]; intros Hps; [done|]. cbn [reach_block]. fold (node_at l i). destruct (node_at l i) as [n|] eqn:En; [|by apply IH; intros j Hj; apply Hps; right].
  destruct (ok_from_refines b Htidy _ _ _ _ i (gd_blocks _ _ _ Hgood K) ltac:(apply Hps; by left)) as (L & Hr). rewrite En in Hr.
  destruct (plain_node b _ _ _ _ (plain_positions b Htidy K i Hf ltac:(apply Hps; by left)) Hr) as [-> ->]. rewrite Z.land_0_l, Z.land_m1_r. apply IH. intros j Hj. apply Hps. by right.
Qed.

Lemma through_nodes K U : through b l K U = reach_block l (rev (positions K)) 0 U.
Proof using Htidy Hgood. unfold through. destruct (HasFlags b K) eqn:Hf; [done|]. symmetry. apply (plain_reach K); [done|]. intros i Hi. by apply list_elem_of_In, in_rev, list_elem_of_In. Qed.

(** The flags that may differ at the head of a block. *)
Definition open_flags (K : nat) : Z := if decide (0 < K < NextBlock (Unit b))%nat then Undefined s' K else -1.

Inductive level : UnitPoint -> UnitPoint -> Prop :=
  | level_block K Prev V g g' : Stop g = None -> apart (open_flags K) g g' -> level (AtBlock K Prev V g) (AtBlock K Prev V g')
  | level_exit PC h g g' : apart (-1) g g' -> level (Outside PC h g) (Outside PC h g')
  | level_trap g g' : apart (-1) g g' -> level (Trapped g) (Trapped g').

Lemma apart_any U g g' : apart U g g' -> apart (-1) g g'.
Proof using. apply same_but_mono. intros k. change (Z.lnot (-1)) with 0. by rewrite Z.bits_0. Qed.

Lemma apart_less U U' g g' : covers U' U -> apart U g g' -> apart U' g g'.
Proof using.
  intros Hc. apply same_but_mono. intros k Hk. destruct (Z.ltb_spec k 0); [by rewrite Z.testbit_neg_r in Hk|]. rewrite Z.lnot_spec in * by done. destruct (Z.testbit U k) eqn:E; [by rewrite (Hc k E) in Hk|done].
Qed.

Lemma apart_next K K' U g g' : K <> 0%nat -> in_range s' K -> U = (through b l K (Undefined s' K)).2 -> K' ∈ successors b (exit_node (positions K) l) -> apart U g g' -> apart (open_flags K') g g'.
Proof using Hset Hnodes Hlen.
  intros H0 HK -> Hin Hg. unfold open_flags. destruct (decide _) as [Hr|_]; [|by eapply apart_any]. destruct (Hset K H0 HK) as [_ H]. rewrite Hnodes in H.
  eapply apart_less; [|exact Hg]. apply H; [done|]. unfold in_range. rewrite Hlen. lia.
Qed.

Lemma level_after K M M' U V p : K <> 0%nat -> in_range s' K -> U = (through b l K (Undefined s' K)).2 ->
  Env M' = Env M -> apart V (G M) (G M') -> (forall r, Stop (G M) = Some r -> left_at K U V r) -> after_block b K M = Some p -> exists p', after_block b K M' = Some p' /\ level p p'.
Proof using Hset Hnodes Hlen.
  intros H0 HK HU HE HV HL. unfold after_block. rewrite (same_but_stop _ _ _ HV), HE. destruct (Stop (G M)) as [r|] eqn:Er; [|done]. specialize (HL r eq_refl).
  pose proof (same_but_resume _ _ _ HV) as HV'. assert (Htrap : Some (Trapped (G M)) = Some p -> exists p', Some (Trapped (G M')) = Some p' /\ level p p').
  { intros [= <-]. eexists. split; [reflexivity|]. apply level_trap. by eapply apart_any. }
  destruct HL as [(w & A & ->)|(i & ps & Hp & Hn & Hst & Hl & ->)]; [exact Htrap|].
  assert (Hx : exit_node (positions K) l = Some (i, Keep (op_at i))). { rewrite Hp. cbn. unfold node_at in Hn. destruct (l !! i) as [x|]; [|done]. cbn in Hn. by subst x. }
  assert (Hnext : forall K', K' ∈ successors b (Some (i, Keep (op_at i))) -> level (AtBlock K' (Some K) (Env M) (resume (G M))) (AtBlock K' (Some K) (Env M) (resume (G M')))).
  { intros K' Hin. apply level_block; [done|]. eapply apart_next; [done|done|exact HU|by rewrite Hx|exact HV']. }
  destruct r as [r|w A|K'|j t|PC h]; cbn [stop_of] in Hst; [exact Htrap|exact Htrap|..].
  - intros [= <-]. eexists. split; [reflexivity|]. apply Hnext. rewrite Hst. by left.
  - destruct Hst as (-> & c & Hc). rewrite Hc in Hnext. cbn [successors] in Hnext. destruct t; cbn [mbind option_bind].
    + destruct (assoc i (TrueBlock (Unit b))) as [K'|]; [|done]. intros [= <-]. eexists. split; [reflexivity|]. apply Hnext, elem_of_app. left. by left.
    + destruct (assoc i (FalseBlock (Unit b))) as [K'|]; [|done]. intros [= <-]. eexists. split; [reflexivity|]. apply Hnext, elem_of_app. right. by left.
  - intros [= <-]. eexists. split; [reflexivity|]. apply level_exit. by eapply apart_any.
Qed.

Lemma step_level p p' q : level p p' -> step_nodes b l Perm junk junk_flags p = Some q -> exists q', step_nodes b l Perm junk junk_flags p' = Some q' /\ level q q'.
Proof using Htidy Hgood Hset Hnodes Hrange Hlen Hnum.
  intros [K Prev V g g' Hs Hg|PC h g g' Hg|g g' Hg]; cbn [step_nodes]; [|intros [= <-]; eexists; split; [reflexivity|by constructor]..].
  unfold run_block_nodes. destruct (segment _ _ K) as [[s0 e]|] eqn:Es; [|done]. cbn [mbind option_bind]. intros Hq. pose proof (Hnum _ _ _ Es) as HK.
  destruct (segment_bounds _ _ _ _ _ (td_sorted _ Htidy) (td_bound _ Htidy) Es) as [Hb _]. assert (HK' : in_range s' K) by (unfold in_range; rewrite Hlen; lia).
  unfold open_flags in Hg. rewrite decide_True in Hg by done. assert (Hps : rev (positions K) = seq s0 (e - s0)) by (unfold DeadFlags.positions; by rewrite Es, rev_involutive).
  destruct (Hset K ltac:(lia) HK') as [HL _]. rewrite Hnodes in HL. pose proof (through_nodes K (Undefined s' K)) as Ht. rewrite Hps in Ht. rewrite Ht in HL.
  destruct (exec_apart K (e - s0) s0 (head_values b junk s0 K Prev V) g g' (Undefined s' K)) as (H1 & V' & H2 & H3); [|apply head_values_length|done|apply Hrange|exact Hg|exact HL|].
  - exists s0, e. split_and!; [done|lia..].
  - rewrite <- Ht in H3. eapply level_after; [|exact HK'|reflexivity|exact H1|exact H2|exact H3|exact Hq]. lia.
Qed.
End Apart.

(** ** The verdict *)

(** Runs that differ in the flags only. *)
Inductive but_flags : UnitPoint -> UnitPoint -> Prop :=
  | but_block K Prev V g f : but_flags (AtBlock K Prev V g) (AtBlock K Prev V (set_flags g f))
  | but_exit PC h g f : but_flags (Outside PC h g) (Outside PC h (set_flags g f))
  | but_trap g f : but_flags (Trapped g) (Trapped (set_flags g f)).

Lemma level_flags b s p p' : level b s p p' -> but_flags p p'.
Proof. intros [K Prev V g g' _ (f & -> & _)|PC h g g' (f & -> & _)|g g' (f & -> & _)]; constructor. Qed.

Lemma reach_zero l ps : reach_block l ps 0 0 = (0, 0).
Proof. induction ps as [|i ps IH]; [done|]. cbn [reach_block]. destruct (l !! i ≫= id) as [n|]; [|exact IH]. rewrite Z.land_0_r. exact IH. Qed.

Lemma zero_settled b s K : Undefined s K = 0 -> settled b s K.
Proof.
  intros H. unfold settled. rewrite H. assert (He : through b (Nodes s) K 0 = (0, 0)) by (unfold through; by destruct (HasFlags b K); [apply reach_zero|]).
  rewrite He. split; [done|]. intros K' _ _ k. by rewrite Z.bits_0.
Qed.

Lemma verdict_settles b K s :
  queued s [] -> Worklist s = [] -> (forall X, Undefined s X = 0) -> K <> 0%nat -> in_range s K -> EntryNZCVLiveIn b K s = Some false ->
  exists s', Nodes s' = Nodes s /\ length (BlockMap s') = length (BlockMap s) /\ undefined_range s' /\ covers (Undefined s' K) FLAG_NZCV /\
    forall X, X <> 0%nat -> in_range s' X -> settled b s' X.
Proof.
  intros HQ HW HU H0 HK HE. unfold EntryNZCVLiveIn in HE. apply bind_Some in HE as ([Lf s'] & Hr & HE). injection HE as HE. apply negb_false_iff, Z.eqb_eq in HE.
  assert (HR : undefined_range s) by (intros X; rewrite HU; intros k; by rewrite Z.bits_0).
  destruct (put_undefined s K FLAG_NZCV [] HQ HR) as (Q1 & R1 & _); [done|rewrite HU; intros k; by rewrite Z.bits_0|by rewrite HU|done|].
  set (s1 := Put s K (set_undefined FLAG_NZCV)) in *. assert (L1 : length (BlockMap s1) = length (BlockMap s)) by apply Put_length.
  assert (Q1' : queued s1 (Worklist s1)) by (change (Worklist s1) with (Worklist s); by rewrite HW). assert (HK1 : in_range s1 K) by (unfold in_range; by rewrite L1).
  destruct (queue_add s1 K Q1' HK1) as (Q2 & O2 & _ & I2). cbv zeta in *. destruct (queue_only_undefined _ _ O2 R1) as [R2 _]. pose proof O2 as (N2 & L2 & H2).
  destruct (reach_settles b (flow_fuel b) 0 (AddWorklist s1 K) Lf s' Q2 R2) as (_ & E2 & E3 & E4 & E6 & E5); [|exact Hr|exact HE|].
  - intros X HX Hin. destruct (decide (X = K)) as [->|Hne]; [left; by apply I2|]. right. apply zero_settled. rewrite (proj2 (proj2 (H2 X))). unfold s1. rewrite Get_Put, decide_False by (intros [? _]; congruence). apply HU.
  - exists s'. split_and!; [by rewrite E2, N2|by rewrite E3, L2|done| |].
    { etrans; [apply E6|]. rewrite (proj2 (proj2 (H2 K))). unfold s1. by rewrite Get_Put, decide_True. }
    intros X HX Hin. apply E5; [done|]. unfold in_range in *. by rewrite <- E3.
Qed.

(** A unit that is found to read no flag of its entry runs the same whatever
    they are. *)
Theorem LiveIn_sound b NZCVDeadAtTarget DisableDFCEStoreElim NoWriteArmDisabled K Order r :
  tidy b -> numbered b -> order_ok b (K :: Order) -> K <> 0%nat -> Run b NZCVDeadAtTarget DisableDFCEStoreElim NoWriteArmDisabled (K :: Order) = Some r -> RLiveIn r = false ->
  forall Perm junk junk_flags g f N q, Stop g = None -> run_nodes b (RNodes r) Perm junk junk_flags N (AtBlock K None [] g) = Some q ->
  exists q', run_nodes b (RNodes r) Perm junk junk_flags N (AtBlock K None [] (set_flags g f)) = Some q' /\ but_flags q q'.
Proof.
  intros Ht Hn HO H0 Hr HL Perm junk junk_flags g f N q Hg Hq.
  destruct (Run_returns b Ht NZCVDeadAtTarget DisableDFCEStoreElim NoWriteArmDisabled (K :: Order) HO) as (s & r' & Hr' & Hs & HN & _ & HW & HQ & Hlen & HU & HE).
  rewrite Hr in Hr'. injection Hr' as <-. specialize (HE K Order eq_refl). rewrite HL in HE. apply Forall_cons in HO as [HK _]. rewrite HN in *.
  destruct (verdict_settles b K s HQ HW HU H0) as (s' & N' & L' & R' & C' & S'); [unfold in_range; by rewrite Hlen|done|]. rewrite Hlen in L'.
  assert (H : exists q', run_nodes b (Nodes s) Perm junk junk_flags N (AtBlock K None [] (set_flags g f)) = Some q' /\ level b s' q q').
  { revert q Hq. induction N as [|N IH]; intros q Hq; cbn [run_nodes] in *.
    - injection Hq as <-. eexists. split; [reflexivity|]. apply level_block; [done|]. unfold open_flags. rewrite decide_True by lia.
      exists f. split; [done|]. apply agree_none, Z.bits_inj'. intros k Hk. rewrite Z.land_spec, Z.lnot_spec, Z.bits_0 by done.
      destruct (Z.testbit FLAG_NZCV k) eqn:E; [by rewrite (C' k E)|by rewrite andb_false_r].
    - apply bind_Some in Hq as (q1 & Hq1 & Hq). destruct (IH q1 Hq1) as (q1' & -> & H1). cbn [mbind option_bind].
      by apply (step_level b Ht NZCVDeadAtTarget s s' Hs N' R' S' Perm (junk N) (junk_flags N) Hn L' q1 q1'). }
  destruct H as (q' & Hq' & Hl). exists q'. split; [done|by eapply level_flags].
Qed.
