(* ===== verification/UnitCorrect.v ===== *)
(** A compile as a whole: the decoder's unit, the IR of its blocks and their
    execution, against the Arm machine on the program in memory. *)
From S2P Require Import Prelude DecodeTable A64Common IR ArmSpec IRLogic BlockBuilder Branch DataProcessing SystemSpec A64Rows Frontend FrontendSpec InstSpec Decoder DecoderSlots DecoderSpec.
From S2P Require Import GenerateIR UnitExec BlockLogic ExitSpec BranchSpec BlockSpec UnitEmit BlockEnds UnitSpec UnitDecode DeadFlags DeadFlagsFlow DeadFlagsSim DeadFlagsReach.
From stdpp Require Import strings.
Open Scope Z_scope.
Import Decoder.

(** ** An entry that cannot be decoded *)

Definition entry_reason (st : DecodedBlockStatus) : BreakDefinition := match st with UNALIGNED_PC => mkBreak 0 SIGBUS 0 1 | _ => mkBreak 0 SIGSEGV 0 2 end.

Lemma fault_ir NoRegionCache PC st m Buffer b0 :
  IsSuccess st = false -> Buffer !! 0%nat = Some (mkInst PC 0 m) ->
  GenerateIR NoRegionCache PC Buffer [mkBlock PC 0 1 0 st true 0 0] b0 =
  mkBuilder [OGuestOpcode (PC - PC); OEntrypointOffset (PC - PC); OStoreContextPC 1; OBreak (entry_reason st)] (CurrentPC b0) PC empty_cache 0 1 [] 0 true
    (mkUnit [(PC, mkTarget 1 true true false None)] [(1%nat, 0%nat)] [] [] [] 2 []).
Proof.
  intros Hst Hi. destruct Buffer as [|x Buffer]; [done|]. injection Hi as ->. unfold GenerateIR. rewrite bind_snd. unfold BeginFunction, bind at 1 2. cbn. rewrite Z.eqb_refl. cbn. unfold bind. cbn.
  unfold generate_block, SetNewBlockIfChanged, bind. cbn. rewrite Z.eqb_refl. cbn. destruct st; [done|..]; cbn; by rewrite ?Z.eqb_refl.
Qed.

Lemma fault_exec NoRegionCache PC st m Buffer b0 junk g (b := GenerateIR NoRegionCache PC Buffer [mkBlock PC 0 1 0 st true 0 0] b0) :
  IsSuccess st = false -> Buffer !! 0%nat = Some (mkInst PC 0 m) -> in_width 64 PC -> guest_ok g ->
  unit_entry b g = Some (AtBlock 1 None [] g) /\ unit_step b junk (AtBlock 1 None [] g) = Some (Trapped (set_trap (set_pcslot (set_marker g PC) PC) (entry_reason st))).
Proof.
  intros Hst Hi HPC (_ & _ & Hs). unfold b. rewrite (fault_ir _ _ _ _ _ _ Hst Hi). clear b Hi. split; [unfold unit_entry; cbn; by rewrite Z.eqb_refl|].
  assert (Hu : u64 (PC + (PC - PC)) = PC) by (replace (PC + (PC - PC)) with PC by lia; by apply wrap_small).
  unfold unit_step, run_block. cbn. unfold exec. cbn [foldl]. unfold run_op at 4. cbn. rewrite Hs. cbn. rewrite Hu. unfold run_op at 3. cbn. rewrite Hs. cbn. rewrite Hu.
  unfold run_op at 2. cbn. rewrite Hs. cbn. unfold run_op. cbn. rewrite Hs. done.
Qed.

(** ** A compile *)

Section Compile.
Context (cfg : Config) (Query : option (Z -> Z * Z)) (now ex : Z -> Prop) (HQ : ExecutableQuery Query now ex)
        (Memory : Z -> Z) (DecodeInstruction : Z -> option InstMatcher) (PC MaxInst : Z) (n : nat) (d d' : t)
        (Hh : history ex n d) (Hn : Z.of_nat n + 1 < 2 ^ 29) (He : entry_ok cfg PC) (HM : 0 <= MaxInst) (HMI : 0 <= MaxInstPerBlock cfg)
        (Hd : DecodeInstructionsAtEntry cfg Query Memory DecodeInstruction PC MaxInst d = Some d').
Context (GP NoRegionCache : bool) (b0 : Builder).

(** The IR of the unit, by a builder that is left from another one. *)
Definition unit_ir : Builder := GenerateIR NoRegionCache PC (DecodedBuffer d') (Blocks (BlockInfo d')) b0.

(** What the decoder gives is what the emission needs. *)
Lemma compile_shape : PC mod 4 = 0 -> range_executable now PC 4 -> words_ok cfg Memory DecodeInstruction (BlockInfo d') GP -> calls_ok Memory DecodeInstruction PC (BlockInfo d') ->
  unit_shape GP (SMCICache cfg) (program Memory DecodeInstruction) (DecodedBuffer d') (Blocks (BlockInfo d')) PC.
Proof using HQ Hh Hn He HM HMI Hd.
  intros H4 Hex Hw Hc. destruct (compile_unit cfg Query now ex HQ Memory DecodeInstruction PC MaxInst n d Hh Hn He HM HMI H4 Hex) as (d1 & Heq & _ & Hu).
  rewrite Hd in Heq. injection Heq as <-. by eapply shape_ok.
Qed.

(** C1. A compile unit runs as the Arm machine does.  Whatever the builder of the
    thread was left with and whatever the unspecified values are, the IR of the
    unit that the decoder makes at an executable entry is never stuck, and after
    any number of its blocks the guest is that of the Arm machine after some
    number of instructions of the program, at the head of the block, or outside
    at the address it was left for, or stopped by the signal or the fault of that
    instruction; each block makes progress.  The hypotheses: the compile is one
    of the first 2^29 of its decoder and its entry keeps away from the top of the
    address space ([entry_ok]); the words of the unit are modelled ones or match
    no row ([words_ok]); and a BL of the unit that stays in the unit goes to its
    entry ([calls_ok], [UnitWitness.inner_call_diverges] shows why).  The Arm
    machine fetches the program as it was when the unit was decoded. *)
Theorem compile_correct junk g :
  PC mod 4 = 0 -> range_executable now PC 4 -> words_ok cfg Memory DecodeInstruction (BlockInfo d') GP -> calls_ok Memory DecodeInstruction PC (BlockInfo d') -> guest_ok g ->
  exists p0, unit_entry unit_ir g = Some p0 /\
    forall N, exists p k, unit_run unit_ir junk N p0 = Some p /\ agrees unit_ir p (arm_go (program Memory DecodeInstruction) k (PC, g)) /\ (running p -> (N <= k)%nat).
Proof using HQ Hh Hn He HM HMI Hd.
  intros H4 Hex Hw Hc Hg. eapply (unit_runs GP (SMCICache cfg)); [|done]. by apply compile_shape.
Qed.

(** C4. The unit of an entry that is misaligned, or has a byte that was not
    executable since the cached range was last reset, raises its signal: SIGBUS
    with BUS_ADRALN, or SIGSEGV with SEGV_ACCERR, with the guest as it was and
    its PC in the context.  As everywhere here, the entry keeps away from the top
    of the address space ([entry_ok]): for the last word CheckRangeExecutable
    wraps and answers yes. *)
Theorem entry_fault_raises junk g :
  (PC mod 4 = 0 -> ~ range_executable ex PC 4) -> guest_ok g ->
  exists p0, unit_entry unit_ir g = Some p0 /\ forall N, (0 < N)%nat -> unit_run unit_ir junk N p0 =
    Some (Trapped (set_trap (set_pcslot (set_marker g PC) PC) (if PC mod 4 =? 0 then mkBreak 0 SIGSEGV 0 2 else mkBreak 0 SIGBUS 0 1))).
Proof using HQ Hh Hn He HM HMI Hd.
  intros Hno Hg. destruct (decode_faults cfg Query now ex HQ Memory DecodeInstruction PC MaxInst n d Hh Hn He HM HMI Hno) as (d1 & Heq & _ & (HB & (m & Hi) & _)).
  rewrite Hd in Heq. injection Heq as <-. unfold unit_ir. rewrite HB. cbn [Blocks]. assert (HPC : in_width 64 PC) by (destruct He as (? & ? & ?); split; [done|change (2 ^ 64) with 18446744073709551616 in *; lia]).
  set (st := if PC mod 4 =? 0 then NOEXEC_INST else UNALIGNED_PC) in *. assert (Hst : IsSuccess st = false) by (unfold st; by destruct (PC mod 4 =? 0)).
  set (b := GenerateIR _ _ _ _ _). exists (AtBlock 1 None [] g). split; [by eapply (fault_exec NoRegionCache PC st m _ b0 (junk 0%nat))|].
  assert (Hr : entry_reason st = if PC mod 4 =? 0 then mkBreak 0 SIGSEGV 0 2 else mkBreak 0 SIGBUS 0 1) by (unfold st; by destruct (PC mod 4 =? 0)). rewrite <- Hr.
  intros N HN. destruct N as [|N]; [lia|clear HN]. induction N as [|N IH].
  - by eapply (fault_exec NoRegionCache PC st m _ b0 (junk 0%nat)).
  - cbn [unit_run] in *. by rewrite IH.
Qed.

(** ** The dead-flag pass on a compile *)


(** C3. Under the same hypotheses, and with the block the unit is entered at the
    first that the pass visits, a unit that it finds to read no flag of its entry
    ([EntryNZCVLiveIn]) does not depend on them: from any two settings of the
    flags its result goes through the same blocks to the same exit or signal,
    with the same registers and memory, whatever the lowerings with a permission
    overwrite. *)
Theorem entry_flags_unread NZCVDeadAtTarget DisableDFCEStoreElim NoWriteArmDisabled K Order r g :
  PC mod 4 = 0 -> range_executable now PC 4 -> words_ok cfg Memory DecodeInstruction (BlockInfo d') GP -> calls_ok Memory DecodeInstruction PC (BlockInfo d') -> guest_ok g ->
  order_ok unit_ir (K :: Order) -> unit_entry unit_ir g = Some (AtBlock K None [] g) ->
  Run unit_ir NZCVDeadAtTarget DisableDFCEStoreElim NoWriteArmDisabled (K :: Order) = Some r -> RLiveIn r = false ->
  forall Permission junk junk_flags f N p, run_nodes unit_ir (RNodes r) Permission junk junk_flags N (AtBlock K None [] g) = Some p ->
  exists p', run_nodes unit_ir (RNodes r) Permission junk junk_flags N (AtBlock K None [] (set_flags g f)) = Some p' /\ but_flags p p'.
Proof using HQ Hh Hn He HM HMI Hd.
  intros H4 Hex Hw Hc Hg HO Hen Hr HL Permission junk junk_flags f N p Hp. pose proof (compile_shape H4 Hex Hw Hc) as Hs.
  pose proof (entry_numbered _ _ NoRegionCache _ _ _ _ b0 g K Hs Hen) as H0.
  eapply LiveIn_sound; [by eapply unit_tidy|intros X s e; by eapply unit_numbered|exact HO|lia|exact Hr|exact HL|apply Hg|exact Hp].
Qed.
End Compile.
