(* ===== verification/UnitWitness.v ===== *)
(** Compile units of small programs: ones that the theorems on compiles apply
    to, one whose inner call reads a register of a region it did not come from,
    and one that loses the fault of a load in the dead-flag pass. *)
From S2P Require Import Prelude DecodeTable A64Common IR ArmSpec IRLogic BlockBuilder Branch DataProcessing SystemSpec A64Rows Frontend FrontendSpec InstSpec Decoder DecoderSlots DecoderLayout DecoderSpec.
From S2P Require Import GenerateIR UnitExec BlockLogic ExitSpec BranchSpec BlockSpec UnitEmit UnitSpec UnitDecode DeadFlags DeadFlagsFlow DeadFlagsSim DeadFlagsReach UnitCorrect.
From stdpp Require Import strings.
Open Scope Z_scope.
Import Decoder.

(** ** A decoder over the modelled rows *)

Definition fitsb (p : Pattern) (w : Z) : bool := Z.land w (PMask p) =? PExpect p.

(** The first row that the word fits, with the handler of its name. *)
Definition row_decode (GP IC : bool) (w : Z) : option InstMatcher :=
  match List.find (fun r => fitsb (pattern r.2) w) A64Rows with
  | Some (n, bits) => Some (mkMatcher n (PMask (pattern bits)) (PExpect (pattern bits)) (FindHandler (HandlerTable GP IC) n) 0)
  | None => None
  end.

Definition word_modelled (GP IC : bool) (w : Z) : bool :=
  (0 <=? w) && (w <? 2 ^ 32) && negb (w =? THUNK_MARKER_WORD) &&
  match List.find (fun r => fitsb (pattern r.2) w) A64Rows with
  | Some (n, _) => existsb (fun r => String.eqb r.1 n) (HandlerTable GP IC)
  | None => true
  end.

Lemma row_decode_resolved GP IC Memory a :
  in_width 64 a -> word_modelled GP IC (Memory a) = true -> Memory a <> THUNK_MARKER_WORD /\ resolved GP IC (program Memory (row_decode GP IC) a).
Proof.
  intros Ha Hm. unfold word_modelled in Hm. rewrite !andb_true_iff, negb_true_iff in Hm. destruct Hm as [[[H0 H1] Ht%Z.eqb_neq] Hm].
  assert (Hw : in_width 32 (Memory a)) by (split; lia). split; [done|]. split; [done|]. split; [done|]. unfold program, row_decode. cbn [Matcher Word IPC].
  destruct (List.find _ A64Rows) as [[nm bits]|] eqn:Hf; [|done]. apply find_some in Hf as [Hin Hfit]. cbn [MName Handler]. split.
  - rewrite FindHandler_first. destruct (List.find (fun p => String.eqb p.1 nm) (HandlerTable GP IC)) as [[n' h]|] eqn:E; [by exists h|].
    apply existsb_exists in Hm as (x & Hx & He). by rewrite (find_none _ _ E x Hx) in He.
  - exists bits. split; [by apply list_elem_of_In|]. split; [done|]. by apply Z.eqb_eq.
Qed.

(** A program of words from 0x10000 on. *)
Definition words_from (ws : list Z) (a : Z) : Z := nth (Z.to_nat ((a - 0x10000) / 4)) ws 0.

Lemma words_modelled GP IC ws cfg i :
  SMCICache cfg = IC -> forallb (fun a => (0 <=? a) && (a <? 2 ^ 64) && word_modelled GP IC (words_from ws a)) (concat (addrs <$> Blocks i)) = true ->
  words_ok cfg (words_from ws) (row_decode GP IC) i GP.
Proof.
  intros <- H a Ha. rewrite forallb_forall in H. apply list_elem_of_In in Ha. specialize (H a Ha). rewrite !andb_true_iff in H. destruct H as [[H0 H1] Hm].
  apply row_decode_resolved; [split; lia|done].
Qed.

Abbreviation demo_unit ws := (DecodeInstructionsAtEntry sample_config (Some sample_query) (words_from ws) (row_decode false false) 0x10000 0 initial_decoder).

Definition demo_stack (a : Z) : bool := (0x7000 <=? a) && (a <? 0x8000).
Definition demo_guest : Guest := mkGuest (repeat 0 31 ++ [0x8000]) (mkNZCV false false false false) 0 (mkMemory (fun _ => 0) demo_stack demo_stack) 0 None.

Definition demo_builder : Builder := mkBuilder [] 0 0 empty_cache 0 0 [] 0 false empty_unit.
Definition demo_decoder (ws : list Z) : t := default initial_decoder (demo_unit ws).
Abbreviation demo_ir ws := (unit_ir 0x10000 (demo_decoder ws) false demo_builder).
Abbreviation demo_program ws := (program (words_from ws) (row_decode false false)).

(** The words of the unit that the decoder makes of [ws] are modelled. *)
Definition demo_modelled (ws : list Z) : bool :=
  match demo_unit ws with
  | Some d' => forallb (fun a => (0 <=? a) && (a <? 2 ^ 64) && word_modelled false false (words_from ws a)) (concat (addrs <$> Blocks (BlockInfo d')))
  | None => false
  end.

Lemma demo_words_ok ws : demo_modelled ws = true ->
  demo_unit ws = Some (demo_decoder ws) /\ words_ok sample_config (words_from ws) (row_decode false false) (BlockInfo (demo_decoder ws)) false.
Proof.
  unfold demo_modelled, demo_decoder. destruct (demo_unit ws) as [d'|]; [|done]. intros H. split; [done|]. cbn [default]. by apply words_modelled.
Qed.

(** No BL among the words. *)
Definition no_calls (ws : list Z) : bool :=
  forallb (fun a => match row_decode false false (words_from ws a) with Some m => negb (String.eqb (MName m) "BL") | None => true end)
    (concat (addrs <$> Blocks (BlockInfo (demo_decoder ws)))).

Lemma no_calls_ok ws : no_calls ws = true -> calls_ok (words_from ws) (row_decode false false) 0x10000 (BlockInfo (demo_decoder ws)).
Proof.
  intros H a m Ha Hm Hb. unfold no_calls in H. rewrite forallb_forall in H. apply list_elem_of_In in Ha. specialize (H a Ha). rewrite Hm, Hb in H. discriminate H.
Qed.

Lemma demo_guest_ok : guest_ok demo_guest.
Proof. split_and!; [done| |done]. by apply Forall_in_widthb. Qed.

(** ** A loop *)

(** movz x9, #3; movz x10, #0; add x10, x10, #7; sub x9, x9, #1; cbnz x9 to the
    add; str x10, [sp, #-16]!; ret. *)
Definition loop_words : list Z := [0xD2800069; 0xD280000A; 0x91001D4A; 0xD1000529; 0xB5FFFFC9; 0xF81F0FEA; 0xD65F03C0].

(** Five blocks later the unit has been left through x30. *)
Definition loop_result : option (Z * list Z) :=
  match p ← unit_entry (demo_ir loop_words) demo_guest; unit_run (demo_ir loop_words) (fun _ _ => 77) 5 p with
  | Some (Outside PC _ g) => Some (PC, map (reg g) [9; 10; 31]%nat)
  | _ => None
  end.

Lemma compile_correct_witness :
  (exists p0, unit_entry (demo_ir loop_words) demo_guest = Some p0 /\ forall N, exists p k, unit_run (demo_ir loop_words) (fun _ _ => 77) N p0 = Some p /\
    agrees (demo_ir loop_words) p (arm_go (demo_program loop_words) k (0x10000, demo_guest)) /\ (running p -> (N <= k)%nat)) /\
  loop_result = Some (0, [0; 21; 0x7FF0]) /\ RegionPred (Unit (demo_ir loop_words)) = [(3, 2)%nat].
Proof.
  split; [|split; vm_compute; reflexivity].
  assert (H : forall ws, demo_modelled ws = true -> no_calls ws = true ->
    exists p0, unit_entry (demo_ir ws) demo_guest = Some p0 /\ forall N, exists p k, unit_run (demo_ir ws) (fun _ _ => 77) N p0 = Some p /\
      agrees (demo_ir ws) p (arm_go (demo_program ws) k (0x10000, demo_guest)) /\ (running p -> (N <= k)%nat)).
  { intros ws Hm Hc. destruct (demo_words_ok ws Hm) as [Hd Hw].
    refine (compile_correct sample_config (Some sample_query) _ _ sample_contract (words_from ws) (row_decode false false) 0x10000 0 0 initial_decoder (demo_decoder ws)
      (history_start _) _ (proj1 sample_entry) _ _ Hd false false demo_builder (fun _ _ => 77) demo_guest _ sample_executable Hw (no_calls_ok ws Hc) demo_guest_ok); [lia|lia|done|reflexivity]. }
  apply H; vm_compute; reflexivity.
Defined.

(** ** Dead flags *)

(** movz x9, #3; movz x10, #0; adds x10, x10, #7; subs x9, x9, #1; b.ne to the
    adds; ret. *)
Definition flag_words : list Z := [0xD2800069; 0xD280000A; 0xB1001D4A; 0xF1000529; 0x54FFFFC1; 0xD65F03C0].
Definition all_blocks (b : Builder) : list nat := seq 1 (NextBlock (Unit b) - 1).
Definition live_exit (i : nat) : bool := false.
Abbreviation demo_run ws := (Run (demo_ir ws) live_exit false false (all_blocks (demo_ir ws))).
Definition demo_result (ws : list Z) : Result := default (mkResult [] [] true) (demo_run ws).
Definition flags_of (n : nat) : NZCV := mkNZCV true false true true.

(** The result after [n] blocks, with other values in removed nodes and other
    flags where they may be overwritten. *)
Definition optimised_after (ws : list Z) (n : nat) (g : Guest) : option UnitPoint :=
  run_nodes (demo_ir ws) (RNodes (demo_result ws)) (permits (demo_result ws)) (fun _ _ => 55) (fun _ => flags_of) n (AtBlock 1 None [] g).
Definition point_regs (p : option UnitPoint) : option (Z * list Z * NZCV) :=
  match p with Some (Outside PC _ g) => Some (PC, map (reg g) [9; 10]%nat, IR.Flags g) | _ => None end.

Lemma all_blocks_ok b : order_ok b (all_blocks b).
Proof. apply Forall_forall. intros K HK%elem_of_seq. lia. Qed.

Definition demo_compile_ok (ws : list Z) : bool := demo_modelled ws && no_calls ws.

(** A compile of the words, as the theorems on compiles have it. *)
Lemma demo_hypotheses ws : demo_compile_ok ws = true ->
  demo_unit ws = Some (demo_decoder ws) /\ words_ok sample_config (words_from ws) (row_decode false false) (BlockInfo (demo_decoder ws)) false /\
  calls_ok (words_from ws) (row_decode false false) 0x10000 (BlockInfo (demo_decoder ws)).
Proof. intros [Hm Hc]%andb_prop. destruct (demo_words_ok ws Hm) as [Hd Hw]. split; [done|]. split; [done|]. by apply no_calls_ok. Qed.


Definition enters_first (b : Builder) : bool := match unit_entry b demo_guest with Some (AtBlock K _ _ _) => Nat.eqb K 1 | _ => false end.

(** The unit is entered at its first block, reads no flag of its entry and runs
    for five blocks. *)
Definition reads_no_flags (ws : list Z) : bool :=
  demo_compile_ok ws && (1 <? NextBlock (Unit (demo_ir ws)))%nat &&
  enters_first (demo_ir ws) &&
  match demo_run ws with
  | Some r => negb (RLiveIn r) && if run_nodes (demo_ir ws) (RNodes r) (permits r) (fun _ _ => 55) (fun _ => flags_of) 5 (AtBlock 1 None [] demo_guest) then true else false
  | None => false
  end.

Lemma first_entered b : enters_first b = true -> unit_entry b demo_guest = Some (AtBlock 1 None [] demo_guest).
Proof. unfold enters_first, unit_entry. destruct (find_target _ _) as [t|]; [|done]. cbn. by intros ->%Nat.eqb_eq. Qed.

Lemma blocks_cons b : (1 <? NextBlock (Unit b))%nat = true -> all_blocks b = 1%nat :: tail (all_blocks b).
Proof. intros H%Nat.ltb_lt. unfold all_blocks. destruct (NextBlock (Unit b) - 1)%nat as [|k] eqn:E; [lia|done]. Qed.

Lemma flag_words_unread : reads_no_flags flag_words = true.
Proof. vm_compute. reflexivity. Qed.

Abbreviation opt_nodes ws r g := (run_nodes (demo_ir ws) (RNodes r) (permits r) (fun _ _ => 55) (fun _ => flags_of) 5 (AtBlock 1 None [] g)).

Lemma unread_hypotheses ws : reads_no_flags ws = true ->
  demo_compile_ok ws = true /\ unit_entry (demo_ir ws) demo_guest = Some (AtBlock 1 None [] demo_guest) /\ order_ok (demo_ir ws) (1%nat :: tail (all_blocks (demo_ir ws))) /\
  exists r p, Run (demo_ir ws) live_exit false false (1%nat :: tail (all_blocks (demo_ir ws))) = Some r /\ RLiveIn r = false /\ opt_nodes ws r demo_guest = Some p.
Proof.
  intros [[[Hws Hb]%andb_prop He%first_entered]%andb_prop Hr]%andb_prop. split; [done|]. split; [done|]. rewrite <- (blocks_cons _ Hb). split; [apply all_blocks_ok|].
  destruct (Run _ _ _ _ _) as [r|]; [|done]. apply andb_prop in Hr as [HL%negb_true_iff Hp].
  destruct (opt_nodes ws r demo_guest) as [p|] eqn:Ep; [|done]. exists r, p. split; [reflexivity|]. split; [exact HL|exact Ep].
Qed.

(** No flag of the entry is read before the loop sets them. *)
Lemma entry_flags_unread_witness :
  exists r p p', Run (demo_ir flag_words) live_exit false false (1%nat :: tail (all_blocks (demo_ir flag_words))) = Some r /\ opt_nodes flag_words r demo_guest = Some p /\
    opt_nodes flag_words r (set_flags demo_guest (mkNZCV true true true true)) = Some p' /\ but_flags p p'.
Proof.
  destruct (unread_hypotheses flag_words flag_words_unread) as (Hws & He & HO & r & p & ER & HL & Ep). destruct (demo_hypotheses flag_words Hws) as (Hd & Hw & Hc).
  destruct (entry_flags_unread sample_config (Some sample_query) _ _ sample_contract (words_from flag_words) (row_decode false false) 0x10000 0 0 initial_decoder (demo_decoder flag_words)
      (history_start _) ltac:(lia) (proj1 sample_entry) ltac:(lia) ltac:(done) Hd false false demo_builder live_exit false false 1 (tail (all_blocks (demo_ir flag_words))) r demo_guest
      ltac:(reflexivity) sample_executable Hw Hc demo_guest_ok HO He ER HL (permits r) (fun _ _ => 55) (fun _ => flags_of) (mkNZCV true true true true) 5 p Ep) as (p' & Hp' & Hpp).
  exists r, p, p'. split; [exact ER|]. split; [exact Ep|]. split; [exact Hp'|exact Hpp].
Defined.

(** ** A removed load *)

(** cmp x0, x1; ldr xzr, [x9]; ret. *)
Definition drop_words : list Z := [0xEB01001F; 0xF940013F; 0xD65F03C0].
Definition faults_at (p : option UnitPoint) (a : Z) : bool := match p with Some (Trapped g) => match Stop g with Some (SFault false a') => a' =? a | _ => false end | _ => false end.

(** The point has left the unit for address 0. *)
Definition left_at_zero (p : option UnitPoint) : bool := match p with Some (Outside PC HintReturn _) => PC =? 0 | _ => false end.

(** A load that the dead-flag pass loses, since LoadMem counts as free of side
    effects: the Arm machine and the emitted unit stop with the fault of the load, and the
    result of the pass leaves the unit as if there were none. *)
Example removed_load_diverges :
  demo_unit drop_words = Some (demo_decoder drop_words) /\ words_ok sample_config (words_from drop_words) (row_decode false false) (BlockInfo (demo_decoder drop_words)) false /\
  enters_first (demo_ir drop_words) = true /\
  Stop (arm_go (demo_program drop_words) 2 (0x10000, demo_guest)).2 = Some (SFault false 0) /\
  (forall junk, faults_at (unit_run (demo_ir drop_words) junk 1 (AtBlock 1 None [] demo_guest)) 0 = true) /\
  forall junk junk_flags, left_at_zero (r ← demo_run drop_words; run_nodes (demo_ir drop_words) (RNodes r) (permits r) junk junk_flags 1 (AtBlock 1 None [] demo_guest)) = true.
Proof.
  destruct (demo_words_ok drop_words ltac:(vm_compute; reflexivity)) as [Hd Hw]. split; [exact Hd|]. split; [exact Hw|]. split; [vm_compute; reflexivity|].
  split; [vm_compute; reflexivity|]. split; [intros junk; vm_compute; reflexivity|]. intros junk junk_flags. vm_compute. reflexivity.
Qed.

(** ** A misaligned entry *)

Lemma entry_fault_raises_witness : exists d' p0,
  DecodeInstructionsAtEntry sample_config (Some sample_query) (words_from []) (row_decode false false) 0x20002 0 initial_decoder = Some d' /\
  unit_entry (unit_ir 0x20002 d' false demo_builder) demo_guest = Some p0 /\
  unit_run (unit_ir 0x20002 d' false demo_builder) (fun _ _ => 77) 1 p0 =
    Some (Trapped (set_trap (set_pcslot (set_marker demo_guest 0x20002) 0x20002) (mkBreak 0 SIGBUS 0 1))).
Proof.
  destruct (decode_faults sample_config (Some sample_query) _ _ sample_contract (words_from []) (row_decode false false) 0x20002 0 0 initial_decoder
    (history_start _) ltac:(lia) (proj2 sample_entry) ltac:(lia) ltac:(done) ltac:(done)) as (d' & Hd & _). exists d'.
  destruct (entry_fault_raises sample_config (Some sample_query) _ _ sample_contract (words_from []) (row_decode false false) 0x20002 0 0 initial_decoder d'
    (history_start _) ltac:(lia) (proj2 sample_entry) ltac:(lia) ltac:(done) Hd false demo_builder (fun _ _ => 77) demo_guest ltac:(done) demo_guest_ok) as (p0 & He & Hr).
  exists p0. split; [exact Hd|]. split; [exact He|]. exact (Hr 1%nat ltac:(lia)).
Defined.

(** ** An inner call *)

(** movz x9, #1; b to the next word; add x10, x9, #1; cbz x30 over the ret; ret;
    movz x9, #2; bl to the add. *)
Definition call_words : list Z := [0xD2800029; 0x14000001; 0x9100052A; 0xB400005E; 0xD65F03C0; 0xD2800049; 0x97FFFFFC].

(** The registers that the unit leaves with, after five blocks; a value of a
    region that was not entered from its predecessor is what the host register
    had: 1. *)
Definition left_after (b : Builder) : option UnitPoint := p ← unit_entry b demo_guest; unit_run b (fun _ _ => 1) 5 p.
Definition left_with (p : option UnitPoint) (PC x10 : Z) : bool :=
  match p with Some (Outside PC' _ g) => (PC' =? PC) && (reg g 10 =? x10) | _ => false end.

(** The states of the Arm machine, one instruction after the other. *)
Fixpoint arm_states (fetch : Z -> DecodedInst) (n : nat) (c : Z * Guest) : list (Z * Guest) :=
  match n with O => [c] | S n => c :: arm_states fetch n (arm_tick fetch c) end.

Lemma arm_states_lookup fetch n c k : (k <= n)%nat -> arm_states fetch n c !! k = Some (arm_go fetch k c).
Proof. revert c k. induction n as [|n IH]; intros c k Hk; destruct k as [|k]; try done; [lia|]. cbn. apply IH. lia. Qed.

Lemma arm_states_all fetch n c P :
  forallb P (arm_states fetch n c) = true -> trapped (Stop (arm_go fetch n c).2) = true -> forall k, P (arm_go fetch k c) = true.
Proof.
  intros HP Ht k. rewrite forallb_forall in HP. apply HP, list_elem_of_In. destruct (decide (k <= n)%nat) as [Hk|Hk]; [by apply (list_elem_of_lookup_2 _ k), arm_states_lookup|].
  apply (list_elem_of_lookup_2 _ n). rewrite arm_states_lookup by lia. f_equal. replace k with (n + (k - n))%nat by lia. rewrite arm_go_add. symmetry. apply arm_go_stopped. by apply trapped_stop.
Qed.

Lemma call_apart k : let c := arm_go (demo_program call_words) k (0x10000, demo_guest) in negb ((c.1 =? 0x1001C) && (reg c.2 10 =? 2)) = true.
Proof. apply (arm_states_all _ 10 _ (fun c => negb ((c.1 =? 0x1001C) && (reg c.2 10 =? 2)))); vm_compute; reflexivity. Qed.

Lemma left_apart b prog :
  left_with (left_after b) 0x1001C 2 = true -> (forall k, let c := arm_go prog k (0x10000, demo_guest) in negb ((c.1 =? 0x1001C) && (reg c.2 10 =? 2)) = true) ->
  exists p0 p, unit_entry b demo_guest = Some p0 /\ unit_run b (fun _ _ => 1) 5 p0 = Some p /\ forall k, ~ agrees b p (arm_go prog k (0x10000, demo_guest)).
Proof.
  intros H Hno. unfold left_after in H. destruct (unit_entry b demo_guest) as [p0|]; [|done]. cbn [mbind option_bind] in H. destruct (unit_run b _ 5 p0) as [p|] eqn:Hp; [|done].
  exists p0, p. split; [done|]. split; [done|]. intros k Ha. unfold left_with in H. destruct p as [|PC h g|]; try done. cbn [agrees] in Ha. specialize (Hno k). rewrite <- Ha in Hno.
  cbn [fst snd] in Hno. by rewrite H in Hno.
Qed.

(** The hypothesis on calls is needed.  The unit of this program has a BL
    back into a block of its own that the census gives one predecessor, since a
    BL is no edge of it; the block goes on with that predecessor's register
    cache, and when the BL enters it, it reads the register that was cached
    there: the unit leaves with x10 = 2, where the Arm machine never is. *)
Example inner_call_diverges :
  demo_unit call_words = Some (demo_decoder call_words) /\
  words_ok sample_config (words_from call_words) (row_decode false false) (BlockInfo (demo_decoder call_words)) false /\ guest_ok demo_guest /\
  exists p0 p, unit_entry (demo_ir call_words) demo_guest = Some p0 /\ unit_run (demo_ir call_words) (fun _ _ => 1) 5 p0 = Some p /\
    forall k, ~ agrees (demo_ir call_words) p (arm_go (demo_program call_words) k (0x10000, demo_guest)).
Proof.
  destruct (demo_words_ok call_words ltac:(vm_compute; reflexivity)) as [Hd Hw]. split; [exact Hd|]. split; [exact Hw|]. split; [exact demo_guest_ok|].
  apply left_apart; [vm_compute; reflexivity|exact call_apart].
Qed.
