(* ===== verification/NZCVScan.v ===== *)
(** The scan of guest code for dead condition flags
    (FEXCore/Source/Interface/Core/JIT/PPC64LE/NZCVExitCensus.cpp and .h) and
    the policy that takes its verdicts for the constant exits of a unit
    (FEXCore/Source/Interface/Core/A64Frontend/NZCVPeek.cpp and .h).

    The scan reads guest words through a callback with a state of its own
    ([ReadWordFn] and [Opaque]); here the callback is a function of that state
    and the address. *)
From S2P Require Import Prelude IR Decoder.
Open Scope Z_scope.

Module Census.

(** ** The classes of words *)

Inductive WordClass :=
  | WC_NEUTRAL | WC_READER | WC_WRITER | WC_PARTIAL | WC_BRANCH | WC_TWOWAY | WC_CALL | WC_SVC | WC_RET | WC_TERM.
#[export] Instance WordClass_eq_dec : EqDecision WordClass.
Proof. solve_decision. Defined.

(** [Offset]: the displacement in bytes, a signed value. *)
Record Word := mkWord { Kind : WordClass; Offset : Z }.

Definition SignExtend (Value Bits : Z) : Z :=
  let Sign := u32 (Z.shiftl 1 (Bits - 1)) in sgn 32 (u32 (Z.lxor Value Sign - Sign)).

(** [(I >> s) & m]. *)
Definition field (I s m : Z) : Z := Z.land (Z.shiftr I s) m.

Definition ClassifyWordImpl (I : Z) : Word :=
  if Z.shiftr I 26 =? 0x05 then mkWord WC_BRANCH (SignExtend (Z.land I 0x3FFFFFF) 26 * 4)
  else if Z.shiftr I 26 =? 0x25 then mkWord WC_CALL (SignExtend (Z.land I 0x3FFFFFF) 26 * 4)
  else if field I 24 0xFF =? 0x54 then mkWord WC_READER 0
  else
  let Hi7 := field I 24 0x7F in
  if (Hi7 =? 0x34) || (Hi7 =? 0x35) then mkWord WC_TWOWAY (SignExtend (field I 5 0x7FFFF) 19 * 4)
  else if (Hi7 =? 0x36) || (Hi7 =? 0x37) then mkWord WC_TWOWAY (SignExtend (field I 5 0x3FFF) 14 * 4)
  else if field I 25 0x7F =? 0x6B then
    let Opc := field I 21 0xF in
    if (Opc =? 2) || (Opc =? 4) || (Opc =? 5) then mkWord WC_RET 0 else mkWord WC_TERM 0
  else if field I 24 0xFF =? 0xD4 then
    if Z.land I 0xFFE0001F =? 0xD4000001 then mkWord WC_SVC 0 else mkWord WC_TERM 0
  else if Z.land I 0xFFFFFFE0 =? 0xD53B4200 then mkWord WC_READER 0
  else if Z.land I 0xFFFFFFE0 =? 0xD51B4200 then mkWord WC_WRITER 0
  else if (I =? 0xD500401F) || (I =? 0xD500403F) || (I =? 0xD500405F) then mkWord WC_PARTIAL 0
  else if field I 21 0xFF =? 0xD0 then mkWord WC_READER 0
  else if field I 21 0xFF =? 0xD2 then mkWord WC_READER 0
  else if field I 21 0xFF =? 0xD4 then mkWord WC_READER 0
  else if field I 24 0x1F =? 0x0B then
    if negb (field I 29 1 =? 0) then mkWord WC_WRITER 0 else mkWord WC_NEUTRAL 0
  else if field I 24 0x1F =? 0x0A then
    if field I 29 3 =? 3 then mkWord WC_WRITER 0 else mkWord WC_NEUTRAL 0
  else if (Z.shiftr I 21 =? 0x5D0) && (field I 10 0x1F =? 1) && (field I 4 1 =? 0) then mkWord WC_PARTIAL 0
  else if (Z.land I 0xFFFFFC1F =? 0x3A00080D) || (Z.land I 0xFFFFFC1F =? 0x3A00480D) then mkWord WC_PARTIAL 0
  else if field I 23 0x3F =? 0x22 then
    if negb (field I 29 1 =? 0) then mkWord WC_WRITER 0 else mkWord WC_NEUTRAL 0
  else if field I 23 0x3F =? 0x24 then
    if field I 29 3 =? 3 then mkWord WC_WRITER 0 else mkWord WC_NEUTRAL 0
  else if (Z.shiftr I 30 =? 0) && (field I 24 0x1F =? 0x1E) && negb (field I 21 1 =? 0) then
    match field I 10 3 with
    | 0 => if field I 10 0x3F =? 0x08 then mkWord WC_WRITER 0 else mkWord WC_NEUTRAL 0
    | 1 | 3 => mkWord WC_READER 0
    | _ => mkWord WC_NEUTRAL 0
    end
  else mkWord WC_NEUTRAL 0.

(** The class and the displacement. *)
Definition ClassifyGuestWord (Insn : Z) : WordClass * Z := let W := ClassifyWordImpl Insn in (Kind W, Offset W).

Definition ClassifyWord (I : Z) : Word := let '(C, Disp) := ClassifyGuestWord I in mkWord C Disp.

(** ** The extent of the words read *)

Record Witness := mkWitness { Low : Z; High : Z }.

Definition NoWitness : Witness := mkWitness (2 ^ 64 - 1) 0.
Definition Empty (w : Witness) : bool := Low w >? High w.
Definition Note (Address : Z) (w : Witness) : Witness :=
  mkWitness (if Address <? Low w then Address else Low w) (if u64 (Address + 4) >? High w then u64 (Address + 4) else High w).
Definition Merge (Other w : Witness) : Witness :=
  if Empty Other then w
  else mkWitness (if Low Other <? Low w then Low Other else Low w) (if High Other >? High w then High Other else High w).

(** ** The scan *)

Inductive ScanVerdict := SCAN_DEAD | SCAN_LIVE | SCAN_UNRESOLVED.
#[export] Instance ScanVerdict_eq_dec : EqDecision ScanVerdict.
Proof. solve_decision. Defined.

Definition kMaxInsnsPerPath : Z := 48.
Definition kMaxVisitedWords : Z := 96.

Record Frame := mkFrame { FPC : Z; Depth : Z }.

(** The locals of the walk; [Opaque] is the state of the callback, [Out] the
    caller's witness, absent for a null pointer.  The top of the stack is the
    head of the list, and so is the last word seen. *)
Record Walk (C : Type) := mkWalk {
  Stack : list Frame; Seen : list Z; Nodes : Z; Worst : ScanVerdict; Opaque : C; Out : option Witness }.
Arguments mkWalk {C}.
Arguments Stack {C}.
Arguments Seen {C}.
Arguments Nodes {C}.
Arguments Worst {C}.
Arguments Opaque {C}.
Arguments Out {C}.

Definition WasSeen (Seen : list Z) (PC : Z) : bool := existsb (Z.eqb PC) Seen.

Section Scan.
Context {C : Type} (Read : C -> Z -> option Z * C).

(** What the body of the loop over one path ends with: a [break], or a return
    of the function. *)
Inductive Ending := Break (w : Walk C) | Return (v : ScanVerdict) (c : C) (o : option Witness).

Definition visit (w : Walk C) (PC : Z) : Walk C := mkWalk (Stack w) (PC :: Seen w) (Nodes w + 1) (Worst w) (Opaque w) (Out w).
Definition noted (w : Walk C) (PC : Z) (c : C) : Walk C := mkWalk (Stack w) (Seen w) (Nodes w) (Worst w) c (Note PC <$> Out w).
Definition unresolved (w : Walk C) : Walk C := mkWalk (Stack w) (Seen w) (Nodes w) SCAN_UNRESOLVED (Opaque w) (Out w).
Definition push (f : Frame) (w : Walk C) : Walk C := mkWalk (f :: Stack w) (Seen w) (Nodes w) (Worst w) (Opaque w) (Out w).
Definition pop (l : list Frame) (w : Walk C) : Walk C := mkWalk l (Seen w) (Nodes w) (Worst w) (Opaque w) (Out w).
Definition called (c : C) (o : option Witness) (w : Walk C) : Walk C := mkWalk (Stack w) (Seen w) (Nodes w) (Worst w) c o.

Section Loops.
(** The recursive call on a callee; [None] without [FollowBL]. *)
Context (Callee : option (Z -> C -> option Witness -> option (ScanVerdict * C * option Witness))).

(** The loop over one path. *)
Fixpoint scan_path (fuel : nat) (w : Walk C) (PC Depth Path : Z) : option Ending :=
  match fuel with
  | O => None
  | S fuel =>
      if WasSeen (Seen w) PC then Some (Break w)
      else
        let w := visit w PC in
        if (Nodes w >? kMaxVisitedWords) || (Path >? kMaxInsnsPerPath) then Some (Return SCAN_UNRESOLVED (Opaque w) (Out w))
        else
          match Read (Opaque w) PC with
          | (None, c) => Some (Return SCAN_UNRESOLVED c (Out w))
          | (Some Insn, c) =>
              let w := noted w PC c in
              let Depth := u32 (Depth + 1) in
              let Path := Path + 1 in
              let W := ClassifyWord Insn in
              match Kind W with
              | WC_READER => Some (Return SCAN_LIVE (Opaque w) (Out w))
              | WC_WRITER => Some (Break w)
              | WC_PARTIAL | WC_TERM | WC_RET => Some (Break (unresolved w))
              | WC_SVC => scan_path fuel w (u64 (PC + 4)) Depth Path
              | WC_CALL =>
                  match Callee with
                  | None => Some (Break (unresolved w))
                  | Some Scan =>
                      '(v, c, o) ← Scan (u64 (PC + Offset W)) (Opaque w) (Out w);
                      match v with
                      | SCAN_DEAD => Some (Break (called c o w))
                      | SCAN_LIVE => Some (Return SCAN_LIVE c o)
                      | SCAN_UNRESOLVED => Some (Break (unresolved (called c o w)))
                      end
                  end
              | WC_BRANCH => scan_path fuel w (u64 (PC + Offset W)) Depth Path
              | WC_TWOWAY => scan_path fuel (push (mkFrame (u64 (PC + Offset W)) Depth) w) (u64 (PC + 4)) Depth Path
              | WC_NEUTRAL => scan_path fuel w (u64 (PC + 4)) Depth Path
              end
          end
  end.

(** At most [kMaxInsnsPerPath + 1] words are read on a path. *)
Definition path_fuel : nat := Z.to_nat (kMaxInsnsPerPath + 2).

(** The loop over the stack. *)
Fixpoint scan_stack (fuel : nat) (w : Walk C) : option (ScanVerdict * C * option Witness) :=
  match fuel with
  | O => None
  | S fuel =>
      match Stack w with
      | [] => Some (Worst w, Opaque w, Out w)
      | F :: Rest =>
          e ← scan_path path_fuel (pop Rest w) (FPC F) (Depth F) 0;
          match e with
          | Break w => scan_stack fuel w
          | Return v c o => Some (v, c, o)
          end
      end
  end.

(** Every word read pushes at most one frame. *)
Definition stack_fuel : nat := Z.to_nat (kMaxVisitedWords + 3).

Definition scan_from (Target : Z) (c : C) (o : option Witness) : option (ScanVerdict * C * option Witness) :=
  scan_stack stack_fuel (mkWalk [mkFrame Target 0] [] 0 SCAN_DEAD c o).
End Loops.

(** A callee is scanned without following its calls. *)
Definition ScanWitnessed (Target : Z) (FollowBL : bool) (c : C) (o : option Witness) : option (ScanVerdict * C * option Witness) :=
  scan_from (if FollowBL then Some (scan_from None) else None) Target c o.

Definition Scan (Target : Z) (FollowBL : bool) (c : C) : option (ScanVerdict * C) :=
  '(v, c, _) ← ScanWitnessed Target FollowBL c None; Some (v, c).

End Scan.

End Census.

(** * The policy *)

Module NZCVPeek.
Import Census.

Inductive Mode := Off | On | Canary | Strict.
#[export] Instance Mode_eq_dec : EqDecision Mode.
Proof. solve_decision. Defined.

Definition kHullBound : Z := 4 * 1024.

Record Stats := mkStats {
  ExitsSeen : Z; Dead : Z; RefusedScan : Z; RefusedHull : Z; RefusedBelowEntry : Z; Contradictions : Z }.

(** ** Guest words *)

Section Peek.
(** The query for executable memory and the words of guest memory. *)
Context (Query : option (Z -> Z * Z)) (Memory : Z -> Z).

(** The state is the decoder's cached executable range. *)
Definition ReadWord (c : Z * Z) (Address : Z) : option Z * (Z * Z) :=
  if negb (Z.land Address 3 =? 0) then (None, c)
  else match Decoder.CheckRangeExecutable Query c Address Decoder.INSTRUCTION_SIZE with
       | Some (true, c) => (Some (Memory Address), c)
       | Some (false, c) => (None, c)
       | None => (None, c)
       end.

(** ** Exits *)

Inductive BranchHint := HintNone | HintCall | HintReturn | HintCheckTF.
#[export] Instance BranchHint_eq_dec : EqDecision BranchHint.
Proof. solve_decision. Defined.

(** What [NewRIP] is: an immediate of the operation, or the operation that
    computes it. *)
Inductive RIPSource := RIPImmediate | InlineEntrypointOffset (Size : OpSize) (Offset : Z) | InlineConstant (Constant : Z) | RIPOther.

Record ExitFunction := mkExit { Hint : BranchHint; NewRIP : RIPSource; NZCVDeadAtTarget : bool }.

(** The last operation of a block before [EndBlock]. *)
Inductive Terminator := TExit (Op : ExitFunction) | TOther.

Definition set_dead (Op : ExitFunction) : ExitFunction := mkExit (Hint Op) (NewRIP Op) true.

(** The constant destination the policy considers. *)
Definition exit_target (Entry : Z) (Op : ExitFunction) : option Z :=
  if decide (Hint Op = HintReturn) then None
  else match NewRIP Op with
       | RIPImmediate | RIPOther => None
       | InlineEntrypointOffset Size Offset =>
           Some (Z.land (u64 (Entry + Offset)) (if decide (Size = i32Bit) then 0xFFFFFFFF else 2 ^ 64 - 1))
       | InlineConstant Constant => Some (u64 Constant)
       end.

(** The locals of the loop over the blocks, the decoder's cached range and the
    counters. *)
Record Peek := mkPeek { Hull : Witness; AnyDead : bool; PCache : Z * Z; PStats : Stats }.

Definition count (f : Stats -> Stats) (p : Peek) : Peek := mkPeek (Hull p) (AnyDead p) (PCache p) (f (PStats p)).
Definition seen_exit (s : Stats) : Stats := mkStats (u64 (ExitsSeen s + 1)) (Dead s) (RefusedScan s) (RefusedHull s) (RefusedBelowEntry s) (Contradictions s).
Definition refused_scan (s : Stats) : Stats := mkStats (ExitsSeen s) (Dead s) (u64 (RefusedScan s + 1)) (RefusedHull s) (RefusedBelowEntry s) (Contradictions s).
Definition refused_hull (s : Stats) : Stats := mkStats (ExitsSeen s) (Dead s) (RefusedScan s) (u64 (RefusedHull s + 1)) (RefusedBelowEntry s) (Contradictions s).
Definition refused_below (s : Stats) : Stats := mkStats (ExitsSeen s) (Dead s) (RefusedScan s) (RefusedHull s) (u64 (RefusedBelowEntry s + 1)) (Contradictions s).
Definition taken (s : Stats) : Stats := mkStats (ExitsSeen s) (u64 (Dead s + 1)) (RefusedScan s) (RefusedHull s) (RefusedBelowEntry s) (Contradictions s).
Definition contradicted (s : Stats) : Stats := mkStats (ExitsSeen s) (Dead s) (RefusedScan s) (RefusedHull s) (RefusedBelowEntry s) (u64 (Contradictions s + 1)).

(** One block. *)
Definition apply_exit (Entry : Z) (NoWindowCheck : bool) (ISBTargets : list Z) (t : Terminator) (p : Peek) : option (Terminator * Peek) :=
  match t with
  | TOther => Some (t, p)
  | TExit Op =>
      match exit_target Entry Op with
      | None => Some (t, p)
      | Some Target =>
          if negb (Z.land Target 3 =? 0) then Some (t, p)
          else if existsb (Z.eqb Target) ISBTargets then Some (t, p)
          else
            let p := count seen_exit p in
            '(V, c, Out) ← ScanWitnessed ReadWord Target false (PCache p) (Some NoWitness);
            let p := mkPeek (Hull p) (AnyDead p) c (PStats p) in
            let W := default NoWitness Out in
            if negb (bool_decide (V = SCAN_DEAD)) || Empty W then Some (t, count refused_scan p)
            else if (Low W <? Entry) && negb NoWindowCheck then Some (t, count refused_below p)
            else
              let Candidate := Merge W (Hull p) in
              if Empty Candidate || (u64 (High Candidate - Low Candidate) >? kHullBound) then Some (t, count refused_hull p)
              else Some (TExit (set_dead Op), mkPeek Candidate true (PCache p) (taken (PStats p)))
      end
  end.

Fixpoint apply_blocks (Entry : Z) (NoWindowCheck : bool) (ISBTargets : list Z) (ts : list Terminator) (p : Peek) : option (list Terminator * Peek) :=
  match ts with
  | [] => Some ([], p)
  | t :: ts =>
      '(t, p) ← apply_exit Entry NoWindowCheck ISBTargets t p;
      '(ts, p) ← apply_blocks Entry NoWindowCheck ISBTargets ts p;
      Some (t :: ts, p)
  end.

Definition with_peek (d : Decoder.t) (c : Z * Z) (i : Decoder.DecodedBlockInformation) : Decoder.t :=
  Decoder.mkDecoder c (Decoder.DecodedBuffer d) (Decoder.DecSlots d) (Decoder.Generation d) i.

(** The decoded extent, if it is not empty. *)
Definition unit_hull (i : Decoder.DecodedBlockInformation) : Witness :=
  if Decoder.DecodedMinAddress i <? Decoder.DecodedMaxAddress i
  then mkWitness (Decoder.DecodedMinAddress i) (Decoder.DecodedMaxAddress i) else NoWitness.

Definition Apply (ts : list Terminator) (Entry : Z) (M : Mode) (NoWindowCheck : bool) (ISBTargets : list Z) (Dec : Decoder.t) (st : Stats)
    : option (list Terminator * Decoder.t * Stats) :=
  if decide (M = Off) then Some (ts, Dec, st)
  else match ts with
  | [] => Some (ts, Dec, st)
  | _ =>
      let i := Decoder.BlockInfo Dec in
      '(ts, p) ← apply_blocks Entry NoWindowCheck ISBTargets ts (mkPeek (unit_hull i) false (Decoder.ExecutableRange Dec) st);
      if AnyDead p then
        i ← Decoder.AddPeekWitnessRange (Low (Hull p)) (High (Hull p)) i;
        Some (ts, with_peek Dec (PCache p) i, PStats p)
      else Some (ts, with_peek Dec (PCache p) i, PStats p)
  end.

(** The result of the tripwire; [Died] in strict mode. *)
Inductive Tripwire := Checked (Dec : Decoder.t) (st : Stats) | Died.

Definition NoteUnitCompiled (Entry : Z) (EntryNZCVLiveIn : bool) (M : Mode) (Dec : Decoder.t) (st : Stats) : option Tripwire :=
  if decide (M = Off) then Some (Checked Dec st)
  else if negb EntryNZCVLiveIn then Some (Checked Dec st)
  else
    '(V, c) ← Scan ReadWord Entry false (Decoder.ExecutableRange Dec);
    let Dec := with_peek Dec c (Decoder.BlockInfo Dec) in
    if negb (bool_decide (V = SCAN_DEAD)) then Some (Checked Dec st)
    else if decide (M = Strict) then Some Died
    else Some (Checked Dec (contradicted st)).

(** The classes the scan walks through. *)
Definition ScanPassesThrough (C : WordClass) : bool :=
  match C with WC_NEUTRAL | WC_WRITER | WC_BRANCH | WC_TWOWAY | WC_SVC => true | _ => false end.

End Peek.
End NZCVPeek.
