(* ===== verification/NZCVScanSpec.v ===== *)
(** What the scan for dead flags guarantees: it returns within its budget, and
    a DEAD verdict means that the guest cannot see the flags from the target
    on, as long as the words of the witness stay what they are.

    [nzcv_dead] is the greatest set of addresses closed under the moves the
    scan follows; [Machine] and [NZCVTable] are what the verdict relies on of
    the guest and of the table of word classes. *)
From S2P Require Import Prelude IR Decoder NZCVScan.
From stdpp Require Import gmap.
Open Scope Z_scope.
Import Census.

(** ** Dead code addresses *)

(** Where control goes after a word the scan passes; a writer of all flags ends
    the path, and [None] is a word that it does not pass. *)
Definition follows (pc : Z) (W : Word) : option (list Z) :=
  match Kind W with
  | WC_WRITER => Some []
  | WC_NEUTRAL | WC_SVC => Some [u64 (pc + 4)]
  | WC_BRANCH | WC_CALL => Some [u64 (pc + Offset W)]
  | WC_TWOWAY => Some [u64 (pc + Offset W); u64 (pc + 4)]
  | WC_READER | WC_PARTIAL | WC_RET | WC_TERM => None
  end.

(** The word at [pc] is passed, and leads only to [S]. *)
Definition passes (code : Z -> option Z) (S : Z -> Prop) (pc : Z) : Prop :=
  exists w l, code pc = Some w /\ follows pc (ClassifyWord w) = Some l /\ Forall S l.

Definition nzcv_dead (code : Z -> option Z) (pc : Z) : Prop :=
  exists S : Z -> Prop, (forall q, S q -> passes code S q) /\ S pc.

Lemma passes_mono code code' (S S' : Z -> Prop) pc :
  (forall w, code pc = Some w -> code' pc = Some w) -> (forall q, S q -> S' q) -> passes code S pc -> passes code' S' pc.
Proof. intros Hc HS (w & l & Hw & Hf & Hl). exists w, l. split; [by apply Hc|]. split; [done|]. by eapply Forall_impl. Qed.

(** The greatest set is closed, and contains what is closed up to it. *)
Lemma dead_unfold code pc : nzcv_dead code pc -> passes code (nzcv_dead code) pc.
Proof. intros (S & HS & Hpc). eapply passes_mono; [done| |by apply HS]. intros q Hq. by exists S. Qed.

Lemma dead_coind code (S : Z -> Prop) pc :
  (forall q, S q -> passes code (fun r => S r \/ nzcv_dead code r) q) -> S pc -> nzcv_dead code pc.
Proof.
  intros HS Hpc. exists (fun r => S r \/ nzcv_dead code r). split; [|by left]. intros q [Hq|Hq]; [by apply HS|].
  eapply passes_mono; [done| |by apply dead_unfold]. by right.
Qed.

Lemma dead_mono code code' pc : (forall a w, code a = Some w -> code' a = Some w) -> nzcv_dead code pc -> nzcv_dead code' pc.
Proof.
  intros Hc (S & HS & Hpc). exists S. split; [|done]. intros q Hq.
  eapply passes_mono; [intros w; apply Hc|done|by apply HS].
Qed.

(** ** Witnesses *)

(** [Address + 4] wraps at the last word of the address space, so a witness
    never covers it. *)
Definition last_word : Z := 2 ^ 64 - 4.

Definition witnessed (o : option Witness) (a : Z) : Prop :=
  match o with Some W => (Low W <= a /\ a + 4 <= High W) \/ a = last_word | None => True end.
#[export] Instance witnessed_dec o a : Decision (witnessed o a).
Proof. destruct o; apply _. Defined.

(** The code as far as it is witnessed. *)
Definition within (o : option Witness) (code : Z -> option Z) (a : Z) : option Z :=
  if decide (witnessed o a) then code a else None.

(** The extents that occur: nothing but the last word, or a range. *)
Definition extent_ok (W : Witness) : Prop :=
  0 <= Low W /\ High W < 2 ^ 64 /\ ((High W = 0 /\ last_word <= Low W) \/ Low W + 4 <= High W).

Definition wider (o o' : option Witness) : Prop :=
  (forall a, witnessed o a -> witnessed o' a) /\
  match o, o' with Some W, Some W' => extent_ok W -> extent_ok W' | None, None => True | _, _ => False end.

#[export] Instance wider_preorder : PreOrder wider.
Proof.
  split; [by intros [o|]; split|]. intros [o1|] [o2|] [o3|] [H1 H2] [H3 H4]; (split; [auto|]); try done. auto.
Qed.

Lemma within_wider o o' code a w : wider o o' -> within o code a = Some w -> within o' code a = Some w.
Proof. intros [H _]. unfold within. destruct (decide (witnessed o a)) as [Ha|]; [|done]. rewrite decide_True by (by apply H). done. Qed.

Lemma dead_wider o o' code pc : wider o o' -> nzcv_dead (within o code) pc -> nzcv_dead (within o' code) pc.
Proof. intros H. apply dead_mono. intros a w. by apply within_wider. Qed.

Lemma note_wider o a : 0 <= a < 2 ^ 64 -> a mod 4 = 0 -> wider o (Note a <$> o).
Proof.
  intros Ha H4. destruct o as [W|]; [|by split]. split; [intros b; cbn; destruct (Z.ltb_spec a (Low W)), (Z.gtb_spec (u64 (a + 4)) (High W)); cbn; lia|].
  unfold extent_ok. cbn. destruct (decide (a = last_word)) as [->|Hn].
  - replace (u64 (last_word + 4)) with 0 by reflexivity. unfold last_word. destruct (Z.ltb_spec (2 ^ 64 - 4) (Low W)), (Z.gtb_spec 0 (High W)); lia.
  - unfold last_word in Hn. assert (a + 4 < 2 ^ 64) by (pose proof (Z.div_mod a 4); lia). rewrite u64_small by lia.
    destruct (Z.ltb_spec a (Low W)), (Z.gtb_spec (a + 4) (High W)); lia.
Qed.

Lemma note_witnessed o a : 0 <= a < 2 ^ 64 -> a mod 4 = 0 -> witnessed (Note a <$> o) a.
Proof.
  intros Ha H4. destruct o as [W|]; [|done]. cbn. destruct (decide (a = last_word)) as [|Hn]; [by right|left]. unfold last_word in Hn.
  assert (a + 4 < 2 ^ 64) by (pose proof (Z.div_mod a 4); lia). rewrite u64_small by lia.
  destruct (Z.ltb_spec a (Low W)), (Z.gtb_spec (a + 4) (High W)); cbn; lia.
Qed.

(** ** The invariant of the walk *)

Section Walks.
Context {C : Type} (Read : C -> Z -> option Z * C) (code : Z -> option Z).
(** The callback returns words of the code, at aligned addresses. *)
Hypothesis read_code : forall c a w, 0 <= a < 2 ^ 64 -> (Read c a).1 = Some w -> code a = Some w /\ a mod 4 = 0.
#[local] Set Default Proof Using "Type*".

Definition pending (w : Walk C) (P : list Z) (q : Z) : Prop :=
  q ∈ Seen w \/ q ∈ FPC <$> Stack w \/ q ∈ P \/ nzcv_dead (within (Out w) code) q.

Record winv (root : Z) (w : Walk C) (P : list Z) : Prop := {
  wi_root : pending w P root;
  wi_range : Forall (in_width 64) ((FPC <$> Stack w) ++ P);
  wi_seen : Worst w = SCAN_DEAD -> forall q, q ∈ Seen w -> passes (within (Out w) code) (pending w P) q }.

(** What the recursive call promises. *)
Definition callee_ok (Callee : Z -> C -> option Witness -> option (ScanVerdict * C * option Witness)) : Prop :=
  forall T c o v c' o', in_width 64 T -> Callee T c o = Some (v, c', o') -> wider o o' /\ (v = SCAN_DEAD -> nzcv_dead (within o' code) T).

(** One word more has been read: it joins [Seen], the stack may grow and what
    is to be visited next is [P]. *)
Lemma winv_step root w w' PC P :
  winv root w [PC] -> Seen w' = PC :: Seen w -> (forall f, f ∈ Stack w -> f ∈ Stack w') -> wider (Out w) (Out w') ->
  Forall (in_width 64) ((FPC <$> Stack w') ++ P) ->
  (Worst w' = SCAN_DEAD -> Worst w = SCAN_DEAD /\ passes (within (Out w') code) (pending w' P) PC) -> winv root w' P.
Proof.
  intros [Hr _ Hs] HSeen HStack HOut Hrange HW.
  assert (Hp : forall q, pending w [PC] q -> pending w' P q).
  { intros q [Hq|[Hq|[Hq|Hq]]]; unfold pending; rewrite HSeen.
    - left. by apply elem_of_cons; right.
    - right; left. apply list_elem_of_fmap in Hq as (f & -> & Hf). apply list_elem_of_fmap_2. by apply HStack.
    - left. apply list_elem_of_singleton in Hq as ->. apply list_elem_of_here.
    - right; right; right. by eapply dead_wider. }
  split; [by apply Hp|done|]. intros Hd q. rewrite HSeen. destruct (HW Hd) as [Hd' Hpc].
  intros [->|Hq]%elem_of_cons; [done|]. eapply passes_mono; [|exact Hp|by apply Hs]. intros x. by apply within_wider.
Qed.

Definition ending_ok (root : Z) (w : Walk C) (e : Ending) : Prop :=
  match e with
  | Break w' => winv root w' [] /\ wider (Out w) (Out w')
  | Return v _ o => v <> SCAN_DEAD /\ wider (Out w) o
  end.

Lemma ending_trans root w w' e : wider (Out w) (Out w') -> ending_ok root w' e -> ending_ok root w e.
Proof. intros H. destruct e as [w2|v c o]; cbn; intros [H1 H2]; (split; [done|by etrans]). Qed.

(** The moves of the path: to the next word [next], with [stack] pushed. *)
Lemma move_winv root w PC c Insn next stack :
  winv root w [PC] -> in_width 64 PC -> Read (Opaque w) PC = (Some Insn, c) ->
  Forall (in_width 64) (next ++ (FPC <$> stack)) ->
  (exists l, follows PC (ClassifyWord Insn) = Some l /\ forall q, q ∈ l -> q ∈ next \/ q ∈ FPC <$> stack) ->
  winv root (mkWalk (stack ++ Stack w) (PC :: Seen w) (Nodes w + 1) (Worst w) c (Note PC <$> Out w)) next.
Proof.
  intros Hw HPC HR Hrange (l & Hf & Hl). destruct (read_code (Opaque w) PC Insn HPC) as [Hcode H4]; [by rewrite HR|].
  eapply winv_step; [exact Hw|done|intros f Hf'; cbn; apply elem_of_app; by right|by apply note_wider| |].
  - cbn. apply Forall_app in Hrange as [H1 H2]. pose proof (wi_range _ _ _ Hw) as H3. apply Forall_app in H3 as [H3 _].
    rewrite fmap_app, !Forall_app. done.
  - intros Hd. cbn in Hd. split; [done|]. exists Insn, l. split; [|split; [done|]].
    + unfold within. cbn. rewrite decide_True; [done|]. by apply note_witnessed.
    + apply Forall_forall. intros q Hq. unfold pending. cbn. rewrite fmap_app, elem_of_app. destruct (Hl q Hq); [by right; right; left|by right; left; left].
Qed.

(** A break that leaves the path unresolved. *)
Lemma unresolved_winv root w PC c o :
  winv root w [PC] -> wider (Out w) o -> winv root (mkWalk (Stack w) (PC :: Seen w) (Nodes w + 1) SCAN_UNRESOLVED c o) [].
Proof.
  intros Hw Ho. eapply winv_step; [exact Hw|done|done|done| |done].
  pose proof (wi_range _ _ _ Hw) as H. apply Forall_app in H as [H _]. cbn. by rewrite app_nil_r.
Qed.

Lemma call_winv root w PC c c' Insn T o :
  winv root w [PC] -> in_width 64 PC -> Read (Opaque w) PC = (Some Insn, c) ->
  follows PC (ClassifyWord Insn) = Some [T] -> wider (Note PC <$> Out w) o -> nzcv_dead (within o code) T ->
  winv root (mkWalk (Stack w) (PC :: Seen w) (Nodes w + 1) (Worst w) c' o) [].
Proof.
  intros Hw HPC HR Hf Ho HT. destruct (read_code (Opaque w) PC Insn HPC) as [Hcode H4]; [by rewrite HR|].
  pose proof (wi_range _ _ _ Hw) as H. apply Forall_app in H as [H _].
  eapply winv_step; [exact Hw|done|done|etrans; [by apply note_wider|exact Ho]|cbn; by rewrite app_nil_r|].
  intros Hd. split; [done|]. exists Insn, [T]. split; [|split; [done|]].
  - eapply within_wider; [exact Ho|]. unfold within. rewrite decide_True; [done|]. by apply note_witnessed.
  - apply Forall_singleton. by right; right; right.
Qed.

Section Loops.
Context (Callee : option (Z -> C -> option Witness -> option (ScanVerdict * C * option Witness))).
Hypothesis Callee_ok : if Callee is Some f then callee_ok f else True.
#[local] Set Default Proof Using "Type*".

Lemma u64_width x : in_width 64 (u64 x).
Proof. apply wrap_range. lia. Qed.

(** A word seen before needs no visit. *)
Lemma seen_winv root w PC : winv root w [PC] -> WasSeen (Seen w) PC = true -> winv root w [].
Proof.
  intros [H1 H2 H3] Hseen. apply existsb_exists in Hseen as (q & Hin & ->%Z.eqb_eq). apply list_elem_of_In in Hin. apply Forall_app in H2 as [H2 _].
  assert (Hp : forall r, pending w [q] r -> pending w [] r) by (unfold pending; intros r [|[|[->%list_elem_of_singleton|]]]; tauto).
  split; [by apply Hp|by rewrite app_nil_r|]. intros Hd r Hr. eapply passes_mono; [done|exact Hp|by apply H3].
Qed.

(** A path leaves the invariant, or the scan. *)
Lemma path_winv root fuel w PC D P e :
  winv root w [PC] -> in_width 64 PC -> scan_path Read Callee fuel w PC D P = Some e -> ending_ok root w e.
Proof.
  revert w PC D P e. induction fuel as [|fuel IH]; intros w PC D P e Hw HPC; [done|]. cbn [scan_path].
  destruct (WasSeen (Seen w) PC) eqn:Hseen.
  { intros [= <-]. split; [by eapply seen_winv|done]. }
  destruct (_ || _); [by intros [= <-]|]. cbn [visit Opaque].
  destruct (Read (Opaque w) PC) as [[Insn|] c] eqn:HR; [|by intros [= <-]].
  assert (Hnote : wider (Out w) (Note PC <$> Out w)) by (destruct (read_code (Opaque w) PC Insn HPC); [by rewrite HR|by apply note_wider]).
  assert (Hgo : forall next stack D' P', Forall (in_width 64) (next :: (FPC <$> stack)) ->
    (exists l, follows PC (ClassifyWord Insn) = Some l /\ forall q, q ∈ l -> q ∈ [next] \/ q ∈ FPC <$> stack) ->
    scan_path Read Callee fuel (mkWalk (stack ++ Stack w) (PC :: Seen w) (Nodes w + 1) (Worst w) c (Note PC <$> Out w)) next D' P' = Some e ->
    ending_ok root w e).
  { intros next stack D' P' Hr Hf He. eapply ending_trans; [|eapply IH; [|by apply Forall_cons in Hr as [? _]|exact He]]; [exact Hnote|].
    by eapply move_winv. }
  unfold noted, visit. cbn [Stack Seen Nodes Worst Opaque Out].
  destruct (Kind (ClassifyWord Insn)) eqn:HK.
  - apply (Hgo _ []); [constructor; [apply u64_width|constructor]|]. unfold follows. rewrite HK. eexists. split; [done|]. tauto.
  - intros [= <-]. split; [done|exact Hnote].
  - intros [= <-]. split; [|exact Hnote]. apply (move_winv root w PC c Insn [] []); [done|done|done|constructor|].
    unfold follows. rewrite HK. eexists. split; [done|]. by intros q ?%elem_of_nil.
  - intros [= <-]. split; [|exact Hnote]. apply (unresolved_winv root w); [done|exact Hnote].
  - apply (Hgo _ []); [constructor; [apply u64_width|constructor]|]. unfold follows. rewrite HK. eexists. split; [done|]. tauto.
  - apply (Hgo _ [mkFrame _ _]); [repeat constructor; apply u64_width|]. unfold follows. rewrite HK. eexists. split; [done|].
    intros q [->|?]%elem_of_cons; [right; apply list_elem_of_here|by left].
  - destruct Callee as [f|].
    + destruct (f _ _ _) as [[[v c'] o]|] eqn:Hcall; [|done]. cbn [mbind option_bind]. apply Callee_ok in Hcall as [Hwide Hdead]; [|apply u64_width].
      assert (Hwide' : wider (Out w) o) by (etrans; [exact Hnote|done]).
      destruct v; intros [= <-]; (split; [|done]).
      * eapply (call_winv root w); [done|done|exact HR| |done|by apply Hdead]. unfold follows. by rewrite HK.
      * done.
      * by apply (unresolved_winv root w).
    + intros [= <-]. split; [|exact Hnote]. apply (unresolved_winv root w); [done|exact Hnote].
  - apply (Hgo _ []); [constructor; [apply u64_width|constructor]|]. unfold follows. rewrite HK. eexists. split; [done|]. tauto.
  - intros [= <-]. split; [|exact Hnote]. apply (unresolved_winv root w); [done|exact Hnote].
  - intros [= <-]. split; [|exact Hnote]. apply (unresolved_winv root w); [done|exact Hnote].
Qed.

(** With the stack empty, what was seen is closed. *)
Lemma stack_dead root fuel w v c o :
  winv root w [] -> scan_stack Read Callee fuel w = Some (v, c, o) -> wider (Out w) o /\ (v = SCAN_DEAD -> nzcv_dead (within o code) root).
Proof.
  revert w. induction fuel as [|fuel IH]; intros w Hw; [done|]. cbn [scan_stack]. destruct (Stack w) as [|F Rest] eqn:HS.
  - intros [= <- <- <-]. split; [done|]. intros Hd. destruct Hw as [[Hr|[Hr|[Hr|Hr]]] _ Hs]; [|by rewrite HS in Hr; apply elem_of_nil in Hr|by apply elem_of_nil in Hr|done].
    apply (dead_coind _ (fun q => q ∈ Seen w)); [|done]. intros q Hq. eapply passes_mono; [done| |by apply Hs].
    unfold pending. rewrite HS. intros r [?|[Hn%elem_of_nil|[Hn%elem_of_nil|?]]]; [by left|done|done|by right].
  - destruct Hw as [H1 H2 H3]. rewrite HS, app_nil_r in H2. apply Forall_cons in H2 as [HF H2].
    assert (Hp : forall q, pending w [] q -> pending (pop Rest w) [FPC F] q).
    { unfold pending, pop. cbn. rewrite HS. intros q [?|[[?|?]%elem_of_cons|[Hn%elem_of_nil|?]]]; try tauto; try done. subst q. right; right; left. apply list_elem_of_here. }
    assert (Hw' : winv root (pop Rest w) [FPC F]).
    { split; [by apply Hp|apply Forall_app; split; [done|by apply Forall_singleton]|]. intros Hd q Hq. eapply passes_mono; [done|exact Hp|by apply H3]. }
    destruct (scan_path _ _ _ _ _ _ _) as [e|] eqn:He; [|done]. cbn [mbind option_bind].
    apply (path_winv root) in He; [|done|done]. destruct e as [w'|v' c' o']; destruct He as [Hv Hwide].
    + intros Heq. destruct (IH w' Hv Heq) as [Ho Hd]. split; [by etrans|done].
    + intros [= <- <- <-]. split; [done|]. intros ->. by destruct Hv.
Qed.

Lemma from_dead Target c o v c' o' :
  in_width 64 Target -> scan_from Read Callee Target c o = Some (v, c', o') -> wider o o' /\ (v = SCAN_DEAD -> nzcv_dead (within o' code) Target).
Proof.
  intros HT. unfold scan_from. apply (stack_dead Target _ (mkWalk _ _ _ _ _ _)). split; [right; left; apply list_elem_of_here|by apply Forall_singleton|].
  intros _ q Hq. by apply elem_of_nil in Hq.
Qed.
End Loops.

(** A DEAD verdict puts the target in the greatest set, over the witnessed
    words. *)
Lemma scan_dead Target FollowBL c o v c' o' :
  in_width 64 Target -> ScanWitnessed Read Target FollowBL c o = Some (v, c', o') ->
  wider o o' /\ (v = SCAN_DEAD -> nzcv_dead (within o' code) Target).
Proof.
  intros HT. unfold ScanWitnessed. apply from_dead; [|done]. destruct FollowBL; [|done]. intros T c1 o1 v1 c2 o2 HT1. by apply (from_dead None I).
Qed.

End Walks.

(** ** The budget *)

Section Budget.
Context {C : Type} (Read : C -> Z -> option Z * C).
(** What a read costs is at most one. *)
Context (cost : C -> Z).
Hypothesis read_cost : forall c a, cost (Read c a).2 <= cost c + 1.
#[local] Set Default Proof Using "Type*".

Section Loops.
Context (Callee : option (Z -> C -> option Witness -> option (ScanVerdict * C * option Witness))) (K : Z).
Hypothesis K_pos : 0 <= K.
Hypothesis Callee_total : if Callee is Some f
  then forall T c o, exists v c' o', f T c o = Some (v, c', o') /\ cost c' <= cost c + K else True.
#[local] Set Default Proof Using "Type*".

(** A path visits words within the budget, and each costs [1 + K]. *)
Definition within_budget (w : Walk C) (e : Ending) : Prop :=
  match e with
  | Break w' => Nodes w <= Nodes w' <= kMaxVisitedWords /\ Z.of_nat (length (Stack w')) <= Z.of_nat (length (Stack w)) + (Nodes w' - Nodes w) /\
      cost (Opaque w') <= cost (Opaque w) + (1 + K) * (Nodes w' - Nodes w)
  | Return _ c _ => cost c <= cost (Opaque w) + (1 + K) * (kMaxVisitedWords - Nodes w)
  end.

Lemma budget_step w w' e :
  Nodes w' = Nodes w + 1 -> Nodes w' <= kMaxVisitedWords -> (length (Stack w') <= length (Stack w) + 1)%nat -> cost (Opaque w') <= cost (Opaque w) + (1 + K) ->
  within_budget w' e -> within_budget w e.
Proof. unfold within_budget. intros H1 H2 H3 H4. rewrite H1 in *. destruct e as [w2|v c o]; [intros (H5 & H6 & H7)|intros H5]; nia. Qed.

Lemma path_total fuel w PC D P :
  0 <= P <= kMaxInsnsPerPath + 1 -> kMaxInsnsPerPath + 1 - P < Z.of_nat fuel -> Nodes w <= kMaxVisitedWords ->
  exists e, scan_path Read Callee fuel w PC D P = Some e /\ within_budget w e.
Proof.
  revert w PC D P. induction fuel as [|fuel IH]; intros w PC D P HP Hf HN; [lia|]. cbn [scan_path].
  destruct (WasSeen (Seen w) PC); [eexists; split; [done|]; cbn; nia|].
  destruct (_ || _) eqn:Hb; [eexists; split; [done|]; cbn; nia|]. apply orb_false_iff in Hb as [Hb1 Hb2]. cbn [visit Nodes] in Hb1.
  pose proof (read_cost (Opaque w) PC) as Hc. cbn [visit Opaque]. destruct (Read (Opaque w) PC) as [[Insn|] c]; cbn [snd] in Hc;
    [|eexists; split; [done|]; cbn; nia].
  set (w1 := noted (visit w PC) PC c).
  assert (Hgo : forall w' next D', Nodes w' = Nodes w + 1 -> (length (Stack w') <= length (Stack w) + 1)%nat -> cost (Opaque w') <= cost (Opaque w) + (1 + K) ->
    exists e, scan_path Read Callee fuel w' next D' (P + 1) = Some e /\ within_budget w e).
  { intros w' next D' H1 H2 H3. destruct (IH w' next D' (P + 1)) as (e & He & Hw); [lia|lia|lia|]. exists e. split; [done|]. eapply budget_step; [done|lia|done|done|done]. }
  assert (Hstop : forall e, (if e is Break w' then Stack w' = Stack w /\ Nodes w' = Nodes w + 1 /\ cost (Opaque w') <= cost c + K else if e is Return _ c' _ then cost c' <= cost c + K else False) ->
    exists e', Some e = Some e' /\ within_budget w e').
  { intros e He. exists e. split; [done|]. destruct e as [w'|v c' o]; cbn; [destruct He as (-> & -> & He)|]; split_and?; nia. }
  destruct (Kind (ClassifyWord Insn)); try (apply Hgo; cbn; lia); try (apply Hstop; cbn; split_and?; (done || lia)).
  destruct Callee as [f|]; [|apply Hstop; cbn; split_and?; (done || lia)].
  destruct (Callee_total (u64 (PC + Offset (ClassifyWord Insn))) (Opaque w1) (Out w1)) as (v & c' & o & -> & Hk). cbn [mbind option_bind].
  cbn in Hk. destruct v; apply Hstop; cbn; split_and?; (done || lia).
Qed.

Lemma stack_total fuel w :
  0 <= Nodes w <= kMaxVisitedWords -> Z.of_nat (length (Stack w)) + (kMaxVisitedWords - Nodes w) < Z.of_nat fuel ->
  exists v c o, scan_stack Read Callee fuel w = Some (v, c, o) /\ cost c <= cost (Opaque w) + (1 + K) * (kMaxVisitedWords - Nodes w).
Proof.
  revert w. induction fuel as [|fuel IH]; intros w HN Hf; [lia|]. cbn [scan_stack]. destruct (Stack w) as [|F Rest]; [eexists _, _, _; split; [done|]; nia|].
  destruct (path_total path_fuel (pop Rest w) (FPC F) (Depth F) 0) as (e & -> & He); [by vm_compute|by vm_compute|cbn; lia|]. cbn [mbind option_bind].
  destruct e as [w'|v c o]; cbn in He; [|eexists _, _, _; split; [done|]; done]. destruct He as (H1 & H2 & H3).
  destruct (IH w') as (v & c & o & -> & Hc); [lia|cbn [length] in Hf; lia|]. eexists _, _, _. split; [done|]. nia.
Qed.

Lemma from_total Target c o :
  exists v c' o', scan_from Read Callee Target c o = Some (v, c', o') /\ cost c' <= cost c + (1 + K) * kMaxVisitedWords.
Proof.
  destruct (stack_total stack_fuel (mkWalk [mkFrame Target 0] [] 0 SCAN_DEAD c o)) as (v & c' & o' & He & Hc); [cbn; unfold kMaxVisitedWords; lia|vm_compute; done|].
  exists v, c', o'. split; [done|]. cbn in Hc. unfold kMaxVisitedWords in *. lia.
Qed.
End Loops.

End Budget.

Lemma scan_budget {C} (Read : C -> Z -> option Z * C) cost Target FollowBL c o :
  (forall c a, cost (Read c a).2 <= cost c + 1) ->
  exists v c' o', ScanWitnessed Read Target FollowBL c o = Some (v, c', o') /\
    cost c' <= cost c + (if FollowBL then 97 else 1) * kMaxVisitedWords.
Proof.
  intros Hr. unfold ScanWitnessed. destruct FollowBL.
  - apply (from_total Read cost Hr _ 96); [lia|]. intros T c1 o1. apply (from_total Read cost Hr None 0); [lia|done].
  - apply (from_total Read cost Hr None 0); [lia|done].
Qed.

Lemma scan_total {C} (Read : C -> Z -> option Z * C) Target FollowBL c o : exists v c' o', ScanWitnessed Read Target FollowBL c o = Some (v, c', o').
Proof. destruct (scan_budget Read (fun _ => 0) Target FollowBL c o) as (v & c' & o' & H & _); [lia|]. by exists v, c', o'. Qed.

(** The scan always returns, whatever the callback answers, and calls it at
    most 96 times; when it follows calls, at most 96 times more for each word
    it visits itself. *)
Theorem scan_terminates {C} (Read : C -> Z -> option Z * C) cost Target FollowBL c o :
  (forall c a, cost (Read c a).2 <= cost c + 1) ->
  exists v c' o', ScanWitnessed Read Target FollowBL c o = Some (v, c', o') /\
    cost c' <= cost c + (if FollowBL then 97 else 1) * kMaxVisitedWords.
Proof. apply scan_budget. Qed.

(** A callback that counts its calls, over memory full of NOPs: the scan gives
    up when the path is too long. *)
Lemma scan_terminates_witness :
  let Read (c a : Z) := (Some 0xD503201F, c + 1) in
  ScanWitnessed Read 0x1000 false 0 None = Some (SCAN_UNRESOLVED, 49, None) /\
  exists v c' o', ScanWitnessed Read 0x1000 false 0 None = Some (v, c', o') /\ c' <= 0 + 1 * kMaxVisitedWords.
Proof.
  intros Read. split; [vm_compute; reflexivity|]. apply (scan_terminates Read (fun c => c) 0x1000 false 0 None). intros c a. cbn. lia.
Defined.

(** ** What the guest can observe *)

(** A guest: its program counter, the words it would fetch, one step ([None]:
    it stops), and equality of states up to the condition flags. *)
Class Machine (St : Type) := {
  m_pc : St -> Z;
  m_code : St -> Z -> option Z;
  m_step : St -> option St;
  same_but_nzcv : St -> St -> Prop }.

(** What the table of word classes promises of a guest: the classes the scan
    passes neither read the flags nor go elsewhere, and a writer leaves a state
    that does not depend on them. *)
Class NZCVTable (St : Type) `{Machine St} : Prop := {
  same_view s t : same_but_nzcv s t -> m_pc s = m_pc t /\ forall a, m_code s a = m_code t a;
  same_refl s : same_but_nzcv s s;
  table_step s t w l : same_but_nzcv s t -> m_code s (m_pc s) = Some w -> follows (m_pc s) (ClassifyWord w) = Some l ->
    match m_step s, m_step t with
    | Some s', Some t' => s' = t' \/ (same_but_nzcv s' t' /\ m_pc s' ∈ l)
    | None, None => True
    | _, _ => False
    end }.

Section Observe.
Context {St : Type} `{NZCVTable St}.
#[local] Set Default Proof Using "Type*".

Fixpoint run (n : nat) (s : St) : option St :=
  match n with O => Some s | S n => s' ← m_step s; run n s' end.

(** During the first [n] steps of [s], the code at the addresses [D] is as in
    [code]. *)
Definition stable (D : Z -> Prop) (code : Z -> option Z) (n : nat) (s : St) : Prop :=
  forall k s', (k < n)%nat -> run k s = Some s' -> forall a, D a -> m_code s' a = code a.

Lemma run_same n s : option_Forall2 same_but_nzcv (run n s) (run n s).
Proof. destruct (run n s); constructor. apply same_refl. Qed.

Lemma dead_run o code n s t :
  same_but_nzcv s t -> nzcv_dead (within o code) (m_pc s) -> stable (witnessed o) code n s ->
  option_Forall2 same_but_nzcv (run n s) (run n t).
Proof.
  revert s t. induction n as [|n IH]; intros s t Hst Hd Hcode; cbn [run]; [by constructor|].
  destruct (dead_unfold _ _ Hd) as (w & l & Hw & Hf & Hl). unfold within in Hw. destruct (decide (witnessed o (m_pc s))) as [Hin|]; [|done].
  rewrite <- (Hcode 0%nat s ltac:(lia) eq_refl _ Hin) in Hw. pose proof (table_step s t w l Hst Hw Hf) as Hstep.
  destruct (m_step s) as [s'|] eqn:Hs, (m_step t) as [t'|]; try done; cbn [mbind option_bind]; [|constructor].
  destruct Hstep as [->|[Hst' Hpc]]; [apply run_same|]. rewrite Forall_forall in Hl. apply IH; [done|by apply Hl|].
  intros k s2 Hk Hr. apply (Hcode (S k) s2); [lia|]. cbn [run]. by rewrite Hs.
Qed.
End Observe.

(** C22. A DEAD verdict makes the flags unobservable: from two states at the
    target that differ at most in NZCV, any number of steps gives states that
    differ at most in NZCV, or both runs stop at the same step; this holds as
    long as the guest leaves the words of the scan's witness as the scan read
    them, whatever happens to the rest of memory. *)
Theorem dead_verdict_sound {St} `{NZCVTable St} {C} (Read : C -> Z -> option Z * C) code Target FollowBL c c' o o' n (s t : St) :
  (forall c a w, 0 <= a < 2 ^ 64 -> (Read c a).1 = Some w -> code a = Some w /\ a mod 4 = 0) ->
  0 <= Target < 2 ^ 64 -> ScanWitnessed Read Target FollowBL c o = Some (SCAN_DEAD, c', o') ->
  m_pc s = Target -> same_but_nzcv s t -> stable (witnessed o') code n s ->
  option_Forall2 same_but_nzcv (run n s) (run n t).
Proof.
  intros Hread HT Hscan Hpc Hst Hstable. destruct (scan_dead Read code Hread _ _ _ _ _ _ _ HT Hscan) as [_ Hd].
  eapply dead_run; [done|rewrite Hpc; by apply Hd|done].
Qed.
