(* ===== verification/NZCVPeekSpec.v ===== *)
(** The policy around the flag scan: which exits it marks, and that the
    footprint of the unit then covers the words the verdicts rest on, so that a
    write to one of them is noticed and the code cache hashes them. *)
From S2P Require Import Prelude IR Frontend Decoder DecoderSlots DecoderSpec NZCVScan NZCVScanSpec.
Open Scope Z_scope.
Import Census NZCVPeek.

Section Policy.
Context (Query : option (Z -> Z * Z)) (Memory : Z -> Z).

(** Guest memory as the scan sees it. *)
Definition code (a : Z) : option Z := Some (Memory a).

Lemma read_word c a w : 0 <= a < 2 ^ 64 -> (ReadWord Query Memory c a).1 = Some w -> code a = Some w /\ a mod 4 = 0.
Proof.
  intros _. unfold ReadWord, code. destruct (Z.eqb_spec (Z.land a 3) 0) as [H4|]; [|done]. cbn [negb].
  destruct (Decoder.CheckRangeExecutable _ _ _ _) as [[[] c']|]; [|done|done]. intros [= <-]. split; [done|].
  change 3 with (Z.ones 2) in H4. by rewrite Z.land_ones in H4 by lia.
Qed.

(** The flags are dead at the target of the exit, by words of the extent
    [W]. *)
Definition dead_exit (Entry : Z) (ISBTargets : list Z) (Op : ExitFunction) (W : Witness) : Prop :=
  exists T, exit_target Entry Op = Some T /\ T mod 4 = 0 /\ ~ (T ∈ ISBTargets) /\ nzcv_dead (within (Some W) code) T /\
    Entry <= Low W /\ Low W + 4 <= High W.

Definition inside (W H : Witness) : Prop := Low H <= Low W /\ High W <= High H.

#[local] Instance inside_preorder : PreOrder inside.
Proof. split; unfold inside; [intros W|intros W1 W2 W3]; lia. Qed.

(** What happened to the terminator of a block, with [H] the hull at the end. *)
Definition decided (Entry : Z) (ISBTargets : list Z) (H : Witness) (t t' : Terminator) : Prop :=
  t' = t \/ exists Op W, t = TExit Op /\ t' = TExit (set_dead Op) /\ dead_exit Entry ISBTargets Op W /\ inside W H.

Lemma decided_wider Entry ISB H H' t t' : inside H H' -> decided Entry ISB H t t' -> decided Entry ISB H' t t'.
Proof. intros HH [->|(Op & W & -> & -> & Hd & HW)]; [by left|right]. exists Op, W. split_and!; [done|done|done|by etrans]. Qed.

(** The hull covers the unit [U]; after the first verdict it is within the
    bound. *)
Record peek_ok (U : Witness) (p : Peek) : Prop := {
  pk_unit : inside U (Hull p);
  pk_range : 0 <= Low (Hull p) /\ High (Hull p) < 2 ^ 64;
  pk_none : AnyDead p = false -> Hull p = U;
  pk_bound : AnyDead p = true -> High (Hull p) - Low (Hull p) <= kHullBound }.

Lemma exit_target_range Entry Op T : exit_target Entry Op = Some T -> in_width 64 T.
Proof.
  unfold exit_target. destruct (decide _); [done|]. destruct (NewRIP Op) as [|Size Offset|K|]; [done| |intros [= <-]; apply wrap_range; lia|done].
  intros [= <-]. apply in_width_land; [lia|apply wrap_range; lia|]. by destruct (decide _).
Qed.

Lemma merge_spec W H : Empty W = false -> Low (Merge W H) = Z.min (Low W) (Low H) /\ High (Merge W H) = Z.max (High W) (High H).
Proof. intros HE. unfold Merge. rewrite HE. cbn. destruct (Z.ltb_spec (Low W) (Low H)), (Z.gtb_spec (High W) (High H)); lia. Qed.

(** The postcondition of one exit. *)
Definition exit_post (Entry : Z) (ISB : list Z) (U : Witness) (p : Peek) (t : Terminator) (r : option (Terminator * Peek)) : Prop :=
  exists t' p', r = Some (t', p') /\ peek_ok U p' /\ inside (Hull p) (Hull p') /\
    decided Entry ISB (Hull p') t t' /\ (AnyDead p' = false -> AnyDead p = false /\ t' = t).

(** No verdict. *)
Lemma exit_kept Entry ISB U p t c st : peek_ok U p -> exit_post Entry ISB U p t (Some (t, mkPeek (Hull p) (AnyDead p) c st)).
Proof. intros Hp. eexists _, _. split; [done|]. split_and!; [by destruct Hp; split|done|by left|done]. Qed.

(** A verdict whose witness fits. *)
Lemma exit_taken Entry ISB U p Op W c st :
  peek_ok U p -> extent_ok W -> Empty W = false -> dead_exit Entry ISB Op W ->
  Empty (Merge W (Hull p)) || (u64 (High (Merge W (Hull p)) - Low (Merge W (Hull p))) >? kHullBound) = false ->
  exit_post Entry ISB U p (TExit Op) (Some (TExit (set_dead Op), mkPeek (Merge W (Hull p)) true c st)).
Proof.
  intros [Hu Hr Hn Hb] HW HE Hd HM. apply orb_false_iff in HM as [HM1 HM2]. destruct (merge_spec W (Hull p) HE) as [HL HH].
  unfold inside, extent_ok, Empty in *. rewrite Z.gtb_ltb, Z.ltb_ge in HE, HM1, HM2. rewrite HL, HH in HM1, HM2. rewrite u64_small in HM2 by lia.
  eexists _, _. split; [done|]. cbn [Hull AnyDead]. split_and!; [|unfold inside; rewrite HL, HH; lia| |done].
  - split; cbn [Hull AnyDead]; unfold inside; rewrite ?HL, ?HH; (done || lia).
  - right. exists Op, W. split_and!; [done|done|done|unfold inside; rewrite HL, HH; lia].
Qed.

(** One exit: no verdict, or a witness that fits. *)
Lemma apply_exit_spec Entry ISB t U p : peek_ok U p -> exit_post Entry ISB U p t (apply_exit Query Memory Entry false ISB t p).
Proof.
  intros Hp. pose proof (exit_kept Entry ISB U p t (PCache p) (PStats p) Hp) as Hsame. destruct p as [H A C St]. cbn [Hull AnyDead PCache PStats] in Hsame.
  destruct t as [Op|]; [|exact Hsame]. cbn [apply_exit]. destruct (exit_target Entry Op) as [T|] eqn:HT; [|exact Hsame].
  destruct (Z.eqb_spec (Z.land T 3) 0) as [H4|]; [|exact Hsame]. cbn [negb]. destruct (existsb (Z.eqb T) ISB) eqn:HI; [exact Hsame|].
  cbn [count PCache Hull AnyDead PStats]. destruct (scan_total (ReadWord Query Memory) T false C (Some NoWitness)) as (v & c & o & Hscan).
  rewrite Hscan. cbn [mbind option_bind].
  destruct (scan_dead _ code read_word _ _ _ _ _ _ _ (exit_target_range _ _ _ HT) Hscan) as [[_ Hwide] Hdead]. destruct o as [W|]; [|done].
  assert (HW : extent_ok W) by (apply Hwide; split_and!; [by vm_compute|by vm_compute|left; by vm_compute]). cbn [default id Hull AnyDead PCache PStats].
  destruct (decide (v = SCAN_DEAD)) as [->|Hv]; [|rewrite bool_decide_eq_false_2 by done; by apply (exit_kept _ _ _ (mkPeek H A C St))].
  rewrite bool_decide_eq_true_2 by done. cbn [negb orb].
  destruct (Empty W) eqn:HE; [by apply (exit_kept _ _ _ (mkPeek H A C St))|].
  rewrite andb_true_r. destruct (Z.ltb_spec (Low W) Entry) as [|Hlow]; [by apply (exit_kept _ _ _ (mkPeek H A C St))|].
  destruct (Empty (Merge W H) || _) eqn:HM; [by apply (exit_kept _ _ _ (mkPeek H A C St))|]. apply (exit_taken _ _ _ (mkPeek H A C St)); [done..| |done].
  exists T. split; [done|]. change 3 with (Z.ones 2) in H4. rewrite Z.land_ones in H4 by lia. split; [done|].
  unfold Empty in HE. rewrite Z.gtb_ltb, Z.ltb_ge in HE. unfold extent_ok, last_word in HW. split; [|split; [by apply Hdead|lia]].
  intros Hin%list_elem_of_In. apply not_true_iff_false in HI. apply HI, existsb_exists. exists T. split; [done|apply Z.eqb_refl].
Qed.

Lemma apply_blocks_spec Entry ISB ts U p :
  peek_ok U p ->
  exists ts' p', apply_blocks Query Memory Entry false ISB ts p = Some (ts', p') /\ peek_ok U p' /\ inside (Hull p) (Hull p') /\
    Forall2 (decided Entry ISB (Hull p')) ts ts' /\ (AnyDead p' = false -> AnyDead p = false /\ ts' = ts).
Proof.
  revert p. induction ts as [|t ts IH]; intros p Hp; cbn [apply_blocks]; [exists [], p; by split_and!|].
  destruct (apply_exit_spec Entry ISB t U p Hp) as (t' & p1 & -> & Hp1 & Hi1 & Hd1 & Ha1). cbn [mbind option_bind].
  destruct (IH p1 Hp1) as (ts' & p2 & -> & Hp2 & Hi2 & Hd2 & Ha2). cbn [mbind option_bind]. exists (t' :: ts'), p2. split; [done|].
  split; [done|]. split; [by etrans|]. split; [constructor; [by eapply decided_wider|done]|].
  intros Hn. destruct (Ha2 Hn) as [Hn1 ->]. by destruct (Ha1 Hn1) as [Hn0 ->].
Qed.
End Policy.

(** C24. With the policy on, the peek always completes; it only ever marks exits
    with a constant, aligned target and no Return hint that are not ISB exits,
    and at each marked exit NZCV is dead by words whose extent lies in the
    unit's footprint: its code pages include theirs, its extent stays within
    4 KiB, and the window [Entry, Entry + GuestSize) that the code cache hashes
    covers them although the unit may start below its entry. *)
Theorem peek_marks_sound Query Memory ts Entry M ISB Dec st :
  let i := Decoder.BlockInfo Dec in
  M <> Off -> 0 <= Decoder.DecodedMinAddress i <= Entry -> Decoder.DecodedMinAddress i < Decoder.DecodedMaxAddress i ->
  Decoder.DecodedMaxAddress i + 8192 < 2 ^ 64 -> StronglySorted Z.lt (Decoder.CodePages i) ->
  exists ts' Dec' st', Apply Query Memory ts Entry M false ISB Dec st = Some (ts', Dec', st') /\
    let i' := Decoder.BlockInfo Dec' in
    let GuestSize := Decoder.DecodedMaxAddress i' - Decoder.DecodedMinAddress i' in
    Forall2 (fun t t' => t' = t \/ exists Op T W, t = TExit Op /\ t' = TExit (set_dead Op) /\
      Hint Op <> HintReturn /\ exit_target Entry Op = Some T /\ T mod 4 = 0 /\ ~ (T ∈ ISB) /\
      nzcv_dead (within (Some W) (fun a => Some (Memory a))) T /\
      Entry <= Low W /\ High W <= Entry + GuestSize /\ GuestSize <= kHullBound /\
      forall a, Low W <= a < High W -> Decoder.PageOf a ∈ Decoder.CodePages i') ts ts'.
Proof.
  intros i HM Hmin Hlt Hmax Hs. unfold Apply. rewrite decide_False by done. fold i. destruct ts as [|t ts]; [exists [], Dec, st; split; [done|constructor]|].
  set (U := mkWitness (Decoder.DecodedMinAddress i) (Decoder.DecodedMaxAddress i)).
  assert (HU : unit_hull i = U) by (unfold unit_hull; by rewrite (proj2 (Z.ltb_lt _ _) Hlt)). rewrite HU.
  assert (Hp0 : peek_ok U (mkPeek U false (Decoder.ExecutableRange Dec) st)) by (split; cbn; unfold inside; (done || lia)).
  destruct (apply_blocks_spec Query Memory Entry ISB (t :: ts) U _ Hp0) as (ts' & p & -> & Hp & Hi & Hd & Ha). cbn [mbind option_bind].
  destruct (AnyDead p) eqn:HA; [|destruct (Ha eq_refl) as [_ ->]; eexists _, _, _; split; [done|]; apply Forall_Forall2_diag, Forall_true; by left].
  destruct Hp as [Hu Hr _ Hb]. specialize (Hb HA). unfold inside in Hu. cbn in Hu. unfold kHullBound in Hb.
  destruct (peek_footprint (Low (Hull p)) (High (Hull p)) i) as (i' & -> & _ & _ & Hpages & Hmin' & Hmax'); [lia|lia|done|]. cbn [mbind option_bind].
  eexists _, _, _. split; [done|]. cbn. eapply Forall2_impl; [exact Hd|]. intros t1 t2 [->|(Op & W & -> & -> & (T & HT & H4 & HI & Hdead & Hlow & HW) & HWi)]; [by left|right].
  unfold inside in HWi. exists Op, T, W. split_and!; [done|done| |done|done|done|done|done|rewrite Hmin', Hmax'; lia|rewrite Hmin', Hmax'; unfold kHullBound; lia|].
  - intros Hret. unfold exit_target in HT. by rewrite decide_True in HT.
  - intros a Ha'. apply Hpages. right. exists a. split; [lia|done].
Qed.

(** A unit of four words at 0x1000 that leaves to the word after it; memory is
    full of cmp x1, x0. *)
Definition sample_exit : ExitFunction := mkExit HintNone (InlineEntrypointOffset i64Bit 0x10) false.
Definition sample_unit : Decoder.t :=
  Decoder.mkDecoder (0, 0) [] (Decoder.mkSlots [] [] []) 0 (Decoder.mkInfo 4 [] [0x1000] [0x1000] 0x1000 0x1010).
Definition no_stats : Stats := mkStats 0 0 0 0 0 0.

Lemma peek_marks_sound_witness :
  exists ts' Dec' st', Apply None (fun _ => 0xEB00003F) [TExit sample_exit] 0x1000 On false [] sample_unit no_stats = Some (ts', Dec', st') /\
    ts' = [TExit (set_dead sample_exit)] /\ Decoder.DecodedMaxAddress (Decoder.BlockInfo Dec') = 0x1014 /\
    nzcv_dead (fun _ => Some 0xEB00003F) 0x1010.
Proof.
  destruct (peek_marks_sound None (fun _ => 0xEB00003F) [TExit sample_exit] 0x1000 On [] sample_unit no_stats
    ltac:(done) ltac:(cbn; lia) ltac:(cbn; lia) ltac:(cbn; lia) ltac:(cbn; repeat constructor)) as (ts' & Dec' & st' & Heq & Hall).
  exists ts', Dec', st'. split; [exact Heq|]. vm_compute in Heq. injection Heq as <- <- <-. split; [reflexivity|]. split; [reflexivity|].
  apply Forall2_cons in Hall as [[Hno|(Op & T & W & [= <-] & _ & _ & [= <-] & _ & _ & Hd & _)] _]; [discriminate Hno|].
  revert Hd. apply dead_mono. intros a w. unfold within. destruct (decide _); [done|done].
Defined.

(** ** The tripwire *)

(** The tripwire has no false alarm: when the guest really can tell at the
    unit's entry which flags it was entered with (two runs from states that
    differ only in NZCV come apart), the scan of the entry is not DEAD, so no
    contradiction is counted and strict mode does not stop the process. *)
Theorem tripwire_silent {St} `{NZCVTable St} Query Memory Entry Live M Dec st (s t : St) n :
  0 <= Entry < 2 ^ 64 -> m_pc s = Entry -> same_but_nzcv s t ->
  (forall k s', (k < n)%nat -> run k s = Some s' -> forall a, m_code s' a = Some (Memory a)) ->
  ~ option_Forall2 same_but_nzcv (run n s) (run n t) ->
  exists Dec', NoteUnitCompiled Query Memory Entry Live M Dec st = Some (Checked Dec' st).
Proof.
  intros HE Hpc Hst Hcode Hdiff. unfold NoteUnitCompiled. destruct (decide (M = Off)); [by eexists|]. destruct Live; [|by eexists]. cbn [negb].
  unfold Scan. destruct (scan_total (ReadWord Query Memory) Entry false (Decoder.ExecutableRange Dec) None) as (v & c & o & Hscan).
  rewrite Hscan. cbn [mbind option_bind]. destruct (decide (v = SCAN_DEAD)) as [->|Hv]; [|rewrite bool_decide_eq_false_2 by done; by eexists].
  destruct Hdiff. destruct (scan_dead _ _ (read_word Query Memory) _ _ _ _ _ _ _ HE Hscan) as [_ Hd]. eapply (dead_run o (code Memory)); [done|rewrite Hpc; by apply Hd|].
  intros k s' Hk Hr a _. by apply Hcode with (k := k).
Qed.
