(* ===== verification/NZCVTable.v ===== *)
(** The table of word classes of the flag scan, checked against the Arm
    semantics for every word of the rows for integer data processing, loads and
    stores and branches: the class of each row by evaluation over its fixed bits, and the
    guest they make, an instance of [NZCVTable]. *)
From S2P Require Import Prelude A64Common IR ArmSpec DecodeTable A64Rows Frontend FrontendSpec NZCVScan NZCVScanSpec.
From stdpp Require Import strings.
Open Scope Z_scope.
Import Census.

(** ** Evaluation over fixed bits *)

(** [field w s m =? c] for the words that fit, when the fixed bits decide it. *)
Definition test3 (p : Pattern) (s m c : Z) : option bool :=
  let k := Z.land (PMask p) (Z.shiftl m s) in
  if negb (Z.land (Z.lxor (PExpect p) (Z.shiftl c s)) k =? 0) then Some false
  else if (k =? Z.shiftl m s) && (Z.land c m =? c) then Some true else None.

Definition agrees {A} (x : option A) (y : A) : Prop := forall v, x = Some v -> y = v.

Lemma test3_sound p w s m c : fits p w -> 0 <= s -> agrees (test3 p s m c) (field w s m =? c).
Proof.
  intros Hp Hs v. unfold test3, field. destruct (Z.eqb_spec (Z.land (Z.lxor (PExpect p) (Z.shiftl c s)) (Z.land (PMask p) (Z.shiftl m s))) 0) as [Hz|Hn]; cbn [negb].
  - destruct (Z.eqb_spec (Z.land (PMask p) (Z.shiftl m s)) (Z.shiftl m s)) as [Hk|]; [|done]. destruct (Z.eqb_spec (Z.land c m) c) as [Hc|]; [|done].
    intros [= <-]. apply Z.eqb_eq. rewrite Hk in Hz. apply Z.bits_inj'. intros i Hi. rewrite Z.land_spec, Z.shiftr_spec by done.
    rewrite <- Hc, Z.land_spec. destruct (Z.testbit m i) eqn:Hm; [|by rewrite !andb_false_r].
    apply (f_equal (fun z => Z.testbit z (i + s))) in Hz, Hk. rewrite Z.land_spec, Z.shiftl_spec, Z.add_simpl_r, Hm, andb_true_r in Hk by lia.
    rewrite Z.land_spec, Z.lxor_spec, !Z.shiftl_spec, Z.add_simpl_r, Hm, Z.bits_0, andb_true_r in Hz by lia.
    rewrite (fits_bit p w) by (done || lia). apply xorb_eq in Hz. by rewrite Hz.
  - intros [= <-]. apply Z.eqb_neq. intros <-. apply Hn. apply Z.bits_inj'. intros i Hi.
    rewrite Z.bits_0, !Z.land_spec, Z.lxor_spec, !Z.shiftl_spec, Z.land_spec by lia.
    destruct (Z.testbit (PMask p) i) eqn:Hm; [|by rewrite andb_false_r]. destruct (Z.testbit m (i - s)) eqn:Hmm; [|by rewrite !andb_false_r].
    destruct (decide (0 <= i - s)); [|by rewrite Z.testbit_neg_r in Hmm by lia]. rewrite Z.shiftr_spec, Z.sub_add by lia.
    rewrite (fits_bit p w) by done. rewrite !andb_true_r. apply xorb_nilpotent.
Qed.

(** Three-valued connectives. *)
Definition ite3 {A} (b : option bool) (x y : option A) : option A := match b with Some true => x | Some false => y | None => None end.
Definition or3 (a b : option bool) : option bool := match a, b with Some true, _ | _, Some true => Some true | Some false, Some false => Some false | _, _ => None end.
Definition and3 (a b : option bool) : option bool := match a, b with Some false, _ | _, Some false => Some false | Some true, Some true => Some true | _, _ => None end.

Lemma or3_sound a3 a b3 b : agrees a3 a -> agrees b3 b -> agrees (or3 a3 b3) (a || b).
Proof. intros Ha Hb v. destruct a3 as [[]|], b3 as [[]|]; cbn; intros [= <-]; rewrite ?(Ha _ eq_refl), ?(Hb _ eq_refl); by rewrite ?orb_true_r. Qed.

Lemma and3_sound a3 a b3 b : agrees a3 a -> agrees b3 b -> agrees (and3 a3 b3) (a && b).
Proof. intros Ha Hb v. destruct a3 as [[]|], b3 as [[]|]; cbn; intros [= <-]; rewrite ?(Ha _ eq_refl), ?(Hb _ eq_refl); by rewrite ?andb_false_r. Qed.

Lemma neg3_sound a3 a : agrees a3 a -> agrees (negb <$> a3) (negb a).
Proof. intros Ha v. destruct a3 as [x|]; cbn; [|done]. intros [= <-]. by rewrite (Ha x eq_refl). Qed.

(** ** The class of a row *)

(** How the displacement is read from the word. *)
Inductive Disp := DNone | DImm26 | DImm19 | DImm14.
Definition disp (d : Disp) (w : Z) : Z :=
  match d with
  | DNone => 0
  | DImm26 => SignExtend (Z.land w 0x3FFFFFF) 26 * 4
  | DImm19 => SignExtend (field w 5 0x7FFFF) 19 * 4
  | DImm14 => SignExtend (field w 5 0x3FFF) 14 * 4
  end.

(** [ClassifyWordImpl] over fixed bits. *)
Definition classify3 (p : Pattern) : option (WordClass * Disp) :=
  let T := test3 p in
  let K c := Some (c, DNone) in
  ite3 (T 26 0x3F 0x05) (Some (WC_BRANCH, DImm26)) (
  ite3 (T 26 0x3F 0x25) (Some (WC_CALL, DImm26)) (
  ite3 (T 24 0xFF 0x54) (K WC_READER) (
  ite3 (or3 (T 24 0x7F 0x34) (T 24 0x7F 0x35)) (Some (WC_TWOWAY, DImm19)) (
  ite3 (or3 (T 24 0x7F 0x36) (T 24 0x7F 0x37)) (Some (WC_TWOWAY, DImm14)) (
  ite3 (T 25 0x7F 0x6B) (ite3 (or3 (or3 (T 21 0xF 2) (T 21 0xF 4)) (T 21 0xF 5)) (K WC_RET) (K WC_TERM)) (
  ite3 (T 24 0xFF 0xD4) (ite3 (T 0 0xFFE0001F 0xD4000001) (K WC_SVC) (K WC_TERM)) (
  ite3 (T 0 0xFFFFFFE0 0xD53B4200) (K WC_READER) (
  ite3 (T 0 0xFFFFFFE0 0xD51B4200) (K WC_WRITER) (
  ite3 (or3 (or3 (T 0 0xFFFFFFFF 0xD500401F) (T 0 0xFFFFFFFF 0xD500403F)) (T 0 0xFFFFFFFF 0xD500405F)) (K WC_PARTIAL) (
  ite3 (T 21 0xFF 0xD0) (K WC_READER) (
  ite3 (T 21 0xFF 0xD2) (K WC_READER) (
  ite3 (T 21 0xFF 0xD4) (K WC_READER) (
  ite3 (T 24 0x1F 0x0B) (ite3 (negb <$> T 29 1 0) (K WC_WRITER) (K WC_NEUTRAL)) (
  ite3 (T 24 0x1F 0x0A) (ite3 (T 29 3 3) (K WC_WRITER) (K WC_NEUTRAL)) (
  ite3 (and3 (and3 (T 21 0x7FF 0x5D0) (T 10 0x1F 1)) (T 4 1 0)) (K WC_PARTIAL) (
  ite3 (or3 (T 0 0xFFFFFC1F 0x3A00080D) (T 0 0xFFFFFC1F 0x3A00480D)) (K WC_PARTIAL) (
  ite3 (T 23 0x3F 0x22) (ite3 (negb <$> T 29 1 0) (K WC_WRITER) (K WC_NEUTRAL)) (
  ite3 (T 23 0x3F 0x24) (ite3 (T 29 3 3) (K WC_WRITER) (K WC_NEUTRAL)) (
  ite3 (and3 (and3 (T 30 3 0) (T 24 0x1F 0x1E)) (negb <$> T 21 1 0)) None (K WC_NEUTRAL)))))))))))))))))))).

Definition is_word (w : Z) (x : WordClass * Disp) (W : Word) : Prop := Kind W = x.1 /\ Offset W = disp x.2 w.

(** A whole-word comparison as a field. *)
Lemma land_field w m : Z.land w m = field w 0 m.
Proof. unfold field. by rewrite Z.shiftr_0_r. Qed.

Lemma shiftr_field32 w s m : in_width 32 w -> m = Z.ones (32 - s) -> 0 <= s <= 32 -> Z.shiftr w s = field w s m.
Proof.
  intros Hw -> Hs. unfold field. rewrite land_wrap by lia. symmetry. apply wrap_small. unfold in_width in *. rewrite Z.shiftr_div_pow2 by lia.
  split; [apply Z.div_pos; lia|]. apply Z.div_lt_upper_bound; [lia|]. rewrite <- Z.pow_add_r by lia. replace (s + (32 - s)) with 32 by lia. lia.
Qed.

Lemma eq_field32 w : in_width 32 w -> w = field w 0 0xFFFFFFFF.
Proof. intros Hw. rewrite <- (Z.shiftr_0_r w) at 1. by apply shiftr_field32. Qed.

Definition sound3 (w : Z) (x : option (WordClass * Disp)) (W : Word) : Prop := forall v, x = Some v -> is_word w v W.

Lemma ite3_word w b3 (b : bool) x3 y3 x y : agrees b3 b -> sound3 w x3 x -> sound3 w y3 y -> sound3 w (ite3 b3 x3 y3) (if b then x else y).
Proof. intros Hb Hx Hy v. destruct b3 as [[]|]; cbn; [rewrite (Hb true eq_refl); apply Hx|rewrite (Hb false eq_refl); apply Hy|done]. Qed.

Lemma classify3_sound p w : fits p w -> sound3 w (classify3 p) (ClassifyWord w).
Proof.
  intros Hp. pose proof Hp as [Hw _]. change (ClassifyWord w) with (mkWord (Kind (ClassifyWordImpl w)) (Offset (ClassifyWordImpl w))).
  assert (HW : forall W, sound3 w (classify3 p) W -> sound3 w (classify3 p) (mkWord (Kind W) (Offset W))) by done. apply HW. clear HW.
  unfold ClassifyWordImpl, classify3. cbv zeta.
  rewrite (shiftr_field32 w 26 0x3F), (shiftr_field32 w 21 0x7FF), (shiftr_field32 w 30 3) by (done || lia).
  rewrite !(land_field w 0xFFE0001F), !(land_field w 0xFFFFFFE0), !(land_field w 0xFFFFFC1F).
  replace (w =? 0xD500401F) with (field w 0 0xFFFFFFFF =? 0xD500401F) by (by rewrite <- eq_field32).
  replace (w =? 0xD500403F) with (field w 0 0xFFFFFFFF =? 0xD500403F) by (by rewrite <- eq_field32).
  replace (w =? 0xD500405F) with (field w 0 0xFFFFFFFF =? 0xD500405F) by (by rewrite <- eq_field32).
  repeat (apply ite3_word;
    [repeat first [apply or3_sound|apply and3_sound|apply neg3_sound]; apply test3_sound; (done || lia)| |]);
    try (by intros v [= <-]); try (by intros v).
Qed.

(** ** What the instructions do to the flags *)

(** The outcome with other flags is the outcome with those flags. *)
Definition neutral_on (f : Z -> Z -> Guest -> option Guest) (w : Z) : Prop :=
  forall pc g fl, f pc w (set_flags g fl) = (fun g' => set_flags g' fl) <$> f pc w g.
(** The outcome does not depend on the flags. *)
Definition writes_on (f : Z -> Z -> Guest -> option Guest) (w : Z) : Prop :=
  forall pc g fl, f pc w (set_flags g fl) = f pc w g.

(** How the Arm semantics treats the flags; three families decide by a field
    of the word. *)
Inductive Effect := ENeutral | EWriter23 | EReader | EBit29 | EOpc.
Definition has_effect (e : Effect) (f : Z -> Z -> Guest -> option Guest) : Prop :=
  forall w, match e with
            | ENeutral => neutral_on f w
            | EWriter23 => if field w 23 1 =? 0 then writes_on f w else neutral_on f w
            | EReader => True
            | EBit29 => if field w 29 1 =? 0 then neutral_on f w else writes_on f w
            | EOpc => if field w 29 3 =? 3 then writes_on f w else neutral_on f w
            end.

Lemma X_flags N g fl n : X N (set_flags g fl) n = X N g n.
Proof. done. Qed.
Lemma XorSP_flags N g fl n : XorSP N (set_flags g fl) n = XorSP N g n.
Proof. done. Qed.
Lemma wX_flags g fl n v : wX (set_flags g fl) n v = set_flags (wX g n v) fl.
Proof. unfold wX. by destruct (n =? 31). Qed.
Lemma dest_flags b g fl n v : write_dest b (set_flags g fl) n v = set_flags (write_dest b g n v) fl.
Proof. unfold write_dest. destruct b; [apply wX_flags|done]. Qed.
Lemma set_flags_set g fl fl' : set_flags (set_flags g fl) fl' = set_flags g fl'.
Proof. done. Qed.

(** Guards are the same on both sides; the register writes commute. *)
Ltac flags :=
  intros pc g fl; rewrite ?X_flags, ?XorSP_flags;
  repeat match goal with
  | |- context [if ?b then _ else _] => lazymatch b with context [if _ then _ else _] => fail | _ => destruct b end
  | |- context [match ?x with Some _ => _ | None => _ end] => destruct x as [[]|]
  end; cbn; rewrite ?wX_flags, ?dest_flags; reflexivity.

Lemma add_sub_neutral N op a b g fl dest :
  (forall g v, dest (set_flags g fl) v = set_flags (dest g v) fl) ->
  add_sub N op false a b (set_flags g fl) dest = set_flags (add_sub N op false a b g dest) fl.
Proof. intros Hd. unfold add_sub. destruct op, (AddWithCarry _ _ _ _); apply Hd. Qed.

Lemma field_bit w s : 0 <= s -> (field w s 1 =? 0) = negb (Z.testbit w s).
Proof.
  intros Hs. unfold field. change 1 with (Z.ones 1). rewrite land_wrap by lia. unfold wrap. change (2 ^ 1) with 2.
  rewrite Zmod_odd, <- Z.bit0_odd, Z.shiftr_spec, Z.add_0_l by lia. by destruct (Z.testbit w s).
Qed.

Lemma add_sub_imm_effect op s : has_effect (if s : bool then EWriter23 else ENeutral) (arm_add_sub_imm op s).
Proof.
  intros w. destruct s.
  - destruct (field w 23 1 =? 0) eqn:Hb; intros pc g fl; unfold arm_add_sub_imm; rewrite XorSP_flags; [by destruct (_ || _)|].
    assert (Hsh : (Bits w 23 22 =? 0) || (Bits w 23 22 =? 1) = false); [|by rewrite Hsh].
    rewrite field_bit in Hb by lia. apply orb_false_iff. split; apply Z.eqb_neq; intros Hz; apply (f_equal (fun z => Z.testbit z 1)) in Hz;
      unfold Bits in Hz; rewrite Z.land_spec, Z.shiftr_spec in Hz by lia; change (1 + 22) with 23 in Hz; by destruct (Z.testbit w 23).
  - intros pc g fl. unfold arm_add_sub_imm. rewrite XorSP_flags. destruct (_ || _); [|done]. cbn [fmap option_fmap option_map].
    rewrite add_sub_neutral; [done|]. intros. apply dest_flags.
Qed.

(** [Bit] is a field of one bit. *)
Lemma Bit_field w i : Bit w i = negb (field w i 1 =? 0).
Proof. done. Qed.

Lemma add_sub_shifted_effect : has_effect EBit29 arm_add_sub_shifted.
Proof.
  intros w. destruct (field w 29 1 =? 0) eqn:Hb; intros pc g fl; unfold arm_add_sub_shifted; rewrite !X_flags, (Bit_field w 29), Hb; cbn [negb];
    destruct (_ || _); try done; cbn [fmap option_fmap option_map]; f_equal;
    apply add_sub_neutral; intros; apply wX_flags.
Qed.

Lemma add_sub_extended_effect : has_effect EBit29 arm_add_sub_extended.
Proof.
  intros w. destruct (field w 29 1 =? 0) eqn:Hb; intros pc g fl; unfold arm_add_sub_extended; rewrite X_flags, XorSP_flags, (Bit_field w 29), Hb; cbn [negb];
    destruct (_ || _); try done; cbn [fmap option_fmap option_map]; f_equal;
    apply add_sub_neutral; intros; apply dest_flags.
Qed.

Lemma logical_effect N opc a b g fl dest :
  (forall s g v, dest s (set_flags g fl) v = set_flags (dest s g v) fl) ->
  logical N opc a b (set_flags g fl) dest = if opc =? 3 then logical N opc a b g dest else set_flags (logical N opc a b g dest) fl.
Proof. intros Hd. unfold logical. destruct (opc =? 3); [done|apply Hd]. Qed.

Lemma logical_imm_effect : has_effect EOpc arm_logical_imm.
Proof.
  intros w. destruct (field w 29 3 =? 3) eqn:Hb; intros pc g fl; unfold arm_logical_imm; rewrite X_flags; (destruct (_ && _); [done|]);
    (destruct (ArmDecodeBitMasks _ _ _ _ _) as [[wm tm]|]; [|done]); cbn [fmap option_fmap option_map]; f_equal;
    rewrite logical_effect by (intros; apply dest_flags); change (Bits w 30 29) with (field w 29 3); by rewrite Hb.
Qed.

Lemma logical_shifted_effect : has_effect EOpc arm_logical_shifted.
Proof.
  intros w. destruct (field w 29 3 =? 3) eqn:Hb; intros pc g fl; unfold arm_logical_shifted; rewrite !X_flags; (destruct (_ && _); [done|]);
    cbn [fmap option_fmap option_map]; f_equal; rewrite logical_effect by (intros; apply wX_flags); change (Bits w 30 29) with (field w 29 3); by rewrite Hb.
Qed.

Lemma move_wide_effect : has_effect ENeutral arm_move_wide.
Proof. intros w. unfold neutral_on, arm_move_wide. flags. Qed.
Lemma bitfield_effect : has_effect ENeutral arm_bitfield.
Proof. intros w. unfold neutral_on, arm_bitfield. flags. Qed.
Lemma extr_effect : has_effect ENeutral arm_EXTR.
Proof. intros w. unfold neutral_on, arm_EXTR. flags. Qed.
Lemma unary_effect f : has_effect ENeutral (arm_unary f).
Proof. intros w. unfold neutral_on, arm_unary. flags. Qed.
Lemma rev_effect : has_effect ENeutral arm_REV.
Proof. intros w. unfold neutral_on, arm_REV, arm_unary. flags. Qed.
Lemma register_effects :
  has_effect ENeutral arm_ADR /\ has_effect ENeutral arm_ADRP /\ has_effect ENeutral arm_REV32 /\
  (forall s, has_effect ENeutral (arm_div s)) /\ (forall k, has_effect ENeutral (arm_shift_variable k)) /\
  (forall s, has_effect ENeutral (arm_mul_add s)) /\ (forall s t, has_effect ENeutral (arm_mul_long s t)) /\ (forall s, has_effect ENeutral (arm_mul_high s)).
Proof. split_and!; intros; intros w pc g fl; apply (f_equal Some), wX_flags. Qed.

(** Memory does not see the flags, and a fault keeps them. *)
Lemma access_flags op s t a g fl wb :
  (forall g, wb (set_flags g fl) = set_flags (wb g) fl) -> arm_access op s t a (set_flags g fl) wb = set_flags (arm_access op s t a g wb) fl.
Proof.
  intros Hwb. unfold arm_access, MemWrite, MemRead. destruct op as [|sg rs|]; [| |done]; cbn [Mem set_flags].
  - destruct (writable _ _ _); [|done]. apply (Hwb (set_mem g _)).
  - destruct (readable _ _ _); [|done]. rewrite Hwb. apply wX_flags.
Qed.

Lemma literal_effects : has_effect ENeutral arm_LDR_lit /\ has_effect ENeutral arm_LDRSW_lit /\ has_effect ENeutral arm_PRFM.
Proof.
  split_and!; intros w pc g fl; [| |done]; unfold arm_LDR_lit, arm_LDRSW_lit, MemRead; cbn [Mem set_flags];
    (destruct (readable _ _ _); [|done]); apply (f_equal Some), wX_flags.
Qed.

Lemma imm9_effect : has_effect ENeutral arm_imm9.
Proof.
  intros w pc g fl. unfold arm_imm9. destruct (load_store_op _ _) as [op|]; [|done]. cbv zeta. change (rXSP (set_flags g fl)) with (rXSP g).
  destruct op; [| |by destruct (_ =? _)]; apply (f_equal Some), access_flags; intros g'; by destruct (_ || _).
Qed.

Lemma rcpc_effect : has_effect ENeutral arm_rcpc_imm9.
Proof. intros w pc g fl. unfold arm_rcpc_imm9. destruct (_ && _); [done|apply imm9_effect]. Qed.

Lemma offset_effects : has_effect ENeutral arm_uimm12 /\ has_effect ENeutral arm_register_offset.
Proof.
  split; intros w pc g fl; unfold arm_uimm12, arm_register_offset; (destruct (load_store_op _ _) as [op|]; [|done]); cbv zeta;
    [|destruct (negb _); [done|]]; by apply (f_equal Some), access_flags.
Qed.

Lemma pair_effects : has_effect ENeutral arm_pair /\ has_effect ENeutral arm_nontemporal_pair.
Proof.
  assert (H : has_effect ENeutral arm_pair); [|split; [exact H|]; intros w; apply (H (Z.lor w (2 ^ 24)))].
  intros w pc g fl. unfold arm_pair. destruct (_ || _); [done|]. cbv zeta. apply (f_equal Some). change (rXSP (set_flags g fl)) with (rXSP g).
  destruct (Bit w 22); unfold MemRead, MemWrite; cbn [Mem set_flags set_mem].
  - destruct (readable _ _ _); [|done]. destruct (readable _ _ _); [|done]. destruct (Bit w 23); rewrite <- ?wX_flags; reflexivity.
  - destruct (writable _ _ _); [|done]. destruct (writable _ _ _); [|done]. by destruct (Bit w 23).
Qed.

Lemma system_effects : has_effect ENeutral arm_nop /\ has_effect ENeutral arm_undefined /\ has_effect ENeutral arm_BRK /\ has_effect ENeutral arm_DC_ZVA.
Proof.
  split_and!; try done. intros w pc g fl. unfold arm_DC_ZVA. rewrite X_flags. cbv zeta. cbn [Mem set_flags]. by destruct (writable _ _ _).
Qed.

(** The effects by the names of [ArmTable]. *)
Definition Effects : list Effect :=
  [ENeutral; ENeutral; ENeutral; EWriter23; ENeutral; EWriter23] ++ replicate 4 EOpc ++ replicate 65 ENeutral ++ replicate 8 EOpc ++ replicate 8 EBit29 ++
  replicate 12 EReader ++ replicate 8 ENeutral.

Ltac effect :=
  lazymatch goal with
  | |- has_effect EReader _ => exact (fun _ => I)
  | |- has_effect EWriter23 (arm_add_sub_imm ?o true) => exact (add_sub_imm_effect o true)
  | |- has_effect ENeutral (arm_add_sub_imm ?o false) => exact (add_sub_imm_effect o false)
  | |- has_effect _ arm_logical_imm => exact logical_imm_effect
  | |- has_effect _ arm_logical_shifted => exact logical_shifted_effect
  | |- has_effect _ arm_add_sub_shifted => exact add_sub_shifted_effect
  | |- has_effect _ arm_add_sub_extended => exact add_sub_extended_effect
  | |- has_effect _ arm_move_wide => exact move_wide_effect
  | |- has_effect _ arm_bitfield => exact bitfield_effect
  | |- has_effect _ arm_EXTR => exact extr_effect
  | |- has_effect _ (arm_unary ?f) => exact (unary_effect f)
  | |- has_effect _ arm_REV => exact rev_effect
  | |- has_effect _ arm_nop => exact (proj1 system_effects)
  | |- has_effect _ arm_undefined => exact (proj1 (proj2 system_effects))
  | |- has_effect _ arm_BRK => exact (proj1 (proj2 (proj2 system_effects)))
  | |- has_effect _ arm_DC_ZVA => exact (proj2 (proj2 (proj2 system_effects)))
  | |- has_effect _ arm_imm9 => exact imm9_effect
  | |- has_effect _ arm_rcpc_imm9 => exact rcpc_effect
  | H : has_effect ENeutral ?f |- has_effect _ ?f => exact H
  | H : forall x, has_effect ENeutral (?f x) |- has_effect _ (?f ?s) => exact (H s)
  | H : forall x y, has_effect ENeutral (?f x y) |- has_effect _ (?f ?s ?t) => exact (H s t)
  end.

Lemma arm_effects : Forall2 (fun e a => has_effect e a.2) Effects ArmTable.
Proof.
  destruct register_effects as (? & ? & ? & ? & ? & ? & ? & ?), literal_effects as (? & ? & ?), offset_effects, pair_effects.
  unfold Effects, ArmTable, ArmTable_imm, ArmTable_system, ArmTable_mem, ArmTable_reg. cbn [replicate app]. repeat (constructor; [cbn [snd]; effect|]). constructor.
Qed.

(** The effect of a name. *)
Definition effect_of (n : string) : option Effect := snd <$> List.find (fun p => String.eqb p.1 n) (zip (map fst ArmTable) Effects).

Lemma effect_find n f : arm_of n = Some f -> exists e, effect_of n = Some e /\ has_effect e f.
Proof.
  unfold arm_of, effect_of. generalize arm_effects. generalize Effects, ArmTable. intros es l H.
  induction H as [|e [m g] es l He H IH]; cbn; [done|]. destruct (String.eqb m n); [|done]. intros [= <-]. by exists e.
Qed.

(** The words that fit, by bit 23 where the row leaves it free. *)
Definition split23 (p : Pattern) : list Pattern :=
  if Z.testbit (PMask p) 23 then [p]
  else [mkPattern (Z.lor (PMask p) (2 ^ 23)) (PExpect p); mkPattern (Z.lor (PMask p) (2 ^ 23)) (Z.lor (PExpect p) (2 ^ 23))].

Lemma fits_split p w : fits p w -> exists q, q ∈ split23 p /\ fits q w.
Proof.
  intros [Hw Hp]. unfold split23. destruct (Z.testbit (PMask p) 23); [exists p; split; [apply list_elem_of_here|done]|].
  assert (Hb : Z.land w (2 ^ 23) = 0 \/ Z.land w (2 ^ 23) = 2 ^ 23).
  { destruct (Z.testbit w 23) eqn:Hb; [right|left]; apply Z.bits_inj'; intros i Hi; rewrite Z.land_spec, ?Z.bits_0, Z.pow2_bits_eqb by lia;
      destruct (Z.eqb_spec 23 i) as [<-|]; by rewrite ?Hb, ?andb_false_r. }
  destruct Hb as [Hb|Hb]; eexists; (split; [|split; [exact Hw|]]).
  - apply list_elem_of_here.
  - cbn. rewrite Z.land_lor_distr_r, Hp, Hb. apply Z.lor_0_r.
  - apply elem_of_cons. right. apply list_elem_of_here.
  - cbn. by rewrite Z.land_lor_distr_r, Hp, Hb.
Qed.

(** The class of the words that fit agrees with the effect. *)
Definition class_ok (e : Effect) (p : Pattern) : bool :=
  match e, classify3 p with
  | ENeutral, Some (WC_NEUTRAL, _) | EReader, Some (WC_READER, _) => true
  | EWriter23, Some (WC_NEUTRAL, _) => bool_decide (test3 p 23 1 0 = Some false)
  | EWriter23, Some (WC_WRITER, _) => bool_decide (test3 p 23 1 0 = Some true)
  | EBit29, Some (WC_NEUTRAL, _) => bool_decide (test3 p 29 1 0 = Some true)
  | EBit29, Some (WC_WRITER, _) => bool_decide (test3 p 29 1 0 = Some false)
  | EOpc, Some (WC_NEUTRAL, _) => bool_decide (test3 p 29 3 3 = Some false)
  | EOpc, Some (WC_WRITER, _) => bool_decide (test3 p 29 3 3 = Some true)
  | _, _ => false
  end.

Definition row_ok (row : string * string) : bool :=
  match effect_of row.1 with Some e => forallb (class_ok e) (split23 (pattern row.2)) | None => false end.

Definition DataRows : list (string * string) := A64Immediate ++ A64LoadStore ++ A64Register.

Lemma rows_ok : forallb row_ok DataRows = true.
Proof. vm_compute. reflexivity. Qed.

(** What the class of a word says about its semantics. *)
Definition class_sound (c : WordClass) (f : Z -> Z -> Guest -> option Guest) (w : Z) : Prop :=
  match c with
  | WC_NEUTRAL => neutral_on f w
  | WC_WRITER => writes_on f w
  | WC_READER => True
  | _ => False
  end.

Lemma row_sound n bits f w : (n, bits) ∈ DataRows -> arm_of n = Some f -> fits (pattern bits) w -> class_sound (Kind (ClassifyWord w)) f w.
Proof.
  intros Hin Hf Hp. pose proof rows_ok as Hok. rewrite forallb_forall in Hok. specialize (Hok _ (proj1 (list_elem_of_In _ _) Hin)).
  destruct (effect_find n f Hf) as (e & He & Heff). unfold row_ok in Hok. cbn [fst snd] in Hok. rewrite He, forallb_forall in Hok.
  destruct (fits_split _ _ Hp) as (q & Hq & Hfq). specialize (Hok q (proj1 (list_elem_of_In _ _) Hq)). unfold class_ok in Hok.
  pose proof (classify3_sound _ _ Hfq) as Hc. destruct (classify3 q) as [[c d]|] eqn:Hcl; [|destruct e; discriminate Hok].
  destruct (Hc _ eq_refl) as [Hk _]. cbn [fst] in Hk. rewrite Hk. specialize (Heff w).
  destruct e, c; try discriminate Hok; lazymatch type of Hok with
    | true = true => lazymatch goal with |- class_sound WC_READER _ _ => exact I | _ => exact Heff end
    | bool_decide (test3 _ ?s ?m ?x = _) = _ => apply bool_decide_eq_true in Hok; rewrite (test3_sound q w s m x Hfq ltac:(lia) _ Hok) in Heff; exact Heff
    end.
Qed.

(** C23. The table of word classes is right about every integer data-processing,
    load and store word: for each row of a64.inc and each of the words it
    matches, a word classed neutral does the same to registers and memory under
    any flags and leaves them, a word classed writer has an outcome that the
    incoming flags do not reach, and no such word is in a class that ends a path
    or transfers control. *)
Theorem table_sound n bits f w :
  (n, bits) ∈ A64Immediate ++ A64LoadStore ++ A64Register -> arm_of n = Some f -> fits (pattern bits) w ->
  match (ClassifyGuestWord w).1 with
  | WC_NEUTRAL => forall pc g fl, f pc w (set_flags g fl) = (fun g' => set_flags g' fl) <$> f pc w g
  | WC_WRITER => forall pc g fl, f pc w (set_flags g fl) = f pc w g
  | WC_READER => True
  | _ => False
  end.
Proof. apply row_sound. Qed.

Definition sample_flags (fl : NZCV) : Guest := mkGuest (replicate 32 7) fl 0 (mkMemory (fun _ => 0) (fun _ => true) (fun _ => true)) 0 None.

(** adds w3, w4, #1 *)
Lemma table_sound_witness :
  arm_add_sub_imm false true 0 0x31000483 (set_flags (sample_flags (mkNZCV true true true true)) (mkNZCV false false false false))
  = arm_add_sub_imm false true 0 0x31000483 (sample_flags (mkNZCV true true true true)).
Proof.
  apply (table_sound "ADDS_imm" "z0110001ssiiiiiiiiiiiinnnnnddddd" (arm_add_sub_imm false true) 0x31000483).
  - apply list_elem_of_In. do 3 right. left. reflexivity.
  - reflexivity.
  - split; [split; [discriminate|reflexivity]|reflexivity].
Defined.

(** Where the classes differ from their descriptions: UDF is neutral and ERET a
    return, RMIF and SETF8 are readers, and only CFINV, XAFLAG and AXFLAG are
    partial writers. *)
Lemma table_departs :
  map (fun w => (ClassifyGuestWord w).1) [0x00000000; 0xD69F03E0; 0xBA000400; 0x3A00080D; 0xD500401F]
  = [WC_NEUTRAL; WC_RET; WC_READER; WC_READER; WC_PARTIAL].
Proof. reflexivity. Qed.
