(* ===== verification/NZCVMachine.v ===== *)
(** A guest over the integer data-processing, load and store and branch
    instructions, with the Arm semantics of each word: an instance of
    [NZCVTable], so that the verdicts of the flag scan hold for it without
    further assumption.  An access that faults stops the guest.  System calls are
    a function of the registers: the kernel preserves the flags. *)
From S2P Require Import Prelude A64Common IR ArmSpec DecodeTable A64Rows Frontend FrontendSpec NZCVScan NZCVScanSpec NZCVPeekSpec NZCVTable.
From stdpp Require Import strings.
Open Scope Z_scope.
Import Census NZCVPeek.

(** ** Branches *)

(** The branches, and system calls. *)
Definition arm_control (kernel : list Z -> option (list Z)) (name : string) (pc w : Z) (g : Guest) : option (Z * Guest) :=
  if String.eqb name "SVC" then R ← kernel (Regs g); Some (u64 (pc + 4), mkGuest R (Flags g) (PCSlot g) (Mem g) (Marker g) (Stop g))
  else arm_branch name pc w g.

(** ** Displacements *)

Lemma lxor_pow2 v k : 0 <= k -> 0 <= v < 2 ^ (k + 1) -> Z.lxor v (2 ^ k) = if v <? 2 ^ k then v + 2 ^ k else v - 2 ^ k.
Proof.
  intros Hk Hv. rewrite Z.pow_add_r in Hv by lia. change (2 ^ 1) with 2 in Hv. assert (Hp : 0 < 2 ^ k) by (apply Z.pow_pos_nonneg; lia).
  assert (Hd : forall r, 0 <= r < 2 ^ k -> Z.lxor r (2 ^ k) = r + 2 ^ k).
  { intros r Hr. symmetry. apply Z.add_nocarry_lxor. apply Z.bits_inj'. intros i Hi. rewrite Z.land_spec, Z.bits_0, Z.pow2_bits_eqb by lia.
    destruct (Z.eqb_spec k i) as [<-|]; [|by rewrite andb_false_r]. by rewrite (testbit_above k r) by (done || lia). }
  destruct (Z.ltb_spec v (2 ^ k)); [apply Hd; lia|]. replace v with (Z.lxor (v - 2 ^ k) (2 ^ k)) at 1 by (rewrite Hd by lia; lia).
  by rewrite Z.lxor_assoc, Z.lxor_nilpotent, Z.lxor_0_r.
Qed.

Lemma census_SignExtend v n : 0 < n < 32 -> in_width n v -> Census.SignExtend v n = sgn n v.
Proof.
  intros Hn Hv. unfold Census.SignExtend. assert (H2 : 2 ^ n = 2 * 2 ^ (n - 1)) by (rewrite <- Z.pow_succ_r by lia; f_equal; lia).
  assert (Hlt : 2 ^ (n - 1) < 2 ^ 31) by (apply Z.pow_lt_mono_r; lia). assert (0 < 2 ^ (n - 1)) by (apply Z.pow_pos_nonneg; lia).
  assert (Hs : u32 (Z.shiftl 1 (n - 1)) = 2 ^ (n - 1)) by (rewrite Z.shiftl_1_l; apply wrap_small; unfold in_width; lia).
  rewrite Hs, lxor_pow2 by (replace (n - 1 + 1) with n by lia; (done || lia)). unfold u32. rewrite sgn_wrap by lia.
  unfold in_width in Hv. unfold sgn at 2. rewrite Z.mod_small by lia. destruct (Z.ltb_spec v (2 ^ (n - 1))); rewrite sgn_id by lia; lia.
Qed.

(** The displacements of the classifier are those of the pseudocode. *)
Lemma disp_offset w :
  disp DImm26 w = branch_offset 26 (Bits w 25 0) /\ disp DImm19 w = branch_offset 19 (Bits w 23 5) /\ disp DImm14 w = branch_offset 14 (Bits w 18 5).
Proof.
  assert (H : forall s n v, 0 < n < 32 -> v = Z.land (Z.shiftr w s) (Z.ones n) -> Census.SignExtend v n * 4 = branch_offset n v).
  { intros s n v Hn ->. rewrite land_wrap by lia. rewrite census_SignExtend by (lia || (apply wrap_range; lia)). apply sgn_times4. lia. }
  split_and!; cbn [disp].
  - apply (H 0); [lia|]. by rewrite Z.shiftr_0_r.
  - apply (H 5); [lia|done].
  - apply (H 5); [lia|done].
Qed.

(** ** The guest *)

Definition Rows : list (string * string) := DataRows ++ A64Branch.
Definition row_matches (w : Z) (row : string * string) : bool := let p := pattern row.2 in Z.land w (PMask p) =? PExpect p.

Record AState := mkA { A_pc : Z; A_guest : Guest; A_code : Z -> option Z }.

Section Arm.
Context (kernel : list Z -> option (list Z)).

(** One instruction; a word of no row, an undefined one and an access that
    faults stop the guest. *)
Definition arm_word (pc w : Z) (g : Guest) : option (Z * Guest) :=
  if in_widthb 32 w then
    '(name, _) ← List.find (row_matches w) Rows;
    match arm_of name with
    | Some f => g ← f pc w g; match Stop g with None => Some (u64 (pc + 4), g) | Some _ => None end
    | None => arm_control kernel name pc w g
    end
  else None.

Definition arm_step (s : AState) : option AState :=
  w ← A_code s (A_pc s); '(pc, g) ← arm_word (A_pc s) w (A_guest s); Some (mkA pc g (A_code s)).

#[export] Instance arm_machine : Machine AState := {|
  m_pc := A_pc; m_code := A_code; m_step := arm_step;
  same_but_nzcv s t := A_pc s = A_pc t /\ A_code s = A_code t /\ exists fl, A_guest t = set_flags (A_guest s) fl |}.

(** The outcomes of one word under other flags. *)
Definition word_law (pc w : Z) : Prop :=
  forall g fl l, follows pc (ClassifyWord w) = Some l ->
    match arm_word pc w g, arm_word pc w (set_flags g fl) with
    | Some (q, g'), Some (q', g'') => q = q' /\ (g'' = g' \/ (g'' = set_flags g' fl /\ q ∈ l))
    | None, None => True
    | _, _ => False
    end.

Lemma find_fits w row : in_width 32 w -> List.find (row_matches w) Rows = Some row -> row ∈ Rows /\ fits (pattern row.2) w.
Proof.
  intros Hw Hf. apply find_some in Hf as [Hin Hm]. split; [by apply list_elem_of_In|]. split; [done|]. by apply Z.eqb_eq.
Qed.

(** A name of a data row is a name of [ArmTable], a name of a branch row is
    not. *)
Lemma rows_named :
  Forall (fun row => is_Some (arm_of row.1)) DataRows /\ Forall (fun row => arm_of row.1 = None) A64Branch.
Proof.
  split; [|by repeat constructor]. apply Forall_forall. intros [n b] Hin. cbn [fst].
  assert (Hall : forallb (fun row => bool_decide (row.1 ∈ map fst ArmTable)) DataRows = true) by (vm_compute; reflexivity).
  rewrite forallb_forall in Hall. specialize (Hall _ (proj1 (list_elem_of_In _ _) Hin)). apply bool_decide_eq_true in Hall. cbn [fst] in Hall.
  apply list_elem_of_fmap in Hall as ([m f] & -> & Hm). unfold arm_of. destruct (List.find _ ArmTable) as [p|] eqn:E; [by eexists|].
  apply list_elem_of_In in Hm. pose proof (find_none _ _ E _ Hm) as Hn. cbn in Hn. by rewrite String.eqb_refl in Hn.
Qed.

(** Data processing goes to the next word. *)
Lemma data_law f pc w l g fl :
  class_sound (Kind (ClassifyWord w)) f w -> follows pc (ClassifyWord w) = Some l ->
  match f pc w g, f pc w (set_flags g fl) with
  | Some g', Some g'' => g'' = g' \/ (g'' = set_flags g' fl /\ u64 (pc + 4) ∈ l)
  | None, None => True
  | _, _ => False
  end.
Proof.
  unfold class_sound, follows. destruct (Kind (ClassifyWord w)); try done; intros Hs [= <-]; rewrite (Hs pc g fl).
  - destruct (f pc w g); cbn; [|done]. right. split; [done|]. apply list_elem_of_here.
  - destruct (f pc w g); [by left|done].
Qed.

(** The class of a branch row. *)
Definition branch_class : list (WordClass * Disp) :=
  [(WC_READER, DNone); (WC_SVC, DNone); (WC_TERM, DNone); (WC_TERM, DNone); (WC_RET, DNone); (WC_BRANCH, DImm26); (WC_CALL, DImm26);
   (WC_TWOWAY, DImm19); (WC_TWOWAY, DImm19); (WC_TWOWAY, DImm14); (WC_TWOWAY, DImm14)].

Lemma branch_classes : Forall2 (fun row c => classify3 (pattern row.2) = Some c) A64Branch branch_class.
Proof. unfold A64Branch, branch_class. repeat (constructor; [vm_compute; reflexivity|]). constructor. Qed.

Lemma branch_row row : row ∈ A64Branch -> exists c, (row.1, c) ∈ zip (map fst A64Branch) branch_class /\ classify3 (pattern row.2) = Some c.
Proof.
  generalize branch_classes. generalize A64Branch, branch_class. intros rs cs H. induction H as [|r c rs cs Hrc H IH]; [by intros ?%elem_of_nil|].
  intros [->|Hin]%elem_of_cons; [exists c; split; [apply list_elem_of_here|done]|]. destruct (IH Hin) as (c' & Hz & Hc). exists c'. split; [|done]. cbn. apply elem_of_cons. by right.
Qed.

Lemma branch_law n b pc w l g fl :
  (n, b) ∈ A64Branch -> fits (pattern b) w -> follows pc (ClassifyWord w) = Some l ->
  match arm_control kernel n pc w g, arm_control kernel n pc w (set_flags g fl) with
  | Some (q, g'), Some (q', g'') => q = q' /\ g'' = set_flags g' fl /\ q ∈ l
  | None, None => True
  | _, _ => False
  end.
Proof.
  intros Hin Hp Hf. destruct (branch_row _ Hin) as ([c d] & Hz & Hc). cbn [fst snd] in Hz, Hc.
  destruct (classify3_sound _ _ Hp _ Hc) as [Hk Ho]. cbn [fst snd] in Hk, Ho. unfold follows in Hf. rewrite Hk, Ho in Hf.
  destruct (disp_offset w) as (H26 & H19 & H14). clear Hk Ho Hc Hp Hin.
  cbn [zip zip_with map fst A64Branch branch_class] in Hz.
  repeat (apply elem_of_cons in Hz as [[= -> -> ->]|Hz]; [try discriminate Hf; apply (inj Some) in Hf as <-; unfold arm_control, arm_branch; cbn [String.eqb Ascii.eqb Bool.eqb];
    rewrite ?X_flags, ?wX_flags, ?H26, ?H19, ?H14; clear|]); [..|by apply elem_of_nil in Hz].
  2-7: split; [reflexivity|split; [reflexivity|]]; try apply list_elem_of_here; case_if Hc; (apply list_elem_of_here || apply list_elem_of_further, list_elem_of_here).
  cbn. destruct (kernel (Regs g)); [|done]. cbn. split; [done|split; [done|]]. apply list_elem_of_here.
Qed.

Lemma arm_word_law pc w : word_law pc w.
Proof.
  intros g fl l Hf. unfold arm_word. destruct (in_widthb 32 w) eqn:Hw; [|done]. apply in_widthb_spec in Hw.
  destruct (List.find (row_matches w) Rows) as [[n b]|] eqn:Hrow; [|done]. cbn [mbind option_bind].
  destruct (find_fits w _ Hw Hrow) as [Hin Hp]. cbn [snd] in Hp. destruct rows_named as [Hdata Hbranch]. rewrite Forall_forall in Hdata, Hbranch.
  apply elem_of_app in Hin as [Hin|Hin].
  - destruct (Hdata _ Hin) as [f Hs]. cbn [fst] in Hs. rewrite Hs. pose proof (data_law f pc w l g fl (row_sound n b f w Hin Hs Hp) Hf) as Hl.
    destruct (f pc w g) as [g1|], (f pc w (set_flags g fl)) as [g2|]; try done. cbn [mbind option_bind].
    assert (Hst : Stop g2 = Stop g1) by (by destruct Hl as [->|[-> _]]). rewrite Hst. by destruct (Stop g1).
  - pose proof (Hbranch _ Hin) as Hs. cbn [fst] in Hs. rewrite Hs. pose proof (branch_law n b pc w l g fl Hin Hp Hf) as Hl.
    destruct (arm_control kernel n pc w g) as [[q g']|], (arm_control kernel n pc w (set_flags g fl)) as [[q' g'']|]; try done.
    destruct Hl as (-> & -> & Hq). split; [done|]. by right.
Qed.

#[export] Instance arm_table : NZCVTable AState.
Proof.
  split.
  - by intros [] [] (? & ? & ?); cbn in *; subst.
  - intros []; split_and!; [done|done|]. exists (Flags A_guest0). by destruct A_guest0.
  - intros [pc g code] [pc' g' code'] w l (Hpc & Hcode & fl & Hg). cbn in *. subst pc' code' g'. unfold arm_step. cbn. intros -> Hf. cbn [mbind option_bind].
    pose proof (arm_word_law pc w g fl l Hf) as Hl. destruct (arm_word pc w g) as [[q g1]|], (arm_word pc w (set_flags g fl)) as [[q' g2]|]; try done. cbn.
    destruct Hl as [-> [->|[-> Hq]]]; [by left|right]. split; [|done]. split_and!; [done|done|by exists fl].
Qed.

(** The code is apart from the memory that stores write. *)
Lemma run_code k (s s' : AState) : run k s = Some s' -> A_code s' = A_code s.
Proof.
  revert s. induction k as [|k IH]; intros s; cbn [run]; [by intros [= ->]|]. destruct (m_step s) as [s1|] eqn:Hs; [|done]. intros Hr%IH. rewrite Hr.
  cbn in Hs. unfold arm_step in Hs. destruct (A_code s (A_pc s)) as [w|]; [|done]. cbn [mbind option_bind] in Hs. destruct (arm_word _ _ _) as [[q g]|]; [|done].
  by apply (inj Some) in Hs as <-.
Qed.

End Arm.

(** ** An example *)

Definition no_kernel (_ : list Z) : option (list Z) := None.
#[local] Instance sample_machine : Machine AState := arm_machine no_kernel.
#[local] Instance sample_table : NZCVTable AState := arm_table no_kernel.

(** cbz x0, +8; add x1, x1, #1; subs x2, x1, x0; b.eq +8 *)
Definition sample_code (a : Z) : option Z :=
  if a =? 0x1000 then Some 0xB4000040
  else if a =? 0x1004 then Some 0x91000421
  else if a =? 0x1008 then Some 0xEB000022
  else if a =? 0x100C then Some 0x54000040 else None.

Definition sample_read (c : unit) (a : Z) : option Z * unit := (sample_code a, c).
Definition sample_state (fl : NZCV) : AState := mkA 0x1000 (mkGuest (replicate 32 0) fl 0 (mkMemory (fun _ => 0) (fun _ => true) (fun _ => true)) 0 None) sample_code.

(** Both legs of the branch reach the subtraction before the conditional branch,
    so four steps give the same state whatever the flags were. *)
Lemma dead_verdict_sound_witness :
  ScanWitnessed sample_read 0x1000 false tt (Some NoWitness) = Some (SCAN_DEAD, tt, Some (mkWitness 0x1000 0x100C)) /\
  option_Forall2 same_but_nzcv (run 4 (sample_state (mkNZCV true false true false))) (run 4 (sample_state (mkNZCV false true false true))).
Proof.
  split; [vm_compute; reflexivity|].
  apply (dead_verdict_sound sample_read sample_code 0x1000 false tt tt (Some NoWitness) (Some (mkWitness 0x1000 0x100C)) 4).
  - intros c a w _. unfold sample_read, sample_code. cbn [fst].
    destruct (Z.eqb_spec a 0x1000) as [->|]; [by split|]. destruct (Z.eqb_spec a 0x1004) as [->|]; [by split|].
    destruct (Z.eqb_spec a 0x1008) as [->|]; [by split|]. destruct (Z.eqb_spec a 0x100C) as [->|]; [by split|done].
  - lia.
  - vm_compute. reflexivity.
  - reflexivity.
  - split; [reflexivity|]. split; [reflexivity|]. by exists (mkNZCV false true false true).
  - intros k s' Hk Hr a _. apply (run_code no_kernel) in Hr. change (m_code s' a) with (A_code s' a). by rewrite Hr.
Defined.

(** b.eq at every word: the runs come apart at the first step. *)
Lemma tripwire_silent_witness :
  exists Dec', NoteUnitCompiled None (fun _ => 0x54000040) 0x1000 true Strict sample_unit no_stats = Some (Checked Dec' no_stats).
Proof.
  pose (start fl := mkA 0x1000 (mkGuest (replicate 32 0) fl 0 (mkMemory (fun _ => 0) (fun _ => true) (fun _ => true)) 0 None) (fun _ => Some 0x54000040)).
  apply (tripwire_silent None (fun _ => 0x54000040) 0x1000 true Strict sample_unit no_stats (start (mkNZCV false true false false)) (start (mkNZCV false false false false)) 1).
  - lia.
  - reflexivity.
  - split; [reflexivity|]. split; [reflexivity|]. by exists (mkNZCV false false false false).
  - intros k s' Hk Hr a. apply (run_code no_kernel) in Hr. change (m_code s' a) with (A_code s' a). by rewrite Hr.
  - intros H. vm_compute in H. inversion H as [x y Hs|]. destruct Hs as [Hpc _]. discriminate Hpc.
Defined.
