(* ===== verification/Granules.v ===== *)
(** The bitmap of code granules (FEXCore/Source/Interface/Core/
    SMCCodeGranules.h): one bit per 64 bytes of guest memory, in a radix tree of
    three levels over 48-bit addresses, read without a lock as a proof that no
    code is near.  Whether the host gives memory for a node is a parameter. *)
From S2P Require Import Prelude.
From stdpp Require Import gmap.
Open Scope Z_scope.

Module CodeGranuleBitmap.

Definition kGranuleShift : Z := 6.
Definition kPageShift : Z := 12.
Definition kLeafBits : Z := 10.
Definition kL1Bits : Z := 13.
Definition kL0Bits : Z := 13.
Definition kLeafShift : Z := kPageShift.
Definition kL1Shift : Z := kLeafShift + kLeafBits.
Definition kL0Shift : Z := kL1Shift + kL1Bits.
Definition kMaxAddress : Z := 2 ^ (kL0Shift + kL0Bits).

(** Nodes by index; a word that is absent is zero, a node that is absent is a
    null pointer. *)
Abbreviation Leaf := (gmap Z Z).
Abbreviation L1Node := (gmap Z Leaf).
Abbreviation L0Node := (gmap Z L1Node).

(** [Root]; [None] when tracking is off. *)
Definition t := option L0Node.

Definition Enable (AllocRoot : bool) (b : t) : t := match b with Some _ => b | None => if AllocRoot then Some ∅ else None end.
Definition Enabled (b : t) : bool := if b is Some _ then true else false.

(** Both bits below 64. *)
Definition BitRangeMask (FirstBit LastBit : Z) : Z :=
  let Count := LastBit - FirstBit + 1 in
  let Base := if Count >=? 64 then 2 ^ 64 - 1 else Z.shiftl 1 Count - 1 in
  u64 (Z.shiftl Base FirstBit).

Definition L0Index (Addr : Z) : Z := Z.land (Z.shiftr Addr kL0Shift) (Z.shiftl 1 kL0Bits - 1).
Definition L1Index (Addr : Z) : Z := Z.land (Z.shiftr Addr kL1Shift) (Z.shiftl 1 kL1Bits - 1).
Definition WordIndex (Addr : Z) : Z := Z.land (Z.shiftr Addr kLeafShift) (Z.shiftl 1 kLeafBits - 1).

Definition PageMaskFor (PageBase Start Length : Z) : Z :=
  if Length =? 0 then 2 ^ 64 - 1
  else
    let PageEnd := u64 (PageBase + Z.shiftl 1 kPageShift) in
    let Lo := if Start >? PageBase then Start else PageBase in
    let HiExcl := if u64 (Start + Length) <? PageEnd then u64 (Start + Length) else PageEnd in
    if Lo >=? HiExcl then 2 ^ 64 - 1
    else BitRangeMask (Z.shiftr (Lo - PageBase) kGranuleShift) (Z.shiftr (HiExcl - 1 - PageBase) kGranuleShift).

Definition FindLeafFrom (R : L0Node) (Addr : Z) : option Leaf := match R !! L0Index Addr with Some N => N !! L1Index Addr | None => None end.
Definition FindLeaf (b : t) (Addr : Z) : option Leaf :=
  match b with Some R => if Addr >=? kMaxAddress then None else FindLeafFrom R Addr | None => None end.

(** Replacing the leaf of an address. *)
Definition put_leaf (R : L0Node) (Addr : Z) (L : Leaf) : L0Node :=
  <[L0Index Addr := <[L1Index Addr := L]> (default ∅ (R !! L0Index Addr))]> R.

Section Alloc.
(** Whether [AllocZeroed] succeeds, for a node of the first and of the second
    level below the root. *)
Context (AllocL1 AllocLeaf : bool).

(** The tree with the leaf, if there is one. *)
Definition GetOrCreateLeaf (b : t) (Addr : Z) : t * option Leaf :=
  match b with
  | None => (b, None)
  | Some R =>
      if Addr >=? kMaxAddress then (b, None)
      else
        match R !! L0Index Addr with
        | Some N =>
            match N !! L1Index Addr with
            | Some L => (b, Some L)
            | None => if AllocLeaf then (Some (put_leaf R Addr ∅), Some ∅) else (b, None)
            end
        | None =>
            if AllocL1 then
              if AllocLeaf then (Some (put_leaf R Addr ∅), Some ∅) else (Some (<[L0Index Addr := ∅]> R), None)
            else (b, None)
        end
  end.

Definition SetPageRange (PageBase Start Length : Z) (b : t) : t :=
  match GetOrCreateLeaf b PageBase with
  | (Some R, Some L) =>
      let Mask := PageMaskFor PageBase Start Length in
      let W := default 0 (L !! WordIndex PageBase) in
      Some (put_leaf R PageBase (<[WordIndex PageBase := Z.lor W Mask]> L))
  | (b, _) => b
  end.
End Alloc.

Definition RecomputePageWord (PageBase Word : Z) (b : t) : t :=
  match b, FindLeaf b PageBase with
  | Some R, Some L => Some (put_leaf R PageBase (<[WordIndex PageBase := Word]> L))
  | _, _ => b
  end.

Definition ClearPage (PageBase : Z) (b : t) : t := RecomputePageWord PageBase 0 b.

(** Every word of every leaf; no node is freed. *)
Definition zero_leaves (N : L1Node) : L1Node := fmap (M := gmap Z) (fun _ : Leaf => (∅ : Leaf)) N.
Definition ClearAll (b : t) : t := match b with Some R => Some (fmap (M := gmap Z) zero_leaves R) | None => None end.

(** One page of the query: true when nothing of the range is marked. *)
Definition page_clear (R : L0Node) (Start End Page : Z) : bool :=
  let PageBase := Z.shiftl Page kPageShift in
  match FindLeafFrom R PageBase with
  | None => true
  | Some L =>
      let Word := default 0 (L !! WordIndex PageBase) in
      if Word =? 0 then true
      else
        let PageEnd := PageBase + Z.shiftl 1 kPageShift in
        let Lo := if Start >? PageBase then Start else PageBase in
        let HiExcl := if End <? PageEnd then End else PageEnd in
        Z.land Word (BitRangeMask (Z.shiftr (Lo - PageBase) kGranuleShift) (Z.shiftr (HiExcl - 1 - PageBase) kGranuleShift)) =? 0
  end.

Definition ProvablyClear (Start Length : Z) (b : t) : bool :=
  match b with
  | None => false
  | Some R =>
      if Length =? 0 then false
      else
        let End := u64 (Start + Length) in
        if (End <? Start) || (End >? kMaxAddress) then false
        else
          let FirstPage := Z.shiftr Start kPageShift in
          let LastPage := Z.shiftr (End - 1) kPageShift in
          if LastPage - FirstPage >? 3 then false
          else forallb (page_clear R Start End) (map (fun i => FirstPage + Z.of_nat i) (seq 0 (Z.to_nat (LastPage - FirstPage + 1))))
  end.

(** ** The tree as a map from pages to words *)

(** The word of the page [p] (an index); zero where there is none. *)
Definition word (b : t) (p : Z) : Z :=
  match FindLeaf b (Z.shiftl p 12) with Some L => default 0 (L !! WordIndex (Z.shiftl p 12)) | None => 0 end.

Definition page_ok (p : Z) : Prop := 0 <= p < 2 ^ 36.

Lemma shift_range p : page_ok p -> 0 <= Z.shiftl p 12 < 2 ^ 48.
Proof. intros Hp. rewrite Z.shiftl_mul_pow2 by lia. unfold page_ok in Hp. lia. Qed.

(** The three indices determine the page. *)
Lemma index_split p : page_ok p ->
  L0Index (Z.shiftl p 12) = p / 2 ^ 23 /\ L1Index (Z.shiftl p 12) = p / 2 ^ 10 mod 2 ^ 13 /\ WordIndex (Z.shiftl p 12) = p mod 2 ^ 10.
Proof.
  intros Hp. unfold page_ok in Hp. unfold L0Index, L1Index, WordIndex, kL0Shift, kL1Shift, kLeafShift, kPageShift, kL0Bits, kL1Bits, kLeafBits.
  rewrite !Z.shiftl_1_l, !pow2_pred_ones, !Z.land_ones by lia. rewrite !Z.shiftr_div_pow2, Z.shiftl_mul_pow2 by lia.
  replace (12 + 10 + 13) with (23 + 12) by lia. replace (12 + 10) with (10 + 12) by lia. rewrite !Z.pow_add_r by lia.
  rewrite !(Z.mul_comm _ (2 ^ 12)), !Z.div_mul_cancel_l, (Z.mul_comm _ p), Z.div_mul by lia.
  split; [apply Z.mod_small; split; [apply Z.div_pos; lia|apply Z.div_lt_upper_bound; lia]|done].
Qed.

Lemma index_inj p q : page_ok p -> page_ok q ->
  L0Index (Z.shiftl p 12) = L0Index (Z.shiftl q 12) -> L1Index (Z.shiftl p 12) = L1Index (Z.shiftl q 12) ->
  WordIndex (Z.shiftl p 12) = WordIndex (Z.shiftl q 12) -> p = q.
Proof.
  intros Hp Hq. destruct (index_split p Hp) as (-> & -> & ->). destruct (index_split q Hq) as (-> & -> & ->). intros H0 H1 H2.
  assert (Hd : forall x, x = (x / 2 ^ 23 * 2 ^ 13 + x / 2 ^ 10 mod 2 ^ 13) * 2 ^ 10 + x mod 2 ^ 10).
  { intros x. change (2 ^ 23) with (2 ^ 10 * 2 ^ 13). rewrite <- Z.div_div by lia. rewrite (Z.mul_comm (x / 2 ^ 10 / 2 ^ 13)), <- Z.div_mod by lia.
    rewrite (Z.mul_comm (x / 2 ^ 10)). by apply Z.div_mod. }
  rewrite (Hd p), (Hd q), H0, H1, H2. done.
Qed.

Lemma find_leaf_page R p : page_ok p -> FindLeaf (Some R) (Z.shiftl p 12) = FindLeafFrom R (Z.shiftl p 12).
Proof.
  intros Hp. unfold FindLeaf. pose proof (shift_range p Hp). unfold kMaxAddress, kL0Shift, kL1Shift, kLeafShift, kPageShift, kLeafBits, kL1Bits, kL0Bits.
  rewrite Z.geb_leb. by replace (2 ^ (12 + 10 + 13 + 13) <=? Z.shiftl p 12) with false by lia.
Qed.

Lemma put_leaf_find R a L a' :
  FindLeafFrom (put_leaf R a L) a' = if decide (L0Index a = L0Index a' /\ L1Index a = L1Index a') then Some L else FindLeafFrom R a'.
Proof.
  unfold put_leaf, FindLeafFrom. destruct (decide (L0Index a = L0Index a')) as [E|E].
  - rewrite <- E, lookup_insert_eq. destruct (decide (L1Index a = L1Index a')) as [E'|E'].
    + rewrite decide_True by done. by rewrite <- E', lookup_insert_eq.
    + rewrite decide_False by tauto. rewrite lookup_insert_ne by done. destruct (R !! L0Index a); [done|]. cbn. by rewrite lookup_empty.
  - rewrite decide_False by tauto. by rewrite lookup_insert_ne.
Qed.

(** Replacing one word of a leaf that holds the others. *)
Lemma word_put R p L v q : page_ok p -> page_ok q ->
  (forall i, default 0 (L !! i) = match FindLeafFrom R (Z.shiftl p 12) with Some L' => default 0 (L' !! i) | None => 0 end) ->
  word (Some (put_leaf R (Z.shiftl p 12) (<[WordIndex (Z.shiftl p 12) := v]> L))) q = if decide (p = q) then v else word (Some R) q.
Proof.
  intros Hp Hq HL. unfold word. rewrite !find_leaf_page, put_leaf_find by done. destruct (decide (p = q)) as [<-|Hne].
  - rewrite decide_True by done. by rewrite lookup_insert_eq.
  - destruct (decide _) as [[E0 E1]|]; [|done]. rewrite lookup_insert_ne by (intros E2; apply Hne; by apply index_inj). rewrite HL.
    unfold FindLeafFrom. by rewrite E0, E1.
Qed.

Lemma word_fill R p q : page_ok p -> page_ok q -> FindLeafFrom R (Z.shiftl p 12) = None -> word (Some (put_leaf R (Z.shiftl p 12) ∅)) q = word (Some R) q.
Proof.
  intros Hp Hq Hn. unfold word. rewrite !find_leaf_page, put_leaf_find by done. destruct (decide _) as [[E0 E1]|]; [|done].
  unfold FindLeafFrom in *. by rewrite <- E0, <- E1, Hn.
Qed.

(** With memory for the nodes, the bits of the range are set and no others
    change; without, nothing is marked. *)
Lemma word_set p S L b q : page_ok p -> page_ok q -> Enabled b = true ->
  word (SetPageRange true true (Z.shiftl p 12) S L b) q
  = if decide (p = q) then Z.lor (word b p) (PageMaskFor (Z.shiftl p 12) S L) else word b q.
Proof.
  intros Hp Hq Hb. destruct b as [R|]; [|done]. unfold SetPageRange, GetOrCreateLeaf.
  pose proof (shift_range p Hp) as Hr. unfold kMaxAddress, kL0Shift, kL1Shift, kLeafShift, kPageShift, kLeafBits, kL1Bits, kL0Bits.
  rewrite Z.geb_leb. replace (2 ^ (12 + 10 + 13 + 13) <=? Z.shiftl p 12) with false by lia.
  assert (Hnew : FindLeafFrom R (Z.shiftl p 12) = None ->
    word (Some (put_leaf (put_leaf R (Z.shiftl p 12) ∅) (Z.shiftl p 12) (<[WordIndex (Z.shiftl p 12) := Z.lor (default 0 ((∅ : Leaf) !! WordIndex (Z.shiftl p 12))) (PageMaskFor (Z.shiftl p 12) S L)]> ∅))) q
    = if decide (p = q) then Z.lor (word (Some R) p) (PageMaskFor (Z.shiftl p 12) S L) else word (Some R) q).
  { intros Hn. rewrite word_put; [|done|done|intros i; rewrite put_leaf_find, decide_True by done; done]. rewrite word_fill by done.
    unfold word at 2. by rewrite find_leaf_page, Hn, lookup_empty by done. }
  destruct (R !! L0Index (Z.shiftl p 12)) as [N|] eqn:H0; [destruct (N !! L1Index (Z.shiftl p 12)) as [Lf|] eqn:H1|].
  - assert (Hf : FindLeafFrom R (Z.shiftl p 12) = Some Lf) by (unfold FindLeafFrom; by rewrite H0).
    rewrite word_put by (done || (intros i; by rewrite Hf)). unfold word at 2. by rewrite find_leaf_page, Hf by done.
  - apply Hnew. unfold FindLeafFrom. by rewrite H0.
  - apply Hnew. unfold FindLeafFrom. by rewrite H0.
Qed.

Lemma word_recompute p v b q : page_ok p -> page_ok q ->
  word (RecomputePageWord (Z.shiftl p 12) v b) q = if decide (p = q /\ is_Some (FindLeaf b (Z.shiftl p 12))) then v else word b q.
Proof.
  intros Hp Hq. unfold RecomputePageWord. destruct b as [R|]; [|rewrite decide_False; [done|intros [_ [? ?]]; done]].
  destruct (FindLeaf (Some R) (Z.shiftl p 12)) as [L|] eqn:HL; [|rewrite decide_False; [done|intros [_ [? ?]]; done]].
  rewrite find_leaf_page in HL by done. rewrite word_put by (done || (intros i; by rewrite HL)).
  destruct (decide (p = q)); [rewrite decide_True by (split; [done|by eexists]); done|by rewrite decide_False by tauto].
Qed.

Lemma word_clear p b q : page_ok p -> page_ok q -> word (ClearPage (Z.shiftl p 12) b) q = if decide (p = q) then 0 else word b q.
Proof.
  intros Hp Hq. unfold ClearPage. rewrite word_recompute by done. destruct (decide (p = q)) as [<-|]; [|by rewrite decide_False by tauto].
  destruct (decide _) as [|Hn]; [done|]. unfold word. destruct (FindLeaf b (Z.shiftl p 12)) eqn:E; [|done]. destruct Hn. split; [done|by eexists].
Qed.

Lemma word_clear_all b q : page_ok q -> word (ClearAll b) q = 0.
Proof.
  intros Hq. unfold word, ClearAll. destruct b as [R|]; [|done]. rewrite find_leaf_page by done. unfold FindLeafFrom. rewrite lookup_fmap.
  destruct (R !! _) as [N|]; [|done]. cbn. unfold zero_leaves. rewrite lookup_fmap. destruct (N !! _); [|done]. cbn. by rewrite lookup_empty.
Qed.

(** ** Masks *)

Lemma mask_bits F L i : 0 <= F <= L -> L < 64 -> 0 <= i < 64 -> Z.testbit (BitRangeMask F L) i = (F <=? i) && (i <=? L).
Proof.
  intros HF HL Hi. unfold BitRangeMask.
  assert (Hb : (if L - F + 1 >=? 64 then 2 ^ 64 - 1 else Z.shiftl 1 (L - F + 1) - 1) = Z.ones (L - F + 1)).
  { destruct (Z.geb_spec (L - F + 1) 64); [replace (L - F + 1) with 64 by lia; reflexivity|]. rewrite Z.shiftl_1_l. apply pow2_pred_ones. }
  rewrite Hb. unfold u64. rewrite testbit_wrap, Z.shiftl_spec by lia. replace (i <? 64) with true by lia. cbn [andb].
  destruct (decide (F <= i)); [rewrite Z.testbit_ones_nonneg by lia; lia|rewrite Z.testbit_neg_r by lia; lia].
Qed.

(** The granule of an address. *)
Definition granule (a : Z) : Z := a mod 4096 / 64.

Lemma granule_shift p a : a / 4096 = p -> Z.shiftr (a - Z.shiftl p 12) kGranuleShift = granule a.
Proof.
  intros Hp. unfold granule, kGranuleShift. rewrite Z.shiftr_div_pow2, Z.shiftl_mul_pow2 by lia. f_equal.
  pose proof (Z.div_mod a 4096). lia.
Qed.

Lemma granule_mono a b : a / 4096 = b / 4096 -> a <= b -> 0 <= granule a <= granule b /\ granule b < 64.
Proof.
  intros Hp Hab. unfold granule. pose proof (Z.div_mod a 4096). pose proof (Z.div_mod b 4096). pose proof (Z.mod_pos_bound a 4096). pose proof (Z.mod_pos_bound b 4096).
  split; [split; [apply Z.div_pos; lia|apply Z.div_le_mono; lia]|apply Z.div_lt_upper_bound; lia].
Qed.

Lemma granule_page_between p a : p * 4096 <= a < p * 4096 + 4096 -> a / 4096 = p.
Proof. intros Ha. symmetry. apply (Z.div_unique_pos a 4096 p (a - p * 4096)); lia. Qed.

(** The part of [S, E) in the page [p], as both sides of the bitmap compute
    it, and the granules of its first and last byte around that of [x]. *)
Definition clip_lo (p S : Z) : Z := if S >? Z.shiftl p 12 then S else Z.shiftl p 12.
Definition clip_hi (p E : Z) : Z := if E <? Z.shiftl p 12 + 4096 then E else Z.shiftl p 12 + 4096.

Lemma clip_page p S E x :
  S <= x < E -> x / 4096 = p ->
  clip_lo p S <= x < clip_hi p E /\
  Z.testbit (BitRangeMask (Z.shiftr (clip_lo p S - Z.shiftl p 12) kGranuleShift) (Z.shiftr (clip_hi p E - 1 - Z.shiftl p 12) kGranuleShift)) (granule x) = true.
Proof.
  intros Hx Hp. pose proof (Z.div_mod x 4096). pose proof (Z.mod_pos_bound x 4096).
  assert (Hs : Z.shiftl p 12 = p * 4096) by (rewrite Z.shiftl_mul_pow2 by lia; done).
  assert (Hlo : clip_lo p S <= x /\ clip_lo p S / 4096 = p) by (unfold clip_lo; rewrite Hs; destruct (Z.gtb_spec S (p * 4096)); (split; [lia|apply granule_page_between; lia])).
  assert (Hhi : x < clip_hi p E /\ (clip_hi p E - 1) / 4096 = p) by (unfold clip_hi; rewrite Hs; destruct (Z.ltb_spec E (p * 4096 + 4096)); (split; [lia|apply granule_page_between; lia])).
  split; [lia|]. destruct Hlo as [Hl1 Hl2], Hhi as [Hh1 Hh2]. rewrite !granule_shift by done.
  pose proof (granule_mono (clip_lo p S) x ltac:(lia) ltac:(lia)). pose proof (granule_mono x (clip_hi p E - 1) ltac:(lia) ltac:(lia)).
  rewrite mask_bits by lia. lia.
Qed.

(** Every byte of the extent that lies in the page is covered by its mask. *)
Lemma mask_covers p S L x : page_ok p -> 0 <= S -> 0 <= L -> S + L < 2 ^ 64 -> x / 4096 = p -> S <= x < S + L \/ L = 0 ->
  Z.testbit (PageMaskFor (Z.shiftl p 12) S L) (granule x) = true.
Proof.
  intros Hp HS HL Hw Hx Hin. pose proof (granule_mono x x eq_refl ltac:(lia)) as Hg. pose proof (shift_range p Hp).
  assert (Hall : Z.testbit (2 ^ 64 - 1) (granule x) = true) by (rewrite pow2_pred_ones, Z.testbit_ones_nonneg by lia; lia).
  unfold PageMaskFor, kPageShift. change (Z.shiftl 1 12) with 4096. destruct (Z.eqb_spec L 0); [done|]. rewrite !u64_small by lia.
  destruct Hin as [Hin|]; [|lia]. destruct (clip_page p S (S + L) x Hin Hx) as [_ Hb]. unfold clip_lo, clip_hi in Hb.
  destruct (_ >=? _); [done|exact Hb].
Qed.

(** ** The query *)

Lemma page_clear_sound R S E p x : page_ok p -> page_clear R S E p = true -> S <= x < E -> x / 4096 = p -> Z.testbit (word (Some R) p) (granule x) = false.
Proof.
  intros Hp Hc Hx Hpx. unfold page_clear, kPageShift in Hc. unfold word. rewrite find_leaf_page by done.
  destruct (FindLeafFrom R (Z.shiftl p 12)) as [L|]; [|apply Z.bits_0]. destruct (Z.eqb_spec (default 0 (L !! WordIndex (Z.shiftl p 12))) 0) as [->|_]; [apply Z.bits_0|].
  destruct (clip_page p S E x Hx Hpx) as [_ Hb]. unfold clip_lo, clip_hi in Hb. change (Z.shiftl 1 12) with 4096 in Hc.
  apply Z.eqb_eq, (f_equal (fun z => Z.testbit z (granule x))) in Hc. rewrite Z.land_spec, Z.bits_0 in Hc. rewrite Hb, andb_true_r in Hc. done.
Qed.

(** A clear answer: no granule of the range is marked. *)
Lemma provably_clear_bits S L b x : 0 <= S < 2 ^ 64 -> 0 <= L < 2 ^ 64 -> ProvablyClear S L b = true -> S <= x < S + L ->
  x < 2 ^ 48 /\ Z.testbit (word b (x / 4096)) (granule x) = false.
Proof.
  intros HS HL Hc Hx. unfold ProvablyClear in Hc. destruct b as [R|]; [|done]. destruct (L =? 0); [done|].
  change kMaxAddress with (2 ^ 48) in Hc. destruct ((u64 (S + L) <? S) || (u64 (S + L) >? 2 ^ 48)) eqn:Hw; [done|]. apply orb_false_iff in Hw as [Hw1 Hw2].
  assert (Hu : u64 (S + L) = S + L).
  { destruct (decide (S + L < 2 ^ 64)); [apply u64_small; lia|]. exfalso. assert (u64 (S + L) = S + L - 2 ^ 64); [|lia].
    unfold u64, wrap. rewrite <- (Z_mod_plus_full (S + L) (-1)), Z.mod_small; lia. }
  rewrite Hu in *. split; [lia|]. destruct (_ >? 3); [done|]. rewrite forallb_forall in Hc. unfold kPageShift in Hc. rewrite !Z.shiftr_div_pow2 in Hc by lia. change (2 ^ 12) with 4096 in Hc.
  pose proof (Z.div_le_mono S x 4096 ltac:(lia) ltac:(lia)). pose proof (Z.div_le_mono x (S + L - 1) 4096 ltac:(lia) ltac:(lia)).
  apply (page_clear_sound R S (S + L)); [|apply Hc|done|done].
  - split; [apply Z.div_pos; lia|apply Z.div_lt_upper_bound; lia].
  - apply in_map_iff. exists (Z.to_nat (x / 4096 - S / 4096)). split; [lia|]. apply in_seq. lia.
Qed.

(** Without memory for a leaf the page stays unmarked, and the query takes the
    missing leaf for a proof that there is no code. *)
Lemma set_without_leaf p S L : page_ok p ->
  let b := SetPageRange true false (Z.shiftl p 12) S L (Enable true None) in ProvablyClear (Z.shiftl p 12) 1 b = true.
Proof.
  intros Hp. pose proof (shift_range p Hp) as Hr. cbn [Enable]. unfold SetPageRange, GetOrCreateLeaf. change kMaxAddress with (2 ^ 48).
  rewrite Z.geb_leb. replace (2 ^ 48 <=? Z.shiftl p 12) with false by lia. rewrite lookup_empty. unfold ProvablyClear. cbn [Z.eqb].
  rewrite u64_small by lia. change kMaxAddress with (2 ^ 48). replace ((Z.shiftl p 12 + 1 <? Z.shiftl p 12) || (Z.shiftl p 12 + 1 >? 2 ^ 48)) with false
    by (symmetry; apply orb_false_iff; rewrite Z.gtb_ltb; split; apply Z.ltb_ge; lia).
  replace (Z.shiftl p 12 + 1 - 1) with (Z.shiftl p 12) by lia. rewrite Z.sub_diag. change (Z.to_nat (0 + 1)) with 1%nat. cbn [seq map forallb].
  change (0 >? 3) with false. cbn iota. rewrite andb_true_r. unfold page_clear, FindLeafFrom.
  destruct (decide (L0Index (Z.shiftl p 12) = L0Index (Z.shiftl (Z.shiftr (Z.shiftl p 12) kPageShift + Z.of_nat 0) kPageShift))) as [E|E].
  - rewrite <- E, lookup_insert_eq. by rewrite lookup_empty.
  - rewrite lookup_insert_ne by done. by rewrite lookup_empty.
Qed.

End CodeGranuleBitmap.
