(* ===== verification/LookupMap.v ===== *)
(** The map from guest addresses to translations that the threads of a code
    buffer share: [GuestToHostMap] of FEXCore/Source/Interface/Core/
    LookupCache.h and .cpp.  It holds the blocks, the index of guest pages, the
    inbound links of each block in one pool with a free list, the blocks kept
    after a soft invalidation, and the bitmap of code granules.

    Every operation runs under the write lock, so they are functions on the
    state.  An access to the pool out of range, a dangling memo pointer and a
    chain that does not end are [None].  A call of a delinker is an entry of
    [Delinked].  The iterators over pages stand for the keys between the two
    bounds, in ascending order. *)
From S2P Require Import Prelude Granules.
From stdpp Require Import gmap.
Open Scope Z_scope.
Import CodeGranuleBitmap.

Module GuestToHostMap.

Definition BlockLinkInvalid : Z := 2 ^ 64 - 1.

Record BlockLinkNode := mkNode { HostLink : Z; Delinker : Z; Next : Z }.

Record BlockEntry := mkBlockEntry {
  HostCode : Z; BlockBegin : Z; EPages : list Z;
  GuestRangeStart : Z; GuestRangeLength : Z; GuestHash : Z; ExtentStart : Z; ExtentLength : Z }.

(** The memo of the last page: its index and the key of the vector it points
    to; [None] is the empty memo. *)
Record t := mkMap {
  BlockLinkPool : list BlockLinkNode; BlockLinkFreeHead : Z; BlockLinks : gmap Z Z;
  BlockList : gmap Z BlockEntry; CodePages : gmap Z (list Z); CodePagesMemo : option (Z * Z);
  RetainedBlocks : gmap Z BlockEntry; RetainedCodePages : gmap Z (gset Z);
  CodeGranules : CodeGranuleBitmap.t; Delinked : list (Z * Z) }.

Definition set_links (pool : list BlockLinkNode) (free : Z) (links : gmap Z Z) (log : list (Z * Z)) (s : t) : t :=
  mkMap pool free links (BlockList s) (CodePages s) (CodePagesMemo s) (RetainedBlocks s) (RetainedCodePages s) (CodeGranules s) log.
Definition set_blocks (l : gmap Z BlockEntry) (s : t) : t :=
  mkMap (BlockLinkPool s) (BlockLinkFreeHead s) (BlockLinks s) l (CodePages s) (CodePagesMemo s) (RetainedBlocks s) (RetainedCodePages s) (CodeGranules s) (Delinked s).
Definition set_pages (p : gmap Z (list Z)) (memo : option (Z * Z)) (s : t) : t :=
  mkMap (BlockLinkPool s) (BlockLinkFreeHead s) (BlockLinks s) (BlockList s) p memo (RetainedBlocks s) (RetainedCodePages s) (CodeGranules s) (Delinked s).
Definition set_retained (r : gmap Z BlockEntry) (rp : gmap Z (gset Z)) (s : t) : t :=
  mkMap (BlockLinkPool s) (BlockLinkFreeHead s) (BlockLinks s) (BlockList s) (CodePages s) (CodePagesMemo s) r rp (CodeGranules s) (Delinked s).
Definition set_granules (g : CodeGranuleBitmap.t) (s : t) : t :=
  mkMap (BlockLinkPool s) (BlockLinkFreeHead s) (BlockLinks s) (BlockList s) (CodePages s) (CodePagesMemo s) (RetainedBlocks s) (RetainedCodePages s) g (Delinked s).

(** The constructor, with whether granules are tracked. *)
Definition empty_map (Tracking AllocRoot : bool) : t :=
  mkMap [] BlockLinkInvalid ∅ ∅ ∅ None ∅ ∅ (if Tracking then Enable AllocRoot None else None) [].

(** ** Blocks *)

Definition AddBlockMapping (Address Begin : Z) (Pages : list Z) (Host GRStart GRLength Hash ExStart ExLength : Z) (s : t) : BlockEntry * t :=
  let e := mkBlockEntry Host Begin Pages GRStart GRLength Hash ExStart ExLength in (e, set_blocks (<[Address := e]> (BlockList s)) s).

Definition FindBlock (Address : Z) (s : t) : option BlockEntry := BlockList s !! Address.

(** ** Links *)

(** The loop over a chain from [Index]: the calls made, their number and the
    last index. *)
Fixpoint sever_loop (fuel : nat) (pool : list BlockLinkNode) (Index Tail Severed : Z) (log : list (Z * Z)) : option (Z * Z * list (Z * Z)) :=
  match fuel with
  | O => None
  | S fuel =>
      if Index =? BlockLinkInvalid then Some (Tail, Severed, log)
      else
        Node ← pool !! Z.to_nat Index;
        sever_loop fuel pool (Next Node) Index (Severed + 1) (log ++ [(Delinker Node, HostLink Node)])
  end.

Definition SeverLinks (Address : Z) (s : t) : option (Z * t) :=
  match BlockLinks s !! Address with
  | None => Some (0, s)
  | Some Head =>
      '(Tail, Severed, log) ← sever_loop (S (length (BlockLinkPool s))) (BlockLinkPool s) Head BlockLinkInvalid 0 (Delinked s);
      let links := delete Address (BlockLinks s) in
      if Tail =? BlockLinkInvalid then Some (Severed, set_links (BlockLinkPool s) (BlockLinkFreeHead s) links log s)
      else
        Node ← BlockLinkPool s !! Z.to_nat Tail;
        let pool := <[Z.to_nat Tail := mkNode (HostLink Node) (Delinker Node) (BlockLinkFreeHead s)]> (BlockLinkPool s) in
        Some (Severed, set_links pool Head links log s)
  end.

Definition AddBlockLink (GuestDestination Link Delink : Z) (s : t) : option t :=
  let Old := default BlockLinkInvalid (BlockLinks s !! GuestDestination) in
  let Free := BlockLinkFreeHead s in
  if negb (Free =? BlockLinkInvalid) then
    Node ← BlockLinkPool s !! Z.to_nat Free;
    Some (set_links (<[Z.to_nat Free := mkNode Link Delink Old]> (BlockLinkPool s)) (Next Node) (<[GuestDestination := Free]> (BlockLinks s)) (Delinked s) s)
  else
    let NewIndex := Z.of_nat (length (BlockLinkPool s)) in
    Some (set_links (BlockLinkPool s ++ [mkNode Link Delink Old]) Free (<[GuestDestination := NewIndex]> (BlockLinks s)) (Delinked s) s).

Definition Erase (Address : Z) (s : t) : option (bool * t) :=
  '(_, s) ← SeverLinks Address s;
  Some (bool_decide (is_Some (BlockList s !! Address)), set_blocks (delete Address (BlockList s)) s).

(** ** Pages *)

(** The entries of a page map from [lower_bound(Lo)] to [upper_bound(Hi)]. *)
Definition key_le {A} (x y : Z * A) : Prop := x.1 <= y.1.
#[export] Instance key_le_dec {A} : RelDecision (@key_le A) := fun x y => Z.le_dec x.1 y.1.
Definition in_pages (Lo Hi k : Z) : bool := (Lo <=? k) && (k <=? Hi).
Definition pages_between {A} (Lo Hi : Z) (m : gmap Z A) : list (Z * A) :=
  merge_sort key_le (List.filter (fun p => in_pages Lo Hi p.1) (map_to_list m)).
Definition erase_pages {A} (Lo Hi : Z) (m : gmap Z A) : gmap Z A := filter (fun p => in_pages Lo Hi p.1 = false) m.

Definition first_page (Start : Z) : Z := Z.shiftr Start 12.
Definition last_page (Start Length : Z) : Z := Z.shiftr (u64 (Start + Length - 1)) 12.

(** ** Retained blocks *)

(** Taking the address out of the sets of its pages; an empty set is
    erased. *)
Definition unindex (Address Page : Z) (rp : gmap Z (gset Z)) : gmap Z (gset Z) :=
  match rp !! Z.shiftr Page 12 with
  | Some A => let A := A ∖ {[Address]} in if decide (A = ∅) then delete (Z.shiftr Page 12) rp else <[Z.shiftr Page 12 := A]> rp
  | None => rp
  end.

Definition DropRetainedBlockLocked (Address : Z) (s : t) : t :=
  match RetainedBlocks s !! Address with
  | None => s
  | Some e => set_retained (delete Address (RetainedBlocks s)) (foldl (fun rp Page => unindex Address Page rp) (RetainedCodePages s) (EPages e)) s
  end.

Definition reindex (Address Page : Z) (rp : gmap Z (gset Z)) : gmap Z (gset Z) :=
  <[Z.shiftr Page 12 := {[Address]} ∪ default ∅ (rp !! Z.shiftr Page 12)]> rp.

Definition SoftEraseBlock (Address : Z) (s : t) : option t :=
  match BlockList s !! Address with
  | None => Some s
  | Some e =>
      '(_, s) ← SeverLinks Address s;
      if (GuestRangeLength e =? 0) || bool_decide (EPages e = []) then Some (set_blocks (delete Address (BlockList s)) s)
      else
        let s := DropRetainedBlockLocked Address s in
        let rp := foldl (fun rp Page => reindex Address Page rp) (RetainedCodePages s) (EPages e) in
        let s := set_retained (<[Address := e]> (RetainedBlocks s)) rp s in
        Some (set_blocks (delete Address (BlockList s)) s)
  end.

(** The order of a set's elements is not that of the hash set; only the set of
    dropped blocks matters. *)
Definition DropRetainedRange (Start Length : Z) (s : t) : t :=
  if decide (RetainedCodePages s = ∅) then s
  else
    let Doomed := flat_map (fun p => elements p.2) (pages_between (first_page Start) (last_page Start Length) (RetainedCodePages s)) in
    foldl (fun s A => DropRetainedBlockLocked A s) s Doomed.

Definition TakeRetainedBlock (Address : Z) (s : t) : option BlockEntry * t :=
  match RetainedBlocks s !! Address with
  | None => (None, s)
  | Some e => (Some e, set_retained (delete Address (RetainedBlocks s)) (foldl (fun rp Page => unindex Address Page rp) (RetainedCodePages s) (EPages e)) s)
  end.

(** ** Invalidation *)

Fixpoint erase_all (erase : Z -> t -> option t) (As : list Z) (s : t) : option t :=
  match As with
  | [] => Some s
  | A :: As => s ← erase A s; erase_all erase As s
  end.

Definition clear_page (Page : Z) (s : t) : t :=
  if Enabled (CodeGranules s) then set_granules (ClearPage (u64 (Z.shiftl Page 12)) (CodeGranules s)) s else s.

(** The loop over the pages of a range, page by page. *)
Fixpoint erase_range (erase : Z -> t -> option t) (ps : list (Z * list Z)) (s : t) : option t :=
  match ps with
  | [] => Some s
  | (Page, As) :: ps => s ← erase_all erase As s; erase_range erase ps (clear_page Page s)
  end.

Definition Erase_ (A : Z) (s : t) : option t := '(_, s) ← Erase A s; Some s.

Definition SoftInvalidateRange (Start Length : Z) (s : t) : option t :=
  let Lo := first_page Start in
  let Hi := last_page Start Length in
  s ← erase_range SoftEraseBlock (pages_between Lo Hi (CodePages s)) s;
  Some (set_pages (erase_pages Lo Hi (CodePages s)) None s).

Definition InvalidateRange (Start Length : Z) (s : t) : option t :=
  let Lo := first_page Start in
  let Hi := last_page Start Length in
  s ← erase_range Erase_ (pages_between Lo Hi (CodePages s)) s;
  Some (DropRetainedRange Start Length (set_pages (erase_pages Lo Hi (CodePages s)) None s)).

Definition EntryOverlaps (e : BlockEntry) (Start End : Z) : bool :=
  if ExtentLength e =? 0 then true else (ExtentStart e <? End) && (u64 (ExtentStart e + ExtentLength e) >? Start).

(** The loop over the entries of one page: the entries kept, the bits they need
    and the number erased. *)
Fixpoint precise_page (Start End PageBase : Z) (As : list Z) (s : t) (Kept : list Z) (Bits Erased : Z) : option (t * list Z * Z * Z) :=
  match As with
  | [] => Some (s, Kept, Bits, Erased)
  | A :: As =>
      match BlockList s !! A with
      | None => precise_page Start End PageBase As s Kept Bits Erased
      | Some e =>
          if negb (EntryOverlaps e Start End)
          then precise_page Start End PageBase As s (Kept ++ [A]) (Z.lor Bits (PageMaskFor PageBase (ExtentStart e) (ExtentLength e))) Erased
          else '(_, s) ← Erase A s; precise_page Start End PageBase As s Kept Bits (Erased + 1)
      end
  end.

(** The page after the loop: its word and its vector, which goes when it is
    empty. *)
Definition rewrite_page (Page PageBase : Z) (Kept : list Z) (Bits : Z) (s : t) : t :=
  let s := if Enabled (CodeGranules s) then set_granules (RecomputePageWord PageBase Bits (CodeGranules s)) s else s in
  match Kept with
  | [] => set_pages (delete Page (CodePages s)) None s
  | _ => set_pages (<[Page := Kept]> (CodePages s)) (CodePagesMemo s) s
  end.

Fixpoint precise_range (Start End : Z) (ps : list (Z * list Z)) (s : t) (Erased : Z) : option (t * Z) :=
  match ps with
  | [] => Some (s, Erased)
  | (Page, As) :: ps =>
      let PageBase := u64 (Z.shiftl Page 12) in
      '(s, Kept, Bits, Erased) ← precise_page Start End PageBase As s [] 0 Erased;
      precise_range Start End ps (rewrite_page Page PageBase Kept Bits s) Erased
  end.

Definition InvalidateRangePrecise (Start Length : Z) (s : t) : option (Z * t) :=
  '(s, Erased) ← precise_range Start (u64 (Start + Length)) (pages_between (first_page Start) (last_page Start Length) (CodePages s)) s 0;
  Some (Erased, DropRetainedRange Start Length s).

(** ** Registration *)

Section Register.
(** Whether the bitmap gets memory for its nodes. *)
Context (AllocL1 AllocLeaf : Z -> bool).

(** One page: the vector is found through the memo or the map, which creates
    it. *)
Definition add_page (Addresses : list Z) (CurrentPage GRStart GRLength : Z) (s : t) (rv : bool) : option (bool * t) :=
  '(Key, Pages) ← match CodePagesMemo s with
                  | Some (Index, Key) =>
                      if Index =? CurrentPage then Some (Key, CodePages s)
                      else Some (CurrentPage, <[CurrentPage := default [] (CodePages s !! CurrentPage)]> (CodePages s))
                  | None => Some (CurrentPage, <[CurrentPage := default [] (CodePages s !! CurrentPage)]> (CodePages s))
                  end;
  V ← Pages !! Key;
  let s := set_pages (<[Key := V ++ Addresses]> Pages) (Some (CurrentPage, Key)) s in
  let s := if Enabled (CodeGranules s)
           then set_granules (SetPageRange (AllocL1 CurrentPage) (AllocLeaf CurrentPage) (u64 (Z.shiftl CurrentPage 12)) GRStart GRLength (CodeGranules s)) s else s in
  Some (rv || bool_decide (V = []), s).

(** The loop over the pages of [Start, Start + Length); [fuel] bounds their
    number. *)
Fixpoint add_pages (fuel : nat) (Addresses : list Z) (CurrentPage EndPage GRStart GRLength : Z) (s : t) (rv : bool) : option (bool * t) :=
  match fuel with
  | O => None
  | S fuel =>
      if CurrentPage <=? EndPage then
        '(rv, s) ← add_page Addresses CurrentPage GRStart GRLength s rv;
        add_pages fuel Addresses (CurrentPage + 1) EndPage GRStart GRLength s rv
      else Some (rv, s)
  end.

Definition AddBlockExecutableRange (Addresses : list Z) (Start Length GRStart GRLength : Z) (s : t) : option (bool * t) :=
  let Lo := first_page Start in
  let Hi := last_page Start Length in
  add_pages (Z.to_nat (Hi - Lo) + 2) Addresses Lo Hi GRStart GRLength s false.
End Register.

(** ** The query of the store fast path *)

Section Overlap.
(** The guest RIP and size in the tail of the host block at an address. *)
Context (Tail : Z -> Z * Z).

Definition block_overlaps (Start End : Z) (s : t) (A : Z) : bool :=
  match BlockList s !! A with
  | None => false
  | Some e =>
      let '(RIP, GuestSize) := Tail (BlockBegin e) in
      if GuestSize =? 0 then true else (RIP <? End) && (u64 (RIP + GuestSize) >? Start)
  end.

Definition MapRangeOverlapsCompiledCode (Start Length : Z) (s : t) : bool :=
  let End := u64 (Start + Length) in
  existsb (fun p => existsb (block_overlaps Start End s) p.2)
    (pages_between (first_page Start) (Z.shiftr (u64 (End - 1)) 12) (CodePages s)).

(** [LookupCache::RangeOverlapsCompiledCode]: the bitmap first. *)
Definition RangeOverlapsCompiledCode (Start Length : Z) (s : t) : bool :=
  if ProvablyClear Start Length (CodeGranules s) then false else MapRangeOverlapsCompiledCode Start Length s.
End Overlap.

Definition ClearCache (s : t) : t :=
  mkMap [] BlockLinkInvalid ∅ ∅ (CodePages s) None ∅ ∅ (ClearAll (CodeGranules s)) (Delinked s).

End GuestToHostMap.
