(* ===== verification/LookupLinks.v ===== *)
(** The inbound links of the lookup map: chains of pool nodes and the free list
    as lists of indices ([chain]), their partition of the pool, and the links of
    each destination as a function ([lrep]). *)
From S2P Require Import Prelude Granules LookupMap.
From stdpp Require Import gmap.
Open Scope Z_scope.
Import GuestToHostMap.

(** ** Chains *)

Fixpoint chain (pool : list BlockLinkNode) (h : Z) (l : list nat) : Prop :=
  match l with
  | [] => h = BlockLinkInvalid
  | i :: l => h = Z.of_nat i /\ exists n, pool !! i = Some n /\ chain pool (Next n) l
  end.

(** What a node stands for. *)
Definition link (n : BlockLinkNode) : Z * Z := (Delinker n, HostLink n).
Definition links_at (pool : list BlockLinkNode) (l : list nat) : list (Z * Z) := omap (fun i => link <$> pool !! i) l.

Lemma chain_range pool h l : chain pool h l -> Forall (fun i => (i < length pool)%nat) l.
Proof.
  revert h. induction l as [|i l IH]; intros h; [constructor|]. intros (-> & n & Hn & Hl). constructor; [by eapply lookup_lt_Some|by eapply IH].
Qed.

Lemma chain_same pool pool' h l : (forall i, i ∈ l -> pool' !! i = pool !! i) -> chain pool h l -> chain pool' h l.
Proof.
  revert h. induction l as [|i l IH]; intros h Hp; [done|]. intros (-> & n & Hn & Hl). split; [done|]. exists n.
  split; [rewrite Hp by apply list_elem_of_here; done|]. apply IH; [|done]. intros j Hj. apply Hp. by apply elem_of_cons; right.
Qed.

Lemma links_same pool pool' l : (forall i, i ∈ l -> pool' !! i = pool !! i) -> links_at pool' l = links_at pool l.
Proof.
  intros Hp. unfold links_at. induction l as [|i l IH]; [done|]. cbn. rewrite Hp by apply list_elem_of_here.
  rewrite IH by (intros j Hj; apply Hp; by apply elem_of_cons; right). done.
Qed.

(** Replacing the end of a chain. *)
Lemma chain_splice pool h l i n h' l' :
  chain pool h (l ++ [i]) -> NoDup (l ++ [i]) -> pool !! i = Some n ->
  let pool' := <[i := mkNode (HostLink n) (Delinker n) h']> pool in chain pool' h' l' -> chain pool' h (l ++ i :: l').
Proof.
  intros Hc Hnd Hi pool' Hl'. revert h Hc. induction l as [|j l IH]; intros h; cbn.
  - intros (-> & m & _). split; [done|]. exists (mkNode (HostLink n) (Delinker n) h'). split; [|done]. apply list_lookup_insert_eq. by eapply lookup_lt_Some.
  - intros (-> & m & Hm & Hc). split; [done|]. exists m. cbn in Hnd. apply NoDup_cons in Hnd as [Hj Hnd].
    split; [|by apply IH]. unfold pool'. rewrite list_lookup_insert_ne; [done|]. intros ->. apply Hj, elem_of_app. right. apply list_elem_of_here.
Qed.

(** ** The loop *)

Lemma sever_loop_spec fuel pool h l Tail n log :
  chain pool h l -> (length l < fuel)%nat -> Z.of_nat (length pool) < BlockLinkInvalid ->
  sever_loop fuel pool h Tail n log = Some (default Tail (Z.of_nat <$> last l), n + Z.of_nat (length l), log ++ links_at pool l).
Proof.
  revert h l Tail n log. induction fuel as [|fuel IH]; intros h l Tail n log Hc Hf Hp; [lia|]. cbn [sever_loop]. destruct l as [|i l].
  - cbn in Hc. subst h. rewrite Z.eqb_refl. cbn. by rewrite Z.add_0_r, app_nil_r.
  - destruct Hc as (-> & m & Hm & Hc). pose proof (lookup_lt_Some _ _ _ Hm). rewrite (proj2 (Z.eqb_neq _ _)) by lia. rewrite Nat2Z.id, Hm. cbn [mbind option_bind].
    rewrite (IH (Next m) l) by (done || (cbn in Hf; lia)). unfold links_at. cbn [omap list_omap]. rewrite Hm. cbn. do 2 f_equal.
    + f_equal; [|lia]. destruct l as [|j l]; [done|]. rewrite last_cons_cons. destruct (last (j :: l)) eqn:E; [done|by apply last_None in E].
    + by rewrite <- app_assoc.
Qed.

(** ** The pool *)

(** [cs] has the chain of each destination, [free] the free list; together they
    are the pool. *)
Record lrep (s : t) (cs : gmap Z (list nat)) (free : list nat) : Prop := {
  lr_chain d : match BlockLinks s !! d, cs !! d with Some h, Some l => chain (BlockLinkPool s) h l | None, None => True | _, _ => False end;
  lr_free : chain (BlockLinkPool s) (BlockLinkFreeHead s) free;
  lr_nodup_free : NoDup free;
  lr_nodup d l : cs !! d = Some l -> NoDup l;
  lr_disjoint d d' l l' i : cs !! d = Some l -> cs !! d' = Some l' -> i ∈ l -> i ∈ l' -> d = d';
  lr_disjoint_free d l i : cs !! d = Some l -> i ∈ l -> ~ i ∈ free;
  lr_cover i : (i < length (BlockLinkPool s))%nat -> i ∈ free \/ exists d l, cs !! d = Some l /\ i ∈ l;
  lr_size : Z.of_nat (length (BlockLinkPool s)) < BlockLinkInvalid }.

(** The links registered for a destination, the newest first. *)
Definition links_of (s : t) (cs : gmap Z (list nat)) (d : Z) : list (Z * Z) := links_at (BlockLinkPool s) (default [] (cs !! d)).

Lemma lrep_length s cs free d l : lrep s cs free -> cs !! d = Some l -> (length l <= length (BlockLinkPool s))%nat.
Proof.
  intros Hr Hl. pose proof (lr_chain _ _ _ Hr d) as Hc. rewrite Hl in Hc. destruct (BlockLinks s !! d) as [h|]; [|done].
  rewrite <- (length_seq (length (BlockLinkPool s)) 0). apply submseteq_length, NoDup_submseteq; [by eapply lr_nodup|].
  intros i Hi. apply elem_of_seq. pose proof (chain_range _ _ _ Hc) as Hrange. rewrite Forall_forall in Hrange. specialize (Hrange i Hi). lia.
Qed.

Lemma chain_links_length pool h l : chain pool h l -> length (links_at pool l) = length l.
Proof.
  revert h. induction l as [|i l IH]; intros h; [done|]. intros (-> & n & Hn & Hl). unfold links_at in *. cbn. rewrite Hn. cbn. by rewrite (IH _ Hl).
Qed.

(** Changing nodes outside of a chain. *)
Lemma insert_outside {A} (pool : list A) i n (l : list nat) : ~ i ∈ l -> forall j, j ∈ l -> <[i := n]> pool !! j = pool !! j.
Proof. intros Hi j Hj. apply list_lookup_insert_ne. by intros ->. Qed.

(** ** Severing *)

(** The nodes of the destination go to the free list, as they are linked, and
    the other destinations keep theirs. *)
Lemma lrep_recycle s cs free d h l i n log :
  lrep s cs free -> BlockLinks s !! d = Some h -> cs !! d = Some (l ++ [i]) -> BlockLinkPool s !! i = Some n ->
  let pool := <[i := mkNode (HostLink n) (Delinker n) (BlockLinkFreeHead s)]> (BlockLinkPool s) in
  lrep (set_links pool h (delete d (BlockLinks s)) log s) (delete d cs) (l ++ i :: free).
Proof.
  intros [H1 H2 H3 H4 H5 H6 H7 H8] Hd Hl Hn pool. pose proof (H1 d) as Hc. rewrite Hd, Hl in Hc. pose proof (H4 _ _ Hl) as Hnd.
  assert (Hi : i ∈ l ++ [i]) by (apply elem_of_app; right; apply list_elem_of_here).
  assert (Hmem : forall j, j ∈ l ++ i :: free <-> j ∈ l ++ [i] \/ j ∈ free) by (intros j; rewrite !elem_of_app, elem_of_cons, list_elem_of_singleton; tauto).
  assert (Hdel : forall d' l', delete d cs !! d' = Some l' -> d' <> d /\ cs !! d' = Some l') by (intros d' l'; rewrite lookup_delete_Some; intuition).
  split; cbn [set_links BlockLinks BlockLinkPool BlockLinkFreeHead].
  - intros d'. destruct (decide (d = d')) as [<-|Hne]; [by rewrite !lookup_delete_eq|]. rewrite !lookup_delete_ne by done. specialize (H1 d').
    destruct (BlockLinks s !! d'), (cs !! d') as [l'|] eqn:Hl'; try done. eapply chain_same; [|done]. apply insert_outside. intros Hin. apply Hne. by eapply H5.
  - eapply chain_splice; [done|done|done|]. eapply chain_same; [|exact H2]. apply insert_outside. by eapply H6.
  - apply NoDup_app in Hnd as (Hn1 & Hn2 & _). apply NoDup_app. split; [done|]. split.
    + intros j Hj [->|Hjf]%elem_of_cons; [apply (Hn2 i Hj), list_elem_of_here|]. eapply H6; [exact Hl| |exact Hjf]. apply elem_of_app. by left.
    + apply NoDup_cons. split; [by eapply H6|done].
  - intros d' l' Hl'. apply Hdel in Hl' as [_ Hl']. by eapply H4.
  - intros d1 d2 l1 l2 j Hl1 Hl2. apply Hdel in Hl1 as [_ Hl1], Hl2 as [_ Hl2]. by eapply H5.
  - intros d' l' j Hl' Hj. apply Hdel in Hl' as [Hne Hl']. rewrite Hmem. intros [Hin|Hin]; [|by eapply H6]. apply Hne. by eapply H5.
  - intros j Hj. unfold pool in Hj. rewrite length_insert in Hj. rewrite Hmem. destruct (H7 j Hj) as [|(d' & l' & Hl' & Hin)]; [by left; right|].
    destruct (decide (d = d')) as [<-|Hne]; [left; left; congruence|right]. exists d', l'. by rewrite lookup_delete_ne.
  - unfold pool. by rewrite length_insert.
Qed.

Lemma set_links_id s d : BlockLinks s !! d = None -> s = set_links (BlockLinkPool s) (BlockLinkFreeHead s) (delete d (BlockLinks s)) (Delinked s) s.
Proof. intros H. rewrite delete_id by done. by destruct s. Qed.

(** A destination without a node. *)
Lemma lrep_forget s cs free d log :
  lrep s cs free -> default [] (cs !! d) = [] -> lrep (set_links (BlockLinkPool s) (BlockLinkFreeHead s) (delete d (BlockLinks s)) log s) (delete d cs) free.
Proof.
  intros [H1 H2 H3 H4 H5 H6 H7 H8] Hl.
  assert (Hdel : forall d' l', delete d cs !! d' = Some l' -> d' <> d /\ cs !! d' = Some l') by (intros d' l'; rewrite lookup_delete_Some; intuition).
  split; cbn [set_links BlockLinks BlockLinkPool BlockLinkFreeHead]; try done.
  - intros d'. destruct (decide (d = d')) as [<-|Hne]; [by rewrite !lookup_delete_eq|]. rewrite !lookup_delete_ne by done. apply H1.
  - intros d' l' Hl'. apply Hdel in Hl' as [_ Hl']. by eapply H4.
  - intros d1 d2 l1 l2 j Hl1 Hl2. apply Hdel in Hl1 as [_ Hl1], Hl2 as [_ Hl2]. by eapply H5.
  - intros d' l' j Hl'. apply Hdel in Hl' as [_ Hl']. by eapply H6.
  - intros j Hj. destruct (H7 j Hj) as [|(d' & l' & Hl' & Hin)]; [by left|right]. exists d', l'. split; [|done]. rewrite lookup_delete_ne; [done|].
    intros <-. rewrite Hl' in Hl. cbn in Hl. subst l'. by apply elem_of_nil in Hin.
Qed.

(** Severing the links of a destination calls each of its delinkers once, and
    leaves the others. *)
Lemma sever_spec s cs free d :
  lrep s cs free ->
  exists s' free', SeverLinks d s = Some (Z.of_nat (length (links_of s cs d)), s') /\ lrep s' (delete d cs) free' /\
    Delinked s' = Delinked s ++ links_of s cs d /\ (forall d', d' <> d -> links_of s' (delete d cs) d' = links_of s cs d') /\
    length (BlockLinkPool s') = length (BlockLinkPool s) /\
    s' = set_links (BlockLinkPool s') (BlockLinkFreeHead s') (delete d (BlockLinks s)) (Delinked s') s.
Proof.
  intros Hr. pose proof (lr_chain _ _ _ Hr d) as Hc. unfold SeverLinks, links_of at 1 2.
  destruct (BlockLinks s !! d) as [h|] eqn:Hd; destruct (cs !! d) as [l|] eqn:Hl; try done; cbn [from_option id].
  - rewrite (sever_loop_spec _ _ h l) by (done || apply (lr_size _ _ _ Hr) || (pose proof (lrep_length _ _ _ _ _ Hr Hl); lia)). cbn [mbind option_bind].
    rewrite (chain_links_length _ h) by done. destruct (last l) as [i|] eqn:Hlast.
    + apply last_Some in Hlast as [l0 ->]. cbn [fmap option_fmap option_map from_option id].
      assert (Hin : i ∈ l0 ++ [i]) by (apply elem_of_app; right; apply list_elem_of_here).
      pose proof (chain_range _ _ _ Hc) as Hrange. rewrite Forall_forall in Hrange. specialize (Hrange i Hin). pose proof (lr_size _ _ _ Hr).
      rewrite (proj2 (Z.eqb_neq _ _)) by lia. rewrite Nat2Z.id. destruct (lookup_lt_is_Some_2 _ _ Hrange) as [n Hn]. rewrite Hn. cbn [mbind option_bind].
      eexists _, (l0 ++ i :: free). split; [done|]. split; [by eapply lrep_recycle|]. split; [done|]. split; [|split; [apply length_insert|done]].
      intros d' Hne. unfold links_of. rewrite lookup_delete_ne by done. cbn [set_links BlockLinkPool]. apply links_same. apply insert_outside.
      destruct (cs !! d') as [l'|] eqn:Hl'; [|by intros ?%elem_of_nil]. intros Hin'. apply Hne. by eapply (lr_disjoint _ _ _ Hr).
    + apply last_None in Hlast as ->. cbn [fmap option_fmap option_map from_option id]. rewrite Z.eqb_refl. eexists _, free. split; [done|].
      split; [apply lrep_forget; [done|by rewrite Hl]|]. split; [done|]. split; [|done]. intros d' Hne. unfold links_of. by rewrite lookup_delete_ne.
  - exists s, free. split; [done|]. rewrite app_nil_r. split; [|split; [done|split; [|split; [done|by apply set_links_id]]]].
    + rewrite (set_links_id s d Hd). apply lrep_forget; [done|by rewrite Hl].
    + intros d' Hne. unfold links_of. by rewrite lookup_delete_ne.
Qed.

(** ** Linking *)

(** A node [i] that is in no chain becomes the head of the chain of [d]. *)
Lemma lrep_push s cs free d i Link Delink pool free' head' :
  lrep s cs (free' ++ free) ->
  let Old := default BlockLinkInvalid (BlockLinks s !! d) in
  pool !! i = Some (mkNode Link Delink Old) -> (forall j, j <> i -> pool !! j = BlockLinkPool s !! j) ->
  (forall d' l, cs !! d' = Some l -> ~ i ∈ l) -> ~ i ∈ free ->
  (forall j, (j < length pool)%nat -> j = i \/ (j < length (BlockLinkPool s))%nat) -> (forall j, j ∈ free' -> j = i) ->
  chain (BlockLinkPool s) head' free -> Z.of_nat (length pool) < BlockLinkInvalid ->
  lrep (set_links pool head' (<[d := Z.of_nat i]> (BlockLinks s)) (Delinked s) s) (<[d := i :: default [] (cs !! d)]> cs) free.
Proof.
  intros [H1 H2 H3 H4 H5 H6 H7 H8] Old Hi Hpool Hfresh Hfree Hlen Hf' Hhead Hsize.
  assert (Hsame : forall d' l, cs !! d' = Some l -> forall j, j ∈ l -> pool !! j = BlockLinkPool s !! j) by (intros d' l Hl j Hj; apply Hpool; intros ->; by eapply Hfresh).
  assert (Hcs : forall d' l, <[d := i :: default [] (cs !! d)]> cs !! d' = Some l ->
    (d' = d /\ l = i :: default [] (cs !! d)) \/ (d' <> d /\ cs !! d' = Some l)).
  { intros d' l. destruct (decide (d' = d)) as [->|]; [rewrite lookup_insert_eq; intros [= <-]; by left|]. rewrite lookup_insert_ne by done. by right. }
  assert (Hold : forall j, j ∈ default [] (cs !! d) -> exists l, cs !! d = Some l /\ j ∈ l) by (intros j; destruct (cs !! d) as [l|]; [by exists l|by intros ?%elem_of_nil]).
  split; cbn [set_links BlockLinks BlockLinkPool BlockLinkFreeHead].
  - intros d'. destruct (decide (d' = d)) as [->|Hne].
    + rewrite !lookup_insert_eq. split; [done|]. eexists. split; [exact Hi|]. cbn [Next]. unfold Old. specialize (H1 d).
      destruct (BlockLinks s !! d), (cs !! d) as [l|] eqn:Hl; try done. eapply chain_same; [by eapply Hsame|done].
    + rewrite !lookup_insert_ne by done. specialize (H1 d'). destruct (BlockLinks s !! d'), (cs !! d') as [l|] eqn:Hl; try done. eapply chain_same; [by eapply Hsame|done].
  - eapply chain_same; [|exact Hhead]. intros j Hj. apply Hpool. by intros ->.
  - by apply NoDup_app in H3 as (_ & _ & ?).
  - intros d' l [[-> ->]|[_ Hl]]%Hcs; [|by eapply H4]. apply NoDup_cons. split; [intros (l & Hl & Hin)%Hold; by eapply Hfresh|].
    destruct (cs !! d) as [l|] eqn:Hl; [by eapply H4|constructor].
  - intros d1 d2 l1 l2 j [[-> ->]|[Hn1 Hl1]]%Hcs [[-> ->]|[Hn2 Hl2]]%Hcs Hj1 Hj2; [done| | |by eapply H5].
    + apply elem_of_cons in Hj1 as [->|(l & Hl & Hj1)%Hold]; [by destruct (Hfresh _ _ Hl2)|by eapply H5].
    + apply elem_of_cons in Hj2 as [->|(l & Hl & Hj2)%Hold]; [by destruct (Hfresh _ _ Hl1)|by eapply H5].
  - intros d' l j Hl Hj Hin. assert (Hjf : j ∈ free' ++ free) by (apply elem_of_app; by right).
    apply Hcs in Hl as [[-> ->]|[_ Hl]]; [|by eapply H6]. apply elem_of_cons in Hj as [->|(l & Hl & Hj)%Hold]; [done|by eapply H6].
  - intros j Hj. assert (Hnew : exists d' l, <[d := i :: default [] (cs !! d)]> cs !! d' = Some l /\ i ∈ l) by (exists d; eexists; rewrite lookup_insert_eq; split; [done|apply list_elem_of_here]).
    destruct (Hlen j Hj) as [->|Hj']; [by right|]. destruct (H7 j Hj') as [[->%Hf'|?]%elem_of_app|(d' & l & Hl & Hin)]; [by right|by left|right].
    destruct (decide (d' = d)) as [->|Hne]; [exists d; eexists; rewrite lookup_insert_eq; split; [done|]; rewrite Hl; by apply elem_of_cons; right|].
    exists d', l. by rewrite lookup_insert_ne.
  - done.
Qed.

(** The links before and after. *)
Lemma push_links s cs d i Link Delink pool head' :
  pool !! i = Some (mkNode Link Delink (default BlockLinkInvalid (BlockLinks s !! d))) -> (forall j, j <> i -> pool !! j = BlockLinkPool s !! j) ->
  (forall d' l, cs !! d' = Some l -> ~ i ∈ l) ->
  let s' := set_links pool head' (<[d := Z.of_nat i]> (BlockLinks s)) (Delinked s) s in
  let cs' := <[d := i :: default [] (cs !! d)]> cs in
  links_of s' cs' d = (Delink, Link) :: links_of s cs d /\ (forall d', d' <> d -> links_of s' cs' d' = links_of s cs d').
Proof.
  intros Hi Hpool Hfresh s' cs'. unfold links_of, cs', s'. cbn [set_links BlockLinkPool].
  assert (Hs : forall d', links_at pool (default [] (cs !! d')) = links_at (BlockLinkPool s) (default [] (cs !! d'))).
  { intros d'. apply links_same. intros j Hj. apply Hpool. intros ->. destruct (cs !! d') as [l|] eqn:Hl; [by eapply Hfresh|by apply elem_of_nil in Hj]. }
  split; [|intros d' Hne; rewrite lookup_insert_ne by done; apply Hs]. rewrite lookup_insert_eq. cbn [default from_option id]. unfold links_at at 1. cbn. rewrite Hi. cbn.
  f_equal. apply Hs.
Qed.

Lemma add_link_spec s cs free d Link Delink :
  lrep s cs free -> Z.of_nat (length (BlockLinkPool s)) + 1 < BlockLinkInvalid ->
  exists s' cs' free', AddBlockLink d Link Delink s = Some s' /\ lrep s' cs' free' /\
    links_of s' cs' d = (Delink, Link) :: links_of s cs d /\ (forall d', d' <> d -> links_of s' cs' d' = links_of s cs d') /\
    (length (BlockLinkPool s') <= length (BlockLinkPool s) + 1)%nat /\
    s' = set_links (BlockLinkPool s') (BlockLinkFreeHead s') (BlockLinks s') (Delinked s) s.
Proof.
  intros Hr Hsize. unfold AddBlockLink. pose proof (lr_free _ _ _ Hr) as Hfree.
  destruct free as [|i rest].
  - cbn in Hfree. rewrite Hfree, Z.eqb_refl. cbn [negb]. set (n := length (BlockLinkPool s)). set (node := mkNode _ _ _).
    assert (Hi : (BlockLinkPool s ++ [node]) !! n = Some node) by (by apply list_lookup_middle).
    assert (Hpool : forall j, j <> n -> (BlockLinkPool s ++ [node]) !! j = BlockLinkPool s !! j).
    { intros j Hj. destruct (decide (j < n)%nat); [by apply lookup_app_l|]. rewrite !lookup_ge_None_2; [done| |]; rewrite ?length_app; cbn; lia. }
    assert (Hfresh : forall d' l, cs !! d' = Some l -> ~ n ∈ l).
    { intros d' l Hl Hin. pose proof (lr_chain _ _ _ Hr d') as Hc. rewrite Hl in Hc. destruct (BlockLinks s !! d'); [|done].
      pose proof (chain_range _ _ _ Hc) as Hrange. rewrite Forall_forall in Hrange. specialize (Hrange _ Hin). lia. }
    destruct (push_links s cs d n Link Delink (BlockLinkPool s ++ [node]) BlockLinkInvalid Hi Hpool Hfresh) as [Hl1 Hl2].
    eexists _, _, []. split; [done|]. split; [|split; [exact Hl1|split; [exact Hl2|split; [cbn; rewrite length_app; cbn; lia|done]]]].
    eapply (lrep_push s cs [] d n Link Delink _ []); try done; [by intros ?%elem_of_nil| | |rewrite length_app; cbn; lia].
    + intros j. rewrite length_app. cbn. lia.
    + by intros j ?%elem_of_nil.
  - destruct Hfree as (Hhead & node & Hnode & Hrest). pose proof (lookup_lt_Some _ _ _ Hnode) as Hlt. pose proof (lr_size _ _ _ Hr).
    rewrite Hhead, (proj2 (Z.eqb_neq _ _)) by lia. cbn [negb]. rewrite Nat2Z.id, Hnode. cbn [mbind option_bind]. set (new := mkNode _ _ _).
    assert (Hi : <[i := new]> (BlockLinkPool s) !! i = Some new) by (by apply list_lookup_insert_eq).
    assert (Hpool : forall j, j <> i -> <[i := new]> (BlockLinkPool s) !! j = BlockLinkPool s !! j) by (intros j Hj; by apply list_lookup_insert_ne).
    assert (Hfresh : forall d' l, cs !! d' = Some l -> ~ i ∈ l) by (intros d' l Hl Hin; eapply (lr_disjoint_free _ _ _ Hr); [exact Hl|exact Hin|apply list_elem_of_here]).
    destruct (push_links s cs d i Link Delink (<[i := new]> (BlockLinkPool s)) (Next node) Hi Hpool Hfresh) as [Hl1 Hl2].
    eexists _, _, rest. split; [done|]. split; [|split; [exact Hl1|split; [exact Hl2|split; [cbn; rewrite length_insert; lia|done]]]].
    eapply (lrep_push s cs rest d i Link Delink _ [i]); try done; [| | |by rewrite length_insert].
    + pose proof (lr_nodup_free _ _ _ Hr) as Hnd. by apply NoDup_cons in Hnd as [? _].
    + intros j. rewrite length_insert. by right.
    + by intros j ->%list_elem_of_singleton.
Qed.
