(* ===== verification/LookupMapSpec.v ===== *)
(** The invariant of the lookup map and what its operations do: the page index
    and the retained blocks, invalidation by page and by extent, registration
    and the bitmap of granules. *)
From S2P Require Import Prelude Granules LookupMap LookupLinks.
From stdpp Require Import gmap.
Open Scope Z_scope.
Import CodeGranuleBitmap GuestToHostMap.

(** ** The page index of retained blocks *)

Definition at_page (rp : gmap Z (gset Z)) (k : Z) : gset Z := default ∅ (rp !! k).

Record ret_ok (rb : gmap Z BlockEntry) (rp : gmap Z (gset Z)) : Prop := {
  ro_index A e p : rb !! A = Some e -> p ∈ EPages e -> A ∈ at_page rp (Z.shiftr p 12);
  ro_back A k : A ∈ at_page rp k -> exists e p, rb !! A = Some e /\ p ∈ EPages e /\ Z.shiftr p 12 = k;
  ro_nonempty k : rp !! k <> Some ∅ }.

Lemma unindex_at A p rp k B : B ∈ at_page (unindex A p rp) k <-> B ∈ at_page rp k /\ ~ (B = A /\ Z.shiftr p 12 = k).
Proof.
  unfold unindex, at_page. destruct (rp !! Z.shiftr p 12) as [V|] eqn:HV.
  - destruct (decide (V ∖ {[A]} = ∅)) as [HE|HE]; destruct (decide (Z.shiftr p 12 = k)) as [<-|Hk].
    + rewrite lookup_delete_eq, HV. cbn. set_solver.
    + rewrite lookup_delete_ne by done. tauto.
    + rewrite lookup_insert_eq, HV. cbn. set_solver.
    + rewrite lookup_insert_ne by done. tauto.
  - split; [|tauto]. intros HB. split; [done|]. intros [-> <-]. rewrite HV in HB. set_solver.
Qed.

Lemma unindex_nonempty A p rp : (forall k, rp !! k <> Some ∅) -> forall k, unindex A p rp !! k <> Some ∅.
Proof.
  intros H k. unfold unindex. destruct (rp !! Z.shiftr p 12) as [V|]; [|apply H]. destruct (decide (V ∖ {[A]} = ∅)) as [|HE].
  - destruct (decide (Z.shiftr p 12 = k)) as [<-|]; [by rewrite lookup_delete_eq|rewrite lookup_delete_ne by done; apply H].
  - destruct (decide (Z.shiftr p 12 = k)) as [<-|]; [rewrite lookup_insert_eq; congruence|rewrite lookup_insert_ne by done; apply H].
Qed.

Lemma unindex_all A ps rp k B :
  B ∈ at_page (foldl (fun rp p => unindex A p rp) rp ps) k <-> B ∈ at_page rp k /\ ~ (B = A /\ exists p, p ∈ ps /\ Z.shiftr p 12 = k).
Proof.
  revert rp. induction ps as [|p ps IH]; intros rp; cbn [foldl]; [split; [intros H; split; [done|intros (_ & q & Hq & _); by apply elem_of_nil in Hq]|tauto]|].
  rewrite IH, unindex_at. split.
  - intros [[H1 H2] H3]. split; [done|]. intros (-> & q & [->|Hq]%elem_of_cons & Hk); [by apply H2|apply H3; split; [done|by exists q]].
  - intros [H1 H2]. split; [split; [done|]|]; [intros [-> Hk]|intros (-> & q & Hq & Hk)]; apply H2; (split; [done|]); [exists p|exists q]; (split; [|done]); [apply list_elem_of_here|by apply elem_of_cons; right].
Qed.

Lemma unindex_all_nonempty A ps rp : (forall k, rp !! k <> Some ∅) -> forall k, foldl (fun rp p => unindex A p rp) rp ps !! k <> Some ∅.
Proof. revert rp. induction ps as [|p ps IH]; intros rp H; [done|]. cbn [foldl]. apply IH. by apply unindex_nonempty. Qed.

(** Removing a block and its index entries. *)
Lemma ret_drop rb rp A e : ret_ok rb rp -> rb !! A = Some e -> ret_ok (delete A rb) (foldl (fun rp p => unindex A p rp) rp (EPages e)).
Proof.
  intros [H1 H2 H3] HA. split.
  - intros B eB p HB Hp. apply lookup_delete_Some in HB as [Hne HB]. apply unindex_all. split; [by eapply H1|]. by intros [-> _].
  - intros B k [HB Hno]%unindex_all. destruct (H2 B k HB) as (eB & p & HeB & Hp & Hk). exists eB, p. split; [|done].
    apply lookup_delete_Some. split; [|done]. intros <-. apply Hno. split; [done|]. exists p. split; [congruence|done].
  - by apply unindex_all_nonempty.
Qed.

Lemma reindex_at A p rp k B : B ∈ at_page (reindex A p rp) k <-> B ∈ at_page rp k \/ (B = A /\ Z.shiftr p 12 = k).
Proof.
  unfold reindex, at_page. destruct (decide (Z.shiftr p 12 = k)) as [<-|Hk]; [rewrite lookup_insert_eq; cbn; set_solver|]. rewrite lookup_insert_ne by done. tauto.
Qed.

Lemma reindex_all A ps rp k B :
  B ∈ at_page (foldl (fun rp p => reindex A p rp) rp ps) k <-> B ∈ at_page rp k \/ (B = A /\ exists p, p ∈ ps /\ Z.shiftr p 12 = k).
Proof.
  revert rp. induction ps as [|p ps IH]; intros rp; cbn [foldl]; [split; [tauto|intros [H|(_ & q & Hq & _)]; [done|by apply elem_of_nil in Hq]]|].
  rewrite IH, reindex_at. split.
  - intros [[H|[-> Hk]]|(-> & q & Hq & Hk)]; [by left|right; split; [done|exists p; split; [apply list_elem_of_here|done]]|right; split; [done|exists q; split; [by apply elem_of_cons; right|done]]].
  - intros [H|(-> & q & [->|Hq]%elem_of_cons & Hk)]; [by left; left|left; right; done|right; split; [done|by exists q]].
Qed.

Lemma reindex_nonempty A ps rp : (forall k, rp !! k <> Some ∅) -> forall k, foldl (fun rp p => reindex A p rp) rp ps !! k <> Some ∅.
Proof.
  revert rp. induction ps as [|p ps IH]; intros rp H; [done|]. cbn [foldl]. apply IH. intros k. unfold reindex.
  destruct (decide (Z.shiftr p 12 = k)) as [<-|]; [rewrite lookup_insert_eq; intros [= HE]; set_solver|rewrite lookup_insert_ne by done; apply H].
Qed.

(** Keeping a block that is not kept yet. *)
Lemma ret_keep rb rp A e : ret_ok rb rp -> rb !! A = None -> ret_ok (<[A := e]> rb) (foldl (fun rp p => reindex A p rp) rp (EPages e)).
Proof.
  intros [H1 H2 H3] HA. split.
  - intros B eB p HB Hp. apply reindex_all. apply lookup_insert_Some in HB as [[<- <-]|[Hne HB]]; [right; split; [done|by exists p]|left; by eapply H1].
  - intros B k [HB|(-> & p & Hp & Hk)]%reindex_all; [|exists e, p; by rewrite lookup_insert_eq]. destruct (H2 B k HB) as (eB & p & HeB & Hp & Hk).
    exists eB, p. split; [|done]. rewrite lookup_insert_ne; [done|]. intros <-. congruence.
  - by apply reindex_nonempty.
Qed.

Lemma drop_block A s : ret_ok (RetainedBlocks s) (RetainedCodePages s) ->
  let s' := DropRetainedBlockLocked A s in
  ret_ok (RetainedBlocks s') (RetainedCodePages s') /\ RetainedBlocks s' = delete A (RetainedBlocks s) /\
  s' = set_retained (RetainedBlocks s') (RetainedCodePages s') s.
Proof.
  intros H. unfold DropRetainedBlockLocked. destruct (RetainedBlocks s !! A) as [e|] eqn:HA.
  - split; [by apply ret_drop|done].
  - split; [done|]. split; [by rewrite delete_id|by destruct s].
Qed.

(** ** Pages of a range *)

Lemma pages_between_spec {A} Lo Hi (m : gmap Z A) k v : (k, v) ∈ pages_between Lo Hi m <-> m !! k = Some v /\ Lo <= k <= Hi.
Proof.
  unfold pages_between. rewrite merge_sort_Permutation, list_elem_of_In, filter_In, <- list_elem_of_In, elem_of_map_to_list. unfold in_pages. cbn. split; [intros [H1 H2]; split; [done|lia]|intros [H1 H2]; split; [done|lia]].
Qed.

Lemma erase_pages_lookup {A} Lo Hi (m : gmap Z A) k : erase_pages Lo Hi m !! k = if in_pages Lo Hi k then None else m !! k.
Proof.
  unfold erase_pages. destruct (in_pages Lo Hi k) eqn:E.
  - apply map_lookup_filter_None. right. intros v _. cbn. by rewrite E.
  - destruct (m !! k) as [v|] eqn:Hk; [apply map_lookup_filter_Some; by split|apply map_lookup_filter_None; by left].
Qed.

Lemma drop_all As s : ret_ok (RetainedBlocks s) (RetainedCodePages s) ->
  let s' := foldl (fun s A => DropRetainedBlockLocked A s) s As in
  ret_ok (RetainedBlocks s') (RetainedCodePages s') /\ (forall A, RetainedBlocks s' !! A = if decide (A ∈ As) then None else RetainedBlocks s !! A) /\
  s' = set_retained (RetainedBlocks s') (RetainedCodePages s') s.
Proof.
  revert s. induction As as [|B As IH]; intros s H; cbn [foldl]; [split; [done|]; split; [|by destruct s]; intros A; rewrite decide_False by (by intros ?%elem_of_nil); done|].
  destruct (drop_block B s H) as (H1 & H2 & H3). destruct (IH _ H1) as (H4 & H5 & H6). cbv zeta. split; [done|]. split.
  - intros A. rewrite H5, H2. destruct (decide (A ∈ As)) as [Hin|Hin]; [by rewrite decide_True by (by apply elem_of_cons; right)|].
    destruct (decide (A = B)) as [->|Hne]; [rewrite lookup_delete_eq, decide_True by apply list_elem_of_here; done|].
    rewrite lookup_delete_ne by done. rewrite decide_False; [done|]. rewrite elem_of_cons. tauto.
  - rewrite H6, H3. done.
Qed.

(** The kept blocks with no page in the range stay, the others go. *)
Lemma drop_range Start Length s : ret_ok (RetainedBlocks s) (RetainedCodePages s) ->
  let Lo := first_page Start in let Hi := last_page Start Length in
  let s' := DropRetainedRange Start Length s in
  ret_ok (RetainedBlocks s') (RetainedCodePages s') /\
  (forall A e, RetainedBlocks s' !! A = Some e <-> RetainedBlocks s !! A = Some e /\ forall p, p ∈ EPages e -> ~ (Lo <= Z.shiftr p 12 <= Hi)) /\
  s' = set_retained (RetainedBlocks s') (RetainedCodePages s') s.
Proof.
  intros H Lo Hi. unfold DropRetainedRange. fold Lo Hi. destruct (decide (RetainedCodePages s = ∅)) as [HE|_]; cbv zeta.
  - split; [done|]. split; [|by destruct s]. intros A e. split; [|tauto]. intros HA. split; [done|]. intros p Hp _.
    pose proof (ro_index _ _ H A e p HA Hp) as Hin. unfold at_page in Hin. rewrite HE, lookup_empty in Hin. set_solver.
  - set (Doomed := flat_map _ _). destruct (drop_all Doomed s H) as (H1 & H2 & H3). split; [done|]. split; [|done].
    assert (HD : forall A, A ∈ Doomed <-> exists k, Lo <= k <= Hi /\ A ∈ at_page (RetainedCodePages s) k).
    { intros A. unfold Doomed. rewrite list_elem_of_In, in_flat_map. split.
      - intros ([k V] & Hk & HV). cbn in HV. apply list_elem_of_In, elem_of_elements in HV. apply list_elem_of_In, pages_between_spec in Hk as [Hk Hr].
        exists k. split; [done|]. unfold at_page. by rewrite Hk.
      - intros (k & Hr & HV). unfold at_page in HV. destruct (RetainedCodePages s !! k) as [V|] eqn:Hk; [|cbn in HV; set_solver].
        exists (k, V). split; [apply list_elem_of_In, pages_between_spec; done|]. by apply list_elem_of_In, elem_of_elements. }
    intros A e. rewrite H2. destruct (decide (A ∈ Doomed)) as [(k & Hr & HV)%HD|Hno].
    + split; [done|]. intros [HA Hp]. destruct (ro_back _ _ H A k HV) as (e' & p & HA' & Hpe & <-). rewrite HA in HA'. injection HA' as <-. by destruct (Hp p Hpe).
    + split; [|tauto]. intros HA. split; [done|]. intros p Hp Hr. apply Hno, HD. exists (Z.shiftr p 12). split; [done|]. by eapply ro_index.
Qed.

(** ** The invariant *)

(** A guest page, as the decoder gives it. *)
Definition page_addr (p : Z) : Prop := 0 <= p < 2 ^ 48 /\ p mod 4096 = 0.

(** A block as the compiler registers it. *)
Record block_ok (e : BlockEntry) : Prop := {
  bo_addr p : p ∈ EPages e -> page_addr p;
  bo_extent : 0 <= ExtentStart e /\ 0 <= ExtentLength e /\ ExtentStart e + ExtentLength e < 2 ^ 64;
  bo_hash : GuestRangeLength e = 0 \/ (GuestRangeStart e = ExtentStart e /\ GuestRangeLength e = ExtentLength e) }.

Lemma page_addr_ok p : page_addr p -> page_ok (Z.shiftr p 12).
Proof. intros [Hp _]. unfold page_ok. rewrite Z.shiftr_div_pow2 by lia. split; [apply Z.div_pos; lia|apply Z.div_lt_upper_bound; lia]. Qed.

Lemma bo_pages e : block_ok e -> forall p, p ∈ EPages e -> page_ok (Z.shiftr p 12).
Proof. intros He p Hp. by apply page_addr_ok, (bo_addr e). Qed.

(** The granules of the block on the page [k] are marked. *)
Definition marked (w : Z) (k : Z) (e : BlockEntry) : Prop :=
  forall x, x / 4096 = k -> ExtentStart e <= x < ExtentStart e + ExtentLength e \/ ExtentLength e = 0 -> Z.testbit w (granule x) = true.

(** What concerns the blocks and the pages, for a map [bl] of blocks. *)
Record index_ok (bl : gmap Z BlockEntry) (cp : gmap Z (list Z)) (g : CodeGranuleBitmap.t) : Prop := {
  ix_block A e : bl !! A = Some e -> block_ok e;
  ix_page A e p : bl !! A = Some e -> p ∈ EPages e -> exists V, cp !! Z.shiftr p 12 = Some V /\ A ∈ V;
  ix_key k V : cp !! k = Some V -> page_ok k;
  ix_mark A e p : Enabled g = true -> bl !! A = Some e -> p ∈ EPages e -> marked (word g (Z.shiftr p 12)) (Z.shiftr p 12) e }.

(** The chains, and that only blocks of the map have links. *)
Record rep (s : t) (cs : gmap Z (list nat)) : Prop := {
  rp_links : exists free, lrep s cs free;
  rp_known d : is_Some (cs !! d) -> is_Some (BlockList s !! d) }.

Record map_ok (s : t) : Prop := {
  mo_links : exists cs, rep s cs;
  mo_memo i k : CodePagesMemo s = Some (i, k) -> k = i /\ is_Some (CodePages s !! i);
  mo_index : index_ok (BlockList s) (CodePages s) (CodeGranules s);
  mo_ret : ret_ok (RetainedBlocks s) (RetainedCodePages s);
  mo_ret_block A e : RetainedBlocks s !! A = Some e -> block_ok e }.

(** Fewer blocks need less. *)
Lemma index_fewer bl bl' cp g : (forall A e, bl' !! A = Some e -> bl !! A = Some e) -> index_ok bl cp g -> index_ok bl' cp g.
Proof. intros Hs [H1 H2 H3 H4]. split; [intros A e HA; by eapply H1, Hs|intros A e p HA; by eapply H2, Hs|done|intros A e p Hg HA; by eapply H4, Hs]. Qed.

(** Dropping pages that no block is on, with their granules. *)
Lemma index_drop bl cp g Lo Hi g' :
  index_ok bl cp g -> (forall A e p, bl !! A = Some e -> p ∈ EPages e -> ~ (Lo <= Z.shiftr p 12 <= Hi)) ->
  (Enabled g' = true -> Enabled g = true) -> (forall k, page_ok k -> ~ (Lo <= k <= Hi) -> word g' k = word g k) ->
  index_ok bl (erase_pages Lo Hi cp) g'.
Proof.
  intros [H1 H2 H3 H4] Hout HE Hw. split; [done| | |].
  - intros A e p HA Hp. destruct (H2 A e p HA Hp) as (V & HV & Hin). exists V. split; [|done]. rewrite erase_pages_lookup.
    specialize (Hout A e p HA Hp). unfold in_pages. by replace ((Lo <=? Z.shiftr p 12) && (Z.shiftr p 12 <=? Hi)) with false by lia.
  - intros k V. rewrite erase_pages_lookup. destruct (in_pages Lo Hi k); [done|]. apply H3.
  - intros A e p Hg HA Hp. rewrite Hw; [apply (H4 A e p); auto|eapply bo_pages; [by eapply H1|done]|by eapply Hout].
Qed.

(** ** Erasing *)

(** The blocks [As] go, each with its links, whose delinkers run once; the
    other blocks and links stay. *)
Record cut (As : list Z) (cs cs' : gmap Z (list nat)) (s s' : t) : Prop := {
  ct_rep : rep s' cs';
  ct_links d : links_of s' cs' d = if decide (d ∈ As) then [] else links_of s cs d;
  ct_log : exists Ds, NoDup Ds /\ (forall A, A ∈ Ds <-> A ∈ As) /\ Delinked s' = Delinked s ++ (Ds ≫= links_of s cs);
  ct_blocks A : BlockList s' !! A = if decide (A ∈ As) then None else BlockList s !! A;
  ct_pool : length (BlockLinkPool s') = length (BlockLinkPool s) }.

(** What erasing the blocks [As] does and leaves. *)
Record erased (As : list Z) (cs cs' : gmap Z (list nat)) (s s' : t) : Prop := {
  er_cut : cut As cs cs' s s';
  er_pages : CodePages s' = CodePages s;
  er_memo : CodePagesMemo s' = CodePagesMemo s;
  er_ret : ret_ok (RetainedBlocks s') (RetainedCodePages s');
  er_ret_block A e : RetainedBlocks s' !! A = Some e -> block_ok e }.

(** What erasing relies on. *)
Record erasable (s : t) : Prop := {
  ea_block A e : BlockList s !! A = Some e -> block_ok e;
  ea_ret : ret_ok (RetainedBlocks s) (RetainedCodePages s);
  ea_ret_block A e : RetainedBlocks s !! A = Some e -> block_ok e }.

Lemma cut_refl cs s : rep s cs -> cut [] cs cs s s.
Proof. intros Hr. split; try done. exists []. split; [constructor|]. split; [done|]. by rewrite app_nil_r. Qed.

Lemma erased_refl cs s : rep s cs -> erasable s -> erased [] cs cs s s.
Proof. intros Hr [H1 H2 H3]. split; try done. by apply cut_refl. Qed.

(** The links of the blocks that are erased twice are gone the second time. *)
Lemma links_twice (f : Z -> list (Z * Z)) (As Ds : list Z) :
  (Ds ≫= fun d => if decide (d ∈ As) then [] else f d) = filter (fun d => ~ (d ∈ As)) Ds ≫= f.
Proof.
  induction Ds as [|d Ds IH]; [done|]. rewrite filter_cons, bind_cons, IH. destruct (decide (d ∈ As)) as [Hin|Hin].
  - by rewrite decide_False by tauto.
  - by rewrite decide_True by done.
Qed.

Lemma cut_trans As Bs cs cs1 cs2 s s1 s2 : cut As cs cs1 s s1 -> cut Bs cs1 cs2 s1 s2 -> cut (As ++ Bs) cs cs2 s s2.
Proof.
  intros [H1 H2 H3 H4 H5] [K1 K2 K3 K4 K5].
  assert (Hif : forall T (a b : T) d, (if decide (d ∈ Bs) then a else if decide (d ∈ As) then a else b) = if decide (d ∈ As ++ Bs) then a else b).
  { intros T a b d. destruct (decide (d ∈ Bs)); [by rewrite decide_True by (apply elem_of_app; by right)|].
    destruct (decide (d ∈ As)); [by rewrite decide_True by (apply elem_of_app; by left)|]. rewrite decide_False; [done|]. rewrite elem_of_app. tauto. }
  split; [done| | | |congruence].
  - intros d. rewrite K2, H2. apply Hif.
  - destruct H3 as (Ds & N1 & M1 & L1), K3 as (Es & N2 & M2 & L2). exists (Ds ++ filter (fun d => ~ (d ∈ As)) Es). split; [|split].
    + apply NoDup_app. split; [done|]. split; [|by apply NoDup_filter]. intros A HA [HnA _]%list_elem_of_filter. by apply HnA, M1.
    + intros A. rewrite !elem_of_app, list_elem_of_filter, M1, M2. destruct (decide (A ∈ As)); tauto.
    + rewrite L2, L1, bind_app, <- app_assoc. f_equal. f_equal. etrans; [|apply (links_twice (links_of s cs))]. by apply list_bind_ext.
  - intros A. rewrite K4, H4. apply Hif.
Qed.

Lemma cut_ext As Bs cs cs' s s' : (forall A, A ∈ As <-> A ∈ Bs) -> cut As cs cs' s s' -> cut Bs cs cs' s s'.
Proof.
  intros Hext [H1 H2 H3 H4 H5].
  assert (Hif : forall T (a b : T) d, (if decide (d ∈ As) then a else b) = if decide (d ∈ Bs) then a else b).
  { intros T a b d. destruct (decide (d ∈ As)) as [H%Hext|H]; [by rewrite decide_True|]. rewrite decide_False; [done|]. by rewrite <- Hext. }
  split; [done| | | |done].
  - intros d. rewrite H2. apply Hif.
  - destruct H3 as (Ds & N & M & L). exists Ds. split; [done|]. split; [|done]. intros A. by rewrite M.
  - intros A. rewrite H4. apply Hif.
Qed.

Lemma erased_trans As Bs cs cs1 cs2 s s1 s2 : erased As cs cs1 s s1 -> erased Bs cs1 cs2 s1 s2 -> erased (As ++ Bs) cs cs2 s s2.
Proof. intros [H1 H2 H3 H4 H5] [K1 K2 K3 K4 K5]. split; [by eapply cut_trans|by rewrite K2|by rewrite K3|done|done]. Qed.

Lemma erased_ext As Bs cs cs' s s' : (forall A, A ∈ As <-> A ∈ Bs) -> erased As cs cs' s s' -> erased Bs cs cs' s s'.
Proof. intros Hext [H1 H2 H3 H4 H5]. split; try done. by eapply cut_ext. Qed.

Lemma erased_erasable As cs cs' s s' : erasable s -> erased As cs cs' s s' -> erasable s'.
Proof. intros [H1 H2 H3] [[K1 K2 K3 K4 _] K5 K6 K7 K8]. split; try done. intros A e. rewrite K4. destruct (decide _); [done|]. apply H1. Qed.

Definition eraser (erase : Z -> t -> option t) : Prop :=
  forall A cs s, rep s cs -> erasable s -> exists cs' s', erase A s = Some s' /\ erased [A] cs cs' s s' /\ CodeGranules s' = CodeGranules s.

Lemma delete_if {V} (m : gmap Z V) A B : delete A m !! B = if decide (B ∈ [A]) then None else m !! B.
Proof.
  destruct (decide (B ∈ [A])) as [->%list_elem_of_singleton|Hn]; [apply lookup_delete_eq|]. apply lookup_delete_ne. intros ->. apply Hn, list_elem_of_here.
Qed.

(** Severing the links of one block, which it then leaves. *)
Lemma sever_erased A cs s : rep s cs -> erasable s ->
  exists s1 n, SeverLinks A s = Some (n, s1) /\ n = Z.of_nat (length (links_of s cs A)) /\
    s1 = set_links (BlockLinkPool s1) (BlockLinkFreeHead s1) (delete A (BlockLinks s)) (Delinked s1) s /\
    forall rb rp, ret_ok rb rp -> (forall B e, rb !! B = Some e -> block_ok e) ->
      erased [A] cs (delete A cs) s (set_blocks (delete A (BlockList s1)) (set_retained rb rp s1)).
Proof.
  intros [(free & Hr) Hk] [H1 H2 H3]. destruct (sever_spec s cs free A Hr) as (s1 & free' & HS & Hr1 & Hlog & Hrest & Hlen & Hs1).
  exists s1. eexists. split; [exact HS|]. split; [done|]. split; [done|]. intros rb rp Hret Hblk.
  split; [split|by rewrite Hs1|by rewrite Hs1|done|done]; cbn [set_blocks set_retained Delinked BlockList].
  - split; [exists free'; destruct Hr1; by split|]. intros d Hd. cbn [set_blocks set_retained BlockList]. rewrite Hs1. cbn [set_links BlockList].
    destruct (decide (d = A)) as [->|Hne]; [rewrite lookup_delete_eq in Hd; by destruct (is_Some_None Hd)|]. rewrite lookup_delete_ne by done. rewrite lookup_delete_ne in Hd by done. by apply Hk.
  - intros d. destruct (decide (d ∈ [A])) as [->%list_elem_of_singleton|Hn]; [unfold links_of; by rewrite lookup_delete_eq|].
    rewrite list_elem_of_singleton in Hn. rewrite <- (Hrest d Hn). done.
  - exists [A]. split; [apply NoDup_singleton|]. split; [done|]. rewrite Hlog. cbn. by rewrite app_nil_r.
  - intros B. rewrite Hs1. cbn [set_links BlockList]. apply delete_if.
  - done.
Qed.

Lemma Erase_eraser : eraser Erase_.
Proof.
  intros A cs s Hr He. unfold Erase_, Erase. destruct (sever_erased A cs s Hr He) as (s1 & n & -> & _ & Hs1 & HE). cbn [mbind option_bind].
  exists (delete A cs). eexists. split; [done|]. rewrite Hs1 at 4. split; [|done].
  specialize (HE (RetainedBlocks s) (RetainedCodePages s) (ea_ret _ He) (ea_ret_block _ He)). rewrite Hs1 in HE |- *. exact HE.
Qed.

Lemma SoftErase_eraser : eraser SoftEraseBlock.
Proof.
  intros A cs s Hr He. unfold SoftEraseBlock. destruct (BlockList s !! A) as [e|] eqn:HA.
  - destruct (sever_erased A cs s Hr He) as (s1 & n & -> & _ & Hs1 & HE). cbn [mbind option_bind]. exists (delete A cs). destruct ((GuestRangeLength e =? 0) || _).
    + eexists. split; [done|]. rewrite Hs1 at 4. split; [|done].
      specialize (HE (RetainedBlocks s) (RetainedCodePages s) (ea_ret _ He) (ea_ret_block _ He)). rewrite Hs1 in HE |- *. exact HE.
    + assert (Hret : ret_ok (RetainedBlocks s1) (RetainedCodePages s1)) by (rewrite Hs1; apply (ea_ret _ He)).
      destruct (drop_block A s1 Hret) as (D1 & D2 & D3). cbv zeta in *. eexists. split; [done|].
      rewrite D3. split; [|by rewrite Hs1]. cbn [set_retained RetainedBlocks RetainedCodePages BlockList].
      apply (HE (<[A := e]> _)); [apply ret_keep; [done|]; rewrite D2; apply lookup_delete_eq|].
      intros B eB [[<- <-]|[Hne HB]]%lookup_insert_Some; [by eapply (ea_block _ He)|].
      rewrite D2 in HB. apply lookup_delete_Some in HB as [_ HB]. rewrite Hs1 in HB. by eapply (ea_ret_block _ He).
  - exists cs, s. split; [done|]. split; [|done]. destruct He as [H1 H2 H3].
    assert (Hn : links_of s cs A = []).
    { unfold links_of. destruct (cs !! A) as [l|] eqn:Hl; [|done]. destruct (rp_known _ _ Hr A) as [e He]; [by eexists|congruence]. }
    split; try done. split; [done| | | |done].
    + intros d. destruct (decide (d ∈ [A])) as [->%list_elem_of_singleton|]; done.
    + exists [A]. split; [apply NoDup_singleton|]. split; [done|]. cbn. by rewrite Hn, !app_nil_r.
    + intros B. destruct (decide (B ∈ [A])) as [->%list_elem_of_singleton|]; done.
Qed.

(** ** Erasing by page *)

Section EraseRange.
Context (erase : Z -> t -> option t) (Her : eraser erase).
#[local] Set Default Proof Using "Type*".

Lemma erase_all_spec As cs s : rep s cs -> erasable s ->
  exists cs' s', erase_all erase As s = Some s' /\ erased As cs cs' s s' /\ CodeGranules s' = CodeGranules s.
Proof.
  revert cs s. induction As as [|A As IH]; intros cs s Hr He; cbn [erase_all]; [exists cs, s; split; [done|]; split; [by apply erased_refl|done]|].
  destruct (Her A cs s Hr He) as (cs1 & s1 & -> & HE1 & HG1). cbn [mbind option_bind].
  destruct (IH cs1 s1) as (cs2 & s2 & -> & HE2 & HG2); [apply HE1|by eapply erased_erasable|].
  exists cs2, s2. split; [done|]. split; [by eapply (erased_trans [A])|congruence].
Qed.

Lemma clear_page_granules k s q : page_ok k -> page_ok q ->
  word (CodeGranules (clear_page k s)) q = (if decide (q = k) then 0 else word (CodeGranules s) q) /\
  Enabled (CodeGranules (clear_page k s)) = Enabled (CodeGranules s).
Proof.
  intros Hk Hq. unfold clear_page. pose proof (shift_range k Hk). rewrite u64_small by lia. destruct (CodeGranules s) as [R|] eqn:HG; cbn [Enabled set_granules CodeGranules].
  - split; [|unfold ClearPage, RecomputePageWord; by destruct (FindLeaf _ _)]. rewrite word_clear by done. destruct (decide (k = q)), (decide (q = k)); congruence.
  - rewrite HG. split; [|done]. by destruct (decide _).
Qed.

Lemma erased_clear As cs cs' s s' k : erased As cs cs' s s' -> erased As cs cs' s (clear_page k s').
Proof.
  intros [[[[free Hl] Hk] H2 H3 H4 H4'] H5 H6 H7 H8]. unfold clear_page. destruct (Enabled _); split; try done; split; try done; split; try done; exists free; [destruct Hl; by split|done].
Qed.

Lemma erase_range_spec (ps : list (Z * list Z)) cs s :
  rep s cs -> erasable s -> (forall k V, (k, V) ∈ ps -> page_ok k) ->
  exists cs' s', erase_range erase ps s = Some s' /\ erased (ps ≫= snd) cs cs' s s' /\ Enabled (CodeGranules s') = Enabled (CodeGranules s) /\
    forall q, page_ok q -> word (CodeGranules s') q = if decide (q ∈ ps.*1) then 0 else word (CodeGranules s) q.
Proof.
  revert cs s. induction ps as [|[k As] ps IH]; intros cs s Hr He Hok; cbn [erase_range]; [exists cs, s; split; [done|]; split; [by apply erased_refl|done]|].
  destruct (erase_all_spec As cs s Hr He) as (cs1 & s1 & -> & HE1%(fun H => erased_clear _ _ _ _ _ k H) & HG1). cbn [mbind option_bind].
  assert (Hk : page_ok k) by (by eapply Hok, list_elem_of_here).
  destruct (IH cs1 (clear_page k s1)) as (cs2 & s2 & -> & HE2 & HG2 & HW2); [apply HE1|by eapply erased_erasable|intros q V Hq; eapply Hok; by apply elem_of_cons; right|].
  exists cs2, s2. split; [done|]. split; [by eapply (erased_trans As)|]. destruct (clear_page_granules k s1 k Hk Hk) as [_ Hen]. split; [by rewrite HG2, Hen, HG1|].
  intros q Hq. rewrite (HW2 q Hq), (proj1 (clear_page_granules k s1 q Hk Hq)), HG1. cbn [fmap list_fmap fst].
  destruct (decide (q ∈ ps.*1)); [by rewrite decide_True by (by apply elem_of_cons; right)|].
  destruct (decide (q = k)) as [->|]; [by rewrite decide_True by apply list_elem_of_here|]. rewrite decide_False; [done|]. rewrite elem_of_cons. tauto.
Qed.
End EraseRange.

(** ** Invalidation by page *)

(** The block is registered on a page of the range. *)
Definition on_pages (cp : gmap Z (list Z)) (Lo Hi A : Z) : Prop := exists k V, cp !! k = Some V /\ Lo <= k <= Hi /\ A ∈ V.

Definition page_blocks (s : t) (Lo Hi : Z) : list Z := pages_between Lo Hi (CodePages s) ≫= snd.

Lemma page_blocks_spec s Lo Hi A : A ∈ page_blocks s Lo Hi <-> on_pages (CodePages s) Lo Hi A.
Proof.
  unfold page_blocks, on_pages. rewrite list_elem_of_bind. split.
  - intros ([k V] & HA & [Hk Hr]%pages_between_spec). by exists k, V.
  - intros (k & V & Hk & Hr & HA). exists (k, V). split; [done|]. by apply pages_between_spec.
Qed.

(** A block of the map with a page in the range is registered there. *)
Lemma block_on_pages bl cp g A e p Lo Hi : index_ok bl cp g -> bl !! A = Some e -> p ∈ EPages e -> Lo <= Z.shiftr p 12 <= Hi -> on_pages cp Lo Hi A.
Proof. intros Hix HA Hp Hr. destruct (ix_page _ _ _ Hix A e p HA Hp) as (V & HV & Hin). by exists (Z.shiftr p 12), V. Qed.

Lemma map_erasable s : map_ok s -> erasable s.
Proof. intros H. split; [apply H|apply H|apply H]. Qed.

Section Invalidate.
Context (erase : Z -> t -> option t) (Her : eraser erase) (Lo Hi : Z).
#[local] Set Default Proof Using "Type*".

(** Erasing what the pages of a range hold, and the pages: the map stays well
    formed, no block is left with a page in the range. *)
Lemma invalidate_pages cs s : map_ok s -> rep s cs ->
  exists cs' s1, erase_range erase (pages_between Lo Hi (CodePages s)) s = Some s1 /\ erased (page_blocks s Lo Hi) cs cs' s s1 /\
    let s' := set_pages (erase_pages Lo Hi (CodePages s1)) None s1 in
    map_ok s' /\ rep s' cs' /\ Enabled (CodeGranules s') = Enabled (CodeGranules s) /\
    (forall q, page_ok q -> is_Some (CodePages s !! q) -> Lo <= q <= Hi -> word (CodeGranules s') q = 0) /\
    (forall A e p, BlockList s' !! A = Some e -> p ∈ EPages e -> ~ (Lo <= Z.shiftr p 12 <= Hi)).
Proof.
  intros Hok Hr. pose proof (mo_index _ Hok) as Hix.
  destruct (erase_range_spec erase Her (pages_between Lo Hi (CodePages s)) cs s Hr (map_erasable s Hok)) as (cs' & s1 & -> & HE & HG & HW).
  { intros k V [Hk _]%pages_between_spec. by eapply ix_key. }
  fold (page_blocks s Lo Hi) in HE. exists cs', s1. split; [done|]. split; [exact HE|]. destruct HE as [[E1 E2 E3 E4 _] E5 E6 E7 E8]. cbv zeta.
  assert (Hout : forall A e p, BlockList s1 !! A = Some e -> p ∈ EPages e -> ~ (Lo <= Z.shiftr p 12 <= Hi)).
  { intros A e p HA Hp Hrg. rewrite E4 in HA. destruct (decide (A ∈ page_blocks s Lo Hi)) as [|Hno]; [done|]. apply Hno, page_blocks_spec. by eapply block_on_pages. }
  assert (Hr' : rep (set_pages (erase_pages Lo Hi (CodePages s1)) None s1) cs') by (destruct E1 as [[free []] ?]; split; [exists free; by split|done]).
  split; [split|split; [done|split; [done|split; [|done]]]].
  - by exists cs'.
  - done.
  - cbn [set_pages BlockList CodePages CodeGranules]. rewrite E5. apply (index_drop _ _ (CodeGranules s)); [|done|by rewrite HG|].
    + eapply index_fewer; [|exact Hix]. intros A e. rewrite E4. by destruct (decide _).
    + intros k Hk Hno. rewrite HW by done. rewrite decide_False; [done|]. intros ([k' V] & -> & [Hk' Hrg]%pages_between_spec)%list_elem_of_fmap. done.
  - exact E7.
  - exact E8.
  - intros q Hq [V HV] Hrg. cbn [set_pages CodeGranules]. rewrite HW by done. rewrite decide_True; [done|].
    apply list_elem_of_fmap. exists (q, V). split; [done|]. by apply pages_between_spec.
Qed.
End Invalidate.
