(* ===== verification/LookupInvalidate.v ===== *)
(** Invalidation of the lookup map: by the pages of a range, soft and hard, and
    by the extents of the blocks.  Each keeps the invariant, and erases the
    blocks it should and no other, whose links it severs. *)
From S2P Require Import Prelude Granules LookupMap LookupLinks LookupMapSpec.
From stdpp Require Import gmap.
Open Scope Z_scope.
Import CodeGranuleBitmap GuestToHostMap.

Lemma rep_retained s cs rb rp : rep s cs -> rep (set_retained rb rp s) cs.
Proof. intros [[free []] ?]. split; [exists free; by split|done]. Qed.

Lemma map_retained s rb rp : map_ok s -> ret_ok rb rp -> (forall A e, rb !! A = Some e -> block_ok e) -> map_ok (set_retained rb rp s).
Proof. intros [(cs & Hr) H2 H3 H4 H5] Hret Hb. split; try done. exists cs. by apply rep_retained. Qed.

(** Dropping retained blocks of a range keeps the invariant. *)
Lemma drop_range_ok Start Length s : map_ok s -> map_ok (DropRetainedRange Start Length s).
Proof.
  intros Hok. destruct (drop_range Start Length s (mo_ret _ Hok)) as (D1 & D2 & D3). cbv zeta in *. rewrite D3. apply map_retained; [done|done|].
  intros A e [HA _]%D2. by eapply mo_ret_block.
Qed.

(** The hard paths leave the retained blocks to [DropRetainedRange]. *)
Lemma erase_retained A s s' : Erase_ A s = Some s' -> RetainedBlocks s' = RetainedBlocks s.
Proof.
  unfold Erase_, Erase, SeverLinks. destruct (BlockLinks s !! A) as [h|]; [|by intros [= <-]]. destruct (sever_loop _ _ _ _ _ _) as [[[T n] l]|]; [|done].
  cbn [mbind option_bind]. destruct (T =? BlockLinkInvalid); [by intros [= <-]|]. destruct (BlockLinkPool s !! Z.to_nat T); [|done]. by intros [= <-].
Qed.

Lemma erase_range_retained ps s s' : erase_range Erase_ ps s = Some s' -> RetainedBlocks s' = RetainedBlocks s.
Proof.
  revert s. induction ps as [|[k As] ps IH]; intros s; cbn [erase_range]; [by intros [= <-]|]. destruct (erase_all Erase_ As s) as [s1|] eqn:H1; [|done].
  cbn [mbind option_bind]. intros ->%IH. assert (Hc : RetainedBlocks (clear_page k s1) = RetainedBlocks s1) by (unfold clear_page; by destruct (Enabled _)).
  rewrite Hc. revert s H1. clear. induction As as [|A As IH]; intros s; cbn [erase_all]; [by intros [= <-]|].
  destruct (Erase_ A s) as [s2|] eqn:H2; [|done]. cbn [mbind option_bind]. intros ->%IH. by eapply erase_retained.
Qed.

(** Each returns on a well-formed map, keeps it well formed, and does to the
    blocks and links what erasing some blocks does. *)
Definition cuts (f : t -> option t) : Prop :=
  forall s cs, map_ok s -> rep s cs -> exists As cs' s', f s = Some s' /\ map_ok s' /\ cut As cs cs' s s'.

Lemma cut_set_pages As cs cs' s s1 cp m : cut As cs cs' s s1 -> cut As cs cs' s (set_pages cp m s1).
Proof. intros [[[free []] Hk] C2 C3 C4 C5]. split; try done. split; [exists free; by split|done]. Qed.

Lemma cut_drop As cs cs' s s1 Start Length : map_ok s1 -> cut As cs cs' s s1 -> cut As cs cs' s (DropRetainedRange Start Length s1).
Proof.
  intros Hok [C1 C2 C3 C4 C5]. destruct (drop_range Start Length s1 (mo_ret _ Hok)) as (_ & _ & ->). split; try done. by apply rep_retained.
Qed.

Lemma invalidate_cuts Start Length : cuts (InvalidateRange Start Length).
Proof.
  intros s cs Hok Hr. unfold InvalidateRange.
  destruct (invalidate_pages _ Erase_eraser (first_page Start) (last_page Start Length) cs s Hok Hr) as (cs' & s1 & -> & HE & Hok1 & _). cbn [mbind option_bind].
  eexists _, cs', _. split; [done|]. split; [by apply drop_range_ok|]. apply cut_drop; [done|]. apply cut_set_pages, HE.
Qed.

Lemma soft_cuts Start Length : cuts (SoftInvalidateRange Start Length).
Proof.
  intros s cs Hok Hr. unfold SoftInvalidateRange.
  destruct (invalidate_pages _ SoftErase_eraser (first_page Start) (last_page Start Length) cs s Hok Hr) as (cs' & s1 & -> & HE & Hok1 & _). cbn [mbind option_bind].
  eexists _, cs', _. split; [done|]. split; [done|]. apply cut_set_pages, HE.
Qed.

(** C18. [InvalidateRange] returns on every well-formed map, and then: the
    blocks that can be found are those that could be found before and are not
    registered on a page of the range, so none that has a page there; the
    retained blocks are those without a page there; the granules of the pages
    that held code are clear; every delinker of an erased block ran once, in
    addition to the calls of before, no other ran, and the links of the other
    blocks are as they were. *)
Theorem invalidate_exact (Start Length : Z) (s : t) (cs : gmap Z (list nat)) :
  map_ok s -> rep s cs ->
  let Lo := first_page Start in let Hi := last_page Start Length in
  exists cs' s', InvalidateRange Start Length s = Some s' /\ rep s' cs' /\
    (forall A e, FindBlock A s' = Some e <-> FindBlock A s = Some e /\ ~ on_pages (CodePages s) Lo Hi A) /\
    (forall A e p, FindBlock A s' = Some e -> p ∈ EPages e -> ~ (Lo <= Z.shiftr p 12 <= Hi)) /\
    (forall A e, RetainedBlocks s' !! A = Some e <-> RetainedBlocks s !! A = Some e /\ forall p, p ∈ EPages e -> ~ (Lo <= Z.shiftr p 12 <= Hi)) /\
    (forall q, page_ok q -> is_Some (CodePages s !! q) -> Lo <= q <= Hi -> word (CodeGranules s') q = 0) /\
    (exists Ds, NoDup Ds /\ (forall A, A ∈ Ds <-> on_pages (CodePages s) Lo Hi A) /\ Delinked s' = Delinked s ++ (Ds ≫= links_of s cs)) /\
    (forall d, links_of s' cs' d = if decide (d ∈ page_blocks s Lo Hi) then [] else links_of s cs d).
Proof.
  intros Hok Hr Lo Hi. unfold InvalidateRange. fold Lo Hi.
  destruct (invalidate_pages _ Erase_eraser Lo Hi cs s Hok Hr) as (cs' & s1 & HS & HE & Hok1 & Hr1 & _ & HW & Hout). cbv zeta in *. rewrite HS. cbn [mbind option_bind].
  set (s2 := set_pages _ _ s1) in *. destruct (drop_range Start Length s2 (mo_ret _ Hok1)) as (_ & D2 & D3). cbv zeta in *.
  assert (HR : RetainedBlocks s2 = RetainedBlocks s).
  { unfold s2. cbn [set_pages RetainedBlocks]. by eapply erase_range_retained. }
  exists cs'. eexists. split; [done|]. rewrite D3. split; [by apply rep_retained|]. destruct HE as [[E1 E2 E3 E4 _] E5 E6 E7 E8].
  split; [|split; [exact Hout|split; [|split; [exact HW|split; [|exact E2]]]]].
  - intros A e. unfold FindBlock. cbn [set_retained BlockList]. unfold s2. cbn [set_pages BlockList]. rewrite E4, <- page_blocks_spec.
    destruct (decide (A ∈ page_blocks s Lo Hi)); [split; [done|tauto]|tauto].
  - intros A e. cbn [set_retained RetainedBlocks]. rewrite D2, HR. done.
  - destruct E3 as (Ds & N & M & L). exists Ds. split; [done|]. split; [|exact L]. intros A. by rewrite M, page_blocks_spec.
Qed.

(** ** What soft invalidation keeps *)

Definition retainable (e : BlockEntry) : bool := negb ((GuestRangeLength e =? 0) || bool_decide (EPages e = [])).
Definition retain (o r : option BlockEntry) : option BlockEntry := match o with Some e => if retainable e then Some e else r | None => r end.

Lemma sever_frame A s n s1 : SeverLinks A s = Some (n, s1) -> BlockList s1 = BlockList s /\ RetainedBlocks s1 = RetainedBlocks s.
Proof.
  unfold SeverLinks. destruct (BlockLinks s !! A) as [h|]; [|by intros [= <- <-]]. destruct (sever_loop _ _ _ _ _ _) as [[[T m] l]|]; [|done].
  cbn [mbind option_bind]. destruct (T =? BlockLinkInvalid); [by intros [= <- <-]|]. destruct (BlockLinkPool s !! Z.to_nat T); [|done]. by intros [= <- <-].
Qed.

Lemma soft_one A s s' : SoftEraseBlock A s = Some s' ->
  BlockList s' = delete A (BlockList s) /\
  forall B, RetainedBlocks s' !! B = if decide (B = A) then retain (BlockList s !! A) (RetainedBlocks s !! A) else RetainedBlocks s !! B.
Proof.
  unfold SoftEraseBlock. destruct (BlockList s !! A) as [e|] eqn:HA; cbn [retain].
  - destruct (SeverLinks A s) as [[n s1]|] eqn:HS; [|done]. apply sever_frame in HS as [H1 H2]. cbn [mbind option_bind]. unfold retainable.
    destruct ((GuestRangeLength e =? 0) || _); cbn [negb].
    + intros [= <-]. cbn. rewrite H1, H2. split; [done|]. intros B. by destruct (decide (B = A)) as [->|].
    + assert (HD : forall B, B <> A -> RetainedBlocks (DropRetainedBlockLocked A s1) !! B = RetainedBlocks s !! B).
      { intros B HB. unfold DropRetainedBlockLocked. destruct (RetainedBlocks s1 !! A); cbn; [rewrite lookup_delete_ne by done|]; by rewrite H2. }
      assert (HL : BlockList (DropRetainedBlockLocked A s1) = BlockList s) by (unfold DropRetainedBlockLocked; destruct (RetainedBlocks s1 !! A); done).
      intros [= <-]. cbn. rewrite HL. split; [done|]. intros B. destruct (decide (B = A)) as [->|]; [apply lookup_insert_eq|]. rewrite lookup_insert_ne by done. by apply HD.
  - intros [= <-]. rewrite delete_id by done. split; [done|]. intros B. by destruct (decide (B = A)) as [->|].
Qed.

Lemma soft_all As s s' : erase_all SoftEraseBlock As s = Some s' ->
  BlockList s' = foldl (fun m A => delete A m) (BlockList s) As /\
  forall B, RetainedBlocks s' !! B = if decide (B ∈ As) then retain (BlockList s !! B) (RetainedBlocks s !! B) else RetainedBlocks s !! B.
Proof.
  revert s. induction As as [|A As IH]; intros s; cbn [erase_all]; [by intros [= <-]|]. destruct (SoftEraseBlock A s) as [s1|] eqn:H1; [|done].
  cbn [mbind option_bind]. intros [E1 E2]%IH. apply soft_one in H1 as [F1 F2]. cbn [foldl]. rewrite E1, F1. split; [done|]. intros B. rewrite E2, F1, F2.
  destruct (decide (B = A)) as [->|Hne].
  - rewrite (decide_True (P := A ∈ A :: As)) by apply list_elem_of_here. rewrite lookup_delete_eq. cbn [retain]. by destruct (decide _).
  - rewrite lookup_delete_ne by done. destruct (decide (B ∈ As)); [by rewrite decide_True by (by apply elem_of_cons; right)|]. rewrite decide_False; [done|]. rewrite elem_of_cons. tauto.
Qed.

(** Over the pages, each block is kept at its first page. *)
Lemma soft_range (ps : list (Z * list Z)) s s' : erase_range SoftEraseBlock ps s = Some s' ->
  forall B, RetainedBlocks s' !! B = if decide (B ∈ ps ≫= snd) then retain (BlockList s !! B) (RetainedBlocks s !! B) else RetainedBlocks s !! B.
Proof.
  revert s. induction ps as [|[k As] ps IH]; intros s; cbn [erase_range]; [by intros [= <-]|]. destruct (erase_all SoftEraseBlock As s) as [s1|] eqn:H1; [|done].
  cbn [mbind option_bind]. intros HE B. rewrite (IH _ HE). apply soft_all in H1 as [F1 F2].
  assert (Hc : BlockList (clear_page k s1) = BlockList s1 /\ RetainedBlocks (clear_page k s1) = RetainedBlocks s1) by (unfold clear_page; by destruct (Enabled _)).
  destruct Hc as [-> ->]. rewrite F2, F1, bind_cons. cbn [snd].
  assert (Hdel : forall m : gmap Z BlockEntry, foldl (fun m A => delete A m) m As !! B = if decide (B ∈ As) then None else m !! B).
  { clear. induction As as [|A As IH]; intros m; cbn [foldl]; [done|]. rewrite IH. destruct (decide (B ∈ As)); [by rewrite decide_True by (by apply elem_of_cons; right)|].
    destruct (decide (B = A)) as [->|]; [rewrite lookup_delete_eq, decide_True by apply list_elem_of_here; done|]. rewrite lookup_delete_ne by done. rewrite decide_False; [done|]. rewrite elem_of_cons. tauto. }
  rewrite Hdel. destruct (decide (B ∈ As)) as [HB|HB].
  - rewrite (decide_True (P := B ∈ As ++ _)) by (apply elem_of_app; by left). cbn [retain]. by destruct (decide _).
  - destruct (decide (B ∈ ps ≫= snd)); [by rewrite decide_True by (apply elem_of_app; by right)|]. rewrite decide_False; [done|]. rewrite elem_of_app. tauto.
Qed.

(** ** Invalidation by extent *)

Definition stale (Start End : Z) (bl : gmap Z BlockEntry) (A : Z) : Prop := exists e, bl !! A = Some e /\ EntryOverlaps e Start End = true.
Definition keep (Start End : Z) (bl : gmap Z BlockEntry) (A : Z) : Prop := exists e, bl !! A = Some e /\ EntryOverlaps e Start End = false.
#[export] Instance stale_dec Start End bl A : Decision (stale Start End bl A).
Proof.
  destruct (bl !! A) as [e|] eqn:H; [destruct (EntryOverlaps e Start End) eqn:HE|]; [left; by exists e|right|right];
    intros (e' & H' & HE'); congruence.
Defined.
#[export] Instance keep_dec Start End bl A : Decision (keep Start End bl A).
Proof.
  destruct (bl !! A) as [e|] eqn:H; [destruct (EntryOverlaps e Start End) eqn:HE|]; [right|left; by exists e|right];
    intros (e' & H' & HE'); congruence.
Defined.

Section Precise.
Context (Start End : Z).

Lemma keep_delete bl A B : stale Start End bl A -> keep Start End (delete A bl) B <-> keep Start End bl B.
Proof.
  intros (e & HA & HE). unfold keep. destruct (decide (A = B)) as [<-|Hne]; [|by rewrite lookup_delete_ne].
  rewrite lookup_delete_eq, HA. split; intros (e' & [= <-] & H); congruence.
Qed.

(** The loop over one page: what it keeps, the bits of what it keeps, and the
    blocks it erases and counts. *)
Lemma precise_page_spec PB As cs s Kept Bits n :
  rep s cs -> erasable s ->
  exists cs' s' Bits' n', precise_page Start End PB As s Kept Bits n = Some (s', Kept ++ filter (keep Start End (BlockList s)) As, Bits', n') /\
    erased (filter (stale Start End (BlockList s)) As) cs cs' s s' /\ CodeGranules s' = CodeGranules s /\
    n' - n = Z.of_nat (size (BlockList s)) - Z.of_nat (size (BlockList s')) /\
    (forall i, Z.testbit Bits i = true -> Z.testbit Bits' i = true) /\
    (forall A e i, A ∈ As -> keep Start End (BlockList s) A -> BlockList s !! A = Some e -> Z.testbit (PageMaskFor PB (ExtentStart e) (ExtentLength e)) i = true -> Z.testbit Bits' i = true) /\
    RetainedBlocks s' = RetainedBlocks s.
Proof.
  revert cs s Kept Bits n. induction As as [|A As IH]; intros cs s Kept Bits n Hr He; cbn [precise_page].
  - exists cs, s, Bits, n. rewrite app_nil_r. split; [done|]. split; [by apply erased_refl|]. split; [done|]. split; [lia|]. split; [done|]. split; [|done]. by intros A e i ?%elem_of_nil.
  - rewrite !filter_cons. destruct (BlockList s !! A) as [e|] eqn:HA.
    + destruct (EntryOverlaps e Start End) eqn:HE; cbn [negb].
      * assert (HsA : stale Start End (BlockList s) A) by (by exists e). rewrite decide_False by (intros (e' & ? & ?); congruence). rewrite decide_True by done.
        destruct (Erase_eraser A cs s Hr He) as (cs1 & s1 & HE1 & HE2 & HG1). pose proof (erase_retained _ _ _ HE1) as HRt. revert HE1. unfold Erase_.
        destruct (Erase A s) as [[b s0]|]; [|done]. cbn [mbind option_bind]. intros [= ->].
        assert (Hbl : BlockList s1 = delete A (BlockList s)) by (apply map_eq; intros B; rewrite (ct_blocks _ _ _ _ _ (er_cut _ _ _ _ _ HE2)); symmetry; apply delete_if).
        destruct (IH cs1 s1 Kept Bits (n + 1)) as (cs2 & s2 & B2 & n2 & HP & HE3 & HG2 & Hn & Hb1 & Hb2 & HR2); [apply HE2|by eapply erased_erasable|].
        exists cs2, s2, B2, n2. rewrite Hbl in *. split; [rewrite HP; do 5 f_equal; apply list_filter_iff; intros B; by apply keep_delete|].
        split; [|split; [congruence|split; [|split; [done|split; [|congruence]]]]].
        -- eapply erased_ext; [|by eapply (erased_trans [A])]. intros B. cbn. rewrite !elem_of_cons, !list_elem_of_filter. unfold stale.
           destruct (decide (A = B)) as [<-|Hne]; [tauto|]. by rewrite lookup_delete_ne.
        -- rewrite map_size_delete_Some in Hn by done. assert (size (BlockList s) <> 0%nat) by (apply map_size_ne_0_lookup; by exists A). lia.
        -- intros B eB i [->|HB]%elem_of_cons HkB HeB; [destruct HkB as (e' & ? & ?); congruence|]. apply (Hb2 B eB i); [done|by apply keep_delete|].
           rewrite lookup_delete_ne; [done|]. intros <-. destruct HkB as (e' & ? & ?); congruence.
      * rewrite decide_True by (by exists e). rewrite decide_False by (intros (e' & ? & ?); congruence).
        destruct (IH cs s (Kept ++ [A]) (Z.lor Bits (PageMaskFor PB (ExtentStart e) (ExtentLength e))) n Hr He) as (cs2 & s2 & B2 & n2 & HP & HE3 & HG2 & Hn & Hb1 & Hb2 & HR2).
        exists cs2, s2, B2, n2. split; [by rewrite HP, <- app_assoc|]. split; [done|]. split; [done|]. split; [done|]. split; [|split; [|done]].
        -- intros i Hi. apply Hb1. by rewrite Z.lor_spec, Hi.
        -- intros B eB i [->|HB]%elem_of_cons HkB HeB Hi; [|by eapply Hb2]. apply Hb1. rewrite Z.lor_spec. rewrite HA in HeB. injection HeB as <-. by rewrite Hi, orb_true_r.
    + rewrite !decide_False by (intros (e' & ? & ?); congruence). destruct (IH cs s Kept Bits n Hr He) as (cs2 & s2 & B2 & n2 & HP & HE3 & HG2 & Hn & Hb1 & Hb2 & HR2).
      exists cs2, s2, B2, n2. do 4 (split; [done|]). split; [done|]. split; [|done]. intros B eB i [->|HB]%elem_of_cons HkB HeB; [congruence|by apply (Hb2 B eB i)].
Qed.

(** Erasing alone keeps the invariant: pages may list blocks that are gone. *)
Lemma erased_map As cs cs' s s' : map_ok s -> erased As cs cs' s s' -> CodeGranules s' = CodeGranules s -> map_ok s'.
Proof.
  intros [M1 M2 M3 M4 M5] [[E1 E2 E3 E4 _] E5 E6 E7 E8] HG. split; [by exists cs'|by rewrite E5, E6| |done|done].
  rewrite HG, E5. eapply index_fewer; [|exact M3]. intros A e. rewrite E4. by destruct (decide _).
Qed.

(** The index with a page of it replaced. *)
Lemma index_rewrite bl cp g k V' g' :
  index_ok bl cp g -> page_ok k -> Enabled g' = Enabled g -> (forall q, page_ok q -> q <> k -> word g' q = word g q) ->
  (forall A e p, bl !! A = Some e -> p ∈ EPages e -> Z.shiftr p 12 = k -> A ∈ V' /\ (Enabled g = true -> marked (word g' k) k e)) ->
  forall cp', (forall q, q <> k -> cp' !! q = cp !! q) -> (V' <> [] -> cp' !! k = Some V') -> index_ok bl cp' g'.
Proof.
  intros [H1 H2 H3 H4] Hk HE Hw Hnew cp' Hcp Hcpk. split; [done| | |].
  - intros A e p HA Hp. destruct (decide (Z.shiftr p 12 = k)) as [Hpk|Hne].
    + destruct (Hnew A e p HA Hp Hpk) as [Hin _]. exists V'. rewrite Hpk. split; [apply Hcpk; intros ->; by apply elem_of_nil in Hin|done].
    + destruct (H2 A e p HA Hp) as (V & HV & Hin). exists V. by rewrite Hcp.
  - intros q V Hq. destruct (decide (q = k)) as [->|Hne]; [done|]. rewrite Hcp in Hq by done. by eapply H3.
  - intros A e p Hg HA Hp. rewrite HE in Hg. destruct (decide (Z.shiftr p 12 = k)) as [Hpk|Hne]; [rewrite Hpk; by apply (Hnew A e p)|].
    rewrite Hw; [by apply (H4 A e p)|by eapply bo_pages; [eapply H1|]|done].
Qed.

Lemma rewrite_page_frame k PB Kept Bits s :
  let s' := rewrite_page k PB Kept Bits s in
  BlockLinkPool s' = BlockLinkPool s /\ (forall cs, rep s cs -> rep s' cs) /\ (forall cs d, links_of s' cs d = links_of s cs d) /\ BlockList s' = BlockList s /\ Delinked s' = Delinked s /\
  RetainedBlocks s' = RetainedBlocks s /\ RetainedCodePages s' = RetainedCodePages s /\ (forall q, q <> k -> CodePages s' !! q = CodePages s !! q) /\
  (forall V, CodePages s' !! k = Some V -> V = Kept) /\
  CodeGranules s' = if Enabled (CodeGranules s) then RecomputePageWord PB Bits (CodeGranules s) else CodeGranules s.
Proof.
  unfold rewrite_page. destruct (Enabled (CodeGranules s)), Kept as [|A Kept]; cbv zeta; cbn [set_pages set_granules CodePages BlockList Delinked RetainedBlocks RetainedCodePages CodeGranules];
    (split; [done|]); (split; [intros cs [[free []] ?]; split; [exists free; by split|done]|]); (split; [done|]); (do 4 (split; [done|])); (split; [intros q Hq; by rewrite ?lookup_delete_ne, ?lookup_insert_ne by done|]);
    (split; [|done]); intros V; rewrite ?lookup_delete_eq, ?lookup_insert_eq; congruence.
Qed.

Lemma recompute_enabled a v b : Enabled (RecomputePageWord a v b) = Enabled b.
Proof. unfold RecomputePageWord. destruct b as [R|]; [|done]. by destruct (FindLeaf _ _). Qed.

Lemma rewrite_page_ok k Kept Bits s :
  map_ok s -> page_ok k ->
  (forall A e p, BlockList s !! A = Some e -> p ∈ EPages e -> Z.shiftr p 12 = k ->
     A ∈ Kept /\ forall i, Z.testbit (PageMaskFor (Z.shiftl k 12) (ExtentStart e) (ExtentLength e)) i = true -> Z.testbit Bits i = true) ->
  map_ok (rewrite_page k (Z.shiftl k 12) Kept Bits s).
Proof.
  intros [(cs & Hr) M2 M3 M4 M5] Hk Hkept. destruct (rewrite_page_frame k (Z.shiftl k 12) Kept Bits s) as (_ & F1 & _ & F2 & _ & F3 & F4 & F5 & F6 & F7). cbv zeta in *.
  split; [exists cs; by apply F1| | |by rewrite F3, F4|by rewrite F3].
  - unfold rewrite_page. intros i j. destruct (Enabled (CodeGranules s)), Kept as [|A Kept]; cbn [set_pages set_granules CodePagesMemo CodePages]; try done;
      intros [-> [V HV]]%M2; (split; [done|]); destruct (decide (k = i)) as [->|]; [rewrite lookup_insert_eq|rewrite lookup_insert_ne by done|rewrite lookup_insert_eq|rewrite lookup_insert_ne by done]; by eexists.
  - rewrite F2. apply (index_rewrite _ (CodePages s) (CodeGranules s) k Kept); [done|done| | | |done|].
    + rewrite F7. destruct (Enabled (CodeGranules s)) eqn:E; [by rewrite recompute_enabled|done].
    + intros q Hq Hne. rewrite F7. destruct (Enabled _); [|done]. rewrite word_recompute by done. rewrite decide_False; [done|]. intros [-> _]. done.
    + intros A e p HA Hp Hpk. destruct (Hkept A e p HA Hp Hpk) as [Hin Hbits]. split; [done|]. intros Hg. rewrite F7, Hg, word_recompute by done.
      destruct (decide _) as [|Hno]; [|rewrite <- Hpk; by apply (ix_mark _ _ _ M3 A e p)]. intros x Hx Hext. apply Hbits.
      destruct (bo_extent _ (ix_block _ _ _ M3 A e HA)) as (? & ? & ?). by apply mask_covers.
    + intros Hne. unfold rewrite_page. destruct Kept as [|A Kept]; [done|]. cbn [set_pages CodePages]. destruct (Enabled _); apply lookup_insert_eq.
Qed.

(** One page of the loop. *)
Lemma precise_step k As cs s n :
  map_ok s -> rep s cs -> CodePages s !! k = Some As ->
  exists cs' s' Bits n', precise_page Start End (u64 (Z.shiftl k 12)) As s [] 0 n = Some (s', filter (keep Start End (BlockList s)) As, Bits, n') /\
    let s2 := rewrite_page k (u64 (Z.shiftl k 12)) (filter (keep Start End (BlockList s)) As) Bits s' in
    map_ok s2 /\ cut (filter (stale Start End (BlockList s)) As) cs cs' s s2 /\
    n' - n = Z.of_nat (size (BlockList s)) - Z.of_nat (size (BlockList s2)) /\ RetainedBlocks s2 = RetainedBlocks s /\
    (forall q, q <> k -> CodePages s2 !! q = CodePages s !! q).
Proof.
  intros Hok Hr Hk. pose proof (ix_key _ _ _ (mo_index _ Hok) k As Hk) as Hpk. pose proof (shift_range k Hpk). rewrite u64_small by lia.
  destruct (precise_page_spec (Z.shiftl k 12) As cs s [] 0 n Hr (map_erasable s Hok)) as (cs' & s' & Bits & n' & HP & HE & HG & Hn & _ & Hb & HR).
  exists cs', s', Bits, n'. split; [exact HP|]. cbv zeta. set (Kept := filter (keep Start End (BlockList s)) As).
  pose proof (erased_map _ _ _ _ _ Hok HE HG) as Hok'. destruct (rewrite_page_frame k (Z.shiftl k 12) Kept Bits s') as (F0 & F1 & F1' & F2 & F2' & F3 & _ & F5 & _). cbv zeta in *.
  split; [|split; [|split; [by rewrite F2|split; [by rewrite F3|intros q Hq; rewrite F5 by done; by rewrite (er_pages _ _ _ _ _ HE)]]]].
  - apply rewrite_page_ok; [done|done|]. intros A e p HA Hp Hpe. rewrite (ct_blocks _ _ _ _ _ (er_cut _ _ _ _ _ HE)) in HA. destruct (decide _) as [|Hns]; [done|].
    destruct (ix_page _ _ _ (mo_index _ Hok) A e p HA Hp) as (V & HV & Hin). rewrite Hpe, Hk in HV. injection HV as <-.
    assert (HkA : keep Start End (BlockList s) A).
    { exists e. split; [done|]. destruct (EntryOverlaps e Start End) eqn:HEO; [|done]. destruct Hns. apply list_elem_of_filter. split; [by exists e|done]. }
    split; [by apply list_elem_of_filter|]. intros i. by apply (Hb A e i).
  - destruct (er_cut _ _ _ _ _ HE) as [C1 C2 C3 C4 C5]. split; [by apply F1|intros d; by rewrite F1', C2|by rewrite F2'|intros A; by rewrite F2, C4|by rewrite F0].
Qed.

Lemma precise_range_spec (ps : list (Z * list Z)) cs s n :
  map_ok s -> rep s cs -> NoDup ps.*1 -> (forall k V, (k, V) ∈ ps -> CodePages s !! k = Some V) ->
  exists cs' s' n', precise_range Start End ps s n = Some (s', n') /\ map_ok s' /\ cut (filter (stale Start End (BlockList s)) (ps ≫= snd)) cs cs' s s' /\
    n' - n = Z.of_nat (size (BlockList s)) - Z.of_nat (size (BlockList s')) /\ RetainedBlocks s' = RetainedBlocks s.
Proof.
  revert cs s n. induction ps as [|[k As] ps IH]; intros cs s n Hok Hr Hnd Hps; cbn [precise_range].
  - exists cs, s, n. split; [done|]. split; [done|]. split; [by apply cut_refl|]. split; [lia|done].
  - destruct (precise_step k As cs s n Hok Hr) as (cs1 & s1 & Bits & n1 & -> & Hok1 & HC1 & Hn1 & HR1 & HP1); [apply Hps, list_elem_of_here|]. cbv zeta in *. cbn [mbind option_bind].
    set (s2 := rewrite_page _ _ _ _ s1) in *. cbn [fmap list_fmap fst] in Hnd. apply NoDup_cons in Hnd as [Hk Hnd].
    destruct (IH cs1 s2 n1) as (cs' & s' & n' & -> & Hok' & HC' & Hn' & HR'); [done|apply HC1|done| |].
    { intros q V Hq. rewrite HP1; [apply Hps; by apply elem_of_cons; right|]. intros ->. apply Hk, list_elem_of_fmap. by exists (k, V). }
    exists cs', s', n'. split; [done|]. split; [done|]. split; [|split; [lia|congruence]]. eapply cut_ext; [|by eapply cut_trans].
    intros A. rewrite bind_cons, filter_app, !elem_of_app, !list_elem_of_filter. cbn [snd]. unfold stale. rewrite (ct_blocks _ _ _ _ _ HC1).
    destruct (decide (A ∈ filter (stale Start End (BlockList s)) As)) as [[Hs Hin]%list_elem_of_filter|Hno]; [unfold stale in Hs; tauto|]. tauto.
Qed.
End Precise.

Lemma pages_nodup {A} Lo Hi (m : gmap Z A) : NoDup (pages_between Lo Hi m).*1.
Proof.
  unfold pages_between. rewrite merge_sort_Permutation. pose proof (NoDup_fst_map_to_list m) as Hnd. revert Hnd. generalize (map_to_list m) as l. induction l as [|[k v] l IH]; cbn; [constructor|].
  intros [Hk Hnd]%NoDup_cons. destruct (in_pages Lo Hi k); [|by apply IH]. cbn. apply NoDup_cons. split; [|by apply IH]. intros ([k' v'] & -> & Hin)%list_elem_of_fmap. apply Hk.
  apply list_elem_of_In, filter_In in Hin as [Hin _]. apply list_elem_of_fmap. exists (k', v'). split; [done|]. by apply list_elem_of_In.
Qed.

Lemma precise_cuts Start Length : cuts (fun s => '(_, s) ← InvalidateRangePrecise Start Length s; Some s).
Proof.
  intros s cs Hok Hr. unfold InvalidateRangePrecise.
  destruct (precise_range_spec Start (u64 (Start + Length)) (pages_between (first_page Start) (last_page Start Length) (CodePages s)) cs s 0 Hok Hr) as (cs' & s1 & n & -> & Hok1 & HC & _);
    [apply pages_nodup|by intros k V [Hk _]%pages_between_spec|]. cbn [mbind option_bind]. eexists _, cs', _. split; [done|]. split; [by apply drop_range_ok|by apply cut_drop].
Qed.

(** C19. [InvalidateRangePrecise] returns on every well-formed map, and erases
    exactly the blocks that are registered on a page of the range and whose
    extent meets the range (or is unknown); it returns their number.  Every
    block with a page in the range that is left was compiled from other bytes.
    The retained blocks with a page in the range go, and each link of an erased
    block is severed once, the others stay. *)
Theorem precise_exact (Start Length : Z) (s : t) (cs : gmap Z (list nat)) :
  map_ok s -> rep s cs -> 0 <= Start -> 0 < Length -> Start + Length < 2 ^ 64 ->
  let Lo := first_page Start in let Hi := last_page Start Length in
  let gone A e := on_pages (CodePages s) Lo Hi A /\ EntryOverlaps e Start (Start + Length) = true in
  exists n cs' s', InvalidateRangePrecise Start Length s = Some (n, s') /\ rep s' cs' /\
    (forall A e, FindBlock A s' = Some e <-> FindBlock A s = Some e /\ ~ gone A e) /\
    (forall A e p x, FindBlock A s' = Some e -> p ∈ EPages e -> Lo <= Z.shiftr p 12 <= Hi ->
       ExtentLength e <> 0 /\ (ExtentStart e <= x < ExtentStart e + ExtentLength e -> ~ (Start <= x < Start + Length))) /\
    n = Z.of_nat (size (BlockList s)) - Z.of_nat (size (BlockList s')) /\
    (forall A e, RetainedBlocks s' !! A = Some e <-> RetainedBlocks s !! A = Some e /\ forall p, p ∈ EPages e -> ~ (Lo <= Z.shiftr p 12 <= Hi)) /\
    (exists Ds, NoDup Ds /\ (forall A, A ∈ Ds <-> exists e, FindBlock A s = Some e /\ gone A e) /\ Delinked s' = Delinked s ++ (Ds ≫= links_of s cs)) /\
    (forall A e, FindBlock A s' = Some e -> links_of s' cs' A = links_of s cs A).
Proof.
  intros Hok Hr HS HL HE Lo Hi gone. unfold InvalidateRangePrecise. fold Lo Hi. rewrite u64_small by lia.
  destruct (precise_range_spec Start (Start + Length) (pages_between Lo Hi (CodePages s)) cs s 0 Hok Hr) as (cs' & s1 & n & -> & Hok1 & [C1 C2 C3 C4 _] & Hn & HR);
    [apply pages_nodup|by intros k V [Hk _]%pages_between_spec|]. cbn [mbind option_bind]. fold (page_blocks s Lo Hi) in *.
  destruct (drop_range Start Length s1 (mo_ret _ Hok1)) as (_ & D2 & D3). cbv zeta in *. exists n, cs'. eexists. split; [done|]. rewrite D3. split; [by apply rep_retained|].
  assert (Hgone : forall A, A ∈ filter (stale Start (Start + Length) (BlockList s)) (page_blocks s Lo Hi) <-> exists e, BlockList s !! A = Some e /\ gone A e).
  { intros A. rewrite list_elem_of_filter, page_blocks_spec. unfold stale, gone. naive_solver. }
  assert (Hfind : forall A e, BlockList s1 !! A = Some e <-> BlockList s !! A = Some e /\ ~ gone A e).
  { intros A e. rewrite C4. destruct (decide _) as [(e' & He' & Hg)%Hgone|Hno]; [naive_solver|]. split; [|tauto]. intros HA. split; [done|]. intros Hg. apply Hno, Hgone. by exists e. }
  split; [exact Hfind|]. split; [|split; [cbn; lia|split; [intros A e; cbn [set_retained RetainedBlocks]; by rewrite D2, HR|split]]].
  - intros A e p x [HA Hng]%Hfind Hp Hrg. assert (Hov : EntryOverlaps e Start (Start + Length) = false).
    { destruct (EntryOverlaps _ _ _) eqn:Hov; [|done]. destruct Hng. split; [|done]. eapply block_on_pages; [apply (mo_index _ Hok)|done|done|done]. }
    destruct (bo_extent _ (ix_block _ _ _ (mo_index _ Hok) A e HA)) as (B1 & B2 & B3). unfold EntryOverlaps in Hov. destruct (Z.eqb_spec (ExtentLength e) 0); [done|].
    split; [done|]. rewrite u64_small in Hov by lia. rewrite Z.gtb_ltb in Hov. lia.
  - destruct C3 as (Ds & N & M & L). exists Ds. split; [done|]. split; [|exact L]. intros A. by rewrite M, Hgone.
  - intros A e [HA Hng]%Hfind. etrans; [apply C2|]. rewrite decide_False; [done|]. intros (e' & He' & Hg)%Hgone. congruence.
Qed.
