(* ===== verification/LookupRegister.v ===== *)
(** Publishing blocks in the lookup map (FEXCore/Source/Interface/Core/Core.cpp:
    the end of [CompileBlock] and
    [TryRelinkSoftInvalidatedBlock]; SMCSoftInvalidate.h): the pages are
    registered first, those that held no code are armed against writes, then
    the block becomes findable.  Registration keeps the invariant of the map,
    and the granule bitmap then covers every published block. *)
From S2P Require Import Prelude Granules LookupMap LookupLinks LookupMapSpec LookupInvalidate.
From stdpp Require Import gmap.
Open Scope Z_scope.
Import CodeGranuleBitmap GuestToHostMap.

Module Publish.

Definition kMaxHashableGuestSpan : Z := 64 * 1024.
Definition IsHashableBlock (GuestSpan NumCodePages : Z) : bool := negb (GuestSpan =? 0) && negb (NumCodePages =? 0) && (GuestSpan <=? kMaxHashableGuestSpan).

(** What the decoder and the back end give for one unit. *)
Record Unit := mkUnit {
  EntryPoints : list Z; UCodePages : list Z; StartAddr : Z; ULength : Z; UBlockBegin : Z; CompiledEntryPoints : list (Z * Z) }.

Section Publish.
(** The host's memory for the bitmap, the hash of bytes with a seed, the
    option of soft invalidation, and whether a page is demoted to validated
    stores. *)
Context (AllocL1 AllocLeaf : Z -> bool) (XXH3 : list Z -> Z -> Z) (SMCSoftInvalidate : bool) (ValidateOnly : Z -> bool).

Definition read_bytes (mem : Z -> Z) (a : Z) (n : nat) : list Z := map (fun i => mem (a + Z.of_nat i)) (seq 0 n).

Definition hash_page (mem : Z -> Z) (Start End : Z) (Hash Page : Z) : Z :=
  let PageEnd := u64 (Page + 4096) in
  let ChunkStart := Z.max Page Start in
  let ChunkEnd := Z.min PageEnd End in
  if ChunkStart >=? ChunkEnd then XXH3 (to_le 8 Page) Hash
  else XXH3 (read_bytes mem ChunkStart (Z.to_nat (ChunkEnd - ChunkStart))) (XXH3 (to_le 8 ChunkStart) Hash).

Definition HashGuestBlock (mem : Z -> Z) (CodePages : list Z) (Start Length : Z) : Z :=
  foldl (hash_page mem Start (u64 (Start + Length))) Length CodePages.

(** The pages of a block, each registered for the addresses and, when it held
    no code, armed ([MarkGuestExecutableRange]). *)
Fixpoint register_pages (Addresses CodePages : list Z) (Start Length : Z) (s : t) (Armed : list Z) : option (list Z * t) :=
  match CodePages with
  | [] => Some (Armed, s)
  | CodePage :: CodePages =>
      '(NewPage, s) ← AddBlockExecutableRange AllocL1 AllocLeaf Addresses CodePage 4096 Start Length s;
      register_pages Addresses CodePages Start Length s (if (NewPage : bool) then Armed ++ [CodePage] else Armed)
  end.

Definition guest_hash (mem : Z -> Z) (CodePages : list Z) (Start Length : Z) : Z * Z :=
  if SMCSoftInvalidate && IsHashableBlock Length (Z.of_nat (length CodePages)) then (HashGuestBlock mem CodePages Start Length, Length) else (0, 0).

(** [CompileBlock], from the compiled unit on.  The memory is that of after the
    pages are armed. *)
Definition PublishUnit (mem : Z -> Z) (u : Unit) (s : t) : option (list Z * t) :=
  '(Armed, s) ← register_pages (EntryPoints u) (UCodePages u) (StartAddr u) (ULength u) s [];
  let '(GuestHash, HashedRangeLength) := guest_hash mem (UCodePages u) (StartAddr u) (ULength u) in
  Some (Armed, foldl (fun s p => snd (AddBlockMapping p.1 (UBlockBegin u) (UCodePages u) p.2 (StartAddr u) HashedRangeLength GuestHash (StartAddr u) (ULength u) s)) s
                 (CompiledEntryPoints u)).

(** [TryRelinkSoftInvalidatedBlock]: the guest bytes before and after arming.
    Zero is no host code. *)
Definition Relink (before after : Z -> Z) (GuestRIP : Z) (s : t) : option (Z * list Z * t) :=
  let '(r, s) := TakeRetainedBlock GuestRIP s in
  match r with
  | None => Some (0, [], s)
  | Some e =>
      if negb (HashGuestBlock before (EPages e) (GuestRangeStart e) (GuestRangeLength e) =? GuestHash e) then Some (0, [], s)
      else if existsb ValidateOnly (EPages e) then Some (0, [], s)
      else
        '(Armed, s) ← register_pages [GuestRIP] (EPages e) (GuestRangeStart e) (GuestRangeLength e) s [];
        if negb (HashGuestBlock after (EPages e) (GuestRangeStart e) (GuestRangeLength e) =? GuestHash e) then Some (0, Armed, s)
        else
          Some (HostCode e, Armed,
                snd (AddBlockMapping GuestRIP (BlockBegin e) (EPages e) (HostCode e) (GuestRangeStart e) (GuestRangeLength e) (GuestHash e) (ExtentStart e) (ExtentLength e) s))
  end.
End Publish.
End Publish.
Import Publish.

(** ** Registering pages *)

(** What registration leaves as it is. *)
Record same_blocks (s s' : t) : Prop := {
  sb_links : BlockLinkPool s' = BlockLinkPool s /\ BlockLinkFreeHead s' = BlockLinkFreeHead s /\ BlockLinks s' = BlockLinks s /\ Delinked s' = Delinked s;
  sb_blocks : BlockList s' = BlockList s;
  sb_retained : RetainedBlocks s' = RetainedBlocks s /\ RetainedCodePages s' = RetainedCodePages s;
  sb_enabled : Enabled (CodeGranules s') = Enabled (CodeGranules s) }.

#[export] Instance same_blocks_preorder : PreOrder same_blocks.
Proof.
  split; [done|]. intros s1 s2 s3 [(A1 & A2 & A3 & A4) A5 (A6 & A7) A8] [(B1 & B2 & B3 & B4) B5 (B6 & B7) B8].
  split; [|congruence|split; congruence|congruence]. split_and!; congruence.
Qed.

Lemma same_rep s s' cs : same_blocks s s' -> rep s cs -> rep s' cs.
Proof.
  intros [(E1 & E2 & E3 & _) E5 _ _] [[free []] Hk]. split; [exists free; split; rewrite ?E1, ?E2, ?E3; done|by rewrite E5].
Qed.

Lemma set_page_enabled a1 a2 p S L b : Enabled (SetPageRange a1 a2 p S L b) = Enabled b.
Proof.
  unfold SetPageRange, GetOrCreateLeaf. destruct b as [R|]; [|done]. destruct (p >=? kMaxAddress); [done|]. destruct (R !! L0Index p) as [N|].
  - destruct (N !! L1Index p); [done|]. by destruct a2.
  - destruct a1; [|done]. by destruct a2.
Qed.

Section Register.
Context (AllocL1 AllocLeaf : Z -> bool).
#[local] Set Default Proof Using "Type".

(** The pages of the registration and the marks it makes. *)
Record registered (Addresses : list Z) (Lo Hi S L : Z) (s s' : t) : Prop := {
  rg_same : same_blocks s s';
  rg_pages k : CodePages s' !! k = if in_pages Lo Hi k then Some (default [] (CodePages s !! k) ++ Addresses) else CodePages s !! k;
  rg_more q i : page_ok q -> Z.testbit (word (CodeGranules s) q) i = true -> Z.testbit (word (CodeGranules s') q) i = true;
  rg_marks q i : page_ok q -> Lo <= q <= Hi -> Enabled (CodeGranules s) = true ->
    Z.testbit (PageMaskFor (Z.shiftl q 12) S L) i = true -> Z.testbit (word (CodeGranules s') q) i = true }.

Lemma registered_ok Addresses Lo Hi S L s s' :
  map_ok s -> (forall k, Lo <= k <= Hi -> page_ok k) -> registered Addresses Lo Hi S L s s' ->
  (forall i k, CodePagesMemo s' = Some (i, k) -> k = i /\ is_Some (CodePages s' !! i)) -> map_ok s'.
Proof.
  intros [(cs & Hr) M2 M3 M4 M5] Hpg [Hsame Hp Hm _] Hmemo. pose proof Hsame as [_ Hb (Hr1 & Hr2) HE]. split.
  - exists cs. by eapply same_rep.
  - done.
  - rewrite Hb. destruct M3 as [X1 X2 X3 X4]. split; [done| | |].
    + intros A e p HA HpA. destruct (X2 A e p HA HpA) as (V & HV & Hin). rewrite Hp, HV. destruct (in_pages _ _ _); [|by exists V].
      eexists. split; [done|]. cbn. apply elem_of_app. by left.
    + intros k V. rewrite Hp. destruct (in_pages Lo Hi k) eqn:Hin; [|apply X3]. intros _. apply Hpg. unfold in_pages in Hin. lia.
    + intros A e p Hg HA HpA x Hx He. apply Hm; [eapply bo_pages; [by eapply X1|done]|]. apply (X4 A e p); [by rewrite <- HE|done|done|done|done].
  - by rewrite Hr1, Hr2.
  - by rewrite Hr1.
Qed.

Context (HA1 : forall k, AllocL1 k = true) (HAL : forall k, AllocLeaf k = true).

(** One page: the memo gives the vector of the page, or it is looked up and
    becomes the memo. *)
Lemma add_page_spec Addresses P S L s rv : map_ok s -> page_ok P ->
  exists s', add_page AllocL1 AllocLeaf Addresses P S L s rv = Some (rv || bool_decide (default [] (CodePages s !! P) = []), s') /\
    registered Addresses P P S L s s' /\ CodePagesMemo s' = Some (P, P).
Proof using HA1 HAL.
  intros Hok HP. unfold add_page.
  assert (Hfind : exists Pages, (match CodePagesMemo s with
      | Some (Index, Key) => if Index =? P then Some (Key, CodePages s) else Some (P, <[P := default [] (CodePages s !! P)]> (CodePages s))
      | None => Some (P, <[P := default [] (CodePages s !! P)]> (CodePages s)) end = Some (P, Pages)) /\
    Pages !! P = Some (default [] (CodePages s !! P)) /\ forall q, q <> P -> Pages !! q = CodePages s !! q).
  { destruct (CodePagesMemo s) as [[i k]|] eqn:HM.
    - destruct (mo_memo _ Hok i k HM) as [-> [V HV]]. destruct (Z.eqb_spec i P) as [->|]; [exists (CodePages s); by rewrite HV|].
      eexists. split; [done|]. split; [apply lookup_insert_eq|]. intros q Hq. by apply lookup_insert_ne.
    - eexists. split; [done|]. split; [apply lookup_insert_eq|]. intros q Hq. by apply lookup_insert_ne. }
  destruct Hfind as (Pages & -> & HV & Hother). cbn [mbind option_bind]. rewrite HV. cbn [mbind option_bind]. rewrite HA1, HAL. pose proof (shift_range P HP).
  rewrite u64_small by lia. eexists. split; [done|].
  assert (Hpages : forall k, <[P := default [] (CodePages s !! P) ++ Addresses]> Pages !! k = if in_pages P P k then Some (default [] (CodePages s !! k) ++ Addresses) else CodePages s !! k).
  { intros k. unfold in_pages. destruct (decide (k = P)) as [->|Hne]; [by rewrite lookup_insert_eq, !Z.leb_refl|]. rewrite lookup_insert_ne, Hother by done.
    by replace ((P <=? k) && (k <=? P)) with false by lia. }
  cbn [set_pages CodeGranules]. destruct (Enabled (CodeGranules s)) eqn:HE; (split; [|done]); split; cbn [set_pages set_granules CodePages CodeGranules]; try done.
  - split; try done. cbn. by rewrite set_page_enabled.
  - intros q i Hq Hi. rewrite word_set by done. destruct (decide (P = q)) as [->|]; [|done]. by rewrite Z.lor_spec, Hi.
  - intros q i Hq Hqr _ Hi. assert (q = P) as -> by lia. rewrite word_set by done. rewrite decide_True by done. by rewrite Z.lor_spec, Hi, orb_true_r.
  - intros q i Hq Hqr HE'. by rewrite HE' in HE.
Qed.

Lemma map_add_pages_spec fuel Addresses P E S L s rv :
  map_ok s -> (forall k, P <= k <= E -> page_ok k) -> Z.max 0 (E - P + 1) < Z.of_nat fuel ->
  exists rv' s', add_pages AllocL1 AllocLeaf fuel Addresses P E S L s rv = Some (rv', s') /\ registered Addresses P E S L s s' /\ map_ok s' /\
    (rv' = true <-> rv = true \/ exists k, P <= k <= E /\ default [] (CodePages s !! k) = []).
Proof using HA1 HAL.
  revert P s rv. induction fuel as [|fuel IH]; intros P s rv Hok Hpg Hf; [lia|]. cbn [add_pages]. destruct (Z.leb_spec P E) as [HPE|HPE].
  - destruct (add_page_spec Addresses P S L s rv Hok (Hpg P ltac:(lia))) as (s1 & -> & H1 & Hm1). cbn [mbind option_bind]. pose proof H1 as [G1 G2 G3 G4].
    assert (Hok1 : map_ok s1).
    { eapply registered_ok; [exact Hok| |exact H1|]; [intros k Hk; apply Hpg; lia|]. rewrite Hm1. intros i k [= <- <-]. split; [done|]. rewrite G2. unfold in_pages. rewrite !Z.leb_refl. by eexists. }
    destruct (IH (P + 1) s1 (rv || bool_decide (default [] (CodePages s !! P) = [])) Hok1) as (rv' & s' & -> & [K1 K2 K3 K4] & Hok' & Hrv); [intros k Hk; apply Hpg; lia|lia|].
    exists rv', s'. split; [done|]. split; [|split; [done|]].
    + split; [by etrans| | |].
      * intros k. rewrite K2, !G2. unfold in_pages. destruct (decide (k = P)) as [->|]; [by replace ((P + 1 <=? P) && (P <=? E)) with false by lia; rewrite !Z.leb_refl; replace (P <=? E) with true by lia|].
        replace ((P <=? k) && (k <=? P)) with false by lia. by replace ((P + 1 <=? k) && (k <=? E)) with ((P <=? k) && (k <=? E)) by lia.
      * intros q i Hq Hi. by apply K3, G3.
      * intros q i Hq Hqr HE Hi. destruct (decide (q = P)) as [->|]; [apply K3; [done|]; apply G4; [done|lia|done|done]|]. apply K4; [done|lia|by rewrite (sb_enabled _ _ G1)|done].
    + rewrite Hrv, orb_true_iff, bool_decide_eq_true. assert (Hsame : forall k, P + 1 <= k <= E -> CodePages s1 !! k = CodePages s !! k) by (intros k Hk; rewrite G2; unfold in_pages; by replace ((P <=? k) && (k <=? P)) with false by lia).
      split; [intros [[?|?]|(k & Hk & He)]; [by left|right; by exists P; split; [lia|]|right; exists k; rewrite <- Hsame by done; split; [lia|done]]|].
      intros [?|(k & Hk & He)]; [by left; left|]. destruct (decide (k = P)) as [->|]; [by left; right|right]. exists k. rewrite Hsame by lia. split; [lia|done].
  - exists rv, s. split; [done|]. split; [|split; [done|split; [by left|intros [?|(k & Hk & _)]; [done|lia]]]]. split; [done| |done|intros; lia].
    intros k. unfold in_pages. by replace ((P <=? k) && (k <=? E)) with false by lia.
Qed.

Lemma page_addr_range p : page_addr p -> first_page p = Z.shiftr p 12 /\ last_page p 4096 = Z.shiftr p 12 /\ page_ok (Z.shiftr p 12).
Proof.
  intros Ha. split; [done|]. split; [|by apply page_addr_ok]. destruct Ha as [Hp Hm]. unfold last_page. rewrite u64_small, !Z.shiftr_div_pow2 by lia.
  change (2 ^ 12) with 4096. pose proof (Z.div_mod p 4096). apply granule_page_between. lia.
Qed.

(** One guest page. *)
Lemma add_range_page Addresses p S L s : map_ok s -> page_addr p ->
  exists rv s', AddBlockExecutableRange AllocL1 AllocLeaf Addresses p 4096 S L s = Some (rv, s') /\
    registered Addresses (Z.shiftr p 12) (Z.shiftr p 12) S L s s' /\ map_ok s' /\ (rv = true <-> default [] (CodePages s !! Z.shiftr p 12) = []).
Proof using HA1 HAL.
  intros Hok Hp. destruct (page_addr_range p Hp) as (H1 & H2 & H3). unfold AddBlockExecutableRange. rewrite H1, H2.
  destruct (map_add_pages_spec (Z.to_nat (Z.shiftr p 12 - Z.shiftr p 12) + 2) Addresses (Z.shiftr p 12) (Z.shiftr p 12) S L s false Hok) as (rv & s' & -> & Hr & Hok' & Hrv);
    [intros k Hk; by replace k with (Z.shiftr p 12) by lia|lia|]. exists rv, s'. do 3 (split; [done|]). rewrite Hrv. split.
  - intros [|(k & Hk & He)]; [done|]. by replace (Z.shiftr p 12) with k by lia.
  - intros He. right. eexists. split; [|exact He]. lia.
Qed.

(** What registering a list of pages gives. *)
Record on_all (Addresses ps : list Z) (S L : Z) (s s' : t) : Prop := {
  oa_same : same_blocks s s';
  oa_pages k V : CodePages s !! k = Some V -> exists W, CodePages s' !! k = Some W /\ V ⊆ W;
  oa_added p A : p ∈ ps -> A ∈ Addresses -> exists W, CodePages s' !! Z.shiftr p 12 = Some W /\ A ∈ W;
  oa_only k W A : CodePages s' !! k = Some W -> A ∈ W -> (exists V, CodePages s !! k = Some V /\ A ∈ V) \/ (A ∈ Addresses /\ exists p, p ∈ ps /\ Z.shiftr p 12 = k);
  oa_more q i : page_ok q -> Z.testbit (word (CodeGranules s) q) i = true -> Z.testbit (word (CodeGranules s') q) i = true;
  oa_marks p i : p ∈ ps -> Enabled (CodeGranules s) = true ->
    Z.testbit (PageMaskFor (Z.shiftl (Z.shiftr p 12) 12) S L) i = true -> Z.testbit (word (CodeGranules s') (Z.shiftr p 12)) i = true }.

Lemma register_pages_spec Addresses ps S L s Armed :
  map_ok s -> Forall page_addr ps ->
  exists New s', register_pages AllocL1 AllocLeaf Addresses ps S L s Armed = Some (Armed ++ New, s') /\ map_ok s' /\ on_all Addresses ps S L s s' /\
    (forall p, p ∈ ps -> default [] (CodePages s !! Z.shiftr p 12) = [] -> exists q, q ∈ New /\ Z.shiftr q 12 = Z.shiftr p 12) /\
    (forall p, p ∈ New -> p ∈ ps).
Proof using HA1 HAL.
  revert s Armed. induction ps as [|p ps IH]; intros s Armed Hok Hps; cbn [register_pages].
  - exists [], s. rewrite app_nil_r. split; [done|]. split; [done|]. split; [|split; [by intros p ?%elem_of_nil|done]].
    split; [done|intros k V HV; by exists V|by intros p A ?%elem_of_nil|intros k W A HW HA; left; by exists W|done|by intros p i ?%elem_of_nil].
  - apply Forall_cons in Hps as [Hp Hps]. destruct (page_addr_range p Hp) as (_ & _ & Hpk).
    destruct (add_range_page Addresses p S L s Hok Hp) as (rv & s1 & -> & [G1 G2 G3 G4] & Hok1 & Hrv). cbn [mbind option_bind].
    destruct (IH s1 (if rv then Armed ++ [p] else Armed) Hok1 Hps) as (New & s' & -> & Hok' & [K1 K2 K3 K4 K5 K6] & KN & KO).
    assert (Hin : in_pages (Z.shiftr p 12) (Z.shiftr p 12) (Z.shiftr p 12) = true) by (unfold in_pages; by rewrite !Z.leb_refl).
    assert (Hout : forall k, k <> Z.shiftr p 12 -> in_pages (Z.shiftr p 12) (Z.shiftr p 12) k = false) by (intros k Hk; unfold in_pages; lia).
    exists (if rv then p :: New else New), s'. split; [destruct rv; by rewrite <- ?app_assoc|]. split; [done|]. split; [split|split].
    + by etrans.
    + intros k V HV. destruct (decide (k = Z.shiftr p 12)) as [->|Hne].
      * destruct (K2 (Z.shiftr p 12) (V ++ Addresses)) as (W & HW & Hs); [by rewrite G2, Hin, HV|]. exists W. split; [done|]. intros A HA. apply Hs, elem_of_app. by left.
      * apply K2. by rewrite G2, Hout.
    + intros q A [->|Hq]%elem_of_cons HA; [|by apply K3]. destruct (K2 (Z.shiftr p 12) (default [] (CodePages s !! Z.shiftr p 12) ++ Addresses)) as (W & HW & Hs); [by rewrite G2, Hin|].
      exists W. split; [done|]. apply Hs, elem_of_app. by right.
    + intros k W A HW HA. destruct (K4 k W A HW HA) as [(V & HV & HAV)|(HAA & q & Hq & Hk)]; [|right; split; [done|exists q; split; [by apply elem_of_cons; right|done]]].
      rewrite G2 in HV. destruct (decide (k = Z.shiftr p 12)) as [->|Hne]; [|rewrite Hout in HV by done; left; by exists V]. rewrite Hin in HV. injection HV as <-.
      apply elem_of_app in HAV as [HAV|HAV]; [left|right; split; [done|exists p; split; [apply list_elem_of_here|done]]].
      destruct (CodePages s !! Z.shiftr p 12) as [V|]; [by exists V|by apply elem_of_nil in HAV].
    + intros q i Hq Hi. by apply K5, G3.
    + intros q i [->|Hq]%elem_of_cons HE Hi; [apply K5; [done|]; apply G4; [done|lia|done|done]|]. apply K6; [done|by rewrite (sb_enabled _ _ G1)|done].
    + intros q [->|Hq]%elem_of_cons He; [rewrite (proj2 Hrv He); exists p; split; [apply list_elem_of_here|done]|].
      destruct (decide (Z.shiftr q 12 = Z.shiftr p 12)) as [Hk|Hne]; [rewrite Hk in He |- *; rewrite (proj2 Hrv He); exists p; split; [apply list_elem_of_here|done]|].
      destruct (KN q Hq) as (q' & Hq' & Hk'); [by rewrite G2, Hout|]. exists q'. split; [|done]. destruct rv; [by apply elem_of_cons; right|done].
    + intros q Hq. apply elem_of_cons. destruct rv; [apply elem_of_cons in Hq as [->|Hq]; [by left|right; by apply KO]|right; by apply KO].
Qed.
End Register.

(** ** Publishing *)

(** A block whose pages are registered for its address, and marked, may be
    mapped. *)
Record mappable (A : Z) (e : BlockEntry) (s : t) : Prop := {
  mp_block : block_ok e;
  mp_pages p : p ∈ EPages e -> exists V, CodePages s !! Z.shiftr p 12 = Some V /\ A ∈ V;
  mp_marks p : Enabled (CodeGranules s) = true -> p ∈ EPages e -> marked (word (CodeGranules s) (Z.shiftr p 12)) (Z.shiftr p 12) e }.

Lemma map_block A e s : map_ok s -> mappable A e s -> map_ok (set_blocks (<[A := e]> (BlockList s)) s).
Proof.
  intros [(cs & [[free []] Hk]) M2 [X1 X2 X3 X4] M4 M5] [P1 P2 P3]. split; try done.
  - exists cs. split; [exists free; by split|]. intros d Hd. cbn. destruct (decide (d = A)) as [->|]; [rewrite lookup_insert_eq; by eexists|]. rewrite lookup_insert_ne by done. by apply Hk.
  - cbn [set_blocks BlockList CodePages CodeGranules]. split; [| |done|].
    + intros B eB [[<- <-]|[_ HB]]%lookup_insert_Some; [done|by eapply X1].
    + intros B eB p [[<- <-]|[_ HB]]%lookup_insert_Some; [apply P2|by apply X2].
    + intros B eB p HE [[<- <-]|[_ HB]]%lookup_insert_Some; [by apply P3|by eapply X4].
Qed.

(** Operations that keep the links and the blocks found. *)
Definition same_links (s s' : t) : Prop :=
  BlockLinkPool s' = BlockLinkPool s /\ BlockLinkFreeHead s' = BlockLinkFreeHead s /\ BlockLinks s' = BlockLinks s /\ Delinked s' = Delinked s /\
  forall d, is_Some (BlockList s !! d) -> is_Some (BlockList s' !! d).

Lemma same_links_rep s s' cs : same_links s s' -> rep s cs -> rep s' cs /\ forall d, links_of s' cs d = links_of s cs d.
Proof.
  intros (E1 & E2 & E3 & _ & E5) [[free []] Hk]. split; [|intros d; unfold links_of; by rewrite E1].
  split; [exists free; split; rewrite ?E1, ?E2, ?E3; done|]. intros d Hd. by apply E5, Hk.
Qed.

Lemma same_blocks_links s s' : same_blocks s s' -> same_links s s'.
Proof. intros [(E1 & E2 & E3 & E4) E5 _ _]. split; [done|]. do 3 (split; [done|]). intros d. by rewrite E5. Qed.

Lemma same_links_trans s1 s2 s3 : same_links s1 s2 -> same_links s2 s3 -> same_links s1 s3.
Proof.
  intros (A1 & A2 & A3 & A4 & A5) (B1 & B2 & B3 & B4 & B5). split; [congruence|]. do 3 (split; [congruence|]). intros d Hd. by apply B5, A5.
Qed.

Lemma same_links_mapping A e s : same_links s (set_blocks (<[A := e]> (BlockList s)) s).
Proof.
  split; [done|]. do 3 (split; [done|]). intros d Hd. cbn. destruct (decide (d = A)) as [->|]; [rewrite lookup_insert_eq; by eexists|by rewrite lookup_insert_ne].
Qed.

(** Every unit the decoder and the back end produce. *)
Record unit_ok (u : Unit) : Prop := {
  uo_pages : Forall page_addr (UCodePages u);
  uo_span : 0 <= StartAddr u /\ 0 <= ULength u /\ StartAddr u + ULength u < 2 ^ 64;
  uo_entries A h : (A, h) ∈ CompiledEntryPoints u -> A ∈ EntryPoints u }.

Definition unit_entry (u : Unit) (Hash HashedLength h : Z) : BlockEntry :=
  mkBlockEntry h (UBlockBegin u) (UCodePages u) (StartAddr u) HashedLength Hash (StartAddr u) (ULength u).

Lemma on_all_mappable Addresses S L s s' A e :
  on_all Addresses (EPages e) S L s s' -> A ∈ Addresses -> block_ok e ->
  L = 0 \/ (S = ExtentStart e /\ L = ExtentLength e) -> mappable A e s'.
Proof.
  intros [O1 O2 O3 O4 O5 O6] HA Hb HSL. split; [done|by intros p Hp; apply O3|]. intros p HE Hp x Hx Hext. rewrite (sb_enabled _ _ O1) in HE.
  pose proof (bo_pages e Hb p Hp) as Hpk. apply O6; [done|done|]. destruct HSL as [->|[-> ->]].
  - change (PageMaskFor _ S 0) with (PageMaskFor (Z.shiftl (Z.shiftr p 12) 12) 0 0). by apply mask_covers; [..|right].
  - destruct (bo_extent _ Hb) as (? & ? & ?). by apply mask_covers.
Qed.

Lemma map_blocks (es : list (Z * BlockEntry)) s :
  map_ok s -> (forall A e, (A, e) ∈ es -> mappable A e s) ->
  let s' := foldl (fun s p => set_blocks (<[p.1 := p.2]> (BlockList s)) s) s es in
  map_ok s' /\ s' = set_blocks (foldl (fun m p => <[p.1 := p.2]> m) (BlockList s) es) s.
Proof.
  revert s. induction es as [|[A e] es IH]; intros s Hok Hes; cbn [foldl fst snd]; [split; [done|by destruct s]|].
  destruct (IH (set_blocks (<[A := e]> (BlockList s)) s)) as [H1 H2]; [apply map_block; [done|apply Hes, list_elem_of_here]| |].
  - intros B eB HB. destruct (Hes B eB) as [P1 P2 P3]; [by apply elem_of_cons; right|]. by split.
  - cbv zeta in *. split; [done|]. rewrite H2. done.
Qed.

Lemma same_links_inserts (es : list (Z * BlockEntry)) s s1 : same_blocks s s1 -> same_links s (set_blocks (foldl (fun m p => <[p.1 := p.2]> m) (BlockList s) es) s1).
Proof.
  intros Hs. pose proof (same_blocks_links s s1 Hs) as (E1 & E2 & E3 & E4 & _). split; [done|]. do 3 (split; [done|]). intros d Hd. cbn [set_blocks BlockList].
  revert Hd. generalize (BlockList s) as m. induction es as [|[A e] es IH]; intros m Hd; [done|]. cbn [foldl fst snd]. apply IH.
  destruct (decide (d = A)) as [->|]; [rewrite lookup_insert_eq; by eexists|by rewrite lookup_insert_ne].
Qed.

Section PublishSpec.
Context (AllocL1 AllocLeaf : Z -> bool) (XXH3 : list Z -> Z -> Z) (Soft : bool) (ValidateOnly : Z -> bool).
Context (HA1 : forall k, AllocL1 k = true) (HAL : forall k, AllocLeaf k = true).
#[local] Set Default Proof Using "Type*".

Definition unit_entries (mem : Z -> Z) (u : Unit) : list (Z * BlockEntry) :=
  let '(Hash, Len) := guest_hash XXH3 Soft mem (UCodePages u) (StartAddr u) (ULength u) in (fun p => (p.1, unit_entry u Hash Len p.2)) <$> CompiledEntryPoints u.

Lemma unit_entry_ok mem u A e : unit_ok u -> (A, e) ∈ unit_entries mem u ->
  block_ok e /\ EPages e = UCodePages u /\ ExtentStart e = StartAddr u /\ ExtentLength e = ULength u /\ A ∈ EntryPoints u /\ (A, HostCode e) ∈ CompiledEntryPoints u.
Proof using Type.
  intros [U1 U2 U3] He. unfold unit_entries, guest_hash in He. rewrite Forall_forall in U1.
  destruct (Soft && _); apply list_elem_of_fmap in He as ([A' h] & [= -> ->] & Hin); (split; [|do 3 (split; [done|]); split; [by eapply U3|done]]);
    (split; [exact U1|exact U2|]); [by right|by left].
Qed.

Lemma publish_spec mem u s :
  map_ok s -> unit_ok u ->
  exists Armed s1, PublishUnit AllocL1 AllocLeaf XXH3 Soft mem u s = Some (Armed, set_blocks (foldl (fun m p => <[p.1 := p.2]> m) (BlockList s) (unit_entries mem u)) s1) /\
    map_ok (set_blocks (foldl (fun m p => <[p.1 := p.2]> m) (BlockList s) (unit_entries mem u)) s1) /\
    on_all (EntryPoints u) (UCodePages u) (StartAddr u) (ULength u) s s1 /\
    (forall p, p ∈ UCodePages u -> default [] (CodePages s !! Z.shiftr p 12) = [] -> exists q, q ∈ Armed /\ Z.shiftr q 12 = Z.shiftr p 12).
Proof.
  intros Hok Hu. unfold PublishUnit.
  destruct (register_pages_spec AllocL1 AllocLeaf HA1 HAL (EntryPoints u) (UCodePages u) (StartAddr u) (ULength u) s [] Hok (uo_pages _ Hu)) as (New & s1 & -> & Hok1 & Hall & Harm & _).
  cbn [mbind option_bind app]. exists New, s1. destruct (map_blocks (unit_entries mem u) s1 Hok1) as [Hm1 Hm2].
  { intros A e He. destruct (unit_entry_ok mem u A e Hu He) as (B1 & B2 & B3 & B4 & B5 & _).
    eapply (on_all_mappable (EntryPoints u) (StartAddr u) (ULength u) s); [by rewrite B2|done|done|by right]. }
  cbv zeta in *. rewrite Hm2, (sb_blocks _ _ (oa_same _ _ _ _ _ _ Hall)) in Hm1. split; [|done].
  unfold unit_entries in *. destruct (guest_hash _ _ _ _ _ _) as [Hash Len]. rewrite (sb_blocks _ _ (oa_same _ _ _ _ _ _ Hall)) in Hm2. rewrite <- Hm2.
  do 2 f_equal. clear Hm1 Hm2. generalize s1. induction (CompiledEntryPoints u) as [|[A h] l IH]; intros s0; [done|]. cbn. apply IH.
Qed.

(** *** Relinking *)

Lemma take_spec A s : map_ok s ->
  let s' := (TakeRetainedBlock A s).2 in
  (TakeRetainedBlock A s).1 = RetainedBlocks s !! A /\ map_ok s' /\ RetainedBlocks s' = delete A (RetainedBlocks s) /\ BlockList s' = BlockList s /\
  CodeGranules s' = CodeGranules s /\ CodePages s' = CodePages s /\ same_links s s'.
Proof using Type.
  intros Hok. unfold TakeRetainedBlock. destruct (RetainedBlocks s !! A) as [e|] eqn:HA; cbv zeta; cbn [fst snd].
  - split; [done|]. split; [|done]. apply map_retained; [done|by apply ret_drop; [apply Hok|]|]. intros B eB [_ HB]%lookup_delete_Some. by eapply mo_ret_block.
  - split; [done|]. split; [done|]. by rewrite delete_id.
Qed.

(** The hash depends on the bytes of the block only. *)
Lemma hash_frame mem mem' ps S L :
  Forall page_addr ps -> 0 <= S -> 0 <= L -> S + L < 2 ^ 64 ->
  (forall p x, p ∈ ps -> p <= x < p + 4096 -> S <= x < S + L -> mem' x = mem x) ->
  HashGuestBlock XXH3 mem' ps S L = HashGuestBlock XXH3 mem ps S L.
Proof using Type.
  intros Hps HS HL Hw Hm. unfold HashGuestBlock. rewrite u64_small by lia. generalize L at 2 4. induction ps as [|p ps IH]; intros H0; [done|]. cbn [foldl].
  apply Forall_cons in Hps as [Hp Hps]. rewrite (IH Hps) by (intros q x Hq; apply Hm; by apply elem_of_cons; right). f_equal. unfold hash_page. destruct Hp as [Hp _].
  rewrite u64_small by lia. destruct (Z.geb_spec (Z.max p S) (Z.min (p + 4096) (S + L))); [done|]. f_equal. apply map_ext_in. intros i Hi%in_seq. apply (Hm p); [apply list_elem_of_here|lia|lia].
Qed.

(** The new entry is the old one. *)
Lemma entry_eta e : mkBlockEntry (HostCode e) (BlockBegin e) (EPages e) (GuestRangeStart e) (GuestRangeLength e) (GuestHash e) (ExtentStart e) (ExtentLength e) = e.
Proof using Type. by destruct e. Qed.

(** Either the block is back as it was, its guest bytes unchanged at both
    looks, or it is gone for good; no other block changes. *)
Lemma relink_spec before after A s : map_ok s ->
  exists h Armed s', Relink AllocL1 AllocLeaf XXH3 ValidateOnly before after A s = Some (h, Armed, s') /\ map_ok s' /\ same_links s s' /\
    (forall B, B <> A -> FindBlock B s' = FindBlock B s) /\ RetainedBlocks s' = delete A (RetainedBlocks s) /\
    let hash mem e := HashGuestBlock XXH3 mem (EPages e) (GuestRangeStart e) (GuestRangeLength e) in
    ((exists e, RetainedBlocks s !! A = Some e /\ h = HostCode e /\ FindBlock A s' = Some e /\ hash before e = GuestHash e /\ hash after e = GuestHash e /\ existsb ValidateOnly (EPages e) = false) \/
     (h = 0 /\ FindBlock A s' = FindBlock A s /\
       forall e, RetainedBlocks s !! A = Some e -> hash before e = GuestHash e -> hash after e = GuestHash e -> existsb ValidateOnly (EPages e) = true)).
Proof.
  intros Hok. unfold Relink, FindBlock. destruct (take_spec A s Hok) as (T1 & Hok1 & T3 & T4 & _ & _ & Hl1). cbv zeta in *.
  destruct (TakeRetainedBlock A s) as [r s1]. cbn [fst snd] in *. subst r.
  destruct (RetainedBlocks s !! A) as [e|] eqn:HA; [|exists 0, [], s1; split; [done|]; split; [done|]; split; [done|]; split; [by rewrite T4|]; split; [done|]; right; split; [done|]; split; [by rewrite T4|done]].
  destruct (Z.eqb_spec (HashGuestBlock XXH3 before (EPages e) (GuestRangeStart e) (GuestRangeLength e)) (GuestHash e)) as [Hb|Hb]; cbn [negb].
  2:{ exists 0, [], s1. split; [done|]. split; [done|]. split; [done|]. split; [by rewrite T4|]. split; [done|]. right. split; [done|]. split; [by rewrite T4|]. intros e' [= <-] ?. done. }
  destruct (existsb ValidateOnly (EPages e)) eqn:HV.
  { exists 0, [], s1. split; [done|]. split; [done|]. split; [done|]. split; [by rewrite T4|]. split; [done|]. right. split; [done|]. split; [by rewrite T4|]. by intros e' [= <-] ? ?. }
  pose proof (mo_ret_block _ Hok A e HA) as Hblk.
  destruct (register_pages_spec AllocL1 AllocLeaf HA1 HAL [A] (EPages e) (GuestRangeStart e) (GuestRangeLength e) s1 [] Hok1) as (New & s2 & -> & Hok2 & Hall & _ & _); [apply Forall_forall, Hblk|].
  cbn [mbind option_bind app]. pose proof (same_links_trans _ _ _ Hl1 (same_blocks_links _ _ (oa_same _ _ _ _ _ _ Hall))) as Hl2.
  pose proof (oa_same _ _ _ _ _ _ Hall) as [_ S2 [S3 _] _].
  destruct (Z.eqb_spec (HashGuestBlock XXH3 after (EPages e) (GuestRangeStart e) (GuestRangeLength e)) (GuestHash e)) as [Ha|Ha]; cbn [negb].
  - exists (HostCode e), New. eexists. split; [done|]. cbn [AddBlockMapping snd]. rewrite entry_eta. split; [|split; [eapply same_links_trans; [exact Hl2|apply same_links_mapping]|split; [|split; [|left]]]].
    + apply map_block; [done|]. eapply on_all_mappable; [exact Hall|apply list_elem_of_here|done|]. destruct (bo_hash _ Hblk) as [->|[-> ->]]; [by left|by right].
    + intros B HB. cbn. by rewrite lookup_insert_ne, S2, T4.
    + cbn. by rewrite S3, T3.
    + exists e. split; [done|]. split; [done|]. split; [cbn; by rewrite lookup_insert_eq|done].
  - exists 0, New, s2. split; [done|]. split; [done|]. split; [done|]. split; [by rewrite S2, T4|]. split; [by rewrite S3|]. right. split; [done|]. split; [by rewrite S2, T4|]. by intros e' [= <-] _ ?.
Qed.
End PublishSpec.
