(* ===== verification/BlockLinker.v ===== *)
(** Block linking of the PPC64LE back end (FEXCore/Source/Interface/Core/JIT/
    PPC64LE/JIT.cpp, ArchHelpers/PPC64Emitter.h): an exit of a compiled block is
    patched to branch to its target, and the delinker that undoes the patch is
    registered with the lookup map first.

    Host code is a memory of words by address.  The fields of a link record that
    are written once, when the code is emitted, are a parameter by the record's
    address; the one the linker writes is part of the state.  Instruction cache
    maintenance and the memory barriers have no counterpart: a patch is one
    step. *)
From S2P Require Import Prelude Granules LookupMap.
From stdpp Require Import gmap.
Open Scope Z_scope.
Import GuestToHostMap.

Module BlockLinker.

Definition PPC64BranchDisplacementInRange (Delta : Z) : bool := (Z.land Delta 3 =? 0) && (- 0x2000000 <=? Delta) && (Delta <=? 0x1FFFFFC).
Definition PPC64EncodeBranch (Delta : Z) : Z := Z.lor 0x48000000 (Z.land (u32 Delta) 0x03FFFFFC).
Definition PPC64_BCL_20_31_PLUS4 : Z := 0x429F0005.
Definition PPC64LinkRecordFromThunkStart : Z := 0x38.

Record PPC64BlockLinkRecord := mkRecord {
  RecordGuestRIP : Z; CallerOffset : Z; OrigCallerWord : Z; OrigThunkWord : Z; LinkedEntryOffset : Z; FinalOffset : Z }.

(** The words of host code, and [HostCode] of the record at an address. *)
Record Host := mkHost { Word : Z -> Z; RecordHostCode : Z -> Z }.

Definition PPC64PatchInstruction (Address W : Z) (h : Host) : Host := mkHost (fun a => if a =? Address then W else Word h a) (RecordHostCode h).
Definition PPC64PatchInstructionIf (Address Expected W : Z) (h : Host) : Host := if Word h Address =? Expected then PPC64PatchInstruction Address W h else h.
Definition set_record (Record Code : Z) (h : Host) : Host := mkHost (Word h) (fun a => if a =? Record then Code else RecordHostCode h a).

(** The difference of two addresses as [int64_t]. *)
Definition delta (a b : Z) : Z := sgn 64 (a - b).

Section Linker.
(** The records by address, and the option that drops the link bit. *)
Context (Records : Z -> PPC64BlockLinkRecord) (NoLinkStackPair : bool).

Definition PPC64EncodeBranchLink (Delta : Z) : Z := Z.lor (PPC64EncodeBranch Delta) (if NoLinkStackPair then 0 else 1).

Definition caller_address (Record : Z) : Z := u64 (Record + CallerOffset (Records Record)).
Definition thunk_start (Record : Z) : Z := u64 (Record - PPC64LinkRecordFromThunkStart).

(** ** Delinkers *)

Definition PPC64DirectBlockDelinker (Record : Z) (h : Host) : Host := PPC64PatchInstruction (caller_address Record) (OrigCallerWord (Records Record)) h.
Definition PPC64IndirectBlockDelinker (Record : Z) (h : Host) : Host :=
  PPC64PatchInstruction (thunk_start Record) (OrigThunkWord (Records Record)) (PPC64PatchInstruction (caller_address Record) (OrigCallerWord (Records Record)) h).

(** The two function pointers, as the map stores them. *)
Definition Direct : Z := 0.
Definition Thunk : Z := 1.
Definition run_delinker (h : Host) (l : Z * Z) : Host := if l.1 =? Direct then PPC64DirectBlockDelinker l.2 h else PPC64IndirectBlockDelinker l.2 h.

(** ** Linking *)

Definition is_indirect (Record : Z) : bool := RecordGuestRIP (Records Record) =? 0.

Definition GiveUpInlineCache (Record : Z) (h : Host) : Host :=
  if negb (is_indirect Record) then h
  else
    let A := caller_address Record in
    let Probe := u64 (Record + LinkedEntryOffset (Records Record)) in
    PPC64PatchInstructionIf A (OrigCallerWord (Records Record)) (PPC64EncodeBranch (delta Probe A)) h.

(** One immediate of the guard of an inline cache. *)
Definition guard_imm (Guard i v : Z) (h : Host) : Host :=
  let a := Guard + 4 * i in PPC64PatchInstruction a (Z.lor (Z.land (Word h a) 0xFFFF0000) (Z.land v 0xFFFF)) h.

Definition shadow_call (Record : Z) : bool := negb (Z.land (FinalOffset (Records Record)) (-4) =? 0).
Definition call_in_place (Record : Z) : bool := shadow_call Record && (Z.land (FinalOffset (Records Record)) (-4) =? CallerOffset (Records Record)).
Definition final_address (Record : Z) : Z := if shadow_call Record then u64 (Record + Z.land (FinalOffset (Records Record)) (-4)) else caller_address Record.
Definition linked_entry (Record : Z) : Z := if shadow_call Record then u64 (Record + LinkedEntryOffset (Records Record)) else 0.

Definition PatchCaller (Record GuestRIP PlainWord : Z) (h : Host) : Host :=
  let Caller := caller_address Record in
  if is_indirect Record then
    let Guard := Caller + 4 in
    let h := guard_imm Guard 0 (Z.shiftr GuestRIP 48) h in
    let h := guard_imm Guard 1 (Z.shiftr GuestRIP 32) h in
    let h := guard_imm Guard 3 (Z.shiftr GuestRIP 16) h in
    let h := guard_imm Guard 4 GuestRIP h in
    PPC64PatchInstructionIf Caller (OrigCallerWord (Records Record)) 0x60000000 h
  else if call_in_place Record then h
  else if shadow_call Record then PPC64PatchInstruction Caller (PPC64EncodeBranch (delta (linked_entry Record) Caller)) h
  else PPC64PatchInstruction Caller PlainWord h.

(** The word that reaches the target: [bl] for a shadow call, unless its final
    word takes a plain branch. *)
Definition final_word (Record Delta : Z) : Z :=
  if Z.testbit (FinalOffset (Records Record)) 0 then PPC64EncodeBranch Delta else PPC64EncodeBranchLink Delta.
Definition patch_final (Record Delta : Z) (h : Host) : Host :=
  if shadow_call Record then PPC64PatchInstruction (final_address Record) (final_word Record Delta) h else h.

(** [LinkAndPatch], under the write lock.  [Rotated]: the thread has moved to
    the map of another code buffer. *)
Definition LinkAndPatch (Rotated : bool) (Record GuestRIP HostCode_ : Z) (s : t) (h : Host) : option (t * Host) :=
  if Rotated then Some (s, h)
  else
    match FindBlock GuestRIP s with
    | None => Some (s, h)
    | Some Entry =>
        if negb (HostCode Entry =? HostCode_) then Some (s, h)
        else if negb (Word h (caller_address Record) =? OrigCallerWord (Records Record)) then Some (s, h)
        else
          let DirectDelta := delta HostCode_ (final_address Record) in
          let ThunkDelta := delta (thunk_start Record) (final_address Record) in
          let LinkedEntryDelta := delta (linked_entry Record) (caller_address Record) in
          let CallerReachable := negb (shadow_call Record) || is_indirect Record || call_in_place Record || PPC64BranchDisplacementInRange LinkedEntryDelta in
          if PPC64BranchDisplacementInRange DirectDelta && CallerReachable then
            s ← AddBlockLink GuestRIP Record Direct s;
            Some (s, PatchCaller Record GuestRIP (PPC64EncodeBranch DirectDelta) (patch_final Record DirectDelta h))
          else if PPC64BranchDisplacementInRange ThunkDelta && CallerReachable then
            s ← AddBlockLink GuestRIP Record Thunk s;
            let h := PPC64PatchInstruction (thunk_start Record) PPC64_BCL_20_31_PLUS4 (set_record Record HostCode_ h) in
            Some (s, PatchCaller Record GuestRIP (PPC64EncodeBranch ThunkDelta) (patch_final Record ThunkDelta h))
          else Some (s, GiveUpInlineCache Record h)
    end.

(** [ExitFunctionLinkWithRecord]: the guest PC is used by an inline cache only,
    [Found] is what the lookup or the compiler gives, zero for nothing. *)
Definition ExitFunctionLinkWithRecord (Rotated : bool) (Record PC Found : Z) (s : t) (h : Host) : option (t * Host) :=
  let GuestRIP := if is_indirect Record then PC else RecordGuestRIP (Records Record) in
  if is_indirect Record && ((GuestRIP <? 0x1000) || negb (Z.shiftr GuestRIP 48 =? 0)) then Some (s, GiveUpInlineCache Record h)
  else if Found =? 0 then Some (s, h)
  else LinkAndPatch Rotated Record GuestRIP Found s h.

(** An operation of the map, with the delinkers it calls. *)
Definition with_delinkers (f : t -> option t) (s : t) (h : Host) : option (t * Host) :=
  s' ← f s; Some (s', foldl run_delinker h (drop (length (Delinked s)) (Delinked s'))).
End Linker.
End BlockLinker.
