(* ===== verification/LinkSites.v ===== *)
(** The patch sites of linked exits: where a patched word branches to, what the
    delinkers and the linker leave of the other sites, and the invariant that
    ties the words of the sites to the links of the lookup map. *)
From S2P Require Import Prelude Granules LookupMap LookupLinks LookupMapSpec LookupInvalidate BlockLinker.
From stdpp Require Import gmap.
Open Scope Z_scope.
Import GuestToHostMap BlockLinker.

(** ** Branches *)

(** Where the I-form branch [w] at [a] goes. *)
Definition branch_target (a w : Z) : Z := u64 (a + sgn 26 (Z.land w 0x03FFFFFC)).
Definition is_branch (w : Z) : Prop := Z.shiftr w 26 = 18.

Lemma mask_bits_branch i : 0 <= i -> Z.testbit 0x03FFFFFC i = (2 <=? i) && (i <? 26).
Proof.
  intros Hi. change 0x03FFFFFC with (Z.shiftl (Z.ones 24) 2). rewrite Z.shiftl_spec by lia. destruct (decide (i < 2)).
  - rewrite Z.testbit_neg_r by lia. lia.
  - rewrite Z.testbit_ones by lia. lia.
Qed.

Lemma opcode_bits i : 0 <= i < 26 -> Z.testbit 0x48000000 i = false.
Proof. intros Hi. change 0x48000000 with (Z.shiftl 18 26). rewrite Z.shiftl_spec by lia. by apply Z.testbit_neg_r; lia. Qed.

Lemma encode_low Delta : Z.land (PPC64EncodeBranch Delta) 0x03FFFFFC = Z.land Delta 0x03FFFFFC.
Proof.
  apply Z.bits_inj'. intros i Hi. unfold PPC64EncodeBranch, u32. rewrite !Z.land_spec, Z.lor_spec, Z.land_spec, testbit_wrap, mask_bits_branch by lia.
  destruct (Z.leb_spec 2 i), (Z.ltb_spec i 26); cbn [andb]; rewrite ?andb_false_r; try done. rewrite opcode_bits by lia. replace (i <? 32) with true by lia. by rewrite !andb_true_r.
Qed.

Lemma encode_is_branch Delta : is_branch (PPC64EncodeBranch Delta).
Proof.
  unfold is_branch, PPC64EncodeBranch. rewrite Z.shiftr_lor. change (Z.shiftr 0x48000000 26) with 18.
  replace (Z.shiftr (Z.land (u32 Delta) 0x03FFFFFC) 26) with 0; [done|]. symmetry. apply Z.bits_inj'. intros i Hi.
  rewrite Z.shiftr_spec, Z.land_spec, mask_bits_branch, Z.bits_0 by lia. replace (i + 26 <? 26) with false by lia. by rewrite !andb_false_r.
Qed.

Lemma in_range_low Delta : PPC64BranchDisplacementInRange Delta = true -> sgn 26 (Z.land Delta 0x03FFFFFC) = Delta.
Proof.
  unfold PPC64BranchDisplacementInRange. rewrite !andb_true_iff, Z.eqb_eq, !Z.leb_le. intros [[H4 Hlo] Hhi].
  replace (Z.land Delta 0x03FFFFFC) with (wrap 26 Delta); [rewrite sgn_wrap by lia; apply sgn_id; lia|].
  apply Z.bits_inj'. intros i Hi. rewrite testbit_wrap, Z.land_spec, mask_bits_branch by lia.
  destruct (Z.leb_spec 2 i); [rewrite andb_true_l; apply andb_comm|]. rewrite andb_false_l, andb_false_r. replace (i <? 26) with true by lia. cbn [andb].
  apply (f_equal (fun z => Z.testbit z i)) in H4. rewrite Z.land_spec, Z.bits_0 in H4. change 3 with (Z.ones 2) in H4. rewrite Z.testbit_ones_nonneg in H4 by lia.
  replace (i <? 2) with true in H4 by lia. by rewrite andb_true_r in H4.
Qed.

(** A branch within reach arrives. *)
Lemma branch_arrives a b : PPC64BranchDisplacementInRange (delta b a) = true -> branch_target a (PPC64EncodeBranch (delta b a)) = u64 b.
Proof.
  intros Hr. unfold branch_target. rewrite encode_low, in_range_low by done. unfold delta, u64.
  unfold wrap. rewrite <- Zplus_mod_idemp_r. fold (wrap 64 (sgn 64 (b - a))). rewrite wrap_sgn by lia. unfold wrap. rewrite Zplus_mod_idemp_r. f_equal. lia.
Qed.

(** ** Sites *)

Section Sites.
Context (Records : Z -> PPC64BlockLinkRecord) (NoLinkStackPair : bool).
#[local] Set Default Proof Using "Type".
Abbreviation caller := (caller_address Records).

(** The words the linker writes for a record. *)
Definition footprint (r : Z) : list Z :=
  [caller r; thunk_start r; final_address Records r; caller r + 4 + 4 * 0; caller r + 4 + 4 * 1; caller r + 4 + 4 * 3; caller r + 4 + 4 * 4].

(** An exit with a constant target and no shadow call. *)
Definition plain (r : Z) : Prop := is_indirect Records r = false /\ shadow_call Records r = false.

(** How a plain exit is linked to host code. *)
Definition linked (k r : Z) (c : Z) (h : Host) : Prop :=
  if k =? Direct then Word h (caller r) = PPC64EncodeBranch (delta c (caller r)) /\ PPC64BranchDisplacementInRange (delta c (caller r)) = true
  else Word h (caller r) = PPC64EncodeBranch (delta (thunk_start r) (caller r)) /\ PPC64BranchDisplacementInRange (delta (thunk_start r) (caller r)) = true /\
       Word h (thunk_start r) = PPC64_BCL_20_31_PLUS4 /\ RecordHostCode h r = c.

(** Where a patched plain exit goes: to the code, or to its thunk, whose first
    word then leads to the code the record names. *)
Definition goes_to (r c : Z) (h : Host) : Prop :=
  branch_target (caller r) (Word h (caller r)) = u64 c \/
  (branch_target (caller r) (Word h (caller r)) = thunk_start r /\ Word h (thunk_start r) = PPC64_BCL_20_31_PLUS4 /\ RecordHostCode h r = c).

Lemma linked_goes k r c h : linked k r c h -> goes_to r c h.
Proof.
  unfold linked, goes_to. destruct (k =? Direct); [intros [-> Hr]; left; by apply branch_arrives|]. intros (-> & Hr & H1 & H2). right. split; [|done].
  rewrite branch_arrives by done. unfold thunk_start, u64. by rewrite wrap_wrap.
Qed.

Lemma linked_branch k r c h : linked k r c h -> is_branch (Word h (caller r)).
Proof. unfold linked. destruct (k =? Direct); [intros [-> _]|intros (-> & _)]; apply encode_is_branch. Qed.

(** ** Frames *)

(** A change of the host that stays within the words of [r]. *)
Definition within (r : Z) (h h' : Host) : Prop :=
  (forall a, ~ (a ∈ footprint r) -> Word h' a = Word h a) /\ (forall r', r' <> r -> RecordHostCode h' r' = RecordHostCode h r').

Lemma within_refl r h : within r h h.
Proof. by split. Qed.

Lemma within_trans r h1 h2 h3 : within r h1 h2 -> within r h2 h3 -> within r h1 h3.
Proof. intros [A1 A2] [B1 B2]. split; [intros a Ha; rewrite B1, A1 by done; done|intros r' Hr; rewrite B2, A2 by done; done]. Qed.

Lemma within_patch r a w h : a ∈ footprint r -> within r h (PPC64PatchInstruction a w h).
Proof. intros Ha. split; [|done]. intros b Hb. cbn. destruct (Z.eqb_spec b a) as [->|]; done. Qed.

Lemma within_patch_if r a x w h : a ∈ footprint r -> within r h (PPC64PatchInstructionIf a x w h).
Proof. intros Ha. unfold PPC64PatchInstructionIf. destruct (_ =? _); [by apply within_patch|by apply within_refl]. Qed.

Lemma within_record r c h : within r h (set_record r c h).
Proof. split; [done|]. intros r' Hr. cbn. by rewrite (proj2 (Z.eqb_neq _ _)). Qed.

Ltac in_footprint := unfold footprint; rewrite !elem_of_cons; tauto.

Lemma within_delinker h l : within l.2 h (run_delinker Records h l).
Proof.
  unfold run_delinker. destruct (_ =? _); [apply within_patch; in_footprint|]. eapply within_trans; apply within_patch; in_footprint.
Qed.

Lemma within_give_up r h : within r h (GiveUpInlineCache Records r h).
Proof. unfold GiveUpInlineCache. destruct (negb _); [apply within_refl|]. apply within_patch_if. in_footprint. Qed.

Lemma within_final r D h : within r h (patch_final Records NoLinkStackPair r D h).
Proof. unfold patch_final. destruct (shadow_call _ _); [|apply within_refl]. apply within_patch. in_footprint. Qed.

Lemma within_guard r i v h : caller r + 4 + 4 * i ∈ footprint r -> within r h (guard_imm (caller r + 4) i v h).
Proof. intros Hi. by apply within_patch. Qed.

Lemma within_caller r pc w h : within r h (PatchCaller Records r pc w h).
Proof.
  unfold PatchCaller. destruct (is_indirect _ _).
  - set (h1 := guard_imm _ 0 _ h). set (h2 := guard_imm _ 1 _ h1). set (h3 := guard_imm _ 3 _ h2). set (h4 := guard_imm _ 4 _ h3).
    apply (within_trans r h h4); [|apply within_patch_if; in_footprint]. apply (within_trans r h h3); [|apply within_guard; in_footprint].
    apply (within_trans r h h2); [|apply within_guard; in_footprint]. apply (within_trans r h h1); apply within_guard; in_footprint.
  - destruct (call_in_place _ _); [apply within_refl|]. destruct (shadow_call _ _); apply within_patch; in_footprint.
Qed.

Context (Site : Z -> Prop).

(** The layout the back end emits: records have words of their own, and the
    unlinked word of a plain exit is not a branch. *)
Record layout : Prop := {
  ly_apart r r' a : Site r -> Site r' -> r <> r' -> a ∈ footprint r -> ~ (a ∈ footprint r');
  ly_site r : Site r -> plain r -> caller r <> thunk_start r /\ ~ is_branch (OrigCallerWord (Records r)) }.

Context (HL : layout).

(** Another site does not notice. *)
Lemma frame_site r r' h h' : Site r -> Site r' -> r <> r' -> within r' h h' ->
  Word h' (caller r) = Word h (caller r) /\ Word h' (thunk_start r) = Word h (thunk_start r) /\ RecordHostCode h' r = RecordHostCode h r.
Proof using HL.
  intros Hr Hr' Hne [H1 H2]. split; [|split; [|by apply H2]]; apply H1; (eapply (ly_apart HL r r'); [done|done|done|]); in_footprint.
Qed.

Lemma frame_linked k r r' c h h' : Site r -> Site r' -> r <> r' -> within r' h h' -> linked k r c h -> linked k r c h'.
Proof using HL. intros Hr Hr' Hne Hw. destruct (frame_site r r' h h' Hr Hr' Hne Hw) as (E1 & E2 & E3). unfold linked. by rewrite E1, E2, E3. Qed.

(** After the delinkers of a list: the sites in it are unlinked, the others
    are as they were. *)
Lemma delink_all (log : list (Z * Z)) h :
  (forall l, l ∈ log -> Site l.2) ->
  let h' := foldl (run_delinker Records) h log in
  (forall r, Site r -> plain r -> r ∈ log.*2 -> Word h' (caller r) = OrigCallerWord (Records r)) /\
  (forall r, Site r -> ~ (r ∈ log.*2) ->
     Word h' (caller r) = Word h (caller r) /\ Word h' (thunk_start r) = Word h (thunk_start r) /\ RecordHostCode h' r = RecordHostCode h r).
Proof using HL.
  revert h. induction log as [|l log IH]; intros h Hs; cbv zeta; cbn [foldl fmap list_fmap]; [split; [by intros r _ _ ?%elem_of_nil|done]|].
  destruct (IH (run_delinker Records h l)) as [IH1 IH2]; [intros l' Hl'; apply Hs; by apply elem_of_cons; right|]. assert (Hl : Site l.2) by apply Hs, list_elem_of_here.
  pose proof (within_delinker h l) as Hw. split.
  - intros r Hr Hp Hk. destruct (decide (r ∈ log.*2)) as [Hin|Hno]; [by apply IH1|]. apply elem_of_cons in Hk as [->|Hk]; [|done].
    destruct (IH2 l.2 Hr Hno) as (-> & _ & _). destruct (ly_site HL l.2 Hr Hp) as [Hct _]. unfold run_delinker. destruct (l.1 =? Direct); cbn; rewrite Z.eqb_refl; [done|].
    by rewrite (proj2 (Z.eqb_neq _ _)).
  - intros r Hr Hno. rewrite elem_of_cons in Hno. destruct (IH2 r Hr) as (-> & -> & ->); [tauto|]. apply (frame_site r l.2); [done|done|tauto|done].
Qed.
End Sites.
