(* ===== verification/LookupHistory.v ===== *)
(** Histories of the lookup map and the host code together: publishing,
    relinking, the three invalidations, block linking and the clearing of the
    cache, in any order.  The invariant of the map holds throughout, no
    operation gets stuck, and a patched exit always branches to code of a block
    that can still be found. *)
From S2P Require Import Prelude Granules LookupMap LookupLinks LookupMapSpec LookupInvalidate LookupRegister BlockLinker LinkSites.
From stdpp Require Import gmap.
Open Scope Z_scope.
Import CodeGranuleBitmap GuestToHostMap Publish BlockLinker.

(** ** Adding a link, clearing, the empty map *)

Lemma add_link_ok s cs d r k : map_ok s -> rep s cs -> is_Some (BlockList s !! d) -> Z.of_nat (length (BlockLinkPool s)) + 1 < BlockLinkInvalid ->
  exists s' cs', AddBlockLink d r k s = Some s' /\ map_ok s' /\ rep s' cs' /\ links_of s' cs' d = (k, r) :: links_of s cs d /\
    (forall d', d' <> d -> links_of s' cs' d' = links_of s cs d') /\ BlockList s' = BlockList s /\ Delinked s' = Delinked s /\
    (length (BlockLinkPool s') <= length (BlockLinkPool s) + 1)%nat.
Proof.
  intros Hok [[free Hr] Hk] Hd Hsz. destruct (add_link_spec s cs free d r k Hr Hsz) as (s' & cs' & free' & HA & Hr' & L1 & L2 & Hlen & Hs').
  assert (Hrep : rep s' cs').
  { split; [by exists free'|]. intros d' Hd'. rewrite Hs'. cbn. destruct (decide (d' = d)) as [->|Hne]; [done|]. apply Hk. clear - HA Hd' Hne Hr Hr' Hs'.
    pose proof (lr_chain _ _ _ Hr' d') as C'. pose proof (lr_chain _ _ _ Hr d') as C. destruct Hd' as [l Hl]. rewrite Hl in C'.
    assert (HB : BlockLinks s' !! d' = BlockLinks s !! d').
    { revert HA. unfold AddBlockLink. destruct (negb _); [destruct (BlockLinkPool s !! _); [|done]|]; intros [= <-]; cbn; by rewrite lookup_insert_ne. }
    rewrite HB in C'. destruct (BlockLinks s !! d'); [|done]. destruct (cs !! d'); [by eexists|done]. }
  exists s', cs'. split; [done|]. split; [|split; [done|split; [done|split; [done|split; [by rewrite Hs'|split; [by rewrite Hs'|done]]]]]].
  destruct Hok as [M1 M2 M3 M4 M5]. rewrite Hs' in *. split; try done. by exists cs'.
Qed.

Lemma rep_empty s : BlockLinkPool s = [] -> BlockLinkFreeHead s = BlockLinkInvalid -> BlockLinks s = ∅ -> rep s ∅.
Proof.
  intros E1 E2 E3. assert (Hno : forall d (l : list nat), ~ ((∅ : gmap Z (list nat)) !! d = Some l)) by (intros d l; by rewrite lookup_empty).
  split; [exists []|intros d [l Hd]; by destruct (Hno d l)]. split; rewrite ?E1, ?E2, ?E3.
  - intros d. by rewrite !lookup_empty.
  - done.
  - constructor.
  - intros d l Hl. by destruct (Hno d l).
  - intros d d' l l' i Hl. by destruct (Hno d l).
  - intros d l i Hl. by destruct (Hno d l).
  - intros i. cbn. lia.
  - done.
Qed.

Lemma ret_empty : ret_ok ∅ ∅.
Proof.
  split; [intros A e p HA; by rewrite lookup_empty in HA| |intros k Hk; by rewrite lookup_empty in Hk].
  intros A k HA. unfold at_page in HA. rewrite lookup_empty in HA. set_solver.
Qed.

(** Without blocks only the keys of the pages matter. *)
Lemma no_blocks_ok s : rep s ∅ -> BlockList s = ∅ -> RetainedBlocks s = ∅ -> RetainedCodePages s = ∅ -> CodePagesMemo s = None ->
  (forall k V, CodePages s !! k = Some V -> page_ok k) -> map_ok s.
Proof.
  intros Hr E1 E2 E3 E4 Hk. assert (Hno : forall A (e : BlockEntry), ~ ((∅ : gmap Z BlockEntry) !! A = Some e)) by (intros A e; by rewrite lookup_empty).
  split; [by exists ∅|by rewrite E4| |rewrite E2, E3; apply ret_empty|intros A e; rewrite E2; intros HA; by destruct (Hno A e)].
  rewrite E1. split; [intros A e HA; by destruct (Hno A e)|intros A e p HA; by destruct (Hno A e)|done|intros A e p _ HA; by destruct (Hno A e)].
Qed.

Lemma clear_ok s : map_ok s -> map_ok (ClearCache s) /\ rep (ClearCache s) ∅.
Proof.
  intros Hok. assert (Hr : rep (ClearCache s) ∅) by (by apply rep_empty). split; [|done]. apply no_blocks_ok; try done. apply (mo_index _ Hok).
Qed.

Lemma empty_ok Tracking : map_ok (empty_map Tracking true) /\ rep (empty_map Tracking true) ∅.
Proof.
  assert (Hr : rep (empty_map Tracking true) ∅) by (by apply rep_empty). split; [|done]. by apply no_blocks_ok.
Qed.

(** ** The invariant of the sites *)

(** The host codes a guest address has been mapped to since it was last not
    findable. *)
Definition live_at (live : gmap Z (gset Z)) (d : Z) : gset Z := default ∅ (live !! d).
Definition refresh (live : gmap Z (gset Z)) (bl : gmap Z BlockEntry) : gmap Z (gset Z) := map_imap (fun d e => Some ({[HostCode e]} ∪ live_at live d)) bl.

Lemma refresh_at live bl d : live_at (refresh live bl) d = match bl !! d with Some e => {[HostCode e]} ∪ live_at live d | None => ∅ end.
Proof. unfold refresh, live_at. rewrite map_lookup_imap. by destruct (bl !! d). Qed.

Lemma links_present s cs d l : rep s cs -> l ∈ links_of s cs d -> exists e, BlockList s !! d = Some e.
Proof.
  intros [_ Hk] Hl. unfold links_of in Hl. destruct (cs !! d) eqn:Hd; [|by apply elem_of_nil in Hl]. destruct (Hk d) as [e He]; [by eexists|]. by exists e.
Qed.

(** A link stays good when its destination does. *)
Lemma live_more live bl d c : is_Some (bl !! d) -> c ∈ live_at live d -> c ∈ live_at (refresh live bl) d.
Proof. intros [e He] Hc. rewrite refresh_at, He. set_solver. Qed.

Lemma drop_log (l l' : list (Z * Z)) : drop (length l) (l ++ l') = l'.
Proof. by rewrite drop_app_length. Qed.

Section Sites.
Context (Records : Z -> PPC64BlockLinkRecord) (Site : Z -> Prop).
#[local] Set Default Proof Using "Type*".
Abbreviation caller := (caller_address Records).

Definition unlinked (h : Host) : Prop := forall r, Site r -> plain Records r -> Word h (caller r) = OrigCallerWord (Records r).

Record sites_ok (s : t) (cs : gmap Z (list nat)) (h : Host) (live : gmap Z (gset Z)) : Prop := {
  so_linked d k r : (k, r) ∈ links_of s cs d ->
    Site r /\ (plain Records r -> d = RecordGuestRIP (Records r) /\ exists c, c ∈ live_at live d /\ linked Records k r c h);
  so_patched r : Site r -> plain Records r -> Word h (caller r) <> OrigCallerWord (Records r) -> exists k d, (k, r) ∈ links_of s cs d }.

(** Operations that keep the links. *)
Lemma same_sites s s' cs h live : same_links s s' -> rep s cs -> sites_ok s cs h live -> sites_ok s' cs h (refresh live (BlockList s')).
Proof.
  intros Hs Hr [S1 S2]. destruct (same_links_rep s s' cs Hs Hr) as [Hr' Hl]. split.
  - intros d k r. rewrite Hl. intros Hin. destruct (S1 d k r Hin) as [HS Hp]. split; [done|]. intros Hpl. destruct (Hp Hpl) as (-> & c & Hc & Hlk). split; [done|].
    exists c. split; [|done]. apply live_more; [|done]. rewrite <- Hl in Hin. destruct (links_present _ _ _ _ Hr' Hin) as [e He]. by eexists.
  - intros r HS Hp Hw. destruct (S2 r HS Hp Hw) as (k & d & Hin). exists k, d. by rewrite Hl.
Qed.

Context (HL : layout Records Site).

(** Operations that erase: each delinker restores its site, and the links that
    stay are not those of a restored site. *)
Lemma cut_sites As s s' cs cs' h live :
  cut As cs cs' s s' -> sites_ok s cs h live ->
  sites_ok s' cs' (foldl (run_delinker Records) h (drop (length (Delinked s)) (Delinked s'))) (refresh live (BlockList s')).
Proof.
  intros [C1 C2 (Ds & N & M & Hlog) C4 _] [S1 S2]. rewrite Hlog, drop_log. set (log := Ds ≫= links_of s cs).
  assert (Hin : forall k r, (k, r) ∈ log <-> exists d, d ∈ As /\ (k, r) ∈ links_of s cs d).
  { intros k r. unfold log. rewrite list_elem_of_bind. setoid_rewrite M. naive_solver. }
  destruct (delink_all Records Site HL log h) as [D1 D2]; [intros [k r] (d & _ & Hl)%Hin; by destruct (S1 d k r Hl)|]. cbv zeta in *. set (h' := foldl _ h log) in *.
  assert (Hrest : forall d k r, (k, r) ∈ links_of s' cs' d -> ~ (d ∈ As) /\ (k, r) ∈ links_of s cs d).
  { intros d k r. rewrite C2. destruct (decide (d ∈ As)); [by intros ?%elem_of_nil|done]. }
  split.
  - intros d k r Hl'. destruct (Hrest d k r Hl') as [Hd Hl]. destruct (S1 d k r Hl) as [HS Hp]. split; [done|]. intros Hpl. destruct (Hp Hpl) as (Hdr & c & Hc & Hlk).
    split; [done|]. exists c. split; [destruct (links_present _ _ _ _ C1 Hl') as [e He]; apply live_more; [by eexists|done]|].
    destruct (D2 r HS) as (E1 & E2 & E3); [|unfold linked in *; by rewrite E1, E2, E3].
    intros ([k' r'] & -> & (d' & Hd' & Hl2)%Hin)%list_elem_of_fmap. destruct (S1 d' k' r' Hl2) as [_ Hp']. destruct (Hp' Hpl) as [Hdr' _]. cbn in Hdr. congruence.
  - intros r HS Hp Hw. destruct (decide (r ∈ log.*2)) as [Hl|Hno]; [by rewrite (D1 r HS Hp Hl) in Hw|]. destruct (D2 r HS Hno) as (E1 & _). rewrite E1 in Hw.
    destruct (S2 r HS Hp Hw) as (k & d & Hl). exists k, d. rewrite C2. rewrite decide_False; [done|]. intros Hd. apply Hno, list_elem_of_fmap. exists (k, r). split; [done|]. apply Hin. by exists d.
Qed.

(** *** Linking *)

Lemma plain_patch NoLinkStackPair r pc D w h : plain Records r ->
  PatchCaller Records r pc w (patch_final Records NoLinkStackPair r D h) = PPC64PatchInstruction (caller r) w h.
Proof using Type.
  intros [Hi Hs]. unfold PatchCaller, patch_final, call_in_place. by rewrite Hi, Hs.
Qed.

(** What a link of the record [r] leaves: nothing but the record's own words
    when it fails; else the link is registered for the target, which can be
    found, and a plain exit goes there. *)
Definition link_done (r : Z) (s s' : t) (cs : gmap Z (list nat)) (h h' : Host) : Prop :=
  within Records r h h' /\
  ((s' = s /\ (plain Records r -> h' = h)) \/
   exists d k cs', rep s' cs' /\ links_of s' cs' d = (k, r) :: links_of s cs d /\ (forall d', d' <> d -> links_of s' cs' d' = links_of s cs d') /\
     BlockList s' = BlockList s /\ Word h (caller r) = OrigCallerWord (Records r) /\
     (plain Records r -> d = RecordGuestRIP (Records r) /\ exists e, FindBlock d s = Some e /\ linked Records k r (HostCode e) h')).

Lemma give_up_done r s cs h : link_done r s s cs h (GiveUpInlineCache Records r h).
Proof using Type. split; [apply within_give_up|]. left. split; [done|]. intros [Hi _]. unfold GiveUpInlineCache. by rewrite Hi. Qed.

Lemma nothing_done r s cs h : link_done r s s cs h h.
Proof using Type. split; [apply within_refl|]. by left. Qed.

Lemma link_step NoLinkStackPair Rotated r PC Found s h cs :
  map_ok s -> rep s cs -> Z.of_nat (length (BlockLinkPool s)) + 1 < BlockLinkInvalid -> (plain Records r -> caller r <> thunk_start r) ->
  exists s' h', ExitFunctionLinkWithRecord Records NoLinkStackPair Rotated r PC Found s h = Some (s', h') /\ map_ok s' /\
    (length (BlockLinkPool s') <= length (BlockLinkPool s) + 1)%nat /\ link_done r s s' cs h h'.
Proof using Type.
  intros Hok Hr Hsz Hct. unfold ExitFunctionLinkWithRecord.
  assert (Hstay : forall h', link_done r s s cs h h' -> exists s1 h1, Some (s, h') = Some (s1, h1) /\ map_ok s1 /\ (length (BlockLinkPool s1) <= length (BlockLinkPool s) + 1)%nat /\ link_done r s s1 cs h h1)
    by (intros h' Hd; exists s, h'; split; [done|]; split; [done|]; split; [lia|done]).
  destruct (is_indirect Records r && _) eqn:Hsus; [apply Hstay, give_up_done|]. destruct (Found =? 0); [apply Hstay, nothing_done|].
  set (d := if is_indirect Records r then PC else RecordGuestRIP (Records r)). unfold LinkAndPatch. destruct Rotated; [apply Hstay, nothing_done|].
  destruct (FindBlock d s) as [e|] eqn:He; [|apply Hstay, nothing_done]. destruct (Z.eqb_spec (HostCode e) Found) as [<-|_]; cbn [negb]; [|apply Hstay, nothing_done].
  destruct (Z.eqb_spec (Word h (caller_address Records r)) (OrigCallerWord (Records r))) as [Horig|_]; cbn [negb]; [|apply Hstay, nothing_done].
  assert (Hd : plain Records r -> d = RecordGuestRIP (Records r)) by (intros [Hi _]; unfold d; by rewrite Hi).
  assert (Hfin : plain Records r -> final_address Records r = caller_address Records r) by (intros [_ Hs]; unfold final_address; by rewrite Hs).
  destruct (PPC64BranchDisplacementInRange (delta (HostCode e) (final_address Records r)) && _) eqn:HD.
  - destruct (add_link_ok s cs d r Direct Hok Hr) as (s' & cs' & -> & Hok' & Hr' & L1 & L2 & L3 & _ & L5); [by eexists|done|]. cbn [mbind option_bind].
    eexists _, _. split; [done|]. split; [done|]. split; [done|]. split; [eapply within_trans; [apply within_final|apply within_caller]|].
    right. exists d, Direct, cs'. do 4 (split; [done|]). split; [done|]. intros Hp. split; [by apply Hd|]. exists e. split; [done|].
    apply andb_prop in HD as [HD _]. rewrite plain_patch, (Hfin Hp) in * by done. unfold linked. rewrite Z.eqb_refl. split; [|done]. cbn. by rewrite Z.eqb_refl.
  - clear HD. destruct (PPC64BranchDisplacementInRange (delta (thunk_start r) (final_address Records r)) && _) eqn:HD; [|apply Hstay, give_up_done].
    destruct (add_link_ok s cs d r Thunk Hok Hr) as (s' & cs' & -> & Hok' & Hr' & L1 & L2 & L3 & _ & L5); [by eexists|done|]. cbn [mbind option_bind].
    eexists _, _. split; [done|]. split; [done|]. split; [done|]. split.
    { eapply within_trans; [apply within_record|]. eapply within_trans; [apply within_patch; unfold footprint; rewrite !elem_of_cons; by right; left|]. eapply within_trans; [apply within_final|apply within_caller]. }
    right. exists d, Thunk, cs'. do 4 (split; [done|]). split; [done|]. intros Hp. split; [by apply Hd|]. exists e. split; [done|].
    apply andb_prop in HD as [HD _]. rewrite plain_patch, (Hfin Hp) in * by done. unfold linked. change (Thunk =? Direct) with false. cbn. rewrite !Z.eqb_refl.
    split; [done|]. split; [done|]. by rewrite (proj2 (Z.eqb_neq _ _)) by (intros E; by apply (Hct Hp)).
Qed.

Lemma link_sites r s s' cs h h' live :
  Site r -> rep s cs -> sites_ok s cs h live -> link_done r s s' cs h h' -> exists cs', rep s' cs' /\ sites_ok s' cs' h' (refresh live (BlockList s')).
Proof.
  intros HSr Hr [S1 S2] [Hw [[-> Hsame]|(d & k & cs' & Hr' & L1 & L2 & HB & Horig & Hp)]].
  - exists cs. split; [done|]. split.
    + intros d k r'. intros Hin. destruct (S1 d k r' Hin) as [HS Hpl]. split; [done|]. intros Hplain. destruct (Hpl Hplain) as (-> & c & Hc & Hlk). split; [done|].
      exists c. split; [destruct (links_present _ _ _ _ Hr Hin) as [e He]; apply live_more; [by eexists|done]|].
      destruct (decide (r' = r)) as [->|Hne]; [by rewrite (Hsame Hplain)|]. by eapply (frame_linked Records Site HL k r' r).
    + intros r' HS Hplain Hwr. apply S2; [done|done|]. destruct (decide (r' = r)) as [->|Hne]; [by rewrite (Hsame Hplain) in Hwr|].
      destruct (frame_site Records Site HL r' r h h' HS HSr Hne Hw) as (E1 & _). by rewrite <- E1.
  - exists cs'. split; [done|]. split.
    + intros d' k' r' Hin'. assert (Hcase : (d' = d /\ (k', r') = (k, r)) \/ (k', r') ∈ links_of s cs d').
      { destruct (decide (d' = d)) as [->|Hne]; [rewrite L1 in Hin'; apply elem_of_cons in Hin' as [?|?]; [by left|by right]|right; by rewrite <- L2]. }
      destruct (links_present _ _ _ _ Hr' Hin') as [e He]. destruct Hcase as [[-> [= -> ->]]|Hin].
      * split; [done|]. intros Hplain. destruct (Hp Hplain) as (-> & e' & He' & Hlk). split; [done|]. exists (HostCode e'). split; [|done]. rewrite refresh_at, HB.
        unfold FindBlock in He'. rewrite He'. set_solver.
      * destruct (S1 d' k' r' Hin) as [HS Hpl]. split; [done|]. intros Hplain. destruct (Hpl Hplain) as (-> & c & Hc & Hlk). split; [done|].
        exists c. split; [apply live_more; [by eexists|done]|]. destruct (decide (r' = r)) as [->|Hne]; [|by eapply (frame_linked Records Site HL k' r' r)].
        destruct (ly_site _ _ HL r HSr Hplain) as [_ Hnb]. destruct Hnb. rewrite <- Horig. by eapply linked_branch.
    + intros r' HS Hplain Hwr. destruct (decide (r' = r)) as [->|Hne]; [exists k, d; rewrite L1; apply list_elem_of_here|].
      destruct (frame_site Records Site HL r' r h h' HS HSr Hne Hw) as (E1 & _). rewrite E1 in Hwr. destruct (S2 r' HS Hplain Hwr) as (k' & d' & Hin). exists k', d'.
      destruct (decide (d' = d)) as [->|Hned]; [rewrite L1; by apply elem_of_cons; right|by rewrite L2].
Qed.
End Sites.

(** ** The machine *)

Section History.
Context (Records : Z -> PPC64BlockLinkRecord) (NoLinkStackPair : bool) (Site : Z -> Prop).
Context (XXH3 : list Z -> Z -> Z) (SMCSoftInvalidate : bool) (ValidateOnly : Z -> bool).
#[local] Set Default Proof Using "Type*".
Abbreviation Allocated := (fun _ : Z => true).

(** [OLink] is the linker's call from the exit of a record, with any result of
    the lookup or the compiler; [OClear] comes with the code buffer that
    replaces the old one. *)
Inductive Op :=
| OPublish (mem : Z -> Z) (u : Unit)
| ORelink (before after : Z -> Z) (GuestRIP : Z)
| OInvalidate (Start Length : Z)
| OSoftInvalidate (Start Length : Z)
| OInvalidatePrecise (Start Length : Z)
| OLink (Rotated : bool) (Record PC Found : Z)
| OClear (Fresh : Host).

Definition step (o : Op) (s : t) (h : Host) : option (t * Host) :=
  match o with
  | OPublish mem u => with_delinkers Records (fun s => '(_, s) ← PublishUnit Allocated Allocated XXH3 SMCSoftInvalidate mem u s; Some s) s h
  | ORelink before after A => with_delinkers Records (fun s => '(_, _, s) ← Relink Allocated Allocated XXH3 ValidateOnly before after A s; Some s) s h
  | OInvalidate Start Length => with_delinkers Records (InvalidateRange Start Length) s h
  | OSoftInvalidate Start Length => with_delinkers Records (SoftInvalidateRange Start Length) s h
  | OInvalidatePrecise Start Length => with_delinkers Records (fun s => '(_, s) ← InvalidateRangePrecise Start Length s; Some s) s h
  | OLink Rotated r PC Found => ExitFunctionLinkWithRecord Records NoLinkStackPair Rotated r PC Found s h
  | OClear Fresh => Some (ClearCache s, Fresh)
  end.

Fixpoint run (ops : list Op) (s : t) (h : Host) (live : gmap Z (gset Z)) : option (t * Host * gmap Z (gset Z)) :=
  match ops with
  | [] => Some (s, h, live)
  | o :: ops => '(s, h) ← step o s h; run ops s h (refresh live (BlockList s))
  end.

Definition op_ok (o : Op) : Prop :=
  match o with
  | OPublish _ u => unit_ok u
  | OLink _ r _ _ => Site r
  | OClear Fresh => unlinked Records Site Fresh
  | _ => True
  end.


Context (HL : layout Records Site).

Definition good (st : t * Host * gmap Z (gset Z)) : Prop :=
  let '(s, h, live) := st in map_ok s /\ exists cs, rep s cs /\ sites_ok Records Site s cs h live.

(** An operation of the map that keeps the links, or cuts some. *)
Lemma good_same f s h live s' : good (s, h, live) -> f s = Some s' -> map_ok s' -> same_links s s' ->
  exists h', with_delinkers Records f s h = Some (s', h') /\ good (s', h', refresh live (BlockList s')) /\ length (BlockLinkPool s') = length (BlockLinkPool s).
Proof.
  intros (Hok & cs & Hr & Hs) Hf Hok' Hl. exists h. pose proof Hl as (E1 & _ & _ & E4 & _). unfold with_delinkers. rewrite Hf. cbn [mbind option_bind]. rewrite E4, drop_all.
  split; [done|]. split; [|by rewrite E1]. split; [done|]. exists cs. split; [by apply (same_links_rep s s')|by eapply same_sites].
Qed.

Lemma good_cut f s h live : good (s, h, live) -> cuts f ->
  exists s' h', with_delinkers Records f s h = Some (s', h') /\ good (s', h', refresh live (BlockList s')) /\ length (BlockLinkPool s') = length (BlockLinkPool s).
Proof.
  intros (Hok & cs & Hr & Hs) Hf. destruct (Hf s cs Hok Hr) as (As & cs' & s' & HE & Hok' & HC). unfold with_delinkers. rewrite HE. cbn [mbind option_bind].
  eexists _, _. split; [done|]. split; [|apply HC]. split; [done|]. exists cs'. split; [apply HC|by eapply cut_sites].
Qed.

Lemma step_good o s h live : good (s, h, live) -> op_ok o -> Z.of_nat (length (BlockLinkPool s)) + 1 < BlockLinkInvalid ->
  exists s' h', step o s h = Some (s', h') /\ good (s', h', refresh live (BlockList s')) /\ (length (BlockLinkPool s') <= length (BlockLinkPool s) + 1)%nat.
Proof.
  intros Hg Ho Hsz. assert (Hweak : forall r, (exists s' h', r = Some (s', h') /\ good (s', h', refresh live (BlockList s')) /\ length (BlockLinkPool s') = length (BlockLinkPool s)) ->
    exists s' h', r = Some (s', h') /\ good (s', h', refresh live (BlockList s')) /\ (length (BlockLinkPool s') <= length (BlockLinkPool s) + 1)%nat).
  { intros r (s' & h' & H1 & H2 & H3). exists s', h'. split; [done|]. split; [done|lia]. }
  destruct o as [mem u|before after A|Start Length|Start Length|Start Length|Rotated r PC Found|Fresh]; cbn [step].
  - apply Hweak. destruct (publish_spec Allocated Allocated XXH3 SMCSoftInvalidate (fun _ => eq_refl) (fun _ => eq_refl) mem u s (proj1 Hg) Ho) as (Armed & s1 & HP & Hok' & Hall & _).
    set (s2 := set_blocks _ s1) in *. destruct (good_same (fun s => '(_, s) ← PublishUnit Allocated Allocated XXH3 SMCSoftInvalidate mem u s; Some s) s h live s2 Hg) as (h' & H1 & H2 & H3);
      [rewrite HP; reflexivity|done|apply same_links_inserts, Hall|]. by exists s2, h'.
  - apply Hweak. destruct (relink_spec Allocated Allocated XXH3 ValidateOnly (fun _ => eq_refl) (fun _ => eq_refl) before after A s (proj1 Hg)) as (c & Armed & s1 & HP & Hok' & Hl & _).
    destruct (good_same (fun s => '(_, _, s) ← Relink Allocated Allocated XXH3 ValidateOnly before after A s; Some s) s h live s1 Hg) as (h' & H1 & H2 & H3);
      [rewrite HP; reflexivity|done|done|]. by eexists _, h'.
  - apply Hweak, good_cut; [done|apply invalidate_cuts].
  - apply Hweak, good_cut; [done|apply soft_cuts].
  - apply Hweak, good_cut; [done|apply precise_cuts].
  - destruct Hg as (Hok & cs & Hr & Hs). destruct (link_step Records NoLinkStackPair Rotated r PC Found s h cs Hok Hr Hsz) as (s' & h' & HP & Hok' & Hlen & Hd); [apply (ly_site _ _ HL r Ho)|].
    exists s', h'. split; [done|]. split; [|done]. split; [done|]. by apply (link_sites Records Site HL r s s' cs h h').
  - destruct Hg as (Hok & _). destruct (clear_ok s Hok) as [Hok' Hr']. exists (ClearCache s), Fresh. split; [done|]. split; [|cbn; lia]. split; [done|]. exists ∅. split; [done|].
    split; [intros d k r Hin; unfold links_of in Hin; rewrite lookup_empty in Hin; by apply elem_of_nil in Hin|]. intros r Hr Hp Hw. by destruct Hw; apply Ho.
Qed.

Lemma run_good ops s h live : good (s, h, live) -> Forall op_ok ops -> Z.of_nat (length (BlockLinkPool s)) + Z.of_nat (length ops) < BlockLinkInvalid ->
  exists st, run ops s h live = Some st /\ good st.
Proof.
  revert s h live. induction ops as [|o ops IH]; intros s h live Hg Hops Hsz; [by exists (s, h, live)|]. cbn [run]. apply Forall_cons in Hops as [Ho Hops]. cbn [length] in Hsz.
  destruct (step_good o s h live Hg Ho) as (s' & h' & -> & Hg' & Hlen); [lia|]. cbn [mbind option_bind]. apply IH; [done|done|lia].
Qed.

End History.
