(* ===== verification/LookupQuery.v ===== *)
(** What the other parts of the emulator get from the lookup map: the answer of
    the granule bitmap and of the store fast path about a range, a soft
    invalidation undone by a relink. *)
From S2P Require Import Prelude Granules LookupMap LookupLinks LookupMapSpec LookupInvalidate LookupRegister BlockLinker LinkSites LookupHistory.
From stdpp Require Import gmap.
Open Scope Z_scope.
Import CodeGranuleBitmap GuestToHostMap Publish BlockLinker.

(** ** Queries *)

(** The byte [x] is one the block was compiled from, on a page it is registered
    for. *)
Definition compiled_from (e : BlockEntry) (x : Z) : Prop :=
  (exists p, p ∈ EPages e /\ Z.shiftr p 12 = x / 4096) /\ (ExtentStart e <= x < ExtentStart e + ExtentLength e \/ ExtentLength e = 0).

Lemma clear_no_code s S L A e x :
  map_ok s -> 0 <= S < 2 ^ 64 -> 0 <= L < 2 ^ 64 -> ProvablyClear S L (CodeGranules s) = true ->
  FindBlock A s = Some e -> compiled_from e x -> ~ (S <= x < S + L).
Proof.
  intros Hok HS HL Hc HA [(p & Hp & Hpx) Hx] Hin. destruct (provably_clear_bits S L (CodeGranules s) x HS HL Hc Hin) as [_ Hb].
  assert (HE : Enabled (CodeGranules s) = true) by (unfold ProvablyClear in Hc; by destruct (CodeGranules s)).
  pose proof (ix_mark _ _ _ (mo_index _ Hok) A e p HE HA Hp x) as Hm. rewrite Hpx in Hm. rewrite Hm in Hb by done. done.
Qed.

(** C20. The bitmap has no false negative: on a well-formed map, when it says
    that a range is provably clear, no byte of the range is one that a block
    that can be found was compiled from. *)
Theorem granules_never_miss (s : t) (S L A x : Z) (e : BlockEntry) :
  map_ok s -> 0 <= S < 2 ^ 64 -> 0 <= L < 2 ^ 64 ->
  ProvablyClear S L (CodeGranules s) = true -> FindBlock A s = Some e -> compiled_from e x -> ~ (S <= x < S + L).
Proof. intros. by eapply clear_no_code. Qed.

Section Overlap.
Context (Tail : Z -> Z * Z).

Lemma overlaps_spec S L s : 0 <= S -> 0 < L -> S + L < 2 ^ 64 ->
  MapRangeOverlapsCompiledCode Tail S L s = true <->
  exists A, on_pages (CodePages s) (first_page S) (last_page S L) A /\ block_overlaps Tail S (S + L) s A = true.
Proof.
  intros HS HL HE. unfold MapRangeOverlapsCompiledCode, last_page, on_pages. rewrite !u64_small by lia. rewrite existsb_exists. split.
  - intros ([k V] & Hk & HV). apply list_elem_of_In, pages_between_spec in Hk as [Hk Hr]. apply existsb_exists in HV as (A & HA & Ho). exists A. split; [|done].
    exists k, V. split; [done|]. split; [done|by apply list_elem_of_In].
  - intros (A & (k & V & Hk & Hr & HA) & Ho). exists (k, V). split; [apply list_elem_of_In, pages_between_spec; done|]. apply existsb_exists. exists A. split; [by apply list_elem_of_In|done].
Qed.

(** The store fast path is right when the tail of each host block names the
    extent of its block: if it reports no overlap, no byte of the range is one
    a block was compiled from; and if it reports one, some block registered on
    a page of the range has an extent that meets the range or is unknown. *)
Theorem store_query_exact (s : t) (S L : Z) :
  map_ok s -> 0 <= S -> 0 < L -> S + L < 2 ^ 64 ->
  (forall A e, FindBlock A s = Some e -> Tail (BlockBegin e) = (ExtentStart e, ExtentLength e)) ->
  (RangeOverlapsCompiledCode Tail S L s = false -> forall A e x, FindBlock A s = Some e -> compiled_from e x -> ~ (S <= x < S + L)) /\
  (RangeOverlapsCompiledCode Tail S L s = true ->
     exists A e, FindBlock A s = Some e /\ on_pages (CodePages s) (first_page S) (last_page S L) A /\ EntryOverlaps e S (S + L) = true).
Proof.
  intros Hok HS HL HE Htail. unfold RangeOverlapsCompiledCode. assert (Hblk : forall A e, FindBlock A s = Some e -> block_overlaps Tail S (S + L) s A = EntryOverlaps e S (S + L)).
  { intros A e HA. unfold block_overlaps, EntryOverlaps. unfold FindBlock in *. by rewrite HA, (Htail A e HA). }
  destruct (ProvablyClear S L (CodeGranules s)) eqn:Hc.
  - split; [|done]. intros _ A e x HA Hx. eapply (clear_no_code s S L); [done|lia|lia|done|done|done].
  - split.
    + intros Hno A e x HA [(p & Hp & Hpx) Hx] Hin. assert (Hyes : MapRangeOverlapsCompiledCode Tail S L s = true); [|congruence]. apply overlaps_spec; [done..|]. exists A.
      destruct (ix_page _ _ _ (mo_index _ Hok) A e p HA Hp) as (V & HV & HAV). split.
      * exists (Z.shiftr p 12), V. split; [done|]. split; [|done]. unfold first_page, last_page. rewrite u64_small, !Z.shiftr_div_pow2 in * by lia. change (2 ^ 12) with 4096 in *.
        rewrite Hpx. split; apply Z.div_le_mono; lia.
      * rewrite (Hblk A e HA). unfold EntryOverlaps. destruct (bo_extent _ (ix_block _ _ _ (mo_index _ Hok) A e HA)) as (? & ? & ?). destruct (Z.eqb_spec (ExtentLength e) 0); [done|].
        rewrite u64_small, Z.gtb_ltb by lia. lia.
    + intros (A & Hon & Ho)%overlaps_spec; [|done..]. unfold block_overlaps in Ho. destruct (BlockList s !! A) as [e|] eqn:HA; [|done]. exists A, e.
      split; [done|]. split; [done|]. rewrite <- (Hblk A e HA). unfold block_overlaps. by rewrite HA.
Qed.
End Overlap.

(** The store fast path as it is, with the tail the back end writes (the
    entry of the unit and the size of its extent), misses the bytes below the
    entry: for a unit whose decoded extent starts below its entry, as after a
    backward branch, a store there is reported not to overlap although the unit
    can be found and was compiled from those bytes. *)
Theorem store_query_misses (Tail : Z -> Z * Z) (XXH3 : list Z -> Z -> Z) (Soft Tracking : bool) (mem : Z -> Z) (u : Unit) (A h S L : Z) :
  unit_ok u -> CompiledEntryPoints u = [(A, h)] -> Tail (UBlockBegin u) = (A, ULength u) ->
  ULength u <> 0 -> StartAddr u <= S -> 0 < L -> S + L <= A -> A < StartAddr u + ULength u ->
  exists Armed s e, PublishUnit (fun _ => true) (fun _ => true) XXH3 Soft mem u (empty_map Tracking true) = Some (Armed, s) /\
    FindBlock A s = Some e /\ (forall x, S <= x < S + L -> ExtentStart e <= x < ExtentStart e + ExtentLength e) /\
    RangeOverlapsCompiledCode Tail S L s = false.
Proof.
  intros Hu Hc Ht HL0 HSS HL HSA HA.
  destruct (publish_spec (fun _ => true) (fun _ => true) XXH3 Soft (fun _ => eq_refl) (fun _ => eq_refl) mem u (empty_map Tracking true) (proj1 (empty_ok Tracking)) Hu)
    as (Armed & s1 & HP & _). unfold unit_entries in HP. rewrite Hc in HP. destruct (guest_hash _ _ _ _ _ _) as [Hash Len]. cbn [fmap list_fmap foldl fst snd empty_map BlockList] in HP.
  set (s := set_blocks _ s1) in *. exists Armed, s, (unit_entry u Hash Len h). split; [exact HP|]. split; [apply lookup_insert_eq|]. split; [cbn; lia|].
  unfold RangeOverlapsCompiledCode. destruct (ProvablyClear _ _ _); [done|]. destruct (uo_span _ Hu) as (? & ? & ?).
  assert (Hno : ~ (MapRangeOverlapsCompiledCode Tail S L s = true)); [|by destruct (MapRangeOverlapsCompiledCode Tail S L s)].
  intros (B & _ & Ho)%overlaps_spec; [|lia..]. unfold block_overlaps in Ho. unfold s in Ho. cbn [set_blocks BlockList] in Ho. rewrite lookup_insert in Ho.
  destruct (decide (A = B)); [|by rewrite lookup_empty in Ho]. cbn [unit_entry BlockBegin] in Ho. rewrite Ht in Ho. rewrite (proj2 (Z.eqb_neq _ _)) in Ho by done. lia.
Qed.

(** ** A soft invalidation and the relink *)

Section Roundtrip.
Context (XXH3 : list Z -> Z -> Z) (ValidateOnly : Z -> bool).
Abbreviation Allocated := (fun _ : Z => true).

(** The bytes of the block are the same. *)
Definition unchanged (e : BlockEntry) (mem mem' : Z -> Z) : Prop :=
  forall p x, p ∈ EPages e -> p <= x < p + 4096 -> ExtentStart e <= x < ExtentStart e + ExtentLength e -> mem' x = mem x.

(** C21. A soft invalidation of a page of a block with a hash makes the block
    unfindable and keeps it; the next lookup, which relinks, then gives the
    same block back, the same host code, when no byte of it has changed and no
    page of it is demoted; when the hash differs, before or after the pages
    are armed again, the block is dropped for good. *)
Theorem soft_roundtrip (Start Length A : Z) (e : BlockEntry) (s : t) (mem : Z -> Z) :
  map_ok s -> FindBlock A s = Some e -> on_pages (CodePages s) (first_page Start) (last_page Start Length) A -> retainable e = true ->
  GuestHash e = HashGuestBlock XXH3 mem (EPages e) (GuestRangeStart e) (GuestRangeLength e) ->
  exists s1, SoftInvalidateRange Start Length s = Some s1 /\ FindBlock A s1 = None /\ RetainedBlocks s1 !! A = Some e /\
  forall before after, exists h Armed s2, Relink Allocated Allocated XXH3 ValidateOnly before after A s1 = Some (h, Armed, s2) /\ RetainedBlocks s2 !! A = None /\
    (unchanged e mem before -> unchanged e mem after -> existsb ValidateOnly (EPages e) = false -> h = HostCode e /\ FindBlock A s2 = Some e) /\
    (HashGuestBlock XXH3 before (EPages e) (GuestRangeStart e) (GuestRangeLength e) <> GuestHash e \/
     HashGuestBlock XXH3 after (EPages e) (GuestRangeStart e) (GuestRangeLength e) <> GuestHash e -> h = 0 /\ FindBlock A s2 = None).
Proof.
  intros Hok HA Hon Hret Hhash. destruct (mo_links _ Hok) as [cs Hr]. unfold SoftInvalidateRange.
  destruct (invalidate_pages _ SoftErase_eraser (first_page Start) (last_page Start Length) cs s Hok Hr) as (cs' & s0 & HS & HE & Hok1 & _). cbv zeta in *. rewrite HS. cbn [mbind option_bind].
  eexists. split; [done|]. set (s1 := set_pages _ _ s0) in *.
  assert (Hin : A ∈ page_blocks s (first_page Start) (last_page Start Length)) by (by apply page_blocks_spec).
  assert (HA1 : FindBlock A s1 = None) by (unfold FindBlock, s1; cbn; rewrite (ct_blocks _ _ _ _ _ (er_cut _ _ _ _ _ HE)); by rewrite decide_True).
  assert (HR1 : RetainedBlocks s1 !! A = Some e).
  { unfold s1. cbn. rewrite (soft_range _ _ _ HS). fold (page_blocks s (first_page Start) (last_page Start Length)). rewrite decide_True by done. unfold FindBlock in HA. rewrite HA. cbn. by rewrite Hret. }
  split; [done|]. split; [done|]. intros before after. pose proof (mo_ret_block _ Hok1 A e HR1) as Hb. destruct (bo_extent _ Hb) as (B1 & B2 & B3).
  assert (Hrng : GuestRangeStart e = ExtentStart e /\ GuestRangeLength e = ExtentLength e).
  { destruct (bo_hash _ Hb) as [H0|]; [|done]. unfold retainable in Hret. rewrite H0 in Hret. done. }
  destruct Hrng as [R1 R2]. assert (Hsame : forall m, unchanged e mem m -> HashGuestBlock XXH3 m (EPages e) (GuestRangeStart e) (GuestRangeLength e) = GuestHash e).
  { intros m Hm. rewrite Hhash, R1, R2. apply hash_frame; [apply Forall_forall, Hb|done|done|done|exact Hm]. }
  destruct (relink_spec Allocated Allocated XXH3 ValidateOnly (fun _ => eq_refl) (fun _ => eq_refl) before after A s1 Hok1) as (h & Armed & s2 & HP & _ & _ & _ & HRt & Hcase). cbv zeta in Hcase.
  exists h, Armed, s2. split; [exact HP|]. split; [rewrite HRt; apply lookup_delete_eq|]. destruct Hcase as [(e' & He' & -> & HF & Hb1 & Ha1 & Hv)|(-> & HF & Hno)].
  - rewrite HR1 in He'. injection He' as <-. split; [done|]. intros [?|?]; congruence.
  - rewrite HA1 in HF. split; [|done]. intros Hub Hua Hv. specialize (Hno e HR1 (Hsame _ Hub) (Hsame _ Hua)). congruence.
Qed.
End Roundtrip.
