(* ===== verification/LookupThread.v ===== *)
(** The lookup cache of a thread: [LookupCache] of FEXCore/Source/Interface/
    Core/LookupCache.h and .cpp, the two levels in front of the shared map.  L1
    is a table of entries by a hash of the guest address, L2 a table of pages
    with an entry for each instruction of a guest page.

    Memory of the two tables reads zero where nothing was written, as the
    kernel's pages do; an entry is a host and a guest address.  The memory of
    the pages of L2 is addressed from [PageMemory]. *)
From S2P Require Import Prelude LookupMap.
From stdpp Require Import gmap.
Open Scope Z_scope.

Module LookupCache.

Definition MIN_L1_ENTRIES : Z := 8 * 1024.
Definition MAX_L1_ENTRIES : Z := 128 * 1024.
Definition GUEST_PC_SHIFT : Z := 2.
Definition CODE_SIZE : Z := 128 * 1024 * 1024.
Definition SIZE_PER_PAGE : Z := Z.shiftr 4096 GUEST_PC_SHIFT * 16.

Record LookupCacheEntry := mkEntry { EHost : Z; EGuest : Z }.
Definition zero_entry : LookupCacheEntry := mkEntry 0 0.

(** [Pointers] has the pages of L2, [BlockPointers] their entries by address.
    The memo holds a page index and the key of the set it points to. *)
Record t := mkCache {
  L1 : gmap Z LookupCacheEntry; L1PointerMask : Z; CurrentL1Entries : Z;
  Pointers : gmap Z Z; BlockPointers : gmap Z LookupCacheEntry; AllocateOffset : Z;
  CachedCodePages : gmap Z (gset Z); CachedCodePagesMemo : option (Z * Z);
  L2L3CacheHits : Z; LazySMCDrainPending : bool }.

Definition set_L1 (l : gmap Z LookupCacheEntry) (c : t) : t :=
  mkCache l (L1PointerMask c) (CurrentL1Entries c) (Pointers c) (BlockPointers c) (AllocateOffset c) (CachedCodePages c) (CachedCodePagesMemo c) (L2L3CacheHits c) (LazySMCDrainPending c).
Definition set_size (Entries : Z) (c : t) : t :=
  mkCache (L1 c) (Entries - 1) Entries (Pointers c) (BlockPointers c) (AllocateOffset c) (CachedCodePages c) (CachedCodePagesMemo c) (L2L3CacheHits c) (LazySMCDrainPending c).
Definition set_L2 (p : gmap Z Z) (b : gmap Z LookupCacheEntry) (a : Z) (c : t) : t :=
  mkCache (L1 c) (L1PointerMask c) (CurrentL1Entries c) p b a (CachedCodePages c) (CachedCodePagesMemo c) (L2L3CacheHits c) (LazySMCDrainPending c).
Definition set_cached (p : gmap Z (gset Z)) (m : option (Z * Z)) (c : t) : t :=
  mkCache (L1 c) (L1PointerMask c) (CurrentL1Entries c) (Pointers c) (BlockPointers c) (AllocateOffset c) p m (L2L3CacheHits c) (LazySMCDrainPending c).
Definition set_hits (n : Z) (c : t) : t :=
  mkCache (L1 c) (L1PointerMask c) (CurrentL1Entries c) (Pointers c) (BlockPointers c) (AllocateOffset c) (CachedCodePages c) (CachedCodePagesMemo c) n (LazySMCDrainPending c).
Definition set_lazy (b : bool) (c : t) : t :=
  mkCache (L1 c) (L1PointerMask c) (CurrentL1Entries c) (Pointers c) (BlockPointers c) (AllocateOffset c) (CachedCodePages c) (CachedCodePagesMemo c) (L2L3CacheHits c) b.

Section Cache.
(** The options, the size of the guest's memory, a power of two, and the
    comparison of the hits per second with a bound, which is made on
    floating-point numbers. *)
Context (DisableL2Cache DynamicL1Cache : bool) (VirtualMemSize : Z) (AverageAtLeast : Z -> Z -> Z -> bool).
Context (DynamicL1CacheIncreaseCountHeuristic DynamicL1CacheDecreaseCountHeuristic : Z).

Definition new_cache : t := mkCache ∅ (if DynamicL1Cache then MIN_L1_ENTRIES - 1 else MAX_L1_ENTRIES - 1) MIN_L1_ENTRIES ∅ ∅ 0 ∅ None 0 false.

(** ** Addresses of entries *)

Definition L1Slot (Address : Z) (c : t) : Z := Z.land (Z.shiftr Address GUEST_PC_SHIFT) (L1PointerMask c).
Definition L2Offset (Address : Z) : Z := Z.shiftr (Z.land Address 4095) GUEST_PC_SHIFT.
Definition L2Page (Address : Z) : Z := Z.shiftr (Z.land Address (VirtualMemSize - 1)) 12.
Definition L1_at (Slot : Z) (c : t) : LookupCacheEntry := default zero_entry (L1 c !! Slot).
Definition L2_key (Page Address : Z) : Z := Page + 16 * L2Offset Address.
Definition L2_at (Key : Z) (c : t) : LookupCacheEntry := default zero_entry (BlockPointers c !! Key).
Definition Publish (Slot NewHostCode NewGuestCode : Z) (c : t) : t := set_L1 (<[Slot := mkEntry NewHostCode NewGuestCode]> (L1 c)) c.

(** ** Clearing *)

Definition ClearL2Cache (c : t) : t := set_L2 ∅ ∅ 0 c.
Definition FlushWholeL1 (c : t) : t := set_L1 ∅ c.
Definition ClearThreadLocalCaches (c : t) : t := set_cached ∅ None (set_L2 ∅ ∅ (AllocateOffset c) (set_L1 ∅ c)).
Definition ScrubForLazySMC (c : t) : t := FlushWholeL1 (set_lazy true c).
Definition ArmLazySMCDrainPending (c : t) : t := set_lazy true c.
Definition TakeLazySMCDrainPending (c : t) : bool * t := if LazySMCDrainPending c then (true, set_lazy false c) else (false, c).

(** ** Filling *)

Definition AllocateBackingForPage (c : t) : option Z * t :=
  let NewEnd := AllocateOffset c + SIZE_PER_PAGE in
  if NewEnd >=? CODE_SIZE then (None, c) else (Some (AllocateOffset c), set_L2 (Pointers c) (BlockPointers c) NewEnd c).

(** One page of the entry: the set of the page gets the address, through the
    memo. *)
Definition note_page (Address CodePage : Z) (c : t) : option t :=
  let PageIndex := Z.shiftr CodePage 12 in
  '(Key, Pages) ← match CachedCodePagesMemo c with
                  | Some (Index, Key) =>
                      if Index =? PageIndex then Some (Key, CachedCodePages c)
                      else Some (PageIndex, <[PageIndex := default ∅ (CachedCodePages c !! PageIndex)]> (CachedCodePages c))
                  | None => Some (PageIndex, <[PageIndex := default ∅ (CachedCodePages c !! PageIndex)]> (CachedCodePages c))
                  end;
  V ← Pages !! Key;
  Some (set_cached (<[Key := {[Address]} ∪ V]> Pages) (Some (PageIndex, Key)) c).

Fixpoint note_pages (Address : Z) (CodePages : list Z) (c : t) : option t :=
  match CodePages with
  | [] => Some c
  | CodePage :: CodePages => c ← note_page Address CodePage c; note_pages Address CodePages c
  end.

(** [fuel] bounds the retries after L2 was cleared. *)
Fixpoint CacheBlockMapping (fuel : nat) (Address : Z) (Entry : GuestToHostMap.BlockEntry) (L1Only : bool) (c : t) : option t :=
  match fuel with
  | O => None
  | S fuel =>
      c ← note_pages Address (GuestToHostMap.EPages Entry) c;
      let c := Publish (L1Slot Address c) (GuestToHostMap.HostCode Entry) Address c in
      if DisableL2Cache || L1Only then Some c
      else
        let put (Page : Z) (c : t) := set_L2 (Pointers c) (<[L2_key Page Address := mkEntry (GuestToHostMap.HostCode Entry) Address]> (BlockPointers c)) (AllocateOffset c) c in
        match Pointers c !! L2Page Address with
        | Some LocalPagePointer => Some (put LocalPagePointer c)
        | None =>
            match AllocateBackingForPage c with
            | (None, c) => CacheBlockMapping fuel Address Entry false (ClearL2Cache c)
            | (Some NewPageBacking, c) => Some (put NewPageBacking (set_L2 (<[L2Page Address := NewPageBacking]> (Pointers c)) (BlockPointers c) (AllocateOffset c) c))
            end
        end
  end.

(** ** Lookup *)

(** A second, in milliseconds. *)
Definition SamplePeriod : Z := 1000.

(** [Period]: the time since the last sample, in milliseconds. *)
Definition UpdateDynamicL1Stats (Period : Z) (c : t) : t :=
  let c := set_hits (L2L3CacheHits c + 1) c in
  if Period >=? SamplePeriod then
    let c :=
      if AverageAtLeast (L2L3CacheHits c) Period DynamicL1CacheIncreaseCountHeuristic then
        if CurrentL1Entries c <? MAX_L1_ENTRIES then FlushWholeL1 (set_size (Z.shiftl (CurrentL1Entries c) 1) c) else c
      else if negb (AverageAtLeast (L2L3CacheHits c) Period DynamicL1CacheDecreaseCountHeuristic) then
        if CurrentL1Entries c >? MIN_L1_ENTRIES then FlushWholeL1 (set_size (Z.shiftr (CurrentL1Entries c) 1) c) else c
      else c in
    set_hits 0 c
  else c.

(** The entry of L2, published in L1 when it is the address's. *)
Definition find_L2 (Address : Z) (c : t) : Z * t :=
  if DisableL2Cache then (0, c)
  else
    match Pointers c !! L2Page Address with
    | None => (0, c)
    | Some LocalPagePointer =>
        let e := L2_at (L2_key LocalPagePointer Address) c in
        if EGuest e =? Address then (EHost e, Publish (L1Slot Address c) (EHost e) Address c) else (0, c)
    end.

Definition FindBlock (Period : Z) (Address : Z) (Shared : GuestToHostMap.t) (c : t) : option (Z * t) :=
  let L1Entry := L1_at (L1Slot Address c) c in
  if EGuest L1Entry =? Address then Some (EHost L1Entry, c)
  else
    let '(HostPtr, c) := find_L2 Address c in
    '(HostPtr, c) ← (if HostPtr =? 0 then
                       match GuestToHostMap.FindBlock Address Shared with
                       | Some Entry => c ← CacheBlockMapping 2 Address Entry false c; Some (GuestToHostMap.HostCode Entry, c)
                       | None => Some (HostPtr, c)
                       end
                     else Some (HostPtr, c));
    Some (HostPtr, if negb (HostPtr =? 0) && DynamicL1Cache then UpdateDynamicL1Stats Period c else c).

(** ** Invalidation *)

Definition InvalidateCache (Address : Z) (c : t) : t :=
  let Slot := L1Slot Address c in
  let L1Entry := L1_at Slot c in
  let c := if EGuest L1Entry =? Address then set_L1 (<[Slot := mkEntry (EHost L1Entry) 0]> (L1 c)) c else c in
  if DisableL2Cache then c
  else
    match Pointers c !! L2Page Address with
    | None => c
    | Some LocalPagePointer => set_L2 (Pointers c) (<[L2_key LocalPagePointer Address := zero_entry]> (BlockPointers c)) (AllocateOffset c) c
    end.

Definition InvalidateCacheRange (Start Length : Z) (c : t) : bool * t :=
  let Lo := GuestToHostMap.first_page Start in
  let Hi := GuestToHostMap.last_page Start Length in
  let Found := GuestToHostMap.pages_between Lo Hi (CachedCodePages c) in
  let c := foldl (fun c A => InvalidateCache A c) c (flat_map (fun p => elements p.2) Found) in
  (negb (bool_decide (Found = [])), set_cached (GuestToHostMap.erase_pages Lo Hi (CachedCodePages c)) None c).
(** ** With the shared map *)

Definition AddBlockMapping (Address Begin : Z) (Pages : list Z) (Host GRStart GRLength Hash ExStart ExLength : Z) (Shared : GuestToHostMap.t) (c : t) : option (GuestToHostMap.t * t) :=
  let '(Entry, Shared) := GuestToHostMap.AddBlockMapping Address Begin Pages Host GRStart GRLength Hash ExStart ExLength Shared in
  c ← CacheBlockMapping 2 Address Entry true c;
  Some (Shared, c).

Definition ChangeGuestToHostMapping (NewMap : GuestToHostMap.t) (c : t) : GuestToHostMap.t * t := (NewMap, ClearThreadLocalCaches c).
Definition ClearCache (Shared : GuestToHostMap.t) (c : t) : GuestToHostMap.t * t := (GuestToHostMap.ClearCache Shared, ClearThreadLocalCaches c).
End Cache.
End LookupCache.
