(* ===== verification/LookupThreadSpec.v ===== *)
(** The lookup cache of a thread never answers with a block that was
    invalidated: the invariant of its two levels, with respect to any set of
    valid mappings, and that its operations keep it. *)
From S2P Require Import Prelude Granules LookupMap LookupLinks LookupMapSpec LookupThread.
From stdpp Require Import gmap.
Open Scope Z_scope.
Import GuestToHostMap LookupCache.

Definition cached (c : LookupCache.t) (k : Z) : gset Z := default ∅ (CachedCodePages c !! k).

(** The host code is that of a valid mapping of the address, which every page
    of the block lists. *)
Definition fresh (Valid : Z -> BlockEntry -> Prop) (c : LookupCache.t) (g h : Z) : Prop :=
  exists e, Valid g e /\ HostCode e = h /\ forall p, p ∈ EPages e -> g ∈ cached c (Z.shiftr p 12).

Section Spec.
Context (DisableL2Cache : bool) (VirtualMemSize : Z).
#[local] Set Default Proof Using "Type*".

(** Every entry is where its address is looked up, and fresh. *)
Record cache_ok (Valid : Z -> BlockEntry -> Prop) (c : LookupCache.t) : Prop := {
  co_L1 slot e : L1 c !! slot = Some e -> EGuest e <> 0 -> slot = L1Slot (EGuest e) c /\ fresh Valid c (EGuest e) (EHost e);
  co_L2 key e : BlockPointers c !! key = Some e -> EGuest e <> 0 ->
    (exists b, Pointers c !! L2Page VirtualMemSize (EGuest e) = Some b /\ key = L2_key b (EGuest e)) /\ fresh Valid c (EGuest e) (EHost e);
  co_memo i k : CachedCodePagesMemo c = Some (i, k) -> k = i /\ is_Some (CachedCodePages c !! i);
  co_off : DisableL2Cache = true -> BlockPointers c = ∅ }.

Lemma cache_weaken (V W : Z -> BlockEntry -> Prop) c : (forall A e, V A e -> W A e) -> cache_ok V c -> cache_ok W c.
Proof.
  intros HVW [H1 H2 H3 H4]. assert (Hf : forall g h, fresh V c g h -> fresh W c g h) by (intros g h (e & ? & ?); exists e; split; [by apply HVW|done]).
  split; [|intros key e He Hg|done|done]; [intros slot e He Hg|]; [destruct (H1 slot e He Hg)|destruct (H2 key e He Hg)]; (split; [done|by apply Hf]).
Qed.

Lemma new_ok DynamicL1Cache V : cache_ok V (new_cache DynamicL1Cache).
Proof. split; [intros slot e He|intros key e He|done|done]; cbn in He; by rewrite lookup_empty in He. Qed.

(** Losing entries keeps the invariant. *)
Lemma fresh_more V c c' g h : (forall k, cached c k ⊆ cached c' k) -> fresh V c g h -> fresh V c' g h.
Proof. intros Hc (e & H1 & H2 & H3). exists e. split; [done|]. split; [done|]. intros p Hp. by apply Hc, H3. Qed.

Lemma flush_ok V c : cache_ok V c -> cache_ok V (FlushWholeL1 c).
Proof. intros [H1 H2 H3 H4]. split; [intros slot e He; cbn in He; by rewrite lookup_empty in He|exact H2|done|done]. Qed.

Lemma flush_size_ok V n c : cache_ok V c -> cache_ok V (FlushWholeL1 (set_size n c)).
Proof. intros [H1 H2 H3 H4]. split; [intros slot e He; cbn in He; by rewrite lookup_empty in He|exact H2|done|done]. Qed.

Lemma hits_ok V n c : cache_ok V c -> cache_ok V (set_hits n c).
Proof. intros [H1 H2 H3 H4]. by split. Qed.

Lemma lazy_ok V b c : cache_ok V c -> cache_ok V (set_lazy b c).
Proof. intros [H1 H2 H3 H4]. by split. Qed.

Lemma clear_L2_ok V c : cache_ok V c -> cache_ok V (ClearL2Cache c).
Proof. intros [H1 H2 H3 H4]. split; [exact H1|intros key e He; cbn in He; by rewrite lookup_empty in He|done|done]. Qed.

Lemma clear_local_ok V c : cache_ok V (ClearThreadLocalCaches c).
Proof. split; [intros slot e He|intros key e He|done|done]; cbn in He; by rewrite lookup_empty in He. Qed.

Lemma stats_ok AverageAtLeast Inc Dec V Period c : cache_ok V c -> cache_ok V (UpdateDynamicL1Stats AverageAtLeast Inc Dec Period c).
Proof.
  intros H. unfold UpdateDynamicL1Stats. pose proof (hits_ok V (L2L3CacheHits c + 1) c H) as H'. destruct (Period >=? SamplePeriod); [|done]. apply hits_ok.
  destruct (AverageAtLeast _ _ _); [destruct (_ <? _); [by apply flush_size_ok|done]|]. destruct (negb _); [|done]. destruct (_ >? _); [by apply flush_size_ok|done].
Qed.

(** *** Filling *)

(** Only the sets of the pages change. *)
Definition same_tables (c c' : LookupCache.t) : Prop :=
  L1 c' = L1 c /\ L1PointerMask c' = L1PointerMask c /\ Pointers c' = Pointers c /\ BlockPointers c' = BlockPointers c /\ AllocateOffset c' = AllocateOffset c.

Lemma note_page_spec V A p c : cache_ok V c ->
  exists c', note_page A p c = Some c' /\ same_tables c c' /\ cache_ok V c' /\ (forall k, cached c k ⊆ cached c' k) /\ A ∈ cached c' (Z.shiftr p 12).
Proof.
  intros [H1 H2 H3 H4]. unfold note_page. set (P := Z.shiftr p 12).
  assert (Hfind : exists Pages, (match CachedCodePagesMemo c with
      | Some (Index, Key) => if Index =? P then Some (Key, CachedCodePages c) else Some (P, <[P := default ∅ (CachedCodePages c !! P)]> (CachedCodePages c))
      | None => Some (P, <[P := default ∅ (CachedCodePages c !! P)]> (CachedCodePages c)) end = Some (P, Pages)) /\
    Pages !! P = Some (cached c P) /\ forall q, q <> P -> Pages !! q = CachedCodePages c !! q).
  { destruct (CachedCodePagesMemo c) as [[i k]|] eqn:HM.
    - destruct (H3 i k eq_refl) as [-> [W HW]]. destruct (Z.eqb_spec i P) as [->|]; [exists (CachedCodePages c); unfold cached; by rewrite HW|].
      eexists. split; [done|]. split; [apply lookup_insert_eq|]. intros q Hq. by apply lookup_insert_ne.
    - eexists. split; [done|]. split; [apply lookup_insert_eq|]. intros q Hq. by apply lookup_insert_ne. }
  destruct Hfind as (Pages & -> & HV & Hother). cbn [mbind option_bind]. rewrite HV. cbn [mbind option_bind]. eexists. split; [done|]. set (c' := set_cached _ _ c).
  assert (Hk : forall k, cached c' k = if decide (k = P) then {[A]} ∪ cached c P else cached c k).
  { intros k. unfold cached, c'. cbn. destruct (decide (k = P)) as [->|Hne]; [by rewrite lookup_insert_eq|]. by rewrite lookup_insert_ne, Hother. }
  assert (Hmore : forall k, cached c k ⊆ cached c' k) by (intros k; rewrite Hk; destruct (decide (k = P)) as [->|]; set_solver).
  split; [done|]. split; [split|].
  - intros slot e He Hg. destruct (H1 slot e He Hg) as [Hs Hf]. split; [done|by eapply fresh_more].
  - intros key e He Hg. destruct (H2 key e He Hg) as [Hs Hf]. split; [done|by eapply fresh_more].
  - intros i k [= <- <-]. split; [done|]. cbn. rewrite lookup_insert_eq. by eexists.
  - exact H4.
  - split; [done|]. rewrite Hk, decide_True by done. set_solver.
Qed.

Lemma note_pages_spec V A ps c : cache_ok V c ->
  exists c', note_pages A ps c = Some c' /\ same_tables c c' /\ cache_ok V c' /\ (forall k, cached c k ⊆ cached c' k) /\ forall p, p ∈ ps -> A ∈ cached c' (Z.shiftr p 12).
Proof.
  revert c. induction ps as [|p ps IH]; intros c H; cbn [note_pages]; [exists c; split; [done|]; split; [done|]; split; [done|]; split; [done|]; by intros p ?%elem_of_nil|].
  destruct (note_page_spec V A p c H) as (c1 & -> & (T1 & T2 & T3 & T4 & T5) & H1 & M1 & A1). cbn [mbind option_bind].
  destruct (IH c1 H1) as (c2 & -> & (U1 & U2 & U3 & U4 & U5) & H2 & M2 & A2). exists c2. split; [done|]. split; [split_and!; congruence|]. split; [done|].
  split; [intros k; etrans; [apply M1|apply M2]|]. intros q [->|Hq]%elem_of_cons; [by apply M2|by apply A2].
Qed.

Lemma publish_ok V A h c : cache_ok V c -> (A <> 0 -> fresh V c A h) -> cache_ok V (Publish (L1Slot A c) h A c).
Proof.
  intros [H1 H2 H3 H4] Hf. split; [|exact H2|done|done]. intros slot e. cbn [Publish set_L1 L1]. intros [[<- <-]|[_ He]]%lookup_insert_Some Hg; [split; [done|by apply Hf]|by apply H1].
Qed.

(** The entry of the address in a page of L2. *)
Lemma put_L2_ok V A h b c : DisableL2Cache = false -> cache_ok V c -> fresh V c A h -> Pointers c !! L2Page VirtualMemSize A = Some b ->
  cache_ok V (set_L2 (Pointers c) (<[L2_key b A := mkEntry h A]> (BlockPointers c)) (AllocateOffset c) c).
Proof.
  intros Hoff [H1 H2 H3 H4] Hf Hb. split; [exact H1| |done|congruence]. intros key e. cbn [set_L2 BlockPointers Pointers].
  intros [[<- <-]|[_ He]]%lookup_insert_Some Hg; [split; [by exists b|done]|]. by apply H2.
Qed.

(** A new page, where there was none. *)
Lemma new_page_ok V A b n c : cache_ok V c -> Pointers c !! L2Page VirtualMemSize A = None ->
  cache_ok V (set_L2 (<[L2Page VirtualMemSize A := b]> (Pointers c)) (BlockPointers c) n c).
Proof.
  intros [H1 H2 H3 H4] Hn. split; [exact H1| |done|done]. intros key e He Hg. destruct (H2 key e He Hg) as [(b' & Hb & Hk) Hf]. split; [|done]. exists b'. split; [|done].
  cbn. rewrite lookup_insert_ne; [done|]. intros E. rewrite E in Hn. congruence.
Qed.

(** The part after the pages and L1. *)
Definition room (A : Z) (c : LookupCache.t) : Prop := is_Some (Pointers c !! L2Page VirtualMemSize A) \/ AllocateOffset c + SIZE_PER_PAGE < CODE_SIZE.

Lemma mapping_round V f A e L1Only c : cache_ok V c -> V A e -> DisableL2Cache || L1Only = true \/ room A c ->
  exists c', CacheBlockMapping DisableL2Cache VirtualMemSize (S f) A e L1Only c = Some c' /\ cache_ok V c'.
Proof.
  intros H HV Hroom. destruct (note_pages_spec V A (EPages e) c H) as (c1 & HN & (T1 & T2 & T3 & T4 & T5) & H1 & _ & A1). cbn [CacheBlockMapping]. rewrite HN. cbn [mbind option_bind].
  assert (Hfr : fresh V c1 A (HostCode e)) by (by exists e). pose proof (publish_ok V A (HostCode e) c1 H1 (fun _ => Hfr)) as H2. set (c2 := Publish _ _ _ c1) in *.
  destruct (DisableL2Cache || L1Only) eqn:Hoff; [by eexists|]. apply orb_false_iff in Hoff as [Hoff _]. destruct Hroom as [|Hroom]; [done|]. unfold room in Hroom. rewrite <- T3, <- T5 in Hroom.
  change (Pointers c1) with (Pointers c2) in Hroom. change (AllocateOffset c1) with (AllocateOffset c2) in Hroom. change (fresh V c2 A (HostCode e)) in Hfr.
  destruct (Pointers c2 !! L2Page VirtualMemSize A) as [b|] eqn:Hb; [eexists; split; [done|]; by apply put_L2_ok|]. destruct Hroom as [[b' ?]|Hroom]; [done|].
  unfold AllocateBackingForPage. rewrite Z.geb_leb, (proj2 (Z.leb_gt _ _)) by done. eexists. split; [done|].
  apply (put_L2_ok V A (HostCode e) (AllocateOffset c2)); [done| |done|apply lookup_insert_eq]. apply (new_page_ok V A _ _ c2); done.
Qed.

(** Two rounds are enough: after L2 was cleared there is room. *)
Lemma cache_mapping_ok V f A e L1Only c : cache_ok V c -> V A e ->
  exists c', CacheBlockMapping DisableL2Cache VirtualMemSize (S (S f)) A e L1Only c = Some c' /\ cache_ok V c'.
Proof.
  intros H HV. destruct (decide (DisableL2Cache || L1Only = true)) as [Hl|Hl]; [apply mapping_round; [done|done|by left]|]. apply not_true_is_false in Hl.
  destruct (Pointers c !! L2Page VirtualMemSize A) as [b|] eqn:Hb; [apply mapping_round; [done|done|right; left; by eexists]|].
  destruct (decide (AllocateOffset c + SIZE_PER_PAGE < CODE_SIZE)) as [Hr|Hr]; [apply mapping_round; [done|done|by right; right]|].
  cbn [CacheBlockMapping]. destruct (note_pages_spec V A (EPages e) c H) as (c1 & HN & (T1 & T2 & T3 & T4 & T5) & H1 & _ & A1). rewrite HN. cbn [mbind option_bind]. rewrite Hl.
  assert (Hfr : fresh V c1 A (HostCode e)) by (by exists e). pose proof (publish_ok V A (HostCode e) c1 H1 (fun _ => Hfr)) as H2. set (c2 := Publish _ _ _ c1) in *.
  change (Pointers c2) with (Pointers c1). rewrite T3, Hb. unfold AllocateBackingForPage. change (AllocateOffset c2) with (AllocateOffset c1). rewrite T5.
  rewrite Z.geb_leb, (proj2 (Z.leb_le _ _)) by lia. change (match note_pages A (EPages e) (ClearL2Cache c2) with None => None | Some _ => _ end) with
    (CacheBlockMapping DisableL2Cache VirtualMemSize (S f) A e false (ClearL2Cache c2)). apply mapping_round; [by apply clear_L2_ok|done|]. right. right. reflexivity.
Qed.

(** *** Lookup *)

Lemma find_L2_ok V A c : cache_ok V c ->
  let r := find_L2 DisableL2Cache VirtualMemSize A c in
  cache_ok V r.2 /\ (A <> 0 -> r.1 <> 0 -> exists e, V A e /\ HostCode e = r.1).
Proof.
  intros H. cbv zeta. unfold find_L2. destruct DisableL2Cache; [done|]. destruct (Pointers c !! L2Page VirtualMemSize A) as [b|]; [|done].
  destruct (Z.eqb_spec (EGuest (L2_at (L2_key b A) c)) A) as [HA|]; [|done]. cbn [fst snd].
  assert (Hf : A <> 0 -> fresh V c A (EHost (L2_at (L2_key b A) c))).
  { intros Hne. revert HA. unfold L2_at. destruct (BlockPointers c !! L2_key b A) as [e|] eqn:He; cbn; [|by intros <-]. intros <-. by apply (co_L2 _ _ H (L2_key b (EGuest e)) e). }
  split; [by apply publish_ok|]. intros Hne _. destruct (Hf Hne) as (e & ? & ? & _). by exists e.
Qed.

(** A lookup returns, and what it finds is the host code of a valid mapping of
    the address; it finds what the shared map has. *)
Lemma find_ok AverageAtLeast Inc Dec DynamicL1Cache V Period A s c :
  cache_ok V c -> (forall A e, BlockList s !! A = Some e -> V A e) ->
  exists h c', LookupCache.FindBlock DisableL2Cache DynamicL1Cache VirtualMemSize AverageAtLeast Inc Dec Period A s c = Some (h, c') /\ cache_ok V c' /\
    (A <> 0 -> h <> 0 -> exists e, V A e /\ HostCode e = h) /\
    (A <> 0 -> h = 0 -> forall e, GuestToHostMap.FindBlock A s = Some e -> exists e', V A e' /\ HostCode e' = 0).
Proof.
  intros H HV. unfold LookupCache.FindBlock. destruct (Z.eqb_spec (EGuest (L1_at (L1Slot A c) c)) A) as [HA|_].
  - exists (EHost (L1_at (L1Slot A c) c)), c. split; [done|]. split; [done|].
    assert (Hf : A <> 0 -> exists e, V A e /\ HostCode e = EHost (L1_at (L1Slot A c) c)).
    { intros Hne. revert HA. unfold L1_at. destruct (L1 c !! L1Slot A c) as [e|] eqn:He; cbn; [|by intros <-]. intros <-.
      destruct (co_L1 _ _ H _ e He Hne) as [_ (e' & ? & ? & _)]. by exists e'. }
    split; [by intros Hne _; apply Hf|]. intros Hne H0 e _. rewrite <- H0. by apply Hf.
  - pose proof (find_L2_ok V A c H) as [H2 Hf2]. cbv zeta in *. destruct (find_L2 _ _ A c) as [h c1]. cbn [fst snd] in *.
    assert (Hend : forall h c1, cache_ok V c1 -> cache_ok V (if negb (h =? 0) && DynamicL1Cache then UpdateDynamicL1Stats AverageAtLeast Inc Dec Period c1 else c1))
      by (intros h' c' H'; destruct (negb (h' =? 0) && DynamicL1Cache); [by apply stats_ok|done]).
    destruct (Z.eqb_spec h 0) as [->|Hh]; [|cbn [mbind option_bind]; eexists h, _; split; [done|]; split; [by apply Hend|]; split; [done|by intros _ ?]].
    destruct (GuestToHostMap.FindBlock A s) as [e|] eqn:He; cbn [mbind option_bind].
    + destruct (cache_mapping_ok V 0 A e false c1 H2 (HV A e He)) as (c2 & -> & H3). cbn [mbind option_bind]. eexists (HostCode e), _. split; [done|]. split; [by apply Hend|].
      split; [intros _ _; exists e; split; [by apply HV|done]|]. intros _ H0 e' [= <-]. exists e. split; [by apply HV|done].
    + eexists 0, _. split; [done|]. split; [by apply Hend|]. split; [by intros _ ?|done].
Qed.

(** *** Invalidation *)

(** Entries only go, and those of [As] do. *)
Record purged (As : list Z) (c c' : LookupCache.t) : Prop := {
  pg_L1 slot e : L1 c' !! slot = Some e -> EGuest e <> 0 -> L1 c !! slot = Some e /\ ~ (EGuest e ∈ As);
  pg_L2 key e : BlockPointers c' !! key = Some e -> EGuest e <> 0 -> BlockPointers c !! key = Some e /\ ~ (EGuest e ∈ As);
  pg_same : L1PointerMask c' = L1PointerMask c /\ Pointers c' = Pointers c /\ CachedCodePages c' = CachedCodePages c /\ CachedCodePagesMemo c' = CachedCodePagesMemo c;
  pg_off : DisableL2Cache = true -> BlockPointers c = ∅ -> BlockPointers c' = ∅ }.

Lemma purged_ok V As c c' : purged As c c' -> cache_ok V c -> cache_ok V c'.
Proof.
  intros [P1 P2 (E1 & E2 & E3 & E4) P4] [H1 H2 H3 H4]. assert (Hf : forall g h, fresh V c g h -> fresh V c' g h) by (intros g h; apply fresh_more; intros k; unfold cached; by rewrite E3).
  split; [| |by rewrite E3, E4|intros Hoff; by apply P4; [|apply H4]].
  - intros slot e He Hg. destruct (P1 slot e He Hg) as [He' _]. destruct (H1 slot e He' Hg) as [-> Hfr]. split; [unfold L1Slot; by rewrite E1|by apply Hf].
  - intros key e He Hg. destruct (P2 key e He Hg) as [He' _]. destruct (H2 key e He' Hg) as [Hk Hfr]. split; [by rewrite E2|by apply Hf].
Qed.

Lemma invalidate_one V A c : cache_ok V c -> purged [A] c (InvalidateCache DisableL2Cache VirtualMemSize A c).
Proof.
  intros H. unfold InvalidateCache. set (c1 := if EGuest _ =? A then _ else c).
  assert (H1 : (forall slot e, L1 c1 !! slot = Some e -> EGuest e <> 0 -> L1 c !! slot = Some e /\ EGuest e <> A) /\
    BlockPointers c1 = BlockPointers c /\ L1PointerMask c1 = L1PointerMask c /\ Pointers c1 = Pointers c /\ CachedCodePages c1 = CachedCodePages c /\ CachedCodePagesMemo c1 = CachedCodePagesMemo c).
  { unfold c1. destruct (Z.eqb_spec (EGuest (L1_at (L1Slot A c) c)) A) as [HA|HA]; (split; [|done]); intros slot e He Hg.
    - cbn in He. apply lookup_insert_Some in He as [[<- <-]|[Hne He]]; [done|]. split; [done|]. intros E. destruct (co_L1 _ _ H slot e He Hg) as [Hs _]. rewrite E in Hs. congruence.
    - split; [done|]. intros E. destruct (co_L1 _ _ H slot e He Hg) as [Hs _]. rewrite E in Hs. subst slot. apply HA. unfold L1_at. by rewrite He. }
  destruct H1 as (H1 & E2 & E3 & E4 & E5 & E6).
  assert (Hin : forall e, EGuest e <> A -> ~ (EGuest e ∈ [A])) by (intros e Hne ?%list_elem_of_singleton; done).
  assert (Hno : forall key e, BlockPointers c !! key = Some e -> EGuest e <> 0 -> EGuest e = A ->
    DisableL2Cache = false /\ exists b, Pointers c !! L2Page VirtualMemSize A = Some b /\ key = L2_key b A).
  { intros key e He Hg <-. destruct (co_L2 _ _ H key e He Hg) as [Hk _]. split; [|done]. destruct DisableL2Cache eqn:Hoff; [|done].
    rewrite (co_off _ _ H) in He by done. by rewrite lookup_empty in He. }
  assert (Hkeep : (forall key e, BlockPointers c !! key = Some e -> EGuest e <> 0 -> EGuest e <> A) -> purged [A] c c1).
  { intros Hk. split; [intros slot e He Hg; destruct (H1 slot e He Hg); split; [done|by apply Hin]| |done|by intros _; rewrite E2].
    intros key e. rewrite E2. intros He Hg. split; [done|]. by eapply Hin, Hk. }
  destruct DisableL2Cache eqn:Hoff; [apply Hkeep; intros key e He Hg E; by destruct (Hno key e He Hg E)|]. rewrite E4.
  destruct (Pointers c !! L2Page VirtualMemSize A) as [b|] eqn:Hb; [|apply Hkeep; intros key e He Hg E; by destruct (Hno key e He Hg E) as (_ & b & ? & _)].
  split; [intros slot e He Hg; destruct (H1 slot e He Hg); split; [done|by apply Hin]| |done|].
  - intros key e. cbn [set_L2 BlockPointers]. rewrite E2. intros [[<- <-]|[Hne He]]%lookup_insert_Some Hg; [done|]. split; [done|]. apply Hin. intros E.
    destruct (Hno key e He Hg E) as (_ & b' & Hb' & ->). congruence.
  - by rewrite Hoff.
Qed.

Lemma invalidate_list V As c : cache_ok V c -> purged As c (foldl (fun c A => InvalidateCache DisableL2Cache VirtualMemSize A c) c As).
Proof.
  revert c. induction As as [|A As IH]; intros c H; cbn [foldl]; [split; [by intros slot e ? ?; split; [|by intros ?%elem_of_nil]|by intros key e ? ?; split; [|by intros ?%elem_of_nil]|done|done]|].
  pose proof (invalidate_one V A c H) as P. pose proof (IH _ (purged_ok V _ _ _ P H)) as Q. destruct P as [P1 P2 (P3 & P4 & P5 & P6) P7], Q as [Q1 Q2 (Q3 & Q4 & Q5 & Q6) Q7].
  assert (Hin : forall g, ~ (g ∈ [A]) -> ~ (g ∈ As) -> ~ (g ∈ A :: As)) by (intros g Hg1 Hg2 [->|?]%elem_of_cons; [apply Hg1, list_elem_of_here|done]).
  split; [intros slot e He Hg; destruct (Q1 slot e He Hg) as [He1 Hn1]; destruct (P1 slot e He1 Hg) as [He2 Hn2]; split; [done|by apply Hin]
         |intros key e He Hg; destruct (Q2 key e He Hg) as [He1 Hn1]; destruct (P2 key e He1 Hg) as [He2 Hn2]; split; [done|by apply Hin]
         |split; [congruence|]; split; [congruence|]; split; congruence|intros Hoff H0; by apply Q7; [|apply P7]].
Qed.

(** After the invalidation of a range what is left is valid and has no page in
    the range. *)
Lemma invalidate_range_ok V Start Length c :
  cache_ok V c ->
  let Lo := first_page Start in let Hi := last_page Start Length in
  cache_ok (fun A e => V A e /\ forall p, p ∈ EPages e -> ~ (Lo <= Z.shiftr p 12 <= Hi)) (InvalidateCacheRange DisableL2Cache VirtualMemSize Start Length c).2.
Proof.
  intros H Lo Hi. unfold InvalidateCacheRange. cbn [snd]. fold Lo Hi. set (As := flat_map _ _). pose proof (invalidate_list V As c H) as P. set (c1 := foldl _ c As) in *.
  pose proof (purged_ok V As c c1 P H) as [H1 H2 H3 H4]. destruct P as [P1 P2 (P3 & P4 & P5 & P6) P7].
  assert (HAs : forall A k, Lo <= k <= Hi -> A ∈ cached c1 k -> A ∈ As).
  { intros A k Hk HA. unfold cached in HA. rewrite P5 in HA. destruct (CachedCodePages c !! k) as [W|] eqn:HW; [|cbn in HA; set_solver].
    apply list_elem_of_In, in_flat_map. exists (k, W). split; [apply list_elem_of_In, pages_between_spec; done|]. by apply list_elem_of_In, elem_of_elements. }
  assert (Hf : forall g h, ~ (g ∈ As) -> fresh V c1 g h -> fresh (fun A e => V A e /\ forall p, p ∈ EPages e -> ~ (Lo <= Z.shiftr p 12 <= Hi)) (set_cached (erase_pages Lo Hi (CachedCodePages c1)) None c1) g h).
  { intros g h Hg (e & HV & Hh & Hp). assert (Hout : forall p, p ∈ EPages e -> ~ (Lo <= Z.shiftr p 12 <= Hi)) by (intros p Hin Hr; apply Hg; by eapply HAs, Hp).
    exists e. split; [done|]. split; [done|]. intros p Hin. unfold cached. cbn. rewrite erase_pages_lookup. specialize (Hout p Hin). unfold in_pages.
    replace ((Lo <=? Z.shiftr p 12) && (Z.shiftr p 12 <=? Hi)) with false by lia. by apply Hp. }
  split; [| |done|done].
  - intros slot e He Hg. destruct (H1 slot e He Hg) as [Hs Hfr]. split; [done|]. apply Hf; [by eapply P1|done].
  - intros key e He Hg. destruct (H2 key e He Hg) as [Hs Hfr]. split; [done|]. apply Hf; [by eapply P2|done].
Qed.
End Spec.
