(* ===== verification/LookupSystem.v ===== *)
(** The shared map and the cache of one thread together, over any history in
    which this thread and others publish and relink blocks, ranges are
    invalidated, soft, hard or by extent (ContextImpl::
    InvalidateCodeBuffersCodeRange, its two siblings and
    InvalidateThreadCachedCodeRange of Core.cpp), and the thread looks up, scrubs
    and clears: a lookup never gives the host code of an invalidated block. *)
From S2P Require Import Prelude Granules LookupMap LookupLinks LookupMapSpec LookupInvalidate LookupRegister LookupHistory LookupThread LookupThreadSpec.
From stdpp Require Import gmap.
Open Scope Z_scope.
Import GuestToHostMap Publish LookupCache.

(** ** What each invalidation leaves *)

Definition touches (Lo Hi : Z) (e : BlockEntry) : Prop := Exists (fun p => Lo <= Z.shiftr p 12 <= Hi) (EPages e).

Lemma touches_page Lo Hi e p : p ∈ EPages e -> Lo <= Z.shiftr p 12 <= Hi -> touches Lo Hi e.
Proof. intros Hp Hr. apply Exists_exists. by exists p. Qed.

Definition leaves (f : GuestToHostMap.t -> option GuestToHostMap.t) (Q : BlockEntry -> Prop) : Prop :=
  forall s, map_ok s -> exists s', f s = Some s' /\ map_ok s' /\ forall A e, BlockList s' !! A = Some e -> BlockList s !! A = Some e /\ Q e.

Section Leaves.
Context (Start Length : Z).
#[local] Set Default Proof Using "Type".
Abbreviation Lo := (first_page Start).
Abbreviation Hi := (last_page Start Length).

Lemma pages_left erase s : eraser erase -> map_ok s -> exists s1, erase_range erase (pages_between Lo Hi (CodePages s)) s = Some s1 /\
  let s' := set_pages (erase_pages Lo Hi (CodePages s1)) None s1 in
  map_ok s' /\ forall A e, BlockList s' !! A = Some e -> BlockList s !! A = Some e /\ ~ touches Lo Hi e.
Proof.
  intros He Hok. destruct (mo_links _ Hok) as [cs Hr]. destruct (invalidate_pages erase He Lo Hi cs s Hok Hr) as (cs' & s1 & HS & HE & Hok1 & _ & _ & _ & Hout).
  exists s1. split; [done|]. split; [done|]. intros A e HA. split.
  - cbn in HA. rewrite (ct_blocks _ _ _ _ _ (er_cut _ _ _ _ _ HE)) in HA. by destruct (decide _).
  - intros (p & Hp & Hpr)%Exists_exists. by apply (Hout A e p).
Qed.

Lemma invalidate_leaves : leaves (InvalidateRange Start Length) (fun e => ~ touches Lo Hi e).
Proof.
  intros s Hok. destruct (pages_left Erase_ s Erase_eraser Hok) as (s1 & HS & Hok1 & Hl). cbv zeta in *. unfold InvalidateRange. rewrite HS. cbn [mbind option_bind].
  eexists. split; [done|]. split; [by apply drop_range_ok|]. destruct (drop_range Start Length _ (mo_ret _ Hok1)) as (_ & _ & ->). exact Hl.
Qed.

Lemma soft_leaves : leaves (SoftInvalidateRange Start Length) (fun e => ~ touches Lo Hi e).
Proof.
  intros s Hok. destruct (pages_left SoftEraseBlock s SoftErase_eraser Hok) as (s1 & HS & Hok1 & Hl). cbv zeta in *. unfold SoftInvalidateRange. rewrite HS. cbn [mbind option_bind].
  eexists. split; [done|]. done.
Qed.

Definition stale_entry (e : BlockEntry) : Prop := touches Lo Hi e /\ EntryOverlaps e Start (u64 (Start + Length)) = true.

Lemma precise_leaves : leaves (fun s => '(_, s) ← InvalidateRangePrecise Start Length s; Some s) (fun e => ~ stale_entry e).
Proof.
  intros s Hok. destruct (mo_links _ Hok) as [cs Hr]. unfold InvalidateRangePrecise.
  destruct (precise_range_spec Start (u64 (Start + Length)) (pages_between Lo Hi (CodePages s)) cs s 0 Hok Hr) as (cs' & s1 & n & -> & Hok1 & [_ _ _ C4 _] & _);
    [apply pages_nodup|by intros k V [Hk _]%pages_between_spec|]. cbn [mbind option_bind].
  eexists. split; [done|]. split; [by apply drop_range_ok|]. destruct (drop_range Start Length s1 (mo_ret _ Hok1)) as (_ & _ & ->). cbn [set_retained BlockList].
  intros A e HA. rewrite C4 in HA. destruct (decide _) as [|Hno]; [done|]. split; [done|]. intros [(p & Hp & Hpr)%Exists_exists Ho]. apply Hno, list_elem_of_filter.
  split; [by exists e|]. apply page_blocks_spec. eapply block_on_pages; [apply (mo_index _ Hok)|done|done|done].
Qed.
End Leaves.

(** ** The system *)

Section System.
Context (DisableL2Cache DynamicL1Cache : bool) (VirtualMemSize : Z) (AverageAtLeast : Z -> Z -> Z -> bool) (Inc Dec : Z).
Context (XXH3 : list Z -> Z -> Z) (SMCSoftInvalidate : bool) (ValidateOnly : Z -> bool).
#[local] Set Default Proof Using "Type*".
Abbreviation Allocated := (fun _ : Z => true).
Abbreviation Cache := (CacheBlockMapping DisableL2Cache VirtualMemSize 2).
Abbreviation Lookup := (LookupCache.FindBlock DisableL2Cache DynamicL1Cache VirtualMemSize AverageAtLeast Inc Dec).

(** [Own]: this thread does it, and caches the mapping.  [TRotate]: the thread
    moves to the map of a new code buffer. *)
Inductive TOp :=
| TPublish (Own : bool) (mem : Z -> Z) (u : Unit)
| TRelink (Own : bool) (before after : Z -> Z) (GuestRIP : Z)
| TFind (Period GuestRIP : Z)
| TInvalidate (Start Length : Z)
| TSoftInvalidate (Start Length : Z)
| TInvalidatePrecise (Start Length : Z)
| TScrub
| TClear
| TRotate (Tracking : bool).

Fixpoint cache_all (es : list (Z * BlockEntry)) (c : LookupCache.t) : option LookupCache.t :=
  match es with [] => Some c | (A, e) :: es => c ← Cache A e true c; cache_all es c end.

(** The mappings made so far that no invalidation has met since. *)
Definition SysState : Type := GuestToHostMap.t * LookupCache.t * list (Z * BlockEntry).

#[export] Instance touches_dec Lo Hi e : Decision (touches Lo Hi e) := _.
#[export] Instance stale_entry_dec Start Length e : Decision (stale_entry Start Length e) := _.

Definition tstep (o : TOp) (st : SysState) : option SysState :=
  let '(s, c, valid) := st in
  match o with
  | TPublish Own mem u =>
      '(_, s) ← PublishUnit Allocated Allocated XXH3 SMCSoftInvalidate mem u s;
      c ← (if Own then cache_all (unit_entries XXH3 SMCSoftInvalidate mem u) c else Some c);
      Some (s, c, unit_entries XXH3 SMCSoftInvalidate mem u ++ valid)
  | TRelink Own before after A =>
      '(h, _, s) ← Relink Allocated Allocated XXH3 ValidateOnly before after A s;
      match GuestToHostMap.FindBlock A s with
      | Some e => c ← (if Own && negb (h =? 0) then Cache A e true c else Some c); Some (s, c, (A, e) :: valid)
      | None => Some (s, c, valid)
      end
  | TFind Period A => '(_, c) ← Lookup Period A s c; Some (s, c, valid)
  | TInvalidate Start Length =>
      s ← InvalidateRange Start Length s;
      Some (s, (InvalidateCacheRange DisableL2Cache VirtualMemSize Start Length c).2, filter (fun p => ~ touches (first_page Start) (last_page Start Length) p.2) valid)
  | TSoftInvalidate Start Length =>
      s ← SoftInvalidateRange Start Length s;
      Some (s, (InvalidateCacheRange DisableL2Cache VirtualMemSize Start Length c).2, filter (fun p => ~ touches (first_page Start) (last_page Start Length) p.2) valid)
  | TInvalidatePrecise Start Length =>
      '(_, s) ← InvalidateRangePrecise Start Length s;
      Some (s, (InvalidateCacheRange DisableL2Cache VirtualMemSize Start Length c).2, filter (fun p => ~ stale_entry Start Length p.2) valid)
  | TScrub => Some (s, ScrubForLazySMC c, valid)
  | TClear => let '(s, c) := LookupCache.ClearCache s c in Some (s, c, [])
  | TRotate Tracking => let '(s, c) := ChangeGuestToHostMapping (empty_map Tracking true) c in Some (s, c, [])
  end.

Fixpoint trun (ops : list TOp) (st : SysState) : option SysState :=
  match ops with [] => Some st | o :: ops => st ← tstep o st; trun ops st end.

Definition top_ok (o : TOp) : Prop := match o with TPublish _ _ u => unit_ok u | _ => True end.

Definition sys_ok (st : SysState) : Prop :=
  let '(s, c, valid) := st in
  map_ok s /\ cache_ok DisableL2Cache VirtualMemSize (fun A e => (A, e) ∈ valid) c /\ forall A e, BlockList s !! A = Some e -> (A, e) ∈ valid.

Lemma cache_all_ok V es c : cache_ok DisableL2Cache VirtualMemSize V c -> (forall A e, (A, e) ∈ es -> V A e) ->
  exists c', cache_all es c = Some c' /\ cache_ok DisableL2Cache VirtualMemSize V c'.
Proof.
  revert c. induction es as [|[A e] es IH]; intros c H HV; cbn [cache_all]; [by exists c|].
  destruct (cache_mapping_ok DisableL2Cache VirtualMemSize V 0 A e true c H) as (c1 & -> & H1); [apply HV, list_elem_of_here|]. cbn [mbind option_bind].
  apply IH; [done|]. intros B eB HB. apply HV. by apply elem_of_cons; right.
Qed.

(** An invalidation of the map and of the thread's cache. *)
Lemma invalidate_sys f (Q : BlockEntry -> Prop) `{!forall e, Decision (Q e)} Start Length s c valid :
  sys_ok (s, c, valid) -> leaves f Q -> (forall e, (forall p, p ∈ EPages e -> ~ (first_page Start <= Z.shiftr p 12 <= last_page Start Length)) -> Q e) ->
  exists s', f s = Some s' /\ sys_ok (s', (InvalidateCacheRange DisableL2Cache VirtualMemSize Start Length c).2, filter (fun p => Q p.2) valid).
Proof.
  intros (Hok & Hc & Hs) Hf HQ. destruct (Hf s Hok) as (s' & -> & Hok' & Hl). exists s'. split; [done|]. split; [done|]. split.
  - eapply cache_weaken; [|by apply invalidate_range_ok]. intros A e [HV Hout]. apply list_elem_of_filter. split; [by apply HQ|done].
  - intros A e HA. destruct (Hl A e HA) as [HA' Hq]. apply list_elem_of_filter. split; [done|by apply Hs].
Qed.

Lemma inserts_lookup (es : list (Z * BlockEntry)) (m : gmap Z BlockEntry) A e : foldl (fun m p => <[p.1 := p.2]> m) m es !! A = Some e -> (A, e) ∈ es \/ m !! A = Some e.
Proof.
  revert m. induction es as [|[B eB] es IH]; intros m; cbn [foldl fst snd]; [by right|]. intros [H|[[<- <-]|[_ H]]%lookup_insert_Some]%IH; [left; by apply elem_of_cons; right|left; apply list_elem_of_here|by right].
Qed.

Lemma tstep_ok o st : sys_ok st -> top_ok o -> exists st', tstep o st = Some st' /\ sys_ok st'.
Proof.
  destruct st as [[s c] valid]. intros Hsys Ho. pose proof Hsys as (Hok & Hc & Hs). unfold tstep.
  destruct o as [Own mem u|Own before after A|Period A|Start Length|Start Length|Start Length| | |Tracking].
  - destruct (publish_spec Allocated Allocated XXH3 SMCSoftInvalidate (fun _ => eq_refl) (fun _ => eq_refl) mem u s Hok Ho) as (Armed & s1 & -> & Hok1 & _). cbn [mbind option_bind].
    set (es := unit_entries _ _ mem u) in *. assert (Hc1 : cache_ok DisableL2Cache VirtualMemSize (fun A e => (A, e) ∈ es ++ valid) c) by (eapply cache_weaken; [|exact Hc]; intros A e HV; apply elem_of_app; by right).
    assert (Hc2 : exists c', (if Own then cache_all es c else Some c) = Some c' /\ cache_ok DisableL2Cache VirtualMemSize (fun A e => (A, e) ∈ es ++ valid) c').
    { destruct Own; [|by exists c]. apply cache_all_ok; [done|]. intros A e He. apply elem_of_app. by left. }
    destruct Hc2 as (c' & -> & Hc'). cbn [mbind option_bind]. eexists. split; [done|]. split; [done|]. split; [done|]. intros A e HA. apply elem_of_app.
    destruct (inserts_lookup es (BlockList s) A e HA) as [?|?]; [by left|right; by apply Hs].
  - destruct (relink_spec Allocated Allocated XXH3 ValidateOnly (fun _ => eq_refl) (fun _ => eq_refl) before after A s Hok) as (h & Armed & s1 & -> & Hok1 & _ & Hsame & _). cbn [mbind option_bind].
    assert (Hs1 : forall B e, B <> A -> BlockList s1 !! B = Some e -> (B, e) ∈ valid) by (intros B e HB HBe; apply Hs; specialize (Hsame B HB); unfold GuestToHostMap.FindBlock in Hsame; congruence).
    unfold GuestToHostMap.FindBlock. destruct (BlockList s1 !! A) as [e|] eqn:HA.
    + assert (Hc1 : cache_ok DisableL2Cache VirtualMemSize (fun B eB => (B, eB) ∈ (A, e) :: valid) c) by (eapply cache_weaken; [|exact Hc]; intros B eB HV; by apply elem_of_cons; right).
      assert (Hc2 : exists c', (if Own && negb (h =? 0) then Cache A e true c else Some c) = Some c' /\ cache_ok DisableL2Cache VirtualMemSize (fun B eB => (B, eB) ∈ (A, e) :: valid) c').
      { destruct (Own && _); [|by exists c]. apply cache_mapping_ok; [done|apply list_elem_of_here]. }
      destruct Hc2 as (c' & -> & Hc'). cbn [mbind option_bind]. eexists. split; [done|]. split; [done|]. split; [done|]. intros B eB HB. apply elem_of_cons.
      destruct (decide (B = A)) as [->|]; [left; congruence|right; by apply Hs1].
    + eexists. split; [done|]. split; [done|]. split; [done|]. intros B eB HB. destruct (decide (B = A)) as [->|]; [congruence|by apply Hs1].
  - destruct (find_ok DisableL2Cache VirtualMemSize AverageAtLeast Inc Dec DynamicL1Cache _ Period A s c Hc Hs) as (h & c' & -> & Hc' & _). cbn [mbind option_bind]. by eexists.
  - destruct (invalidate_sys (InvalidateRange Start Length) (fun e => ~ touches (first_page Start) (last_page Start Length) e) Start Length s c valid Hsys) as (s' & -> & H');
      [apply invalidate_leaves|intros e Hout (p & Hp & Hr)%Exists_exists; by apply (Hout p)|]. cbn [mbind option_bind]. by eexists.
  - destruct (invalidate_sys (SoftInvalidateRange Start Length) (fun e => ~ touches (first_page Start) (last_page Start Length) e) Start Length s c valid Hsys) as (s' & -> & H');
      [apply soft_leaves|intros e Hout (p & Hp & Hr)%Exists_exists; by apply (Hout p)|]. cbn [mbind option_bind]. by eexists.
  - destruct (invalidate_sys _ (fun e => ~ stale_entry Start Length e) Start Length s c valid Hsys (precise_leaves Start Length)) as (s' & HS & H');
      [intros e Hout [(p & Hp & Hr)%Exists_exists _]; by apply (Hout p)|]. destruct (InvalidateRangePrecise Start Length s) as [[n s0]|]; [|done]. cbn [mbind option_bind] in *.
    injection HS as ->. by eexists.
  - eexists. split; [done|]. split; [done|]. split; [|done]. by apply flush_ok, lazy_ok.
  - eexists. split; [done|]. split; [apply clear_ok, Hok|]. split; [by apply (clear_local_ok _ _ _ c)|]. intros A e HA. cbn in HA. by rewrite lookup_empty in HA.
  - eexists. split; [done|]. split; [apply empty_ok|]. split; [by apply (clear_local_ok _ _ _ c)|]. intros A e HA. cbn in HA. by rewrite lookup_empty in HA.
Qed.

Lemma trun_ok ops st : sys_ok st -> Forall top_ok ops -> exists st', trun ops st = Some st' /\ sys_ok st'.
Proof.
  revert st. induction ops as [|o ops IH]; intros st H Hops; cbn [trun]; [by exists st|]. apply Forall_cons in Hops as [Ho Hops].
  destruct (tstep_ok o st H Ho) as (st1 & -> & H1). cbn [mbind option_bind]. by apply IH.
Qed.

(** C17. After any history from an empty map and a new cache, a lookup by the
    thread returns; for an address other than zero the host code it gives is
    that of a mapping of this address that no invalidation has met since it
    was made, and it gives one when the shared map has a block there. *)
Theorem thread_never_stale (Tracking : bool) (ops : list TOp) (Period A : Z) :
  Forall top_ok ops -> A <> 0 ->
  exists s c valid h c', trun ops (empty_map Tracking true, new_cache DynamicL1Cache, []) = Some (s, c, valid) /\ Lookup Period A s c = Some (h, c') /\
    (h <> 0 -> exists e, (A, e) ∈ valid /\ HostCode e = h) /\
    (h = 0 -> forall e, GuestToHostMap.FindBlock A s = Some e -> exists e', (A, e') ∈ valid /\ HostCode e' = 0).
Proof.
  intros Hops HA. destruct (trun_ok ops (empty_map Tracking true, new_cache DynamicL1Cache, [])) as ([[s c] valid] & Hrun & Hok & Hc & Hs); [|done|].
  { split; [apply empty_ok|]. split; [apply new_ok|]. intros B e HB. cbn in HB. by rewrite lookup_empty in HB. }
  destruct (find_ok DisableL2Cache VirtualMemSize AverageAtLeast Inc Dec DynamicL1Cache _ Period A s c Hc Hs) as (h & c' & HF & _ & H1 & H2).
  exists s, c, valid, h, c'. split; [done|]. split; [done|]. split; [by apply H1|by apply H2].
Qed.

(** An invalidated entry of L1 in slot zero keeps its host code and takes
    the guest address zero, so that the next lookup of guest address zero, on
    that thread, gives the host code of the invalidated block. *)
Theorem zero_finds_invalidated (Period A h : Z) (s : GuestToHostMap.t) (c : LookupCache.t) :
  L1Slot A c = 0 -> L1_at 0 c = mkEntry h A ->
  exists c', Lookup Period 0 s (InvalidateCache DisableL2Cache VirtualMemSize A c) = Some (h, c').
Proof.
  intros Hslot He. unfold InvalidateCache. rewrite Hslot, He. cbn [EGuest EHost]. rewrite Z.eqb_refl. set (c1 := set_L1 _ c).
  assert (Hz : forall c2, L1 c2 = L1 c1 -> exists c', Lookup Period 0 s c2 = Some (h, c')).
  { intros c2 H2. unfold LookupCache.FindBlock. assert (HS : L1Slot 0 c2 = 0) by (unfold L1Slot; by rewrite Z.shiftr_0_l, Z.land_0_l).
    assert (HL : L1_at 0 c2 = mkEntry h 0) by (unfold L1_at; rewrite H2; unfold c1; cbn; by rewrite lookup_insert_eq). rewrite HS, HL. cbn. by eexists. }
  destruct DisableL2Cache; [by apply Hz|]. destruct (Pointers c1 !! _); by apply Hz.
Qed.
End System.
