(* ===== verification/LookupWitness.v ===== *)
(** The theorems about the lookup caches at a concrete map: one unit of sixteen
    instructions at guest address 0x1040, translated to 0x200000, an exit of
    another block at 0x300000 linked to it, and what invalidations leave. *)
From S2P Require Import Prelude Granules LookupMap LookupLinks LookupMapSpec LookupInvalidate LookupRegister BlockLinker LinkSites LookupHistory LookupQuery LookupThread LookupThreadSpec LookupSystem.
From stdpp Require Import gmap.
Open Scope Z_scope.
Import CodeGranuleBitmap GuestToHostMap Publish BlockLinker.

(** ** The map *)

Definition ex_hash (bytes : list Z) (seed : Z) : Z := foldl (fun h b => u64 (h * 31 + b)) seed bytes.
Definition ex_mem (x : Z) : Z := x mod 256.
Definition ex_unit : Unit := mkUnit [0x1040] [0x1000] 0x1040 0x40 0x1fff00 [(0x1040, 0x200000)].
Definition ex_map : t := match PublishUnit (fun _ => true) (fun _ => true) ex_hash true ex_mem ex_unit (empty_map true true) with Some (_, s) => s | None => empty_map true true end.
Definition ex_entry : BlockEntry := default (mkBlockEntry 0 0 [] 0 0 0 0 0) (FindBlock 0x1040 ex_map).

Lemma ex_unit_ok : unit_ok ex_unit.
Proof.
  split; [repeat constructor; done|cbn; lia|]. intros A h. cbn. intros [= -> ->]%list_elem_of_singleton. apply list_elem_of_here.
Qed.

Lemma ex_map_ok : map_ok ex_map.
Proof.
  destruct (publish_spec (fun _ => true) (fun _ => true) ex_hash true (fun _ => eq_refl) (fun _ => eq_refl) ex_mem ex_unit (empty_map true true) (proj1 (empty_ok true)) ex_unit_ok)
    as (Armed & s1 & HP & Hok & _). unfold ex_map. by rewrite HP.
Qed.

Lemma ex_found : FindBlock 0x1040 ex_map = Some ex_entry.
Proof. vm_compute. reflexivity. Qed.

Lemma ex_on_page Start Length : first_page Start = 1 -> last_page Start Length = 1 -> on_pages (CodePages ex_map) (first_page Start) (last_page Start Length) 0x1040.
Proof. intros -> ->. exists 1, [0x1040]. split; [vm_compute; reflexivity|]. split; [lia|apply list_elem_of_here]. Qed.

Lemma invalidate_exact_witness : exists cs, rep ex_map cs /\ exists s', InvalidateRange 0x1000 64 ex_map = Some s' /\ FindBlock 0x1040 s' = None.
Proof.
  destruct (mo_links _ ex_map_ok) as [cs Hr]. exists cs. split; [exact Hr|].
  destruct (invalidate_exact 0x1000 64 ex_map cs ex_map_ok Hr) as (cs' & s' & HS & _ & HF & _). exists s'. split; [exact HS|].
  destruct (FindBlock 0x1040 s') as [e|] eqn:HE; [|reflexivity]. apply HF in HE as [_ HE]. destruct HE. by apply ex_on_page.
Defined.

(** A store of eight bytes before the unit, on its page, and one into it. *)
Lemma precise_exact_witness : exists cs, rep ex_map cs /\
  (exists n s', InvalidateRangePrecise 0x1000 8 ex_map = Some (n, s') /\ FindBlock 0x1040 s' = Some ex_entry) /\
  (exists n s', InvalidateRangePrecise 0x1044 8 ex_map = Some (n, s') /\ FindBlock 0x1040 s' = None).
Proof.
  destruct (mo_links _ ex_map_ok) as [cs Hr]. exists cs. split; [exact Hr|]. split.
  - destruct (precise_exact 0x1000 8 ex_map cs ex_map_ok Hr ltac:(lia) ltac:(lia) ltac:(lia)) as (n & cs' & s' & HS & _ & HF & _). exists n, s'. split; [exact HS|].
    apply HF. split; [exact ex_found|]. intros [_ HE]. vm_compute in HE. discriminate.
  - destruct (precise_exact 0x1044 8 ex_map cs ex_map_ok Hr ltac:(lia) ltac:(lia) ltac:(lia)) as (n & cs' & s' & HS & _ & HF & _). exists n, s'. split; [exact HS|].
    destruct (FindBlock 0x1040 s') as [e|] eqn:HE; [|reflexivity]. apply HF in HE as [HA HE]. rewrite ex_found in HA. injection HA as <-. destruct HE. split; [by apply ex_on_page|vm_compute; reflexivity].
Defined.

(** The page is not clear, its first granule is. *)
Lemma granules_never_miss_witness : map_ok ex_map /\ ProvablyClear 0x1000 64 (CodeGranules ex_map) = true /\ ProvablyClear 0x1040 1 (CodeGranules ex_map) = false /\
  ~ (0x1000 <= 0x1050 < 0x1000 + 64).
Proof.
  assert (Hc : ProvablyClear 0x1000 64 (CodeGranules ex_map) = true) by (vm_compute; reflexivity).
  split; [exact ex_map_ok|]. split; [exact Hc|]. split; [vm_compute; reflexivity|].
  apply (granules_never_miss ex_map 0x1000 64 0x1040 0x1050 ex_entry ex_map_ok); [lia|lia|exact Hc|exact ex_found|].
  split; [exists 0x1000; split; [vm_compute; apply list_elem_of_here|vm_compute; reflexivity]|left; vm_compute; split; [discriminate|reflexivity]].
Defined.

Definition ex_tail (Begin : Z) : Z * Z := (0x1040, 0x40).

Lemma store_query_exact_witness : RangeOverlapsCompiledCode ex_tail 0x1000 8 ex_map = false /\ RangeOverlapsCompiledCode ex_tail 0x1040 8 ex_map = true /\
  exists A e, FindBlock A ex_map = Some e /\ EntryOverlaps e 0x1040 (0x1040 + 8) = true.
Proof.
  assert (Hq : RangeOverlapsCompiledCode ex_tail 0x1040 8 ex_map = true) by (vm_compute; reflexivity). split; [vm_compute; reflexivity|]. split; [exact Hq|].
  assert (Htail : forall A e, FindBlock A ex_map = Some e -> ex_tail (BlockBegin e) = (ExtentStart e, ExtentLength e)).
  { intros A e HA. unfold FindBlock in HA. change (BlockList ex_map) with (<[0x1040 := ex_entry]> (∅ : gmap Z BlockEntry)) in HA.
    apply lookup_insert_Some in HA as [[<- <-]|[_ HA]]; [vm_compute; reflexivity|by rewrite lookup_empty in HA]. }
  destruct (store_query_exact ex_tail ex_map 0x1040 8 ex_map_ok ltac:(lia) ltac:(lia) ltac:(lia) Htail) as [_ H]. destruct (H Hq) as (A & e & HA & _ & Ho). by exists A, e.
Defined.

(** A loop entered in its middle. *)
Definition ex_loop : Unit := mkUnit [0x1060] [0x1000] 0x1040 0x40 0x1fff00 [(0x1060, 0x200000)].

Lemma store_query_misses_witness : exists Armed s e, PublishUnit (fun _ => true) (fun _ => true) ex_hash false ex_mem ex_loop (empty_map true true) = Some (Armed, s) /\
  FindBlock 0x1060 s = Some e /\ ExtentStart e <= 0x1040 < ExtentStart e + ExtentLength e /\ RangeOverlapsCompiledCode (fun _ => (0x1060, 0x40)) 0x1040 8 s = false.
Proof.
  destruct (store_query_misses (fun _ => (0x1060, 0x40)) ex_hash false true ex_mem ex_loop 0x1060 0x200000 0x1040 8) as (Armed & s & e & HP & HF & Hx & HQ); try (cbn; lia); try reflexivity.
  - split; [repeat constructor; done|cbn; lia|]. intros A h. cbn. intros [= -> ->]%list_elem_of_singleton. apply list_elem_of_here.
  - exists Armed, s, e. split; [exact HP|]. split; [exact HF|]. split; [apply Hx; lia|exact HQ].
Defined.

Lemma soft_roundtrip_witness : exists s1, SoftInvalidateRange 0x1000 64 ex_map = Some s1 /\ FindBlock 0x1040 s1 = None /\
  exists Armed s2, Relink (fun _ => true) (fun _ => true) ex_hash (fun _ => false) ex_mem ex_mem 0x1040 s1 = Some (0x200000, Armed, s2) /\ FindBlock 0x1040 s2 = Some ex_entry.
Proof.
  destruct (soft_roundtrip ex_hash (fun _ => false) 0x1000 64 0x1040 ex_entry ex_map ex_mem ex_map_ok ex_found) as (s1 & HS & H1 & _ & Hrel); [by apply ex_on_page|vm_compute; reflexivity|vm_compute; reflexivity|].
  exists s1. split; [exact HS|]. split; [exact H1|]. destruct (Hrel ex_mem ex_mem) as (h & Armed & s2 & HR & _ & Hsame & _). destruct Hsame as [Hh HF]; [done|done|vm_compute; reflexivity|].
  exists Armed, s2. split; [|exact HF]. rewrite HR, Hh. vm_compute. reflexivity.
Defined.

(** ** A linked exit *)

Definition ex_records (r : Z) : PPC64BlockLinkRecord := mkRecord 0x1040 (- 0x100) 0x60000000 0x48000010 0 0.
Definition ex_site (r : Z) : Prop := r = 0x300100.
Definition ex_host : Host := mkHost (fun a => if a =? 0x300000 then 0x60000000 else 0) (fun _ => 0).
Abbreviation ex_run := (run ex_records false ex_hash true (fun _ => false)).
Definition ex_ops : list Op := [OPublish ex_mem ex_unit; OLink false 0x300100 0 0x200000].

Lemma ex_layout : layout ex_records ex_site.
Proof. split; [intros r r' a -> -> ?; done|]. intros r -> _. split; [vm_compute; discriminate|unfold is_branch; vm_compute; discriminate]. Qed.


(** ** A thread *)

Definition ex_at_least (Hits Period Bound : Z) : bool := Bound * Period <=? Hits * 1000.
Abbreviation ex_trun := (trun false true (2 ^ 36) ex_at_least 100 50 ex_hash true (fun _ => false)).
Ltac ex_ops_ok := repeat (apply Forall_cons; split; [first [exact ex_unit_ok|exact I]|]); apply Forall_nil.
Abbreviation ex_lookup := (LookupCache.FindBlock false true (2 ^ 36) ex_at_least 100 50).

(** Found after it is published and looked up, not after the invalidation. *)
Lemma thread_never_stale_witness :
  (exists s c valid c', ex_trun [TPublish false ex_mem ex_unit; TFind 1 0x1040] (empty_map true true, LookupCache.new_cache true, []) = Some (s, c, valid) /\
     ex_lookup 1 0x1040 s c = Some (0x200000, c')) /\
  (exists s c valid c', ex_trun [TPublish true ex_mem ex_unit; TFind 1 0x1040; TInvalidate 0x1000 64] (empty_map true true, LookupCache.new_cache true, []) = Some (s, c, valid) /\
     ex_lookup 1 0x1040 s c = Some (0, c')).
Proof.
  split.
  - destruct (thread_never_stale false true (2 ^ 36) ex_at_least 100 50 ex_hash true (fun _ => false) true [TPublish false ex_mem ex_unit; TFind 1 0x1040] 1 0x1040) as (s & c & valid & h & c' & Hr & Hf & _ & H0);
      [by ex_ops_ok|lia|]. exists s, c, valid, c'. split; [exact Hr|]. rewrite Hf. do 2 f_equal.
    assert (Hs : Some (h, c') = (match ex_trun [TPublish false ex_mem ex_unit; TFind 1 0x1040] (empty_map true true, LookupCache.new_cache true, []) with Some (s, c, _) => ex_lookup 1 0x1040 s c | None => None end))
      by (rewrite Hr; symmetry; exact Hf). vm_compute in Hs. congruence.
  - destruct (thread_never_stale false true (2 ^ 36) ex_at_least 100 50 ex_hash true (fun _ => false) true [TPublish true ex_mem ex_unit; TFind 1 0x1040; TInvalidate 0x1000 64] 1 0x1040)
      as (s & c & valid & h & c' & Hr & Hf & H1 & _); [by ex_ops_ok|lia|]. exists s, c, valid, c'. split; [exact Hr|]. rewrite Hf. do 2 f_equal.
    destruct (decide (h = 0)) as [->|Hne]; [reflexivity|]. destruct (H1 Hne) as (e & He & _). exfalso.
    assert (Hv : valid = []); [|rewrite Hv in He; by apply elem_of_nil in He].
    assert (Hs : Some valid = (match ex_trun [TPublish true ex_mem ex_unit; TFind 1 0x1040; TInvalidate 0x1000 64] (empty_map true true, LookupCache.new_cache true, []) with Some (_, _, v) => Some v | None => None end))
      by (rewrite Hr; reflexivity). vm_compute in Hs. congruence.
Defined.

(** A block at 0x8000, whose slot is zero. *)
Lemma zero_finds_invalidated_witness : exists c', ex_lookup 1 0 (empty_map true true)
  (LookupCache.InvalidateCache false (2 ^ 36) 0x8000 (LookupCache.Publish 0 0x200000 0x8000 (LookupCache.new_cache true))) = Some (0x200000, c').
Proof.
  apply (zero_finds_invalidated false true (2 ^ 36) ex_at_least 100 50 1 0x8000 0x200000 (empty_map true true) (LookupCache.Publish 0 0x200000 0x8000 (LookupCache.new_cache true)));
    vm_compute; reflexivity.
Defined.
